(* ===== verification/_CoqProject ===== *)
-Q . S2P
Prelude.v
ArithUint.v
Serialize.v
Digest.v
Sha.v
Ripemd.v
Hash.v
Amount.v
Transaction.v
Chain.v
Params.v
Equihash.v
Pow.v
Script.v
Address.v
Interpreter.v
SigHash.v
Merkle.v
Coins.v
NoteTree.v
Validation.v
Block.v
Connect.v
Select.v
IndexInv.v
Activate.v
Reconsider.v
