(* ===== verification/Prelude.v ===== *)
(** * Verification of the BitcoinZ node core

    BitcoinZ is a full node of a proof-of-work currency derived from Bitcoin
    and Zcash. This development models the part of the node that decides what
    is valid and which chain it follows: the data of the chain and its wire
    format, the hash functions, the consensus parameters, proof of work and
    Equihash, scripts and signature hashes, Merkle trees, the coins view, the
    rules for transactions and blocks, the connection of blocks to the state,
    and the choice and activation of the best chain. It follows the C++ sources
    under src/ function by function; names are those of the source.

    ** The parts and how they interact

    Everything the node hashes, signs or sends is first written as bytes by the
    serialization templates. Transactions and blocks are structures of such
    fields; their identifiers are double SHA-256 hashes of their encodings. An
    input is valid when its script and the script of the output it spends
    evaluate to true; the evaluation checks signatures over the signature hash
    of the transaction. The Merkle root in a block header commits to its
    transactions and supports proofs of inclusion.

    Blocks form a tree of index entries, from which the active chain is the
    branch of the best tip; the difficulty of the next block is computed from
    the last entries of its branch in 256-bit arithmetic, and a header carries
    an Equihash solution. The consensus parameters say which rules hold at which
    height and how the subsidy is shared.

    A block is checked by itself (CheckBlock), in the context of its predecessor
    (ContextualCheckBlock), and against the state when it is connected
    (ConnectBlock). The state is the coins view: unspent outputs, nullifiers,
    and the trees of note commitments by their roots, cached in layers over the
    database. Connecting writes undo data that disconnecting replays. The index
    keeps the candidates for the tip; FindMostWorkChain chooses among them and
    ActivateBestChain moves the state there by disconnecting and connecting
    blocks, marking those that turn out invalid.

    ** The files

    - Prelude.v (this file): results of fallible code with their notation,
      fixed-width integers, digits, and lemmas on lists and options.
    - ArithUint.v: arith_uint256.h, arith_uint256.cpp. [base_uint] is the array
      of 32-bit limbs, its operators the loops over it.
    - Serialize.v: serialize.h, crypto/common.h. A [codec] is the pair of
      overloads of a type; [Lawful] is the interface its clients rely on.
    - Digest.v, Sha.v, Ripemd.v: crypto/sha256.cpp, sha512.cpp, sha1.cpp,
      ripemd160.cpp. [Digest] is the interface of a buffered hasher, the four
      functions are its instances.
    - Hash.v: hash.h, hash.cpp, crypto/hmac_sha256.cpp, hmac_sha512.cpp.
    - Amount.v: amount.h, amount.cpp, utilmoneystr.cpp.
    - Transaction.v: primitives/transaction.h, transaction.cpp, block.h,
      block.cpp, zcash/Proof.hpp.
    - Chain.v: chain.h, chain.cpp. The state is a store of index entries by
      pointer, and the vector of the active chain.
    - Params.v: consensus/params.h, params.cpp, upgrades.cpp, funding.cpp, the
      main network of chainparams.cpp, GetBlockSubsidy of main.cpp.
    - Equihash.v: crypto/equihash.h, equihash.cpp, the verifier, over BLAKE2b.
    - Pow.v: pow.cpp.
    - Script.v: script/script.h, script.cpp.
    - Address.v: base58.cpp, key_io.cpp and the destinations of
      script/standard.cpp.
    - Interpreter.v: script/interpreter.cpp, the evaluation of scripts, for any
      signature checker.
    - SigHash.v: script/interpreter.cpp, signature hashes and the transaction
      checker.
    - Merkle.v: consensus/merkle.cpp, merkleblock.h, merkleblock.cpp.
    - Coins.v: coins.h, coins.cpp. [CCoinsView] is the interface between the
      layers, [CCoinsViewCache] the cache, [MerkleTree] what it uses of a tree.
    - NoteTree.v: zcash/IncrementalMerkleTree.hpp, IncrementalMerkleTree.cpp,
      zcash/util.cpp. [TreeHash] is the template parameter, [note_tree] the
      instance of [MerkleTree].
    - Validation.v: the transaction rules of main.cpp (CheckTransaction,
      ContextualCheckTransaction, expiry and lock times, input checks).
    - Block.v: the block rules of main.cpp (CheckBlockHeader, CheckBlock,
      ContextualCheckBlockHeader, ContextualCheckBlock).
    - Connect.v: ConnectBlock and DisconnectBlock of main.cpp with the undo
      data, in a monad over the cache.
    - Select.v: the block index operations of main.cpp (AddToBlockIndex,
      ReceivedBlockTransactions, the failure marks, FindMostWorkChain,
      PruneBlockIndexCandidates) and the order of candidates.
    - IndexInv.v: the invariant of the index, the relation of its steps, and the
      properties of the choice.
    - Activate.v: ConnectTip, DisconnectTip, ActivateBestChainStep,
      ActivateBestChain, InvalidateBlock and ReconsiderBlock of main.cpp.
      [ChainState] is what they use of the state, with its laws; the coins view
      with ConnectBlock and DisconnectBlock is the instance.
    - Reconsider.v: what ReconsiderBlock does to the index.

    ** Conventions

    A machine integer of width [w] is a [Z] in the range [uint w] or [sint w];
    [wrap] and [swrap] are the conversions, written where the source converts
    or where an operation can overflow. Bytes are such integers of width 8 and
    a byte string is a list of them; a [uint256] is its 32 bytes. Code that
    throws, fails an assertion or rejects returns a [result] with an error type
    of its component; code that the source leaves undefined (an index out of
    bounds, a division by zero) is an error of its own, which the theorems
    exclude. Objects are records and methods functions from the old object to
    the new one. Loops that are not structural have fuel: the number of bytes
    that remain, the height of an entry, the number of bits of a counter, the
    number of candidates and entries of the index. For each the theorems say
    that the fuel suffices: the functions return a value, or an error that the
    source has too. ActivateBestChain is the exception that the source itself
    makes: with a block that fails as corrupt its loop does not end, and the
    theorem says so for every amount of fuel.

    ** What the theorems show

    - Connection: a block is connected only if it satisfies the rules, its value
      is accounted for, and the state after it is the specified one;
      disconnecting gives back the state before.
    - Choice and activation: arriving headers and blocks, the search, and
      connecting, disconnecting and failing blocks keep the index consistent; the
      search ends and returns a valid candidate with the most work; activation
      reaches it or stops at a failed assertion of connecting a block.
    - Flaws: the JoinSplit proofs of a received block are not verified, because
      the mark that CheckBlock sets with the verifier disabled makes the second
      CheckBlock return at once; a block that is corrupt on disk makes the
      activation loop run for ever; reconsidering a block clears the failure
      flags of its ancestors without making them candidates.
    - Blocks and transactions: each check accepts exactly what its stated rules
      allow and reports the error of the first one that is broken.
    - Coins view: the layers of caches refine a single map of the state, and
      flushing moves the changes down unchanged.
    - Note commitments: the incremental tree has the root of the full tree over
      its leaves, witnesses keep authenticating their leaf, both survive being
      stored, and the table of empty roots of the Sprout tree is right.
    - Scripts: parsing inverts assembling, scans terminate, evaluation keeps
      its limits and always answers, the standard spends succeed exactly under
      their conditions, multisignatures are an ordered matching.
    - Signature hashes: a hash that signs everything binds the whole
      transaction; checking does not depend on signatures or caches.
    - Merkle trees: the one-pass root is the recursive one, branches and
      partial trees prove inclusion, the mutation flag is exact.
    - Proof of work: the next target is the specified one with no overflow on
      any chain, acceptance of a hash is exact, and the Equihash verifier accepts
      exactly the solutions of the definition.
    - Chain: skip pointers lead where a walk leads, linking keeps the tree
      well formed, the active chain is the branch of its tip, locators and
      median times behave.
    - Parameters: epochs change at activation heights, funding streams pay at
      most their share, the total subsidy stays within the money supply.
    - Amounts and addresses: value sums never wrap; printing and parsing are
      inverse within the limits of the parsers.
    - Arithmetic: limb operations are the integers modulo 2^256, division is
      exact, the compact encoding is a rounding with a normal form, and its
      decoding flags exactly the negative and oversized values.
    - Serialization: what is written reads back and every value has one
      accepted encoding, for integers, vectors, transactions and blocks.
    - Hashing: the unrolled transforms are the loops of the standard, and a
      hasher fed in pieces computes the hash of the whole; the same for HMAC
      and SipHash.

    Where a conclusion depends on a hash function having no collision, it is
    stated as a disjunction: the conclusion holds, or two different ones of an
    explicit list of byte strings, those hashed in the situation, have the same
    hash.

    ** What is not modelled

    Third-party functions are arguments: BLAKE2b of libsodium with the law that
    it can be fed in pieces, the signature and low-S tests of libsecp256k1, the
    Pedersen hash and the proof verifiers of librustzcash. The provers, the keys
    and notes of the shielded protocol and the elliptic-curve operations on keys
    rest on such libraries. Databases, files, network, wallet, remote procedure
    calls, mining threads, logging and start-up are input, output and
    concurrency around the modelled code; connecting and activating are modelled
    with the lock held and without crashes between writes. The memory pool,
    Bloom filters, the compressed encoding of coins and undo data and the
    payment address encodings of the shielded protocol are pure enough to be
    modelled and are left out. *)

From stdpp Require Export base numbers list option gmap strings.
From stdpp Require Export fin_maps list_numbers.
From Stdlib Require Export ZArith Lia Zbitwise.

#[export] Set Default Goal Selector "!".

Local Open Scope Z_scope.

Coercion Z.of_nat : nat >-> Z.

(** ** Results of fallible code *)

(** The outcome of code that may fail: a value, or an error of the
    component's own error type (a thrown exception, a failed assertion, a
    rejection code). *)
Inductive result (E A : Type) : Type :=
| Ok (a : A)
| Err (e : E).
Arguments Ok {E A} a.
Arguments Err {E A} e.

Definition bindR {E A B : Type} (m : result E A) (k : A -> result E B) : result E B :=
  match m with
  | Ok a => k a
  | Err e => Err e
  end.

Definition is_ok {E A : Type} (m : result E A) : bool :=
  match m with Ok _ => true | Err _ => false end.

Declare Scope code_scope.
Delimit Scope code_scope with code.
Notation "'let*' x ':=' m 'in' k" := (bindR m (fun x => k))
  (at level 10, x pattern, m at level 100, k at level 200) : code_scope.
(** [require c orelse e in k]: the early return [if (!c) return e;]. *)
Notation "'require' c 'orelse' e 'in' k" :=
  (if c then k else Err e)
  (at level 10, c at level 100, e at level 100, k at level 200) : code_scope.

Lemma bindR_Ok {E A B} (m : result E A) (k : A -> result E B) b :
  bindR m k = Ok b -> exists a, m = Ok a /\ k a = Ok b.
Proof. destruct m as [a|e]; simpl; [eauto | discriminate]. Qed.

Lemma bindR_assoc {E A B C} (m : result E A) (k : A -> result E B) (h : B -> result E C) :
  bindR (bindR m k) h = bindR m (fun a => bindR (k a) h).
Proof. by destruct m. Qed.

Lemma bindR_ext {E A B} (m : result E A) (k1 k2 : A -> result E B) : (forall a, k1 a = k2 a) -> bindR m k1 = bindR m k2.
Proof. intros Hk. destruct m; [apply Hk|done]. Qed.

Lemma bindR_Err {E A B} (m : result E A) (k : A -> result E B) e :
  bindR m k = Err e -> m = Err e \/ exists a, m = Ok a /\ k a = Err e.
Proof. destruct m as [a|e']; simpl; [eauto | intros [= ->]; auto]. Qed.

(** ** Fixed-width machine integers

    An unsigned [w]-bit integer is a [Z] in [[0, 2^w)]; conversions wrap, as
    the integral conversions of C++ do. Signed integers are two's complement. *)
Definition wrap (w z : Z) : Z := z mod 2 ^ w.
Definition swrap (w z : Z) : Z := (z + 2 ^ (w - 1)) mod 2 ^ w - 2 ^ (w - 1).

Abbreviation to_u8 := (wrap 8).
Abbreviation to_u16 := (wrap 16).
Abbreviation to_u32 := (wrap 32).
Abbreviation to_u64 := (wrap 64).
Abbreviation to_i32 := (swrap 32).
Abbreviation to_i64 := (swrap 64).

Definition uint (w z : Z) : Prop := 0 <= z < 2 ^ w.
Definition sint (w z : Z) : Prop := - 2 ^ (w - 1) <= z < 2 ^ (w - 1).

#[export] Instance uint_dec w z : Decision (uint w z).
Proof. unfold uint. apply _. Defined.
#[export] Instance sint_dec w z : Decision (sint w z).
Proof. unfold sint. apply _. Defined.

Abbreviation bytes := (list Z).
Abbreviation bytes_ok := (Forall (uint 8)).

Definition INT64_MAX : Z := 2 ^ 63 - 1.
Definition INT64_MIN : Z := - 2 ^ 63.
Definition INT_MAX : Z := 2 ^ 31 - 1.
Definition INT_MIN : Z := - 2 ^ 31.

Lemma pow2_pos w : 0 <= w -> 0 < 2 ^ w.
Proof. intros. apply Z.pow_pos_nonneg; lia. Qed.

Lemma wrap_range w z : 0 <= w -> uint w (wrap w z).
Proof. intros. apply Z.mod_pos_bound, pow2_pos; lia. Qed.

Lemma wrap_small w z : uint w z -> wrap w z = z.
Proof. apply Z.mod_small. Qed.

Lemma swrap_range w z : 0 < w -> sint w (swrap w z).
Proof.
  intros Hw. unfold sint, swrap.
  pose proof (Z.mod_pos_bound (z + 2 ^ (w - 1)) (2 ^ w) ltac:(apply pow2_pos; lia)).
  assert (2 ^ w = 2 * 2 ^ (w - 1)) by (rewrite <- Z.pow_succ_r by lia; f_equal; lia).
  lia.
Qed.

Lemma swrap_small w z : 0 < w -> sint w z -> swrap w z = z.
Proof.
  intros Hw [H1 H2]. unfold swrap.
  assert (2 ^ w = 2 * 2 ^ (w - 1)) by (rewrite <- Z.pow_succ_r by lia; f_equal; lia).
  rewrite Z.mod_small; lia.
Qed.

(** A single-bit mask tests that bit. *)
Lemma land_pow2_eqb x n : 0 <= n -> (Z.land x (2 ^ n) =? 0) = negb (Z.testbit x n).
Proof.
  intros Hn. destruct (Z.testbit x n) eqn:E.
  - apply Z.eqb_neq. intros H%(f_equal (fun z => Z.testbit z n)).
    rewrite Z.land_spec, Z.bits_0, E, Z.pow2_bits_true in H by lia. done.
  - apply Z.eqb_eq, Z.bits_inj'. intros m Hm.
    rewrite Z.land_spec, Z.bits_0. destruct (Z.eq_dec m n) as [->|]; [by rewrite E|].
    rewrite Z.pow2_bits_false by lia. apply andb_false_r.
Qed.

Lemma testbit_top x n : 0 <= n -> 0 <= x < 2 ^ (n + 1) -> Z.testbit x n = (2 ^ n <=? x).
Proof.
  intros Hn Hx. destruct (Z.leb_spec (2 ^ n) x) as [Hle|Hlt].
  - pose proof (pow2_pos n Hn).
    assert (Z.log2 x = n) as <- by (apply Z.log2_unique; [lia|replace (Z.succ n) with (n + 1) by lia; lia]).
    apply Z.bit_log2. lia.
  - destruct (Z.eq_dec x 0) as [->|]; [apply Z.bits_0|].
    apply Z.bits_above_log2; [lia|]. apply Z.log2_lt_pow2; lia.
Qed.

(** Disjoint bit ranges: an [or] that is an addition. *)
Lemma land_disjoint s c y : 0 <= s -> 0 <= c < 2 ^ s -> Z.land c (y * 2 ^ s) = 0.
Proof.
  intros Hs Hc. apply Z.bits_inj'. intros n Hn. rewrite Z.land_spec, Z.bits_0.
  destruct (Z_lt_le_dec n s).
  - by rewrite Z.mul_pow2_bits_low, andb_false_r.
  - destruct (Z.eq_dec c 0) as [->|]; [by rewrite Z.bits_0|].
    rewrite Z.bits_above_log2; [done|lia|].
    apply Z.log2_lt_pow2; [lia|]. assert (2 ^ s <= 2 ^ n) by (apply Z.pow_le_mono_r; lia). lia.
Qed.

Lemma lor_range w a b : 0 <= w -> 0 <= a < 2 ^ w -> 0 <= b < 2 ^ w -> 0 <= Z.lor a b < 2 ^ w.
Proof.
  intros Hw Ha Hb. assert (Z.lor a b mod 2 ^ w = Z.lor a b) as <-; [|apply Z.mod_pos_bound, pow2_pos; lia].
  rewrite <- Z.land_ones, Z.land_lor_distr_l, !Z.land_ones, !Z.mod_small by lia. done.
Qed.

Lemma lor_disjoint s c y : 0 <= s -> 0 <= c < 2 ^ s -> Z.lor c (y * 2 ^ s) = c + y * 2 ^ s.
Proof. intros Hs Hc. pose proof (land_disjoint s c y Hs Hc). rewrite <- Z.add_lor_land. lia. Qed.

Lemma lor_add s c y :
  0 <= s -> 0 <= c < 2 ^ s -> y mod 2 ^ s = 0 -> Z.lor c y = c + y.
Proof.
  intros Hs Hc Hy. pose proof (pow2_pos s Hs).
  rewrite (Z.div_mod y (2 ^ s)), Hy, Z.add_0_r, Z.mul_comm by lia. by apply lor_disjoint.
Qed.

(** Clear the power constants of the usual widths, so that [lia] sees them. *)
Ltac widths :=
  change (2 ^ 7) with 128 in *; change (2 ^ 8) with 256 in *;
  change (2 ^ 15) with 32768 in *; change (2 ^ 16) with 65536 in *;
  change (2 ^ 31) with 2147483648 in *; change (2 ^ 32) with 4294967296 in *;
  change (2 ^ 63) with 9223372036854775808 in *;
  change (2 ^ 64) with 18446744073709551616 in *.

Ltac solve_uint := unfold uint, sint in *; cbn [Z.sub Z.opp Z.add Z.pos_sub Pos.pred_double] in *; widths; lia.

(** ** Little-endian positional values

    [lev w l] is the number whose base-[2^w] digits are [l], least
    significant first: the value of the limb array of [base_uint] for
    [w = 32] and of a little-endian byte string for [w = 8]. *)
Fixpoint lev (w : Z) (l : list Z) : Z :=
  match l with
  | [] => 0
  | d :: l' => d + 2 ^ w * lev w l'
  end.

Fixpoint digits (w : Z) (n : nat) (z : Z) : list Z :=
  match n with
  | O => []
  | S n' => z mod 2 ^ w :: digits w n' (z / 2 ^ w)
  end.

Section lev.
Context (w : Z) (Hw : 0 < w).
Implicit Types l : list Z.

Lemma lev_app l1 l2 : lev w (l1 ++ l2) = lev w l1 + 2 ^ (w * length l1) * lev w l2.
Proof.
  induction l1 as [|d l1 IH]; cbn [lev app length].
  - rewrite Z.mul_0_r. change (2 ^ 0) with 1. lia.
  - rewrite IH, Nat2Z.inj_succ, Z.mul_succ_r, Z.pow_add_r by lia. ring.
Qed.

Lemma lev_bound l : Forall (uint w) l -> 0 <= lev w l < 2 ^ (w * length l).
Proof.
  induction 1 as [|d l Hd Hl IH]; cbn [lev length].
  - rewrite Z.mul_0_r. change (2 ^ 0) with 1. lia.
  - rewrite Nat2Z.inj_succ, Z.mul_succ_r, Z.pow_add_r by lia.
    unfold uint in Hd. nia.
Qed.

Lemma length_digits n z : length (digits w n z) = n.
Proof. revert z; induction n; intros; cbn; auto. Qed.

Lemma digits_ok n z : Forall (uint w) (digits w n z).
Proof.
  revert z; induction n; intros; cbn [digits]; constructor; auto.
  apply Z.mod_pos_bound, pow2_pos; lia.
Qed.

Lemma lev_digits n z : lev w (digits w n z) = z mod 2 ^ (w * n).
Proof.
  revert z; induction n as [|n IH]; intros z; cbn [digits lev].
  - rewrite Z.mul_0_r, Z.mod_1_r. done.
  - rewrite IH, Nat2Z.inj_succ, Z.mul_succ_r, Z.pow_add_r by lia.
    rewrite (Z.mul_comm (2 ^ (w * n))), Z.rem_mul_r; [lia| |].
    + pose proof (pow2_pos w). lia.
    + apply pow2_pos; lia.
Qed.

Lemma lev_cons_mod d l : uint w d -> (d + 2 ^ w * lev w l) mod 2 ^ w = d.
Proof.
  intros. rewrite Z.mul_comm, Z.mod_add by (pose proof (pow2_pos w); lia).
  by apply wrap_small.
Qed.

Lemma lev_cons_div d l : uint w d -> (d + 2 ^ w * lev w l) / 2 ^ w = lev w l.
Proof.
  intros Hd. rewrite Z.mul_comm, Z.div_add by (pose proof (pow2_pos w); lia).
  rewrite Z.div_small; [lia | done].
Qed.

Lemma digits_lev l : Forall (uint w) l -> digits w (length l) (lev w l) = l.
Proof.
  induction 1 as [|d l Hd Hl IH]; cbn [lev length digits]; [done|].
  rewrite lev_cons_mod, lev_cons_div, IH by done. done.
Qed.

Lemma lev_inj l1 l2 :
  Forall (uint w) l1 -> Forall (uint w) l2 -> length l1 = length l2 ->
  lev w l1 = lev w l2 -> l1 = l2.
Proof.
  intros H1 H2 Hlen Heq.
  rewrite <- (digits_lev l1), <- (digits_lev l2) by done. congruence.
Qed.

Lemma lev_replicate_0 n : lev w (replicate n 0) = 0.
Proof. induction n as [|n IH]; cbn [replicate lev]; [done|]. rewrite IH. lia. Qed.

Lemma lev_nonneg l : Forall (uint w) l -> 0 <= lev w l.
Proof. intros H. by apply lev_bound. Qed.

Lemma lev_0 l : Forall (uint w) l -> lev w l = 0 -> l = replicate (length l) 0.
Proof.
  induction 1 as [|d l Hd Hl IH]; cbn [lev length replicate]; [done|].
  intros Hz. pose proof (lev_nonneg l Hl). pose proof (pow2_pos w).
  unfold uint in Hd. assert (d = 0) as -> by nia.
  f_equal. apply IH. nia.
Qed.

Lemma lev_alter f (i : nat) l x :
  l !! i = Some x -> lev w (alter f i l) = lev w l + 2 ^ (w * i) * (f x - x).
Proof.
  revert i. induction l as [|y l IH]; intros [|i] Hi; try done; simpl in Hi; simplify_eq.
  - cbn. rewrite Z.mul_0_r. change (2 ^ 0) with 1. lia.
  - change (alter f (S i) (y :: l)) with (y :: alter f i l). cbn [lev].
    rewrite (IH _ Hi), Nat2Z.inj_succ, Z.mul_succ_r, Z.pow_add_r by lia. ring.
Qed.

Lemma lev_take n l : Forall (uint w) l -> lev w (take n l) = lev w l mod 2 ^ (w * n).
Proof.
  intros Hl. destruct (decide (length l <= n)%nat) as [Hn|Hn].
  - rewrite take_ge by lia. pose proof (lev_bound l Hl) as Hb. rewrite Z.mod_small; [done|].
    split; [lia|]. eapply Z.lt_le_trans; [apply Hb|]. apply Z.pow_le_mono_r; nia.
  - rewrite <- (take_drop n l) at 2. rewrite lev_app, length_take, Nat.min_l by lia.
    rewrite Z.mul_comm, Z.mod_add by (pose proof (pow2_pos (w * n)); lia).
    rewrite Z.mod_small; [done|].
    pose proof (lev_bound (take n l) ltac:(by apply Forall_take)) as Hb.
    rewrite length_take, Nat.min_l in Hb by lia. done.
Qed.

Lemma lev_drop n l : Forall (uint w) l -> lev w (drop n l) = lev w l / 2 ^ (w * n).
Proof.
  intros Hl. destruct (decide (length l <= n)%nat) as [Hn|Hn].
  - rewrite drop_ge by lia. pose proof (lev_bound l Hl) as Hb. rewrite Z.div_small; [done|].
    split; [lia|]. eapply Z.lt_le_trans; [apply Hb|]. apply Z.pow_le_mono_r; nia.
  - rewrite <- (take_drop n l) at 2. rewrite lev_app, length_take, Nat.min_l by lia.
    rewrite Z.mul_comm, Z.div_add by (pose proof (pow2_pos (w * n)); lia).
    rewrite Z.div_small; [lia|].
    pose proof (lev_bound (take n l) ltac:(by apply Forall_take)) as Hb.
    rewrite length_take, Nat.min_l in Hb by lia. done.
Qed.
End lev.

(** ** Byte-order helpers of crypto/common.h

    The platform-independent reading of [memcpy] followed by [leNNtoh] or
    [beNNtoh]: the bytes of the integer, least (most) significant first. *)
Definition ReadLE16 (p : bytes) : Z := lev 8 (take 2 p).
Definition ReadLE32 (p : bytes) : Z := lev 8 (take 4 p).
Definition ReadLE64 (p : bytes) : Z := lev 8 (take 8 p).
Definition WriteLE16 (x : Z) : bytes := digits 8 2 x.
Definition WriteLE32 (x : Z) : bytes := digits 8 4 x.
Definition WriteLE64 (x : Z) : bytes := digits 8 8 x.
Definition ReadBE32 (p : bytes) : Z := lev 8 (rev (take 4 p)).
Definition ReadBE64 (p : bytes) : Z := lev 8 (rev (take 8 p)).
Definition WriteBE32 (x : Z) : bytes := rev (digits 8 4 x).
Definition WriteBE64 (x : Z) : bytes := rev (digits 8 8 x).

(** The characters of a string literal. *)
Definition ascii_bytes (s : String.string) : bytes := map (fun c => Z.of_nat (Ascii.nat_of_ascii c)) (String.list_ascii_of_string s).
