(* ===== verification/ArithUint.v ===== *)
(** * 256-bit unsigned arithmetic (src/arith_uint256.h, src/arith_uint256.cpp)

    [base_uint<256>] is the array [pn] of eight 32-bit limbs, least
    significant first; the operators are the loops of the source over that
    array, on 32- and 64-bit machine integers. The theorems relate each loop
    to arithmetic on the number [val a] the array represents, modulo [2^256]:
    this is the refinement that the proof-of-work code relies on. *)

From S2P Require Import Prelude.
Local Open Scope Z_scope.

(** ** Definitions *)

Definition WIDTH : nat := 8.

(** The limb array [pn]. *)
Abbreviation base_uint := (list Z).

Definition val (a : base_uint) : Z := lev 32 a.
Definition uint_ok (a : base_uint) : Prop := length a = WIDTH /\ Forall (uint 32) a.

(** Constructors and assignments from [uint64_t]. *)
Definition zero256 : base_uint := replicate WIDTH 0.
Definition of_u64 (b : Z) : base_uint :=
  to_u32 b :: to_u32 (Z.shiftr b 32) :: replicate (WIDTH - 2) 0.

Definition op_not (a : base_uint) : bool := forallb (fun x => x =? 0) a.

Definition op_compl (a : base_uint) : base_uint := map (fun x => to_u32 (Z.lnot x)) a.

(** [operator++]: [while (i < WIDTH && ++pn[i] == 0) i++;] *)
Fixpoint op_incr (pn : base_uint) : base_uint :=
  match pn with
  | [] => []
  | x :: pn' =>
      let x' := to_u32 (x + 1) in
      if x' =? 0 then x' :: op_incr pn' else x' :: pn'
  end.

(** [operator--]: [while (i < WIDTH && --pn[i] == (uint32_t)-1) i++;] *)
Fixpoint op_decr (pn : base_uint) : base_uint :=
  match pn with
  | [] => []
  | x :: pn' =>
      let x' := to_u32 (x - 1) in
      if x' =? to_u32 (-1) then x' :: op_decr pn' else x' :: pn'
  end.

Definition op_neg (a : base_uint) : base_uint := op_incr (op_compl a).

Definition op_xor (a b : base_uint) : base_uint := zip_with Z.lxor a b.
Definition op_and (a b : base_uint) : base_uint := zip_with Z.land a b.
Definition op_or (a b : base_uint) : base_uint := zip_with Z.lor a b.

Fixpoint add_loop (carry : Z) (pn b : base_uint) : base_uint :=
  match pn, b with
  | x :: pn', y :: b' =>
      let n := to_u64 (carry + x + y) in
      Z.land n 0xffffffff :: add_loop (Z.shiftr n 32) pn' b'
  | _, _ => []
  end.

Definition op_add (a b : base_uint) : base_uint := add_loop 0 a b.
Definition op_sub (a b : base_uint) : base_uint := op_add a (op_neg b).
Definition op_add_u64 (a : base_uint) (b64 : Z) : base_uint := op_add a (of_u64 b64).
Definition op_sub_u64 (a : base_uint) (b64 : Z) : base_uint := op_add a (op_neg (of_u64 b64)).

(** [pn[i] |= v], guarded by its caller. *)
Definition or_at (i : Z) (v : Z) (pn : base_uint) : base_uint :=
  alter (fun x => Z.lor x v) (Z.to_nat i) pn.

(** Body of the loop of [operator<<=] at index [i]. *)
Definition shl_step (k shift : Z) (a : base_uint) (pn : base_uint) (i : nat) : base_uint :=
  let pn :=
    if (i + k + 1 <? WIDTH) && negb (shift =? 0)
    then or_at (i + k + 1) (Z.shiftr (nth i a 0) (32 - shift)) pn else pn in
  if i + k <? WIDTH
  then or_at (i + k) (to_u32 (Z.shiftl (nth i a 0) shift)) pn else pn.

Definition op_shl (a : base_uint) (shift : Z) : base_uint :=
  let k := shift / 32 in
  let shift := shift mod 32 in
  foldl (shl_step k shift a) zero256 (seq 0 WIDTH).

Definition shr_step (k shift : Z) (a : base_uint) (pn : base_uint) (i : nat) : base_uint :=
  let pn :=
    if (0 <=? i - k - 1) && negb (shift =? 0)
    then or_at (i - k - 1) (to_u32 (Z.shiftl (nth i a 0) (32 - shift))) pn else pn in
  if 0 <=? i - k
  then or_at (i - k) (Z.shiftr (nth i a 0) shift) pn else pn.

Definition op_shr (a : base_uint) (shift : Z) : base_uint :=
  let k := shift / 32 in
  let shift := shift mod 32 in
  foldl (shr_step k shift a) zero256 (seq 0 WIDTH).

(** [operator*=(uint32_t)]. *)
Fixpoint mul32_loop (carry b32 : Z) (pn : base_uint) : base_uint :=
  match pn with
  | [] => []
  | x :: pn' =>
      let n := to_u64 (carry + to_u64 (b32 * x)) in
      Z.land n 0xffffffff :: mul32_loop (Z.shiftr n 32) b32 pn'
  end.

Definition op_mul32 (a : base_uint) (b32 : Z) : base_uint := mul32_loop 0 b32 a.

(** The inner loop of [operator*=]: one row, from limb [j] of the result on. *)
Fixpoint mul_row (carry aj : Z) (pn b : base_uint) : base_uint :=
  match pn, b with
  | p :: pn', y :: b' =>
      let n := to_u64 (carry + p + to_u64 (aj * y)) in
      Z.land n 0xffffffff :: mul_row (Z.shiftr n 32) aj pn' b'
  | _, _ => pn
  end.

(** The outer loop: after row [j] the limb [pn[j]] is final and the next row
    works on the limbs above it. *)
Fixpoint mul_rows (a pn b : base_uint) : base_uint :=
  match a with
  | [] => pn
  | aj :: a' =>
      match mul_row 0 aj pn b with
      | [] => []
      | r :: rest => r :: mul_rows a' rest b
      end
  end.

Definition op_mul (a b : base_uint) : base_uint := mul_rows a zero256 b.

(** [CompareTo]: from the most significant limb down. *)
Fixpoint compare_from_top (a b : list Z) : Z :=
  match a, b with
  | x :: a', y :: b' =>
      if x <? y then -1 else if y <? x then 1 else compare_from_top a' b'
  | _, _ => 0
  end.

Definition CompareTo (a b : base_uint) : Z := compare_from_top (rev a) (rev b).

Definition op_gt (a b : base_uint) : bool := 0 <? CompareTo a b.
Definition op_lt (a b : base_uint) : bool := CompareTo a b <? 0.
Definition op_ge (a b : base_uint) : bool := 0 <=? CompareTo a b.
Definition op_le (a b : base_uint) : bool := CompareTo a b <=? 0.
Definition op_eq (a b : base_uint) : bool := bool_decide (a = b).

Definition EqualTo (a : base_uint) (b : Z) : bool :=
  if negb (forallb (fun x => x =? 0) (drop 2 a)) then false
  else if negb (nth 1 a 0 =? Z.shiftr b 32) then false
  else if negb (nth 0 a 0 =? Z.land b 0xffffffff) then false
  else true.

(** [for (size_t bits = 31; bits > 0; bits--) if (x & (1U << bits)) ...]:
    the position returned for a non-zero limb [x], less [32 * pos]. *)
Fixpoint limb_bits (n : nat) (x : Z) : Z :=
  match n with
  | O => 1
  | S n' => if negb (Z.land x (Z.shiftl 1 n) =? 0) then n + 1 else limb_bits n' x
  end.

(** The limbs from [pos] down, most significant first. *)
Fixpoint bits_from_top (l : list Z) : Z :=
  match l with
  | [] => 0
  | x :: l' => if negb (x =? 0) then 32 * length l' + limb_bits 31 x else bits_from_top l'
  end.

Definition bits (a : base_uint) : Z := bits_from_top (rev a).

Definition GetLow64 (a : base_uint) : Z :=
  Z.lor (nth 0 a 0) (to_u64 (Z.shiftl (nth 1 a 0) 32)).

(** The loop of [operator/=]; [n] is [shift + 1], so that the structural
    recursion runs [while (shift >= 0)]. *)
Fixpoint div_loop (n : nat) (num div q : base_uint) : base_uint :=
  match n with
  | O => q
  | S shift =>
      let '(num, q) :=
        if op_ge num div
        then (op_sub num div,
              or_at (shift / 32) (to_u32 (Z.shiftl 1 (Z.land shift 31))) q)
        else (num, q) in
      div_loop shift num (op_shr div 1) q
  end.

Inductive uint_error := DivisionByZero.

Definition op_div (a b : base_uint) : result uint_error base_uint :=
  let num_bits := bits a in
  let div_bits := bits b in
  if div_bits =? 0 then Err DivisionByZero
  else if num_bits <? div_bits then Ok zero256
  else
    let shift := num_bits - div_bits in
    Ok (div_loop (Z.to_nat (shift + 1)) a (op_shl b shift) zero256).

(** [SetCompact]: the number, [*pfNegative] and [*pfOverflow]. *)
Definition SetCompact (nCompact : Z) : base_uint * bool * bool :=
  let nSize := Z.shiftr nCompact 24 in
  let nWord := Z.land nCompact 0x007fffff in
  let '(nWord, this) :=
    if nSize <=? 3
    then let nWord := Z.shiftr nWord (8 * (3 - nSize)) in (nWord, of_u64 nWord)
    else (nWord, op_shl (of_u64 nWord) (8 * (nSize - 3))) in
  (this,
   negb (nWord =? 0) && negb (Z.land nCompact 0x00800000 =? 0),
   negb (nWord =? 0) && ((34 <? nSize) || ((0xff <? nWord) && (33 <? nSize))
                         || ((0xffff <? nWord) && (32 <? nSize)))).

(** [GetCompact]; [None] is a failed [assert]. *)
Definition GetCompact (a : base_uint) (fNegative : bool) : option Z :=
  let nSize := (bits a + 7) / 8 in
  let nCompact :=
    if nSize <=? 3
    then to_u32 (to_u64 (Z.shiftl (GetLow64 a) (8 * (3 - nSize))))
    else to_u32 (GetLow64 (op_shr a (8 * (nSize - 3)))) in
  let '(nCompact, nSize) :=
    if negb (Z.land nCompact 0x00800000 =? 0)
    then (Z.shiftr nCompact 8, nSize + 1) else (nCompact, nSize) in
  if negb (Z.land nCompact (to_u32 (Z.lnot 0x007fffff)) =? 0) then None
  else if negb (nSize <? 256) then None
  else
    let nCompact := Z.lor nCompact (to_u32 (Z.shiftl nSize 24)) in
    Some (Z.lor nCompact
            (if fNegative && negb (Z.land nCompact 0x007fffff =? 0) then 0x00800000 else 0)).

(** Conversions to and from the 32-byte blob [uint256]. *)
Definition ArithToUint256 (a : base_uint) : bytes := mjoin (map WriteLE32 a).
Fixpoint limbs_of_bytes (n : nat) (b : bytes) : base_uint :=
  match n with
  | O => []
  | S n' => ReadLE32 b :: limbs_of_bytes n' (drop 4 b)
  end.
Definition UintToArith256 (b : bytes) : base_uint := limbs_of_bytes WIDTH b.

(** ** Carry loops *)

Section limbs.
Implicit Types a b pn : base_uint.

Lemma land_mask32 n : Z.land n 0xffffffff = n mod 2 ^ 32.
Proof. change 0xffffffff with (Z.ones 32). apply Z.land_ones. lia. Qed.

Lemma shiftr32 n : Z.shiftr n 32 = n / 2 ^ 32.
Proof. apply Z.shiftr_div_pow2. lia. Qed.

Lemma mod32_ok n : uint 32 (n mod 2 ^ 32).
Proof. apply wrap_range. lia. Qed.

Lemma pow_limbs (n : nat) : 2 ^ (32 * S n) = 2 ^ 32 * 2 ^ (32 * n).
Proof. rewrite <- Z.pow_add_r by lia. f_equal. lia. Qed.

(** One limb of a carry loop: the low half is the digit, the high half the
    carry, and the rest is the value of the remaining digits modulo the
    remaining width. *)
Lemma carry_digit n m (k : nat) :
  n mod 2 ^ 32 + 2 ^ 32 * ((n / 2 ^ 32 + m) mod 2 ^ (32 * k))
  = (n + 2 ^ 32 * m) mod 2 ^ (32 * S k).
Proof.
  rewrite pow_limbs, Z.rem_mul_r by (try apply pow2_pos; lia).
  rewrite (Z.mul_comm (2 ^ 32) m), Z.mod_add, Z.div_add by lia. done.
Qed.

Lemma add_loop_spec pn b carry :
  Forall (uint 32) pn -> Forall (uint 32) b -> length pn = length b -> 0 <= carry <= 1 ->
  lev 32 (add_loop carry pn b) = (carry + lev 32 pn + lev 32 b) mod 2 ^ (32 * length pn)
  /\ Forall (uint 32) (add_loop carry pn b) /\ length (add_loop carry pn b) = length pn.
Proof.
  intros Hpn. revert b carry. induction Hpn as [|x pn Hx Hpn IH]; intros b carry Hb Hlen Hc.
  - split; [|done]. simpl. by rewrite Z.mod_1_r.
  - destruct b as [|y b]; [done|]. apply Forall_cons in Hb as [Hy Hb]. injection Hlen as Hlen.
    unfold uint in Hx, Hy.
    cbn [add_loop]. set (n := to_u64 (carry + x + y)).
    assert (n = carry + x + y) as Hn by (apply wrap_small; solve_uint).
    rewrite land_mask32, shiftr32.
    destruct (IH b (n / 2 ^ 32)) as (IHv & IHf & IHl); [done|done| |].
    { split; [apply Z.div_pos; lia|]. apply Z.lt_succ_r, Z.div_lt_upper_bound; lia. }
    cbn [lev length]. rewrite IHv, IHl. split_and!; [|constructor; [apply mod32_ok|done]|done].
    rewrite <- (Z.add_assoc (_ / _)), (carry_digit n). f_equal. lia.
Qed.

Lemma op_compl_spec a :
  Forall (uint 32) a ->
  lev 32 (op_compl a) = 2 ^ (32 * length a) - 1 - lev 32 a
  /\ Forall (uint 32) (op_compl a) /\ length (op_compl a) = length a.
Proof.
  induction 1 as [|x a Hx Ha (IHv & IHf & IHl)]; [done|].
  unfold op_compl in *. cbn [map lev length]. rewrite IHv, IHl, pow_limbs.
  assert (to_u32 (Z.lnot x) = 2 ^ 32 - 1 - x) as Hnot.
  { unfold wrap, Z.lnot. unfold uint in Hx. rewrite <- (Z.mod_add _ 1), Z.mod_small by lia. lia. }
  rewrite Hnot. split_and!; [lia| |done]. constructor; [|done]. solve_uint.
Qed.

Lemma op_incr_spec pn :
  Forall (uint 32) pn ->
  lev 32 (op_incr pn) = (lev 32 pn + 1) mod 2 ^ (32 * length pn)
  /\ Forall (uint 32) (op_incr pn) /\ length (op_incr pn) = length pn.
Proof.
  induction 1 as [|x pn Hx Hpn (IHv & IHf & IHl)]; [done|].
  cbn [op_incr]. pose proof (lev_bound 32 ltac:(lia) pn Hpn) as Hb. unfold uint in Hx.
  destruct (Z.eqb_spec (to_u32 (x + 1)) 0) as [E|E]; unfold wrap in E.
  - assert (x = 2 ^ 32 - 1) as ->.
    { destruct (Z_lt_le_dec (x + 1) (2 ^ 32)); [rewrite Z.mod_small in E|]; lia. }
    cbn [lev length]. rewrite IHv, IHl. unfold wrap.
    split_and!; [|constructor; [apply mod32_ok|done]|done].
    replace (2 ^ 32 - 1 + 2 ^ 32 * lev 32 pn + 1) with (0 + 2 ^ 32 * (1 + lev 32 pn)) by ring.
    rewrite <- (carry_digit 0). change (0 / 2 ^ 32) with 0.
    rewrite (Z.add_0_l (1 + _)), (Z.add_comm 1). done.
  - assert (x + 1 < 2 ^ 32) by (destruct (Z.eq_dec (x + 1) (2 ^ 32)) as [H|]; [rewrite H in E; done|lia]).
    unfold wrap. rewrite Z.mod_small by lia. cbn [lev length].
    split_and!; [|constructor; [solve_uint|done]|done].
    rewrite pow_limbs, Z.mod_small by nia. lia.
Qed.

Lemma op_decr_spec pn :
  Forall (uint 32) pn ->
  lev 32 (op_decr pn) = (lev 32 pn - 1) mod 2 ^ (32 * length pn)
  /\ Forall (uint 32) (op_decr pn) /\ length (op_decr pn) = length pn.
Proof.
  induction 1 as [|x pn Hx Hpn (IHv & IHf & IHl)]; [by rewrite Z.mod_1_r|].
  cbn [op_decr]. pose proof (lev_bound 32 ltac:(lia) pn Hpn) as Hb. unfold uint in Hx.
  change (to_u32 (-1)) with (2 ^ 32 - 1).
  destruct (Z.eqb_spec (to_u32 (x - 1)) (2 ^ 32 - 1)) as [E|E]; unfold wrap in E.
  - assert (x = 0) as ->.
    { destruct (Z.eq_dec x 0); [done|]. rewrite Z.mod_small in E; lia. }
    cbn [lev length]. rewrite IHv, IHl. unfold wrap.
    split_and!; [|constructor; [apply mod32_ok|done]|done].
    replace (0 + 2 ^ 32 * lev 32 pn - 1) with (2 ^ 32 - 1 + 2 ^ 32 * (lev 32 pn - 1)) by ring.
    rewrite <- (carry_digit (2 ^ 32 - 1)). done.
  - assert (x <> 0) by (intros ->; done).
    unfold wrap. rewrite Z.mod_small by lia. cbn [lev length].
    split_and!; [|constructor; [solve_uint|done]|done].
    rewrite pow_limbs, Z.mod_small by nia. lia.
Qed.

(** A product of limbs plus two limbs fits in 64 bits. *)
Lemma mul_carry_fits c p x y :
  uint 32 c -> uint 32 p -> uint 32 x -> uint 32 y ->
  to_u64 (c + p + to_u64 (x * y)) = c + p + x * y /\ uint 32 ((c + p + x * y) / 2 ^ 32).
Proof.
  unfold uint. intros. assert (0 <= x * y <= (2 ^ 32 - 1) * (2 ^ 32 - 1)) by nia.
  rewrite (wrap_small 64 (x * y)) by solve_uint.
  split; [apply wrap_small; solve_uint|].
  split; [apply Z.div_pos; lia|apply Z.div_lt_upper_bound; lia].
Qed.

Lemma mul32_loop_spec pn (b32 carry : Z) :
  Forall (uint 32) pn -> uint 32 b32 -> uint 32 carry ->
  lev 32 (mul32_loop carry b32 pn) = (carry + b32 * lev 32 pn) mod 2 ^ (32 * length pn)
  /\ Forall (uint 32) (mul32_loop carry b32 pn) /\ length (mul32_loop carry b32 pn) = length pn.
Proof.
  intros Hpn Hb. revert carry. induction Hpn as [|x pn Hx Hpn IH]; intros carry Hc.
  - split; [|done]. simpl. by rewrite Z.mod_1_r.
  - cbn [mul32_loop].
    destruct (mul_carry_fits carry 0 b32 x) as [Hn Hcarry]; [done|by split|done|done|].
    rewrite Z.add_0_r in Hn, Hcarry. rewrite Hn, land_mask32, shiftr32.
    destruct (IH _ Hcarry) as (IHv & IHf & IHl).
    cbn [lev length]. rewrite IHv, IHl. split_and!; [|constructor; [apply mod32_ok|done]|done].
    rewrite carry_digit. f_equal. ring.
Qed.

Lemma mul_row_spec pn b (aj carry : Z) :
  Forall (uint 32) pn -> Forall (uint 32) b -> (length pn <= length b)%nat ->
  uint 32 aj -> uint 32 carry ->
  lev 32 (mul_row carry aj pn b)
  = (carry + lev 32 pn + aj * lev 32 b) mod 2 ^ (32 * length pn)
  /\ Forall (uint 32) (mul_row carry aj pn b) /\ length (mul_row carry aj pn b) = length pn.
Proof.
  intros Hpn. revert b carry. induction Hpn as [|p pn Hp Hpn IH]; intros b carry Hb Hlen Haj Hc.
  - split; [|by destruct b]. destruct b; simpl; by rewrite Z.mod_1_r.
  - destruct b as [|y b]; [simpl in Hlen; lia|]. apply Forall_cons in Hb as [Hy Hb]. simpl in Hlen.
    cbn [mul_row].
    destruct (mul_carry_fits carry p aj y) as [Hn Hcarry]; [done..|].
    rewrite Hn, land_mask32, shiftr32.
    destruct (IH b _ Hb ltac:(lia) Haj Hcarry) as (IHv & IHf & IHl).
    cbn [lev length]. rewrite IHv, IHl. split_and!; [|constructor; [apply mod32_ok|done]|done].
    rewrite <- (Z.add_assoc (_ / _)), carry_digit. f_equal. ring.
Qed.

Lemma mul_rows_spec a pn b :
  Forall (uint 32) a -> Forall (uint 32) pn -> Forall (uint 32) b ->
  (length pn <= length b)%nat -> (length a <= length pn)%nat ->
  lev 32 (mul_rows a pn b) = (lev 32 pn + lev 32 a * lev 32 b) mod 2 ^ (32 * length pn)
  /\ Forall (uint 32) (mul_rows a pn b) /\ length (mul_rows a pn b) = length pn.
Proof.
  intros Ha. revert pn. induction Ha as [|aj a Haj Ha IH]; intros pn Hpn Hb Hlen Hlena.
  - cbn [mul_rows lev]. split; [|done].
    pose proof (lev_bound 32 ltac:(lia) pn Hpn). rewrite Z.mod_small; lia.
  - cbn [mul_rows].
    destruct (mul_row_spec pn b aj 0) as (Hv & Hf & Hl); [done|done|done|done|by split|].
    destruct (mul_row 0 aj pn b) as [|r rest]; [simpl in *; lia|].
    destruct pn as [|p pn]; [done|]. injection Hl as Hl. apply Forall_cons in Hf as [Hr Hrest].
    destruct (IH rest Hrest Hb) as (IHv & IHf & IHl); [simpl in *; lia..|].
    cbn [lev length] in *. rewrite IHv, IHl, Hl. split_and!; [|by constructor|done].
    pose proof (pow2_pos (32 * S (length pn)) ltac:(lia)).
    transitivity ((r + 2 ^ 32 * (lev 32 rest + lev 32 a * lev 32 b)) mod 2 ^ (32 * S (length pn))).
    { rewrite <- (carry_digit r). unfold uint in Hr.
      rewrite (Z.mod_small r), (Z.div_small r), Z.add_0_l by lia. done. }
    replace (r + 2 ^ 32 * (lev 32 rest + lev 32 a * lev 32 b))
      with (r + 2 ^ 32 * lev 32 rest + 2 ^ 32 * lev 32 a * lev 32 b) by ring.
    rewrite Hv, Z.add_mod_idemp_l by lia. f_equal. ring.
Qed.
End limbs.

(** ** Shifts *)

(** The reference form of a left shift by less than a limb: one pass that
    carries the high bits of each limb into the next. *)
Fixpoint shl_pass (s c : Z) (l : list Z) : list Z :=
  match l with
  | [] => []
  | x :: l' => Z.lor c (to_u32 (Z.shiftl x s)) :: shl_pass s (Z.shiftr x (32 - s)) l'
  end.

Ltac limbs8 a H :=
  do 8 (let x := fresh "x" in destruct a as [|x a]; [discriminate H|]);
  destruct a; [clear H|discriminate H].

Lemma foldl_fixed_in {A B} (f : A -> B -> A) (x : A) (l : list B) :
  (forall y b, b ∈ l -> f y b = y) -> foldl f x l = x.
Proof.
  revert x. induction l as [|b l IH]; intros x Hf; simpl; [done|].
  rewrite Hf by set_solver. apply IH. set_solver.
Qed.

Lemma op_shl_pass a shift :
  uint_ok a -> 0 <= shift ->
  op_shl a shift
  = take WIDTH (replicate (Z.to_nat (shift / 32)) 0 ++ shl_pass (shift mod 32) 0 a).
Proof.
  intros [Hlen Ha] Hs. unfold op_shl.
  pose proof (Z.mod_pos_bound shift 32 ltac:(lia)) as Hm.
  pose proof (Z.div_pos shift 32 Hs ltac:(lia)) as Hk.
  revert Hm Hk. generalize (shift mod 32) as s, (shift / 32) as k. clear shift Hs. intros s k Hm Hk.
  limbs8 a Hlen.
  destruct (Z_lt_le_dec k 8) as [Hk8|Hk8].
  - assert (k = 0 \/ k = 1 \/ k = 2 \/ k = 3 \/ k = 4 \/ k = 5 \/ k = 6 \/ k = 7) as Hcases by lia.
    unfold shl_step. cbn [shl_pass]. remember (32 - s) as t eqn:Ht.
    destruct (Z.eqb_spec s 0) as [->|Hs].
    + assert (forall x, uint 32 x -> Z.shiftr x t = 0) as Hhi.
      { intros y Hy. rewrite Ht, Z.shiftr_div_pow2 by lia. by apply Z.div_small. }
      repeat match goal with H : Forall _ (_ :: _) |- _ => apply Forall_cons in H as [? H] end.
      rewrite !Hhi by done.
      destruct_or! Hcases; subst k; cbv -[Z.lor Z.shiftl Z.shiftr wrap]; reflexivity.
    + destruct_or! Hcases; subst k; cbv -[Z.lor Z.shiftl Z.shiftr wrap]; rewrite ?Z.lor_0_l; reflexivity.
  - rewrite take_app_le, take_replicate, Nat.min_l by (rewrite ?length_replicate; unfold WIDTH; lia).
    apply foldl_fixed_in. intros pn i _. unfold shl_step.
    destruct (Z.ltb_spec (i + k + 1) WIDTH); [unfold WIDTH in *; lia|].
    destruct (Z.ltb_spec (i + k) WIDTH); [unfold WIDTH in *; lia|done].
Qed.


Lemma shl_pass_spec s c l :
  0 <= s < 32 -> 0 <= c < 2 ^ s -> Forall (uint 32) l ->
  lev 32 (shl_pass s c l) = (c + 2 ^ s * lev 32 l) mod 2 ^ (32 * length l)
  /\ Forall (uint 32) (shl_pass s c l) /\ length (shl_pass s c l) = length l.
Proof.
  intros Hs Hc Hl. revert c Hc. induction Hl as [|x l Hx Hl IH]; intros c Hc.
  { split; [|done]. cbn. by rewrite Z.mod_1_r. }
  cbn [shl_pass]. unfold uint in Hx. set (n := c + x * 2 ^ s).
  assert (2 ^ 32 = 2 ^ (32 - s) * 2 ^ s) as Hpow by (rewrite <- Z.pow_add_r by lia; f_equal; lia).
  pose proof (pow2_pos s ltac:(lia)). pose proof (pow2_pos (32 - s) ltac:(lia)).
  assert (Z.lor c (to_u32 (Z.shiftl x s)) = n mod 2 ^ 32) as ->.
  { unfold wrap, n. rewrite Z.shiftl_mul_pow2, Hpow, Zmult_mod_distr_r by lia.
    rewrite lor_disjoint by lia. pose proof (Z.mod_pos_bound x (2 ^ (32 - s)) ltac:(lia)).
    apply Z.mod_unique with (x / 2 ^ (32 - s)); [left; nia|].
    pose proof (Z.div_mod x (2 ^ (32 - s)) ltac:(lia)). nia. }
  assert (Z.shiftr x (32 - s) = n / 2 ^ 32) as ->.
  { unfold n. rewrite Z.shiftr_div_pow2, Hpow, (Z.mul_comm (2 ^ (32 - s))), <- Z.div_div by lia.
    rewrite Z.div_add, (Z.div_small c) by lia. done. }
  destruct (IH (n / 2 ^ 32)) as (IHv & IHf & IHl).
  { unfold n. split; [apply Z.div_pos; nia|]. apply Z.div_lt_upper_bound; nia. }
  cbn [lev length]. rewrite IHv, IHl. split_and!; [|constructor; [apply mod32_ok|done]|done].
  rewrite carry_digit. f_equal. unfold n. ring.
Qed.

Fixpoint shr_pass (s : Z) (l : list Z) : list Z :=
  match l with
  | [] => []
  | x :: l' =>
      Z.lor (Z.shiftr x s) (match l' with y :: _ => to_u32 (Z.shiftl y (32 - s)) | [] => 0 end)
      :: shr_pass s l'
  end.

Lemma op_shr_pass a shift :
  uint_ok a -> 0 <= shift ->
  op_shr a shift
  = take WIDTH (drop (Z.to_nat (shift / 32)) (shr_pass (shift mod 32) a) ++ zero256).
Proof.
  intros [Hlen Ha] Hs. unfold op_shr.
  pose proof (Z.mod_pos_bound shift 32 ltac:(lia)) as Hm.
  pose proof (Z.div_pos shift 32 Hs ltac:(lia)) as Hk.
  revert Hm Hk. generalize (shift mod 32) as s, (shift / 32) as k. clear shift Hs. intros s k Hm Hk.
  destruct (Z_lt_le_dec k 8) as [Hk8|Hk8].
  - limbs8 a Hlen.
    assert (k = 0 \/ k = 1 \/ k = 2 \/ k = 3 \/ k = 4 \/ k = 5 \/ k = 6 \/ k = 7) as Hcases by lia.
    unfold shr_step. cbn [shr_pass]. remember (32 - s) as t eqn:Ht.
    destruct (Z.eqb_spec s 0) as [->|Hs].
    + assert (forall y, to_u32 (Z.shiftl y t) = 0) as Hhi.
      { intros y. rewrite Ht, Z.shiftl_mul_pow2 by lia. apply Z.mod_mul. lia. }
      rewrite !Hhi, !Z.lor_0_r.
      destruct_or! Hcases; subst k; cbv -[Z.lor Z.shiftl Z.shiftr wrap]; rewrite ?Z.lor_0_l; reflexivity.
    + destruct_or! Hcases; subst k; cbv -[Z.lor Z.shiftl Z.shiftr wrap];
        rewrite ?Z.lor_0_l, ?Z.lor_0_r; reflexivity.
  - assert (length (shr_pass s a) = 8%nat) as Hl.
    { change 8%nat with WIDTH. rewrite <- Hlen. clear. induction a; simpl; congruence. }
    rewrite drop_ge by lia. rewrite app_nil_l, take_ge by done.
    apply foldl_fixed_in. intros pn i Hi%elem_of_seq. unfold shr_step.
    destruct (Z.leb_spec 0 (i - k - 1)); [unfold WIDTH in *; lia|].
    destruct (Z.leb_spec 0 (i - k)); [unfold WIDTH in *; lia|done].
Qed.

Lemma shr_pass_spec s l :
  0 <= s < 32 -> Forall (uint 32) l ->
  lev 32 (shr_pass s l) = lev 32 l / 2 ^ s
  /\ Forall (uint 32) (shr_pass s l) /\ length (shr_pass s l) = length l.
Proof.
  intros Hs. induction 1 as [|x l Hx Hl (IHv & IHf & IHl)]; [by rewrite Z.div_0_l by (pose proof (pow2_pos s); lia)|].
  cbn [shr_pass]. unfold uint in Hx.
  assert (2 ^ 32 = 2 ^ (32 - s) * 2 ^ s) as Hpow by (rewrite <- Z.pow_add_r by lia; f_equal; lia).
  pose proof (pow2_pos s ltac:(lia)). pose proof (pow2_pos (32 - s) ltac:(lia)).
  set (L := lev 32 l) in *.
  assert ((match l with y :: _ => to_u32 (Z.shiftl y (32 - s)) | [] => 0 end)
          = L mod 2 ^ s * 2 ^ (32 - s)) as ->.
  { destruct Hl as [|y l Hy Hl]; [by rewrite Z.mod_0_l by lia|].
    unfold wrap, L. rewrite Z.shiftl_mul_pow2, Hpow, (Z.mul_comm (2 ^ (32 - s)) (2 ^ s)) by lia.
    rewrite Zmult_mod_distr_r. cbn [lev]. rewrite Hpow.
    rewrite <- Z.mul_assoc, (Z.mul_comm (2 ^ s)), Z.mul_assoc, Z.mod_add by lia. done. }
  rewrite Z.shiftr_div_pow2 by lia.
  assert (0 <= x / 2 ^ s < 2 ^ (32 - s)).
  { split; [apply Z.div_pos; lia|]. apply Z.div_lt_upper_bound; lia. }
  pose proof (Z.mod_pos_bound L (2 ^ s) ltac:(lia)).
  rewrite lor_disjoint by lia. cbn [lev length]. rewrite IHv, IHl.
  split_and!; [|constructor; [split; nia|done]|done].
  fold L. replace (x + 2 ^ 32 * L) with (x + L * 2 ^ (32 - s) * 2 ^ s) by (rewrite Hpow; ring).
  rewrite Z.div_add by lia. pose proof (Z.div_mod L (2 ^ s) ltac:(lia)) as HL.
  rewrite HL at 3. rewrite Hpow. ring.
Qed.

(** ** The operators as arithmetic modulo [2^256] *)

Create HintDb uint.

Lemma uint_ok_bound a : uint_ok a -> 0 <= val a < 2 ^ 256.
Proof. intros [Hl Ha]. pose proof (lev_bound 32 ltac:(lia) a Ha). by rewrite Hl in H. Qed.

Lemma uint_ok_inj a b : uint_ok a -> uint_ok b -> val a = val b -> a = b.
Proof.
  intros [Hla Ha] [Hlb Hb]. apply (lev_inj 32); [lia|done|done|congruence].
Qed.

Lemma zero256_ok : uint_ok zero256.
Proof. split; [done|]. apply Forall_replicate. by split. Qed.

Lemma val_zero256 : val zero256 = 0.
Proof. done. Qed.

Lemma of_u64_ok b : uint_ok (of_u64 b).
Proof.
  split; [done|]. constructor; [apply wrap_range; lia|].
  constructor; [apply wrap_range; lia|]. apply Forall_replicate. by split.
Qed.

Lemma val_of_u64 b : uint 64 b -> val (of_u64 b) = b.
Proof.
  intros Hb. unfold val, of_u64. cbn [lev]. rewrite (lev_replicate_0 32), shiftr32 by lia.
  unfold wrap. rewrite (Z.mod_small (b / _)).
  - pose proof (Z.div_mod b (2 ^ 32) ltac:(lia)). lia.
  - unfold uint in Hb. split; [apply Z.div_pos; lia|apply Z.div_lt_upper_bound; lia].
Qed.

Lemma op_add_ok a b : uint_ok a -> uint_ok b -> uint_ok (op_add a b).
Proof.
  intros [Hla Ha] [Hlb Hb].
  destruct (add_loop_spec a b 0) as (_ & ? & ?); [done|done|congruence|lia|].
  unfold op_add. split; [congruence|done].
Qed.

Lemma val_add a b : uint_ok a -> uint_ok b -> val (op_add a b) = (val a + val b) mod 2 ^ 256.
Proof.
  intros [Hla Ha] [Hlb Hb].
  destruct (add_loop_spec a b 0) as (Hv & _ & _); [done|done|congruence|lia|].
  unfold val, op_add. by rewrite Hv, Hla.
Qed.

Lemma op_compl_ok a : uint_ok a -> uint_ok (op_compl a).
Proof. intros [Hla Ha]. destruct (op_compl_spec a Ha) as (_ & ? & ?). split; [congruence|done]. Qed.

Lemma val_compl a : uint_ok a -> val (op_compl a) = 2 ^ 256 - 1 - val a.
Proof. intros [Hla Ha]. destruct (op_compl_spec a Ha) as (Hv & _). unfold val. by rewrite Hv, Hla. Qed.

Lemma op_incr_ok a : uint_ok a -> uint_ok (op_incr a).
Proof. intros [Hla Ha]. destruct (op_incr_spec a Ha) as (_ & ? & ?). split; [congruence|done]. Qed.

Lemma val_incr a : uint_ok a -> val (op_incr a) = (val a + 1) mod 2 ^ 256.
Proof. intros [Hla Ha]. destruct (op_incr_spec a Ha) as (Hv & _). unfold val. by rewrite Hv, Hla. Qed.

Lemma op_decr_ok a : uint_ok a -> uint_ok (op_decr a).
Proof. intros [Hla Ha]. destruct (op_decr_spec a Ha) as (_ & ? & ?). split; [congruence|done]. Qed.

Lemma val_decr a : uint_ok a -> val (op_decr a) = (val a - 1) mod 2 ^ 256.
Proof. intros [Hla Ha]. destruct (op_decr_spec a Ha) as (Hv & _). unfold val. by rewrite Hv, Hla. Qed.

#[export] Hint Resolve zero256_ok of_u64_ok op_add_ok op_compl_ok op_incr_ok op_decr_ok : uint.

Lemma op_neg_ok a : uint_ok a -> uint_ok (op_neg a).
Proof. unfold op_neg. auto with uint. Qed.

Lemma val_neg a : uint_ok a -> val (op_neg a) = (- val a) mod 2 ^ 256.
Proof.
  intros Ha. unfold op_neg. rewrite val_incr, val_compl by auto with uint.
  rewrite <- (Z.mod_add (- val a) 1) by lia. f_equal. lia.
Qed.

#[export] Hint Resolve op_neg_ok : uint.

Lemma op_sub_ok a b : uint_ok a -> uint_ok b -> uint_ok (op_sub a b).
Proof. unfold op_sub. auto with uint. Qed.

Lemma val_sub a b : uint_ok a -> uint_ok b -> val (op_sub a b) = (val a - val b) mod 2 ^ 256.
Proof.
  intros. unfold op_sub. rewrite val_add, val_neg, Z.add_mod_idemp_r by auto with uint. f_equal.
Qed.

Lemma op_mul32_ok a b : uint_ok a -> uint 32 b -> uint_ok (op_mul32 a b).
Proof.
  intros [Hla Ha] Hb. destruct (mul32_loop_spec a b 0 Ha Hb) as (_ & ? & ?); [by split|].
  split; [unfold op_mul32; congruence|done].
Qed.

Lemma val_mul32 a b : uint_ok a -> uint 32 b -> val (op_mul32 a b) = (val a * b) mod 2 ^ 256.
Proof.
  intros [Hla Ha] Hb. destruct (mul32_loop_spec a b 0 Ha Hb) as (Hv & _); [by split|].
  unfold val, op_mul32. by rewrite Hv, Hla, Z.add_0_l, Z.mul_comm.
Qed.

Lemma op_mul_ok a b : uint_ok a -> uint_ok b -> uint_ok (op_mul a b).
Proof.
  intros [Hla Ha] [Hlb Hb]. destruct zero256_ok as [Hlz Hz].
  destruct (mul_rows_spec a zero256 b) as (_ & ? & ?); [done..| | |]; [rewrite Hlb, Hlz; lia|rewrite Hla, Hlz; lia|].
  split; [unfold op_mul; congruence|done].
Qed.

Lemma val_mul a b : uint_ok a -> uint_ok b -> val (op_mul a b) = (val a * val b) mod 2 ^ 256.
Proof.
  intros [Hla Ha] [Hlb Hb]. destruct zero256_ok as [Hlz Hz].
  destruct (mul_rows_spec a zero256 b) as (Hv & _); [done..| | |]; [rewrite Hlb, Hlz; lia|rewrite Hla, Hlz; lia|].
  unfold val, op_mul. rewrite Hv. done.
Qed.

Lemma op_shl_ok a s : uint_ok a -> 0 <= s -> uint_ok (op_shl a s).
Proof.
  intros Ha Hs. rewrite op_shl_pass by done. destruct Ha as [Hla Ha].
  pose proof (Z.mod_pos_bound s 32 ltac:(lia)).
  destruct (shl_pass_spec (s mod 32) 0 a) as (_ & Hf & Hl); [done|split;[done|apply pow2_pos; lia]|done|].
  split.
  - rewrite length_take, length_app, length_replicate, Hl, Hla. unfold WIDTH. lia.
  - apply Forall_take, Forall_app; split; [|done]. apply Forall_replicate. by split.
Qed.

Lemma val_shl a s : uint_ok a -> 0 <= s -> val (op_shl a s) = (val a * 2 ^ s) mod 2 ^ 256.
Proof.
  intros Ha Hs. rewrite op_shl_pass by done. destruct Ha as [Hla Ha].
  pose proof (Z.mod_pos_bound s 32 ltac:(lia)). pose proof (Z.div_pos s 32 ltac:(lia) ltac:(lia)).
  destruct (shl_pass_spec (s mod 32) 0 a) as (Hv & Hf & Hl); [done|split;[done|apply pow2_pos; lia]|done|].
  unfold val. rewrite lev_take, lev_app; [|lia|lia|apply Forall_app; split; [apply Forall_replicate; by split|done]].
  rewrite lev_replicate_0, Hv, Hla, length_replicate, Z2Nat.id, Z.add_0_l, Z.add_0_l by lia.
  change (32 * WIDTH) with 256. rewrite Z.mul_mod_idemp_r by lia. f_equal.
  rewrite (Z.div_mod s 32) at 3 by lia. rewrite Z.pow_add_r by lia. ring.
Qed.

Lemma op_shr_ok a s : uint_ok a -> 0 <= s -> uint_ok (op_shr a s).
Proof.
  intros Ha Hs. rewrite op_shr_pass by done. destruct Ha as [Hla Ha].
  destruct (shr_pass_spec (s mod 32) a) as (_ & Hf & Hl); [apply Z.mod_pos_bound; lia|done|].
  split.
  - rewrite length_take, length_app, length_drop, Hl, Hla. unfold WIDTH. change (length zero256) with 8%nat. lia.
  - apply Forall_take, Forall_app; split; [by apply Forall_drop|]. apply zero256_ok.
Qed.

Lemma val_shr a s : uint_ok a -> 0 <= s -> val (op_shr a s) = val a / 2 ^ s.
Proof.
  intros Ha Hs. rewrite op_shr_pass by done. pose proof (uint_ok_bound a Ha) as Hb. destruct Ha as [Hla Ha].
  pose proof (Z.mod_pos_bound s 32 ltac:(lia)) as Hm. pose proof (Z.div_pos s 32 ltac:(lia) ltac:(lia)).
  destruct (shr_pass_spec (s mod 32) a) as (Hv & Hf & Hl); [done|done|].
  unfold val in *. rewrite lev_take, lev_app; [|lia|lia|apply Forall_app; split; [by apply Forall_drop|apply zero256_ok]].
  change (lev 32 zero256) with 0. rewrite Z.mul_0_r, Z.add_0_r, lev_drop, Hv, Z2Nat.id by (try done; lia).
  rewrite Z.div_div, <- Z.pow_add_r by (try apply pow2_pos; try apply Z.pow_nonzero; lia).
  replace (s mod 32 + 32 * (s / 32)) with s by (pose proof (Z.div_mod s 32 ltac:(lia)); lia).
  apply Z.mod_small. split; [apply Z.div_pos; [lia|apply pow2_pos; lia]|].
  apply Z.div_lt_upper_bound; [apply pow2_pos; lia|].
  pose proof (pow2_pos s Hs). change (32 * WIDTH) with 256. nia.
Qed.

#[export] Hint Resolve op_sub_ok op_mul32_ok op_mul_ok op_shl_ok op_shr_ok : uint.

(** ** Comparison, bit length and the low word *)

Lemma lev_rev_cons x l : lev 32 (rev (x :: l)) = lev 32 (rev l) + 2 ^ (32 * length l) * x.
Proof. cbn [rev]. rewrite lev_app, length_rev by lia. cbn [lev]. ring. Qed.

Lemma lev_rev_bound l : Forall (uint 32) l -> 0 <= lev 32 (rev l) < 2 ^ (32 * length l).
Proof.
  intros Hl. rewrite <- length_rev. apply (lev_bound 32); [lia|]. by apply Forall_rev.
Qed.

Lemma compare_from_top_spec a b :
  Forall (uint 32) a -> Forall (uint 32) b -> length a = length b ->
  compare_from_top a b = Z.sgn (lev 32 (rev a) - lev 32 (rev b)).
Proof.
  intros Ha. revert b. induction Ha as [|x a Hx Ha IH]; intros b Hb Hlen; [by destruct b|].
  destruct b as [|y b]; [done|]. apply Forall_cons in Hb as [Hy Hb]. injection Hlen as Hlen.
  cbn [compare_from_top]. rewrite !lev_rev_cons, <- Hlen.
  pose proof (lev_rev_bound a Ha) as Ba. pose proof (lev_rev_bound b Hb) as Bb. rewrite <- Hlen in Bb.
  destruct (Z.ltb_spec x y); [symmetry; apply Z.sgn_neg; nia|].
  destruct (Z.ltb_spec y x); [symmetry; apply Z.sgn_pos; nia|].
  assert (x = y) as -> by lia. rewrite IH by done. f_equal. ring.
Qed.

Lemma CompareTo_spec a b : uint_ok a -> uint_ok b -> CompareTo a b = Z.sgn (val a - val b).
Proof.
  intros [Hla Ha] [Hlb Hb]. unfold CompareTo.
  rewrite compare_from_top_spec, !rev_involutive; [done|by apply Forall_rev..|rewrite !length_rev; congruence].
Qed.

Lemma op_ge_spec a b : uint_ok a -> uint_ok b -> op_ge a b = (val b <=? val a).
Proof. intros. unfold op_ge. rewrite CompareTo_spec by done. lia. Qed.

Lemma op_gt_spec a b : uint_ok a -> uint_ok b -> op_gt a b = (val b <? val a).
Proof. intros. unfold op_gt. rewrite CompareTo_spec by done. lia. Qed.

Lemma op_lt_spec a b : uint_ok a -> uint_ok b -> op_lt a b = (val a <? val b).
Proof. intros. unfold op_lt. rewrite CompareTo_spec by done. lia. Qed.

Lemma limb_bits_spec (n : nat) x : 0 < x < 2 ^ (n + 1) -> limb_bits n x = Z.log2 x + 1.
Proof.
  induction n as [|n IH]; intros Hx.
  - change (2 ^ (0%nat + 1)) with 2 in Hx. assert (x = 1) as -> by lia. done.
  - cbn [limb_bits]. rewrite Z.shiftl_1_l.
    rewrite land_pow2_eqb by lia.
    rewrite negb_involutive.
    destruct (Z_lt_le_dec x (2 ^ S n)) as [Hlt|Hge].
    + rewrite Z.bits_above_log2; [|lia|apply Z.log2_lt_pow2; lia].
      apply IH. replace (n + 1) with (Z.of_nat (S n)) by lia. lia.
    + assert (Z.log2 x = S n) as Hlog by (apply Z.log2_unique; [lia|split; [lia|apply Hx]]).
      rewrite <- Hlog, Z.bit_log2 by lia. done.
Qed.

Lemma bits_from_top_spec l :
  Forall (uint 32) l ->
  bits_from_top l
  = if lev 32 (rev l) =? 0 then 0 else Z.log2 (lev 32 (rev l)) + 1.
Proof.
  induction 1 as [|x l Hx Hl IH]; [done|]. cbn [bits_from_top]. rewrite lev_rev_cons.
  pose proof (lev_rev_bound l Hl) as B. unfold uint in Hx.
  destruct (Z.eqb_spec x 0) as [->|Hx0]; cbn [negb].
  { rewrite IH, Z.mul_0_r, Z.add_0_r. done. }
  pose proof (pow2_pos (32 * length l) ltac:(lia)).
  destruct (Z.eqb_spec (lev 32 (rev l) + 2 ^ (32 * length l) * x) 0); [nia|].
  rewrite limb_bits_spec by (change (2 ^ (31%nat + 1)) with (2 ^ 32); lia).
  rewrite (Z.log2_unique (lev 32 (rev l) + _) (32 * length l + Z.log2 x)); [lia|pose proof (Z.log2_nonneg x); lia|].
  pose proof (Z.log2_spec x ltac:(lia)) as Hlog. pose proof (Z.log2_nonneg x).
  rewrite <- Z.add_succ_r, !Z.pow_add_r by lia. nia.
Qed.

Definition bitlen (v : Z) : Z := if v =? 0 then 0 else Z.log2 v + 1.

Lemma bits_spec a : uint_ok a -> bits a = bitlen (val a).
Proof.
  intros [Hla Ha]. unfold bits. rewrite bits_from_top_spec by (by apply Forall_rev).
  by rewrite rev_involutive.
Qed.

Lemma bitlen_bound v : 0 <= v -> v < 2 ^ bitlen v /\ 0 <= bitlen v /\ (v <> 0 -> 2 ^ (bitlen v - 1) <= v /\ 1 <= bitlen v).
Proof.
  intros Hv. unfold bitlen. destruct (Z.eqb_spec v 0) as [->|]; [done|].
  pose proof (Z.log2_spec v ltac:(lia)) as Hlog. pose proof (Z.log2_nonneg v).
  rewrite Z.add_simpl_r. replace (Z.log2 v + 1) with (Z.succ (Z.log2 v)) by lia. lia.
Qed.

Lemma bitlen_le v n : 0 <= n -> 0 <= v < 2 ^ n -> bitlen v <= n.
Proof.
  intros Hn Hv. unfold bitlen. destruct (Z.eqb_spec v 0); [lia|].
  assert (Z.log2 v < n) by (apply Z.log2_lt_pow2; lia). lia.
Qed.

Lemma GetLow64_spec a : uint_ok a -> GetLow64 a = val a mod 2 ^ 64.
Proof.
  intros [Hla Ha]. unfold GetLow64, val. limbs8 a Hla. cbn [nth].
  do 2 (apply Forall_cons in Ha as [? Ha]). unfold uint in *.
  rewrite Z.shiftl_mul_pow2, wrap_small by solve_uint.
  rewrite lor_disjoint by lia. cbn [lev].
  match goal with |- _ = (_ + 2 ^ 32 * (_ + 2 ^ 32 * ?r)) mod _ => generalize r end. intros r.
  replace (x + 2 ^ 32 * (x0 + 2 ^ 32 * r)) with (x + x0 * 2 ^ 32 + r * 2 ^ 64) by ring.
  rewrite Z.mod_add, Z.mod_small by solve_uint. done.
Qed.

Lemma EqualTo_spec a b : uint_ok a -> uint 64 b -> EqualTo a b = (val a =? b).
Proof.
  intros [Hla Ha] Hb. unfold EqualTo, val. rewrite land_mask32, shiftr32.
  destruct a as [|x [|y a]]; [done|done|].
  do 2 (apply Forall_cons in Ha as [? Ha]). change (drop 2 (x :: y :: a)) with a. cbn [nth lev].
  assert (forallb (fun z => z =? 0) a = (lev 32 a =? 0)) as ->.
  { clear - Ha. induction Ha as [|z a Hz Ha IH]; [done|]. cbn [forallb lev]. rewrite IH.
    pose proof (lev_nonneg 32 ltac:(lia) a Ha). unfold uint in Hz. lia. }
  pose proof (lev_nonneg 32 ltac:(lia) a Ha).
  pose proof (Z.div_mod b (2 ^ 32) ltac:(lia)). pose proof (mod32_ok b). unfold uint in *.
  destruct (Z.eqb_spec (lev 32 a) 0), (Z.eqb_spec y (b / 2 ^ 32)), (Z.eqb_spec x (b mod 2 ^ 32));
    cbn [negb]; symmetry; first [apply Z.eqb_eq; lia | apply Z.eqb_neq; nia].
Qed.

(** ** Division *)

(** If the value has its low [32 * k + m] bits clear, limb [k] has its low
    [m] bits clear. *)
Lemma limb_low_bits l (k : nat) m x :
  Forall (uint 32) l -> l !! k = Some x -> 0 <= m <= 32 ->
  lev 32 l mod 2 ^ (32 * k + m) = 0 -> x mod 2 ^ m = 0.
Proof.
  intros Hl Hx Hm Hmod. pose proof (lookup_lt_Some _ _ _ Hx) as Hlen.
  rewrite <- (take_drop_middle l _ _ Hx), lev_app, length_take, Nat.min_l in Hmod by lia.
  cbn [lev] in Hmod.
  pose proof (lev_bound 32 ltac:(lia) (take k l) ltac:(by apply Forall_take)) as Hlo.
  rewrite length_take, Nat.min_l in Hlo by lia.
  revert Hmod Hlo. generalize (lev 32 (take k l)) as lo, (lev 32 (drop (S k) l)) as hi. intros hi lo.
  pose proof (pow2_pos m ltac:(lia)). pose proof (pow2_pos (32 * k) ltac:(lia)).
  intros Hmod Hlo. rewrite Z.pow_add_r, Z.rem_mul_r in Hmod by lia.
  rewrite (Z.mul_comm (2 ^ (32 * k))), Z.mod_add, Z.div_add in Hmod by lia.
  rewrite (Z.mod_small hi), (Z.div_small hi), Z.add_0_l in Hmod by lia.
  assert (2 ^ 32 = 2 ^ (32 - m) * 2 ^ m) as Hp by (rewrite <- Z.pow_add_r by lia; f_equal; lia).
  rewrite Hp in Hmod.
  replace (x + 2 ^ (32 - m) * 2 ^ m * lo) with (x + (2 ^ (32 - m) * lo) * 2 ^ m) in Hmod by ring.
  rewrite Z.mod_add in Hmod by lia.
  pose proof (Z.mod_pos_bound x (2 ^ m) ltac:(lia)). nia.
Qed.

(** Setting bit [shift] of a quotient whose lower bits are clear. *)
Lemma set_bit_spec q (shift : nat) :
  uint_ok q -> (shift < 256)%nat -> val q mod 2 ^ (shift + 1) = 0 ->
  let q' := or_at (shift / 32) (to_u32 (Z.shiftl 1 (Z.land shift 31))) q in
  uint_ok q' /\ val q' = val q + 2 ^ shift.
Proof.
  intros [Hlq Hq] Hs Hmod. unfold or_at.
  change 31 with (Z.ones 5). rewrite Z.land_ones, Z.shiftl_1_l by lia. change (2 ^ 5) with 32.
  set (k := Z.of_nat shift / 32). set (s := Z.of_nat shift mod 32).
  assert (0 <= s < 32) as Hs32 by (apply Z.mod_pos_bound; lia).
  assert (0 <= k < 8) as Hk by (split; [apply Z.div_pos; lia|apply Z.div_lt_upper_bound; lia]).
  assert (Z.of_nat shift = 32 * k + s) as Hshift by (apply Z.div_mod; lia).
  assert (2 ^ s < 2 ^ 32) by (apply Z.pow_lt_mono_r; lia). pose proof (pow2_pos s ltac:(lia)).
  rewrite (wrap_small 32) by solve_uint.
  destruct (lookup_lt_is_Some_2 q (Z.to_nat k)) as [x Hx]; [rewrite Hlq; unfold WIDTH; lia|].
  assert (uint 32 x) as Hxb by (eapply Forall_lookup_1; eauto).
  assert (x mod 2 ^ (s + 1) = 0) as Hxm.
  { apply (limb_low_bits q (Z.to_nat k)); [done|done|lia|].
    rewrite Z2Nat.id by lia. replace (32 * k + (s + 1)) with (shift + 1) by lia. done. }
  assert (Z.lor x (2 ^ s) = x + 2 ^ s) as Hor.
  { rewrite Z.lor_comm, (lor_add (s + 1)); [lia|lia| |done].
    rewrite Z.pow_add_r by lia. lia. }
  assert (x + 2 ^ s < 2 ^ 32) as Hlt.
  { assert (2 ^ 32 = 2 ^ (31 - s) * 2 ^ (s + 1)) as Hp by (rewrite <- Z.pow_add_r by lia; f_equal; lia).
    pose proof (Z.div_mod x (2 ^ (s + 1)) ltac:(apply Z.pow_nonzero; lia)) as Hdm. rewrite Hxm in Hdm.
    rewrite Z.pow_add_r in Hp, Hdm by lia. change (2 ^ 1) with 2 in *. unfold uint in Hxb.
    assert (x / (2 ^ s * 2) < 2 ^ (31 - s)) by (apply Z.div_lt_upper_bound; lia).
    rewrite Z.pow_add_r in * by lia. change (2 ^ 1) with 2 in *. nia. }
  split; [split|].
  - by rewrite length_alter.
  - apply Forall_alter; [done|]. intros y Hy _. assert (y = x) as -> by congruence.
    rewrite Hor. unfold uint in *. lia.
  - unfold val. rewrite (lev_alter 32 ltac:(lia) _ _ _ x Hx), Hor, Z2Nat.id by lia.
    rewrite Hshift, Z.pow_add_r by lia. lia.
Qed.

Lemma div_loop_spec (n : nat) num div q d :
  uint_ok num -> uint_ok div -> uint_ok q -> (n <= 256)%nat -> 0 < d ->
  (n <> 0%nat -> val div = d * 2 ^ (n - 1)) -> val num < d * 2 ^ n -> val q mod 2 ^ n = 0 ->
  uint_ok (div_loop n num div q) /\ val (div_loop n num div q) = val q + val num / d.
Proof.
  revert num div q. induction n as [|n IH]; intros num div q Hnum Hdiv Hq Hn Hd Hdv Hlt Hqm.
  - pose proof (uint_ok_bound num Hnum). cbn [div_loop]. split; [done|].
    rewrite Z.div_small; [lia|]. change (2 ^ 0%nat) with 1 in Hlt. lia.
  - specialize (Hdv ltac:(done)). replace (S n - 1) with (Z.of_nat n) in Hdv by lia.
    replace (Z.of_nat (S n)) with (n + 1) in * by lia.
    rewrite Z.pow_add_r in Hlt by lia. change (2 ^ 1) with 2 in Hlt.
    pose proof (uint_ok_bound num Hnum) as Bn. pose proof (pow2_pos n ltac:(lia)) as Hp.
    cbn [div_loop]. rewrite op_ge_spec by done.
    assert (n <> 0%nat -> val (op_shr div 1) = d * 2 ^ (n - 1)) as Hshr.
    { intros. rewrite val_shr, Hdv by (done || lia).
      replace (Z.of_nat n) with (n - 1 + 1) at 1 by lia. rewrite Z.pow_add_r, Z.mul_assoc by lia.
      apply Z.div_mul. lia. }
    destruct (set_bit_spec q n Hq ltac:(lia) Hqm) as [Hq' Hvq'].
    assert (val q mod 2 ^ n = 0) as Hqn.
    { rewrite Z.pow_add_r in Hqm by lia. change (2 ^ 1) with 2 in Hqm.
      rewrite Z.rem_mul_r in Hqm by lia.
      pose proof (Z.mod_pos_bound (val q) (2 ^ n) ltac:(lia)).
      pose proof (Z.mod_pos_bound (val q / 2 ^ n) 2 ltac:(lia)). nia. }
    destruct (Z.leb_spec (val div) (val num)) as [Hle|Hgt].
    + assert (val (op_sub num div) = val num - val div) as Hsub.
      { rewrite val_sub by done. apply Z.mod_small. pose proof (uint_ok_bound div Hdiv). lia. }
      destruct (IH (op_sub num div) (op_shr div 1)
                  (or_at (n / 32) (to_u32 (Z.shiftl 1 (Z.land n 31))) q)) as [? IHv];
        [auto with uint|apply op_shr_ok; [done|lia]|done|lia|done|done|lia| |].
      { rewrite Hvq', <- (Z.mul_1_l (2 ^ n)) at 1. by rewrite Z.mod_add by lia. }
      split; [done|]. rewrite IHv, Hvq', Hsub, Hdv.
      replace (val num - d * 2 ^ n) with (val num + (- 2 ^ n) * d) by ring.
      rewrite Z.div_add by lia. lia.
    + apply IH; [done|apply op_shr_ok; [done|lia]|done|lia|done|done|lia|done].
Qed.

Lemma op_div_spec a b :
  uint_ok a -> uint_ok b -> val b <> 0 ->
  exists q, op_div a b = Ok q /\ uint_ok q /\ val q = val a / val b.
Proof.
  intros Ha Hb Hnz. unfold op_div. rewrite !bits_spec by done.
  pose proof (uint_ok_bound a Ha) as Ba. pose proof (uint_ok_bound b Hb) as Bb.
  destruct (bitlen_bound (val a) ltac:(lia)) as (A1 & A2 & _).
  destruct (bitlen_bound (val b) ltac:(lia)) as (B1 & B2 & B3). destruct (B3 Hnz) as [B4 B5].
  pose proof (bitlen_le (val a) 256 ltac:(lia) Ba) as A3.
  destruct (Z.eqb_spec (bitlen (val b)) 0); [lia|].
  destruct (Z.ltb_spec (bitlen (val a)) (bitlen (val b))) as [Hlt|Hge].
  - exists zero256. split_and!; [done|auto with uint|]. rewrite Z.div_small; [done|].
    assert (2 ^ bitlen (val a) <= 2 ^ (bitlen (val b) - 1)) by (apply Z.pow_le_mono_r; lia). lia.
  - set (sh := bitlen (val a) - bitlen (val b)) in *.
    pose proof (pow2_pos sh ltac:(lia)).
    assert (2 ^ bitlen (val a) = 2 ^ bitlen (val b) * 2 ^ sh) as Hpow
      by (rewrite <- Z.pow_add_r by lia; f_equal; lia).
    assert (2 ^ bitlen (val b) = 2 * 2 ^ (bitlen (val b) - 1)) as Hpb
      by (rewrite <- Z.pow_succ_r by lia; f_equal; lia).
    assert (2 ^ bitlen (val a) <= 2 ^ 256) by (apply Z.pow_le_mono_r; lia).
    eexists; split; [done|].
    destruct (div_loop_spec (Z.to_nat (sh + 1)) a (op_shl b sh) zero256 (val b)) as [? Hv];
      [done|apply op_shl_ok; [done|lia]|auto with uint|lia|lia| | |done|].
    + intros _. rewrite val_shl, Z2Nat.id by (done || lia). rewrite Z.add_simpl_r. apply Z.mod_small. nia.
    + rewrite Z2Nat.id, Z.pow_add_r by lia. change (2 ^ 1) with 2. nia.
    + split; [done|]. by rewrite Hv.
Qed.

Lemma op_div_zero a b : uint_ok b -> val b = 0 -> op_div a b = Err DivisionByZero.
Proof. intros Hb Hv. unfold op_div. by rewrite (bits_spec b), Hv. Qed.

(** ** The compact format *)

(** The number a compact word denotes, unbounded: mantissa (23 bits) times
    256 to the exponent less three. *)
Definition compact_value (c : Z) : Z :=
  let size := c / 2 ^ 24 in
  let word := c mod 2 ^ 23 in
  if size <=? 3 then word / 2 ^ (8 * (3 - size)) else word * 2 ^ (8 * (size - 3)).

(** The mantissa of [v] at exponent [e]. *)
Definition mant (v e : Z) : Z :=
  if e <=? 3 then v * 2 ^ (8 * (3 - e)) else v / 2 ^ (8 * (e - 3)).

(** The reference encoder: the byte length, increased by one when the
    mantissa would have its sign bit set. *)
Definition compact_of (v : Z) : Z :=
  let n := (bitlen v + 7) / 8 in
  let e := if 2 ^ 23 <=? mant v n then n + 1 else n in
  mant v e + e * 2 ^ 24.

Lemma word24 c : uint 32 c -> 0 <= c / 2 ^ 24 < 256 /\ 0 <= c mod 2 ^ 23 < 2 ^ 23.
Proof.
  unfold uint. intros Hc. split; [|apply Z.mod_pos_bound; lia].
  split; [apply Z.div_pos; lia|apply Z.div_lt_upper_bound; lia].
Qed.

Lemma compact_value_nonneg c : uint 32 c -> 0 <= compact_value c.
Proof.
  intros Hc. destruct (word24 c Hc). unfold compact_value. destruct (Z.leb_spec (c / 2 ^ 24) 3).
  - apply Z.div_pos; [lia|apply pow2_pos; lia].
  - apply Z.mul_nonneg_nonneg; [lia|apply Z.pow_nonneg; lia].
Qed.

Lemma SetCompact_spec c :
  uint 32 c ->
  exists a, SetCompact c = (a, negb (compact_value c =? 0) && Z.testbit c 23,
                            2 ^ 256 <=? compact_value c)
  /\ uint_ok a /\ val a = compact_value c mod 2 ^ 256.
Proof.
  intros Hc. destruct (word24 c Hc) as [Hs Hw]. unfold SetCompact, compact_value.
  rewrite Z.shiftr_div_pow2 by lia. change 0x007fffff with (Z.ones 23). rewrite Z.land_ones by lia.
  change 0x00800000 with (2 ^ 23). rewrite land_pow2_eqb, negb_involutive by lia.
  set (size := c / 2 ^ 24) in *. set (word := c mod 2 ^ 23) in *.
  destruct (Z.leb_spec size 3).
  - rewrite Z.shiftr_div_pow2 by lia. pose proof (pow2_pos (8 * (3 - size)) ltac:(lia)).
    set (wd := word / 2 ^ (8 * (3 - size))).
    assert (0 <= wd < 2 ^ 23) by (split; [apply Z.div_pos; lia|apply Z.div_lt_upper_bound; nia]).
    exists (of_u64 wd); split_and!; [|auto with uint|].
    + f_equal. destruct (Z.leb_spec (2 ^ 256) wd); [lia|].
      destruct (Z.ltb_spec 34 size), (Z.ltb_spec 33 size), (Z.ltb_spec 32 size); lia.
    + rewrite val_of_u64, Z.mod_small by solve_uint. done.
  - pose proof (pow2_pos (8 * (size - 3)) ltac:(lia)).
    exists (op_shl (of_u64 word) (8 * (size - 3))); split_and!; [|apply op_shl_ok; [auto with uint|lia]|].
    + assert ((word * 2 ^ (8 * (size - 3)) =? 0) = (word =? 0)) as -> by nia.
      f_equal.
      assert (forall k, 0 <= k -> 8 * (size - 3) = 8 * (32 - k) -> 2 ^ 256 = 2 ^ (8 * k) * 2 ^ (8 * (size - 3))) as Hk.
      { intros k Hk Hsz. rewrite <- Z.pow_add_r by lia. f_equal. lia. }
      destruct (Z.eqb_spec word 0) as [->|]; [done|]. cbn [negb andb].
      destruct (Z.ltb_spec 34 size) as [H34|].
      { assert (2 ^ 256 <= 2 ^ (8 * (size - 3))) by (apply Z.pow_le_mono_r; lia). symmetry. apply Z.leb_le. nia. }
      destruct (Z.ltb_spec 33 size) as [H33|].
      { rewrite (Hk 1) by lia. change (2 ^ (8 * 1)) with 256.
        destruct (Z.ltb_spec 0xff word), (Z.ltb_spec 0xffff word), (Z.ltb_spec 32 size); cbn;
          symmetry; first [lia | apply Z.leb_le; nia | apply Z.leb_gt; nia]. }
      destruct (Z.ltb_spec 32 size) as [H32|].
      { rewrite (Hk 2) by lia. change (2 ^ (8 * 2)) with 65536. rewrite !andb_false_r. cbn.
        destruct (Z.ltb_spec 0xffff word); cbn; symmetry; first [apply Z.leb_le; nia | apply Z.leb_gt; nia]. }
      rewrite !andb_false_r. cbn. symmetry. apply Z.leb_gt.
      assert (2 ^ (8 * (size - 3)) <= 2 ^ 232) by (apply Z.pow_le_mono_r; lia). nia.
    + rewrite val_shl, val_of_u64 by (try solve_uint; auto with uint; lia). done.
Qed.

(** *** Normal form of the reference encoder *)

Lemma mant_nonneg v e : 0 <= v -> 0 <= mant v e.
Proof.
  intros. unfold mant. destruct (Z.leb_spec e 3).
  - pose proof (pow2_pos (8 * (3 - e)) ltac:(lia)). nia.
  - apply Z.div_pos; [lia|apply pow2_pos; lia].
Qed.

Lemma mant_step v e : mant v (e + 1) = mant v e / 2 ^ 8.
Proof.
  unfold mant. destruct (Z.leb_spec (e + 1) 3), (Z.leb_spec e 3); try lia.
  - replace (8 * (3 - e)) with (8 * (3 - (e + 1)) + 8) by lia.
    rewrite Z.pow_add_r, Z.mul_assoc, Z.div_mul by lia. done.
  - assert (e = 3) as -> by lia. change (8 * (3 - 3)) with 0. change (8 * (3 + 1 - 3)) with 8. rewrite Z.mul_1_r. done.
  - replace (8 * (e + 1 - 3)) with (8 * (e - 3) + 8) by lia.
    rewrite Z.pow_add_r, Z.div_div by (try apply Z.pow_nonzero; lia). done.
Qed.

Lemma mant_above v e e' : 0 <= v -> e < e' -> mant v e' <= mant v e / 2 ^ 8.
Proof.
  intros Hv Hlt. replace e' with (e + 1 + Z.of_nat (Z.to_nat (e' - e - 1))) by lia.
  induction (Z.to_nat (e' - e - 1)) as [|k IH].
  - rewrite Z.add_0_r, mant_step. done.
  - rewrite Nat2Z.inj_succ. replace (e + 1 + Z.succ k) with (e + 1 + k + 1) by lia.
    rewrite mant_step. pose proof (mant_nonneg v (e + 1 + k) Hv).
    assert (mant v (e + 1 + k) / 2 ^ 8 <= mant v (e + 1 + k)) by (apply Z.div_le_upper_bound; lia). lia.
Qed.

(** A non-zero [v] has exactly one exponent with a normal mantissa, and the
    encoder finds it. *)
Lemma compact_of_normal v :
  0 < v < 2 ^ 256 ->
  exists e, 1 <= e <= 33 /\ 2 ^ 15 <= mant v e < 2 ^ 23 /\ compact_of v = mant v e + e * 2 ^ 24.
Proof.
  intros Hv. unfold compact_of. pose proof (bitlen_le v 256 ltac:(lia) ltac:(lia)) as Hlen.
  destruct (bitlen_bound v ltac:(lia)) as (H1 & H2 & H3). destruct (H3 ltac:(lia)) as [H4 H5].
  set (n := (bitlen v + 7) / 8).
  assert (8 * (n - 1) < bitlen v <= 8 * n) as Hn.
  { unfold n. pose proof (Z.div_mod (bitlen v + 7) 8 ltac:(lia)).
    pose proof (Z.mod_pos_bound (bitlen v + 7) 8 ltac:(lia)). lia. }
  assert (2 ^ (8 * (n - 1)) <= v < 2 ^ (8 * n)) as Hvn.
  { split; [etransitivity; [|exact H4]; apply Z.pow_le_mono_r; lia|].
    eapply Z.lt_le_trans; [exact H1|]. apply Z.pow_le_mono_r; lia. }
  assert (2 ^ 16 <= mant v n < 2 ^ 24) as Hm.
  { unfold mant. destruct (Z.leb_spec n 3).
    - replace (2 ^ 16) with (2 ^ (8 * (n - 1)) * 2 ^ (8 * (3 - n))) by (rewrite <- Z.pow_add_r by lia; f_equal; lia).
      replace (2 ^ 24) with (2 ^ (8 * n) * 2 ^ (8 * (3 - n))) by (rewrite <- Z.pow_add_r by lia; f_equal; lia).
      pose proof (pow2_pos (8 * (3 - n)) ltac:(lia)). nia.
    - pose proof (pow2_pos (8 * (n - 3)) ltac:(lia)).
      split; [apply Z.div_le_lower_bound; [lia|]|apply Z.div_lt_upper_bound; [lia|]];
        rewrite <- Z.pow_add_r by lia.
      + replace (8 * (n - 3) + 16) with (8 * (n - 1)) by lia. lia.
      + replace (8 * (n - 3) + 24) with (8 * n) by lia. lia. }
  destruct (Z.leb_spec (2 ^ 23) (mant v n)) as [Hbig|Hsmall].
  - exists (n + 1). rewrite mant_step. split_and!; [lia|lia| |apply Z.div_lt_upper_bound; lia|done].
    apply Z.div_le_lower_bound; lia.
  - exists n. split_and!; lia.
Qed.

Lemma compact_of_unique v e :
  0 < v < 2 ^ 256 -> 2 ^ 15 <= mant v e < 2 ^ 23 -> compact_of v = mant v e + e * 2 ^ 24.
Proof.
  intros Hv He. destruct (compact_of_normal v Hv) as (e0 & H1 & H2 & ->).
  destruct (Z.lt_trichotomy e e0) as [Hlt|[->|Hlt]]; [exfalso|done|exfalso].
  - pose proof (mant_above v e e0 ltac:(lia) Hlt).
    assert (mant v e / 2 ^ 8 < 2 ^ 15) by (apply Z.div_lt_upper_bound; lia). lia.
  - pose proof (mant_above v e0 e ltac:(lia) Hlt).
    assert (mant v e0 / 2 ^ 8 < 2 ^ 15) by (apply Z.div_lt_upper_bound; lia). lia.
Qed.

Lemma compact_split m e : 0 <= m < 2 ^ 23 -> (m + e * 2 ^ 24) / 2 ^ 24 = e /\ (m + e * 2 ^ 24) mod 2 ^ 23 = m.
Proof.
  intros Hm. split.
  - rewrite Z.div_add, Z.div_small by lia. lia.
  - replace (m + e * 2 ^ 24) with (m + 2 * e * 2 ^ 23) by ring. rewrite Z.mod_add, Z.mod_small by lia. done.
Qed.

Lemma compact_value_normal v e :
  0 < v -> mant v e < 2 ^ 23 ->
  compact_value (mant v e + e * 2 ^ 24) = if e <=? 3 then v else v - v mod 2 ^ (8 * (e - 3)).
Proof.
  intros Hv Hm. pose proof (mant_nonneg v e ltac:(lia)). unfold compact_value.
  destruct (compact_split (mant v e) e) as [-> ->]; [lia|]. unfold mant.
  destruct (Z.leb_spec e 3).
  - apply Z.div_mul. apply Z.pow_nonzero; lia.
  - pose proof (pow2_pos (8 * (e - 3)) ltac:(lia)). pose proof (Z.div_mod v (2 ^ (8 * (e - 3))) ltac:(lia)). lia.
Qed.

(** The encoder keeps at least fifteen significant bits, rounds down, and is
    a normal form for the decoder. *)
Lemma compact_of_spec v :
  0 <= v < 2 ^ 256 ->
  let c := compact_of v in
  uint 32 c /\ Z.testbit c 23 = false
  /\ compact_value c <= v /\ (v - compact_value c) * 2 ^ 15 <= v
  /\ compact_of (compact_value c) = c.
Proof.
  intros Hv c. destruct (Z.eq_dec v 0) as [->|Hnz]; [by vm_compute|].
  destruct (compact_of_normal v ltac:(lia)) as (e & He & Hm & Hc). fold c in Hc.
  rewrite Hc, compact_value_normal by lia.
  split; [unfold uint; lia|]. split.
  { replace (mant v e + e * 2 ^ 24) with (mant v e + (e * 2) * 2 ^ 23) by ring.
    rewrite Z.testbit_odd, Z.shiftr_div_pow2, Z.div_add, Z.div_small by lia.
    by rewrite Z.add_0_l, Z.odd_mul, andb_false_r. }
  destruct (Z.leb_spec e 3) as [He3|He3].
  - split_and!; [lia|lia|]. by rewrite <- Hc.
  - unfold mant in Hm |- *. destruct (Z.leb_spec e 3); [lia|].
    set (p := 2 ^ (8 * (e - 3))) in *. assert (0 < p) by (apply pow2_pos; lia).
    pose proof (Z.div_mod v p ltac:(lia)) as Hdm. pose proof (Z.mod_pos_bound v p ltac:(lia)).
    assert (p * 2 ^ 15 <= v) by nia.
    split_and!; [lia|nia|].
    assert (mant (v - v mod p) e = v / p) as Hm'.
    { unfold mant. destruct (Z.leb_spec e 3); [lia|]. fold p.
      replace (v - v mod p) with (v / p * p) by lia. apply Z.div_mul. lia. }
    rewrite <- Hm'. apply compact_of_unique; [lia|]. rewrite Hm'. lia.
Qed.

Lemma compact_of_small v : 0 <= v < 2 ^ 256 -> 0 <= mant v ((bitlen v + 7) / 8) < 2 ^ 24 /\ 0 <= (bitlen v + 7) / 8 <= 32.
Proof.
  intros Hv. destruct (bitlen_bound v ltac:(lia)) as (H1 & H2 & _).
  pose proof (bitlen_le v 256 ltac:(lia) Hv) as Hlen.
  pose proof (Z.div_mod (bitlen v + 7) 8 ltac:(lia)). pose proof (Z.mod_pos_bound (bitlen v + 7) 8 ltac:(lia)).
  set (n := (bitlen v + 7) / 8) in *. split; [|lia].
  split; [apply mant_nonneg; lia|]. unfold mant.
  assert (v < 2 ^ (8 * n)) by (eapply Z.lt_le_trans; [exact H1|apply Z.pow_le_mono_r; lia]).
  destruct (Z.leb_spec n 3).
  - replace (2 ^ 24) with (2 ^ (8 * n) * 2 ^ (8 * (3 - n))) by (rewrite <- Z.pow_add_r by lia; f_equal; lia).
    pose proof (pow2_pos (8 * (3 - n)) ltac:(lia)). nia.
  - apply Z.div_lt_upper_bound; [apply pow2_pos; lia|].
    rewrite <- Z.pow_add_r by lia. replace (8 * (n - 3) + 24) with (8 * n) by lia. lia.
Qed.

Lemma compact_mant_zero v : 0 <= v < 2 ^ 256 -> (compact_of v mod 2 ^ 23 =? 0) = (v =? 0).
Proof.
  intros Hv. destruct (Z.eqb_spec v 0) as [->|Hnz]; [done|].
  destruct (compact_of_normal v ltac:(lia)) as (e & He & Hm & ->).
  rewrite (proj2 (compact_split (mant v e) e ltac:(lia))). lia.
Qed.

(** The mantissa as [GetCompact] computes it, from the low 64 bits. *)
Lemma GetCompact_mant a :
  uint_ok a ->
  let n := (bits a + 7) / 8 in
  (if n <=? 3 then to_u32 (to_u64 (Z.shiftl (GetLow64 a) (8 * (3 - n))))
   else to_u32 (GetLow64 (op_shr a (8 * (n - 3)))))
  = mant (val a) n.
Proof.
  intros Ha. cbv zeta. rewrite bits_spec by done. pose proof (uint_ok_bound a Ha) as Hb.
  destruct (compact_of_small (val a) Hb) as [Hm Hn].
  set (n := (bitlen (val a) + 7) / 8) in *. unfold mant in *. destruct (Z.leb_spec n 3).
  - pose proof (pow2_pos (8 * (3 - n)) ltac:(lia)).
    rewrite GetLow64_spec, Z.shiftl_mul_pow2, (Z.mod_small (val a)) by (done || lia || nia).
    rewrite (wrap_small 64), wrap_small by solve_uint. done.
  - rewrite GetLow64_spec, val_shr by (first [done | lia | apply op_shr_ok; [done|lia]]).
    rewrite (Z.mod_small (val a / _)), wrap_small by solve_uint. done.
Qed.

Lemma GetCompact_spec a (fNegative : bool) :
  uint_ok a ->
  GetCompact a fNegative
  = Some (compact_of (val a) + if fNegative && negb (val a =? 0) then 2 ^ 23 else 0).
Proof.
  intros Ha. unfold GetCompact. rewrite GetCompact_mant by done. rewrite bits_spec by done.
  pose proof (uint_ok_bound a Ha) as Hb. destruct (compact_of_small (val a) Hb) as [Hm Hn].
  change 0x00800000 with (2 ^ 23). rewrite land_pow2_eqb, negb_involutive, testbit_top by (done || lia).
  set (n := (bitlen (val a) + 7) / 8) in *.
  assert (exists e, (if 2 ^ 23 <=? mant (val a) n then (Z.shiftr (mant (val a) n) 8, n + 1) else (mant (val a) n, n))
                    = (mant (val a) e, e) /\ 0 <= mant (val a) e < 2 ^ 23 /\ 0 <= e <= 33
                    /\ compact_of (val a) = mant (val a) e + e * 2 ^ 24) as (e & -> & Hme & He & Hce).
  { unfold compact_of. fold n. destruct (Z.leb_spec (2 ^ 23) (mant (val a) n)).
    - exists (n + 1). rewrite mant_step, Z.shiftr_div_pow2 by lia. split_and!; try done; try lia.
      + apply Z.div_pos; lia.
      + apply Z.div_lt_upper_bound; lia.
    - exists n. split_and!; try done; lia. }
  change (to_u32 (Z.lnot 0x007fffff)) with (511 * 2 ^ 23).
  rewrite (land_disjoint 23) by lia. cbn [Z.eqb negb].
  destruct (Z.ltb_spec e 256); [|lia]. cbn [negb].
  rewrite Z.shiftl_mul_pow2, wrap_small by (lia || solve_uint).
  rewrite (lor_disjoint 24) by lia. rewrite <- Hce. f_equal.
  change 0x007fffff with (Z.ones 23). rewrite Z.land_ones by lia.
  rewrite compact_mant_zero by done.
  destruct (fNegative && negb (val a =? 0)); [|by rewrite Z.lor_0_r, Z.add_0_r].
  destruct (compact_of_spec (val a) Hb) as (_ & Hbit & _).
  pose proof (land_pow2_eqb (compact_of (val a)) 23 ltac:(lia)) as Hl. rewrite Hbit in Hl.
  rewrite <- Z.add_lor_land. lia.
Qed.

(** ** Blob conversions *)

Lemma ArithToUint256_lev a :
  Forall (uint 32) a ->
  lev 8 (ArithToUint256 a) = lev 32 a /\ length (ArithToUint256 a) = (4 * length a)%nat
  /\ bytes_ok (ArithToUint256 a).
Proof.
  unfold ArithToUint256. induction 1 as [|x a Hx Ha (IHv & IHl & IHf)]; [done|].
  cbn [map]. change (mjoin (WriteLE32 x :: map WriteLE32 a)) with (WriteLE32 x ++ mjoin (map WriteLE32 a)).
  unfold WriteLE32 at 1 3 5.
  rewrite lev_app, length_app, length_digits, IHv, IHl, lev_digits by lia.
  change (8 * 4%nat) with 32. rewrite (Z.mod_small x) by exact Hx. split_and!; [done|cbn [length]; lia|].
  apply Forall_app; split; [apply digits_ok; lia|done].
Qed.

Lemma limbs_of_bytes_spec n b :
  bytes_ok b -> length b = (4 * n)%nat ->
  lev 32 (limbs_of_bytes n b) = lev 8 b /\ length (limbs_of_bytes n b) = n
  /\ Forall (uint 32) (limbs_of_bytes n b).
Proof.
  revert b. induction n as [|n IH]; intros b Hb Hl.
  - destruct b; [done|simpl in Hl; lia].
  - destruct (IH (drop 4 b)) as (IHv & IHl & IHf); [by apply Forall_drop|rewrite length_drop; lia|].
    cbn [limbs_of_bytes lev length]. rewrite IHv, IHl.
    assert (uint 32 (ReadLE32 b)) as Hr.
    { unfold ReadLE32. pose proof (lev_bound 8 ltac:(lia) (take 4 b) ltac:(by apply Forall_take)) as B.
      rewrite length_take, Nat.min_l in B by lia. done. }
    split_and!; [|done|by constructor].
    rewrite <- (take_drop 4 b) at 3. rewrite lev_app, length_take, Nat.min_l by lia. done.
Qed.

Lemma ArithToUint256_ok a : uint_ok a -> length (ArithToUint256 a) = 32%nat /\ bytes_ok (ArithToUint256 a).
Proof. intros [Hl Ha]. destruct (ArithToUint256_lev a Ha) as (_ & H1 & H2). rewrite Hl in H1. done. Qed.

Lemma UintToArith256_ok b : bytes_ok b -> length b = 32%nat -> uint_ok (UintToArith256 b).
Proof. intros Hb Hl. by destruct (limbs_of_bytes_spec WIDTH b Hb Hl) as (_ & ? & ?). Qed.

Lemma val_UintToArith256 b : bytes_ok b -> length b = 32%nat -> val (UintToArith256 b) = lev 8 b.
Proof. intros Hb Hl. by destruct (limbs_of_bytes_spec WIDTH b Hb Hl) as (? & ? & ?). Qed.

#[export] Hint Resolve UintToArith256_ok : uint.

(** ** The contract of [base_uint<256>] *)

(** The ring operators of [base_uint<256>] ([+=], [-=], unary [-], [~],
    [*=] by a word and by a number, [++], [--]) are the operations of the
    integers modulo [2^256] on the represented numbers, and keep the limbs in
    range. *)
Lemma base_uint_ring a b w :
  uint_ok a -> uint_ok b -> uint 32 w ->
  (uint_ok (op_add a b) /\ val (op_add a b) = (val a + val b) mod 2 ^ 256)
  /\ (uint_ok (op_sub a b) /\ val (op_sub a b) = (val a - val b) mod 2 ^ 256)
  /\ (uint_ok (op_neg a) /\ val (op_neg a) = (- val a) mod 2 ^ 256)
  /\ (uint_ok (op_mul a b) /\ val (op_mul a b) = (val a * val b) mod 2 ^ 256)
  /\ (uint_ok (op_mul32 a w) /\ val (op_mul32 a w) = (val a * w) mod 2 ^ 256)
  /\ (uint_ok (op_incr a) /\ val (op_incr a) = (val a + 1) mod 2 ^ 256)
  /\ (uint_ok (op_decr a) /\ val (op_decr a) = (val a - 1) mod 2 ^ 256)
  /\ (uint_ok (op_compl a) /\ val (op_compl a) = 2 ^ 256 - 1 - val a).
Proof.
  intros. repeat split_and; auto using val_add, val_sub, val_neg, val_mul, val_mul32, val_incr, val_decr, val_compl with uint.
Qed.

(** Shifting a [base_uint<256>] left multiplies by the power of two modulo
    [2^256] and shifting right divides by it, for every shift count, the
    counts that are multiples of the limb size and the counts of 256 and more
    included. *)
Lemma base_uint_shifts a s :
  uint_ok a -> 0 <= s ->
  (uint_ok (op_shl a s) /\ val (op_shl a s) = (val a * 2 ^ s) mod 2 ^ 256)
  /\ (uint_ok (op_shr a s) /\ val (op_shr a s) = val a / 2 ^ s).
Proof. intros. repeat split_and; auto using val_shl, val_shr with uint. Qed.

(** C28: long division of [base_uint<256>] terminates with the floor of the
    quotient for every dividend and every non-zero divisor, and a zero divisor
    is reported as the exception "Division by zero". *)
Theorem base_uint_division a b :
  uint_ok a -> uint_ok b ->
  if val b =? 0 then op_div a b = Err DivisionByZero
  else exists q, op_div a b = Ok q /\ uint_ok q /\ val q = val a / val b.
Proof.
  intros Ha Hb. destruct (Z.eqb_spec (val b) 0); [by apply op_div_zero|by apply op_div_spec].
Qed.

Lemma base_uint_division_witness :
  exists q, op_div (of_u64 (2 ^ 64 - 1)) (of_u64 10) = Ok q /\ val q = 1844674407370955161.
Proof.
  pose proof (base_uint_division (of_u64 (2 ^ 64 - 1)) (of_u64 10) (of_u64_ok _) (of_u64_ok _)) as H.
  destruct H as (q & H1 & _ & H2). exists q. split; [exact H1|].
  rewrite H2. vm_compute. reflexivity.
Defined.

(** [CompareTo] orders numbers by value, [bits] is the bit length, and
    equality with a [uint64_t] is equality of values. *)
Lemma base_uint_order a b n :
  uint_ok a -> uint_ok b -> uint 64 n ->
  CompareTo a b = Z.sgn (val a - val b)
  /\ bits a = (if val a =? 0 then 0 else Z.log2 (val a) + 1)
  /\ EqualTo a n = (val a =? n)
  /\ GetLow64 a = val a mod 2 ^ 64.
Proof.
  intros. split_and!; [by apply CompareTo_spec|by apply bits_spec|by apply EqualTo_spec|by apply GetLow64_spec].
Qed.

(** Limb arithmetic implements the integers modulo [2^256]. The ring
    operators of [base_uint<256>] ([+=], [-=], unary [-], [~], [*=] by a word and
    by a number, [++], [--]) are the operations modulo [2^256] on the
    represented numbers and keep the limbs in range. Shifting left multiplies
    by the power of two and shifting right divides by it, for every count,
    multiples of the limb size and counts of 256 and more included.
    [CompareTo] orders by value, [bits] is the bit length, equality with a
    [uint64_t] is equality of values and [GetLow64] is the low word. *)
Theorem base_uint_refines a b w n s :
  uint_ok a -> uint_ok b -> uint 32 w -> uint 64 n -> 0 <= s ->
  ((uint_ok (op_add a b) /\ val (op_add a b) = (val a + val b) mod 2 ^ 256)
   /\ (uint_ok (op_sub a b) /\ val (op_sub a b) = (val a - val b) mod 2 ^ 256)
   /\ (uint_ok (op_neg a) /\ val (op_neg a) = (- val a) mod 2 ^ 256)
   /\ (uint_ok (op_mul a b) /\ val (op_mul a b) = (val a * val b) mod 2 ^ 256)
   /\ (uint_ok (op_mul32 a w) /\ val (op_mul32 a w) = (val a * w) mod 2 ^ 256)
   /\ (uint_ok (op_incr a) /\ val (op_incr a) = (val a + 1) mod 2 ^ 256)
   /\ (uint_ok (op_decr a) /\ val (op_decr a) = (val a - 1) mod 2 ^ 256)
   /\ (uint_ok (op_compl a) /\ val (op_compl a) = 2 ^ 256 - 1 - val a))
  /\ ((uint_ok (op_shl a s) /\ val (op_shl a s) = (val a * 2 ^ s) mod 2 ^ 256)
      /\ (uint_ok (op_shr a s) /\ val (op_shr a s) = val a / 2 ^ s))
  /\ (CompareTo a b = Z.sgn (val a - val b)
      /\ bits a = (if val a =? 0 then 0 else Z.log2 (val a) + 1)
      /\ EqualTo a n = (val a =? n) /\ GetLow64 a = val a mod 2 ^ 64).
Proof.
  intros Ha Hb Hw Hn Hs.
  exact (conj (base_uint_ring a b w Ha Hb Hw) (conj (base_uint_shifts a s Ha Hs) (base_uint_order a b n Ha Hb Hn))).
Qed.

Lemma base_uint_refines_witness :
  let a := of_u64 (2 ^ 64 - 1) in
  val (op_mul a a) = ((2 ^ 64 - 1) * (2 ^ 64 - 1)) mod 2 ^ 256 /\ val (op_shr (of_u64 (2 ^ 64 - 1)) 40) = 2 ^ 24 - 1
  /\ CompareTo a (of_u64 (2 ^ 64 - 1)) = 0.
Proof.
  intros a. destruct (base_uint_refines a a 5 7 40) as ((_ & _ & _ & (_ & H) & _) & (_ & _ & H') & H'' & _);
    [apply of_u64_ok|apply of_u64_ok|by split|by split|lia|].
  split; [exact H|]. split; [etransitivity; [exact H'|by vm_compute]|etransitivity; [exact H''|by rewrite Z.sub_diag]].
Defined.

(** The compact encoding of a 256-bit number never trips its assertions,
    is a 32-bit word that decodes without the negative or overflow flag to a
    number not above the original and within one part in [2^15] of it, and
    encoding the decoded number gives the same word back. *)
Theorem compact_roundtrip a :
  uint_ok a ->
  exists c a',
    GetCompact a false = Some c /\ uint 32 c
    /\ SetCompact c = (a', false, false) /\ uint_ok a'
    /\ val a' <= val a /\ (val a - val a') * 2 ^ 15 <= val a
    /\ GetCompact a' false = Some c.
Proof.
  intros Ha. pose proof (uint_ok_bound a Ha) as Hb.
  destruct (compact_of_spec (val a) Hb) as (Hc & Hbit & Hle & Hprec & Hidem).
  rewrite GetCompact_spec by done. cbn [andb].
  destruct (SetCompact_spec (compact_of (val a)) Hc) as (a' & Hset & Ha' & Hv').
  pose proof (compact_value_nonneg _ Hc) as Hpos.
  rewrite Z.mod_small in Hv' by lia.
  exists (compact_of (val a) + 0), a'. rewrite Z.add_0_r. split_and!; try done; try lia.
  - rewrite Hset, Hbit, andb_false_r. destruct (Z.leb_spec (2 ^ 256) (compact_value (compact_of (val a)))); [lia|done].
  - rewrite GetCompact_spec, Hv', Hidem by done. cbn [andb]. by rewrite Z.add_0_r.
Qed.

Lemma compact_roundtrip_witness :
  exists c a', GetCompact (of_u64 0x1234567890) false = Some c /\ SetCompact c = (a', false, false).
Proof.
  destruct (compact_roundtrip (of_u64 0x1234567890) (of_u64_ok _)) as (c & a' & H1 & _ & H2 & _).
  exists c, a'. split; assumption.
Defined.

(** Decoding a compact word yields mantissa times a power of 256 modulo
    [2^256]; the overflow flag is raised exactly when that number does not fit
    in 256 bits, and the negative flag exactly when the sign bit is set on a
    non-zero number. *)
Theorem SetCompact_exact c :
  uint 32 c ->
  exists a, SetCompact c = (a, negb (compact_value c =? 0) && Z.testbit c 23,
                            2 ^ 256 <=? compact_value c)
  /\ uint_ok a /\ val a = compact_value c mod 2 ^ 256.
Proof. apply SetCompact_spec. Qed.

Lemma SetCompact_exact_witness :
  exists a, SetCompact 0x23000001 = (a, false, true).
Proof.
  destruct (SetCompact_exact 0x23000001 ltac:(by split)) as (a & H & _).
  exists a. rewrite H. vm_compute. reflexivity.
Defined.

(** A 256-bit number survives the conversion to the 32-byte blob and
    back, and so does a blob converted to a number and back. *)
Theorem uint256_roundtrip a b :
  uint_ok a -> bytes_ok b -> length b = 32%nat ->
  UintToArith256 (ArithToUint256 a) = a /\ ArithToUint256 (UintToArith256 b) = b.
Proof.
  intros Ha Hb Hl. destruct (ArithToUint256_ok a Ha) as [Hl1 Hok1].
  destruct Ha as [Hla Ha]. destruct (ArithToUint256_lev a Ha) as (Hv1 & _).
  pose proof (UintToArith256_ok b Hb Hl) as [Hl2 Hf2].
  destruct (ArithToUint256_lev _ Hf2) as (Hv2 & Hl3 & Hok3). split.
  - apply uint_ok_inj; [by apply UintToArith256_ok|done|].
    rewrite val_UintToArith256 by done. exact Hv1.
  - apply (lev_inj 8); [lia|done|done|rewrite Hl3, Hl2; done|].
    rewrite Hv2. by apply val_UintToArith256.
Qed.

Lemma uint256_roundtrip_witness :
  UintToArith256 (ArithToUint256 (of_u64 12345)) = of_u64 12345.
Proof.
  destruct (uint256_roundtrip (of_u64 12345) (replicate 32 1)) as [H _];
    [apply of_u64_ok|apply Forall_replicate; by split|reflexivity|exact H].
Defined.
