(* ===== verification/Serialize.v ===== *)
(** * Serialization (src/serialize.h)

    A stream is the list of bytes not yet read. The [Serialize] and
    [Unserialize] overloads of a type are the two fields of a [codec]; reading
    may throw [std::ios_base::failure], whose cases are [ser_error]. The codec
    combinators follow the templates of the header: the READWRITE sequence of
    a class is the composition of the codecs of its fields.

    Two laws are proved of codecs. [roundtrips]: what was written reads back,
    whatever follows it in the stream. [canonical]: whatever reads
    successfully is, byte for byte, what writing the result produces, so a
    value has one encoding only. *)

From S2P Require Import Prelude.
Local Open Scope Z_scope.
Local Open Scope code_scope.

(** ** Definitions *)

Definition MAX_SIZE : Z := 0x02000000.

Inductive ser_error :=
| EndOfData                  (* CBaseDataStream::read(): end of data *)
| NonCanonicalSize           (* non-canonical ReadCompactSize() *)
| SizeTooLarge               (* ReadCompactSize(): size too large *)
| NonCanonicalOptional       (* non-canonical optional discriminant *)
| StringLimitExceeded        (* String length limit exceeded *)
| InvalidSproutProof         (* Invalid Sprout proof for transaction format *)
| UnknownTransactionFormat   (* Unknown transaction format *)
| InvalidData.               (* a class-specific check failed *)

Abbreviation reader A := (bytes -> result ser_error (A * bytes)).

(** [CBaseDataStream::read]. *)
Definition read (n : nat) (s : bytes) : result ser_error (bytes * bytes) :=
  if (n <=? length s)%nat then Ok (take n s, drop n s) else Err EndOfData.

Definition ser_writedata8 (obj : Z) : bytes := digits 8 1 obj.
Definition ser_writedata16 (obj : Z) : bytes := WriteLE16 obj.
Definition ser_writedata32 (obj : Z) : bytes := WriteLE32 obj.
Definition ser_writedata32be (obj : Z) : bytes := WriteBE32 obj.
Definition ser_writedata64 (obj : Z) : bytes := WriteLE64 obj.

Definition ser_readdata8 : reader Z := fun s =>
  let* (b, s) := read 1 s in Ok (lev 8 b, s).
Definition ser_readdata16 : reader Z := fun s =>
  let* (b, s) := read 2 s in Ok (ReadLE16 b, s).
Definition ser_readdata32 : reader Z := fun s =>
  let* (b, s) := read 4 s in Ok (ReadLE32 b, s).
Definition ser_readdata32be : reader Z := fun s =>
  let* (b, s) := read 4 s in Ok (ReadBE32 b, s).
Definition ser_readdata64 : reader Z := fun s =>
  let* (b, s) := read 8 s in Ok (ReadLE64 b, s).

(** *** Compact sizes *)

Definition GetSizeOfCompactSize (nSize : Z) : Z :=
  if nSize <? 253 then 1
  else if nSize <=? 0xFFFF then 3
  else if nSize <=? 0xFFFFFFFF then 5
  else 9.

Definition WriteCompactSize (nSize : Z) : bytes :=
  if nSize <? 253 then ser_writedata8 nSize
  else if nSize <=? 0xFFFF then ser_writedata8 253 ++ ser_writedata16 nSize
  else if nSize <=? 0xFFFFFFFF then ser_writedata8 254 ++ ser_writedata32 nSize
  else ser_writedata8 255 ++ ser_writedata64 nSize.

Definition ReadCompactSize : reader Z := fun s =>
  let* (chSize, s) := ser_readdata8 s in
  let* (nSizeRet, s) :=
    if chSize <? 253 then Ok (chSize, s)
    else if chSize =? 253 then
      let* (n, s) := ser_readdata16 s in
      require negb (n <? 253) orelse NonCanonicalSize in Ok (n, s)
    else if chSize =? 254 then
      let* (n, s) := ser_readdata32 s in
      require negb (n <? 0x10000) orelse NonCanonicalSize in Ok (n, s)
    else
      let* (n, s) := ser_readdata64 s in
      require negb (n <? 0x100000000) orelse NonCanonicalSize in Ok (n, s) in
  require negb (MAX_SIZE <? nSizeRet) orelse SizeTooLarge in Ok (nSizeRet, s).

(** *** Variable-length integers of a [w]-bit unsigned type *)

(** [GetSizeOfVarInt]; [fuel] bounds the loop. *)
Fixpoint size_of_varint (fuel : nat) (n : Z) : Z :=
  match fuel with
  | O => 0
  | S fuel' => 1 + if n <=? 0x7F then 0 else size_of_varint fuel' (Z.shiftr n 7 - 1)
  end.
Definition GetSizeOfVarInt (w n : Z) : Z := size_of_varint (Z.to_nat ((w + 6) / 7)) n.

(** The loop of [WriteVarInt] that fills [tmp]: [room] is what is left of
    the [(sizeof(n)*8+6)/7] bytes of the buffer, and [None] is a write past
    its end. *)
Fixpoint varint_tmp (room : nat) (first : bool) (n : Z) : option (list Z) :=
  match room with
  | O => None
  | S room' =>
      let b := Z.lor (Z.land n 0x7F) (if first then 0x00 else 0x80) in
      if n <=? 0x7F then Some [b]
      else option_map (cons b) (varint_tmp room' false (Z.shiftr n 7 - 1))
  end.

(** [tmp] is written out from its last entry to its first. *)
Definition WriteVarInt (w n : Z) : option bytes :=
  option_map (fun tmp => rev tmp) (varint_tmp (Z.to_nat ((w + 6) / 7)) true n).

Fixpoint read_varint (w n : Z) (s : bytes) : result ser_error (Z * bytes) :=
  match s with
  | [] => Err EndOfData
  | chData :: s =>
      let n := Z.lor (wrap w (Z.shiftl n 7)) (Z.land chData 0x7F) in
      if negb (Z.land chData 0x80 =? 0) then read_varint w (wrap w (n + 1)) s
      else Ok (n, s)
  end.
Definition ReadVarInt (w : Z) : reader Z := read_varint w 0.

(** ** Codecs *)

Record codec (A : Type) := Codec {
  Serialize : A -> result ser_error bytes;
  Unserialize : reader A
}.
Arguments Codec {A} _ _.
Arguments Serialize {A} _ _.
Arguments Unserialize {A} _ _.

Definition u8_codec : codec Z := Codec (fun a => Ok (ser_writedata8 a)) ser_readdata8.
Definition u16_codec : codec Z := Codec (fun a => Ok (ser_writedata16 a)) ser_readdata16.
Definition u32_codec : codec Z := Codec (fun a => Ok (ser_writedata32 a)) ser_readdata32.
Definition u64_codec : codec Z := Codec (fun a => Ok (ser_writedata64 a)) ser_readdata64.
Definition i32_codec : codec Z :=
  Codec (fun a => Ok (ser_writedata32 a)) (fun s => let* (x, s) := ser_readdata32 s in Ok (to_i32 x, s)).
Definition i64_codec : codec Z :=
  Codec (fun a => Ok (ser_writedata64 a)) (fun s => let* (x, s) := ser_readdata64 s in Ok (to_i64 x, s)).
Definition bool_codec : codec bool :=
  Codec (fun a : bool => Ok (ser_writedata8 (if a then 1 else 0)))
        (fun s => let* (f, s) := ser_readdata8 s in Ok (negb (f =? 0), s)).

(** A fixed number of raw bytes: [base_blob] and [std::array] of bytes. *)
Definition flat_codec (n : nat) : codec bytes := Codec (fun a => Ok a) (read n).

Definition compactsize_codec : codec Z := Codec (fun n => Ok (WriteCompactSize n)) ReadCompactSize.

(** [Unserialize_impl] for vectors of bytes reads blocks of at most
    [1 + 4999999 / sizeof(T)] bytes, so that a bogus size does not allocate. *)
Fixpoint read_blocks (fuel : nat) (nSize i : Z) (v s : bytes) : result ser_error (bytes * bytes) :=
  match fuel with
  | O => Ok (v, s)
  | S fuel' =>
      if i <? nSize then
        let blk := Z.min (nSize - i) 5000000 in
        let* (b, s) := read (Z.to_nat blk) s in
        read_blocks fuel' nSize (i + blk) (v ++ b) s
      else Ok (v, s)
  end.

Definition bytes_vec_codec : codec bytes :=
  Codec (fun v => Ok (WriteCompactSize (length v) ++ v))
        (fun s =>
           let* (nSize, s) := ReadCompactSize s in
           read_blocks (Z.to_nat nSize) nSize 0 [] s).

Section combinators.
Context {A B : Type}.

Fixpoint serialize_all (c : codec A) (l : list A) : result ser_error bytes :=
  match l with
  | [] => Ok []
  | x :: l => let* b := Serialize c x in let* bs := serialize_all c l in Ok (b ++ bs)
  end.

(** [for (; i < nMid; i++) Unserialize(is, v[i]);] *)
Fixpoint unserialize_n (c : codec A) (n : nat) (s : bytes) : result ser_error (list A * bytes) :=
  match n with
  | O => Ok ([], s)
  | S n => let* (x, s) := Unserialize c s in
           let* (l, s) := unserialize_n c n s in Ok (x :: l, s)
  end.

(** [Unserialize_impl] for vectors of other types: [nMid] grows in steps of
    [chunk = 5000000 / sizeof(T)] elements. *)
Fixpoint read_chunks (c : codec A) (chunk : Z) (fuel : nat) (nSize i : Z) (v : list A) (s : bytes)
  : result ser_error (list A * bytes) :=
  match fuel with
  | O => Ok (v, s)
  | S fuel' =>
      if i <? nSize then
        let nMid := Z.min (i + chunk) nSize in
        let* (l, s) := unserialize_n c (Z.to_nat (nMid - i)) s in
        read_chunks c chunk fuel' nSize nMid (v ++ l) s
      else Ok (v, s)
  end.

Definition vector_codec (chunk : Z) (c : codec A) : codec (list A) :=
  Codec (fun v => let* b := serialize_all c v in Ok (WriteCompactSize (length v) ++ b))
        (fun s =>
           let* (nSize, s) := ReadCompactSize s in
           read_chunks c chunk (Z.to_nat nSize) nSize 0 [] s).

Definition array_codec (n : nat) (c : codec A) : codec (list A) :=
  Codec (serialize_all c) (unserialize_n c n).

Definition optional_codec (c : codec A) : codec (option A) :=
  Codec (fun item =>
           match item with
           | Some a => let* b := Serialize c a in Ok (ser_writedata8 1 ++ b)
           | None => Ok (ser_writedata8 0)
           end)
        (fun s =>
           let* (discriminant, s) := ser_readdata8 s in
           if discriminant =? 0 then Ok (None, s)
           else if discriminant =? 1 then
             let* (a, s) := Unserialize c s in Ok (Some a, s)
           else Err NonCanonicalOptional).

(** Two READWRITEs in sequence, the second of which may depend on what the
    first one read or wrote. *)
Definition seq_codec (c : codec A) (k : A -> codec B) : codec (A * B) :=
  Codec (fun '(a, b) =>
           let* x := Serialize c a in let* y := Serialize (k a) b in Ok (x ++ y))
        (fun s =>
           let* (a, s) := Unserialize c s in
           let* (b, s) := Unserialize (k a) s in Ok ((a, b), s)).

(** A READWRITE under a condition; a field that is not read keeps the value
    [d] the constructor gave it. *)
Definition cond_codec (cond : bool) (d : A) (c : codec A) : codec A :=
  Codec (fun a => if cond then Serialize c a else Ok [])
        (fun s => if cond then Unserialize c s else Ok (d, s)).

(** [throw] unless the condition holds. *)
Definition guard_codec (cond : bool) (e : ser_error) : codec unit :=
  Codec (fun _ => if cond then Ok [] else Err e)
        (fun s => if cond then Ok (tt, s) else Err e).

(** The fields of a class as a tuple, in the order they are serialized. *)
Definition struct_codec (c : codec A) (fields : B -> A) (make : A -> B) : codec B :=
  Codec (fun x => Serialize c (fields x))
        (fun s => let* (a, s) := Unserialize c s in Ok (make a, s)).
End combinators.

(** [LimitedString<Limit>]. *)
Definition limited_string_codec (Limit : Z) : codec bytes :=
  Codec (fun str => Ok (WriteCompactSize (length str) ++ str))
        (fun s =>
           let* (size, s) := ReadCompactSize s in
           require negb (Limit <? size) orelse StringLimitExceeded in
           read (Z.to_nat size) s).

(** ** Laws *)

Definition roundtrips {A} (c : codec A) (ok : A -> Prop) : Prop :=
  forall a, ok a -> exists b, Serialize c a = Ok b /\ bytes_ok b
            /\ forall s, Unserialize c (b ++ s) = Ok (a, s).

Definition canonical {A} (c : codec A) (ok : A -> Prop) : Prop :=
  forall s a s', bytes_ok s -> Unserialize c s = Ok (a, s') ->
  ok a /\ exists b, Serialize c a = Ok b /\ s = b ++ s'.

Class Lawful {A} (c : codec A) (ok : A -> Prop) : Prop := {
  lawful_rt : roundtrips c ok;
  lawful_canonical : canonical c ok
}.

Section readers.
Implicit Types s b : bytes.

Lemma read_app n b s : length b = n -> read n (b ++ s) = Ok (b, s).
Proof.
  intros <-. unfold read. rewrite length_app.
  destruct (Nat.leb_spec (length b) (length b + length s)); [|lia].
  by rewrite take_app_length, drop_app_length.
Qed.

Lemma read_Ok n s b s' : read n s = Ok (b, s') -> s = b ++ s' /\ length b = n.
Proof.
  unfold read. destruct (Nat.leb_spec n (length s)); [|done]. intros [= <- <-].
  rewrite take_drop, length_take. split; [done|lia].
Qed.

(** Fixed-width little-endian integers. *)
Lemma read_digits (n : nat) z s (f : bytes -> Z) :
  (forall b, length b = n -> f b = lev 8 b) -> uint (8 * n) z ->
  bindR (read n (digits 8 n z ++ s)) (fun '(b, s) => Ok (E := ser_error) (f b, s)) = Ok (z, s).
Proof.
  intros Hf Hz. rewrite read_app by (apply length_digits; lia). cbn.
  rewrite Hf by (apply length_digits; lia). rewrite lev_digits, Z.mod_small by (exact Hz || lia). done.
Qed.

Lemma read_digits_inv (n : nat) z s s' (f : bytes -> Z) :
  (forall b, length b = n -> f b = lev 8 b) -> bytes_ok s ->
  bindR (read n s) (fun '(b, s) => Ok (E := ser_error) (f b, s)) = Ok (z, s') ->
  uint (8 * n) z /\ s = digits 8 n z ++ s'.
Proof.
  intros Hf Hs H. apply bindR_Ok in H as ([b s1] & H & [= <- <-]).
  apply read_Ok in H as [-> Hb]. apply Forall_app in Hs as [Hs _].
  rewrite Hf by done. pose proof (lev_bound 8 ltac:(lia) b Hs) as B. rewrite Hb in B.
  split; [done|]. rewrite <- Hb, digits_lev by (done || lia). done.
Qed.

Lemma take_exact {A} n (b : list A) : length b = n -> take n b = b.
Proof. intros <-. by rewrite take_ge. Qed.

Lemma readdata8_spec z s : uint 8 z -> ser_readdata8 (ser_writedata8 z ++ s) = Ok (z, s).
Proof. apply (read_digits 1). done. Qed.
Lemma readdata16_spec z s : uint 16 z -> ser_readdata16 (ser_writedata16 z ++ s) = Ok (z, s).
Proof. apply (read_digits 2). intros b Hb. unfold ReadLE16. by rewrite take_exact. Qed.
Lemma readdata32_spec z s : uint 32 z -> ser_readdata32 (ser_writedata32 z ++ s) = Ok (z, s).
Proof. apply (read_digits 4). intros b Hb. unfold ReadLE32. by rewrite take_exact. Qed.
Lemma readdata64_spec z s : uint 64 z -> ser_readdata64 (ser_writedata64 z ++ s) = Ok (z, s).
Proof. apply (read_digits 8). intros b Hb. unfold ReadLE64. by rewrite take_exact. Qed.

Lemma readdata8_inv z s s' :
  bytes_ok s -> ser_readdata8 s = Ok (z, s') -> uint 8 z /\ s = ser_writedata8 z ++ s'.
Proof. apply (read_digits_inv 1). done. Qed.
Lemma readdata16_inv z s s' :
  bytes_ok s -> ser_readdata16 s = Ok (z, s') -> uint 16 z /\ s = ser_writedata16 z ++ s'.
Proof. apply (read_digits_inv 2). intros b Hb. unfold ReadLE16. by rewrite take_exact. Qed.
Lemma readdata32_inv z s s' :
  bytes_ok s -> ser_readdata32 s = Ok (z, s') -> uint 32 z /\ s = ser_writedata32 z ++ s'.
Proof. apply (read_digits_inv 4). intros b Hb. unfold ReadLE32. by rewrite take_exact. Qed.
Lemma readdata64_inv z s s' :
  bytes_ok s -> ser_readdata64 s = Ok (z, s') -> uint 64 z /\ s = ser_writedata64 z ++ s'.
Proof. apply (read_digits_inv 8). intros b Hb. unfold ReadLE64. by rewrite take_exact. Qed.

Lemma writedata8_ok z : bytes_ok (ser_writedata8 z).
Proof. apply digits_ok. lia. Qed.
Lemma writedata16_ok z : bytes_ok (ser_writedata16 z).
Proof. apply digits_ok. lia. Qed.
Lemma writedata32_ok z : bytes_ok (ser_writedata32 z).
Proof. apply digits_ok. lia. Qed.
Lemma writedata64_ok z : bytes_ok (ser_writedata64 z).
Proof. apply digits_ok. lia. Qed.
End readers.

Create HintDb ser.
#[export] Hint Resolve writedata8_ok writedata16_ok writedata32_ok writedata64_ok Forall_app_2 : ser.

Ltac step_bind := cbv beta iota delta [bindR].
Ltac bind_inv H :=
  let x := fresh "x" in let s := fresh "s" in let E := fresh "E" in
  apply bindR_Ok in H as ([x s] & E & H).

(** *** Compact sizes *)

Lemma WriteCompactSize_ok n : bytes_ok (WriteCompactSize n).
Proof.
  unfold WriteCompactSize. repeat case_match; auto with ser.
Qed.
#[export] Hint Resolve WriteCompactSize_ok : ser.

Lemma ReadCompactSize_app n s :
  0 <= n <= MAX_SIZE -> ReadCompactSize (WriteCompactSize n ++ s) = Ok (n, s).
Proof.
  unfold MAX_SIZE. intros Hn. unfold WriteCompactSize, ReadCompactSize.
  destruct (Z.ltb_spec n 253).
  - rewrite readdata8_spec by solve_uint. cbn [bindR].
    destruct (Z.ltb_spec n 253); [|lia]. cbn [bindR]. destruct (Z.ltb_spec MAX_SIZE n); [unfold MAX_SIZE in *; lia|done].
  - destruct (Z.leb_spec n 0xFFFF); [|destruct (Z.leb_spec n 0xFFFFFFFF); [|lia]]; rewrite <- app_assoc.
    + rewrite readdata8_spec by solve_uint. step_bind.
      change (253 <? 253) with false. change (253 =? 253) with true. step_bind.
      rewrite readdata16_spec by solve_uint. step_bind.
      destruct (Z.ltb_spec n 253); [lia|]. cbn [negb]. step_bind.
      destruct (Z.ltb_spec MAX_SIZE n); [unfold MAX_SIZE in *; lia|done].
    + rewrite readdata8_spec by solve_uint. step_bind.
      change (254 <? 253) with false. change (254 =? 253) with false. change (254 =? 254) with true. step_bind.
      rewrite readdata32_spec by solve_uint. step_bind.
      destruct (Z.ltb_spec n 0x10000); [lia|]. cbn [negb]. step_bind.
      destruct (Z.ltb_spec MAX_SIZE n); [unfold MAX_SIZE in *; lia|done].
Qed.

Lemma ReadCompactSize_inv n s s' :
  bytes_ok s -> ReadCompactSize s = Ok (n, s') -> 0 <= n <= MAX_SIZE /\ s = WriteCompactSize n ++ s'.
Proof.
  intros Hs H. unfold ReadCompactSize in H. bind_inv H. apply readdata8_inv in E as [Hx ->]; [|done].
  apply Forall_app in Hs as [_ Hs]. bind_inv H.
  destruct (Z.ltb_spec MAX_SIZE x0); cbn in H; [done|]. injection H as -> ->.
  unfold MAX_SIZE in *. unfold WriteCompactSize.
  destruct (Z.ltb_spec x 253) as [Hlt|Hge]; [|destruct (Z.eqb_spec x 253) as [->|H253]; [|destruct (Z.eqb_spec x 254) as [->|H254]]].
  - injection E as -> ->. unfold uint in Hx. split; [lia|]. destruct (Z.ltb_spec n 253); [done|lia].
  - bind_inv E. apply readdata16_inv in E0 as [Hn ->]; [|done]. unfold uint in Hn.
    destruct (Z.ltb_spec x 253); cbn in E; [done|]. injection E as -> ->. split; [lia|].
    destruct (Z.ltb_spec n 253); [lia|]. destruct (Z.leb_spec n 0xFFFF); [|lia]. by rewrite <- app_assoc.
  - bind_inv E. apply readdata32_inv in E0 as [Hn ->]; [|done]. unfold uint in Hn.
    destruct (Z.ltb_spec x 0x10000); cbn in E; [done|]. injection E as -> ->. split; [lia|].
    destruct (Z.ltb_spec n 253); [lia|]. destruct (Z.leb_spec n 0xFFFF); [lia|].
    destruct (Z.leb_spec n 0xFFFFFFFF); [|lia]. by rewrite <- app_assoc.
  - bind_inv E. destruct (Z.ltb_spec x0 0x100000000); cbn in E; [done|]. injection E as -> ->. lia.
Qed.

(** *** Variable-length integers *)

Lemma varint_byte n (first : bool) :
  let b := Z.lor (Z.land n 0x7F) (if first then 0x00 else 0x80) in
  uint 8 b /\ Z.land b 0x7F = n mod 128 /\ (Z.land b 0x80 =? 0) = first.
Proof.
  cbv zeta. change 0x7F with (Z.ones 7). rewrite !Z.land_ones by lia. change (2 ^ 7) with 128.
  pose proof (Z.mod_pos_bound n 128 ltac:(lia)) as Hm. set (m := n mod 128) in *.
  assert (forall b, uint 8 b -> (Z.land b 128 =? 0) = negb (128 <=? b)) as Hbit.
  { intros b Hb. change 128 with (2 ^ 7). rewrite land_pow2_eqb, testbit_top by (exact Hb || lia). done. }
  destruct first.
  - rewrite Z.lor_0_r. assert (uint 8 m) by solve_uint.
    split_and!; [done|apply Z.mod_small; lia|]. rewrite Hbit by done. lia.
  - change (Z.lor m 128) with (Z.lor m (1 * 2 ^ 7)). rewrite lor_disjoint by lia. change (1 * 2 ^ 7) with (1 * 128).
    assert (uint 8 (m + 1 * 128)) by solve_uint. split_and!; [done| |].
    + rewrite Z.mod_add by lia. apply Z.mod_small. lia.
    + rewrite Hbit by done. lia.
Qed.

Lemma varint_tmp_total room first n :
  0 <= n < 2 ^ (7 * S room) -> exists tmp, varint_tmp (S room) first n = Some tmp
                               /\ Z.of_nat (length tmp) = size_of_varint (S room) n.
Proof.
  revert first n. induction room as [|room IH]; intros first n Hn.
  - change (7 * 1%nat) with 7 in Hn. cbn. destruct (Z.leb_spec n 0x7F); [|lia]. eauto.
  - cbn [varint_tmp size_of_varint]. destruct (Z.leb_spec n 0x7F); [by eauto|].
    rewrite Z.shiftr_div_pow2 by lia. change (2 ^ 7) with 128.
    destruct (IH false (n / 128 - 1)) as (tmp & Htmp & Hlen).
    { replace (7 * S (S room)) with (7 + 7 * S room) in Hn by lia.
      rewrite Z.pow_add_r in Hn by lia. change (2 ^ 7) with 128 in Hn.
      pose proof (Z.div_mod n 128 ltac:(lia)). pose proof (Z.mod_pos_bound n 128 ltac:(lia)). nia. }
    cbn [varint_tmp size_of_varint] in *. rewrite Htmp. eexists; split; [done|]. cbn [length]. lia.
Qed.

Lemma varint_tmp_bytes room first n tmp : varint_tmp room first n = Some tmp -> bytes_ok tmp.
Proof.
  revert first n tmp. induction room as [|room IH]; intros first n tmp; [done|]. cbn [varint_tmp].
  destruct (varint_byte n first) as [Hb _]. destruct (n <=? 0x7F).
  - intros [= <-]. by constructor.
  - destruct (varint_tmp room false _) as [tmp'|] eqn:E; [|done]. intros [= <-]. constructor; eauto.
Qed.

(** Reading the digits of [n] back, from the most significant one. *)
Lemma read_varint_tmp w room first n tmp s :
  7 <= w -> varint_tmp room first n = Some tmp -> 0 <= n < 2 ^ w -> (first = false -> n + 1 < 2 ^ w) ->
  read_varint w 0 (rev tmp ++ s) = if first then Ok (n, s) else read_varint w (n + 1) s.
Proof.
  intros Hw. revert first n tmp s. induction room as [|room IH]; intros first n tmp s; [done|].
  cbn [varint_tmp]. intros Htmp Hn Hn1.
  destruct (varint_byte n first) as (Hb & Hlow & Hhigh).
  set (b := Z.lor (Z.land n 0x7F) (if first then 0x00 else 0x80)) in *.
  pose proof (Z.div_mod n 128 ltac:(lia)) as Hdm. pose proof (Z.mod_pos_bound n 128 ltac:(lia)) as Hm.
  assert (forall m, m = n / 128 ->
    read_varint w m (b :: s) = if first then Ok (n, s) else read_varint w (n + 1) s) as Hstep.
  { intros m ->. cbn [read_varint]. rewrite Hhigh, Hlow, Z.shiftl_mul_pow2 by lia.
    rewrite (wrap_small w (n / 128 * _)) by (unfold uint; change (2 ^ 7) with 128; lia).
    rewrite Z.lor_comm, (lor_disjoint 7) by lia. change (2 ^ 7) with 128.
    replace (n mod 128 + n / 128 * 128) with n by lia.
    destruct first; cbn; [done|]. rewrite (wrap_small w (n + 1)) by (unfold uint; specialize (Hn1 eq_refl); lia). done. }
  destruct (Z.leb_spec n 0x7F) as [Hle|Hgt].
  - injection Htmp as <-. cbn [rev app]. apply Hstep. symmetry. apply Z.div_small. lia.
  - rewrite Z.shiftr_div_pow2 in Htmp by lia. change (2 ^ 7) with 128 in Htmp.
    destruct (varint_tmp room false (n / 128 - 1)) as [tmp'|] eqn:E; [|done]. injection Htmp as <-.
    cbn [rev]. rewrite <- app_assoc. cbn [app].
    rewrite (IH false (n / 128 - 1) tmp' (b :: s) E) by (try intros _; lia).
    apply Hstep. lia.
Qed.

(** ** Laws of the codecs *)

#[export] Instance u8_lawful : Lawful u8_codec (uint 8).
Proof.
  split.
  - intros a Ha. eexists; split_and!; [done|auto with ser|]. intros. by apply readdata8_spec.
  - intros s a s' Hs H. apply readdata8_inv in H as [? ->]; eauto.
Qed.
#[export] Instance u16_lawful : Lawful u16_codec (uint 16).
Proof.
  split.
  - intros a Ha. eexists; split_and!; [done|auto with ser|]. intros. by apply readdata16_spec.
  - intros s a s' Hs H. apply readdata16_inv in H as [? ->]; eauto.
Qed.
#[export] Instance u32_lawful : Lawful u32_codec (uint 32).
Proof.
  split.
  - intros a Ha. eexists; split_and!; [done|auto with ser|]. intros. by apply readdata32_spec.
  - intros s a s' Hs H. apply readdata32_inv in H as [? ->]; eauto.
Qed.
#[export] Instance u64_lawful : Lawful u64_codec (uint 64).
Proof.
  split.
  - intros a Ha. eexists; split_and!; [done|auto with ser|]. intros. by apply readdata64_spec.
  - intros s a s' Hs H. apply readdata64_inv in H as [? ->]; eauto.
Qed.

(** A signed integer is written as its two's complement residue. *)
Lemma digits_mod w (n : nat) z z' : 0 < w -> z mod 2 ^ (w * n) = z' mod 2 ^ (w * n) -> digits w n z = digits w n z'.
Proof.
  intros Hw Hz. apply (lev_inj w); [done|by apply digits_ok..|by rewrite !length_digits by done|].
  by rewrite !lev_digits.
Qed.

Lemma swrap_wrap w z : 0 < w -> sint w z -> swrap w (wrap w z) = z.
Proof.
  intros Hw Hz. unfold swrap, wrap. rewrite Z.add_mod_idemp_l by (pose proof (pow2_pos w); lia).
  by apply swrap_small.
Qed.

Lemma wrap_swrap w z : 0 < w -> wrap w (swrap w z) = wrap w z.
Proof.
  intros Hw. unfold swrap, wrap. rewrite <- Zminus_mod_idemp_l, Z.mod_mod, Zminus_mod_idemp_l by (pose proof (pow2_pos w); lia).
  f_equal. lia.
Qed.

#[export] Instance i32_lawful : Lawful i32_codec (sint 32).
Proof.
  split.
  - intros a Ha. eexists; split_and!; [done|auto with ser|]. intros s. cbn [Unserialize i32_codec].
    unfold ser_writedata32, WriteLE32. rewrite (digits_mod 8 4 a (wrap 32 a)) by (try lia; symmetry; apply Z.mod_mod; lia).
    fold (WriteLE32 (wrap 32 a)). fold (ser_writedata32 (wrap 32 a)).
    rewrite readdata32_spec by (apply wrap_range; lia). cbn [bindR]. rewrite swrap_wrap by (done || lia). done.
  - intros s a s' Hs H. cbn [Unserialize i32_codec] in H. bind_inv H. injection H as <- <-.
    apply readdata32_inv in E as [Hx ->]; [|done]. split; [apply swrap_range; lia|].
    eexists; split; [done|]. f_equal. apply digits_mod; [lia|].
    pose proof (wrap_swrap 32 x ltac:(lia)) as E. unfold wrap in E. symmetry. exact E.
Qed.
#[export] Instance i64_lawful : Lawful i64_codec (sint 64).
Proof.
  split.
  - intros a Ha. eexists; split_and!; [done|auto with ser|]. intros s. cbn [Unserialize i64_codec].
    unfold ser_writedata64, WriteLE64. rewrite (digits_mod 8 8 a (wrap 64 a)) by (try lia; symmetry; apply Z.mod_mod; lia).
    fold (WriteLE64 (wrap 64 a)). fold (ser_writedata64 (wrap 64 a)).
    rewrite readdata64_spec by (apply wrap_range; lia). cbn [bindR]. rewrite swrap_wrap by (done || lia). done.
  - intros s a s' Hs H. cbn [Unserialize i64_codec] in H. bind_inv H. injection H as <- <-.
    apply readdata64_inv in E as [Hx ->]; [|done]. split; [apply swrap_range; lia|].
    eexists; split; [done|]. f_equal. apply digits_mod; [lia|].
    pose proof (wrap_swrap 64 x ltac:(lia)) as E. unfold wrap in E. symmetry. exact E.
Qed.

Definition flat_ok (n : nat) (b : bytes) : Prop := length b = n /\ bytes_ok b.

#[export] Instance flat_lawful n : Lawful (flat_codec n) (flat_ok n).
Proof.
  split.
  - intros a [Hl Ha]. exists a. split_and!; [done|done|]. intros s. by apply read_app.
  - intros s a s' Hs H. apply read_Ok in H as [-> Hl]. apply Forall_app in Hs as [? _].
    split; [done|]. eexists; eauto.
Qed.

#[export] Instance compactsize_lawful : Lawful compactsize_codec (fun n => 0 <= n <= MAX_SIZE).
Proof.
  split.
  - intros n Hn. eexists; split_and!; [done|auto with ser|]. intros. by apply ReadCompactSize_app.
  - intros s n s' Hs H. apply ReadCompactSize_inv in H as [? ->]; [|done]. split; [done|]. eexists; eauto.
Qed.

(** Reading in blocks is reading at once, also in which exception it throws. *)
Lemma read_split a b s :
  read (a + b) s
  = bindR (read a s) (fun '(x, s1) => bindR (read b s1) (fun '(y, s2) => Ok (x ++ y, s2))).
Proof.
  unfold read. destruct (Nat.leb_spec a (length s)) as [Ha|Ha]; cbn [bindR].
  - rewrite length_drop. destruct (Nat.leb_spec b (length s - a)), (Nat.leb_spec (a + b) (length s)); try lia; [|done].
    cbn [bindR]. rewrite drop_drop, <- take_take_drop. done.
  - destruct (Nat.leb_spec (a + b) (length s)); [lia|done].
Qed.

Lemma read_0 s : read 0 s = Ok ([], s).
Proof. done. Qed.

Lemma read_blocks_spec (fuel : nat) nSize i v s :
  0 <= i <= nSize -> nSize - i <= fuel ->
  read_blocks fuel nSize i v s
  = bindR (read (Z.to_nat (nSize - i)) s) (fun '(b, s) => Ok (v ++ b, s)).
Proof.
  revert i v s. induction fuel as [|fuel IH]; intros i v s Hi Hf; cbn [read_blocks].
  - replace (nSize - i) with 0 by lia. change (Z.to_nat 0) with 0%nat. rewrite read_0. step_bind. by rewrite app_nil_r.
  - destruct (Z.ltb_spec i nSize) as [Hlt|Hge].
    + set (blk := Z.min (nSize - i) 5000000). assert (0 < blk <= nSize - i) as Hblk by lia.
      replace (Z.to_nat (nSize - i)) with (Z.to_nat blk + Z.to_nat (nSize - (i + blk)))%nat by lia.
      rewrite read_split. destruct (read (Z.to_nat blk) s) as [[b s1]|e]; [|done]. cbn [bindR].
      rewrite IH by lia. destruct (read _ s1) as [[b' s2]|e]; [|done]. cbn. by rewrite app_assoc.
    + replace (nSize - i) with 0 by lia. change (Z.to_nat 0) with 0%nat. rewrite read_0. step_bind. by rewrite app_nil_r.
Qed.

Definition size_ok {A} (l : list A) : Prop := Z.of_nat (length l) <= MAX_SIZE.

Lemma bytes_vec_read nSize s :
  0 <= nSize -> read_blocks (Z.to_nat nSize) nSize 0 [] s = read (Z.to_nat nSize) s.
Proof.
  intros. rewrite read_blocks_spec by lia. rewrite Z.sub_0_r.
  by destruct (read (Z.to_nat nSize) s) as [[b s']|e].
Qed.

#[export] Instance bytes_vec_lawful : Lawful bytes_vec_codec (fun v => size_ok v /\ bytes_ok v).
Proof.
  split.
  - intros v [Hsz Hv]. eexists; split_and!; [done|auto with ser|]. intros s.
    cbn [Unserialize bytes_vec_codec]. rewrite <- app_assoc, ReadCompactSize_app by (unfold size_ok in *; lia).
    cbn [bindR]. rewrite bytes_vec_read, Nat2Z.id by lia. by apply read_app.
  - intros s v s' Hs H. cbn [Unserialize bytes_vec_codec] in H. bind_inv H.
    apply ReadCompactSize_inv in E as [Hn ->]; [|done]. apply Forall_app in Hs as [_ Hs].
    rewrite bytes_vec_read in H by lia. apply read_Ok in H as [-> Hl]. apply Forall_app in Hs as [Hv _].
    split; [split; [unfold size_ok; lia|done]|]. eexists; split; [done|].
    rewrite Hl, Z2Nat.id, <- app_assoc by lia. done.
Qed.

Section combinator_laws.
Context {A B : Type}.
Implicit Types (c : codec A) (ok : A -> Prop).

Lemma unserialize_n_split c a b s :
  unserialize_n c (a + b) s
  = bindR (unserialize_n c a s) (fun '(x, s1) => bindR (unserialize_n c b s1) (fun '(y, s2) => Ok (x ++ y, s2))).
Proof.
  revert s. induction a as [|a IH]; intros s; cbn [unserialize_n Nat.add].
  - cbn. by destruct (unserialize_n c b s) as [[l s']|e].
  - destruct (Unserialize c s) as [[x s1]|e]; [|done]. cbn [bindR]. rewrite IH.
    destruct (unserialize_n c a s1) as [[l s2]|e]; [|done]. cbn [bindR].
    by destruct (unserialize_n c b s2) as [[l' s3]|e].
Qed.

Lemma read_chunks_spec c chunk (fuel : nat) nSize i v s :
  0 < chunk -> 0 <= i <= nSize -> nSize - i <= fuel ->
  read_chunks c chunk fuel nSize i v s
  = bindR (unserialize_n c (Z.to_nat (nSize - i)) s) (fun '(l, s) => Ok (v ++ l, s)).
Proof.
  intros Hc. revert i v s. induction fuel as [|fuel IH]; intros i v s Hi Hf; cbn [read_chunks].
  - replace (nSize - i) with 0 by lia. change (Z.to_nat 0) with 0%nat. cbn [unserialize_n]. step_bind. by rewrite app_nil_r.
  - destruct (Z.ltb_spec i nSize) as [Hlt|Hge].
    + set (nMid := Z.min (i + chunk) nSize). assert (i < nMid <= nSize) as HnMid by lia.
      replace (Z.to_nat (nSize - i)) with (Z.to_nat (nMid - i) + Z.to_nat (nSize - nMid))%nat by lia.
      rewrite unserialize_n_split. destruct (unserialize_n c (Z.to_nat (nMid - i)) s) as [[l s1]|e]; [|done].
      cbn [bindR]. rewrite IH by lia. destruct (unserialize_n c _ s1) as [[l' s2]|e]; [|done].
      cbn. by rewrite app_assoc.
    + replace (nSize - i) with 0 by lia. change (Z.to_nat 0) with 0%nat. cbn [unserialize_n]. step_bind. by rewrite app_nil_r.
Qed.

Lemma vector_read c chunk nSize s :
  0 < chunk -> 0 <= nSize ->
  read_chunks c chunk (Z.to_nat nSize) nSize 0 [] s = unserialize_n c (Z.to_nat nSize) s.
Proof.
  intros. rewrite read_chunks_spec by lia. rewrite Z.sub_0_r.
  by destruct (unserialize_n c (Z.to_nat nSize) s) as [[b s']|e].
Qed.

Lemma serialize_all_rt c ok l :
  roundtrips c ok -> Forall ok l ->
  exists b, serialize_all c l = Ok b /\ bytes_ok b
  /\ forall s, unserialize_n c (length l) (b ++ s) = Ok (l, s).
Proof.
  intros Hc. induction 1 as [|x l Hx Hl (b & Hb & Hok & Hu)]; [by exists []|].
  destruct (Hc x Hx) as (bx & Hbx & Hokx & Hux). exists (bx ++ b). cbn [serialize_all unserialize_n length].
  rewrite Hbx. cbn [bindR]. rewrite Hb. cbn [bindR]. split_and!; [done|auto with ser|].
  intros s. rewrite <- app_assoc, Hux. cbn [bindR]. rewrite Hu. done.
Qed.

Lemma unserialize_n_canonical c ok n s l s' :
  canonical c ok -> bytes_ok s -> unserialize_n c n s = Ok (l, s') ->
  length l = n /\ Forall ok l /\ exists b, serialize_all c l = Ok b /\ s = b ++ s'.
Proof.
  intros Hc. revert s l. induction n as [|n IH]; intros s l Hs H; cbn [unserialize_n] in H.
  - injection H as <- <-. split_and!; [done|constructor|]. by exists [].
  - bind_inv H. bind_inv H. injection H as <- <-.
    apply Hc in E as (Hx & b & Hb & ->); [|done]. apply Forall_app in Hs as [_ Hs].
    apply IH in E0 as (Hl & Hok & b' & Hb' & ->); [|done].
    split_and!; [cbn; lia|by constructor|]. exists (b ++ b'). cbn [serialize_all].
    rewrite Hb. cbn [bindR]. rewrite Hb'. by rewrite <- app_assoc.
Qed.

#[export] Instance vector_lawful chunk c ok `{!Lawful c ok} :
  0 < chunk -> Lawful (vector_codec chunk c) (fun v => size_ok v /\ Forall ok v).
Proof.
  intros Hchunk. split.
  - intros v [Hsz Hv]. destruct (serialize_all_rt c ok v lawful_rt Hv) as (b & Hb & Hok & Hu).
    exists (WriteCompactSize (length v) ++ b). cbn [Serialize Unserialize vector_codec]. rewrite Hb.
    split_and!; [done|auto with ser|]. intros s.
    rewrite <- app_assoc, ReadCompactSize_app by (unfold size_ok in *; lia).
    cbn [bindR]. rewrite vector_read, Nat2Z.id by lia. apply Hu.
  - intros s v s' Hs H. cbn [Unserialize vector_codec] in H. bind_inv H.
    apply ReadCompactSize_inv in E as [Hn ->]; [|done]. apply Forall_app in Hs as [_ Hs].
    rewrite vector_read in H by lia.
    apply (unserialize_n_canonical c ok) in H as (Hl & Hok & b & Hb & ->); [|apply lawful_canonical|done].
    split; [split; [unfold size_ok; lia|done]|]. eexists; cbn [Serialize vector_codec]. rewrite Hb; split; [done|].
    rewrite Hl, Z2Nat.id, <- app_assoc by lia. done.
Qed.

#[export] Instance array_lawful n c ok `{!Lawful c ok} :
  Lawful (array_codec n c) (fun v => length v = n /\ Forall ok v).
Proof.
  split.
  - intros v [<- Hv]. destruct (serialize_all_rt c ok v lawful_rt Hv) as (b & Hb & Hok & Hu). eauto.
  - intros s v s' Hs H.
    apply (unserialize_n_canonical c ok) in H as (Hl & Hok & b & Hb & ->); [|apply lawful_canonical|done]. eauto.
Qed.

#[export] Instance optional_lawful c ok `{!Lawful c ok} :
  Lawful (optional_codec c) (fun o => match o with Some a => ok a | None => True end).
Proof.
  split.
  - intros [a|] Ha; cbn [Serialize Unserialize optional_codec].
    + destruct (lawful_rt a Ha) as (b & Hb & Hok & Hu). rewrite Hb. eexists; split_and!; [done|auto with ser|].
      intros s. rewrite <- app_assoc, readdata8_spec by (by split). step_bind.
      change (1 =? 0) with false. change (1 =? 1) with true. cbv iota. by rewrite Hu.
    + eexists; split_and!; [done|auto with ser|]. intros s. rewrite readdata8_spec by (by split). done.
  - intros s o s' Hs H. cbn [Unserialize optional_codec] in H. bind_inv H.
    apply readdata8_inv in E as [Hx ->]; [|done]. apply Forall_app in Hs as [_ Hs].
    destruct (Z.eqb_spec x 0) as [->|].
    + injection H as <- <-. split; [done|]. eexists; split; done.
    + destruct (Z.eqb_spec x 1) as [->|]; [|done]. bind_inv H. injection H as <- <-.
      apply lawful_canonical in E as (Ha & b & Hb & ->); [|done]. split; [done|].
      cbn [Serialize optional_codec]. rewrite Hb. eexists; split; [done|]. by rewrite <- app_assoc.
Qed.

#[export] Instance seq_lawful c ok (k : A -> codec B) (ok' : A -> B -> Prop)
  (Hc : Lawful c ok) (Hk : forall a, Lawful (k a) (ok' a)) :
  Lawful (seq_codec c k) (fun '(a, b) => ok a /\ ok' a b).
Proof.
  split.
  - intros [a b] [Ha Hb]. destruct (lawful_rt a Ha) as (x & Hx & Hokx & Hux).
    destruct (lawful_rt (c := k a) b Hb) as (y & Hy & Hoky & Huy).
    exists (x ++ y). cbn [Serialize Unserialize seq_codec]. rewrite Hx. cbn [bindR]. rewrite Hy.
    split_and!; [done|auto with ser|]. intros s. rewrite <- app_assoc, Hux. cbn [bindR]. by rewrite Huy.
  - intros s [a b] s' Hs H. cbn [Unserialize seq_codec] in H. bind_inv H. bind_inv H. injection H as -> -> ->.
    apply lawful_canonical in E as (Ha & x & Hx & ->); [|done]. apply Forall_app in Hs as [_ Hs].
    apply lawful_canonical in E0 as (Hb & y & Hy & ->); [|done]. split; [done|].
    exists (x ++ y). cbn [Serialize seq_codec]. rewrite Hx. cbn [bindR]. rewrite Hy. by rewrite <- app_assoc.
Qed.

#[export] Instance cond_lawful (cond : bool) (d : A) c ok `{!Lawful c ok} :
  Lawful (cond_codec cond d c) (fun a => if cond then ok a else a = d).
Proof.
  destruct cond; split.
  - intros a Ha. exact (lawful_rt (c := c) a Ha).
  - intros s a s' Hs H. exact (lawful_canonical (c := c) s a s' Hs H).
  - intros a ->. exists []. split_and!; [done|constructor|]. done.
  - intros s a s' Hs [= <- <-]. split; [done|]. exists []. done.
Qed.

#[export] Instance guard_lawful (cond : bool) e :
  Lawful (guard_codec cond e) (fun _ => cond = true).
Proof.
  split.
  - intros [] Hc. exists []. cbn. subst cond. split_and!; [done|constructor|done].
  - intros s [] s' Hs H. cbn in H. destruct cond; [|done]. injection H as <-. split; [done|]. exists []. done.
Qed.

Lemma struct_lawful c ok (fields : B -> A) (make : A -> B) (ok' : B -> Prop) :
  Lawful c ok -> (forall x, ok' x -> ok (fields x) /\ make (fields x) = x) ->
  (forall a, ok a -> ok' (make a) /\ fields (make a) = a) ->
  Lawful (struct_codec c fields make) ok'.
Proof.
  intros Hc H1 H2. split.
  - intros x Hx. destruct (H1 x Hx) as [Hok Hmk]. destruct (lawful_rt _ Hok) as (b & Hb & Hokb & Hu).
    exists b. split_and!; [done|done|]. intros s. cbn [Unserialize struct_codec]. rewrite Hu. cbn. by rewrite Hmk.
  - intros s x s' Hs H. cbn [Unserialize struct_codec] in H. bind_inv H. injection H as <- <-.
    apply lawful_canonical in E as (Ha & b & Hb & ->); [|done]. destruct (H2 _ Ha) as [Hx Hf].
    split; [done|]. exists b. cbn [Serialize struct_codec]. rewrite Hf. done.
Qed.
End combinator_laws.

#[export] Instance limited_string_lawful (Limit : Z) :
  Lawful (limited_string_codec Limit) (fun v => size_ok v /\ Z.of_nat (length v) <= Limit /\ bytes_ok v).
Proof.
  split.
  - intros v (Hsz & Hlim & Hv). eexists; split_and!; [done|auto with ser|]. intros s.
    cbn [Unserialize limited_string_codec]. rewrite <- app_assoc, ReadCompactSize_app by (unfold size_ok in *; lia).
    cbn [bindR]. destruct (Z.ltb_spec Limit (length v)); [lia|]. cbn [negb]. rewrite Nat2Z.id. by apply read_app.
  - intros s v s' Hs H. cbn [Unserialize limited_string_codec] in H. bind_inv H.
    apply ReadCompactSize_inv in E as [Hn ->]; [|done]. apply Forall_app in Hs as [_ Hs].
    destruct (Z.ltb_spec Limit x); cbn [negb] in H; [done|].
    apply read_Ok in H as [-> Hl]. apply Forall_app in Hs as [Hv _].
    split; [split_and!; [unfold size_ok; lia|lia|done]|]. eexists; split; [done|].
    rewrite Hl, Z2Nat.id, <- app_assoc by lia. done.
Qed.

(** ** Properties *)

(** The compact size prefix is a canonical code.  Up to [MAX_SIZE] what
    [WriteCompactSize] wrote is read back with the rest of the stream
    untouched and takes [GetSizeOfCompactSize] bytes; conversely a prefix
    that [ReadCompactSize] accepts is the one [WriteCompactSize] produces for
    the value returned, so no size has a second encoding. *)
Theorem compact_size_canonical n s s' :
  bytes_ok s ->
  (0 <= n <= MAX_SIZE ->
     ReadCompactSize (WriteCompactSize n ++ s) = Ok (n, s)
     /\ Z.of_nat (length (WriteCompactSize n)) = GetSizeOfCompactSize n)
  /\ (ReadCompactSize s = Ok (n, s') -> 0 <= n <= MAX_SIZE /\ s = WriteCompactSize n ++ s').
Proof.
  intros Hs. split; [intros Hn; split|].
  - by apply ReadCompactSize_app.
  - unfold WriteCompactSize, GetSizeOfCompactSize. repeat case_match; by rewrite ?length_app.
  - by apply ReadCompactSize_inv.
Qed.

Lemma compact_size_canonical_witness :
  ReadCompactSize (WriteCompactSize 70000 ++ [7]) = Ok (70000, [7]).
Proof.
  apply (compact_size_canonical 70000 [7] []).
  - by repeat constructor.
  - unfold MAX_SIZE. lia.
Defined.

(** On every unsigned type of at least 7 bits [WriteVarInt] stays inside
    its [tmp] buffer, writes [GetSizeOfVarInt] bytes, and [ReadVarInt] on the
    same type gives the number back and leaves the rest of the stream. *)
Theorem varint_roundtrip w n s :
  7 <= w -> 0 <= n < 2 ^ w ->
  exists b, WriteVarInt w n = Some b /\ bytes_ok b
  /\ Z.of_nat (length b) = GetSizeOfVarInt w n
  /\ ReadVarInt w (b ++ s) = Ok (n, s).
Proof.
  intros Hw Hn. unfold WriteVarInt, GetSizeOfVarInt, ReadVarInt.
  assert (1 <= (w + 6) / 7) as Hroom by (apply Z.div_le_lower_bound; lia).
  assert (w <= 7 * ((w + 6) / 7)) as Hbig.
  { pose proof (Z.div_mod (w + 6) 7 ltac:(lia)). pose proof (Z.mod_pos_bound (w + 6) 7 ltac:(lia)). lia. }
  destruct (Z.to_nat ((w + 6) / 7)) as [|room] eqn:E; [lia|].
  destruct (varint_tmp_total room true n) as (tmp & Htmp & Hlen).
  { split; [lia|]. apply (Z.lt_le_trans _ (2 ^ w)); [lia|]. apply Z.pow_le_mono_r; lia. }
  rewrite Htmp. exists (rev tmp). split_and!; [done| |by rewrite length_rev|].
  - apply Forall_rev. by eapply varint_tmp_bytes.
  - by apply (read_varint_tmp w (S room) true).
Qed.

Lemma varint_roundtrip_witness :
  exists b, WriteVarInt 32 1000000 = Some b /\ bytes_ok b
  /\ Z.of_nat (length b) = GetSizeOfVarInt 32 1000000
  /\ ReadVarInt 32 (b ++ [1]) = Ok (1000000, [1]).
Proof. apply (varint_roundtrip 32 1000000 [1]); lia. Defined.

(** A vector decodes to what was encoded and only from its encoding,
    whenever its elements do.  Reading in chunks, with the buffer resized
    before each, never changes the result, and a byte vector read in blocks
    of 5,000,000 bytes is the byte vector that was written. *)
Theorem vector_codec_lawful {A} (chunk : Z) (c : codec A) (ok : A -> Prop) :
  0 < chunk -> Lawful c ok ->
  Lawful (vector_codec chunk c) (fun v => size_ok v /\ Forall ok v)
  /\ Lawful bytes_vec_codec (fun v => size_ok v /\ bytes_ok v)
  /\ (forall n s, 0 <= n -> read_chunks c chunk (Z.to_nat n) n 0 [] s = unserialize_n c (Z.to_nat n) s).
Proof.
  intros Hc HL. split_and!.
  - by apply vector_lawful.
  - apply bytes_vec_lawful.
  - intros n s Hn. by apply vector_read.
Qed.

Lemma vector_codec_lawful_witness :
  Lawful (vector_codec 2 u16_codec) (fun v => size_ok v /\ Forall (uint 16) v).
Proof. apply (vector_codec_lawful 2 u16_codec (uint 16)); [lia|apply _]. Defined.

(** Decoding a variable-length integer wraps at the width of the type, so
    some numbers have a second, longer encoding. *)
Lemma ReadVarInt_wraps :
  ReadVarInt 32 [0x8E; 0xFE; 0xFE; 0xFF; 0x00] = Ok (0, []) /\ ReadVarInt 32 [0x00] = Ok (0, []).
Proof. by vm_compute. Qed.
