(* ===== verification/Digest.v ===== *)
(** * Buffered digests (src/crypto/sha256.cpp, sha512.cpp, sha1.cpp, ripemd160.cpp)

    The four hasher classes of the program share one shape: a chaining state
    [s], a block buffer [buf] and a byte counter [bytes], with [Write],
    [Finalize] and [Reset] that differ only in the block size, the size
    descriptor and the compression function. [Digest] is that interface; its
    instances are in Sha.v and Ripemd.v. The reference is the Merkle-Damgard
    construction applied at once to the padded message ([digest]), and the
    refinement is that any sequence of [Write]s followed by [Finalize]
    computes it, whatever the uninitialised buffer held. *)

From S2P Require Import Prelude.
Local Open Scope Z_scope.
Local Open Scope code_scope.

(** ** Definitions *)

Class Digest := {
  word_state : Type;
  BLOCK : nat;                              (* 64 or 128 bytes *)
  PAD : Z;                                  (* 119 or 239, in [Finalize] *)
  SIZEDESC : nat;                           (* bytes of the size descriptor *)
  Initialize : word_state;
  Transform : word_state -> bytes -> word_state;
  write_sizedesc : Z -> bytes;
  write_hash : word_state -> bytes
}.

(** What [Finalize] relies on: the counter wraps at a multiple of the block,
    and pad and size descriptor fill blocks exactly. *)
Class DigestLaws (D : Digest) := {
  BLOCK_pos : (0 < BLOCK)%nat;
  BLOCK_divides : (Z.of_nat BLOCK | 2 ^ 64);
  PAD_spec : PAD = 2 * BLOCK - 1 - SIZEDESC;
  SIZEDESC_spec : (SIZEDESC < BLOCK)%nat;
  write_sizedesc_length n : length (write_sizedesc n) = SIZEDESC
}.

Section digest.
Context {D : Digest}.

Record hasher := Hasher {
  s : word_state;
  buf : bytes;
  bytes_ : Z
}.

(** [memcpy(buf + off, src, n)]. *)
Definition memcpy (dst : bytes) (off : nat) (src : bytes) : bytes :=
  take off dst ++ src ++ drop (off + length src) dst.

(** The constructor leaves [buf] uninitialised. *)
Definition New (buf0 : bytes) : hasher := Hasher Initialize buf0 0.

Definition Reset (h : hasher) : hasher := Hasher Initialize (buf h) 0.

(** [while (end >= data + BLOCK)]; each pass consumes a block. *)
Fixpoint write_chunks (fuel : nat) (h : hasher) (data : bytes) : hasher * bytes :=
  match fuel with
  | O => (h, data)
  | S fuel' =>
      if (BLOCK <=? length data)%nat then
        write_chunks fuel'
          (Hasher (Transform (s h) (take BLOCK data)) (buf h) (wrap 64 (bytes_ h + BLOCK)))
          (drop BLOCK data)
      else (h, data)
  end.

Definition Write (h : hasher) (data : bytes) : hasher :=
  let bufsize := Z.to_nat (bytes_ h mod BLOCK) in
  let '(h, data, bufsize) :=
    if negb (bufsize =? 0)%nat && (BLOCK <=? bufsize + length data)%nat then
      let buf' := memcpy (buf h) bufsize (take (BLOCK - bufsize) data) in
      (Hasher (Transform (s h) buf') buf' (wrap 64 (bytes_ h + (BLOCK - bufsize)%nat)),
       drop (BLOCK - bufsize) data, 0%nat)
    else (h, data, bufsize) in
  let '(h, data) := write_chunks (length data) h data in
  if (0 <? length data)%nat then
    Hasher (s h) (memcpy (buf h) bufsize data) (wrap 64 (bytes_ h + length data))
  else h.

(** [static const unsigned char pad[BLOCK] = {0x80};] *)
Definition pad : bytes := 0x80 :: replicate (BLOCK - 1) 0.

(** What [Finalize] does to the hasher, and the hash it writes out. *)
Definition finalized (h : hasher) : hasher :=
  let sizedesc := write_sizedesc (wrap 64 (Z.shiftl (bytes_ h) 3)) in
  let h := Write h (take (Z.to_nat (1 + (PAD - bytes_ h mod BLOCK) mod BLOCK)) pad) in
  Write h sizedesc.
Definition Finalize (h : hasher) : bytes := write_hash (s (finalized h)).

(** *** Reference *)

Fixpoint blocks (k : nat) (msg : bytes) : list bytes :=
  match k with
  | O => []
  | S k => take BLOCK msg :: blocks k (drop BLOCK msg)
  end.

(** The chaining state after all whole blocks of [msg], and what is left. *)
Definition chain_state (msg : bytes) : word_state :=
  fold_left Transform (blocks (length msg / BLOCK) msg) Initialize.
Definition tail_of (msg : bytes) : bytes := drop (BLOCK * (length msg / BLOCK)) msg.

Definition padded (msg : bytes) : bytes :=
  msg ++ 0x80 :: replicate (Z.to_nat ((PAD - length msg) mod BLOCK)) 0
      ++ write_sizedesc (wrap 64 (8 * length msg)).

Definition digest (msg : bytes) : bytes := write_hash (chain_state (padded msg)).

(** [h] has absorbed the message [msg]. *)
Definition absorbed (h : hasher) (msg : bytes) : Prop :=
  bytes_ h = wrap 64 (length msg) /\ s h = chain_state msg
  /\ length (buf h) = BLOCK /\ take (length (tail_of msg)) (buf h) = tail_of msg.
End digest.
Arguments hasher : clear implicits.
Arguments hasher _ : assert.

(** ** Refinement *)

Section digest_laws.
Context {D : Digest} {L : DigestLaws D}.

Lemma length_tail msg : length (tail_of msg) = (length msg mod BLOCK)%nat.
Proof.
  pose proof BLOCK_pos. unfold tail_of. rewrite length_drop.
  pose proof (Nat.div_mod (length msg) BLOCK ltac:(lia)). lia.
Qed.

Lemma tail_lt msg : (length (tail_of msg) < BLOCK)%nat.
Proof. rewrite length_tail. apply Nat.mod_upper_bound. pose proof BLOCK_pos. lia. Qed.

Lemma blocks_app k a b : length a = (k * BLOCK)%nat -> forall j, blocks (k + j) (a ++ b) = blocks k a ++ blocks j b.
Proof.
  revert a. induction k as [|k IH]; intros a Ha j.
  - by destruct a.
  - cbn [blocks Nat.add app]. rewrite take_app_le, drop_app_le by lia. f_equal. apply IH.
    rewrite length_drop. lia.
Qed.

(** A message is its whole blocks followed by its tail. *)
Lemma split_tail msg :
  exists full, msg = full ++ tail_of msg /\ length full = (length msg / BLOCK * BLOCK)%nat
  /\ chain_state msg = fold_left Transform (blocks (length msg / BLOCK) full) Initialize.
Proof.
  exists (take (BLOCK * (length msg / BLOCK)) msg).
  pose proof (Nat.div_mod (length msg) BLOCK ltac:(pose proof BLOCK_pos; lia)).
  assert (length (take (BLOCK * (length msg / BLOCK)) msg) = (length msg / BLOCK * BLOCK)%nat) as Hl
    by (rewrite length_take; lia).
  split_and!; [symmetry; apply take_drop|done|].
  unfold chain_state. rewrite <- (take_drop (BLOCK * (length msg / BLOCK)) msg) at 2.
  rewrite <- (Nat.add_0_r (length msg / BLOCK)) at 1. rewrite blocks_app by done. by rewrite app_nil_r.
Qed.

(** Data that completes a block, and data that does not. *)
Lemma absorb_block msg d :
  (length (tail_of msg) + length d = BLOCK)%nat ->
  chain_state (msg ++ d) = Transform (chain_state msg) (tail_of msg ++ d) /\ tail_of (msg ++ d) = [].
Proof.
  intros Hd. pose proof BLOCK_pos as HB. destruct (split_tail msg) as (full & Hmsg & Hfull & Hst).
  assert (length (msg ++ d) / BLOCK = length msg / BLOCK + 1)%nat as Hq.
  { rewrite Hmsg at 1. rewrite !length_app, Hfull, <- Nat.add_assoc, Hd.
    rewrite Nat.div_add_l, Nat.div_same by lia. done. }
  split.
  - rewrite Hst. unfold chain_state. rewrite Hq. rewrite Hmsg at 2. rewrite <- app_assoc, blocks_app by done.
    rewrite fold_left_app. cbn [blocks fold_left]. f_equal. rewrite take_ge by (rewrite length_app; lia). done.
  - apply nil_length_inv. rewrite length_tail. rewrite Hmsg, !length_app, Hfull, <- Nat.add_assoc, Hd.
    rewrite Nat.add_comm, Nat.Div0.mod_add. apply Nat.Div0.mod_same.
Qed.

Lemma absorb_less msg d :
  (length (tail_of msg) + length d < BLOCK)%nat ->
  chain_state (msg ++ d) = chain_state msg /\ tail_of (msg ++ d) = tail_of msg ++ d.
Proof.
  intros Hd. pose proof BLOCK_pos as HB. destruct (split_tail msg) as (full & Hmsg & Hfull & Hst).
  assert (length (msg ++ d) / BLOCK = length msg / BLOCK)%nat as Hq.
  { rewrite Hmsg at 1. rewrite !length_app, Hfull, <- Nat.add_assoc, Nat.div_add_l by lia.
    rewrite (Nat.div_small (_ + _)) by lia. lia. }
  split.
  - rewrite Hst. unfold chain_state. rewrite Hq. rewrite Hmsg at 2.
    rewrite <- app_assoc, <- (Nat.add_0_r (length msg / BLOCK)) at 1. rewrite blocks_app by done. by rewrite app_nil_r.
  - unfold tail_of at 1. rewrite Hq. rewrite Hmsg at 2. rewrite <- app_assoc, Nat.mul_comm, <- Hfull.
    by rewrite drop_app_length.
Qed.
End digest_laws.

Section digest_refinement.
Context {D : Digest} {L : DigestLaws D}.
Implicit Types (h : hasher D) (msg data d : bytes).

Lemma wrap64_mod n : (wrap 64 n) mod BLOCK = n mod BLOCK.
Proof.
  pose proof BLOCK_pos. unfold wrap. apply Z.mod_mod_divide, BLOCK_divides.
Qed.

Lemma wrap64_add_l a b : wrap 64 (wrap 64 a + b) = wrap 64 (a + b).
Proof. unfold wrap. by rewrite Zplus_mod_idemp_l. Qed.

Lemma absorbed_bufsize h msg :
  absorbed h msg -> Z.to_nat (bytes_ h mod BLOCK) = length (tail_of msg).
Proof.
  intros (Hb & _). rewrite Hb, wrap64_mod, length_tail. pose proof BLOCK_pos.
  rewrite <- Nat2Z.inj_mod, Nat2Z.id by lia. done.
Qed.

(** One pass of the main loop, the buffer being empty. *)
Lemma absorbed_chunk h msg d :
  absorbed h msg -> tail_of msg = [] -> length d = BLOCK ->
  absorbed (Hasher (Transform (s h) d) (buf h) (wrap 64 (bytes_ h + BLOCK))) (msg ++ d)
  /\ tail_of (msg ++ d) = [].
Proof.
  intros (Hb & Hs & Hl & Ht) Htail Hd.
  destruct (absorb_block msg d) as [Hst Htl]; [by rewrite Htail|]. rewrite Htail in Hst.
  split; [|done]. unfold absorbed. rewrite Htl, Hst. cbn [bytes_ s buf]. split_and!; [|by f_equal|done|done].
  rewrite Hb, wrap64_add_l, length_app, Hd. f_equal. lia.
Qed.

Lemma write_chunks_spec fuel h msg data :
  absorbed h msg -> tail_of msg = [] -> (length data <= fuel)%nat ->
  let '(h', rest) := write_chunks fuel h data in
  exists d, data = d ++ rest /\ absorbed h' (msg ++ d) /\ tail_of (msg ++ d) = []
  /\ (length rest < BLOCK)%nat.
Proof.
  pose proof BLOCK_pos as HB. revert h msg data. induction fuel as [|fuel IH]; intros h msg data Hh Ht Hf; cbn [write_chunks].
  - exists []. rewrite app_nil_r. split_and!; [done..|lia].
  - destruct (Nat.leb_spec BLOCK (length data)) as [Hle|Hlt].
    + destruct (absorbed_chunk h msg (take BLOCK data)) as [Hh' Ht']; [done|done|rewrite length_take; lia|].
      specialize (IH _ _ (drop BLOCK data) Hh' Ht' ltac:(rewrite length_drop; lia)).
      destruct (write_chunks fuel _ _) as [h' rest]. destruct IH as (d & Hd & Hab & Htl & Hr).
      exists (take BLOCK data ++ d). rewrite app_assoc, <- (app_assoc (take _ _)), <- Hd, take_drop. done.
    + exists []. rewrite app_nil_r. done.
Qed.

(** Filling the buffer with data that does not complete a block. *)
Lemma absorbed_rest h msg d :
  absorbed h msg -> (length (tail_of msg) + length d < BLOCK)%nat ->
  absorbed (Hasher (s h) (memcpy (buf h) (length (tail_of msg)) d) (wrap 64 (bytes_ h + length d))) (msg ++ d).
Proof.
  intros (Hb & Hs & Hl & Ht) Hd. destruct (absorb_less msg d Hd) as [Hst Htl].
  unfold absorbed. rewrite Htl, Hst. cbn [bytes_ s buf]. split_and!; [|done| |].
  - rewrite Hb, wrap64_add_l, length_app. f_equal. lia.
  - unfold memcpy. rewrite !length_app, length_take, length_drop. lia.
  - unfold memcpy. rewrite Ht, app_assoc. by rewrite take_app_length.
Qed.

(** Filling the buffer up to a block and compressing it. *)
Lemma absorbed_fill h msg d :
  absorbed h msg -> (length (tail_of msg) + length d = BLOCK)%nat ->
  let buf' := memcpy (buf h) (length (tail_of msg)) d in
  absorbed (Hasher (Transform (s h) buf') buf' (wrap 64 (bytes_ h + length d))) (msg ++ d)
  /\ tail_of (msg ++ d) = [].
Proof.
  intros (Hb & Hs & Hl & Ht) Hd buf'. destruct (absorb_block msg d Hd) as [Hst Htl].
  assert (buf' = tail_of msg ++ d) as ->.
  { unfold buf', memcpy. rewrite Ht, drop_ge by lia. by rewrite app_nil_r. }
  split; [|done]. unfold absorbed. rewrite Htl, Hst. cbn [bytes_ s buf]. split_and!.
  - rewrite Hb, wrap64_add_l, length_app. f_equal. lia.
  - by rewrite Hs.
  - by rewrite length_app.
  - done.
Qed.

Lemma absorbed_tail_rest h msg d :
  absorbed h msg -> (length (tail_of msg) + length d < BLOCK)%nat ->
  absorbed (if (0 <? length d)%nat
            then Hasher (s h) (memcpy (buf h) (length (tail_of msg)) d) (wrap 64 (bytes_ h + length d))
            else h) (msg ++ d).
Proof.
  intros Hh Hd. destruct (Nat.ltb_spec 0 (length d)).
  - by apply absorbed_rest.
  - destruct d; [by rewrite app_nil_r|cbn in *; lia].
Qed.

Lemma Write_absorbed h msg data : absorbed h msg -> absorbed (Write h data) (msg ++ data).
Proof.
  intros Hh. pose proof (tail_lt msg) as Hlt. unfold Write. rewrite (absorbed_bufsize h msg Hh).
  set (r := length (tail_of msg)) in *.
  assert (forall h' m' rest, absorbed h' m' -> tail_of m' = [] ->
    absorbed (let '(h1, d1) := write_chunks (length rest) h' rest in
              if (0 <? length d1)%nat
              then Hasher (s h1) (memcpy (buf h1) 0 d1) (wrap 64 (bytes_ h1 + length d1)) else h1) (m' ++ rest)) as Hmain.
  { intros h' m' rest Hh' Ht'. pose proof (write_chunks_spec (length rest) h' m' rest Hh' Ht' ltac:(lia)) as H.
    destruct (write_chunks _ h' rest) as [h1 d1]. destruct H as (d & -> & Hab & Htl & Hr).
    rewrite app_assoc. pose proof (absorbed_tail_rest h1 (m' ++ d) d1 Hab) as H. rewrite Htl in H. by apply H. }
  destruct (Nat.eqb_spec r 0) as [Hr|Hr]; cbn [negb andb].
  - rewrite Hr. apply Hmain; [done|]. by apply nil_length_inv.
  - destruct (Nat.leb_spec BLOCK (r + length data)) as [Hle|Hgt].
    + destruct (absorbed_fill h msg (take (BLOCK - r) data) Hh) as [Hh' Ht']; [rewrite length_take; lia|].
      rewrite length_take, Nat.min_l in Hh' by lia. fold r in Hh'.
      rewrite <- (take_drop (BLOCK - r) data) at 5. rewrite app_assoc. by apply Hmain.
    + replace (write_chunks (length data) h data) with (h, data).
      * by apply absorbed_tail_rest.
      * destruct data; [done|]. cbn [write_chunks length]. destruct (Nat.leb_spec BLOCK (S (length data))); [|done].
        cbn [length] in *. lia.
Qed.

Lemma New_absorbed buf0 : length buf0 = BLOCK -> absorbed (New buf0) [].
Proof.
  intros Hb. pose proof BLOCK_pos. unfold absorbed, chain_state, tail_of, New. cbn [length bytes_ s buf].
  rewrite Nat.Div0.div_0_l. cbn. rewrite Nat.mul_0_r. done.
Qed.

Lemma Reset_absorbed h msg : absorbed h msg -> absorbed (Reset h) [].
Proof. intros (_ & _ & Hl & _). by apply (New_absorbed (buf h)). Qed.

Lemma writes_absorbed chunks h msg :
  absorbed h msg -> absorbed (fold_left Write chunks h) (msg ++ concat chunks).
Proof.
  revert h msg. induction chunks as [|c chunks IH]; intros h msg Hh; cbn [fold_left concat].
  - by rewrite app_nil_r.
  - rewrite app_assoc. apply IH. by apply Write_absorbed.
Qed.

Lemma finalized_absorbed h msg : absorbed h msg -> absorbed (finalized h) (padded msg).
Proof.
  intros Hh. pose proof BLOCK_pos as HB. unfold finalized, padded.
  assert (take (Z.to_nat (1 + (PAD - bytes_ h mod BLOCK) mod BLOCK)) pad
          = 0x80 :: replicate (Z.to_nat ((PAD - length msg) mod BLOCK)) 0) as ->.
  { destruct Hh as (-> & _). rewrite wrap64_mod, Zminus_mod_idemp_r.
    pose proof (Z.mod_pos_bound (PAD - length msg) _ (inj_lt _ _ HB)).
    rewrite Z2Nat.inj_add by lia. unfold pad. change (Z.to_nat 1) with 1%nat. cbn [Nat.add take].
    rewrite take_replicate. repeat f_equal. lia. }
  assert (write_sizedesc (wrap 64 (Z.shiftl (bytes_ h) 3)) = write_sizedesc (wrap 64 (8 * length msg))) as ->.
  { destruct Hh as (-> & _). rewrite Z.shiftl_mul_pow2 by lia. unfold wrap. f_equal.
    rewrite Zmult_mod_idemp_l. f_equal. lia. }
  pose proof (Write_absorbed _ _ (write_sizedesc (wrap 64 (8 * length msg))) (Write_absorbed _ _
    (0x80 :: replicate (Z.to_nat ((PAD - length msg) mod BLOCK)) 0) Hh)) as H.
  by rewrite <- app_assoc in H.
Qed.

Lemma Finalize_digest h msg : absorbed h msg -> Finalize h = digest msg.
Proof. intros Hh. unfold Finalize, digest. by apply finalized_absorbed in Hh as (_ & -> & _). Qed.

(** The padded message is a whole number of blocks, so every byte of it is
    compressed. *)
Lemma padded_blocks msg : tail_of (padded msg) = [].
Proof.
  pose proof BLOCK_pos as HB. apply nil_length_inv. rewrite length_tail.
  apply Nat2Z.inj. rewrite Nat2Z.inj_mod. unfold padded.
  rewrite length_app. cbn [length]. rewrite length_app, length_replicate, write_sizedesc_length, PAD_spec.
  pose proof (Z.mod_pos_bound (2 * BLOCK - 1 - SIZEDESC - length msg) _ (inj_lt _ _ HB)).
  rewrite Nat2Z.inj_add, Nat2Z.inj_succ, Nat2Z.inj_add, Z2Nat.id by lia.
  assert (Z.of_nat BLOCK <> 0) as HB0 by lia. pose proof (Z.div_mod (2 * BLOCK - 1 - SIZEDESC - length msg) _ HB0) as Hdm.
  set (m := (2 * BLOCK - 1 - SIZEDESC - length msg) mod BLOCK) in *.
  replace (length msg + Z.succ (m + SIZEDESC))
    with (0 + (2 - (2 * BLOCK - 1 - SIZEDESC - length msg) / BLOCK) * BLOCK) by lia.
  rewrite Z.mod_add by lia. apply Z.mod_0_l. lia.
Qed.

Lemma stream_digest buf0 chunks :
  length buf0 = BLOCK -> Finalize (fold_left Write chunks (New buf0)) = digest (concat chunks).
Proof. intros Hb. apply Finalize_digest. by apply (writes_absorbed chunks _ []), New_absorbed. Qed.
End digest_refinement.
