(* ===== verification/Sha.v ===== *)
(** * SHA-2 and SHA-1 (src/crypto/sha256.cpp, sha512.cpp, sha1.cpp)

    The compression functions as the program unrolls them, each an instance
    of the buffered digest of Digest.v. The reference for SHA-256 and SHA-512
    is the loop of FIPS 180-4: the message schedule as a recurrence on a
    window of 16 words, the working variables shifted by one place in every
    round, and the constants computed as the fractional parts of the square
    and cube roots of the first primes. *)

From S2P Require Import Prelude Digest.
Local Open Scope Z_scope.
Local Open Scope code_scope.

(** ** Definitions *)

Definition words8 : Type := Z * Z * Z * Z * Z * Z * Z * Z.
Definition words5 : Type := Z * Z * Z * Z * Z.

(** *** SHA-256 *)

Definition sha256_Ch (x y z : Z) : Z := Z.lxor z (Z.land x (Z.lxor y z)).
Definition sha256_Maj (x y z : Z) : Z := Z.lor (Z.land x y) (Z.land z (Z.lor x y)).
Definition sha256_Sigma0 (x : Z) : Z :=
  Z.lxor (Z.lxor (Z.lor (Z.shiftr x 2) (wrap 32 (Z.shiftl x 30))) (Z.lor (Z.shiftr x 13) (wrap 32 (Z.shiftl x 19)))) (Z.lor (Z.shiftr x 22) (wrap 32 (Z.shiftl x 10))).
Definition sha256_Sigma1 (x : Z) : Z :=
  Z.lxor (Z.lxor (Z.lor (Z.shiftr x 6) (wrap 32 (Z.shiftl x 26))) (Z.lor (Z.shiftr x 11) (wrap 32 (Z.shiftl x 21)))) (Z.lor (Z.shiftr x 25) (wrap 32 (Z.shiftl x 7))).
Definition sha256_sigma0 (x : Z) : Z :=
  Z.lxor (Z.lxor (Z.lor (Z.shiftr x 7) (wrap 32 (Z.shiftl x 25))) (Z.lor (Z.shiftr x 18) (wrap 32 (Z.shiftl x 14)))) (Z.shiftr x 3).
Definition sha256_sigma1 (x : Z) : Z :=
  Z.lxor (Z.lxor (Z.lor (Z.shiftr x 17) (wrap 32 (Z.shiftl x 15))) (Z.lor (Z.shiftr x 19) (wrap 32 (Z.shiftl x 13)))) (Z.shiftr x 10).

(** One round: the word [w], which the callers assign in the argument, and
    the new values of [d] and [h]. *)
Definition sha256_Round (a b c d e f g h k w : Z) : Z * Z * Z :=
  let t1 := wrap 32 (h + sha256_Sigma1 e + sha256_Ch e f g + k + w) in
  let t2 := wrap 32 (sha256_Sigma0 a + sha256_Maj a b c) in
  (w, wrap 32 (d + t1), wrap 32 (t1 + t2)).

Definition sha256_Initialize : words8 :=
  (0x6a09e667, 0xbb67ae85, 0x3c6ef372, 0xa54ff53a, 0x510e527f, 0x9b05688c, 0x1f83d9ab, 0x5be0cd19).

Definition sha256_Transform (s : words8) (chunk : bytes) : words8 :=
  let '(s0, s1, s2, s3, s4, s5, s6, s7) := s in
  let '(a, b, c, d, e, f, g, h) := s in
  let '(w0, d, h) := sha256_Round a b c d e f g h 0x428a2f98 (ReadBE32 (drop 0 chunk)) in
  let '(w1, c, g) := sha256_Round h a b c d e f g 0x71374491 (ReadBE32 (drop 4 chunk)) in
  let '(w2, b, f) := sha256_Round g h a b c d e f 0xb5c0fbcf (ReadBE32 (drop 8 chunk)) in
  let '(w3, a, e) := sha256_Round f g h a b c d e 0xe9b5dba5 (ReadBE32 (drop 12 chunk)) in
  let '(w4, h, d) := sha256_Round e f g h a b c d 0x3956c25b (ReadBE32 (drop 16 chunk)) in
  let '(w5, g, c) := sha256_Round d e f g h a b c 0x59f111f1 (ReadBE32 (drop 20 chunk)) in
  let '(w6, f, b) := sha256_Round c d e f g h a b 0x923f82a4 (ReadBE32 (drop 24 chunk)) in
  let '(w7, e, a) := sha256_Round b c d e f g h a 0xab1c5ed5 (ReadBE32 (drop 28 chunk)) in
  let '(w8, d, h) := sha256_Round a b c d e f g h 0xd807aa98 (ReadBE32 (drop 32 chunk)) in
  let '(w9, c, g) := sha256_Round h a b c d e f g 0x12835b01 (ReadBE32 (drop 36 chunk)) in
  let '(w10, b, f) := sha256_Round g h a b c d e f 0x243185be (ReadBE32 (drop 40 chunk)) in
  let '(w11, a, e) := sha256_Round f g h a b c d e 0x550c7dc3 (ReadBE32 (drop 44 chunk)) in
  let '(w12, h, d) := sha256_Round e f g h a b c d 0x72be5d74 (ReadBE32 (drop 48 chunk)) in
  let '(w13, g, c) := sha256_Round d e f g h a b c 0x80deb1fe (ReadBE32 (drop 52 chunk)) in
  let '(w14, f, b) := sha256_Round c d e f g h a b 0x9bdc06a7 (ReadBE32 (drop 56 chunk)) in
  let '(w15, e, a) := sha256_Round b c d e f g h a 0xc19bf174 (ReadBE32 (drop 60 chunk)) in
  let '(w0, d, h) := sha256_Round a b c d e f g h 0xe49b69c1 (wrap 32 (w0 + (sha256_sigma1 w14 + w9 + sha256_sigma0 w1))) in
  let '(w1, c, g) := sha256_Round h a b c d e f g 0xefbe4786 (wrap 32 (w1 + (sha256_sigma1 w15 + w10 + sha256_sigma0 w2))) in
  let '(w2, b, f) := sha256_Round g h a b c d e f 0x0fc19dc6 (wrap 32 (w2 + (sha256_sigma1 w0 + w11 + sha256_sigma0 w3))) in
  let '(w3, a, e) := sha256_Round f g h a b c d e 0x240ca1cc (wrap 32 (w3 + (sha256_sigma1 w1 + w12 + sha256_sigma0 w4))) in
  let '(w4, h, d) := sha256_Round e f g h a b c d 0x2de92c6f (wrap 32 (w4 + (sha256_sigma1 w2 + w13 + sha256_sigma0 w5))) in
  let '(w5, g, c) := sha256_Round d e f g h a b c 0x4a7484aa (wrap 32 (w5 + (sha256_sigma1 w3 + w14 + sha256_sigma0 w6))) in
  let '(w6, f, b) := sha256_Round c d e f g h a b 0x5cb0a9dc (wrap 32 (w6 + (sha256_sigma1 w4 + w15 + sha256_sigma0 w7))) in
  let '(w7, e, a) := sha256_Round b c d e f g h a 0x76f988da (wrap 32 (w7 + (sha256_sigma1 w5 + w0 + sha256_sigma0 w8))) in
  let '(w8, d, h) := sha256_Round a b c d e f g h 0x983e5152 (wrap 32 (w8 + (sha256_sigma1 w6 + w1 + sha256_sigma0 w9))) in
  let '(w9, c, g) := sha256_Round h a b c d e f g 0xa831c66d (wrap 32 (w9 + (sha256_sigma1 w7 + w2 + sha256_sigma0 w10))) in
  let '(w10, b, f) := sha256_Round g h a b c d e f 0xb00327c8 (wrap 32 (w10 + (sha256_sigma1 w8 + w3 + sha256_sigma0 w11))) in
  let '(w11, a, e) := sha256_Round f g h a b c d e 0xbf597fc7 (wrap 32 (w11 + (sha256_sigma1 w9 + w4 + sha256_sigma0 w12))) in
  let '(w12, h, d) := sha256_Round e f g h a b c d 0xc6e00bf3 (wrap 32 (w12 + (sha256_sigma1 w10 + w5 + sha256_sigma0 w13))) in
  let '(w13, g, c) := sha256_Round d e f g h a b c 0xd5a79147 (wrap 32 (w13 + (sha256_sigma1 w11 + w6 + sha256_sigma0 w14))) in
  let '(w14, f, b) := sha256_Round c d e f g h a b 0x06ca6351 (wrap 32 (w14 + (sha256_sigma1 w12 + w7 + sha256_sigma0 w15))) in
  let '(w15, e, a) := sha256_Round b c d e f g h a 0x14292967 (wrap 32 (w15 + (sha256_sigma1 w13 + w8 + sha256_sigma0 w0))) in
  let '(w0, d, h) := sha256_Round a b c d e f g h 0x27b70a85 (wrap 32 (w0 + (sha256_sigma1 w14 + w9 + sha256_sigma0 w1))) in
  let '(w1, c, g) := sha256_Round h a b c d e f g 0x2e1b2138 (wrap 32 (w1 + (sha256_sigma1 w15 + w10 + sha256_sigma0 w2))) in
  let '(w2, b, f) := sha256_Round g h a b c d e f 0x4d2c6dfc (wrap 32 (w2 + (sha256_sigma1 w0 + w11 + sha256_sigma0 w3))) in
  let '(w3, a, e) := sha256_Round f g h a b c d e 0x53380d13 (wrap 32 (w3 + (sha256_sigma1 w1 + w12 + sha256_sigma0 w4))) in
  let '(w4, h, d) := sha256_Round e f g h a b c d 0x650a7354 (wrap 32 (w4 + (sha256_sigma1 w2 + w13 + sha256_sigma0 w5))) in
  let '(w5, g, c) := sha256_Round d e f g h a b c 0x766a0abb (wrap 32 (w5 + (sha256_sigma1 w3 + w14 + sha256_sigma0 w6))) in
  let '(w6, f, b) := sha256_Round c d e f g h a b 0x81c2c92e (wrap 32 (w6 + (sha256_sigma1 w4 + w15 + sha256_sigma0 w7))) in
  let '(w7, e, a) := sha256_Round b c d e f g h a 0x92722c85 (wrap 32 (w7 + (sha256_sigma1 w5 + w0 + sha256_sigma0 w8))) in
  let '(w8, d, h) := sha256_Round a b c d e f g h 0xa2bfe8a1 (wrap 32 (w8 + (sha256_sigma1 w6 + w1 + sha256_sigma0 w9))) in
  let '(w9, c, g) := sha256_Round h a b c d e f g 0xa81a664b (wrap 32 (w9 + (sha256_sigma1 w7 + w2 + sha256_sigma0 w10))) in
  let '(w10, b, f) := sha256_Round g h a b c d e f 0xc24b8b70 (wrap 32 (w10 + (sha256_sigma1 w8 + w3 + sha256_sigma0 w11))) in
  let '(w11, a, e) := sha256_Round f g h a b c d e 0xc76c51a3 (wrap 32 (w11 + (sha256_sigma1 w9 + w4 + sha256_sigma0 w12))) in
  let '(w12, h, d) := sha256_Round e f g h a b c d 0xd192e819 (wrap 32 (w12 + (sha256_sigma1 w10 + w5 + sha256_sigma0 w13))) in
  let '(w13, g, c) := sha256_Round d e f g h a b c 0xd6990624 (wrap 32 (w13 + (sha256_sigma1 w11 + w6 + sha256_sigma0 w14))) in
  let '(w14, f, b) := sha256_Round c d e f g h a b 0xf40e3585 (wrap 32 (w14 + (sha256_sigma1 w12 + w7 + sha256_sigma0 w15))) in
  let '(w15, e, a) := sha256_Round b c d e f g h a 0x106aa070 (wrap 32 (w15 + (sha256_sigma1 w13 + w8 + sha256_sigma0 w0))) in
  let '(w0, d, h) := sha256_Round a b c d e f g h 0x19a4c116 (wrap 32 (w0 + (sha256_sigma1 w14 + w9 + sha256_sigma0 w1))) in
  let '(w1, c, g) := sha256_Round h a b c d e f g 0x1e376c08 (wrap 32 (w1 + (sha256_sigma1 w15 + w10 + sha256_sigma0 w2))) in
  let '(w2, b, f) := sha256_Round g h a b c d e f 0x2748774c (wrap 32 (w2 + (sha256_sigma1 w0 + w11 + sha256_sigma0 w3))) in
  let '(w3, a, e) := sha256_Round f g h a b c d e 0x34b0bcb5 (wrap 32 (w3 + (sha256_sigma1 w1 + w12 + sha256_sigma0 w4))) in
  let '(w4, h, d) := sha256_Round e f g h a b c d 0x391c0cb3 (wrap 32 (w4 + (sha256_sigma1 w2 + w13 + sha256_sigma0 w5))) in
  let '(w5, g, c) := sha256_Round d e f g h a b c 0x4ed8aa4a (wrap 32 (w5 + (sha256_sigma1 w3 + w14 + sha256_sigma0 w6))) in
  let '(w6, f, b) := sha256_Round c d e f g h a b 0x5b9cca4f (wrap 32 (w6 + (sha256_sigma1 w4 + w15 + sha256_sigma0 w7))) in
  let '(w7, e, a) := sha256_Round b c d e f g h a 0x682e6ff3 (wrap 32 (w7 + (sha256_sigma1 w5 + w0 + sha256_sigma0 w8))) in
  let '(w8, d, h) := sha256_Round a b c d e f g h 0x748f82ee (wrap 32 (w8 + (sha256_sigma1 w6 + w1 + sha256_sigma0 w9))) in
  let '(w9, c, g) := sha256_Round h a b c d e f g 0x78a5636f (wrap 32 (w9 + (sha256_sigma1 w7 + w2 + sha256_sigma0 w10))) in
  let '(w10, b, f) := sha256_Round g h a b c d e f 0x84c87814 (wrap 32 (w10 + (sha256_sigma1 w8 + w3 + sha256_sigma0 w11))) in
  let '(w11, a, e) := sha256_Round f g h a b c d e 0x8cc70208 (wrap 32 (w11 + (sha256_sigma1 w9 + w4 + sha256_sigma0 w12))) in
  let '(w12, h, d) := sha256_Round e f g h a b c d 0x90befffa (wrap 32 (w12 + (sha256_sigma1 w10 + w5 + sha256_sigma0 w13))) in
  let '(w13, g, c) := sha256_Round d e f g h a b c 0xa4506ceb (wrap 32 (w13 + (sha256_sigma1 w11 + w6 + sha256_sigma0 w14))) in
  let '(_, f, b) := sha256_Round c d e f g h a b 0xbef9a3f7 (wrap 32 (w14 + sha256_sigma1 w12 + w7 + sha256_sigma0 w15)) in
  let '(_, e, a) := sha256_Round b c d e f g h a 0xc67178f2 (wrap 32 (w15 + sha256_sigma1 w13 + w8 + sha256_sigma0 w0)) in
  (wrap 32 (s0 + a), wrap 32 (s1 + b), wrap 32 (s2 + c), wrap 32 (s3 + d),
   wrap 32 (s4 + e), wrap 32 (s5 + f), wrap 32 (s6 + g), wrap 32 (s7 + h)).

(** *** SHA-512 *)

Definition sha512_Ch (x y z : Z) : Z := Z.lxor z (Z.land x (Z.lxor y z)).
Definition sha512_Maj (x y z : Z) : Z := Z.lor (Z.land x y) (Z.land z (Z.lor x y)).
Definition sha512_Sigma0 (x : Z) : Z :=
  Z.lxor (Z.lxor (Z.lor (Z.shiftr x 28) (wrap 64 (Z.shiftl x 36))) (Z.lor (Z.shiftr x 34) (wrap 64 (Z.shiftl x 30)))) (Z.lor (Z.shiftr x 39) (wrap 64 (Z.shiftl x 25))).
Definition sha512_Sigma1 (x : Z) : Z :=
  Z.lxor (Z.lxor (Z.lor (Z.shiftr x 14) (wrap 64 (Z.shiftl x 50))) (Z.lor (Z.shiftr x 18) (wrap 64 (Z.shiftl x 46)))) (Z.lor (Z.shiftr x 41) (wrap 64 (Z.shiftl x 23))).
Definition sha512_sigma0 (x : Z) : Z :=
  Z.lxor (Z.lxor (Z.lor (Z.shiftr x 1) (wrap 64 (Z.shiftl x 63))) (Z.lor (Z.shiftr x 8) (wrap 64 (Z.shiftl x 56)))) (Z.shiftr x 7).
Definition sha512_sigma1 (x : Z) : Z :=
  Z.lxor (Z.lxor (Z.lor (Z.shiftr x 19) (wrap 64 (Z.shiftl x 45))) (Z.lor (Z.shiftr x 61) (wrap 64 (Z.shiftl x 3)))) (Z.shiftr x 6).

(** One round: the word [w], which the callers assign in the argument, and
    the new values of [d] and [h]. *)
Definition sha512_Round (a b c d e f g h k w : Z) : Z * Z * Z :=
  let t1 := wrap 64 (h + sha512_Sigma1 e + sha512_Ch e f g + k + w) in
  let t2 := wrap 64 (sha512_Sigma0 a + sha512_Maj a b c) in
  (w, wrap 64 (d + t1), wrap 64 (t1 + t2)).

Definition sha512_Initialize : words8 :=
  (0x6a09e667f3bcc908, 0xbb67ae8584caa73b, 0x3c6ef372fe94f82b, 0xa54ff53a5f1d36f1,
   0x510e527fade682d1, 0x9b05688c2b3e6c1f, 0x1f83d9abfb41bd6b, 0x5be0cd19137e2179).

Definition sha512_Transform (s : words8) (chunk : bytes) : words8 :=
  let '(s0, s1, s2, s3, s4, s5, s6, s7) := s in
  let '(a, b, c, d, e, f, g, h) := s in
  let '(w0, d, h) := sha512_Round a b c d e f g h 0x428a2f98d728ae22 (ReadBE64 (drop 0 chunk)) in
  let '(w1, c, g) := sha512_Round h a b c d e f g 0x7137449123ef65cd (ReadBE64 (drop 8 chunk)) in
  let '(w2, b, f) := sha512_Round g h a b c d e f 0xb5c0fbcfec4d3b2f (ReadBE64 (drop 16 chunk)) in
  let '(w3, a, e) := sha512_Round f g h a b c d e 0xe9b5dba58189dbbc (ReadBE64 (drop 24 chunk)) in
  let '(w4, h, d) := sha512_Round e f g h a b c d 0x3956c25bf348b538 (ReadBE64 (drop 32 chunk)) in
  let '(w5, g, c) := sha512_Round d e f g h a b c 0x59f111f1b605d019 (ReadBE64 (drop 40 chunk)) in
  let '(w6, f, b) := sha512_Round c d e f g h a b 0x923f82a4af194f9b (ReadBE64 (drop 48 chunk)) in
  let '(w7, e, a) := sha512_Round b c d e f g h a 0xab1c5ed5da6d8118 (ReadBE64 (drop 56 chunk)) in
  let '(w8, d, h) := sha512_Round a b c d e f g h 0xd807aa98a3030242 (ReadBE64 (drop 64 chunk)) in
  let '(w9, c, g) := sha512_Round h a b c d e f g 0x12835b0145706fbe (ReadBE64 (drop 72 chunk)) in
  let '(w10, b, f) := sha512_Round g h a b c d e f 0x243185be4ee4b28c (ReadBE64 (drop 80 chunk)) in
  let '(w11, a, e) := sha512_Round f g h a b c d e 0x550c7dc3d5ffb4e2 (ReadBE64 (drop 88 chunk)) in
  let '(w12, h, d) := sha512_Round e f g h a b c d 0x72be5d74f27b896f (ReadBE64 (drop 96 chunk)) in
  let '(w13, g, c) := sha512_Round d e f g h a b c 0x80deb1fe3b1696b1 (ReadBE64 (drop 104 chunk)) in
  let '(w14, f, b) := sha512_Round c d e f g h a b 0x9bdc06a725c71235 (ReadBE64 (drop 112 chunk)) in
  let '(w15, e, a) := sha512_Round b c d e f g h a 0xc19bf174cf692694 (ReadBE64 (drop 120 chunk)) in
  let '(w0, d, h) := sha512_Round a b c d e f g h 0xe49b69c19ef14ad2 (wrap 64 (w0 + (sha512_sigma1 w14 + w9 + sha512_sigma0 w1))) in
  let '(w1, c, g) := sha512_Round h a b c d e f g 0xefbe4786384f25e3 (wrap 64 (w1 + (sha512_sigma1 w15 + w10 + sha512_sigma0 w2))) in
  let '(w2, b, f) := sha512_Round g h a b c d e f 0x0fc19dc68b8cd5b5 (wrap 64 (w2 + (sha512_sigma1 w0 + w11 + sha512_sigma0 w3))) in
  let '(w3, a, e) := sha512_Round f g h a b c d e 0x240ca1cc77ac9c65 (wrap 64 (w3 + (sha512_sigma1 w1 + w12 + sha512_sigma0 w4))) in
  let '(w4, h, d) := sha512_Round e f g h a b c d 0x2de92c6f592b0275 (wrap 64 (w4 + (sha512_sigma1 w2 + w13 + sha512_sigma0 w5))) in
  let '(w5, g, c) := sha512_Round d e f g h a b c 0x4a7484aa6ea6e483 (wrap 64 (w5 + (sha512_sigma1 w3 + w14 + sha512_sigma0 w6))) in
  let '(w6, f, b) := sha512_Round c d e f g h a b 0x5cb0a9dcbd41fbd4 (wrap 64 (w6 + (sha512_sigma1 w4 + w15 + sha512_sigma0 w7))) in
  let '(w7, e, a) := sha512_Round b c d e f g h a 0x76f988da831153b5 (wrap 64 (w7 + (sha512_sigma1 w5 + w0 + sha512_sigma0 w8))) in
  let '(w8, d, h) := sha512_Round a b c d e f g h 0x983e5152ee66dfab (wrap 64 (w8 + (sha512_sigma1 w6 + w1 + sha512_sigma0 w9))) in
  let '(w9, c, g) := sha512_Round h a b c d e f g 0xa831c66d2db43210 (wrap 64 (w9 + (sha512_sigma1 w7 + w2 + sha512_sigma0 w10))) in
  let '(w10, b, f) := sha512_Round g h a b c d e f 0xb00327c898fb213f (wrap 64 (w10 + (sha512_sigma1 w8 + w3 + sha512_sigma0 w11))) in
  let '(w11, a, e) := sha512_Round f g h a b c d e 0xbf597fc7beef0ee4 (wrap 64 (w11 + (sha512_sigma1 w9 + w4 + sha512_sigma0 w12))) in
  let '(w12, h, d) := sha512_Round e f g h a b c d 0xc6e00bf33da88fc2 (wrap 64 (w12 + (sha512_sigma1 w10 + w5 + sha512_sigma0 w13))) in
  let '(w13, g, c) := sha512_Round d e f g h a b c 0xd5a79147930aa725 (wrap 64 (w13 + (sha512_sigma1 w11 + w6 + sha512_sigma0 w14))) in
  let '(w14, f, b) := sha512_Round c d e f g h a b 0x06ca6351e003826f (wrap 64 (w14 + (sha512_sigma1 w12 + w7 + sha512_sigma0 w15))) in
  let '(w15, e, a) := sha512_Round b c d e f g h a 0x142929670a0e6e70 (wrap 64 (w15 + (sha512_sigma1 w13 + w8 + sha512_sigma0 w0))) in
  let '(w0, d, h) := sha512_Round a b c d e f g h 0x27b70a8546d22ffc (wrap 64 (w0 + (sha512_sigma1 w14 + w9 + sha512_sigma0 w1))) in
  let '(w1, c, g) := sha512_Round h a b c d e f g 0x2e1b21385c26c926 (wrap 64 (w1 + (sha512_sigma1 w15 + w10 + sha512_sigma0 w2))) in
  let '(w2, b, f) := sha512_Round g h a b c d e f 0x4d2c6dfc5ac42aed (wrap 64 (w2 + (sha512_sigma1 w0 + w11 + sha512_sigma0 w3))) in
  let '(w3, a, e) := sha512_Round f g h a b c d e 0x53380d139d95b3df (wrap 64 (w3 + (sha512_sigma1 w1 + w12 + sha512_sigma0 w4))) in
  let '(w4, h, d) := sha512_Round e f g h a b c d 0x650a73548baf63de (wrap 64 (w4 + (sha512_sigma1 w2 + w13 + sha512_sigma0 w5))) in
  let '(w5, g, c) := sha512_Round d e f g h a b c 0x766a0abb3c77b2a8 (wrap 64 (w5 + (sha512_sigma1 w3 + w14 + sha512_sigma0 w6))) in
  let '(w6, f, b) := sha512_Round c d e f g h a b 0x81c2c92e47edaee6 (wrap 64 (w6 + (sha512_sigma1 w4 + w15 + sha512_sigma0 w7))) in
  let '(w7, e, a) := sha512_Round b c d e f g h a 0x92722c851482353b (wrap 64 (w7 + (sha512_sigma1 w5 + w0 + sha512_sigma0 w8))) in
  let '(w8, d, h) := sha512_Round a b c d e f g h 0xa2bfe8a14cf10364 (wrap 64 (w8 + (sha512_sigma1 w6 + w1 + sha512_sigma0 w9))) in
  let '(w9, c, g) := sha512_Round h a b c d e f g 0xa81a664bbc423001 (wrap 64 (w9 + (sha512_sigma1 w7 + w2 + sha512_sigma0 w10))) in
  let '(w10, b, f) := sha512_Round g h a b c d e f 0xc24b8b70d0f89791 (wrap 64 (w10 + (sha512_sigma1 w8 + w3 + sha512_sigma0 w11))) in
  let '(w11, a, e) := sha512_Round f g h a b c d e 0xc76c51a30654be30 (wrap 64 (w11 + (sha512_sigma1 w9 + w4 + sha512_sigma0 w12))) in
  let '(w12, h, d) := sha512_Round e f g h a b c d 0xd192e819d6ef5218 (wrap 64 (w12 + (sha512_sigma1 w10 + w5 + sha512_sigma0 w13))) in
  let '(w13, g, c) := sha512_Round d e f g h a b c 0xd69906245565a910 (wrap 64 (w13 + (sha512_sigma1 w11 + w6 + sha512_sigma0 w14))) in
  let '(w14, f, b) := sha512_Round c d e f g h a b 0xf40e35855771202a (wrap 64 (w14 + (sha512_sigma1 w12 + w7 + sha512_sigma0 w15))) in
  let '(w15, e, a) := sha512_Round b c d e f g h a 0x106aa07032bbd1b8 (wrap 64 (w15 + (sha512_sigma1 w13 + w8 + sha512_sigma0 w0))) in
  let '(w0, d, h) := sha512_Round a b c d e f g h 0x19a4c116b8d2d0c8 (wrap 64 (w0 + (sha512_sigma1 w14 + w9 + sha512_sigma0 w1))) in
  let '(w1, c, g) := sha512_Round h a b c d e f g 0x1e376c085141ab53 (wrap 64 (w1 + (sha512_sigma1 w15 + w10 + sha512_sigma0 w2))) in
  let '(w2, b, f) := sha512_Round g h a b c d e f 0x2748774cdf8eeb99 (wrap 64 (w2 + (sha512_sigma1 w0 + w11 + sha512_sigma0 w3))) in
  let '(w3, a, e) := sha512_Round f g h a b c d e 0x34b0bcb5e19b48a8 (wrap 64 (w3 + (sha512_sigma1 w1 + w12 + sha512_sigma0 w4))) in
  let '(w4, h, d) := sha512_Round e f g h a b c d 0x391c0cb3c5c95a63 (wrap 64 (w4 + (sha512_sigma1 w2 + w13 + sha512_sigma0 w5))) in
  let '(w5, g, c) := sha512_Round d e f g h a b c 0x4ed8aa4ae3418acb (wrap 64 (w5 + (sha512_sigma1 w3 + w14 + sha512_sigma0 w6))) in
  let '(w6, f, b) := sha512_Round c d e f g h a b 0x5b9cca4f7763e373 (wrap 64 (w6 + (sha512_sigma1 w4 + w15 + sha512_sigma0 w7))) in
  let '(w7, e, a) := sha512_Round b c d e f g h a 0x682e6ff3d6b2b8a3 (wrap 64 (w7 + (sha512_sigma1 w5 + w0 + sha512_sigma0 w8))) in
  let '(w8, d, h) := sha512_Round a b c d e f g h 0x748f82ee5defb2fc (wrap 64 (w8 + (sha512_sigma1 w6 + w1 + sha512_sigma0 w9))) in
  let '(w9, c, g) := sha512_Round h a b c d e f g 0x78a5636f43172f60 (wrap 64 (w9 + (sha512_sigma1 w7 + w2 + sha512_sigma0 w10))) in
  let '(w10, b, f) := sha512_Round g h a b c d e f 0x84c87814a1f0ab72 (wrap 64 (w10 + (sha512_sigma1 w8 + w3 + sha512_sigma0 w11))) in
  let '(w11, a, e) := sha512_Round f g h a b c d e 0x8cc702081a6439ec (wrap 64 (w11 + (sha512_sigma1 w9 + w4 + sha512_sigma0 w12))) in
  let '(w12, h, d) := sha512_Round e f g h a b c d 0x90befffa23631e28 (wrap 64 (w12 + (sha512_sigma1 w10 + w5 + sha512_sigma0 w13))) in
  let '(w13, g, c) := sha512_Round d e f g h a b c 0xa4506cebde82bde9 (wrap 64 (w13 + (sha512_sigma1 w11 + w6 + sha512_sigma0 w14))) in
  let '(w14, f, b) := sha512_Round c d e f g h a b 0xbef9a3f7b2c67915 (wrap 64 (w14 + (sha512_sigma1 w12 + w7 + sha512_sigma0 w15))) in
  let '(w15, e, a) := sha512_Round b c d e f g h a 0xc67178f2e372532b (wrap 64 (w15 + (sha512_sigma1 w13 + w8 + sha512_sigma0 w0))) in
  let '(w0, d, h) := sha512_Round a b c d e f g h 0xca273eceea26619c (wrap 64 (w0 + (sha512_sigma1 w14 + w9 + sha512_sigma0 w1))) in
  let '(w1, c, g) := sha512_Round h a b c d e f g 0xd186b8c721c0c207 (wrap 64 (w1 + (sha512_sigma1 w15 + w10 + sha512_sigma0 w2))) in
  let '(w2, b, f) := sha512_Round g h a b c d e f 0xeada7dd6cde0eb1e (wrap 64 (w2 + (sha512_sigma1 w0 + w11 + sha512_sigma0 w3))) in
  let '(w3, a, e) := sha512_Round f g h a b c d e 0xf57d4f7fee6ed178 (wrap 64 (w3 + (sha512_sigma1 w1 + w12 + sha512_sigma0 w4))) in
  let '(w4, h, d) := sha512_Round e f g h a b c d 0x06f067aa72176fba (wrap 64 (w4 + (sha512_sigma1 w2 + w13 + sha512_sigma0 w5))) in
  let '(w5, g, c) := sha512_Round d e f g h a b c 0x0a637dc5a2c898a6 (wrap 64 (w5 + (sha512_sigma1 w3 + w14 + sha512_sigma0 w6))) in
  let '(w6, f, b) := sha512_Round c d e f g h a b 0x113f9804bef90dae (wrap 64 (w6 + (sha512_sigma1 w4 + w15 + sha512_sigma0 w7))) in
  let '(w7, e, a) := sha512_Round b c d e f g h a 0x1b710b35131c471b (wrap 64 (w7 + (sha512_sigma1 w5 + w0 + sha512_sigma0 w8))) in
  let '(w8, d, h) := sha512_Round a b c d e f g h 0x28db77f523047d84 (wrap 64 (w8 + (sha512_sigma1 w6 + w1 + sha512_sigma0 w9))) in
  let '(w9, c, g) := sha512_Round h a b c d e f g 0x32caab7b40c72493 (wrap 64 (w9 + (sha512_sigma1 w7 + w2 + sha512_sigma0 w10))) in
  let '(w10, b, f) := sha512_Round g h a b c d e f 0x3c9ebe0a15c9bebc (wrap 64 (w10 + (sha512_sigma1 w8 + w3 + sha512_sigma0 w11))) in
  let '(w11, a, e) := sha512_Round f g h a b c d e 0x431d67c49c100d4c (wrap 64 (w11 + (sha512_sigma1 w9 + w4 + sha512_sigma0 w12))) in
  let '(w12, h, d) := sha512_Round e f g h a b c d 0x4cc5d4becb3e42b6 (wrap 64 (w12 + (sha512_sigma1 w10 + w5 + sha512_sigma0 w13))) in
  let '(w13, g, c) := sha512_Round d e f g h a b c 0x597f299cfc657e2a (wrap 64 (w13 + (sha512_sigma1 w11 + w6 + sha512_sigma0 w14))) in
  let '(_, f, b) := sha512_Round c d e f g h a b 0x5fcb6fab3ad6faec (wrap 64 (w14 + sha512_sigma1 w12 + w7 + sha512_sigma0 w15)) in
  let '(_, e, a) := sha512_Round b c d e f g h a 0x6c44198c4a475817 (wrap 64 (w15 + sha512_sigma1 w13 + w8 + sha512_sigma0 w0)) in
  (wrap 64 (s0 + a), wrap 64 (s1 + b), wrap 64 (s2 + c), wrap 64 (s3 + d),
   wrap 64 (s4 + e), wrap 64 (s5 + f), wrap 64 (s6 + g), wrap 64 (s7 + h)).

(** *** SHA-1 *)

(** The word [w], assigned in the argument, and the new [b] and [e]. *)
Definition sha1_Round (a b c d e f k w : Z) : Z * Z * Z :=
  (w, wrap 32 (Z.lor (wrap 32 (Z.shiftl b 30)) (Z.shiftr b 2)),
   wrap 32 (e + (Z.lor (wrap 32 (Z.shiftl a 5)) (Z.shiftr a 27) + f + k + w))).
Definition sha1_f1 (b c d : Z) : Z := Z.lxor d (Z.land b (Z.lxor c d)).
Definition sha1_f2 (b c d : Z) : Z := Z.lxor (Z.lxor b c) d.
Definition sha1_f3 (b c d : Z) : Z := Z.lor (Z.land b c) (Z.land d (Z.lor b c)).
Definition sha1_left (x : Z) : Z := Z.lor (wrap 32 (Z.shiftl x 1)) (Z.shiftr x 31).
Definition sha1_Initialize : words5 := (0x67452301, 0xEFCDAB89, 0x98BADCFE, 0x10325476, 0xC3D2E1F0).
Definition sha1_k1 : Z := 0x5A827999.
Definition sha1_k2 : Z := 0x6ED9EBA1.
Definition sha1_k3 : Z := 0x8F1BBCDC.
Definition sha1_k4 : Z := 0xCA62C1D6.

Definition sha1_Transform (s : words5) (chunk : bytes) : words5 :=
  let '(s0, s1, s2, s3, s4) := s in
  let '(a, b, c, d, e) := s in
  let '(w0, b, e) := sha1_Round a b c d e (sha1_f1 b c d) sha1_k1 (ReadBE32 (drop 0 chunk)) in
  let '(w1, a, d) := sha1_Round e a b c d (sha1_f1 a b c) sha1_k1 (ReadBE32 (drop 4 chunk)) in
  let '(w2, e, c) := sha1_Round d e a b c (sha1_f1 e a b) sha1_k1 (ReadBE32 (drop 8 chunk)) in
  let '(w3, d, b) := sha1_Round c d e a b (sha1_f1 d e a) sha1_k1 (ReadBE32 (drop 12 chunk)) in
  let '(w4, c, a) := sha1_Round b c d e a (sha1_f1 c d e) sha1_k1 (ReadBE32 (drop 16 chunk)) in
  let '(w5, b, e) := sha1_Round a b c d e (sha1_f1 b c d) sha1_k1 (ReadBE32 (drop 20 chunk)) in
  let '(w6, a, d) := sha1_Round e a b c d (sha1_f1 a b c) sha1_k1 (ReadBE32 (drop 24 chunk)) in
  let '(w7, e, c) := sha1_Round d e a b c (sha1_f1 e a b) sha1_k1 (ReadBE32 (drop 28 chunk)) in
  let '(w8, d, b) := sha1_Round c d e a b (sha1_f1 d e a) sha1_k1 (ReadBE32 (drop 32 chunk)) in
  let '(w9, c, a) := sha1_Round b c d e a (sha1_f1 c d e) sha1_k1 (ReadBE32 (drop 36 chunk)) in
  let '(w10, b, e) := sha1_Round a b c d e (sha1_f1 b c d) sha1_k1 (ReadBE32 (drop 40 chunk)) in
  let '(w11, a, d) := sha1_Round e a b c d (sha1_f1 a b c) sha1_k1 (ReadBE32 (drop 44 chunk)) in
  let '(w12, e, c) := sha1_Round d e a b c (sha1_f1 e a b) sha1_k1 (ReadBE32 (drop 48 chunk)) in
  let '(w13, d, b) := sha1_Round c d e a b (sha1_f1 d e a) sha1_k1 (ReadBE32 (drop 52 chunk)) in
  let '(w14, c, a) := sha1_Round b c d e a (sha1_f1 c d e) sha1_k1 (ReadBE32 (drop 56 chunk)) in
  let '(w15, b, e) := sha1_Round a b c d e (sha1_f1 b c d) sha1_k1 (ReadBE32 (drop 60 chunk)) in
  let '(w0, a, d) := sha1_Round e a b c d (sha1_f1 a b c) sha1_k1 (sha1_left (Z.lxor (Z.lxor (Z.lxor w0 w13) w8) w2)) in
  let '(w1, e, c) := sha1_Round d e a b c (sha1_f1 e a b) sha1_k1 (sha1_left (Z.lxor (Z.lxor (Z.lxor w1 w14) w9) w3)) in
  let '(w2, d, b) := sha1_Round c d e a b (sha1_f1 d e a) sha1_k1 (sha1_left (Z.lxor (Z.lxor (Z.lxor w2 w15) w10) w4)) in
  let '(w3, c, a) := sha1_Round b c d e a (sha1_f1 c d e) sha1_k1 (sha1_left (Z.lxor (Z.lxor (Z.lxor w3 w0) w11) w5)) in
  let '(w4, b, e) := sha1_Round a b c d e (sha1_f2 b c d) sha1_k2 (sha1_left (Z.lxor (Z.lxor (Z.lxor w4 w1) w12) w6)) in
  let '(w5, a, d) := sha1_Round e a b c d (sha1_f2 a b c) sha1_k2 (sha1_left (Z.lxor (Z.lxor (Z.lxor w5 w2) w13) w7)) in
  let '(w6, e, c) := sha1_Round d e a b c (sha1_f2 e a b) sha1_k2 (sha1_left (Z.lxor (Z.lxor (Z.lxor w6 w3) w14) w8)) in
  let '(w7, d, b) := sha1_Round c d e a b (sha1_f2 d e a) sha1_k2 (sha1_left (Z.lxor (Z.lxor (Z.lxor w7 w4) w15) w9)) in
  let '(w8, c, a) := sha1_Round b c d e a (sha1_f2 c d e) sha1_k2 (sha1_left (Z.lxor (Z.lxor (Z.lxor w8 w5) w0) w10)) in
  let '(w9, b, e) := sha1_Round a b c d e (sha1_f2 b c d) sha1_k2 (sha1_left (Z.lxor (Z.lxor (Z.lxor w9 w6) w1) w11)) in
  let '(w10, a, d) := sha1_Round e a b c d (sha1_f2 a b c) sha1_k2 (sha1_left (Z.lxor (Z.lxor (Z.lxor w10 w7) w2) w12)) in
  let '(w11, e, c) := sha1_Round d e a b c (sha1_f2 e a b) sha1_k2 (sha1_left (Z.lxor (Z.lxor (Z.lxor w11 w8) w3) w13)) in
  let '(w12, d, b) := sha1_Round c d e a b (sha1_f2 d e a) sha1_k2 (sha1_left (Z.lxor (Z.lxor (Z.lxor w12 w9) w4) w14)) in
  let '(w13, c, a) := sha1_Round b c d e a (sha1_f2 c d e) sha1_k2 (sha1_left (Z.lxor (Z.lxor (Z.lxor w13 w10) w5) w15)) in
  let '(w14, b, e) := sha1_Round a b c d e (sha1_f2 b c d) sha1_k2 (sha1_left (Z.lxor (Z.lxor (Z.lxor w14 w11) w6) w0)) in
  let '(w15, a, d) := sha1_Round e a b c d (sha1_f2 a b c) sha1_k2 (sha1_left (Z.lxor (Z.lxor (Z.lxor w15 w12) w7) w1)) in
  let '(w0, e, c) := sha1_Round d e a b c (sha1_f2 e a b) sha1_k2 (sha1_left (Z.lxor (Z.lxor (Z.lxor w0 w13) w8) w2)) in
  let '(w1, d, b) := sha1_Round c d e a b (sha1_f2 d e a) sha1_k2 (sha1_left (Z.lxor (Z.lxor (Z.lxor w1 w14) w9) w3)) in
  let '(w2, c, a) := sha1_Round b c d e a (sha1_f2 c d e) sha1_k2 (sha1_left (Z.lxor (Z.lxor (Z.lxor w2 w15) w10) w4)) in
  let '(w3, b, e) := sha1_Round a b c d e (sha1_f2 b c d) sha1_k2 (sha1_left (Z.lxor (Z.lxor (Z.lxor w3 w0) w11) w5)) in
  let '(w4, a, d) := sha1_Round e a b c d (sha1_f2 a b c) sha1_k2 (sha1_left (Z.lxor (Z.lxor (Z.lxor w4 w1) w12) w6)) in
  let '(w5, e, c) := sha1_Round d e a b c (sha1_f2 e a b) sha1_k2 (sha1_left (Z.lxor (Z.lxor (Z.lxor w5 w2) w13) w7)) in
  let '(w6, d, b) := sha1_Round c d e a b (sha1_f2 d e a) sha1_k2 (sha1_left (Z.lxor (Z.lxor (Z.lxor w6 w3) w14) w8)) in
  let '(w7, c, a) := sha1_Round b c d e a (sha1_f2 c d e) sha1_k2 (sha1_left (Z.lxor (Z.lxor (Z.lxor w7 w4) w15) w9)) in
  let '(w8, b, e) := sha1_Round a b c d e (sha1_f3 b c d) sha1_k3 (sha1_left (Z.lxor (Z.lxor (Z.lxor w8 w5) w0) w10)) in
  let '(w9, a, d) := sha1_Round e a b c d (sha1_f3 a b c) sha1_k3 (sha1_left (Z.lxor (Z.lxor (Z.lxor w9 w6) w1) w11)) in
  let '(w10, e, c) := sha1_Round d e a b c (sha1_f3 e a b) sha1_k3 (sha1_left (Z.lxor (Z.lxor (Z.lxor w10 w7) w2) w12)) in
  let '(w11, d, b) := sha1_Round c d e a b (sha1_f3 d e a) sha1_k3 (sha1_left (Z.lxor (Z.lxor (Z.lxor w11 w8) w3) w13)) in
  let '(w12, c, a) := sha1_Round b c d e a (sha1_f3 c d e) sha1_k3 (sha1_left (Z.lxor (Z.lxor (Z.lxor w12 w9) w4) w14)) in
  let '(w13, b, e) := sha1_Round a b c d e (sha1_f3 b c d) sha1_k3 (sha1_left (Z.lxor (Z.lxor (Z.lxor w13 w10) w5) w15)) in
  let '(w14, a, d) := sha1_Round e a b c d (sha1_f3 a b c) sha1_k3 (sha1_left (Z.lxor (Z.lxor (Z.lxor w14 w11) w6) w0)) in
  let '(w15, e, c) := sha1_Round d e a b c (sha1_f3 e a b) sha1_k3 (sha1_left (Z.lxor (Z.lxor (Z.lxor w15 w12) w7) w1)) in
  let '(w0, d, b) := sha1_Round c d e a b (sha1_f3 d e a) sha1_k3 (sha1_left (Z.lxor (Z.lxor (Z.lxor w0 w13) w8) w2)) in
  let '(w1, c, a) := sha1_Round b c d e a (sha1_f3 c d e) sha1_k3 (sha1_left (Z.lxor (Z.lxor (Z.lxor w1 w14) w9) w3)) in
  let '(w2, b, e) := sha1_Round a b c d e (sha1_f3 b c d) sha1_k3 (sha1_left (Z.lxor (Z.lxor (Z.lxor w2 w15) w10) w4)) in
  let '(w3, a, d) := sha1_Round e a b c d (sha1_f3 a b c) sha1_k3 (sha1_left (Z.lxor (Z.lxor (Z.lxor w3 w0) w11) w5)) in
  let '(w4, e, c) := sha1_Round d e a b c (sha1_f3 e a b) sha1_k3 (sha1_left (Z.lxor (Z.lxor (Z.lxor w4 w1) w12) w6)) in
  let '(w5, d, b) := sha1_Round c d e a b (sha1_f3 d e a) sha1_k3 (sha1_left (Z.lxor (Z.lxor (Z.lxor w5 w2) w13) w7)) in
  let '(w6, c, a) := sha1_Round b c d e a (sha1_f3 c d e) sha1_k3 (sha1_left (Z.lxor (Z.lxor (Z.lxor w6 w3) w14) w8)) in
  let '(w7, b, e) := sha1_Round a b c d e (sha1_f3 b c d) sha1_k3 (sha1_left (Z.lxor (Z.lxor (Z.lxor w7 w4) w15) w9)) in
  let '(w8, a, d) := sha1_Round e a b c d (sha1_f3 a b c) sha1_k3 (sha1_left (Z.lxor (Z.lxor (Z.lxor w8 w5) w0) w10)) in
  let '(w9, e, c) := sha1_Round d e a b c (sha1_f3 e a b) sha1_k3 (sha1_left (Z.lxor (Z.lxor (Z.lxor w9 w6) w1) w11)) in
  let '(w10, d, b) := sha1_Round c d e a b (sha1_f3 d e a) sha1_k3 (sha1_left (Z.lxor (Z.lxor (Z.lxor w10 w7) w2) w12)) in
  let '(w11, c, a) := sha1_Round b c d e a (sha1_f3 c d e) sha1_k3 (sha1_left (Z.lxor (Z.lxor (Z.lxor w11 w8) w3) w13)) in
  let '(w12, b, e) := sha1_Round a b c d e (sha1_f2 b c d) sha1_k4 (sha1_left (Z.lxor (Z.lxor (Z.lxor w12 w9) w4) w14)) in
  let '(w13, a, d) := sha1_Round e a b c d (sha1_f2 a b c) sha1_k4 (sha1_left (Z.lxor (Z.lxor (Z.lxor w13 w10) w5) w15)) in
  let '(w14, e, c) := sha1_Round d e a b c (sha1_f2 e a b) sha1_k4 (sha1_left (Z.lxor (Z.lxor (Z.lxor w14 w11) w6) w0)) in
  let '(w15, d, b) := sha1_Round c d e a b (sha1_f2 d e a) sha1_k4 (sha1_left (Z.lxor (Z.lxor (Z.lxor w15 w12) w7) w1)) in
  let '(w0, c, a) := sha1_Round b c d e a (sha1_f2 c d e) sha1_k4 (sha1_left (Z.lxor (Z.lxor (Z.lxor w0 w13) w8) w2)) in
  let '(w1, b, e) := sha1_Round a b c d e (sha1_f2 b c d) sha1_k4 (sha1_left (Z.lxor (Z.lxor (Z.lxor w1 w14) w9) w3)) in
  let '(w2, a, d) := sha1_Round e a b c d (sha1_f2 a b c) sha1_k4 (sha1_left (Z.lxor (Z.lxor (Z.lxor w2 w15) w10) w4)) in
  let '(w3, e, c) := sha1_Round d e a b c (sha1_f2 e a b) sha1_k4 (sha1_left (Z.lxor (Z.lxor (Z.lxor w3 w0) w11) w5)) in
  let '(w4, d, b) := sha1_Round c d e a b (sha1_f2 d e a) sha1_k4 (sha1_left (Z.lxor (Z.lxor (Z.lxor w4 w1) w12) w6)) in
  let '(w5, c, a) := sha1_Round b c d e a (sha1_f2 c d e) sha1_k4 (sha1_left (Z.lxor (Z.lxor (Z.lxor w5 w2) w13) w7)) in
  let '(w6, b, e) := sha1_Round a b c d e (sha1_f2 b c d) sha1_k4 (sha1_left (Z.lxor (Z.lxor (Z.lxor w6 w3) w14) w8)) in
  let '(w7, a, d) := sha1_Round e a b c d (sha1_f2 a b c) sha1_k4 (sha1_left (Z.lxor (Z.lxor (Z.lxor w7 w4) w15) w9)) in
  let '(w8, e, c) := sha1_Round d e a b c (sha1_f2 e a b) sha1_k4 (sha1_left (Z.lxor (Z.lxor (Z.lxor w8 w5) w0) w10)) in
  let '(w9, d, b) := sha1_Round c d e a b (sha1_f2 d e a) sha1_k4 (sha1_left (Z.lxor (Z.lxor (Z.lxor w9 w6) w1) w11)) in
  let '(w10, c, a) := sha1_Round b c d e a (sha1_f2 c d e) sha1_k4 (sha1_left (Z.lxor (Z.lxor (Z.lxor w10 w7) w2) w12)) in
  let '(w11, b, e) := sha1_Round a b c d e (sha1_f2 b c d) sha1_k4 (sha1_left (Z.lxor (Z.lxor (Z.lxor w11 w8) w3) w13)) in
  let '(w12, a, d) := sha1_Round e a b c d (sha1_f2 a b c) sha1_k4 (sha1_left (Z.lxor (Z.lxor (Z.lxor w12 w9) w4) w14)) in
  let '(_, e, c) := sha1_Round d e a b c (sha1_f2 e a b) sha1_k4 (sha1_left (Z.lxor (Z.lxor (Z.lxor w13 w10) w5) w15)) in
  let '(_, d, b) := sha1_Round c d e a b (sha1_f2 d e a) sha1_k4 (sha1_left (Z.lxor (Z.lxor (Z.lxor w14 w11) w6) w0)) in
  let '(_, c, a) := sha1_Round b c d e a (sha1_f2 c d e) sha1_k4 (sha1_left (Z.lxor (Z.lxor (Z.lxor w15 w12) w7) w1)) in
  (wrap 32 (s0 + a), wrap 32 (s1 + b), wrap 32 (s2 + c), wrap 32 (s3 + d), wrap 32 (s4 + e)).

(** *** The hasher classes *)

Definition write_words8 (write : Z -> bytes) (s : words8) : bytes :=
  let '(s0, s1, s2, s3, s4, s5, s6, s7) := s in
  write s0 ++ write s1 ++ write s2 ++ write s3 ++ write s4 ++ write s5 ++ write s6 ++ write s7.
Definition write_words5 (write : Z -> bytes) (s : words5) : bytes :=
  let '(s0, s1, s2, s3, s4) := s in write s0 ++ write s1 ++ write s2 ++ write s3 ++ write s4.

Definition CSHA256 : Digest := {|
  word_state := words8; BLOCK := 64; PAD := 119; SIZEDESC := 8;
  Initialize := sha256_Initialize; Transform := sha256_Transform;
  write_sizedesc := WriteBE64; write_hash := write_words8 WriteBE32 |}.
Definition CSHA512 : Digest := {|
  word_state := words8; BLOCK := 128; PAD := 239; SIZEDESC := 16;
  Initialize := sha512_Initialize; Transform := sha512_Transform;
  write_sizedesc := fun n => replicate 8 0 ++ WriteBE64 n; write_hash := write_words8 WriteBE64 |}.
Definition CSHA1 : Digest := {|
  word_state := words5; BLOCK := 64; PAD := 119; SIZEDESC := 8;
  Initialize := sha1_Initialize; Transform := sha1_Transform;
  write_sizedesc := WriteBE64; write_hash := write_words5 WriteBE32 |}.

(** [CSHA256::FinalizeNoPadding]: the bare chaining state; the public
    overload requires exactly one block, [None] is the [length_error]. *)
Definition sha256_FinalizeNoPadding (h : hasher CSHA256) (enforce_compression : bool) : option bytes :=
  if enforce_compression && negb (bytes_ h =? 64) then None
  else Some (write_words8 WriteBE32 (s h)).

(** *** Reference: FIPS 180-4 *)

Section fips.
Context (w : Z) (S0 S1 s0 s1 : Z -> Z).

Definition fips_Ch (x y z : Z) : Z := Z.lxor (Z.land x y) (Z.land (Z.lnot x) z).
Definition fips_Maj (x y z : Z) : Z := Z.lxor (Z.lxor (Z.land x y) (Z.land x z)) (Z.land y z).

Definition fips_round (k wt : Z) (st : words8) : words8 :=
  let '(a, b, c, d, e, f, g, h) := st in
  let T1 := wrap w (h + S1 e + fips_Ch e f g + k + wt) in
  let T2 := wrap w (S0 a + fips_Maj a b c) in
  (wrap w (T1 + T2), a, b, c, wrap w (d + T1), e, f, g).

(** [win] holds the last sixteen words of the schedule, oldest first. *)
Definition next_word (win : list Z) : Z :=
  wrap w (s1 (nth 14 win 0) + nth 9 win 0 + s0 (nth 1 win 0) + nth 0 win 0).

Fixpoint fips_rounds (ks ms win : list Z) (st : words8) : words8 :=
  match ks with
  | [] => st
  | k :: ks =>
      match ms with
      | m :: ms => fips_rounds ks ms win (fips_round k m st)
      | [] => let wt := next_word win in
              fips_rounds ks [] (tail win ++ [wt]) (fips_round k wt st)
      end
  end.

Definition add_state (H st : words8) : words8 :=
  let '(s0, s1, s2, s3, s4, s5, s6, s7) := H in
  let '(a, b, c, d, e, f, g, h) := st in
  (wrap w (s0 + a), wrap w (s1 + b), wrap w (s2 + c), wrap w (s3 + d),
   wrap w (s4 + e), wrap w (s5 + f), wrap w (s6 + g), wrap w (s7 + h)).

Definition fips_compress (K M : list Z) (H : words8) : words8 := add_state H (fips_rounds K M M H).
End fips.

(** The first [w] bits of the fractional part of the [k]-th root of [p]. *)
Fixpoint root_below (k x : Z) (i : nat) (acc : Z) : Z :=
  match i with
  | O => acc
  | S i => let acc' := acc + 2 ^ Z.of_nat i in root_below k x i (if acc' ^ k <=? x then acc' else acc)
  end.
Definition frac_root (k w p : Z) : Z := root_below k (p * 2 ^ (k * w)) (Z.to_nat (w + 8)) 0 mod 2 ^ w.

Definition is_prime (n : Z) : bool := forallb (fun d => negb (n mod d =? 0)) (seqZ 2 (n - 2)).
(** The first [n] primes, all below 410 for the [n <= 80] used here. *)
Definition primes (n : nat) : list Z := take n (filter (fun p => is_prime p = true) (seqZ 2 408)).

Definition words_be (read : bytes -> Z) (size : nat) (chunk : bytes) : list Z :=
  map (fun i => read (drop (size * i) chunk)) (seq 0 16).
Definition words8_of (l : list Z) : words8 :=
  let n i := nth i l 0 in (n 0%nat, n 1%nat, n 2%nat, n 3%nat, n 4%nat, n 5%nat, n 6%nat, n 7%nat).

(** Section 3.2 of the standard: rotation and shift to the right; and sections
    4.1.2 and 4.1.3: the functions of the two hash families. *)
Definition ROTR (w n x : Z) : Z := Z.lor (Z.shiftr x n) (wrap w (Z.shiftl x (w - n))).
Definition SHR (n x : Z) : Z := Z.shiftr x n.
Definition three_rotations (w r1 r2 r3 x : Z) : Z := Z.lxor (Z.lxor (ROTR w r1 x) (ROTR w r2 x)) (ROTR w r3 x).
Definition two_rotations (w r1 r2 s x : Z) : Z := Z.lxor (Z.lxor (ROTR w r1 x) (ROTR w r2 x)) (SHR s x).

Definition fips_sha256 (H : words8) (chunk : bytes) : words8 :=
  fips_compress 32 (three_rotations 32 2 13 22) (three_rotations 32 6 11 25) (two_rotations 32 7 18 3) (two_rotations 32 17 19 10)
    (map (frac_root 3 32) (primes 64)) (words_be ReadBE32 4 chunk) H.
Definition fips_sha512 (H : words8) (chunk : bytes) : words8 :=
  fips_compress 64 (three_rotations 64 28 34 39) (three_rotations 64 14 18 41) (two_rotations 64 1 8 7) (two_rotations 64 19 61 6)
    (map (frac_root 3 64) (primes 80)) (words_be ReadBE64 8 chunk) H.

(** ** The unrolled transforms are the FIPS loops *)

Lemma Ch_fips x y z : Z.lxor z (Z.land x (Z.lxor y z)) = fips_Ch x y z.
Proof.
  apply Z.bits_inj'. intros n Hn. unfold fips_Ch.
  rewrite !Z.lxor_spec, !Z.land_spec, Z.lxor_spec, Z.lnot_spec by lia.
  by destruct (Z.testbit x n), (Z.testbit y n), (Z.testbit z n).
Qed.

Lemma Maj_fips x y z : Z.lor (Z.land x y) (Z.land z (Z.lor x y)) = fips_Maj x y z.
Proof.
  apply Z.bits_inj'. intros n Hn. unfold fips_Maj.
  rewrite !Z.lxor_spec, !Z.lor_spec, !Z.land_spec, Z.lor_spec.
  by destruct (Z.testbit x n), (Z.testbit y n), (Z.testbit z n).
Qed.

Lemma sha256_Round_fips a b c d e f g h k wt : exists d' h',
  sha256_Round a b c d e f g h k wt = (wt, d', h')
  /\ fips_round 32 sha256_Sigma0 sha256_Sigma1 k wt (a, b, c, d, e, f, g, h) = (h', a, b, c, d', e, f, g).
Proof. do 2 eexists. split; [done|]. unfold sha256_Ch, sha256_Maj. by rewrite Ch_fips, Maj_fips. Qed.

Lemma sha512_Round_fips a b c d e f g h k wt : exists d' h',
  sha512_Round a b c d e f g h k wt = (wt, d', h')
  /\ fips_round 64 sha512_Sigma0 sha512_Sigma1 k wt (a, b, c, d, e, f, g, h) = (h', a, b, c, d', e, f, g).
Proof. do 2 eexists. split; [done|]. unfold sha512_Ch, sha512_Maj. by rewrite Ch_fips, Maj_fips. Qed.

(** The orders in which the source adds up a word of the schedule. *)
Lemma schedule_add n x y z u : wrap n (x + (y + z + u)) = wrap n (y + z + u + x).
Proof. f_equal. lia. Qed.

(** Replace a closed list of round constants by its value. *)
Local Ltac eval_constants l :=
  let v := eval vm_compute in l in replace l with v by (vm_compute; reflexivity).

(** One round on both sides: with a word of the message, with a word of the
    schedule that the source stores, and with one that it does not. *)
Section step.
Context (n : Z) (S0 S1 s0 s1 : Z -> Z) (Round : Z -> Z -> Z -> Z -> Z -> Z -> Z -> Z -> Z -> Z -> Z * Z * Z).
Context (Round_fips : forall a b c d e f g h k wt, exists d' h',
  Round a b c d e f g h k wt = (wt, d', h')
  /\ fips_round n S0 S1 k wt (a, b, c, d, e, f, g, h) = (h', a, b, c, d', e, f, g)).
Context {A : Type} (F : words8 -> A).
Local Abbreviation rounds := (fips_rounds n S0 S1 s0 s1).

Lemma step_message a b c d e f g h k ks m ms win (body : Z -> Z -> Z -> A) :
  (forall d' h', body m d' h' = F (rounds ks ms win (h', a, b, c, d', e, f, g))) ->
  (let '(w, d', h') := Round a b c d e f g h k m in body w d' h')
  = F (rounds (k :: ks) (m :: ms) win (a, b, c, d, e, f, g, h)).
Proof.
  intros H. cbn [fips_rounds]. destruct (Round_fips a b c d e f g h k m) as (d' & h' & -> & ->). apply H.
Qed.

Lemma step_schedule a b c d e f g h k ks w0 w1 w2 w3 w4 w5 w6 w7 w8 w9 w10 w11 w12 w13 w14 w15 (body : Z -> Z -> Z -> A) :
  (forall w d' h', body w d' h' = F (rounds ks [] [w1; w2; w3; w4; w5; w6; w7; w8; w9; w10; w11; w12; w13; w14; w15; w] (h', a, b, c, d', e, f, g))) ->
  (let '(w, d', h') := Round a b c d e f g h k (wrap n (w0 + (s1 w14 + w9 + s0 w1))) in body w d' h')
  = F (rounds (k :: ks) [] [w0; w1; w2; w3; w4; w5; w6; w7; w8; w9; w10; w11; w12; w13; w14; w15] (a, b, c, d, e, f, g, h)).
Proof.
  intros H. rewrite schedule_add. cbn [fips_rounds]. unfold next_word. cbn [nth tail app].
  destruct (Round_fips a b c d e f g h k (wrap n (s1 w14 + w9 + s0 w1 + w0))) as (d' & h' & -> & ->). apply H.
Qed.

Lemma step_last a b c d e f g h k ks w0 w1 w2 w3 w4 w5 w6 w7 w8 w9 w10 w11 w12 w13 w14 w15 (body : Z -> Z -> A) :
  (forall w d' h', body d' h' = F (rounds ks [] [w1; w2; w3; w4; w5; w6; w7; w8; w9; w10; w11; w12; w13; w14; w15; w] (h', a, b, c, d', e, f, g))) ->
  (let '(_, d', h') := Round a b c d e f g h k (wrap n (w0 + s1 w14 + w9 + s0 w1)) in body d' h')
  = F (rounds (k :: ks) [] [w0; w1; w2; w3; w4; w5; w6; w7; w8; w9; w10; w11; w12; w13; w14; w15] (a, b, c, d, e, f, g, h)).
Proof.
  intros H. replace (w0 + s1 w14 + w9 + s0 w1) with (w0 + (s1 w14 + w9 + s0 w1)) by lia.
  by apply (step_schedule a b c d e f g h k ks w0 w1 w2 w3 w4 w5 w6 w7 w8 w9 w10 w11 w12 w13 w14 w15 (fun _ => body)).
Qed.
End step.

Lemma sha256_Transform_fips H chunk : sha256_Transform H chunk = fips_sha256 H chunk.
Proof.
  destruct H as [[[[[[[h0 h1] h2] h3] h4] h5] h6] h7].
  unfold fips_sha256, fips_compress, words_be.
  change (three_rotations 32 2 13 22) with sha256_Sigma0. change (three_rotations 32 6 11 25) with sha256_Sigma1.
  change (two_rotations 32 7 18 3) with sha256_sigma0. change (two_rotations 32 17 19 10) with sha256_sigma1.
  eval_constants (map (frac_root 3 32) (primes 64)). cbn [map seq Nat.mul Nat.add].
  cbv delta [sha256_Transform] beta iota.
  do 16 (eapply (step_message _ _ _ _ _ sha256_Round sha256_Round_fips); intros).
  do 46 (eapply (step_schedule _ _ _ _ _ sha256_Round sha256_Round_fips); intros).
  do 2 (eapply (step_last _ _ _ _ _ sha256_Round sha256_Round_fips); intros).
  reflexivity.
Qed.

Lemma sha512_Transform_fips H chunk : sha512_Transform H chunk = fips_sha512 H chunk.
Proof.
  destruct H as [[[[[[[h0 h1] h2] h3] h4] h5] h6] h7].
  unfold fips_sha512, fips_compress, words_be.
  change (three_rotations 64 28 34 39) with sha512_Sigma0. change (three_rotations 64 14 18 41) with sha512_Sigma1.
  change (two_rotations 64 1 8 7) with sha512_sigma0. change (two_rotations 64 19 61 6) with sha512_sigma1.
  eval_constants (map (frac_root 3 64) (primes 80)). cbn [map seq Nat.mul Nat.add].
  cbv delta [sha512_Transform] beta iota.
  do 16 (eapply (step_message _ _ _ _ _ sha512_Round sha512_Round_fips); intros).
  do 62 (eapply (step_schedule _ _ _ _ _ sha512_Round sha512_Round_fips); intros).
  do 2 (eapply (step_last _ _ _ _ _ sha512_Round sha512_Round_fips); intros).
  reflexivity.
Qed.

#[export] Instance CSHA256_laws : DigestLaws CSHA256.
Proof. split; [cbn; lia|by exists (2 ^ 58)|done|cbn; lia|done]. Qed.
#[export] Instance CSHA512_laws : DigestLaws CSHA512.
Proof. split; [cbn; lia|by exists (2 ^ 57)|done|cbn; lia|done]. Qed.
#[export] Instance CSHA1_laws : DigestLaws CSHA1.
Proof. split; [cbn; lia|by exists (2 ^ 58)|done|cbn; lia|done]. Qed.

(** ** Properties *)

(** C29: the unrolled SHA-256 and SHA-512 transforms are the compression
    functions of FIPS 180-4: the rotations and shifts of the standard, the same
    message schedule, the same rounds on shifted working variables, the round
    constants being the cube roots of the first 64 and 80 primes and the initial
    states the square roots of the first 8. *)
Theorem sha2_transforms_are_fips :
  (forall H chunk, sha256_Transform H chunk = fips_sha256 H chunk)
  /\ (forall H chunk, sha512_Transform H chunk = fips_sha512 H chunk)
  /\ sha256_Initialize = words8_of (map (frac_root 2 32) (primes 8))
  /\ sha512_Initialize = words8_of (map (frac_root 2 64) (primes 8)).
Proof.
  split_and!; [apply sha256_Transform_fips|apply sha512_Transform_fips|by vm_compute|by vm_compute].
Qed.
