(* ===== verification/Ripemd.v ===== *)
(** * RIPEMD-160 (src/crypto/ripemd160.cpp)

    The transform as the program unrolls it, two interleaved lines of 80
    rounds, and its instance of the buffered digest. *)

From S2P Require Import Prelude Digest Sha.
Local Open Scope Z_scope.

Definition ripemd160_f1 (x y z : Z) : Z := Z.lxor (Z.lxor x y) z.
Definition ripemd160_f2 (x y z : Z) : Z := Z.lor (Z.land x y) (Z.land (wrap 32 (Z.lnot x)) z).
Definition ripemd160_f3 (x y z : Z) : Z := Z.lxor (Z.lor x (wrap 32 (Z.lnot y))) z.
Definition ripemd160_f4 (x y z : Z) : Z := Z.lor (Z.land x z) (Z.land y (wrap 32 (Z.lnot z))).
Definition ripemd160_f5 (x y z : Z) : Z := Z.lxor x (Z.lor y (wrap 32 (Z.lnot z))).

Definition ripemd160_Initialize : words5 := (0x67452301, 0xEFCDAB89, 0x98BADCFE, 0x10325476, 0xC3D2E1F0).

Definition ripemd160_rol (x i : Z) : Z := Z.lor (wrap 32 (Z.shiftl x i)) (Z.shiftr x (32 - i)).

(** The new values of [a] and [c]. *)
Definition ripemd160_Round (a b c d e f x k r : Z) : Z * Z :=
  (wrap 32 (ripemd160_rol (wrap 32 (a + f + x + k)) r + e), ripemd160_rol c 10).

Definition ripemd160_R11 (a b c d e x r : Z) : Z * Z := ripemd160_Round a b c d e (ripemd160_f1 b c d) x 0 r.
Definition ripemd160_R21 (a b c d e x r : Z) : Z * Z := ripemd160_Round a b c d e (ripemd160_f2 b c d) x 0x5A827999 r.
Definition ripemd160_R31 (a b c d e x r : Z) : Z * Z := ripemd160_Round a b c d e (ripemd160_f3 b c d) x 0x6ED9EBA1 r.
Definition ripemd160_R41 (a b c d e x r : Z) : Z * Z := ripemd160_Round a b c d e (ripemd160_f4 b c d) x 0x8F1BBCDC r.
Definition ripemd160_R51 (a b c d e x r : Z) : Z * Z := ripemd160_Round a b c d e (ripemd160_f5 b c d) x 0xA953FD4E r.
Definition ripemd160_R12 (a b c d e x r : Z) : Z * Z := ripemd160_Round a b c d e (ripemd160_f5 b c d) x 0x50A28BE6 r.
Definition ripemd160_R22 (a b c d e x r : Z) : Z * Z := ripemd160_Round a b c d e (ripemd160_f4 b c d) x 0x5C4DD124 r.
Definition ripemd160_R32 (a b c d e x r : Z) : Z * Z := ripemd160_Round a b c d e (ripemd160_f3 b c d) x 0x6D703EF3 r.
Definition ripemd160_R42 (a b c d e x r : Z) : Z * Z := ripemd160_Round a b c d e (ripemd160_f2 b c d) x 0x7A6D76E9 r.
Definition ripemd160_R52 (a b c d e x r : Z) : Z * Z := ripemd160_Round a b c d e (ripemd160_f1 b c d) x 0 r.

Definition ripemd160_Transform (s : words5) (chunk : bytes) : words5 :=
  let '(s0, s1, s2, s3, s4) := s in
  let '(a1, b1, c1, d1, e1) := s in
  let '(a2, b2, c2, d2, e2) := s in
  let w0 := ReadLE32 (drop 0 chunk) in
  let w1 := ReadLE32 (drop 4 chunk) in
  let w2 := ReadLE32 (drop 8 chunk) in
  let w3 := ReadLE32 (drop 12 chunk) in
  let w4 := ReadLE32 (drop 16 chunk) in
  let w5 := ReadLE32 (drop 20 chunk) in
  let w6 := ReadLE32 (drop 24 chunk) in
  let w7 := ReadLE32 (drop 28 chunk) in
  let w8 := ReadLE32 (drop 32 chunk) in
  let w9 := ReadLE32 (drop 36 chunk) in
  let w10 := ReadLE32 (drop 40 chunk) in
  let w11 := ReadLE32 (drop 44 chunk) in
  let w12 := ReadLE32 (drop 48 chunk) in
  let w13 := ReadLE32 (drop 52 chunk) in
  let w14 := ReadLE32 (drop 56 chunk) in
  let w15 := ReadLE32 (drop 60 chunk) in
  let '(a1, c1) := ripemd160_R11 a1 b1 c1 d1 e1 w0 11 in
  let '(a2, c2) := ripemd160_R12 a2 b2 c2 d2 e2 w5 8 in
  let '(e1, b1) := ripemd160_R11 e1 a1 b1 c1 d1 w1 14 in
  let '(e2, b2) := ripemd160_R12 e2 a2 b2 c2 d2 w14 9 in
  let '(d1, a1) := ripemd160_R11 d1 e1 a1 b1 c1 w2 15 in
  let '(d2, a2) := ripemd160_R12 d2 e2 a2 b2 c2 w7 9 in
  let '(c1, e1) := ripemd160_R11 c1 d1 e1 a1 b1 w3 12 in
  let '(c2, e2) := ripemd160_R12 c2 d2 e2 a2 b2 w0 11 in
  let '(b1, d1) := ripemd160_R11 b1 c1 d1 e1 a1 w4 5 in
  let '(b2, d2) := ripemd160_R12 b2 c2 d2 e2 a2 w9 13 in
  let '(a1, c1) := ripemd160_R11 a1 b1 c1 d1 e1 w5 8 in
  let '(a2, c2) := ripemd160_R12 a2 b2 c2 d2 e2 w2 15 in
  let '(e1, b1) := ripemd160_R11 e1 a1 b1 c1 d1 w6 7 in
  let '(e2, b2) := ripemd160_R12 e2 a2 b2 c2 d2 w11 15 in
  let '(d1, a1) := ripemd160_R11 d1 e1 a1 b1 c1 w7 9 in
  let '(d2, a2) := ripemd160_R12 d2 e2 a2 b2 c2 w4 5 in
  let '(c1, e1) := ripemd160_R11 c1 d1 e1 a1 b1 w8 11 in
  let '(c2, e2) := ripemd160_R12 c2 d2 e2 a2 b2 w13 7 in
  let '(b1, d1) := ripemd160_R11 b1 c1 d1 e1 a1 w9 13 in
  let '(b2, d2) := ripemd160_R12 b2 c2 d2 e2 a2 w6 7 in
  let '(a1, c1) := ripemd160_R11 a1 b1 c1 d1 e1 w10 14 in
  let '(a2, c2) := ripemd160_R12 a2 b2 c2 d2 e2 w15 8 in
  let '(e1, b1) := ripemd160_R11 e1 a1 b1 c1 d1 w11 15 in
  let '(e2, b2) := ripemd160_R12 e2 a2 b2 c2 d2 w8 11 in
  let '(d1, a1) := ripemd160_R11 d1 e1 a1 b1 c1 w12 6 in
  let '(d2, a2) := ripemd160_R12 d2 e2 a2 b2 c2 w1 14 in
  let '(c1, e1) := ripemd160_R11 c1 d1 e1 a1 b1 w13 7 in
  let '(c2, e2) := ripemd160_R12 c2 d2 e2 a2 b2 w10 14 in
  let '(b1, d1) := ripemd160_R11 b1 c1 d1 e1 a1 w14 9 in
  let '(b2, d2) := ripemd160_R12 b2 c2 d2 e2 a2 w3 12 in
  let '(a1, c1) := ripemd160_R11 a1 b1 c1 d1 e1 w15 8 in
  let '(a2, c2) := ripemd160_R12 a2 b2 c2 d2 e2 w12 6 in
  let '(e1, b1) := ripemd160_R21 e1 a1 b1 c1 d1 w7 7 in
  let '(e2, b2) := ripemd160_R22 e2 a2 b2 c2 d2 w6 9 in
  let '(d1, a1) := ripemd160_R21 d1 e1 a1 b1 c1 w4 6 in
  let '(d2, a2) := ripemd160_R22 d2 e2 a2 b2 c2 w11 13 in
  let '(c1, e1) := ripemd160_R21 c1 d1 e1 a1 b1 w13 8 in
  let '(c2, e2) := ripemd160_R22 c2 d2 e2 a2 b2 w3 15 in
  let '(b1, d1) := ripemd160_R21 b1 c1 d1 e1 a1 w1 13 in
  let '(b2, d2) := ripemd160_R22 b2 c2 d2 e2 a2 w7 7 in
  let '(a1, c1) := ripemd160_R21 a1 b1 c1 d1 e1 w10 11 in
  let '(a2, c2) := ripemd160_R22 a2 b2 c2 d2 e2 w0 12 in
  let '(e1, b1) := ripemd160_R21 e1 a1 b1 c1 d1 w6 9 in
  let '(e2, b2) := ripemd160_R22 e2 a2 b2 c2 d2 w13 8 in
  let '(d1, a1) := ripemd160_R21 d1 e1 a1 b1 c1 w15 7 in
  let '(d2, a2) := ripemd160_R22 d2 e2 a2 b2 c2 w5 9 in
  let '(c1, e1) := ripemd160_R21 c1 d1 e1 a1 b1 w3 15 in
  let '(c2, e2) := ripemd160_R22 c2 d2 e2 a2 b2 w10 11 in
  let '(b1, d1) := ripemd160_R21 b1 c1 d1 e1 a1 w12 7 in
  let '(b2, d2) := ripemd160_R22 b2 c2 d2 e2 a2 w14 7 in
  let '(a1, c1) := ripemd160_R21 a1 b1 c1 d1 e1 w0 12 in
  let '(a2, c2) := ripemd160_R22 a2 b2 c2 d2 e2 w15 7 in
  let '(e1, b1) := ripemd160_R21 e1 a1 b1 c1 d1 w9 15 in
  let '(e2, b2) := ripemd160_R22 e2 a2 b2 c2 d2 w8 12 in
  let '(d1, a1) := ripemd160_R21 d1 e1 a1 b1 c1 w5 9 in
  let '(d2, a2) := ripemd160_R22 d2 e2 a2 b2 c2 w12 7 in
  let '(c1, e1) := ripemd160_R21 c1 d1 e1 a1 b1 w2 11 in
  let '(c2, e2) := ripemd160_R22 c2 d2 e2 a2 b2 w4 6 in
  let '(b1, d1) := ripemd160_R21 b1 c1 d1 e1 a1 w14 7 in
  let '(b2, d2) := ripemd160_R22 b2 c2 d2 e2 a2 w9 15 in
  let '(a1, c1) := ripemd160_R21 a1 b1 c1 d1 e1 w11 13 in
  let '(a2, c2) := ripemd160_R22 a2 b2 c2 d2 e2 w1 13 in
  let '(e1, b1) := ripemd160_R21 e1 a1 b1 c1 d1 w8 12 in
  let '(e2, b2) := ripemd160_R22 e2 a2 b2 c2 d2 w2 11 in
  let '(d1, a1) := ripemd160_R31 d1 e1 a1 b1 c1 w3 11 in
  let '(d2, a2) := ripemd160_R32 d2 e2 a2 b2 c2 w15 9 in
  let '(c1, e1) := ripemd160_R31 c1 d1 e1 a1 b1 w10 13 in
  let '(c2, e2) := ripemd160_R32 c2 d2 e2 a2 b2 w5 7 in
  let '(b1, d1) := ripemd160_R31 b1 c1 d1 e1 a1 w14 6 in
  let '(b2, d2) := ripemd160_R32 b2 c2 d2 e2 a2 w1 15 in
  let '(a1, c1) := ripemd160_R31 a1 b1 c1 d1 e1 w4 7 in
  let '(a2, c2) := ripemd160_R32 a2 b2 c2 d2 e2 w3 11 in
  let '(e1, b1) := ripemd160_R31 e1 a1 b1 c1 d1 w9 14 in
  let '(e2, b2) := ripemd160_R32 e2 a2 b2 c2 d2 w7 8 in
  let '(d1, a1) := ripemd160_R31 d1 e1 a1 b1 c1 w15 9 in
  let '(d2, a2) := ripemd160_R32 d2 e2 a2 b2 c2 w14 6 in
  let '(c1, e1) := ripemd160_R31 c1 d1 e1 a1 b1 w8 13 in
  let '(c2, e2) := ripemd160_R32 c2 d2 e2 a2 b2 w6 6 in
  let '(b1, d1) := ripemd160_R31 b1 c1 d1 e1 a1 w1 15 in
  let '(b2, d2) := ripemd160_R32 b2 c2 d2 e2 a2 w9 14 in
  let '(a1, c1) := ripemd160_R31 a1 b1 c1 d1 e1 w2 14 in
  let '(a2, c2) := ripemd160_R32 a2 b2 c2 d2 e2 w11 12 in
  let '(e1, b1) := ripemd160_R31 e1 a1 b1 c1 d1 w7 8 in
  let '(e2, b2) := ripemd160_R32 e2 a2 b2 c2 d2 w8 13 in
  let '(d1, a1) := ripemd160_R31 d1 e1 a1 b1 c1 w0 13 in
  let '(d2, a2) := ripemd160_R32 d2 e2 a2 b2 c2 w12 5 in
  let '(c1, e1) := ripemd160_R31 c1 d1 e1 a1 b1 w6 6 in
  let '(c2, e2) := ripemd160_R32 c2 d2 e2 a2 b2 w2 14 in
  let '(b1, d1) := ripemd160_R31 b1 c1 d1 e1 a1 w13 5 in
  let '(b2, d2) := ripemd160_R32 b2 c2 d2 e2 a2 w10 13 in
  let '(a1, c1) := ripemd160_R31 a1 b1 c1 d1 e1 w11 12 in
  let '(a2, c2) := ripemd160_R32 a2 b2 c2 d2 e2 w0 13 in
  let '(e1, b1) := ripemd160_R31 e1 a1 b1 c1 d1 w5 7 in
  let '(e2, b2) := ripemd160_R32 e2 a2 b2 c2 d2 w4 7 in
  let '(d1, a1) := ripemd160_R31 d1 e1 a1 b1 c1 w12 5 in
  let '(d2, a2) := ripemd160_R32 d2 e2 a2 b2 c2 w13 5 in
  let '(c1, e1) := ripemd160_R41 c1 d1 e1 a1 b1 w1 11 in
  let '(c2, e2) := ripemd160_R42 c2 d2 e2 a2 b2 w8 15 in
  let '(b1, d1) := ripemd160_R41 b1 c1 d1 e1 a1 w9 12 in
  let '(b2, d2) := ripemd160_R42 b2 c2 d2 e2 a2 w6 5 in
  let '(a1, c1) := ripemd160_R41 a1 b1 c1 d1 e1 w11 14 in
  let '(a2, c2) := ripemd160_R42 a2 b2 c2 d2 e2 w4 8 in
  let '(e1, b1) := ripemd160_R41 e1 a1 b1 c1 d1 w10 15 in
  let '(e2, b2) := ripemd160_R42 e2 a2 b2 c2 d2 w1 11 in
  let '(d1, a1) := ripemd160_R41 d1 e1 a1 b1 c1 w0 14 in
  let '(d2, a2) := ripemd160_R42 d2 e2 a2 b2 c2 w3 14 in
  let '(c1, e1) := ripemd160_R41 c1 d1 e1 a1 b1 w8 15 in
  let '(c2, e2) := ripemd160_R42 c2 d2 e2 a2 b2 w11 14 in
  let '(b1, d1) := ripemd160_R41 b1 c1 d1 e1 a1 w12 9 in
  let '(b2, d2) := ripemd160_R42 b2 c2 d2 e2 a2 w15 6 in
  let '(a1, c1) := ripemd160_R41 a1 b1 c1 d1 e1 w4 8 in
  let '(a2, c2) := ripemd160_R42 a2 b2 c2 d2 e2 w0 14 in
  let '(e1, b1) := ripemd160_R41 e1 a1 b1 c1 d1 w13 9 in
  let '(e2, b2) := ripemd160_R42 e2 a2 b2 c2 d2 w5 6 in
  let '(d1, a1) := ripemd160_R41 d1 e1 a1 b1 c1 w3 14 in
  let '(d2, a2) := ripemd160_R42 d2 e2 a2 b2 c2 w12 9 in
  let '(c1, e1) := ripemd160_R41 c1 d1 e1 a1 b1 w7 5 in
  let '(c2, e2) := ripemd160_R42 c2 d2 e2 a2 b2 w2 12 in
  let '(b1, d1) := ripemd160_R41 b1 c1 d1 e1 a1 w15 6 in
  let '(b2, d2) := ripemd160_R42 b2 c2 d2 e2 a2 w13 9 in
  let '(a1, c1) := ripemd160_R41 a1 b1 c1 d1 e1 w14 8 in
  let '(a2, c2) := ripemd160_R42 a2 b2 c2 d2 e2 w9 12 in
  let '(e1, b1) := ripemd160_R41 e1 a1 b1 c1 d1 w5 6 in
  let '(e2, b2) := ripemd160_R42 e2 a2 b2 c2 d2 w7 5 in
  let '(d1, a1) := ripemd160_R41 d1 e1 a1 b1 c1 w6 5 in
  let '(d2, a2) := ripemd160_R42 d2 e2 a2 b2 c2 w10 15 in
  let '(c1, e1) := ripemd160_R41 c1 d1 e1 a1 b1 w2 12 in
  let '(c2, e2) := ripemd160_R42 c2 d2 e2 a2 b2 w14 8 in
  let '(b1, d1) := ripemd160_R51 b1 c1 d1 e1 a1 w4 9 in
  let '(b2, d2) := ripemd160_R52 b2 c2 d2 e2 a2 w12 8 in
  let '(a1, c1) := ripemd160_R51 a1 b1 c1 d1 e1 w0 15 in
  let '(a2, c2) := ripemd160_R52 a2 b2 c2 d2 e2 w15 5 in
  let '(e1, b1) := ripemd160_R51 e1 a1 b1 c1 d1 w5 5 in
  let '(e2, b2) := ripemd160_R52 e2 a2 b2 c2 d2 w10 12 in
  let '(d1, a1) := ripemd160_R51 d1 e1 a1 b1 c1 w9 11 in
  let '(d2, a2) := ripemd160_R52 d2 e2 a2 b2 c2 w4 9 in
  let '(c1, e1) := ripemd160_R51 c1 d1 e1 a1 b1 w7 6 in
  let '(c2, e2) := ripemd160_R52 c2 d2 e2 a2 b2 w1 12 in
  let '(b1, d1) := ripemd160_R51 b1 c1 d1 e1 a1 w12 8 in
  let '(b2, d2) := ripemd160_R52 b2 c2 d2 e2 a2 w5 5 in
  let '(a1, c1) := ripemd160_R51 a1 b1 c1 d1 e1 w2 13 in
  let '(a2, c2) := ripemd160_R52 a2 b2 c2 d2 e2 w8 14 in
  let '(e1, b1) := ripemd160_R51 e1 a1 b1 c1 d1 w10 12 in
  let '(e2, b2) := ripemd160_R52 e2 a2 b2 c2 d2 w7 6 in
  let '(d1, a1) := ripemd160_R51 d1 e1 a1 b1 c1 w14 5 in
  let '(d2, a2) := ripemd160_R52 d2 e2 a2 b2 c2 w6 8 in
  let '(c1, e1) := ripemd160_R51 c1 d1 e1 a1 b1 w1 12 in
  let '(c2, e2) := ripemd160_R52 c2 d2 e2 a2 b2 w2 13 in
  let '(b1, d1) := ripemd160_R51 b1 c1 d1 e1 a1 w3 13 in
  let '(b2, d2) := ripemd160_R52 b2 c2 d2 e2 a2 w13 6 in
  let '(a1, c1) := ripemd160_R51 a1 b1 c1 d1 e1 w8 14 in
  let '(a2, c2) := ripemd160_R52 a2 b2 c2 d2 e2 w14 5 in
  let '(e1, b1) := ripemd160_R51 e1 a1 b1 c1 d1 w11 11 in
  let '(e2, b2) := ripemd160_R52 e2 a2 b2 c2 d2 w0 15 in
  let '(d1, a1) := ripemd160_R51 d1 e1 a1 b1 c1 w6 8 in
  let '(d2, a2) := ripemd160_R52 d2 e2 a2 b2 c2 w3 13 in
  let '(c1, e1) := ripemd160_R51 c1 d1 e1 a1 b1 w15 5 in
  let '(c2, e2) := ripemd160_R52 c2 d2 e2 a2 b2 w9 11 in
  let '(b1, d1) := ripemd160_R51 b1 c1 d1 e1 a1 w13 6 in
  let '(b2, d2) := ripemd160_R52 b2 c2 d2 e2 a2 w11 11 in
  (wrap 32 (s1 + c1 + d2), wrap 32 (s2 + d1 + e2), wrap 32 (s3 + e1 + a2),
   wrap 32 (s4 + a1 + b2), wrap 32 (s0 + b1 + c2)).

Definition CRIPEMD160 : Digest := {|
  word_state := words5; BLOCK := 64; PAD := 119; SIZEDESC := 8;
  Initialize := ripemd160_Initialize; Transform := ripemd160_Transform;
  write_sizedesc := WriteLE64; write_hash := write_words5 WriteLE32 |}.

#[export] Instance CRIPEMD160_laws : DigestLaws CRIPEMD160.
Proof. split; [cbn; lia|by exists (2 ^ 58)|done|cbn; lia|done]. Qed.

(** The test vector of the empty message and of "abc". *)
Example ripemd160_vectors :
  Finalize (New (D := CRIPEMD160) (replicate 64 0))
  = rev (digits 8 20 0x9c1185a5c5e9fc54612808977ee8f548b2258d31)
  /\ Finalize (Write (New (D := CRIPEMD160) (replicate 64 0)) [0x61; 0x62; 0x63])
  = rev (digits 8 20 0x8eb208f7e05d987a9b044a8e98c6b087f15a0bfc).
Proof. by vm_compute. Qed.
