(* ===== verification/Hash.v ===== *)
(** * Hash functions of the program (src/hash.h, hash.cpp, crypto/hmac_*.cpp)

    The double hashes [CHash256] and [CHash160] with the helpers that use
    them, the keyed hashes HMAC and BIP32, and the non-cryptographic
    MurmurHash3 and SipHash. The hasher objects are followed through the
    sequence of calls the source makes on them; the properties say that
    the result is the mathematical function of the concatenated data. *)

From S2P Require Import Prelude Serialize Digest Sha Ripemd.
Local Open Scope Z_scope.
Local Open Scope code_scope.

(** ** Definitions *)

(** A hasher on the stack; what its buffer holds is never used. *)
Definition fresh (D : Digest) : hasher D := New (replicate BLOCK 0).

(** [CHash256::Finalize] and [CHash160::Finalize]. *)
Definition CHash256_Finalize (sha : hasher CSHA256) : bytes :=
  let sha := finalized sha in
  let buf := write_hash (s sha) in
  Finalize (Write (Reset sha) buf).
Definition CHash160_Finalize (sha : hasher CSHA256) : bytes :=
  let buf := Finalize sha in
  Finalize (Write (fresh CRIPEMD160) buf).

(** [Hash] over one, two and three ranges. *)
Definition Hash (p : bytes) : bytes := CHash256_Finalize (Write (fresh CSHA256) p).
Definition Hash2 (p1 p2 : bytes) : bytes := CHash256_Finalize (Write (Write (fresh CSHA256) p1) p2).
Definition Hash3 (p1 p2 p3 : bytes) : bytes :=
  CHash256_Finalize (Write (Write (Write (fresh CSHA256) p1) p2) p3).
Definition Hash160 (vch : bytes) : bytes := CHash160_Finalize (Write (fresh CSHA256) vch).

(** [CHashWriter] receives the bytes of a serialization one write at a time;
    [SerializeHash] hashes what the codec writes. *)
Definition SerializeHash {A} (c : codec A) (obj : A) : result ser_error bytes :=
  let* b := Serialize c obj in
  Ok (CHash256_Finalize (Write (fresh CSHA256) b)).

(** HMAC over one of the two digests; [OUT] is the length of its hash. *)
Record hmac (D : Digest) := Hmac { outer : hasher D; inner : hasher D }.
Arguments Hmac {D} _ _.
Arguments outer {D} _.
Arguments inner {D} _.

Section hmac.
Context (D : Digest) (OUT : nat).

Definition hmac_key (key : bytes) : bytes :=
  if (length key <=? BLOCK)%nat then key ++ replicate (BLOCK - length key) 0
  else Finalize (Write (fresh D) key) ++ replicate (BLOCK - OUT) 0.

Definition CHMAC (key : bytes) : hmac D :=
  let rkey := map (fun b => Z.lxor b 0x5c) (hmac_key key) in
  let outer := Write (fresh D) rkey in
  let rkey := map (fun b => Z.lxor b (Z.lxor 0x5c 0x36)) rkey in
  Hmac outer (Write (fresh D) rkey).

Definition CHMAC_Write (m : hmac D) (data : bytes) : hmac D := Hmac (outer m) (Write (inner m) data).

Definition CHMAC_Finalize (m : hmac D) : bytes :=
  let temp := Finalize (inner m) in Finalize (Write (outer m) temp).
End hmac.

Definition CHMAC_SHA256 : bytes -> hmac CSHA256 := CHMAC CSHA256 32.
Definition CHMAC_SHA512 : bytes -> hmac CSHA512 := CHMAC CSHA512 64.

Definition BIP32Hash (chainCode : bytes) (nChild header : Z) (data : bytes) : bytes :=
  let num := [Z.land (Z.shiftr nChild 24) 0xFF; Z.land (Z.shiftr nChild 16) 0xFF;
              Z.land (Z.shiftr nChild 8) 0xFF; Z.land (Z.shiftr nChild 0) 0xFF] in
  CHMAC_Finalize _ (CHMAC_Write _ (CHMAC_Write _ (CHMAC_Write _ (CHMAC_SHA512 chainCode) [header]) data) num).

(** *** MurmurHash3 (x86_32) *)

Definition ROTL32 (x r : Z) : Z := Z.lor (wrap 32 (Z.shiftl x r)) (Z.shiftr x (32 - r)).

Definition murmur_mix (k1 : Z) : Z :=
  wrap 32 (ROTL32 (wrap 32 (k1 * 0xcc9e2d51)) 15 * 0x1b873593).

Definition murmur_block (data : bytes) (h1 : Z) (i : nat) : Z :=
  let k1 := ReadLE32 (drop (4 * i) data) in
  let h1 := Z.lxor h1 (murmur_mix k1) in
  wrap 32 (ROTL32 h1 13 * 5 + 0xe6546b64).

Definition MurmurHash3 (nHashSeed : Z) (vDataToHash : bytes) : Z :=
  let size := length vDataToHash in
  let nblocks := (size / 4)%nat in
  let h1 :=
    if (0 <? size)%nat then
      let h1 := fold_left (murmur_block vDataToHash) (seq 0 nblocks) nHashSeed in
      match drop (4 * nblocks) vDataToHash with
      | [t0; t1; t2] => Z.lxor h1 (murmur_mix (Z.lxor (Z.lxor (Z.shiftl t2 16) (Z.shiftl t1 8)) t0))
      | [t0; t1] => Z.lxor h1 (murmur_mix (Z.lxor (Z.shiftl t1 8) t0))
      | [t0] => Z.lxor h1 (murmur_mix t0)
      | _ => h1
      end
    else nHashSeed in
  let h1 := wrap 32 (Z.lxor h1 size) in
  let h1 := Z.lxor h1 (Z.shiftr h1 16) in
  let h1 := wrap 32 (h1 * 0x85ebca6b) in
  let h1 := Z.lxor h1 (Z.shiftr h1 13) in
  let h1 := wrap 32 (h1 * 0xc2b2ae35) in
  Z.lxor h1 (Z.shiftr h1 16).

(** *** SipHash-2-4 *)

Definition ROTL (x b : Z) : Z := Z.lor (wrap 64 (Z.shiftl x b)) (Z.shiftr x (64 - b)).

Definition sipv : Type := Z * Z * Z * Z.

Definition SIPROUND (v : sipv) : sipv :=
  let '(v0, v1, v2, v3) := v in
  let v0 := wrap 64 (v0 + v1) in let v1 := ROTL v1 13 in let v1 := Z.lxor v1 v0 in
  let v0 := ROTL v0 32 in
  let v2 := wrap 64 (v2 + v3) in let v3 := ROTL v3 16 in let v3 := Z.lxor v3 v2 in
  let v0 := wrap 64 (v0 + v3) in let v3 := ROTL v3 21 in let v3 := Z.lxor v3 v0 in
  let v2 := wrap 64 (v2 + v1) in let v1 := ROTL v1 17 in let v1 := Z.lxor v1 v2 in
  let v2 := ROTL v2 32 in
  (v0, v1, v2, v3).

(** [v3 ^= d; SIPROUND; SIPROUND; v0 ^= d;] *)
Definition sip_compress (v : sipv) (d : Z) : sipv :=
  let '(v0, v1, v2, v3) := v in
  let '(v0, v1, v2, v3) := SIPROUND (SIPROUND (v0, v1, v2, Z.lxor v3 d)) in
  (Z.lxor v0 d, v1, v2, v3).

(** [v2 ^= 0xFF], four rounds, [v0 ^ v1 ^ v2 ^ v3]. *)
Definition sip_finish (v : sipv) : Z :=
  let '(v0, v1, v2, v3) := v in
  let '(v0, v1, v2, v3) := SIPROUND (SIPROUND (SIPROUND (SIPROUND (v0, v1, Z.lxor v2 0xFF, v3)))) in
  Z.lxor (Z.lxor (Z.lxor v0 v1) v2) v3.

Record CSipHasher := SipHasher { sip_v : sipv; sip_tmp : Z; sip_count : Z }.

Definition sip_init (k0 k1 : Z) : sipv :=
  (Z.lxor 0x736f6d6570736575 k0, Z.lxor 0x646f72616e646f6d k1,
   Z.lxor 0x6c7967656e657261 k0, Z.lxor 0x7465646279746573 k1).

Definition CSipHasher_new (k0 k1 : Z) : CSipHasher := SipHasher (sip_init k0 k1) 0 0.

(** [Write(uint64_t)], only used on a multiple of 8 bytes. *)
Definition sip_Write64 (h : CSipHasher) (data : Z) : CSipHasher :=
  SipHasher (sip_compress (sip_v h) data) (sip_tmp h) (sip_count h + 8).

(** One pass of the loop of [Write(const unsigned char*, size_t)]. *)
Definition sip_byte (h : CSipHasher) (b : Z) : CSipHasher :=
  let t := Z.lor (sip_tmp h) (wrap 64 (Z.shiftl b (8 * (sip_count h mod 8)))) in
  let c := sip_count h + 1 in
  if Z.land c 7 =? 0 then SipHasher (sip_compress (sip_v h) t) 0 c
  else SipHasher (sip_v h) t c.
Definition sip_Write (h : CSipHasher) (data : bytes) : CSipHasher := fold_left sip_byte data h.

Definition sip_Finalize (h : CSipHasher) : Z :=
  let t := Z.lor (sip_tmp h) (wrap 64 (Z.shiftl (sip_count h) 56)) in
  sip_finish (sip_compress (sip_v h) t).

(** [base_blob::GetUint64]: the bytes from [ptr] shifted and or-ed together. *)
Definition GetUint64 (val : bytes) (pos : nat) : Z :=
  let ptr := drop (pos * 8) val in
  fold_left (fun acc i => Z.lor acc (Z.shiftl (nth i ptr 0) (8 * i))) (seq 1 7) (nth 0 ptr 0).

(** The specialised hash of a [uint256]. *)
Definition SipHashUint256 (k0 k1 : Z) (val : bytes) : Z :=
  let d := GetUint64 val 0 in
  let '(v0, v1, v2, v3) := sip_init k0 k1 in
  let '(v0, v1, v2, v3) := SIPROUND (SIPROUND (v0, v1, v2, Z.lxor v3 d)) in
  let v0 := Z.lxor v0 d in
  let d := GetUint64 val 1 in
  let '(v0, v1, v2, v3) := SIPROUND (SIPROUND (v0, v1, v2, Z.lxor v3 d)) in
  let v0 := Z.lxor v0 d in
  let d := GetUint64 val 2 in
  let '(v0, v1, v2, v3) := SIPROUND (SIPROUND (v0, v1, v2, Z.lxor v3 d)) in
  let v0 := Z.lxor v0 d in
  let d := GetUint64 val 3 in
  let '(v0, v1, v2, v3) := SIPROUND (SIPROUND (v0, v1, v2, Z.lxor v3 d)) in
  let v0 := Z.lxor v0 d in
  let '(v0, v1, v2, v3) := SIPROUND (SIPROUND (v0, v1, v2, Z.lxor v3 (wrap 64 (Z.shiftl 4 59)))) in
  let v0 := Z.lxor v0 (wrap 64 (Z.shiftl 4 59)) in
  let v2 := Z.lxor v2 0xFF in
  let '(v0, v1, v2, v3) := SIPROUND (SIPROUND (SIPROUND (SIPROUND (v0, v1, v2, v3)))) in
  Z.lxor (Z.lxor (Z.lxor v0 v1) v2) v3.

(** *** References *)

Definition sha256d (m : bytes) : bytes := digest (D := CSHA256) (digest (D := CSHA256) m).
Definition hash160 (m : bytes) : bytes := digest (D := CRIPEMD160) (digest (D := CSHA256) m).

(** RFC 2104. *)
Definition hmac_rfc (D : Digest) (OUT : nat) (key text : bytes) : bytes :=
  let k := if (length key <=? BLOCK)%nat then key ++ replicate (BLOCK - length key) 0
           else digest key ++ replicate (BLOCK - OUT) 0 in
  digest (map (fun b => Z.lxor b 0x5c) k ++ digest (map (fun b => Z.lxor b 0x36) k ++ text)).

(** SipHash-2-4 of a message: its 64-bit words, then the last word with the
    remaining bytes and the length. *)
Fixpoint sip_words (n : nat) (m : bytes) : list Z :=
  match n with O => [] | S n => ReadLE64 m :: sip_words n (drop 8 m) end.
Definition siphash (k0 k1 : Z) (m : bytes) : Z :=
  let full := (length m / 8)%nat in
  let v := fold_left sip_compress (sip_words full m) (sip_init k0 k1) in
  let last := lev 8 (drop (8 * full) m) + (length m mod 256) * 2 ^ 56 in
  sip_finish (sip_compress v last).

(** ** Cryptographic hashes *)

Lemma length_fresh (D : Digest) : length (replicate (A := Z) BLOCK 0) = BLOCK.
Proof. apply length_replicate. Qed.

Lemma fresh_absorbed (D : Digest) {L : DigestLaws D} m : absorbed (Write (fresh D) m) m.
Proof. apply (Write_absorbed _ []), New_absorbed, length_fresh. Qed.
Ltac absorbs := repeat first [apply fresh_absorbed, _ | apply Write_absorbed].

Lemma CHash256_spec sha m : absorbed sha m -> CHash256_Finalize sha = sha256d m.
Proof.
  intros Hs. apply finalized_absorbed in Hs. unfold CHash256_Finalize, sha256d.
  apply Finalize_digest. destruct (Hs) as (_ & Hst & _). rewrite Hst. fold (digest (D := CSHA256) m).
  apply (Write_absorbed _ []). by apply Reset_absorbed in Hs.
Qed.

Lemma CHash160_spec sha m : absorbed sha m -> CHash160_Finalize sha = hash160 m.
Proof. intros Hs. unfold CHash160_Finalize, hash160. apply Finalize_digest.
  rewrite (Finalize_digest sha m Hs). apply fresh_absorbed, _. Qed.

Lemma Hash_spec p : Hash p = sha256d p.
Proof. apply CHash256_spec. absorbs. Qed.
Lemma Hash2_spec p1 p2 : Hash2 p1 p2 = sha256d (p1 ++ p2).
Proof. apply CHash256_spec. absorbs. Qed.
Lemma Hash3_spec p1 p2 p3 : Hash3 p1 p2 p3 = sha256d (p1 ++ p2 ++ p3).
Proof. apply CHash256_spec. rewrite app_assoc. absorbs. Qed.
Lemma Hash160_spec p : Hash160 p = hash160 p.
Proof. apply CHash160_spec. absorbs. Qed.

(** The outputs are byte strings of fixed length. *)
Definition digest_ok (n : nat) (l : bytes) : Prop := bytes_ok l /\ length l = n.

Lemma output_app n m a b : digest_ok n a -> digest_ok m b -> digest_ok (n + m) (a ++ b).
Proof. intros [Ha Hla] [Hb Hlb]. split; [by apply Forall_app|rewrite length_app; lia]. Qed.

Lemma word_output_ok x : digest_ok 4 (WriteBE32 x) /\ digest_ok 4 (WriteLE32 x).
Proof.
  unfold WriteBE32, WriteLE32. split; (split; [|by rewrite ?length_rev, length_digits]).
  - apply Forall_rev, digits_ok. lia.
  - apply digits_ok. lia.
Qed.

Lemma digest_output (D : Digest) n : (forall w, digest_ok n (write_hash w)) -> forall m, digest_ok n (digest (D := D) m).
Proof. intros H m. apply H. Qed.

Lemma words8_output write s : (forall x, digest_ok 4 (write x)) -> digest_ok 32 (write_words8 write s).
Proof.
  intros H. destruct s as [[[[[[[a b] c] d] e] f] g] h]. unfold write_words8.
  repeat (apply (output_app 4); [done|]). done.
Qed.
Lemma words5_output write s : (forall x, digest_ok 4 (write x)) -> digest_ok 20 (write_words5 write s).
Proof.
  intros H. destruct s as [[[[a b] c] d] e]. unfold write_words5.
  repeat (apply (output_app 4); [done|]). done.
Qed.

Lemma sha256_output m : digest_ok 32 (digest (D := CSHA256) m).
Proof. apply digest_output. intros w. apply words8_output, word_output_ok. Qed.
Lemma sha1_output m : digest_ok 20 (digest (D := CSHA1) m).
Proof. apply digest_output. intros w. apply words5_output, word_output_ok. Qed.
Lemma ripemd160_output m : digest_ok 20 (digest (D := CRIPEMD160) m).
Proof. apply digest_output. intros w. apply words5_output. intros x. apply word_output_ok. Qed.
Lemma sha256d_output m : digest_ok 32 (sha256d m).
Proof. apply sha256_output. Qed.
Lemma hash160_output m : digest_ok 20 (hash160 m).
Proof. apply ripemd160_output. Qed.

Lemma xor_pads b : Z.lxor (Z.lxor b 0x5c) (Z.lxor 0x5c 0x36) = Z.lxor b 0x36.
Proof. by rewrite Z.lxor_assoc, <- (Z.lxor_assoc 0x5c), Z.lxor_nilpotent, Z.lxor_0_l. Qed.

Lemma CHMAC_writes (D : Digest) {L : DigestLaws D} OUT key chunks :
  CHMAC_Finalize D (fold_left (CHMAC_Write D) chunks (CHMAC D OUT key)) = hmac_rfc D OUT key (concat chunks).
Proof.
  assert (forall h, fold_left (CHMAC_Write D) chunks h = Hmac (outer h) (fold_left Write chunks (inner h))) as ->.
  { induction chunks as [|c chunks IH]; intros [o i]; [done|]. cbn [fold_left]. by rewrite IH. }
  unfold CHMAC_Finalize, hmac_rfc, CHMAC, hmac_key. cbn [outer inner].
  rewrite (Finalize_digest (Write (fresh D) key) key) by absorbs.
  set (k := if _ : bool then _ else _).
  rewrite map_map. erewrite (map_ext (fun x => Z.lxor (Z.lxor x 0x5c) _)) by (intros; apply xor_pads).
  apply Finalize_digest. erewrite (Finalize_digest (fold_left _ _ _)) by (apply writes_absorbed; absorbs). absorbs.
Qed.

(** ** SipHash *)

Local Ltac Zify.zify_post_hook ::= Z.to_euclidean_division_equations.

Lemma lor_lev l b : bytes_ok l -> 0 <= b ->
  Z.lor (lev 8 l) (Z.shiftl b (8 * length l)) = lev 8 (l ++ [b]).
Proof.
  intros Hl Hb. pose proof (lev_bound 8 ltac:(lia) l Hl). rewrite lev_app by lia. cbn [lev].
  rewrite Z.shiftl_mul_pow2, (lor_disjoint (8 * length l)) by lia. lia.
Qed.

Lemma GetUint64_spec val pos :
  bytes_ok val -> (pos * 8 + 8 <= length val)%nat -> GetUint64 val pos = ReadLE64 (drop (pos * 8) val).
Proof.
  intros Hv Hl. unfold GetUint64, ReadLE64. cbv zeta.
  assert (bytes_ok (drop (pos * 8) val)) as Hd by (by apply Forall_drop).
  assert (8 <= length (drop (pos * 8) val))%nat as Hld by (rewrite length_drop; lia).
  set (p := drop (pos * 8) val) in *. clearbody p.
  assert (forall i, (i < 8)%nat -> Z.lor (lev 8 (take i p)) (Z.shiftl (nth i p 0) (8 * i)) = lev 8 (take (S i) p)) as H.
  { intros i Hi. destruct (lookup_lt_is_Some_2 p i ltac:(lia)) as [b Hb].
    erewrite nth_lookup_Some by exact Hb. rewrite (take_S_r p i b Hb).
    rewrite <- lor_lev by (try (by apply Forall_take); destruct (Forall_lookup_1 _ _ _ _ Hd Hb); lia).
    by rewrite length_take, Nat.min_l by lia. }
  replace (nth 0 p 0) with (lev 8 (take 1 p)).
  2: { destruct p as [|b p]; [cbn in *; lia|]. change (take 1 (b :: p)) with [b]. cbn [lev nth]. lia. }
  cbn [seq fold_left]. rewrite !H by lia. done.
Qed.

(** The hasher has absorbed the bytes [m]. *)
Definition sip_absorbed (k0 k1 : Z) (h : CSipHasher) (m : bytes) : Prop :=
  exists q full rest, m = full ++ rest /\ length full = (8 * q)%nat /\ (length rest < 8)%nat
  /\ sip_v h = fold_left sip_compress (sip_words q full) (sip_init k0 k1)
  /\ sip_tmp h = lev 8 rest /\ sip_count h = length m.

Lemma sip_words_app q a b j : length a = (8 * q)%nat -> sip_words (q + j) (a ++ b) = sip_words q a ++ sip_words j b.
Proof.
  revert a. induction q as [|q IH]; intros a Ha; [by destruct a|].
  cbn [sip_words Nat.add app]. unfold ReadLE64. rewrite take_app_le, drop_app_le by lia. f_equal. apply IH.
  rewrite length_drop. lia.
Qed.

Lemma sip_byte_absorbed k0 k1 h m b :
  bytes_ok m -> uint 8 b -> sip_absorbed k0 k1 h m -> sip_absorbed k0 k1 (sip_byte h b) (m ++ [b]).
Proof.
  intros Hm Hb (q & full & rest & -> & Hfull & Hrest & Hv & Ht & Hc). apply Forall_app in Hm as [_ Hr].
  unfold sip_byte. rewrite Hv, Ht, Hc, length_app, Hfull.
  replace ((8 * q + length rest)%nat mod 8) with (Z.of_nat (length rest)) by lia.
  rewrite wrap_small. 2: { unfold uint in *. rewrite Z.shiftl_mul_pow2 by lia.
    assert (2 ^ (8 * length rest) <= 2 ^ 56) by (apply Z.pow_le_mono_r; lia). widths; nia. }
  rewrite lor_lev by (auto; destruct Hb; lia). change 7 with (Z.ones 3). rewrite Z.land_ones by lia.
  change (2 ^ 3) with 8. destruct (Z.eqb_spec (((8 * q + length rest)%nat + 1) mod 8) 0) as [H8|H8].
  - exists (q + 1)%nat, (full ++ rest ++ [b]), []. rewrite app_nil_r, app_assoc. cbn [sip_v sip_tmp sip_count].
    split_and!; [done|rewrite !length_app; cbn [length]; lia|cbn; lia| |done|rewrite !length_app; cbn [length]; lia].
    rewrite <- app_assoc, sip_words_app, fold_left_app by done. cbn [sip_words fold_left]. f_equal.
    unfold ReadLE64. rewrite take_ge by (rewrite length_app; cbn [length]; lia). done.
  - exists q, full, (rest ++ [b]). rewrite app_assoc. cbn [sip_v sip_tmp sip_count].
    split_and!; [done|done|rewrite length_app; cbn [length]; lia|done|done|rewrite !length_app; cbn [length]; lia].
Qed.

Lemma sip_Write_absorbed k0 k1 h m d :
  bytes_ok m -> bytes_ok d -> sip_absorbed k0 k1 h m -> sip_absorbed k0 k1 (sip_Write h d) (m ++ d).
Proof.
  unfold sip_Write. intros Hm Hd. revert h m Hm. induction Hd as [|b d Hb Hd IH]; intros h m Hm Hh; cbn [fold_left].
  - by rewrite app_nil_r.
  - change (b :: d) with ([b] ++ d). rewrite app_assoc. apply IH; [|by apply sip_byte_absorbed].
    apply Forall_app. split; [done|]. constructor; [done|constructor].
Qed.

Lemma sip_Write64_absorbed k0 k1 h m d :
  uint 64 d -> (length m mod 8 = 0)%nat -> sip_absorbed k0 k1 h m ->
  sip_absorbed k0 k1 (sip_Write64 h d) (m ++ digits 8 8 d).
Proof.
  intros Hd Hm (q & full & rest & -> & Hfull & Hrest & Hv & Ht & Hc).
  rewrite length_app, Hfull in Hm. apply (f_equal Z.of_nat) in Hm. rewrite Nat2Z.inj_mod in Hm.
  destruct rest; [|cbn [length] in *; lia].
  exists (q + 1)%nat, (full ++ digits 8 8 d), []. rewrite !app_nil_r in *.
  assert (length (digits 8 8 d) = 8%nat) as Hl by (by rewrite length_digits by lia).
  cbn [sip_Write64 sip_v sip_tmp sip_count]. split_and!; [done|rewrite !length_app; lia|cbn; lia| |done|rewrite Hc, !length_app; lia].
  rewrite sip_words_app, fold_left_app by done. cbn [sip_words fold_left]. rewrite Hv. f_equal.
  unfold ReadLE64. rewrite take_ge by lia. rewrite lev_digits, Z.mod_small by (exact Hd || lia). done.
Qed.

Lemma sip_new_absorbed k0 k1 : sip_absorbed k0 k1 (CSipHasher_new k0 k1) [].
Proof. exists 0%nat, [], []. split_and!; [done|done|cbn; lia|done..]. Qed.

Lemma sip_Finalize_spec k0 k1 h m : bytes_ok m -> sip_absorbed k0 k1 h m -> sip_Finalize h = siphash k0 k1 m.
Proof.
  intros Hm (q & full & rest & Hmr & Hfull & Hrest & Hv & Ht & Hc). unfold sip_Finalize, siphash. cbv zeta.
  assert (length m / 8 = q)%nat as ->.
  { rewrite Hmr, length_app, Hfull, Nat.mul_comm, Nat.div_add_l, Nat.div_small by lia. lia. }
  rewrite Hc, Hv, Ht. subst m. apply Forall_app in Hm as [_ Hr]. rewrite <- Hfull, drop_app_length.
  f_equal. rewrite <- (Nat.add_0_r q), sip_words_app by lia. rewrite Nat.add_0_r, app_nil_r. f_equal.
  pose proof (lev_bound 8 ltac:(lia) rest Hr).
  assert (2 ^ (8 * length rest) <= 2 ^ 56) by (apply Z.pow_le_mono_r; lia).
  unfold wrap. rewrite Z.shiftl_mul_pow2 by lia. change (2 ^ 64) with (256 * 2 ^ 56).
  rewrite Z.mul_mod_distr_r by lia. rewrite (lor_disjoint 56) by lia. done.
Qed.

Lemma SipHashUint256_writes k0 k1 val :
  SipHashUint256 k0 k1 val
  = sip_Finalize (fold_left sip_Write64 (map (GetUint64 val) (seq 0 4)) (CSipHasher_new k0 k1)).
Proof.
  unfold SipHashUint256, sip_Finalize, sip_finish, sip_compress. cbn [map seq fold_left sip_Write64 sip_v sip_tmp sip_count CSipHasher_new].
  unfold sip_compress. change (wrap 64 (Z.shiftl 4 59)) with (Z.lor 0 (wrap 64 (Z.shiftl (0 + 8 + 8 + 8 + 8) 56))).
  destruct (sip_init k0 k1) as [[[v0 v1] v2] v3].
  do 5 (destruct (SIPROUND (SIPROUND _)) as [[[? ?] ?] ?]). done.
Qed.

Lemma take8_digits p : bytes_ok p -> (8 <= length p)%nat -> digits 8 8 (ReadLE64 p) = take 8 p.
Proof.
  intros Hp Hl. unfold ReadLE64.
  rewrite <- (digits_lev 8 ltac:(lia) (take 8 p) (Forall_take _ 8 p Hp)) at 2.
  rewrite length_take, Nat.min_l by lia. done.
Qed.

Lemma sip_words_absorbed k0 k1 val n pos h :
  bytes_ok val -> length val = 32%nat -> (pos + n <= 4)%nat -> sip_absorbed k0 k1 h (take (pos * 8) val) ->
  sip_absorbed k0 k1 (fold_left sip_Write64 (map (GetUint64 val) (seq pos n)) h) (take ((pos + n) * 8) val).
Proof.
  intros Hv Hl. revert pos h. induction n as [|n IH]; intros pos h Hn Hh; cbn [seq map fold_left].
  - by rewrite Nat.add_0_r.
  - rewrite <- Nat.add_succ_comm. apply IH; [lia|].
    rewrite GetUint64_spec by (done || lia).
    replace (take (S pos * 8) val) with (take (pos * 8) val ++ take 8 (drop (pos * 8) val)).
    2: { rewrite take_take_drop. f_equal. lia. }
    rewrite <- take8_digits by (try (by apply Forall_drop); rewrite length_drop; lia).
    apply sip_Write64_absorbed; [|rewrite length_take, Nat.min_l by lia; by apply Nat.Div0.mod_mul|done].
    unfold ReadLE64. pose proof (lev_bound 8 ltac:(lia) _ (Forall_take _ 8 _ (Forall_drop _ (pos * 8) _ Hv))) as B.
    rewrite length_take, length_drop, Nat.min_l in B by lia. exact B.
Qed.

(** ** Properties *)

(** C30: whatever way the data is split over [Write] calls, and whatever the
    uninitialised block buffer holds, the hasher classes compute the
    Merkle-Damgard digest of the concatenated data, padded to whole blocks, and
    the double hashes are the composition of two such digests. *)
Theorem hashers_compute_digests buf64 buf128 chunks :
  length buf64 = 64%nat -> length buf128 = 128%nat ->
  Finalize (fold_left Write chunks (New (D := CSHA256) buf64)) = digest (D := CSHA256) (concat chunks)
  /\ Finalize (fold_left Write chunks (New (D := CSHA512) buf128)) = digest (D := CSHA512) (concat chunks)
  /\ Finalize (fold_left Write chunks (New (D := CSHA1) buf64)) = digest (D := CSHA1) (concat chunks)
  /\ Finalize (fold_left Write chunks (New (D := CRIPEMD160) buf64)) = digest (D := CRIPEMD160) (concat chunks)
  /\ CHash256_Finalize (fold_left Write chunks (New buf64)) = sha256d (concat chunks)
  /\ CHash160_Finalize (fold_left Write chunks (New buf64)) = hash160 (concat chunks)
  /\ tail_of (D := CSHA256) (padded (D := CSHA256) (concat chunks)) = [].
Proof.
  intros H64 H128.
  assert (absorbed (D := CSHA256) (fold_left Write chunks (New buf64)) (concat chunks)) as Habs
    by (by apply (writes_absorbed chunks _ []), New_absorbed).
  split; [by apply (stream_digest (D := CSHA256))|]. split; [by apply (stream_digest (D := CSHA512))|].
  split; [by apply (stream_digest (D := CSHA1))|]. split; [by apply (stream_digest (D := CRIPEMD160))|].
  split; [by apply CHash256_spec|]. split; [by apply CHash160_spec|]. apply padded_blocks.
Qed.

Lemma hashers_compute_digests_witness :
  CHash256_Finalize (fold_left Write [[1; 2]; [3]] (New (replicate 64 255))) = sha256d [1; 2; 3].
Proof. apply (hashers_compute_digests (replicate 64 255) (replicate 128 7) [[1; 2]; [3]]); reflexivity. Defined.

(** The HMAC classes compute the keyed hash of RFC 2104 over the
    concatenation of what was written, for keys shorter and longer than a
    block, and [BIP32Hash] is the HMAC-SHA512 of header, data and child index. *)
Theorem hmac_is_rfc2104 key chunks chainCode nChild header data :
  uint 32 nChild ->
  CHMAC_Finalize _ (fold_left (CHMAC_Write _) chunks (CHMAC_SHA256 key)) = hmac_rfc CSHA256 32 key (concat chunks)
  /\ CHMAC_Finalize _ (fold_left (CHMAC_Write _) chunks (CHMAC_SHA512 key)) = hmac_rfc CSHA512 64 key (concat chunks)
  /\ BIP32Hash chainCode nChild header data
     = hmac_rfc CSHA512 64 chainCode ([header] ++ data ++ WriteBE32 nChild).
Proof.
  intros Hn. split_and!; [apply CHMAC_writes, _..|]. unfold BIP32Hash.
  pose proof (CHMAC_writes CSHA512 64 chainCode [[header]; data; WriteBE32 nChild]) as H.
  cbn [fold_left concat] in H. rewrite app_nil_r in H. rewrite <- H. do 3 f_equal.
  unfold WriteBE32. cbn [digits rev app]. change 0xFF with (Z.ones 8).
  rewrite !Z.land_ones, !Z.shiftr_div_pow2, !Z.div_div by lia. by rewrite Z.div_1_r.
Qed.

Lemma hmac_is_rfc2104_witness :
  BIP32Hash (replicate 32 1) 7 0 [5] = hmac_rfc CSHA512 64 (replicate 32 1) ([0] ++ [5] ++ WriteBE32 7).
Proof. apply (hmac_is_rfc2104 [] [] (replicate 32 1) 7 0 [5]). by split. Defined.

(** SipHash over byte and word writes in any split is SipHash-2-4 of the
    concatenated bytes, a word counting as its eight little-endian bytes, and
    the specialised [SipHashUint256] is the same function of the 32 bytes. *)
Theorem siphash_stream k0 k1 chunks word val :
  Forall bytes_ok chunks -> uint 64 word -> bytes_ok val -> length val = 32%nat ->
  sip_Finalize (fold_left sip_Write chunks (CSipHasher_new k0 k1)) = siphash k0 k1 (concat chunks)
  /\ ((length (concat chunks) mod 8 = 0)%nat ->
      sip_Finalize (sip_Write64 (fold_left sip_Write chunks (CSipHasher_new k0 k1)) word)
      = siphash k0 k1 (concat chunks ++ WriteLE64 word))
  /\ SipHashUint256 k0 k1 val = siphash k0 k1 val.
Proof.
  intros Hc Hw Hv Hl.
  assert (forall h m, bytes_ok m -> sip_absorbed k0 k1 h m ->
            sip_absorbed k0 k1 (fold_left sip_Write chunks h) (m ++ concat chunks)) as Habs.
  { induction Hc as [|c chunks Hc Hcs IH]; intros h m Hm Hh; cbn [fold_left concat]; [by rewrite app_nil_r|].
    rewrite app_assoc. apply IH; [by apply Forall_app|by apply sip_Write_absorbed]. }
  specialize (Habs _ [] (Forall_nil_2 _) (sip_new_absorbed k0 k1)). cbn [app] in Habs.
  assert (bytes_ok (concat chunks)) as Hcc by (by apply Forall_concat).
  split_and!.
  - by apply sip_Finalize_spec.
  - intros H8. apply sip_Finalize_spec; [|by apply sip_Write64_absorbed]. apply Forall_app; split; [done|].
    apply digits_ok. lia.
  - rewrite SipHashUint256_writes. apply sip_Finalize_spec; [done|].
    pose proof (sip_words_absorbed k0 k1 val 4 0 _ Hv Hl ltac:(lia) (sip_new_absorbed k0 k1)) as H.
    rewrite take_ge in H by lia. exact H.
Qed.

Lemma siphash_stream_witness :
  SipHashUint256 1 2 (replicate 32 3) = siphash 1 2 (replicate 32 3).
Proof.
  apply (siphash_stream 1 2 [] 0 (replicate 32 3)); [constructor|by split| |reflexivity].
  by apply Forall_replicate.
Defined.
