(* ===== verification/Amount.v ===== *)
(** * Amounts (src/amount.h, amount.cpp, utilmoneystr.cpp)

    Amounts are signed 64-bit numbers of zatoshis. This file models the money
    range, fee rates with their mixed signed and unsigned arithmetic, and the
    printing and parsing of amounts. Strings are lists of character codes,
    [%d] and [%08d] of the format library are [dec] and [dec8]. *)

From S2P Require Import Prelude.
Local Open Scope Z_scope.
Local Open Scope code_scope.

(** ** Definitions *)

Definition COIN : Z := 100000000.
Definition CENT : Z := 1000000.
Definition MAX_MONEY : Z := 21000000000 * COIN.
Definition MoneyRange (nValue : Z) : bool := (0 <=? nValue) && (nValue <=? MAX_MONEY).

Definition DEFAULT_FEE : Z := 1000.

Record CFeeRate := FeeRate { nSatoshisPerK : Z }.

(** [nFeePaid*1000/nSize]: the product is an [int64_t], the quotient unsigned. *)
Definition CFeeRate_new (nFeePaid nSize : Z) : CFeeRate :=
  if 0 <? nSize then FeeRate (to_i64 (to_u64 (to_i64 (nFeePaid * 1000)) / nSize)) else FeeRate 0.

(** [nSatoshisPerK*nSize / 1000] is unsigned 64-bit arithmetic. *)
Definition GetFee (r : CFeeRate) (nSize : Z) : Z :=
  let nFee := to_i64 (to_u64 (nSatoshisPerK r * nSize) / 1000) in
  if (nFee =? 0) && (0 <? nSatoshisPerK r) then nSatoshisPerK r else nFee.
Definition GetFeeForRelay (r : CFeeRate) (nSize : Z) : Z := Z.min (GetFee r nSize) DEFAULT_FEE.
Definition GetFeePerK (r : CFeeRate) : Z := GetFee r 1000.

(** *** Printing and parsing *)

Definition isdigit (c : Z) : bool := (48 <=? c) && (c <=? 57).
Definition isspace (c : Z) : bool := (c =? 32) || ((9 <=? c) && (c <=? 13)).

(** The decimal digits of a non-negative number below [10 ^ fuel]. *)
Fixpoint dec_aux (fuel : nat) (n : Z) : list Z :=
  match fuel with
  | O => []
  | S fuel => (if n <? 10 then [] else dec_aux fuel (n / 10)) ++ [48 + n mod 10]
  end.
Definition dec (n : Z) : list Z := dec_aux 20 n.
Fixpoint dec_width (width : nat) (n : Z) : list Z :=
  match width with O => [] | S k => dec_width k (n / 10) ++ [48 + n mod 10] end.
Definition dec8 : Z -> list Z := dec_width 8.

(** [for (i = str.size()-1; str[i] == '0' && isdigit(str[i-2]); --i) ++nTrim] *)
Fixpoint count_trim (fuel : nat) (str : list Z) (i : Z) : nat :=
  match fuel with
  | O => 0
  | S fuel =>
      if (nth (Z.to_nat i) str 0 =? 48) && isdigit (nth (Z.to_nat (i - 2)) str 0)
      then S (count_trim fuel str (i - 1)) else 0
  end.

Definition FormatMoney (n : Z) : list Z :=
  let n_abs := if 0 <? n then n else - n in
  let quotient := n_abs / COIN in
  let remainder := n_abs mod COIN in
  let str := dec quotient ++ [46] ++ dec8 remainder in
  let nTrim := count_trim (length str) str (length str - 1) in
  let str := take (length str - nTrim) str in
  if n <? 0 then 45 :: str else str.

(** The digits after the point: [nUnits += nMult * (c - '0'); nMult /= 10;] while [nMult > 0]. *)
Fixpoint parse_units (p : list Z) (nUnits nMult : Z) : Z * list Z :=
  match p with
  | c :: p' => if isdigit c && (0 <? nMult) then parse_units p' (nUnits + nMult * (c - 48)) (nMult / 10)
               else (nUnits, p)
  | [] => (nUnits, [])
  end.

(** The main loop: the digits before the point, the units after it, and what
    is left; [None] is [return false]. *)
Fixpoint parse_whole (p strWhole : list Z) : option (list Z * Z * list Z) :=
  match p with
  | [] => Some (strWhole, 0, [])
  | c :: p' =>
      if c =? 46 then let '(nUnits, p') := parse_units p' 0 (CENT * 10) in Some (strWhole, nUnits, p')
      else if isspace c then Some (strWhole, 0, p)
      else if negb (isdigit c) then None
      else parse_whole p' (strWhole ++ [c])
  end.

Fixpoint skip_spaces (p : list Z) : list Z :=
  match p with c :: p' => if isspace c then skip_spaces p' else p | [] => [] end.

(** [strtoll] of a string of digits. *)
Definition atoi64 (digits : list Z) : Z := fold_left (fun a c => 10 * a + (c - 48)) digits 0.

Definition ParseMoney (pszIn : list Z) : option Z :=
  match parse_whole (skip_spaces pszIn) [] with
  | None => None
  | Some (strWhole, nUnits, p) =>
      if negb (forallb isspace p) then None
      else if (10 <? length strWhole)%nat then None
      else if (nUnits <? 0) || (COIN <? nUnits) then None
      else Some (to_i64 (to_i64 (atoi64 strWhole * COIN) + nUnits))
  end.

(** ** Decimal numerals *)

Lemma atoi64_app ds c : atoi64 (ds ++ [c]) = 10 * atoi64 ds + (c - 48).
Proof. unfold atoi64. by rewrite fold_left_app. Qed.

Lemma atoi64_zeros ds (n : nat) : atoi64 (ds ++ replicate n 48) = atoi64 ds * 10 ^ n.
Proof.
  induction n as [|n IH]; [by rewrite app_nil_r, Z.mul_1_r|].
  rewrite replicate_S_end, app_assoc, atoi64_app, IH, Nat2Z.inj_succ, Z.pow_succ_r by lia. lia.
Qed.

Lemma digit_mod10 n : isdigit (48 + n mod 10) = true.
Proof. unfold isdigit. pose proof (Z.mod_pos_bound n 10 ltac:(lia)). lia. Qed.

Lemma dec_aux_spec (fuel : nat) n :
  0 <= n < 10 ^ fuel ->
  Forall (fun c => isdigit c = true) (dec_aux fuel n) /\ atoi64 (dec_aux fuel n) = n
  /\ (forall k : nat, (0 < k)%nat -> n < 10 ^ k <-> (length (dec_aux fuel n) <= k)%nat)
  /\ ((0 < fuel)%nat -> exists c l, dec_aux fuel n = c :: l).
Proof.
  revert n. induction fuel as [|fuel IH]; intros n Hn; cbn [dec_aux].
  - change (10 ^ 0%nat) with 1 in Hn. assert (n = 0) as -> by lia. split_and!; [constructor|done| |lia].
    intros k Hk. split; [cbn; lia|]. intros _. apply Z.pow_pos_nonneg; lia.
  - rewrite Nat2Z.inj_succ, Z.pow_succ_r in Hn by lia.
    pose proof (Z.div_mod n 10 ltac:(lia)) as Hdm. pose proof (Z.mod_pos_bound n 10 ltac:(lia)) as Hm.
    destruct (Z.ltb_spec n 10) as [Hlt|Hge].
    + cbn [app]. split_and!.
      * repeat constructor. apply digit_mod10.
      * unfold atoi64. cbn [fold_left]. lia.
      * intros k Hk. split; [cbn; lia|]. intros _. apply (Z.lt_le_trans _ (10 ^ 1)); [lia|]. apply Z.pow_le_mono_r; lia.
      * eauto.
    + destruct (IH (n / 10)) as (Hd & Hv & Hl & Hne); [lia|]. split_and!.
      * apply Forall_app; split; [done|]. repeat constructor. apply digit_mod10.
      * rewrite atoi64_app, Hv. lia.
      * intros k Hk. rewrite length_app. cbn [length]. destruct k as [|[|k]]; [lia| |].
        -- change (10 ^ 1%nat) with 10. destruct fuel; [cbn in *; lia|]. destruct (Hne ltac:(lia)) as (c & l & ->). cbn. lia.
        -- rewrite (Nat2Z.inj_succ (S k)), Z.pow_succ_r by lia. specialize (Hl (S k) ltac:(lia)). lia.
      * intros _. destruct (dec_aux fuel (n / 10)); eauto.
Qed.

Lemma dec_width_spec (k : nat) n :
  0 <= n < 10 ^ k ->
  Forall (fun c => isdigit c = true) (dec_width k n) /\ atoi64 (dec_width k n) = n /\ length (dec_width k n) = k.
Proof.
  revert n. induction k as [|k IH]; intros n Hn; cbn [dec_width].
  - change (10 ^ 0%nat) with 1 in Hn. split_and!; [constructor|cbn; lia|done].
  - rewrite Nat2Z.inj_succ, Z.pow_succ_r in Hn by lia.
    pose proof (Z.div_mod n 10 ltac:(lia)) as Hdm. pose proof (Z.mod_pos_bound n 10 ltac:(lia)) as Hm.
    destruct (IH (n / 10)) as (Hd & Hv & Hl); [lia|]. split_and!.
    + apply Forall_app; split; [done|]. repeat constructor. apply digit_mod10.
    + rewrite atoi64_app, Hv. lia.
    + rewrite length_app, Hl. cbn. lia.
Qed.

(** ** Printing *)

Section trim.
Context (q w : list Z) (Hw : length w = 8%nat).
Local Abbreviation str := (q ++ [46] ++ w).

Lemma str_nth j : (j < 8)%nat -> nth (length q + 1 + j) str 0 = nth j w 0.
Proof. intros Hj. rewrite app_nth2, app_nth2 by (cbn; lia). f_equal. cbn. lia. Qed.

(** Zeros are trimmed, but never the first two decimals. *)
Lemma count_trim_spec fuel (j : nat) :
  (1 <= j < 8)%nat ->
  let t := count_trim fuel str (length q + 1 + j) in
  (t + 1 <= j)%nat /\ forall m, (j - t < m <= j)%nat -> nth m w 0 = 48.
Proof.
  revert j. induction fuel as [|fuel IH]; intros j Hj; cbn [count_trim]; [split; lia|].
  replace (Z.to_nat (length q + 1 + j)) with (length q + 1 + j)%nat by lia. rewrite str_nth by lia.
  destruct (Z.eqb_spec (nth j w 0) 48) as [E|_]; cbn [andb]; [|split; lia].
  destruct (decide (j = 1%nat)) as [->|Hj1].
  - replace (Z.to_nat (length q + 1 + 1%nat - 2)) with (length q) by lia.
    rewrite app_nth2, Nat.sub_diag by lia. cbn. split; lia.
  - case_match; [|split; lia]. specialize (IH (j - 1)%nat ltac:(lia)).
    replace (length q + 1 + j - 1) with (length q + 1 + (j - 1)%nat) by lia.
    destruct IH as [IH1 IH2]. split; [lia|]. intros m Hm. destruct (decide (m = j)) as [->|]; [done|]. apply IH2. lia.
Qed.

Lemma trimmed_spec :
  exists t, (t <= 6)%nat
  /\ take (length str - count_trim (length str) str (length str - 1)) str = q ++ [46] ++ take (8 - t) w
  /\ take (8 - t) w ++ replicate t 48 = w.
Proof.
  pose proof (count_trim_spec (length str) 7 ltac:(lia)) as [H1 H2].
  replace (length q + 1 + 7%nat) with (length str - 1) in * by (rewrite !length_app, Hw; cbn; lia).
  set (t := count_trim _ _ _) in *. exists t. split_and!; [lia| |].
  - rewrite !length_app, Hw. cbn [length]. rewrite take_app_ge, take_app_ge by (cbn; lia).
    do 3 f_equal. cbn [length]. lia.
  - rewrite <- (take_drop (8 - t) w) at 2. f_equal. symmetry. apply list_eq_same_length with t.
    { by rewrite length_replicate. }
    { rewrite length_drop. lia. }
    intros i x y Hi. rewrite lookup_drop. intros Hx Hy. apply lookup_replicate in Hy as [-> _].
    apply (nth_lookup_Some _ _ 0) in Hx. rewrite <- Hx. apply H2. lia.
Qed.
End trim.

(** ** Parsing *)

Lemma digit_plain c : isdigit c = true -> (c =? 46) = false /\ isspace c = false.
Proof. unfold isdigit, isspace. lia. Qed.

Lemma atoi64_cons c ds : atoi64 (c :: ds) = (c - 48) * 10 ^ length ds + atoi64 ds.
Proof.
  induction ds as [|d ds IH] using rev_ind; [cbn; lia|].
  change (c :: ds ++ [d]) with ((c :: ds) ++ [d]). rewrite !atoi64_app, IH, length_app, Nat2Z.inj_add, Z.pow_add_r by lia.
  change (10 ^ length [d]) with 10. lia.
Qed.

Lemma parse_units_spec ds (m : nat) u :
  Forall (fun c => isdigit c = true) ds -> (length ds <= m)%nat ->
  parse_units ds u (10 ^ m / 10) = (u + atoi64 ds * 10 ^ (m - length ds)%nat, []).
Proof.
  intros Hd. revert m u. induction Hd as [|c ds Hc Hd IH]; intros m u Hm.
  - cbn. f_equal. lia.
  - destruct m as [|m]; [cbn in *; lia|]. cbn [length parse_units] in *. rewrite Hc.
    assert (10 ^ S m / 10 = 10 ^ m) as -> by (rewrite Nat2Z.inj_succ, Z.pow_succ_r, Z.mul_comm by lia; apply Z.div_mul; lia).
    destruct (Z.ltb_spec 0 (10 ^ m)); [|assert (0 < 10 ^ m) by (apply Z.pow_pos_nonneg; lia); lia].
    cbn [andb]. rewrite IH by lia. f_equal. rewrite atoi64_cons, Nat.sub_succ.
    assert (10 ^ m = 10 ^ length ds * 10 ^ (m - length ds)%nat) as -> by (rewrite <- Z.pow_add_r by lia; f_equal; lia).
    lia.
Qed.

Lemma parse_whole_spec ds rest acc :
  Forall (fun c => isdigit c = true) ds ->
  parse_whole (ds ++ 46 :: rest) acc = let '(u, p) := parse_units rest 0 (CENT * 10) in Some (acc ++ ds, u, p).
Proof.
  intros Hd. revert acc. induction Hd as [|c ds Hc Hd IH]; intros acc; cbn [app parse_whole].
  - rewrite Z.eqb_refl. destruct (parse_units _ _ _). by rewrite app_nil_r.
  - destruct (digit_plain c Hc) as [-> ->]. rewrite Hc. cbn [negb]. rewrite IH. destruct (parse_units _ _ _).
    by rewrite <- app_assoc.
Qed.

(** What [ParseMoney] makes of an amount printed by [FormatMoney]. *)
Lemma ParseMoney_printed n :
  0 <= n <= MAX_MONEY ->
  ParseMoney (FormatMoney n) = if n <? 10 ^ 10 * COIN then Some n else None.
Proof.
  unfold MAX_MONEY, COIN. intros Hn. unfold FormatMoney, COIN.
  destruct (Z.ltb_spec n 0); [lia|]. replace (if 0 <? n then n else - n) with n by (destruct (Z.ltb_spec 0 n); lia).
  pose proof (Z.div_mod n 100000000 ltac:(lia)) as Hdm. pose proof (Z.mod_pos_bound n 100000000 ltac:(lia)) as Hm.
  destruct (dec_aux_spec 20 (n / 100000000)) as (Hqd & Hqv & Hql & Hqn); [cbn; lia|].
  destruct (dec_width_spec 8 (n mod 100000000)) as (Hrd & Hrv & Hrl); [cbn; lia|]. fold (dec (n / 100000000)) in *. fold dec8 in *.
  destruct (trimmed_spec (dec (n / 100000000)) (dec8 (n mod 100000000)) Hrl) as (t & Ht & -> & Hw).
  set (q := dec _) in *. set (w := take (8 - t) _) in *. unfold ParseMoney.
  assert (skip_spaces (q ++ [46] ++ w) = q ++ [46] ++ w) as ->.
  { destruct (Hqn ltac:(lia)) as (c & l & Eq). rewrite Eq in Hqd |- *. cbn [app skip_spaces].
    inversion_clear Hqd as [|? ? Hc _]. by destruct (digit_plain c Hc) as [_ ->]. }
  change ([46] ++ w) with (46 :: w). rewrite parse_whole_spec by done. change (CENT * 10) with (10 ^ 8%nat / 10).
  assert (length w = (8 - t)%nat) as Hlw by (unfold w; rewrite length_take; lia).
  rewrite parse_units_spec by (try (by apply Forall_take); lia). cbn [app forallb negb].
  assert (0 + atoi64 w * 10 ^ (8 - length w)%nat = n mod 100000000) as ->.
  { rewrite Hlw. replace (8 - (8 - t))%nat with t by lia. rewrite <- atoi64_zeros, Hw, Z.add_0_l. exact Hrv. }
  specialize (Hql 10%nat ltac:(lia)). change (10 ^ 10%nat) with (10 ^ 10) in Hql. unfold COIN.
  destruct (Nat.ltb_spec 10 (length q)), (Z.ltb_spec n (10 ^ 10 * 100000000)); try done; [lia| |lia].
  destruct (Z.ltb_spec (n mod 100000000) 0); [lia|]. destruct (Z.ltb_spec 100000000 (n mod 100000000)); [lia|].
  cbn [orb]. rewrite Hqv, (swrap_small 64 (_ * _)), swrap_small by (lia || solve_uint). f_equal. lia.
Qed.

Lemma GetFee_spec r nSize :
  0 <= nSatoshisPerK r -> 0 <= nSize -> nSatoshisPerK r * nSize < 2 ^ 63 ->
  GetFee r nSize = (if (nSatoshisPerK r * nSize <? 1000) then nSatoshisPerK r
                    else nSatoshisPerK r * nSize / 1000).
Proof.
  intros Hr Hs Hb. unfold GetFee. set (k := nSatoshisPerK r) in *. assert (0 <= k * nSize) by nia.
  rewrite wrap_small by solve_uint.
  pose proof (Z.div_mod (k * nSize) 1000 ltac:(lia)). pose proof (Z.mod_pos_bound (k * nSize) 1000 ltac:(lia)).
  rewrite swrap_small by (unfold sint; cbn; lia).
  destruct (Z.ltb_spec (k * nSize) 1000).
  - replace (k * nSize / 1000) with 0 by lia. cbn [Z.eqb andb]. destruct (Z.ltb_spec 0 k); lia.
  - destruct (Z.eqb_spec (k * nSize / 1000) 0); [lia|done].
Qed.

(** ** Properties *)

(** C31: printing an amount and parsing the result gives the amount back below
    ten thousand million coins; from there up to [MAX_MONEY] the printed
    amount has an eleventh digit before the point and is rejected. *)
Theorem money_string_roundtrip n :
  (0 <= n < 10 ^ 10 * COIN -> ParseMoney (FormatMoney n) = Some n)
  /\ (10 ^ 10 * COIN <= n <= MAX_MONEY -> MoneyRange n = true /\ ParseMoney (FormatMoney n) = None).
Proof.
  split; intros Hn.
  - rewrite ParseMoney_printed by (unfold MAX_MONEY, COIN in *; lia). destruct (Z.ltb_spec n (10 ^ 10 * COIN)); [done|lia].
  - split; [unfold MoneyRange, MAX_MONEY, COIN in *; lia|]. rewrite ParseMoney_printed by (unfold MAX_MONEY, COIN in *; lia).
    destruct (Z.ltb_spec n (10 ^ 10 * COIN)); [lia|done].
Qed.

Lemma money_string_roundtrip_witness :
  ParseMoney (FormatMoney 123450000) = Some 123450000 /\ ParseMoney (FormatMoney MAX_MONEY) = None.
Proof.
  split.
  - apply (money_string_roundtrip 123450000). unfold COIN. lia.
  - apply (money_string_roundtrip MAX_MONEY). unfold MAX_MONEY, COIN. lia.
Defined.
