(* ===== verification/Transaction.v ===== *)
(** * Transactions and blocks (src/primitives/transaction.h, .cpp, block.h, zcash/Proof.hpp)

    The data of the chain as records, a [uint256] being its 32 bytes, and the
    serialization of each class as a codec that follows its
    [SerializationOp] field by field: the transaction header packs the
    overwintered flag with the version, and the version decides which of the
    later fields are present and which proof system the JoinSplits use.

    [CTransaction] is [CMutableTransaction] with a cached hash; its
    constructors are modelled one by one. *)

From S2P Require Import Prelude Serialize Digest Sha Hash Amount.
Local Open Scope Z_scope.
Local Open Scope code_scope.

(** ** Definitions *)

Declare Scope codec_scope.
Delimit Scope codec_scope with codec.
(** Two fields in sequence. *)
Notation "a >> b" := (seq_codec a (fun _ => b)) (at level 60, right associativity) : codec_scope.
Local Open Scope codec_scope.

Definition uint256_codec : codec bytes := flat_codec 32.
Definition null256 : bytes := replicate 32 0.

(** [sizeof] of the classes kept in vectors (LP64), which sets how many
    elements a vector grows by while it is read. *)
Definition sizeof_CTxIn : Z := 72.
Definition sizeof_CTxOut : Z := 40.
Definition sizeof_SpendDescription : Z := 384.
Definition sizeof_OutputDescription : Z := 948.
Definition sizeof_JSDescription : Z := 1808.
Definition sizeof_CTransaction : Z := 344.
Definition vector_of {A} (sizeof : Z) (c : codec A) : codec (list A) := vector_codec (5000000 / sizeof) c.

(** *** Consensus constants *)

Definition SPROUT_MIN_TX_VERSION : Z := 1.
Definition OVERWINTER_MIN_TX_VERSION : Z := 3.
Definition OVERWINTER_MAX_TX_VERSION : Z := 3.
Definition SAPLING_MIN_TX_VERSION : Z := 4.
Definition SAPLING_MAX_TX_VERSION : Z := 4.
Definition TX_EXPIRY_HEIGHT_THRESHOLD : Z := 500000000.
Definition OVERWINTER_TX_VERSION : Z := 3.
Definition SAPLING_TX_VERSION : Z := 4.
Definition OVERWINTER_VERSION_GROUP_ID : Z := 0x03C48270.
Definition SAPLING_VERSION_GROUP_ID : Z := 0x892F2085.

(** *** Inputs and outputs *)

Record COutPoint := OutPoint { op_hash : bytes; op_n : Z }.
Definition outpoint_codec : codec COutPoint :=
  struct_codec (uint256_codec >> u32_codec) (fun o => (op_hash o, op_n o)) (fun '(h, n) => OutPoint h n).
Definition outpoint_null : COutPoint := OutPoint null256 (to_u32 (-1)).
Definition outpoint_IsNull (o : COutPoint) : bool := bool_decide (op_hash o = null256) && (op_n o =? to_u32 (-1)).

#[export] Instance COutPoint_eq_dec : EqDecision COutPoint.
Proof. solve_decision. Defined.

Record CTxIn := TxIn { prevout : COutPoint; scriptSig : bytes; nSequence : Z }.
Definition txin_codec : codec CTxIn :=
  struct_codec (outpoint_codec >> bytes_vec_codec >> u32_codec)
    (fun i => (prevout i, (scriptSig i, nSequence i))) (fun '(p, (s, n)) => TxIn p s n).
Definition IsFinal (i : CTxIn) : bool := nSequence i =? 0xFFFFFFFF.

Record CTxOut := TxOut { nValue : Z; scriptPubKey : bytes }.
Definition txout_codec : codec CTxOut :=
  struct_codec (i64_codec >> bytes_vec_codec) (fun o => (nValue o, scriptPubKey o)) (fun '(v, s) => TxOut v s).
Definition txout_null : CTxOut := TxOut (-1) [].
Definition txout_IsNull (o : CTxOut) : bool := nValue o =? -1.

#[export] Instance CTxIn_eq_dec : EqDecision CTxIn.
Proof. solve_decision. Defined.
#[export] Instance CTxOut_eq_dec : EqDecision CTxOut.
Proof. solve_decision. Defined.

(** *** Shielded parts *)

Record SpendDescription := Spend {
  sd_cv : bytes; sd_anchor : bytes; sd_nullifier : bytes; sd_rk : bytes;
  sd_zkproof : bytes; sd_spendAuthSig : bytes }.
Definition GROTH_PROOF_SIZE : nat := 48 + 96 + 48.
Definition spend_codec : codec SpendDescription :=
  struct_codec (uint256_codec >> uint256_codec >> uint256_codec >> uint256_codec
                >> flat_codec GROTH_PROOF_SIZE >> flat_codec 64)
    (fun d => (sd_cv d, (sd_anchor d, (sd_nullifier d, (sd_rk d, (sd_zkproof d, sd_spendAuthSig d))))))
    (fun '(a, (b, (c, (d, (e, f))))) => Spend a b c d e f).

(** [ZC_SAPLING_ENCCIPHERTEXT_SIZE] and [ZC_SAPLING_OUTCIPHERTEXT_SIZE]. *)
Definition ENCCIPHERTEXT_SIZE : nat := (1 + 11 + 8 + 32 + 512) + 16.
Definition OUTCIPHERTEXT_SIZE : nat := (32 + 32) + 16.
Record OutputDescription := Output {
  od_cv : bytes; od_cmu : bytes; od_ephemeralKey : bytes;
  od_encCiphertext : bytes; od_outCiphertext : bytes; od_zkproof : bytes }.
Definition output_codec : codec OutputDescription :=
  struct_codec (uint256_codec >> uint256_codec >> uint256_codec >> flat_codec ENCCIPHERTEXT_SIZE
                >> flat_codec OUTCIPHERTEXT_SIZE >> flat_codec GROTH_PROOF_SIZE)
    (fun d => (od_cv d, (od_cmu d, (od_ephemeralKey d, (od_encCiphertext d, (od_outCiphertext d, od_zkproof d))))))
    (fun '(a, (b, (c, (d, (e, f))))) => Output a b c d e f).

(** A compressed point: a leading byte that carries one bit of [y], and [x]. *)
Definition G1_PREFIX_MASK : Z := 0x02.
Definition G2_PREFIX_MASK : Z := 0x0a.
Record Compressed := CompressedPoint { cp_y : bool; cp_x : bytes }.
Definition compressed_codec (mask : Z) (size : nat) : codec Compressed :=
  Codec (fun p =>
           let leadingByte := if cp_y p then Z.lor mask 1 else mask in
           require Z.land leadingByte (to_u8 (Z.lnot 1)) =? mask orelse InvalidData in
           Ok (ser_writedata8 leadingByte ++ cp_x p))
        (fun s =>
           let* (leadingByte, s) := ser_readdata8 s in
           require Z.land leadingByte (to_u8 (Z.lnot 1)) =? mask orelse InvalidData in
           let* (x, s) := read size s in
           Ok (CompressedPoint (negb (Z.land leadingByte 1 =? 0)) x, s)).
Definition g1_codec : codec Compressed := compressed_codec G1_PREFIX_MASK 32.
Definition g2_codec : codec Compressed := compressed_codec G2_PREFIX_MASK 64.

Record PHGRProof := Phgr {
  g_A : Compressed; g_A_prime : Compressed; g_B : Compressed; g_B_prime : Compressed;
  g_C : Compressed; g_C_prime : Compressed; g_K : Compressed; g_H : Compressed }.
Definition phgr_codec : codec PHGRProof :=
  struct_codec (g1_codec >> g1_codec >> g2_codec >> g1_codec >> g1_codec >> g1_codec >> g1_codec >> g1_codec)
    (fun p => (g_A p, (g_A_prime p, (g_B p, (g_B_prime p, (g_C p, (g_C_prime p, (g_K p, g_H p))))))))
    (fun '(a, (b, (c, (d, (e, (f, (g, h))))))) => Phgr a b c d e f g h).

(** [std::variant<PHGRProof, GrothProof>], read and written as the
    transaction format prescribes. *)
Inductive SproutProof := PHGR (p : PHGRProof) | Groth (p : bytes).
Definition sprout_proof_codec (useGroth : bool) : codec SproutProof :=
  Codec (fun proof =>
           match proof with
           | PHGR p => if useGroth then Err InvalidSproutProof else Serialize phgr_codec p
           | Groth p => if negb useGroth then Err InvalidSproutProof
                        else Serialize (flat_codec GROTH_PROOF_SIZE) p
           end)
        (fun s =>
           if useGroth then let* (p, s) := Unserialize (flat_codec GROTH_PROOF_SIZE) s in Ok (Groth p, s)
           else let* (p, s) := Unserialize phgr_codec s in Ok (PHGR p, s)).

Definition ZC_NUM_JS : nat := 2.
Definition JS_CIPHERTEXT_SIZE : nat := (1 + 8 + 32 + 32 + 512) + 16.
Record JSDescription := JS {
  vpub_old : Z; vpub_new : Z; js_anchor : bytes; js_nullifiers : list bytes; js_commitments : list bytes;
  js_ephemeralKey : bytes; js_randomSeed : bytes; js_macs : list bytes; js_proof : SproutProof;
  js_ciphertexts : list bytes }.
(** [nVersion] is the stream version that the transaction sets to its header. *)
Definition js_codec (nVersion : Z) : codec JSDescription :=
  let fOverwintered := negb (Z.shiftr (to_i32 nVersion) 31 =? 0) in
  let txVersion := Z.land nVersion 0x7FFFFFFF in
  let useGroth := fOverwintered && (SAPLING_TX_VERSION <=? txVersion) in
  struct_codec (i64_codec >> i64_codec >> uint256_codec >> array_codec ZC_NUM_JS uint256_codec
                >> array_codec ZC_NUM_JS uint256_codec >> uint256_codec >> uint256_codec
                >> array_codec ZC_NUM_JS uint256_codec >> sprout_proof_codec useGroth
                >> array_codec ZC_NUM_JS (flat_codec JS_CIPHERTEXT_SIZE))
    (fun j => (vpub_old j, (vpub_new j, (js_anchor j, (js_nullifiers j, (js_commitments j,
              (js_ephemeralKey j, (js_randomSeed j, (js_macs j, (js_proof j, js_ciphertexts j))))))))))
    (fun '(a, (b, (c, (d, (e, (f, (g, (h, (i, k))))))))) => JS a b c d e f g h i k).

(** *** Transactions *)

Record CMutableTransaction := MutableTransaction {
  fOverwintered : bool; nVersion : Z; nVersionGroupId : Z;
  vin : list CTxIn; vout : list CTxOut; nLockTime : Z; nExpiryHeight : Z; valueBalance : Z;
  vShieldedSpend : list SpendDescription; vShieldedOutput : list OutputDescription;
  vJoinSplit : list JSDescription; joinSplitPubKey : bytes; joinSplitSig : bytes; bindingSig : bytes }.

(** [CMutableTransaction()], also the state of [CTransaction()]. *)
Definition mtx_default : CMutableTransaction :=
  MutableTransaction false SPROUT_MIN_TX_VERSION 0 [] [] 0 0 0 [] [] [] null256 (replicate 64 0) (replicate 64 0).

(** [GetHeader]: the version, with bit 31 for overwintered transactions. *)
Definition make_header (fOverwintered : bool) (nVersion : Z) : Z :=
  let header := to_u32 nVersion in
  if fOverwintered then Z.lor header (Z.shiftl 1 31) else header.
Definition GetHeader (tx : CMutableTransaction) : Z := make_header (fOverwintered tx) (nVersion tx).

(** Reading unpacks the header into flag and version. *)
Definition header_codec : codec (bool * Z) :=
  Codec (fun '(f, v) => Ok (ser_writedata32 (make_header f v)))
        (fun s => let* (header, s) := ser_readdata32 s in
                  Ok ((negb (Z.shiftr header 31 =? 0), Z.land header 0x7FFFFFFF), s)).

Definition is_overwinter_v3 (f : bool) (version group : Z) : bool :=
  f && (group =? OVERWINTER_VERSION_GROUP_ID) && (version =? OVERWINTER_TX_VERSION).
Definition is_sapling_v4 (f : bool) (version group : Z) : bool :=
  f && (group =? SAPLING_VERSION_GROUP_ID) && (version =? SAPLING_TX_VERSION).

Definition tx_fields : Type :=
  (bool * Z) * (Z * (unit * (list CTxIn * (list CTxOut * (Z * (Z * (Z * (list SpendDescription
  * (list OutputDescription * (list JSDescription * (bytes * (bytes * bytes)))))))))))).

Definition nonempty {A} (l : list A) : bool := match l with [] => false | _ => true end.

(** A field that the format does not contain keeps the value it has in the
    object [d] that is read into. *)
Definition tx_fields_codec (d : CMutableTransaction) : codec tx_fields :=
  seq_codec header_codec (fun '(f, v) =>
  seq_codec (cond_codec f (nVersionGroupId d) u32_codec) (fun group =>
  let overwinterV3 := is_overwinter_v3 f v group in
  let saplingV4 := is_sapling_v4 f v group in
  guard_codec (negb (f && negb (overwinterV3 || saplingV4))) UnknownTransactionFormat
  >> vector_of sizeof_CTxIn txin_codec
  >> vector_of sizeof_CTxOut txout_codec
  >> u32_codec
  >> cond_codec (overwinterV3 || saplingV4) (nExpiryHeight d) u32_codec
  >> cond_codec saplingV4 (valueBalance d) i64_codec
  >> seq_codec (cond_codec saplingV4 (vShieldedSpend d) (vector_of sizeof_SpendDescription spend_codec)) (fun spends =>
     seq_codec (cond_codec saplingV4 (vShieldedOutput d) (vector_of sizeof_OutputDescription output_codec)) (fun outputs =>
     seq_codec (cond_codec (2 <=? v) (vJoinSplit d) (vector_of sizeof_JSDescription (js_codec (make_header f v)))) (fun js =>
     cond_codec ((2 <=? v) && nonempty js) (joinSplitPubKey d) uint256_codec
     >> cond_codec ((2 <=? v) && nonempty js) (joinSplitSig d) (flat_codec 64)
     >> cond_codec (saplingV4 && (nonempty spends || nonempty outputs)) (bindingSig d) (flat_codec 64)))))).

Definition tx_to_fields (t : CMutableTransaction) : tx_fields :=
  ((fOverwintered t, nVersion t), (nVersionGroupId t, (tt, (vin t, (vout t, (nLockTime t, (nExpiryHeight t,
   (valueBalance t, (vShieldedSpend t, (vShieldedOutput t, (vJoinSplit t,
   (joinSplitPubKey t, (joinSplitSig t, bindingSig t))))))))))))).
Definition tx_of_fields (x : tx_fields) : CMutableTransaction :=
  let '((f, v), (g, (_, (i, (o, (l, (e, (b, (ss, (so, (js, (pk, (sg, bs))))))))))))) := x in
  MutableTransaction f v g i o l e b ss so js pk sg bs.

(** [SerializationOp] of both transaction classes: reading into the object
    [d], and into a default-constructed one. *)
Definition tx_codec_into (d : CMutableTransaction) : codec CMutableTransaction :=
  struct_codec (tx_fields_codec d) tx_to_fields tx_of_fields.
Definition tx_codec : codec CMutableTransaction := tx_codec_into mtx_default.

Record CTransaction := Transaction { tx :> CMutableTransaction; tx_hash : bytes }.

(** [UpdateHash]; serializing may throw. *)
Definition UpdateHash (t : CMutableTransaction) : result ser_error CTransaction :=
  let* h := SerializeHash tx_codec t in Ok (Transaction t h).

(** The copying constructor from [CMutableTransaction]. *)
Definition CTransaction_copy (t : CMutableTransaction) : result ser_error CTransaction := UpdateHash t.

(** The moving constructor, which initialises every field but [bindingSig]. *)
Definition moved_fields (t : CMutableTransaction) : CMutableTransaction :=
  MutableTransaction (fOverwintered t) (nVersion t) (nVersionGroupId t) (vin t) (vout t)
    (nLockTime t) (nExpiryHeight t) (valueBalance t) (vShieldedSpend t) (vShieldedOutput t)
    (vJoinSplit t) (joinSplitPubKey t) (joinSplitSig t) (replicate 64 0).
Definition CTransaction_move (t : CMutableTransaction) : result ser_error CTransaction :=
  UpdateHash (moved_fields t).

Definition CMutableTransaction_of (t : CTransaction) : CMutableTransaction := tx t.
Definition CMutableTransaction_GetHash (t : CMutableTransaction) : result ser_error bytes := SerializeHash tx_codec t.

(** [CTransaction::Unserialize]. *)
Definition CTransaction_Unserialize (s : bytes) : result ser_error (CTransaction * bytes) :=
  let* (t, s) := Unserialize tx_codec s in
  let* t := UpdateHash t in Ok (t, s).

(** [CMutableTransaction(deserialize, s)] does not initialise the scalar
    fields: they hold the unspecified values [group], [lockTime], [expiry] and
    [balance] until they are read. *)
Definition mtx_uninitialised (group lockTime expiry balance : Z) : CMutableTransaction :=
  MutableTransaction false 0 group [] [] lockTime expiry balance [] [] [] null256 (replicate 64 0) (replicate 64 0).
Definition CMutableTransaction_deserialize (group lockTime expiry balance : Z) (s : bytes)
  : result ser_error (CMutableTransaction * bytes) :=
  Unserialize (tx_codec_into (mtx_uninitialised group lockTime expiry balance)) s.

(** [CTransaction(deserialize, s)] goes through such a temporary and the
    moving constructor. *)
Definition CTransaction_deserialize (group lockTime expiry balance : Z) (s : bytes)
  : result ser_error (CTransaction * bytes) :=
  let* (t, s) := CMutableTransaction_deserialize group lockTime expiry balance s in
  let* t := CTransaction_move t in Ok (t, s).

Definition IsNull (t : CMutableTransaction) : bool := negb (nonempty (vin t)) && negb (nonempty (vout t)).
Definition IsCoinBase (t : CMutableTransaction) : bool :=
  match vin t with [i] => outpoint_IsNull (prevout i) | _ => false end.

(** [nValueOut += v; if (!MoneyRange(v) || !MoneyRange(nValueOut)) throw] *)
Definition add_in_range (total v : Z) : result unit Z :=
  let total := to_i64 (total + v) in
  require MoneyRange v && MoneyRange total orelse tt in Ok total.
Fixpoint add_all (total : Z) (l : list Z) : result unit Z :=
  match l with [] => Ok total | v :: l => let* total := add_in_range total v in add_all total l end.

Definition GetValueOut (t : CMutableTransaction) : result unit Z :=
  let* nValueOut := add_all 0 (map nValue (vout t)) in
  let* nValueOut := if valueBalance t <=? 0 then add_in_range nValueOut (to_i64 (- valueBalance t))
                    else Ok nValueOut in
  add_all nValueOut (map vpub_old (vJoinSplit t)).

Definition GetShieldedValueIn (t : CMutableTransaction) : result unit Z :=
  let* nValue := if 0 <=? valueBalance t then add_in_range 0 (valueBalance t) else Ok 0 in
  add_all nValue (map vpub_new (vJoinSplit t)).

(** *** Blocks *)

Record CBlockHeader := BlockHeader {
  hb_nVersion : Z; hb_hashPrevBlock : bytes; hb_hashMerkleRoot : bytes; hb_hashFinalSaplingRoot : bytes;
  hb_nTime : Z; hb_nBits : Z; hb_nNonce : bytes; hb_nSolution : bytes }.
Definition header_null : CBlockHeader := BlockHeader 4 null256 null256 null256 0 0 null256 [].
Definition header_IsNull (h : CBlockHeader) : bool := hb_nBits h =? 0.
Definition GetBlockTime (h : CBlockHeader) : Z := hb_nTime h.

Definition block_header_codec : codec CBlockHeader :=
  struct_codec (i32_codec >> uint256_codec >> uint256_codec >> uint256_codec >> u32_codec >> u32_codec
                >> uint256_codec >> bytes_vec_codec)
    (fun h => (hb_nVersion h, (hb_hashPrevBlock h, (hb_hashMerkleRoot h, (hb_hashFinalSaplingRoot h,
              (hb_nTime h, (hb_nBits h, (hb_nNonce h, hb_nSolution h))))))))
    (fun '(a, (b, (c, (d, (e, (f, (g, h))))))) => BlockHeader a b c d e f g h).
Definition header_GetHash (h : CBlockHeader) : result ser_error bytes := SerializeHash block_header_codec h.

(** [CEquihashInput]: the header without nonce and solution. *)
Definition equihash_input_codec : codec (Z * (bytes * (bytes * (bytes * (Z * Z))))) :=
  i32_codec >> uint256_codec >> uint256_codec >> uint256_codec >> u32_codec >> u32_codec.
Definition CEquihashInput (h : CBlockHeader) : Z * (bytes * (bytes * (bytes * (Z * Z)))) :=
  (hb_nVersion h, (hb_hashPrevBlock h, (hb_hashMerkleRoot h, (hb_hashFinalSaplingRoot h, (hb_nTime h, hb_nBits h))))).

(** The transactions of a block are [CTransaction]s; [fChecked] is memory only. *)
Record CBlock := Block { b_header :> CBlockHeader; vtx : list CMutableTransaction }.
Definition block_codec : codec CBlock :=
  struct_codec (block_header_codec >> vector_of sizeof_CTransaction tx_codec)
    (fun b => (b_header b, vtx b)) (fun '(h, v) => Block h v).
Definition GetBlockHeader (b : CBlock) : CBlockHeader :=
  BlockHeader (hb_nVersion b) (hb_hashPrevBlock b) (hb_hashMerkleRoot b) (hb_hashFinalSaplingRoot b)
              (hb_nTime b) (hb_nBits b) (hb_nNonce b) (hb_nSolution b).

(** [CBlockLocator]: outside hashing, the stream version comes first, and is
    thrown away when reading. *)
Definition locator_codec (hashing : bool) (streamVersion : Z) : codec (list bytes) :=
  Codec (fun vHave => let* b := Serialize (vector_of 32 uint256_codec) vHave in
                      Ok ((if hashing then [] else ser_writedata32 streamVersion) ++ b))
        (fun s => let* (_, s) := if hashing then Ok (0, s) else ser_readdata32 s in
                  Unserialize (vector_of 32 uint256_codec) s).

(** ** Well-formed objects *)

Definition outpoint_ok (o : COutPoint) : Prop := flat_ok 32 (op_hash o) /\ uint 32 (op_n o).
Definition script_ok (b : bytes) : Prop := size_ok b /\ bytes_ok b.
Definition txin_ok (i : CTxIn) : Prop :=
  outpoint_ok (prevout i) /\ script_ok (scriptSig i) /\ uint 32 (nSequence i).
Definition txout_ok (o : CTxOut) : Prop := sint 64 (nValue o) /\ script_ok (scriptPubKey o).
Definition spend_ok (d : SpendDescription) : Prop :=
  flat_ok 32 (sd_cv d) /\ flat_ok 32 (sd_anchor d) /\ flat_ok 32 (sd_nullifier d) /\ flat_ok 32 (sd_rk d)
  /\ flat_ok GROTH_PROOF_SIZE (sd_zkproof d) /\ flat_ok 64 (sd_spendAuthSig d).
Definition output_ok (d : OutputDescription) : Prop :=
  flat_ok 32 (od_cv d) /\ flat_ok 32 (od_cmu d) /\ flat_ok 32 (od_ephemeralKey d)
  /\ flat_ok ENCCIPHERTEXT_SIZE (od_encCiphertext d) /\ flat_ok OUTCIPHERTEXT_SIZE (od_outCiphertext d)
  /\ flat_ok GROTH_PROOF_SIZE (od_zkproof d).
Definition compressed_ok (size : nat) (p : Compressed) : Prop := flat_ok size (cp_x p).
Definition phgr_ok (p : PHGRProof) : Prop :=
  compressed_ok 32 (g_A p) /\ compressed_ok 32 (g_A_prime p) /\ compressed_ok 64 (g_B p)
  /\ compressed_ok 32 (g_B_prime p) /\ compressed_ok 32 (g_C p) /\ compressed_ok 32 (g_C_prime p)
  /\ compressed_ok 32 (g_K p) /\ compressed_ok 32 (g_H p).
Definition proof_ok (useGroth : bool) (p : SproutProof) : Prop :=
  match p with PHGR p => useGroth = false /\ phgr_ok p | Groth p => useGroth = true /\ flat_ok GROTH_PROOF_SIZE p end.
Definition pair_ok {A} (ok : A -> Prop) (l : list A) : Prop := length l = ZC_NUM_JS /\ Forall ok l.
Definition useGroth_of (nVersion : Z) : bool :=
  negb (Z.shiftr (to_i32 nVersion) 31 =? 0) && (SAPLING_TX_VERSION <=? Z.land nVersion 0x7FFFFFFF).
Definition js_ok (nVersion : Z) (j : JSDescription) : Prop :=
  sint 64 (vpub_old j) /\ sint 64 (vpub_new j) /\ flat_ok 32 (js_anchor j)
  /\ pair_ok (flat_ok 32) (js_nullifiers j) /\ pair_ok (flat_ok 32) (js_commitments j)
  /\ flat_ok 32 (js_ephemeralKey j) /\ flat_ok 32 (js_randomSeed j) /\ pair_ok (flat_ok 32) (js_macs j)
  /\ proof_ok (useGroth_of nVersion) (js_proof j) /\ pair_ok (flat_ok JS_CIPHERTEXT_SIZE) (js_ciphertexts j).
Definition vec_ok {A} (ok : A -> Prop) (l : list A) : Prop := size_ok l /\ Forall ok l.

(** A transaction that its own format can carry: each field present is well
    formed, each field absent has the value of [d]. *)
Definition tx_ok_into (d t : CMutableTransaction) : Prop :=
  let f := fOverwintered t in
  let v := nVersion t in
  let overwinterV3 := is_overwinter_v3 f v (nVersionGroupId t) in
  let saplingV4 := is_sapling_v4 f v (nVersionGroupId t) in
  0 <= v < 2 ^ 31
  /\ (if f then uint 32 (nVersionGroupId t) else nVersionGroupId t = nVersionGroupId d)
  /\ negb (f && negb (overwinterV3 || saplingV4)) = true
  /\ vec_ok txin_ok (vin t) /\ vec_ok txout_ok (vout t) /\ uint 32 (nLockTime t)
  /\ (if overwinterV3 || saplingV4 then uint 32 (nExpiryHeight t) else nExpiryHeight t = nExpiryHeight d)
  /\ (if saplingV4 then sint 64 (valueBalance t) else valueBalance t = valueBalance d)
  /\ (if saplingV4 then vec_ok spend_ok (vShieldedSpend t) else vShieldedSpend t = vShieldedSpend d)
  /\ (if saplingV4 then vec_ok output_ok (vShieldedOutput t) else vShieldedOutput t = vShieldedOutput d)
  /\ (if 2 <=? v then vec_ok (js_ok (make_header f v)) (vJoinSplit t) else vJoinSplit t = vJoinSplit d)
  /\ (if (2 <=? v) && nonempty (vJoinSplit t) then flat_ok 32 (joinSplitPubKey t) else joinSplitPubKey t = joinSplitPubKey d)
  /\ (if (2 <=? v) && nonempty (vJoinSplit t) then flat_ok 64 (joinSplitSig t) else joinSplitSig t = joinSplitSig d)
  /\ (if saplingV4 && (nonempty (vShieldedSpend t) || nonempty (vShieldedOutput t))
      then flat_ok 64 (bindingSig t) else bindingSig t = bindingSig d).
Definition tx_ok : CMutableTransaction -> Prop := tx_ok_into mtx_default.

Definition header_ok (h : CBlockHeader) : Prop :=
  sint 32 (hb_nVersion h) /\ flat_ok 32 (hb_hashPrevBlock h) /\ flat_ok 32 (hb_hashMerkleRoot h)
  /\ flat_ok 32 (hb_hashFinalSaplingRoot h) /\ uint 32 (hb_nTime h) /\ uint 32 (hb_nBits h)
  /\ flat_ok 32 (hb_nNonce h) /\ script_ok (hb_nSolution h).
Definition block_ok (b : CBlock) : Prop := header_ok b /\ vec_ok tx_ok (vtx b).

(** ** The codecs are lawful *)

Lemma seq2_lawful {A B} (c : codec A) (k : codec B) ok ok' :
  Lawful c ok -> Lawful k ok' -> Lawful (c >> k) (fun '(a, b) => ok a /\ ok' b).
Proof. intros Hc Hk. exact (seq_lawful c ok (fun _ => k) (fun _ => ok') Hc (fun _ => Hk)). Qed.

Lemma vector_of_lawful {A} sizeof (c : codec A) ok :
  Lawful c ok -> 0 < sizeof <= 5000000 -> Lawful (vector_of sizeof c) (vec_ok ok).
Proof. intros Hc Hs. apply vector_lawful; [done|]. apply Z.div_str_pos. lia. Qed.

Lemma cond_lawful_if {A} (cond : bool) (d : A) c ok :
  Lawful c ok -> Lawful (cond_codec cond d c) (fun a => if cond then ok a else a = d).
Proof. intros Hc. by apply cond_lawful. Qed.

(** The shape of every class codec: fields in sequence, then the record. *)
Ltac lawful_fields := repeat first [assumption | apply seq2_lawful | apply _ ].
Ltac destruct_tuple x := match type of x with (_ * _)%type => let a := fresh "f" in destruct x as [a x]; destruct_tuple x | _ => idtac end.
Ltac lawful_struct :=
  eapply struct_lawful;
  [lawful_fields|intros [] Hx; split; [exact Hx|reflexivity]
  |let x := fresh "x" in intros x Hx; destruct_tuple x; split; [exact Hx|reflexivity]].

#[export] Instance outpoint_lawful : Lawful outpoint_codec outpoint_ok.
Proof. lawful_struct. Qed.
#[export] Instance txin_lawful : Lawful txin_codec txin_ok.
Proof. lawful_struct. Qed.
#[export] Instance txout_lawful : Lawful txout_codec txout_ok.
Proof. lawful_struct. Qed.
#[export] Instance spend_lawful : Lawful spend_codec spend_ok.
Proof. lawful_struct. Qed.
#[export] Instance output_lawful : Lawful output_codec output_ok.
Proof. lawful_struct. Qed.
#[export] Instance block_header_lawful : Lawful block_header_codec header_ok.
Proof. lawful_struct. Qed.

Lemma byte_cases (P : Z -> bool) b : forallb P (seqZ 0 256) = true -> uint 8 b -> P b = true.
Proof. intros H Hb. eapply forallb_forall in H; [exact H|]. apply list_elem_of_In, elem_of_seqZ. exact Hb. Qed.

Lemma compressed_lawful mask size : mask = 2 \/ mask = 10 -> Lawful (compressed_codec mask size) (compressed_ok size).
Proof.
  intros Hmask. assert (forall y : bool, let l := if y then Z.lor mask 1 else mask in
    (Z.land l (to_u8 (Z.lnot 1)) =? mask) = true /\ uint 8 l /\ negb (Z.land l 1 =? 0) = y) as Hl
    by (intros []; destruct Hmask as [-> | ->]; by vm_compute).
  split.
  - intros [y x] Hx. destruct Hx as [Hlen Hx]; cbn [cp_x] in *. destruct (Hl y) as (Hc & Hu & Hy).
    cbn [Serialize Unserialize compressed_codec cp_y cp_x] in *. rewrite Hc.
    eexists; split_and!; [done|auto with ser|]. intros s. rewrite <- app_assoc, readdata8_spec by done. cbn [bindR].
    rewrite Hc, read_app by done. cbn [bindR]. by rewrite Hy.
  - intros s [y x] s' Hs H. cbn [Unserialize compressed_codec] in H. bind_inv H.
    apply readdata8_inv in E as [Hb ->]; [|done]. apply Forall_app in Hs as [_ Hs].
    destruct (Z.eqb_spec (Z.land x0 (to_u8 (Z.lnot 1))) mask) as [Hm|]; [|done]. bind_inv H. injection H as <- <- <-.
    apply read_Ok in E as [-> Hlen]. apply Forall_app in Hs as [Hx _].
    split; [done|]. cbn [Serialize compressed_codec cp_y cp_x].
    assert ((if negb (Z.land x0 1 =? 0) then Z.lor mask 1 else mask) = x0) as ->.
    { apply Z.eqb_eq. rewrite <- Hm. revert Hb.
      apply (byte_cases (fun b => (if negb (Z.land b 1 =? 0) then Z.lor (Z.land b (to_u8 (Z.lnot 1))) 1
                                   else Z.land b (to_u8 (Z.lnot 1))) =? b)). by vm_compute. }
    rewrite Hm, Z.eqb_refl. eexists; split; [done|]. by rewrite <- app_assoc.
Qed.

#[export] Instance g1_lawful : Lawful g1_codec (compressed_ok 32).
Proof. apply compressed_lawful. by left. Qed.
#[export] Instance g2_lawful : Lawful g2_codec (compressed_ok 64).
Proof. apply compressed_lawful. by right. Qed.
#[export] Instance phgr_lawful : Lawful phgr_codec phgr_ok.
Proof. lawful_struct. Qed.

#[export] Instance sprout_proof_lawful useGroth : Lawful (sprout_proof_codec useGroth) (proof_ok useGroth).
Proof.
  split.
  - intros [p|p] [-> Hp]; cbn [Serialize Unserialize sprout_proof_codec negb].
    + destruct (lawful_rt (c := phgr_codec) p Hp) as (b & Hb & Hok & Hu). exists b. split_and!; [done|done|].
      intros s. by rewrite Hu.
    + destruct (lawful_rt (c := flat_codec GROTH_PROOF_SIZE) p Hp) as (b & Hb & Hok & Hu). exists b. split_and!; [done|done|].
      intros s. by rewrite Hu.
  - intros s p s' Hs H. cbn [Unserialize sprout_proof_codec] in H. destruct useGroth; bind_inv H; injection H as <- <-;
      apply lawful_canonical in E as (Hx & b & Hb & ->); try done; split; [done|eauto|done|eauto].
Qed.

#[export] Instance js_lawful nVersion : Lawful (js_codec nVersion) (js_ok nVersion).
Proof. unfold js_codec. fold (useGroth_of nVersion). lawful_struct. Qed.

Lemma make_header_spec f v :
  0 <= v < 2 ^ 31 -> make_header f v = v + (if f then 2 ^ 31 else 0) /\ uint 32 (make_header f v).
Proof.
  intros Hv. assert (make_header f v = v + (if f then 2 ^ 31 else 0)) as E.
  { unfold make_header. rewrite wrap_small by solve_uint. destruct f; [|lia].
    change (Z.shiftl 1 31) with (1 * 2 ^ 31). rewrite (lor_disjoint 31) by lia. lia. }
  split; [done|]. rewrite E. destruct f; solve_uint.
Qed.

#[export] Instance header_lawful : Lawful header_codec (fun '(f, v) => 0 <= v < 2 ^ 31).
Proof.
  split.
  - intros [f v] Hv. destruct (make_header_spec f v Hv) as [E Hu]. eexists; split_and!; [done|auto with ser|].
    intros s. cbn [Unserialize header_codec]. rewrite readdata32_spec by done. cbn [bindR]. rewrite E.
    change 0x7FFFFFFF with (Z.ones 31). rewrite Z.land_ones, Z.shiftr_div_pow2 by lia.
    do 3 f_equal.
    + destruct f; [|rewrite Z.add_0_r, (Z.div_small v) by lia; done].
      replace ((v + 2 ^ 31) / 2 ^ 31) with 1; [done|]. apply (Z.div_unique_pos _ _ _ v); lia.
    + destruct f; [|rewrite Z.add_0_r; apply Z.mod_small; lia].
      symmetry. apply (Z.mod_unique_pos _ _ 1); lia.
  - intros s [f v] s' Hs H. cbn [Unserialize header_codec] in H. bind_inv H. apply readdata32_inv in E as [Hx ->]; [|done].
    change 0x7FFFFFFF with (Z.ones 31) in H. rewrite Z.land_ones, Z.shiftr_div_pow2 in H by lia. revert H.
    generalize (eq_refl (x mod 2 ^ 31)) (eq_refl (negb (x / 2 ^ 31 =? 0))).
    generalize (x mod 2 ^ 31) at 1 3. generalize (negb (x / 2 ^ 31 =? 0)) at 1 3. intros f' v' Hv' Hf' [= <- <- <-]. subst f' v'.
    pose proof (Z.mod_pos_bound x (2 ^ 31) ltac:(lia)) as Hm. split; [done|]. eexists; split; [done|].
    destruct (make_header_spec (negb (x / 2 ^ 31 =? 0)) (x mod 2 ^ 31) Hm) as [-> _].
    do 2 f_equal. pose proof (Z.div_mod x (2 ^ 31) ltac:(lia)). unfold uint in Hx.
    assert (x / 2 ^ 31 < 2) by (apply Z.div_lt_upper_bound; lia). assert (0 <= x / 2 ^ 31) by (apply Z.div_pos; lia).
    destruct (Z.eqb_spec (x / 2 ^ 31) 0); cbn [negb]; lia.
Qed.

Lemma lawful_ext {A} (c : codec A) ok ok' : Lawful c ok -> (forall a, ok a <-> ok' a) -> Lawful c ok'.
Proof.
  intros [Hrt Hc] He. split.
  - intros a Ha. apply Hrt. by apply He.
  - intros s a s' Hs H. destruct (Hc s a s' Hs H) as [Ha Hb]. split; [by apply He|done].
Qed.

Lemma tx_fields_lawful d :
  Lawful (tx_fields_codec d) (fun x => tx_ok_into d (tx_of_fields x)).
Proof.
  evar (Q : bool -> Z -> Z * (unit * (list CTxIn * (list CTxOut * (Z * (Z * (Z * (list SpendDescription
    * (list OutputDescription * (list JSDescription * (bytes * (bytes * bytes))))))))))) -> Prop).
  apply (lawful_ext _ (fun '(a, b) => (let '(f, v) := a in 0 <= v < 2 ^ 31) /\ Q a.1 a.2 b)).
  - unfold tx_fields_codec.
    apply (seq_lawful header_codec (fun '(f, v) => 0 <= v < 2 ^ 31) _ (fun a => Q a.1 a.2)); [apply _|].
    intros [f v]. cbn [fst snd]. subst Q.
    apply seq_lawful; [apply cond_lawful_if, _|intros group].
    repeat first [apply seq2_lawful | apply cond_lawful_if | apply vector_of_lawful
                 | apply seq_lawful; [|intros ?] | apply _ | by vm_compute].
  - intros [[f v] (g & [] & i & o & l & e & b & ss & so & js & pk & sg & bs)]. subst Q. cbn [fst snd].
    unfold tx_ok_into, tx_of_fields. cbn. tauto.
Qed.

#[export] Instance tx_lawful_into d : Lawful (tx_codec_into d) (tx_ok_into d).
Proof.
  eapply struct_lawful; [apply tx_fields_lawful| |].
  - intros [] Hx. by split.
  - intros [[f v] (g & [] & i & o & l & e & b & ss & so & js & pk & sg & bs)] Hx. by split.
Qed.
#[export] Instance tx_lawful : Lawful tx_codec tx_ok.
Proof. apply tx_lawful_into. Qed.

#[export] Instance block_lawful : Lawful block_codec block_ok.
Proof.
  eapply struct_lawful; [apply seq2_lawful; [apply _|apply vector_of_lawful; [apply _|by vm_compute]]| |].
  - intros [] Hx. by split.
  - intros [h v] Hx. by split.
Qed.

(** ** Sums of amounts *)

Definition sum (l : list Z) : Z := fold_right Z.add 0 l.

Lemma MoneyRange_spec v : MoneyRange v = true <-> 0 <= v <= MAX_MONEY.
Proof. unfold MoneyRange. lia. Qed.

Lemma sum_nonneg l : forallb MoneyRange l = true -> 0 <= sum l.
Proof.
  induction l as [|v l IH]; cbn [forallb]; [cbn; lia|]. intros [Hv Hl]%andb_prop. change (sum (v :: l)) with (v + sum l). apply MoneyRange_spec in Hv. specialize (IH Hl). lia.
Qed.

(** One guarded addition; an out-of-range term is rejected even where the
    64-bit sum wraps. *)
Lemma add_in_range_spec total v :
  0 <= total <= MAX_MONEY ->
  add_in_range total v = if MoneyRange v && (total + v <=? MAX_MONEY) then Ok (total + v) else Err tt.
Proof.
  intros Ht. unfold add_in_range. destruct (MoneyRange v) eqn:Hv; cbn [andb]; [|done]. apply MoneyRange_spec in Hv.
  rewrite swrap_small by (unfold MAX_MONEY, COIN in *; lia || solve_uint).
  unfold MoneyRange. destruct (Z.leb_spec 0 (total + v)); [|lia]. done.
Qed.

Lemma add_all_spec total l :
  0 <= total <= MAX_MONEY ->
  add_all total l = if forallb MoneyRange l && (total + sum l <=? MAX_MONEY) then Ok (total + sum l) else Err tt.
Proof.
  revert total. induction l as [|v l IH]; intros total Ht; cbn [add_all forallb sum fold_right].
  - rewrite Z.add_0_r. destruct (Z.leb_spec total MAX_MONEY); [done|lia].
  - rewrite add_in_range_spec by done. destruct (MoneyRange v) eqn:Hv; cbn [andb]; [|done].
    apply MoneyRange_spec in Hv. fold (sum l). destruct (Z.leb_spec (total + v) MAX_MONEY) as [Hle|Hgt]; cbn [bindR].
    + rewrite IH by lia. by rewrite Z.add_assoc.
    + destruct (forallb MoneyRange l) eqn:Hl; [|done]. apply sum_nonneg in Hl. cbn [andb].
      destruct (Z.leb_spec (total + (v + sum l)) MAX_MONEY); [lia|done].
Qed.

Lemma add_all_app total l l' :
  add_all total (l ++ l') = bindR (add_all total l) (fun t => add_all t l').
Proof.
  revert total. induction l as [|v l IH]; intros total; [done|]. cbn [add_all app].
  destruct (add_in_range total v); [apply IH|done].
Qed.

(** The values that leave, and that enter, the transparent pool. *)
Definition values_out (t : CMutableTransaction) : list Z :=
  map nValue (vout t) ++ (if valueBalance t <=? 0 then [to_i64 (- valueBalance t)] else []) ++ map vpub_old (vJoinSplit t).
Definition shielded_values_in (t : CMutableTransaction) : list Z :=
  (if 0 <=? valueBalance t then [valueBalance t] else []) ++ map vpub_new (vJoinSplit t).

Lemma GetValueOut_sum t : GetValueOut t = add_all 0 (values_out t).
Proof.
  unfold GetValueOut, values_out. rewrite add_all_app. destruct (add_all 0 _) as [n|]; [|done]. cbn [bindR].
  rewrite add_all_app. destruct (valueBalance t <=? 0); cbn [add_all]; [|done]. by destruct (add_in_range n _).
Qed.

Lemma GetShieldedValueIn_sum t : GetShieldedValueIn t = add_all 0 (shielded_values_in t).
Proof.
  unfold GetShieldedValueIn, shielded_values_in. rewrite add_all_app.
  destruct (0 <=? valueBalance t); cbn [add_all]; [|done]. by destruct (add_in_range 0 _).
Qed.

(** ** Hashes of transactions *)

Lemma UpdateHash_spec t b : Serialize tx_codec t = Ok b -> UpdateHash t = Ok (Transaction t (sha256d b)).
Proof. intros Hb. unfold UpdateHash, SerializeHash. rewrite Hb. step_bind. by rewrite (CHash256_spec _ b (fresh_absorbed CSHA256 b)). Qed.

Lemma UpdateHash_tx t t' : UpdateHash t = Ok t' -> tx t' = t.
Proof. unfold UpdateHash. intros H. apply bindR_Ok in H as (h & _ & H). by inversion H. Qed.

(** ** Properties *)

(** C32: the transaction and block formats are canonical codes.  A transaction
    that its version, group and flag can carry reads back from its
    serialization, whatever follows, and the bytes consumed by a successful
    read are exactly the serialization of the result; the same holds of
    blocks.  So a transaction read from a stream has as its hash the double
    SHA-256 of precisely the bytes it was read from. *)
Theorem transaction_format_canonical :
  (roundtrips tx_codec tx_ok /\ canonical tx_codec tx_ok)
  /\ (roundtrips block_codec block_ok /\ canonical block_codec block_ok)
  /\ (forall s t s', bytes_ok s -> CTransaction_Unserialize s = Ok (t, s') ->
      tx_ok t /\ exists b, s = b ++ s' /\ Serialize tx_codec t = Ok b /\ tx_hash t = sha256d b).
Proof.
  split_and!; [apply lawful_rt|apply lawful_canonical|apply lawful_rt|apply lawful_canonical|].
  intros s t s' Hs H. unfold CTransaction_Unserialize in H. bind_inv H.
  apply lawful_canonical in E as (Hok & b & Hb & ->); [|done].
  rewrite (UpdateHash_spec _ b Hb) in H. cbn [bindR] in H. injection H as <- <-. cbn [tx tx_hash]. eauto.
Qed.

(** [GetValueOut] and [GetShieldedValueIn] return the exact sum of the
    amounts leaving and entering the transparent pool when every amount and
    the total are in the money range, and throw otherwise; the 64-bit
    accumulator never wraps into an accepted value. *)
Theorem value_sums_exact t :
  (GetValueOut t = if forallb MoneyRange (values_out t) && (sum (values_out t) <=? MAX_MONEY)
                   then Ok (sum (values_out t)) else Err tt)
  /\ (GetShieldedValueIn t
      = if forallb MoneyRange (shielded_values_in t) && (sum (shielded_values_in t) <=? MAX_MONEY)
        then Ok (sum (shielded_values_in t)) else Err tt).
Proof.
  rewrite GetValueOut_sum, GetShieldedValueIn_sum, !add_all_spec by (unfold MAX_MONEY, COIN; lia).
  by rewrite !Z.add_0_l.
Qed.

(** A Sapling transaction with a binding signature loses it in the moving
    constructor, and with it its serialization. *)
Definition sapling_example : CMutableTransaction :=
  MutableTransaction true 4 SAPLING_VERSION_GROUP_ID [] [] 0 0 0
    [Spend null256 null256 null256 null256 (replicate GROTH_PROOF_SIZE 0) (replicate 64 0)] [] [] null256
    (replicate 64 0) (replicate 64 1).

(** The moving constructor of CTransaction does not build the transaction
    the copying constructor builds.  On a well-formed Sapling transaction both
    succeed, the copy is the original, the moved one holds zeros for the
    binding signature, and the byte strings that the two transaction hashes
    are taken of differ. *)
Theorem moved_transaction_differs :
  tx_ok sapling_example
  /\ exists a b sa sb, CTransaction_copy sapling_example = Ok a /\ CTransaction_move sapling_example = Ok b
       /\ tx a = sapling_example /\ bindingSig (tx b) = replicate 64 0
       /\ Serialize tx_codec a = Ok sa /\ Serialize tx_codec b = Ok sb
       /\ tx_hash a = sha256d sa /\ tx_hash b = sha256d sb /\ sa <> sb.
Proof.
  split.
  - assert (forall n z, uint 8 z -> flat_ok n (replicate n z)) as Hf.
    { intros n z Hz. split; [apply length_replicate|by apply Forall_replicate]. }
    assert (flat_ok 32 null256) by (by apply Hf).
    assert (forall A (ok : A -> Prop), vec_ok ok []) as Hv by (split; [done|constructor]).
    unfold tx_ok, tx_ok_into, sapling_example.
    cbn [fOverwintered nVersion nVersionGroupId vin vout nLockTime nExpiryHeight valueBalance
         vShieldedSpend vShieldedOutput vJoinSplit joinSplitPubKey joinSplitSig bindingSig nonempty].
    change (is_sapling_v4 true 4 SAPLING_VERSION_GROUP_ID) with true. rewrite orb_true_r. cbn [andb orb negb Z.leb Z.compare].
    split_and!; try done; try (by apply Hf); try apply Hv.
    split; [done|]. constructor; [|constructor]. unfold spend_ok.
    cbn [sd_cv sd_anchor sd_nullifier sd_rk sd_zkproof sd_spendAuthSig]. split_and!; done || by apply Hf.
  - destruct (Serialize tx_codec sapling_example) as [sa|] eqn:Ha; [|by vm_compute in Ha].
    destruct (Serialize tx_codec (moved_fields sapling_example)) as [sb|] eqn:Hb; [|by vm_compute in Hb].
    exists (Transaction sapling_example (sha256d sa)), (Transaction (moved_fields sapling_example) (sha256d sb)), sa, sb.
    split_and!; try done.
    + by apply UpdateHash_spec.
    + by apply (UpdateHash_spec (moved_fields sapling_example)).
    + intros ->. rewrite <- Hb in Ha. by vm_compute in Ha.
Qed.

(** A transaction without the overwintered flag that is read through the
    deserializing constructor keeps the unspecified values the temporary
    had. *)
Lemma deserialized_fields_unspecified g l e b s t s' :
  bytes_ok s -> CMutableTransaction_deserialize g l e b s = Ok (t, s') -> fOverwintered t = false ->
  nVersionGroupId t = g /\ nExpiryHeight t = e /\ valueBalance t = b.
Proof.
  intros Hs H Hf. unfold CMutableTransaction_deserialize in H.
  destruct (lawful_canonical (Lawful := tx_lawful_into (mtx_uninitialised g l e b)) s t s' Hs H) as [Hok _].
  unfold tx_ok_into, is_overwinter_v3, is_sapling_v4 in Hok. rewrite Hf in Hok. cbn [andb orb negb] in Hok.
  destruct Hok as (_ & Hg & _ & _ & _ & _ & He & Hb & _). done.
Qed.

Example deserialize_version_1 g l e b :
  CMutableTransaction_deserialize g l e b ([1; 0; 0; 0] ++ [0] ++ [0] ++ [9; 0; 0; 0])
  = Ok (MutableTransaction false 1 g [] [] 9 e b [] [] [] null256 (replicate 64 0) (replicate 64 0), []).
Proof. by vm_compute. Qed.
