(* ===== verification/Chain.v ===== *)
(** * The block tree and the active chain (src/chain.h, chain.cpp)

    Block index entries point to each other, so the model keeps the store
    they live in: a finite map from pointers to entries. [pprev] and [pskip]
    are nullable pointers, dereferencing a dangling one or failing an [assert]
    is an error. The invariant [tree_ok] says that the entries form a tree
    with consistent heights and that every skip pointer, where set, is the
    ancestor at the skip height. [CChain] is the vector of the entries of the
    active branch by height.

    Loops are bounded by the height of the entry they start from, which every
    pass lowers. *)

From S2P Require Import Prelude Serialize ArithUint Transaction.
From stdpp Require Import sorting pmap.
Local Open Scope Z_scope.
Local Open Scope code_scope.

(** ** Definitions *)

(** *** Block files *)

Record CBlockFileInfo := BlockFileInfo {
  fi_nBlocks : Z; fi_nSize : Z; fi_nUndoSize : Z; fi_nHeightFirst : Z; fi_nHeightLast : Z;
  fi_nTimeFirst : Z; fi_nTimeLast : Z }.
Definition file_info_null : CBlockFileInfo := BlockFileInfo 0 0 0 0 0 0 0.
Definition AddBlock (i : CBlockFileInfo) (nHeightIn nTimeIn : Z) : CBlockFileInfo :=
  let first := fi_nBlocks i =? 0 in
  let heightFirst := if first || (nHeightIn <? fi_nHeightFirst i) then nHeightIn else fi_nHeightFirst i in
  let timeFirst := if first || (nTimeIn <? fi_nTimeFirst i) then nTimeIn else fi_nTimeFirst i in
  let heightLast := if fi_nHeightLast i <? nHeightIn then nHeightIn else fi_nHeightLast i in
  let timeLast := if fi_nTimeLast i <? nTimeIn then nTimeIn else fi_nTimeLast i in
  BlockFileInfo (to_u32 (fi_nBlocks i + 1)) (fi_nSize i) (fi_nUndoSize i) heightFirst heightLast timeFirst timeLast.

Record CDiskBlockPos := DiskBlockPos { dp_nFile : Z; dp_nPos : Z }.
Definition disk_pos_null : CDiskBlockPos := DiskBlockPos (-1) 0.
Definition disk_pos_IsNull (p : CDiskBlockPos) : bool := dp_nFile p =? -1.

(** *** Block status *)

Definition BLOCK_VALID_HEADER : Z := 1.
Definition BLOCK_VALID_TREE : Z := 2.
Definition BLOCK_VALID_TRANSACTIONS : Z := 3.
Definition BLOCK_VALID_CHAIN : Z := 4.
Definition BLOCK_VALID_SCRIPTS : Z := 5.
Definition BLOCK_VALID_MASK : Z :=
  Z.lor (Z.lor (Z.lor (Z.lor BLOCK_VALID_HEADER BLOCK_VALID_TREE) BLOCK_VALID_TRANSACTIONS) BLOCK_VALID_CHAIN)
        BLOCK_VALID_SCRIPTS.
Definition BLOCK_HAVE_DATA : Z := 8.
Definition BLOCK_HAVE_UNDO : Z := 16.
Definition BLOCK_HAVE_MASK : Z := Z.lor BLOCK_HAVE_DATA BLOCK_HAVE_UNDO.
Definition BLOCK_FAILED_VALID : Z := 32.
Definition BLOCK_FAILED_CHILD : Z := 64.
Definition BLOCK_FAILED_MASK : Z := Z.lor BLOCK_FAILED_VALID BLOCK_FAILED_CHILD.
Definition BLOCK_ACTIVATES_UPGRADE : Z := 128.

(** *** Entries *)

Abbreviation ptr := positive.

Record CBlockIndex := BlockIndex {
  phashBlock : bytes; pprev : option ptr; pskip : option ptr; nHeight : Z;
  nFile : Z; nDataPos : Z; nUndoPos : Z;
  nChainWork : list Z; nTx : Z; nChainTx : Z; nStatus : Z; nCachedBranchId : option Z;
  hashSproutAnchor : bytes; hashFinalSproutRoot : bytes;
  nSproutValue : option Z; nChainSproutValue : option Z; nSaplingValue : Z; nChainSaplingValue : option Z;
  bi_nVersion : Z; bi_hashMerkleRoot : bytes; bi_hashFinalSaplingRoot : bytes;
  bi_nTime : Z; bi_nBits : Z; bi_nNonce : bytes; bi_nSolution : bytes; nSequenceId : Z }.

(** [CBlockIndex(block)]: the header fields, everything else null. *)
Definition CBlockIndex_new (block : CBlockHeader) : CBlockIndex :=
  BlockIndex null256 None None 0 0 0 0 zero256 0 0 0 None null256 null256 None None 0 None
    (hb_nVersion block) (hb_hashMerkleRoot block) (hb_hashFinalSaplingRoot block) (hb_nTime block)
    (hb_nBits block) (hb_nNonce block) (hb_nSolution block) 0.

Definition set_links (b : CBlockIndex) (prev skip : option ptr) (height : Z) : CBlockIndex :=
  BlockIndex (phashBlock b) prev skip height (nFile b) (nDataPos b) (nUndoPos b) (nChainWork b) (nTx b)
    (nChainTx b) (nStatus b) (nCachedBranchId b) (hashSproutAnchor b) (hashFinalSproutRoot b) (nSproutValue b)
    (nChainSproutValue b) (nSaplingValue b) (nChainSaplingValue b) (bi_nVersion b) (bi_hashMerkleRoot b)
    (bi_hashFinalSaplingRoot b) (bi_nTime b) (bi_nBits b) (bi_nNonce b) (bi_nSolution b) (nSequenceId b).
Definition set_status (b : CBlockIndex) (status : Z) : CBlockIndex :=
  BlockIndex (phashBlock b) (pprev b) (pskip b) (nHeight b) (nFile b) (nDataPos b) (nUndoPos b) (nChainWork b) (nTx b)
    (nChainTx b) status (nCachedBranchId b) (hashSproutAnchor b) (hashFinalSproutRoot b) (nSproutValue b)
    (nChainSproutValue b) (nSaplingValue b) (nChainSaplingValue b) (bi_nVersion b) (bi_hashMerkleRoot b)
    (bi_hashFinalSaplingRoot b) (bi_nTime b) (bi_nBits b) (bi_nNonce b) (bi_nSolution b) (nSequenceId b).

Definition GetBlockPos (b : CBlockIndex) : CDiskBlockPos :=
  if negb (Z.land (nStatus b) BLOCK_HAVE_DATA =? 0) then DiskBlockPos (nFile b) (nDataPos b) else disk_pos_null.
Definition GetUndoPos (b : CBlockIndex) : CDiskBlockPos :=
  if negb (Z.land (nStatus b) BLOCK_HAVE_UNDO =? 0) then DiskBlockPos (nFile b) (nUndoPos b) else disk_pos_null.

(** Failures of the code on block index entries. *)
Inductive chain_error :=
| AssertFailed        (* an assert does not hold *)
| DanglingPointer     (* a pointer to no entry is dereferenced *)
| OutOfFuel.          (* the bound of a modelled loop is exhausted *)

(** [nUpTo & ~BLOCK_VALID_MASK] must be zero. *)
Definition valid_level (nUpTo : Z) : bool := Z.land nUpTo (to_u32 (Z.lnot BLOCK_VALID_MASK)) =? 0.

Definition IsValid (b : CBlockIndex) (nUpTo : Z) : result chain_error bool :=
  require valid_level nUpTo orelse AssertFailed in
  Ok (if negb (Z.land (nStatus b) BLOCK_FAILED_MASK =? 0) then false
      else nUpTo <=? Z.land (nStatus b) BLOCK_VALID_MASK).

Definition RaiseValidity (b : CBlockIndex) (nUpTo : Z) : result chain_error (bool * CBlockIndex) :=
  require valid_level nUpTo orelse AssertFailed in
  Ok (if negb (Z.land (nStatus b) BLOCK_FAILED_MASK =? 0) then (false, b)
      else if Z.land (nStatus b) BLOCK_VALID_MASK <? nUpTo then
        (true, set_status b (Z.lor (Z.land (nStatus b) (to_u32 (Z.lnot BLOCK_VALID_MASK))) nUpTo))
      else (false, b)).

Definition HasSolution (b : CBlockIndex) : bool := (nHeight b =? 0) || nonempty (bi_nSolution b).

(** *** The skip list *)

Abbreviation store := (Pmap CBlockIndex).
Definition deref (st : store) (p : ptr) : result chain_error CBlockIndex :=
  match st !! p with Some b => Ok b | None => Err DanglingPointer end.

Definition InvertLowestOne (n : Z) : Z := Z.land n (n - 1).
Definition GetSkipHeight (height : Z) : Z :=
  if height <? 2 then 0
  else if negb (Z.land height 1 =? 0) then InvertLowestOne (InvertLowestOne (height - 1)) + 1
  else InvertLowestOne height.

(** The loop of [GetAncestor]; [heightWalk] is the height of [pindexWalk]. *)
Fixpoint ancestor_loop (fuel : nat) (st : store) (height : Z) (pindexWalk : ptr) (heightWalk : Z)
  : result chain_error ptr :=
  if heightWalk <=? height then Ok pindexWalk
  else
    match fuel with
    | O => Err OutOfFuel
    | S fuel =>
        let heightSkip := GetSkipHeight heightWalk in
        let heightSkipPrev := GetSkipHeight (heightWalk - 1) in
        let* b := deref st pindexWalk in
        let follow := (heightSkip =? height)
          || ((height <? heightSkip) && negb ((heightSkipPrev <? heightSkip - 2) && (height <=? heightSkipPrev))) in
        match pskip b, follow with
        | Some q, true => ancestor_loop fuel st height q heightSkip
        | _, _ =>
            match pprev b with
            | Some q => ancestor_loop fuel st height q (heightWalk - 1)
            | None => Err AssertFailed
            end
        end
    end.

Definition GetAncestor (st : store) (p : ptr) (height : Z) : result chain_error (option ptr) :=
  let* b := deref st p in
  if (nHeight b <? height) || (height <? 0) then Ok None
  else let* q := ancestor_loop (Z.to_nat (nHeight b)) st height p (nHeight b) in Ok (Some q).

(** [BuildSkip] on the entry [p]. *)
Definition BuildSkip (st : store) (p : ptr) : result chain_error store :=
  let* b := deref st p in
  match pprev b with
  | Some q => let* skip := GetAncestor st q (GetSkipHeight (nHeight b)) in
              Ok (<[p := set_links b (pprev b) skip (nHeight b)]> st)
  | None => Ok st
  end.

(** The way a new entry is linked in: [pprev], [nHeight], then [BuildSkip]. *)
Definition link_entry (st : store) (p : ptr) (b : CBlockIndex) (prev : option ptr) : result chain_error store :=
  match prev with
  | Some q => let* bq := deref st q in
              BuildSkip (<[p := set_links b (Some q) (pskip b) (nHeight bq + 1)]> st) p
  | None => Ok (<[p := b]> st)
  end.

(** *** Median time *)

Definition nMedianTimeSpan : nat := 11.
Fixpoint past_times (n : nat) (st : store) (pindex : option ptr) : result chain_error (list Z) :=
  match n, pindex with
  | O, _ | _, None => Ok []
  | S n, Some p => let* b := deref st p in
                   let* l := past_times n st (pprev b) in Ok (l ++ [bi_nTime b])
  end.

(** [std::sort] and the middle element. *)
Definition median (l : list Z) : Z := nth (length l / 2) (merge_sort Z.le l) 0.
Definition GetMedianTimePast (st : store) (p : ptr) : result chain_error Z :=
  let* l := past_times nMedianTimeSpan st (Some p) in Ok (median l).

(** *** The active chain *)

Abbreviation chain := (list (option ptr)).

Definition chain_at (c : chain) (height : Z) : option ptr :=
  if (height <? 0) || (length c <=? height) then None else nth (Z.to_nat height) c None.
Definition Genesis (c : chain) : option ptr := match c with [] => None | q :: _ => q end.
Definition Tip (c : chain) : option ptr := chain_at c (length c - 1).
Definition Height (c : chain) : Z := length c - 1.
Definition Contains (st : store) (c : chain) (p : ptr) : result chain_error bool :=
  let* b := deref st p in Ok (bool_decide (chain_at c (nHeight b) = Some p)).
Definition Next (st : store) (c : chain) (p : ptr) : result chain_error (option ptr) :=
  let* b := deref st p in
  let* has := Contains st c p in
  Ok (if has then chain_at c (nHeight b + 1) else None).

(** [vChain.resize(n)]. *)
Definition resize (n : nat) (c : chain) : chain := take n c ++ replicate (n - length c) None.

Fixpoint set_tip_loop (fuel : nat) (st : store) (c : chain) (pindex : option ptr) : result chain_error chain :=
  match pindex with
  | None => Ok c
  | Some p =>
      let* b := deref st p in
      if bool_decide (nth (Z.to_nat (nHeight b)) c None = Some p) then Ok c
      else match fuel with
           | O => Err OutOfFuel
           | S fuel => set_tip_loop fuel st (<[Z.to_nat (nHeight b) := Some p]> c) (pprev b)
           end
  end.

Definition SetTip (st : store) (c : chain) (pindex : option ptr) : result chain_error chain :=
  match pindex with
  | None => Ok []
  | Some p => let* b := deref st p in
              set_tip_loop (S (Z.to_nat (nHeight b))) st (resize (Z.to_nat (nHeight b + 1)) c) (Some p)
  end.

Fixpoint find_fork_loop (fuel : nat) (st : store) (c : chain) (pindex : option ptr) : result chain_error (option ptr) :=
  match pindex with
  | None => Ok None
  | Some p =>
      let* has := Contains st c p in
      if has : bool then Ok (Some p)
      else match fuel with
           | O => Err OutOfFuel
           | S fuel => let* b := deref st p in find_fork_loop fuel st c (pprev b)
           end
  end.

Definition FindFork (st : store) (c : chain) (pindex : option ptr) : result chain_error (option ptr) :=
  match pindex with
  | None => Ok None
  | Some p =>
      let* b := deref st p in
      let* pindex := if Height c <? nHeight b then GetAncestor st p (Height c) else Ok (Some p) in
      find_fork_loop (S (Z.to_nat (nHeight b))) st c pindex
  end.

(** [GetLocator]: hashes of ancestors in growing steps back to genesis. *)
Fixpoint locator_loop (fuel : nat) (st : store) (c : chain) (pindex : option ptr) (nStep : Z) (vHave : list bytes)
  : result chain_error (list bytes) :=
  match pindex with
  | None => Ok vHave
  | Some p =>
      let* b := deref st p in
      let vHave := vHave ++ [phashBlock b] in
      if nHeight b =? 0 then Ok vHave
      else
        match fuel with
        | O => Err OutOfFuel
        | S fuel =>
            let height := Z.max (nHeight b - nStep) 0 in
            let* has := Contains st c p in
            let* next := if has : bool then Ok (chain_at c height) else GetAncestor st p height in
            locator_loop fuel st c next (if (10 <? length vHave)%nat then nStep * 2 else nStep) vHave
        end
  end.
Definition GetLocator (st : store) (c : chain) (pindex : option ptr) : result chain_error (list bytes) :=
  let pindex := match pindex with None => Tip c | _ => pindex end in
  match pindex with
  | None => Ok []
  | Some p => let* b := deref st p in locator_loop (S (Z.to_nat (nHeight b))) st c pindex 1 []
  end.

(** ** The block tree *)

(** [k] steps along [pprev]. *)
Fixpoint walk (st : store) (k : nat) (p : ptr) : option ptr :=
  match k with
  | O => Some p
  | S k => b ← st !! p; q ← pprev b; walk st k q
  end.

Definition prev_ok (st : store) (b : CBlockIndex) : Prop :=
  match pprev b with
  | None => nHeight b = 0
  | Some q => exists bq, st !! q = Some bq /\ nHeight b = nHeight bq + 1
  end.
Definition skip_ok (st : store) (p : ptr) (b : CBlockIndex) : Prop :=
  match pskip b with
  | None => True
  | Some r => walk st (Z.to_nat (nHeight b - GetSkipHeight (nHeight b))) p = Some r
  end.
Definition tree_ok (st : store) : Prop :=
  forall p b, st !! p = Some b -> 0 <= nHeight b /\ prev_ok st b /\ skip_ok st p b.

Lemma land_le_r a b : 0 <= a -> 0 <= b -> Z.land a b <= b.
Proof.
  intros Ha Hb. rewrite <- (Z2N.id a), <- (Z2N.id b) at 1 by done. rewrite <- N2Z.inj_land.
  rewrite <- (Z2N.id b) at 2 by done. apply N2Z.inj_le, N.land_le_r.
Qed.

Lemma InvertLowestOne_bounds n : 0 <= n -> 0 <= InvertLowestOne n <= n /\ (0 < n -> InvertLowestOne n < n).
Proof.
  intros Hn. unfold InvertLowestOne. destruct (Z.eq_dec n 0) as [->|Hn0]; [done|].
  assert (0 <= Z.land n (n - 1) <= n - 1); [|lia].
  split; [apply Z.land_nonneg; lia|]. apply land_le_r; lia.
Qed.

Lemma GetSkipHeight_bounds h : 1 <= h -> 0 <= GetSkipHeight h < h.
Proof.
  intros Hh. unfold GetSkipHeight. destruct (Z.ltb_spec h 2); [lia|]. case_match.
  - pose proof (InvertLowestOne_bounds (h - 1) ltac:(lia)) as [H1 H2].
    pose proof (InvertLowestOne_bounds (InvertLowestOne (h - 1)) ltac:(lia)). lia.
  - pose proof (InvertLowestOne_bounds h ltac:(lia)). lia.
Qed.

Lemma walk_add st a b p : walk st (a + b) p = walk st a p ≫= walk st b.
Proof.
  revert p. induction a as [|a IH]; intros p; [done|]. cbn [walk Nat.add mbind option_bind].
  destruct (st !! p) as [bp|]; [|done]. cbn [walk Nat.add mbind option_bind]. destruct (pprev bp); [apply IH|done].
Qed.

Lemma walk_weaken st st' k p q : st ⊆ st' -> walk st k p = Some q -> walk st' k p = Some q.
Proof.
  intros Hsub. revert p. induction k as [|k IH]; intros p; [done|]. cbn [walk Nat.add mbind option_bind].
  destruct (st !! p) as [b|] eqn:E; [|done]. rewrite (lookup_weaken _ _ _ _ E Hsub). cbn [walk Nat.add mbind option_bind].
  destruct (pprev b); [apply IH|done].
Qed.

Lemma deref_Some st p b : st !! p = Some b -> deref st p = Ok b.
Proof. unfold deref. by intros ->. Qed.

Section tree.
Context (st : store) (Hst : tree_ok st).

Lemma height_nonneg p b : st !! p = Some b -> 0 <= nHeight b.
Proof. intros H. by apply Hst in H as [? _]. Qed.

Lemma walk_ok k p b :
  st !! p = Some b -> Z.of_nat k <= nHeight b ->
  exists q bq, walk st k p = Some q /\ st !! q = Some bq /\ nHeight bq = nHeight b - k.
Proof.
  revert p b. induction k as [|k IH]; intros p b Hp Hk.
  - exists p, b. split_and!; [done|done|lia].
  - destruct (Hst p b Hp) as (_ & Hprev & _). unfold prev_ok in Hprev. cbn [walk Nat.add mbind option_bind]. rewrite Hp. cbn [walk Nat.add mbind option_bind].
    destruct (pprev b) as [q|]; [|lia]. destruct Hprev as (bq & Hq & Hh). cbn [walk Nat.add mbind option_bind].
    destruct (IH q bq Hq) as (r & br & Hw & Hr & Hrh); [lia|]. exists r, br. split_and!; [done|done|lia].
Qed.

(** The loop follows skip pointers only to ancestors above the target, so it
    ends at the ancestor that walking back one by one reaches. *)
Lemma ancestor_loop_spec (fuel : nat) height p b :
  st !! p = Some b -> 0 <= height <= nHeight b -> nHeight b - height <= fuel ->
  exists q, walk st (Z.to_nat (nHeight b - height)) p = Some q
  /\ ancestor_loop fuel st height p (nHeight b) = Ok q.
Proof.
  revert p b. induction fuel as [|fuel IH]; intros p b Hp Hh Hf; cbn [ancestor_loop].
  - destruct (Z.leb_spec (nHeight b) height); [|lia]. exists p. by replace (nHeight b - height) with 0 by lia.
  - destruct (Z.leb_spec (nHeight b) height) as [Hle|Hgt].
    { exists p. by replace (nHeight b - height) with 0 by lia. }
    rewrite (deref_Some st p b Hp). step_bind. destruct (Hst p b Hp) as (_ & Hprev & Hskip).
    assert (exists q, walk st (Z.to_nat (nHeight b - height)) p = Some q /\
      match pprev b with
      | Some r => ancestor_loop fuel st height r (nHeight b - 1)
      | None => Err AssertFailed
      end = Ok q) as Hback.
    { unfold prev_ok in Hprev. destruct (pprev b) as [r|] eqn:Ep; [|lia]. destruct Hprev as (br & Hr & Hrh).
      destruct (IH r br Hr) as (q & Hw & Hl); [lia|lia|]. exists q.
      replace (nHeight b - 1) with (nHeight br) by lia. split; [|done].
      replace (Z.to_nat (nHeight b - height)) with (S (Z.to_nat (nHeight br - height))) by lia.
      cbn [walk Nat.add mbind option_bind]. rewrite Hp. cbn [walk Nat.add mbind option_bind]. by rewrite Ep. }
    destruct (pskip b) as [r|] eqn:Es; [|done].
    pose proof (GetSkipHeight_bounds (nHeight b) ltac:(lia)) as Hsk.
    set (hs := GetSkipHeight (nHeight b)) in *.
    destruct ((hs =? height) || _) eqn:Efollow; [|done].
    assert (height <= hs) as Hge by (destruct (Z.eqb_spec hs height), (Z.ltb_spec height hs); cbn in Efollow; lia || done).
    unfold skip_ok in Hskip. rewrite Es in Hskip. fold hs in Hskip.
    destruct (walk_ok (Z.to_nat (nHeight b - hs)) p b Hp) as (r' & br & Hw & Hr & Hrh); [lia|].
    rewrite Hskip in Hw. injection Hw as <-.
    destruct (IH r br Hr) as (q & Hwq & Hl); [lia|lia|]. exists q.
    replace (nHeight br) with hs in * by lia. split; [|done].
    replace (Z.to_nat (nHeight b - height)) with (Z.to_nat (nHeight b - hs) + Z.to_nat (hs - height))%nat by lia.
    rewrite walk_add, Hskip. cbn [walk Nat.add mbind option_bind]. done.
Qed.

Lemma GetAncestor_spec p b height :
  st !! p = Some b ->
  GetAncestor st p height
  = Ok (if (0 <=? height) && (height <=? nHeight b) then walk st (Z.to_nat (nHeight b - height)) p else None).
Proof.
  intros Hp. unfold GetAncestor. rewrite (deref_Some st p b Hp). step_bind.
  destruct (Z.ltb_spec (nHeight b) height), (Z.ltb_spec height 0), (Z.leb_spec 0 height), (Z.leb_spec height (nHeight b));
    try lia; try done. cbn [orb andb].
  destruct (ancestor_loop_spec (Z.to_nat (nHeight b)) height p b Hp) as (q & -> & ->); [lia|lia|]. done.
Qed.

Lemma GetAncestor_Some p b height :
  st !! p = Some b -> 0 <= height <= nHeight b ->
  exists q bq, GetAncestor st p height = Ok (Some q) /\ walk st (Z.to_nat (nHeight b - height)) p = Some q
  /\ st !! q = Some bq /\ nHeight bq = height.
Proof.
  intros Hp Hh. rewrite (GetAncestor_spec p b height Hp).
  destruct (walk_ok (Z.to_nat (nHeight b - height)) p b Hp) as (q & bq & Hw & Hq & Hqh); [lia|].
  exists q, bq. destruct (Z.leb_spec 0 height), (Z.leb_spec height (nHeight b)); try lia. rewrite Hw.
  split_and!; [done|done|done|lia].
Qed.
End tree.

(** *** Growing the tree *)

Lemma tree_ok_insert st p b :
  tree_ok st -> st !! p = None -> 0 <= nHeight b -> prev_ok (<[p := b]> st) b -> skip_ok (<[p := b]> st) p b ->
  tree_ok (<[p := b]> st).
Proof.
  intros Hst Hp Hh Hprev Hskip q c Hq.
  assert (st ⊆ <[p := b]> st) as Hsub by (by apply insert_subseteq).
  destruct (decide (q = p)) as [->|Hne]; [rewrite lookup_insert_eq in Hq; by injection Hq as <-|].
  rewrite lookup_insert_ne in Hq by done. destruct (Hst q c Hq) as (Hc & Hcp & Hcs). split_and!; [done| |].
  - unfold prev_ok in *. destruct (pprev c) as [r|]; [|done]. destruct Hcp as (br & Hr & Heq).
    exists br. split; [by apply (lookup_weaken _ _ _ _ Hr)|done].
  - unfold skip_ok in *. destruct (pskip c); [|done]. by apply (walk_weaken st).
Qed.

Lemma link_entry_ok st p b prev :
  tree_ok st -> st !! p = None -> pprev b = None -> pskip b = None -> nHeight b = 0 ->
  (forall q, prev = Some q -> is_Some (st !! q)) ->
  exists st' b', link_entry st p b prev = Ok st' /\ tree_ok st' /\ st ⊆ st'
  /\ st' !! p = Some b' /\ pprev b' = prev /\ st' = <[p := b']> st /\ exists skip h, b' = set_links b prev skip h.
Proof.
  intros Hst Hp Hbp Hbs Hbh Hprev. unfold link_entry. destruct prev as [q|].
  - destruct (Hprev q eq_refl) as [bq Hq]. rewrite (deref_Some st q bq Hq). step_bind.
    pose proof (height_nonneg st Hst q bq Hq) as Hqh. assert (q <> p) as Hqp by congruence.
    set (b1 := set_links b (Some q) (pskip b) (nHeight bq + 1)). set (st1 := <[p := b1]> st).
    assert (tree_ok st1) as Hst1.
    { apply tree_ok_insert; [done|done|cbn; lia| |by unfold skip_ok; cbn; rewrite Hbs].
      exists bq. split; [by rewrite lookup_insert_ne|done]. }
    unfold BuildSkip. rewrite (deref_Some st1 p b1) by apply lookup_insert_eq. step_bind. cbn [pprev b1 set_links].
    assert (st1 !! q = Some bq) as Hq1 by (by unfold st1; rewrite lookup_insert_ne).
    pose proof (GetSkipHeight_bounds (nHeight bq + 1) ltac:(lia)) as Hsk. cbn [nHeight b1 set_links].
    destruct (GetAncestor_Some st1 Hst1 q bq (GetSkipHeight (nHeight bq + 1)) Hq1 ltac:(lia)) as (r & br & -> & Hw1 & _). step_bind.
    destruct (walk_ok st Hst (Z.to_nat (nHeight bq - GetSkipHeight (nHeight bq + 1))) q bq Hq ltac:(lia)) as (r' & _ & Hw & _).
    assert (r' = r) as -> by (apply (walk_weaken st st1) in Hw; [congruence|by apply insert_subseteq]).
    unfold st1. rewrite insert_insert_eq. set (b2 := set_links b1 _ _ _). exists (<[p := b2]> st), b2.
    assert (st ⊆ <[p := b2]> st) as Hsub by (by apply insert_subseteq).
    split_and!; [done| |done|apply lookup_insert_eq|done|done|by eexists _, _].
    apply tree_ok_insert; [done|done|cbn; lia|exists bq; split; [by rewrite lookup_insert_ne|done]|].
    unfold skip_ok. cbn [pskip nHeight b2 b1 set_links].
    replace (Z.to_nat (nHeight bq + 1 - GetSkipHeight (nHeight bq + 1)))
      with (S (Z.to_nat (nHeight bq - GetSkipHeight (nHeight bq + 1)))) by lia.
    cbn [walk]. rewrite lookup_insert_eq. cbn [walk Nat.add mbind option_bind]. by apply (walk_weaken st).
  - exists (<[p := b]> st), b. split_and!; [done| |by apply insert_subseteq|apply lookup_insert_eq|done|done|].
    2: { exists None, 0. destruct b. cbn in *. by subst. }
    apply tree_ok_insert; [done|done|lia|by unfold prev_ok; rewrite Hbp|by unfold skip_ok; rewrite Hbs].
Qed.

(** ** The active chain *)

(** The branch that ends in [p]: its ancestors by height. *)
Definition branch (st : store) (p : ptr) (height : Z) : chain :=
  map (fun h => walk st (Z.to_nat height - h) p) (seq 0 (S (Z.to_nat height))).

Definition chain_ok (st : store) (c : chain) : Prop :=
  c = [] \/ exists t bt, st !! t = Some bt /\ c = branch st t (nHeight bt).

Section active.
Context (st : store) (Hst : tree_ok st).

Lemma length_branch p height : length (branch st p height) = S (Z.to_nat height).
Proof. unfold branch. by rewrite length_map, length_seq. Qed.

Lemma nth_branch p height h :
  (h <= Z.to_nat height)%nat -> nth h (branch st p height) None = walk st (Z.to_nat height - h) p.
Proof.
  intros Hh. unfold branch. set (f := fun h => walk st (Z.to_nat height - h) p).
  rewrite (nth_indep _ None (f 0%nat)) by (rewrite length_map, length_seq; lia).
  by rewrite map_nth, seq_nth by lia.
Qed.

(** An entry of a branch has the rest of the branch as its own. *)
Lemma branch_inner t bt q bq h :
  st !! t = Some bt -> st !! q = Some bq -> nth h (branch st t (nHeight bt)) None = Some q ->
  (h <= Z.to_nat (nHeight bt))%nat ->
  h = Z.to_nat (nHeight bq) /\ forall j, (j <= h)%nat -> nth j (branch st t (nHeight bt)) None = walk st (h - j) q.
Proof.
  intros Ht Hq Hn Hh. rewrite nth_branch in Hn by done. pose proof (height_nonneg st Hst t bt Ht) as Hth.
  destruct (walk_ok st Hst (Z.to_nat (nHeight bt) - h) t bt Ht) as (q' & bq' & Hw & Hq' & Hqh); [lia|].
  rewrite Hn in Hw. injection Hw as <-. rewrite Hq in Hq'. injection Hq' as <-.
  split; [lia|]. intros j Hj. rewrite nth_branch by lia.
  replace (Z.to_nat (nHeight bt) - j)%nat with ((Z.to_nat (nHeight bt) - h) + (h - j))%nat by lia.
  rewrite walk_add, Hn. done.
Qed.

Lemma chain_entry c q bq h :
  chain_ok st c -> st !! q = Some bq -> nth h c None = Some q ->
  h = Z.to_nat (nHeight bq) /\ forall j, (j <= h)%nat -> nth j c None = walk st (h - j) q.
Proof.
  intros [-> | (t & bt & Ht & ->)] Hq Hn; [by destruct h|].
  apply (branch_inner t bt); [done..|].
  destruct (Nat.lt_ge_cases h (length (branch st t (nHeight bt)))) as [Hl|Hl].
  - rewrite length_branch in Hl. lia.
  - by rewrite nth_overflow in Hn by done.
Qed.

Lemma nth_resize n c h : (h < n)%nat -> nth h (resize n c) None = nth h c None.
Proof.
  intros Hh. unfold resize. destruct (Nat.lt_ge_cases h (length c)) as [Hl|Hl].
  - rewrite app_nth1 by (rewrite length_take; lia). rewrite <- (take_drop n c) at 2.
    by rewrite app_nth1 by (rewrite length_take; lia).
  - rewrite app_nth2 by (rewrite length_take; lia). rewrite (nth_overflow c) by done.
    destruct (nth_in_or_default (h - length (take n c)) (replicate (n - length c) (@None ptr)) None) as [Hin|H]; [|done].
    apply list_elem_of_In, elem_of_replicate in Hin as [H _]. by rewrite H.
Qed.

Lemma length_resize n c : length (resize n c) = n.
Proof. unfold resize. rewrite length_app, length_take, length_replicate. lia. Qed.

Lemma nth_insert (l : chain) i j x : (i < length l)%nat -> nth j (<[i := x]> l) None = if decide (j = i) then x else nth j l None.
Proof.
  intros Hi. destruct (decide (j = i)) as [->|Hne].
  - apply nth_lookup_Some. by apply list_lookup_insert_eq.
  - rewrite !nth_lookup. by rewrite list_lookup_insert_ne.
Qed.

(** The loop of [SetTip] overwrites the entries above the fork and stops
    there; below, the old entries are already those of the new branch. *)
Lemma set_tip_loop_spec fuel c0 p b k q bq c :
  chain_ok st c0 -> st !! p = Some b -> let n := Z.to_nat (nHeight b) in
  walk st k p = Some q -> st !! q = Some bq -> (k + Z.to_nat (nHeight bq) = n)%nat -> (Z.to_nat (nHeight bq) < fuel)%nat ->
  length c = S n -> (forall h, (h <= Z.to_nat (nHeight bq))%nat -> nth h c None = nth h c0 None) ->
  (forall h, (Z.to_nat (nHeight bq) < h <= n)%nat -> nth h c None = walk st (n - h) p) ->
  set_tip_loop fuel st c (Some q) = Ok (branch st p (nHeight b)).
Proof.
  intros Hc0 Hp n. revert k q bq c. induction fuel as [|fuel IH]; intros k q bq c Hw Hq Hk Hf Hlen Hlow Hhigh; [lia|].
  cbn [set_tip_loop]. rewrite (deref_Some st q bq Hq). step_bind. set (m := Z.to_nat (nHeight bq)) in *.
  assert (forall c', length c' = S n -> (forall h, (h <= n)%nat -> nth h c' None = walk st (n - h) p) ->
          c' = branch st p (nHeight b)) as Hext.
  { intros c' Hl Hn. apply (nth_ext _ _ None None); [by rewrite length_branch|].
    intros h Hh. rewrite Hn, nth_branch by (unfold n in *; lia). done. }
  destruct (bool_decide_reflect (nth m c None = Some q)) as [He|He].
  - f_equal. apply Hext; [done|]. intros h Hh. destruct (decide (h <= m)%nat) as [Hle|Hgt]; [|apply Hhigh; lia].
    rewrite Hlow in He by lia. destruct (chain_entry c0 q bq m Hc0 Hq He) as [_ Hin].
    rewrite Hlow, Hin by lia. replace (n - h)%nat with (k + (m - h))%nat by lia. by rewrite walk_add, Hw.
  - set (c' := <[m := Some q]> c).
    assert (length c' = S n) as Hl' by (unfold c'; by rewrite length_insert).
    assert (forall h, (m <= h <= n)%nat -> nth h c' None = walk st (n - h) p) as Hhigh'.
    { intros h Hh. unfold c'. rewrite nth_insert by lia. destruct (decide (h = m)) as [->|]; [|apply Hhigh; lia].
      replace (n - m)%nat with k by lia. done. }
    destruct (Hst q bq Hq) as (Hqh & Hprev & _). unfold prev_ok in Hprev. destruct (pprev bq) as [r|] eqn:Er.
    + destruct Hprev as (br & Hr & Hrh). pose proof (height_nonneg st Hst r br Hr).
      apply (IH (S k) r br); [|done|lia|lia|done| |].
      * replace (S k) with (k + 1)%nat by lia. rewrite walk_add, Hw. cbn [walk mbind option_bind]. rewrite Hq. cbn [mbind option_bind]. by rewrite Er.
      * intros h Hh. unfold c'. rewrite nth_insert by lia. destruct (decide (h = m)); [lia|]. apply Hlow. lia.
      * intros h Hh. apply Hhigh'. lia.
    + destruct fuel; cbn [set_tip_loop]; f_equal; (apply Hext; [done|]; intros h Hh; apply Hhigh'; lia).
Qed.

Lemma SetTip_branch c p b :
  chain_ok st c -> st !! p = Some b -> SetTip st c (Some p) = Ok (branch st p (nHeight b)).
Proof.
  intros Hc Hp. unfold SetTip. rewrite (deref_Some st p b Hp). step_bind.
  pose proof (height_nonneg st Hst p b Hp).
  apply (set_tip_loop_spec _ c p b 0 p b); [done|done|done|done|lia|lia| | |lia].
  - rewrite length_resize. lia.
  - intros h Hh. apply nth_resize. lia.
Qed.

Lemma chain_at_spec c h : 0 <= h -> chain_at c h = nth (Z.to_nat h) c None.
Proof.
  intros Hh. unfold chain_at. destruct (Z.ltb_spec h 0); [lia|]. destruct (Z.leb_spec (length c) h); [|done].
  cbn [orb]. by rewrite nth_overflow by lia.
Qed.

Lemma Contains_spec c p b :
  st !! p = Some b -> Contains st c p = Ok (bool_decide (nth (Z.to_nat (nHeight b)) c None = Some p)).
Proof.
  intros Hp. unfold Contains. rewrite (deref_Some st p b Hp). step_bind.
  by rewrite chain_at_spec by (by eapply height_nonneg).
Qed.

(** *** Forks *)

Definition in_chain (c : chain) (p : ptr) : Prop :=
  exists b, st !! p = Some b /\ nth (Z.to_nat (nHeight b)) c None = Some p.

(** [r] is the first ancestor of [p], counted from [p], that is in the
    chain, or there is none. *)
Definition last_common (c : chain) (p : ptr) (r : option ptr) : Prop :=
  match r with
  | Some f => exists k, walk st k p = Some f /\ in_chain c f
              /\ forall j q, (j < k)%nat -> walk st j p = Some q -> ~ in_chain c q
  | None => forall j q, walk st j p = Some q -> ~ in_chain c q
  end.

Lemma walk_end p b k q : st !! p = Some b -> walk st k p = Some q -> Z.of_nat k <= nHeight b.
Proof.
  revert p b. induction k as [|k IH]; intros p b Hp Hw; [pose proof (height_nonneg st Hst p b Hp); lia|].
  cbn [walk] in Hw. rewrite Hp in Hw. cbn [mbind option_bind] in Hw.
  destruct (Hst p b Hp) as (_ & Hprev & _). unfold prev_ok in Hprev. destruct (pprev b) as [r|]; [|done].
  destruct Hprev as (br & Hr & Hh). cbn [mbind option_bind] in Hw. specialize (IH r br Hr Hw). lia.
Qed.

Lemma find_fork_loop_spec fuel c p b k q bq :
  st !! p = Some b -> walk st k p = Some q -> st !! q = Some bq -> (Z.to_nat (nHeight bq) < fuel)%nat ->
  (forall j r, (j < k)%nat -> walk st j p = Some r -> ~ in_chain c r) ->
  exists r, find_fork_loop fuel st c (Some q) = Ok r /\ last_common c p r.
Proof.
  intros Hp. revert k q bq. induction fuel as [|fuel IH]; intros k q bq Hw Hq Hf Hbefore; [lia|].
  cbn [find_fork_loop]. rewrite (Contains_spec c q bq Hq). step_bind.
  destruct (bool_decide_reflect (nth (Z.to_nat (nHeight bq)) c None = Some q)) as [Hin|Hin].
  - exists (Some q). split; [done|]. exists k. split_and!; [done|by exists bq|done].
  - rewrite (deref_Some st q bq Hq). step_bind.
    assert (forall j r, (j < S k)%nat -> walk st j p = Some r -> ~ in_chain c r) as Hbefore'.
    { intros j r Hj Hr. destruct (decide (j = k)) as [->|]; [|apply (Hbefore j); [lia|done]].
      rewrite Hw in Hr. injection Hr as <-. intros (b' & Hb' & Hn). rewrite Hq in Hb'. by injection Hb' as <-. }
    destruct (Hst q bq Hq) as (Hqh & Hprev & _). unfold prev_ok in Hprev. destruct (pprev bq) as [r|] eqn:Er.
    + destruct Hprev as (br & Hr & Hrh). pose proof (height_nonneg st Hst r br Hr).
      apply (IH (S k) r br); [|done|lia|done].
      replace (S k) with (k + 1)%nat by lia. rewrite walk_add, Hw. cbn [walk mbind option_bind]. rewrite Hq. cbn [mbind option_bind]. by rewrite Er.
    + exists None. split; [by destruct fuel|]. intros j r Hr. apply (Hbefore' j r); [|done].
      destruct (Nat.lt_ge_cases j (S k)) as [|Hge]; [done|].
      replace j with (k + S (j - S k))%nat in Hr by lia. rewrite walk_add, Hw in Hr.
      cbn [walk mbind option_bind] in Hr. rewrite Hq in Hr. cbn [mbind option_bind] in Hr. by rewrite Er in Hr.
Qed.

Lemma FindFork_last_common c p b :
  st !! p = Some b -> exists r, FindFork st c (Some p) = Ok r /\ last_common c p r.
Proof.
  intros Hp. unfold FindFork. rewrite (deref_Some st p b Hp). step_bind. pose proof (height_nonneg st Hst p b Hp) as Hh.
  assert (forall j q, walk st j p = Some q -> Height c < nHeight b - j -> ~ in_chain c q) as Habove.
  { intros j q Hw Hj (bq & Hq & Hn). pose proof (walk_end p b j q Hp Hw).
    destruct (walk_ok st Hst j p b Hp) as (q' & bq' & Hw' & Hq' & Hqh); [lia|].
    rewrite Hw in Hw'. injection Hw' as <-. rewrite Hq in Hq'. injection Hq' as <-.
    unfold Height in Hj. by rewrite nth_overflow in Hn by lia. }
  destruct (Z.ltb_spec (Height c) (nHeight b)) as [Hlt|Hge].
  - destruct (decide (0 <= Height c)) as [Hc|Hc].
    + destruct (GetAncestor_Some st Hst p b (Height c) Hp ltac:(lia)) as (q & bq & -> & Hw & Hq & Hqh). step_bind.
      apply (find_fork_loop_spec _ c p b _ q bq Hp Hw Hq); [lia|].
      intros j r Hj Hr. apply (Habove j); [done|lia].
    + rewrite (GetAncestor_spec st Hst p b (Height c) Hp). destruct (Z.leb_spec 0 (Height c)); [lia|]. step_bind. cbn [andb].
      exists None. split; [done|]. intros j q Hw. apply (Habove j); [done|].
      pose proof (walk_end p b j q Hp Hw). lia.
  - step_bind. apply (find_fork_loop_spec _ c p b 0 p b Hp eq_refl Hp); lia.
Qed.
End active.

(** *** Locators *)

(** The heights a locator visits. *)
Fixpoint locator_heights (fuel : nat) (h nStep : Z) (count : nat) : list Z :=
  h :: if h =? 0 then []
       else match fuel with
            | O => []
            | S fuel => locator_heights fuel (Z.max (h - nStep) 0) (if (10 <? S count)%nat then nStep * 2 else nStep) (S count)
            end.

Definition ancestor_hash (st : store) (p : ptr) (height h : Z) : bytes :=
  match walk st (Z.to_nat (height - h)) p ≫= fun q => st !! q with Some b => phashBlock b | None => [] end.

Lemma locator_loop_spec st c p b fuel q bq nStep vHave :
  tree_ok st -> chain_ok st c -> st !! p = Some b ->
  walk st (Z.to_nat (nHeight b - nHeight bq)) p = Some q -> st !! q = Some bq -> nHeight bq <= nHeight b ->
  1 <= nStep -> nHeight bq <= Z.of_nat fuel ->
  locator_loop fuel st c (Some q) nStep vHave
  = Ok (vHave ++ map (ancestor_hash st p (nHeight b)) (locator_heights fuel (nHeight bq) nStep (length vHave))).
Proof.
  intros Hst Hc Hp. revert q bq nStep vHave. induction fuel as [|fuel IH]; intros q bq nStep vHave Hw Hq Hle Hs Hf;
    pose proof (height_nonneg st Hst q bq Hq) as Hqh; cbn [locator_loop locator_heights]; rewrite (deref_Some st q bq Hq); step_bind;
    assert (ancestor_hash st p (nHeight b) (nHeight bq) = phashBlock bq) as Hhash
      by (unfold ancestor_hash; rewrite Hw; cbn [mbind option_bind]; by rewrite Hq).
  - destruct (Z.eqb_spec (nHeight bq) 0); [|lia]. cbn [map]. by rewrite Hhash.
  - destruct (Z.eqb_spec (nHeight bq) 0) as [|Hn0]; [cbn [map]; by rewrite Hhash|].
    set (h := Z.max (nHeight bq - nStep) 0). rewrite (Contains_spec st Hst c q bq Hq). step_bind.
    destruct (walk_ok st Hst (Z.to_nat (nHeight bq - h)) q bq Hq) as (r & br & Hwr & Hr & Hrh); [lia|].
    replace (if bool_decide _ then Ok (chain_at c h) else GetAncestor st q h) with (Ok (E := chain_error) (Some r)).
    2: { case_bool_decide as Hin.
      - destruct (chain_entry st Hst c q bq _ Hc Hq Hin) as [_ Hj]. rewrite chain_at_spec by lia.
        rewrite (Hj (Z.to_nat h)) by lia. f_equal. rewrite <- Hwr. f_equal. lia.
      - rewrite (GetAncestor_spec st Hst q bq h Hq).
        destruct (Z.leb_spec 0 h), (Z.leb_spec h (nHeight bq)); try lia. cbn [andb]. by rewrite Hwr. }
    step_bind. rewrite (IH r br); [| |done|lia| |lia].
    + cbn [map]. rewrite Hhash, length_app, <- app_assoc. cbn [length app].
      replace (length vHave + 1)%nat with (S (length vHave)) by lia. by replace (nHeight br) with h by lia.
    + replace (Z.to_nat (nHeight b - nHeight br)) with (Z.to_nat (nHeight b - nHeight bq) + Z.to_nat (nHeight bq - h))%nat by lia.
      by rewrite walk_add, Hw.
    + case_match; lia.
Qed.

Lemma locator_heights_spec fuel h nStep count :
  0 <= h <= Z.of_nat fuel -> 1 <= nStep ->
  last (locator_heights fuel h nStep count) = Some 0
  /\ Forall (fun x => 0 <= x <= h) (locator_heights fuel h nStep count)
  /\ StronglySorted Z.gt (locator_heights fuel h nStep count).
Proof.
  revert h nStep count. induction fuel as [|fuel IH]; intros h nStep count Hh Hs; cbn [locator_heights].
  - assert (h = 0) as -> by lia. cbn. split_and!; [done|repeat constructor; lia|repeat constructor].
  - destruct (Z.eqb_spec h 0) as [->|Hn]; [split_and!; [done|repeat constructor; lia|repeat constructor]|].
    destruct (IH (Z.max (h - nStep) 0) (if (10 <? S count)%nat then nStep * 2 else nStep) (S count)) as (Hl & Hf & Hss);
      [lia|case_match; lia|].
    split_and!.
    + destruct (locator_heights fuel _ _ _) as [|x l] eqn:E; [done|]. exact Hl.
    + constructor; [lia|]. eapply Forall_impl; [exact Hf|]. cbn. lia.
    + constructor; [done|]. eapply Forall_impl; [exact Hf|]. cbn. lia.
Qed.

(** ** Median time *)

Definition count_ge (x : Z) (l : list Z) : nat := length (filter (fun y => x <= y) l).

Lemma count_ge_app x l l' : count_ge x (l ++ l') = (count_ge x l + count_ge x l')%nat.
Proof. unfold count_ge. by rewrite filter_app, length_app. Qed.
Lemma count_ge_le x l : (count_ge x l <= length l)%nat.
Proof. unfold count_ge. apply length_filter. Qed.
Lemma count_ge_all x l : Forall (fun y => x <= y) l -> count_ge x l = length l.
Proof. intros H. unfold count_ge. induction H as [|y l Hy Hl IH]; [done|]. rewrite filter_cons_True by done. cbn. by rewrite IH. Qed.
Lemma count_ge_none x l : Forall (fun y => y < x) l -> count_ge x l = 0%nat.
Proof. intros H. unfold count_ge. induction H as [|y l Hy Hl IH]; [done|]. rewrite filter_cons_False by lia. done. Qed.

Lemma sorted_split s i :
  StronglySorted Z.le s -> (i < length s)%nat ->
  exists l r, s = l ++ nth i s 0 :: r /\ length l = i
  /\ Forall (fun y => y <= nth i s 0) l /\ Forall (fun y => nth i s 0 <= y) r.
Proof.
  intros Hs Hi. destruct (lookup_lt_is_Some_2 s i Hi) as [x Hx].
  rewrite (nth_lookup_Some _ _ 0 _ Hx). pose proof (take_drop_middle s i x Hx) as E.
  exists (take i s), (drop (S i) s). rewrite E. rewrite <- E in Hs.
  split_and!; [done|rewrite length_take; lia| |]; apply Forall_forall; intros y Hy.
  - apply (StronglySorted_app_1_elem_of Z.le _ _ y x Hs); [done|left].
  - assert (StronglySorted Z.le (x :: drop (S i) s)) as Hs'.
    { by apply StronglySorted_app in Hs as (_ & _ & ?). }
    apply StronglySorted_inv in Hs' as [_ Hall]. eapply Forall_forall in Hall; [exact Hall|done].
Qed.

(** The element at index [i] of the sorted list is the largest number that at
    least [length - i] elements reach. *)
Lemma sorted_nth_count s i x :
  StronglySorted Z.le s -> (i < length s)%nat ->
  x <= nth i s 0 <-> (length s - i <= count_ge x s)%nat.
Proof.
  intros Hs Hi. destruct (sorted_split s i Hs Hi) as (l & r & E & Hl & Hle & Hge). set (y := nth i s 0) in *.
  rewrite E, count_ge_app, length_app. cbn [length]. split.
  - intros Hx. rewrite (count_ge_all x (y :: r)); [cbn; lia|].
    constructor; [done|]. eapply Forall_impl; [exact Hge|]. cbn. lia.
  - intros Hc. destruct (Z.le_gt_cases x y) as [|Hlt]; [done|]. exfalso.
    rewrite (count_ge_none x l) in Hc by (eapply Forall_impl; [exact Hle|]; cbn; lia).
    unfold count_ge in Hc. rewrite filter_cons_False in Hc by lia.
    pose proof (count_ge_le x r). unfold count_ge in *. lia.
Qed.

Lemma median_count l x : l <> [] -> x <= median l <-> (length l - length l / 2 <= count_ge x l)%nat.
Proof.
  intros Hl. unfold median. pose proof (merge_sort_Permutation Z.le l) as Hp.
  assert (count_ge x l = count_ge x (merge_sort Z.le l)) as -> by (unfold count_ge; by rewrite Hp).
  rewrite <- (Permutation_length Hp) at 2. apply sorted_nth_count; [apply StronglySorted_merge_sort; apply _|].
  rewrite (Permutation_length Hp). destruct l; [done|]. apply Nat.div_lt; cbn; lia.
Qed.

(** Dropping at most one old time and adding one above the median never
    lowers the median. *)
Lemma median_push o l t :
  (length o <= 1)%nat -> o ++ l <> [] -> median (o ++ l) < t -> median (o ++ l) <= median (l ++ [t]).
Proof.
  intros Ho Hne Ht. apply median_count; [by destruct l|].
  pose proof (proj1 (median_count (o ++ l) (median (o ++ l)) Hne) (Z.le_refl _)) as Hc.
  rewrite count_ge_app, length_app in *. cbn [length]. rewrite (count_ge_all _ [t]) by (repeat constructor; lia). cbn [length].
  set (m := median (o ++ l)) in *. pose proof (count_ge_le m o).
  replace (length l + 1)%nat with (S (length l)) by lia.
  destruct o as [|x [|y o]]; cbn [length Nat.add] in *; [|lia|lia].
  pose proof (Nat.Div0.div_le_mono (length l) (S (length l)) 2 ltac:(lia)). lia.
Qed.

Lemma past_times_ok st n p b :
  tree_ok st -> st !! p = Some b ->
  exists o l, past_times n st (Some p) = Ok l /\ past_times (S n) st (Some p) = Ok (o ++ l)
  /\ (length o <= 1)%nat /\ o ++ l <> [].
Proof.
  intros Hst. revert p b. induction n as [|n IH]; intros p b Hp.
  - exists [bi_nTime b], []. cbn [past_times]. rewrite (deref_Some st p b Hp). step_bind.
    split_and!; [done|by destruct (pprev b)|cbn; lia|done].
  - destruct (Hst p b Hp) as (_ & Hprev & _). unfold prev_ok in Hprev.
    rewrite (eq_refl : past_times (S (S n)) st (Some p) =
      bindR (deref st p) (fun b => bindR (past_times (S n) st (pprev b)) (fun l => Ok (l ++ [bi_nTime b])))).
    rewrite (eq_refl : past_times (S n) st (Some p) =
      bindR (deref st p) (fun b => bindR (past_times n st (pprev b)) (fun l => Ok (l ++ [bi_nTime b])))).
    rewrite (deref_Some st p b Hp). step_bind. destruct (pprev b) as [q|].
    + destruct Hprev as (bq & Hq & _). destruct (IH q bq Hq) as (o & l & -> & -> & Ho & _). step_bind.
      exists o, (l ++ [bi_nTime b]). rewrite <- app_assoc. split_and!; [done|done|done|]. by destruct o, l.
    + exists [], [bi_nTime b]. destruct n; cbn; split_and!; done || lia.
Qed.

(** ** Properties *)

(** C33: on a well-formed block tree [GetAncestor] terminates without failing
    an assertion and returns the entry that walking back along [pprev] to the
    requested height reaches, or null when the height is negative or above the
    entry: following skip pointers is only a short cut. *)
Theorem GetAncestor_is_walk st p b height :
  tree_ok st -> st !! p = Some b ->
  GetAncestor st p height
  = Ok (if (0 <=? height) && (height <=? nHeight b) then walk st (Z.to_nat (nHeight b - height)) p else None)
  /\ (0 <= height <= nHeight b ->
      exists q bq, GetAncestor st p height = Ok (Some q) /\ st !! q = Some bq /\ nHeight bq = height).
Proof.
  intros Hst Hp. split; [by apply GetAncestor_spec|]. intros Hh.
  destruct (GetAncestor_Some st Hst p b height Hp Hh) as (q & bq & Hq & _ & ? & ?). eauto.
Qed.

(** Linking a new entry to a block of the tree, or as a genesis block,
    succeeds, computes its height and skip pointer and keeps the tree well
    formed; no existing entry changes. *)
Theorem link_entry_preserves_tree st p block prev :
  tree_ok st -> st !! p = None -> (forall q, prev = Some q -> is_Some (st !! q)) ->
  exists st' b', link_entry st p (CBlockIndex_new block) prev = Ok st' /\ tree_ok st' /\ st ⊆ st'
  /\ st' !! p = Some b' /\ pprev b' = prev.
Proof.
  intros Hst Hp Hprev. destruct (link_entry_ok st p (CBlockIndex_new block) prev) as (st' & b' & ? & ? & ? & ? & ? & _);
    [done..|]. eauto 10.
Qed.

(** Whatever branch the chain held before, [SetTip] leaves exactly the
    ancestors of the new tip, by height, and [FindFork] finds the last block of
    a branch that is in the active chain, or null if none is. *)
Theorem active_chain_exact st c p b :
  tree_ok st -> chain_ok st c -> st !! p = Some b ->
  SetTip st c (Some p) = Ok (branch st p (nHeight b)) /\ chain_ok st (branch st p (nHeight b))
  /\ SetTip st c None = Ok []
  /\ exists r, FindFork st c (Some p) = Ok r /\ last_common st c p r.
Proof.
  intros Hst Hc Hp. split_and!; [by apply SetTip_branch| |done|by eapply FindFork_last_common].
  right. eauto.
Qed.

(** A locator lists, from the starting block down, the hashes of its
    ancestors at strictly decreasing heights and ends with the genesis block,
    and it is the same whether the active chain or the skip list is used to
    find them. *)
Theorem GetLocator_reaches_genesis st c p b :
  tree_ok st -> chain_ok st c -> st !! p = Some b ->
  let heights := locator_heights (S (Z.to_nat (nHeight b))) (nHeight b) 1 0 in
  GetLocator st c (Some p) = Ok (map (ancestor_hash st p (nHeight b)) heights)
  /\ last heights = Some 0 /\ StronglySorted Z.gt heights.
Proof.
  intros Hst Hc Hp heights. pose proof (height_nonneg st Hst p b Hp).
  destruct (locator_heights_spec (S (Z.to_nat (nHeight b))) (nHeight b) 1 0) as (Hl & _ & Hs); [lia|lia|].
  split_and!; [|done|done]. unfold GetLocator. rewrite (deref_Some st p b Hp). step_bind.
  rewrite (locator_loop_spec st c p b _ p b 1 []); [done|done|done|done| |done|lia|lia|lia].
  by rewrite Z.sub_diag.
Qed.

(** A block whose time is above the median time of its parent does not
    lower the median: along a chain that satisfies this rule the median time
    past never decreases. *)
Theorem median_time_monotone st p b q m :
  tree_ok st -> st !! p = Some b -> pprev b = Some q -> GetMedianTimePast st q = Ok m -> m < bi_nTime b ->
  exists m', GetMedianTimePast st p = Ok m' /\ m <= m'.
Proof.
  intros Hst Hp Hq Hm Ht. destruct (Hst p b Hp) as (_ & Hprev & _). unfold prev_ok in Hprev. rewrite Hq in Hprev.
  destruct Hprev as (bq & Hbq & _).
  destruct (past_times_ok st 10 q bq Hst Hbq) as (o & l & Hl & Hol & Ho & Hne).
  unfold GetMedianTimePast, nMedianTimeSpan in *. rewrite Hol in Hm. injection Hm as <-.
  rewrite (eq_refl : past_times 11 st (Some p) =
      bindR (deref st p) (fun b => bindR (past_times 10 st (pprev b)) (fun l => Ok (l ++ [bi_nTime b])))).
  rewrite (deref_Some st p b Hp). step_bind. rewrite Hq, Hl. step_bind.
  eexists; split; [done|]. by apply median_push.
Qed.

(** *** A small tree *)

Definition example_entry : CBlockIndex := CBlockIndex_new header_null.
Definition example_child : CBlockIndex :=
  set_links (CBlockIndex_new (BlockHeader 4 null256 null256 null256 7 0 null256 [])) (Some 1%positive) (Some 1%positive) 1.
Definition example_store : store := <[2%positive := example_child]> {[1%positive := example_entry]}.

Lemma example_store_ok : tree_ok example_store.
Proof.
  intros p b H. unfold example_store in H. apply lookup_insert_Some in H as [[<- <-]|[Hne H]].
  - split_and!; [done| |done]. by exists example_entry.
  - apply lookup_singleton_Some in H as [<- <-]. done.
Qed.

Lemma GetAncestor_is_walk_witness : GetAncestor example_store 2 0 = Ok (Some 1%positive).
Proof. by rewrite (proj1 (GetAncestor_is_walk example_store 2 example_child 0 example_store_ok eq_refl)). Defined.

Lemma link_entry_preserves_tree_witness :
  exists st' b', link_entry example_store 3 (CBlockIndex_new header_null) (Some 2%positive) = Ok st' /\ tree_ok st'
  /\ example_store ⊆ st' /\ st' !! 3%positive = Some b' /\ pprev b' = Some 2%positive.
Proof.
  apply (link_entry_preserves_tree example_store 3 header_null (Some 2%positive)); [apply example_store_ok|reflexivity|].
  intros q [= <-]. by exists example_child.
Defined.

Lemma active_chain_exact_witness :
  SetTip example_store [] (Some 2%positive) = Ok [Some 1%positive; Some 2%positive].
Proof.
  apply (active_chain_exact example_store [] 2 example_child); [apply example_store_ok|by left|reflexivity].
Defined.

Lemma GetLocator_reaches_genesis_witness :
  GetLocator example_store [] (Some 2%positive) = Ok [null256; null256].
Proof.
  apply (GetLocator_reaches_genesis example_store [] 2 example_child); [apply example_store_ok|by left|reflexivity].
Defined.

Lemma median_time_monotone_witness :
  exists m', GetMedianTimePast example_store 2 = Ok m' /\ 0 <= m'.
Proof.
  apply (median_time_monotone example_store 2 example_child 1 0);
    [apply example_store_ok|reflexivity|reflexivity|reflexivity|by vm_compute].
Defined.
