(* ===== verification/Params.v ===== *)
(** * Consensus parameters, network upgrades, funding streams and subsidy

    [Consensus::Params] and the code that only reads it: consensus/params.cpp,
    consensus/upgrades.cpp, consensus/funding.cpp and [GetBlockSubsidy] of
    main.cpp. Failed assertions, divisions by a zero parameter and shifts by a
    negative amount are errors. [int] results wrap at 32 bits.

    The theorems say that the current epoch is the latest active upgrade and
    changes at activation heights only, that a validated funding stream has
    an address for every height of its range and that the streams never take
    more than the subsidy, and that the subsidies of any number of blocks sum
    to less than the money supply. *)

From S2P Require Import Prelude ArithUint Amount.
Local Open Scope Z_scope.
Local Open Scope code_scope.

(** ** Definitions *)

Inductive param_error :=
| ParamAssert         (* an assert does not hold *)
| ParamDivision       (* division by a zero parameter *)
| ParamShift.         (* shift by a negative amount *)

(** [UpgradeIndex], an enumeration over [uint32_t]. *)
Definition BASE_SPROUT : Z := 0.
Definition UPGRADE_TESTDUMMY : Z := 1.
Definition UPGRADE_OVERWINTER : Z := 2.
Definition UPGRADE_SAPLING : Z := 3.
Definition UPGRADE_CANOPY : Z := 4.
Definition MAX_NETWORK_UPGRADES : Z := 5.

Record NetworkUpgrade := Upgrade {
  nProtocolVersion : Z; nActivationHeight : Z; hashActivationBlock : option bytes }.
#[export] Instance NetworkUpgrade_inhabited : Inhabited NetworkUpgrade := populate (Upgrade 0 0 None).
Definition ALWAYS_ACTIVE : Z := 0.
Definition NO_ACTIVATION_HEIGHT : Z := -1.

Definition MAX_FUNDING_STREAMS : Z := 3.
Inductive FundingStreamError := CANOPY_NOT_ACTIVE | ILLEGAL_RANGE | INSUFFICIENT_ADDRESSES.

(** The address of a stream is a script. *)
Record FundingStream := Stream { startHeight : Z; endHeight : Z; addresses : list bytes }.

(** [Consensus::Params]. *)
Record Params := ConsensusParams {
  hashGenesisBlock : bytes; fCoinbaseMustBeShielded : bool; nSubsidyHalvingInterval : Z;
  nMajorityEnforceBlockUpgrade : Z; nMajorityRejectBlockOutdated : Z; nMajorityWindow : Z;
  vUpgrades : list NetworkUpgrade; nFundingPeriodLength : Z; vFundingStreams : list (option FundingStream);
  nEquihashN : Z; nEquihashK : Z; powLimit : bytes; nPowAllowMinDifficultyBlocksAfterHeight : option Z;
  nPowAveragingWindow : Z; nPowMaxAdjustDown : Z; nPowMaxAdjustUp : Z; nPowTargetSpacing : Z;
  nMinimumChainWork : bytes; vCommunityFeeStartHeight : Z; vCommunityFeeLastHeight : Z }.

(** *** Network upgrades *)

Record NUInfo := UpgradeInfo { nBranchId : Z; strName : string; strInfo : string }.
#[export] Instance NUInfo_inhabited : Inhabited NUInfo := populate (UpgradeInfo 0 EmptyString EmptyString).
Definition NetworkUpgradeInfo : list NUInfo :=
  [ UpgradeInfo 0 "Sprout" "The BitcoinZ network at launch";
    UpgradeInfo 0x74736554 "Test dummy" "Test dummy info";
    UpgradeInfo 0x5ba81b19 "Overwinter" "See https://z.cash/upgrade/overwinter.html for details.";
    UpgradeInfo 0x76b809bb "Sapling" "See https://z.cash/upgrade/sapling.html for details.";
    UpgradeInfo 0xe9ff75a6 "Canopy" "See https://z.cash/upgrade/canopy/ for details." ].
Definition branch_id (idx : Z) : Z := nBranchId (NetworkUpgradeInfo !!! Z.to_nat idx).
Definition SPROUT_BRANCH_ID : Z := branch_id BASE_SPROUT.

Inductive UpgradeState := UPGRADE_DISABLED | UPGRADE_PENDING | UPGRADE_ACTIVE.
#[export] Instance UpgradeState_eq_dec : EqDecision UpgradeState.
Proof. solve_decision. Defined.

Definition activation (params : Params) (idx : Z) : Z := nActivationHeight (vUpgrades params !!! Z.to_nat idx).
Definition is_upgrade (idx : Z) : bool := (BASE_SPROUT <=? idx) && (idx <? MAX_NETWORK_UPGRADES).

Definition NetworkUpgradeState (nHeight : Z) (params : Params) (idx : Z) : result param_error UpgradeState :=
  require 0 <=? nHeight orelse ParamAssert in
  require is_upgrade idx orelse ParamAssert in
  let nActivationHeight := activation params idx in
  Ok (if nActivationHeight =? NO_ACTIVATION_HEIGHT then UPGRADE_DISABLED
      else if nActivationHeight <=? nHeight then UPGRADE_ACTIVE else UPGRADE_PENDING).

Definition NetworkUpgradeActive (params : Params) (nHeight idx : Z) : result param_error bool :=
  let* s := NetworkUpgradeState nHeight params idx in Ok (bool_decide (s = UPGRADE_ACTIVE)).

(** The loop variable is unsigned: below Sprout it wraps to the largest
    [uint32_t], so the loop condition never fails and the assertion of
    [NetworkUpgradeState] stops the loop. [n] is the index plus one. *)
Fixpoint epoch_loop (n : nat) (nHeight : Z) (params : Params) : result param_error Z :=
  match n with
  | O => let* _ := NetworkUpgradeActive params nHeight (to_u32 (BASE_SPROUT - 1)) in Ok BASE_SPROUT
  | S idxInt =>
      let* active := NetworkUpgradeActive params nHeight idxInt in
      if active : bool then Ok (Z.of_nat idxInt) else epoch_loop idxInt nHeight params
  end.
Definition CurrentEpoch (nHeight : Z) (params : Params) : result param_error Z :=
  epoch_loop (Z.to_nat MAX_NETWORK_UPGRADES) nHeight params.

Definition CurrentEpochBranchId (nHeight : Z) (params : Params) : result param_error Z :=
  let* e := CurrentEpoch nHeight params in Ok (branch_id e).

(** The indices [BASE_SPROUT + 1 .. MAX_NETWORK_UPGRADES - 1] of the loops. *)
Definition upgrades_after_sprout : list Z := [1; 2; 3; 4].

Definition PrevEpochBranchId (currentBranchId : Z) (params : Params) : Z :=
  match list_find (fun idx => currentBranchId = branch_id idx) upgrades_after_sprout with
  | Some (_, idx) => branch_id (idx - 1)
  | None => branch_id BASE_SPROUT
  end.

(** The argument is an [int], compared as [uint32_t]. *)
Definition IsConsensusBranchId (branchId : Z) : bool :=
  existsb (fun idx => to_u32 branchId =? branch_id idx) (BASE_SPROUT :: upgrades_after_sprout).

Definition IsActivationHeight (nHeight : Z) (params : Params) (idx : Z) : result param_error bool :=
  require is_upgrade idx orelse ParamAssert in
  Ok (if idx =? BASE_SPROUT then false else (0 <=? nHeight) && (nHeight =? activation params idx)).

Definition IsActivationHeightForAnyUpgrade (nHeight : Z) (params : Params) : bool :=
  if nHeight <? 0 then false
  else existsb (fun idx => nHeight =? activation params idx) upgrades_after_sprout.

Fixpoint next_epoch_loop (idxs : list Z) (nHeight : Z) (params : Params) : result param_error (option Z) :=
  match idxs with
  | [] => Ok None
  | idx :: idxs =>
      let* s := NetworkUpgradeState nHeight params idx in
      if decide (s = UPGRADE_PENDING) then Ok (Some idx) else next_epoch_loop idxs nHeight params
  end.
Definition NextEpoch (nHeight : Z) (params : Params) : result param_error (option Z) :=
  if nHeight <? 0 then Ok None else next_epoch_loop upgrades_after_sprout nHeight params.
Definition NextActivationHeight (nHeight : Z) (params : Params) : result param_error (option Z) :=
  let* idx := NextEpoch nHeight params in Ok (activation params <$> idx).

(** *** Halvings and the subsidy *)

Definition Halving (params : Params) (nHeight : Z) : result param_error Z :=
  require negb (nSubsidyHalvingInterval params =? 0) orelse ParamDivision in
  Ok (to_i32 (Z.quot nHeight (nSubsidyHalvingInterval params))).
Definition HalvingHeight (params : Params) (halvingIndex : Z) : result param_error Z :=
  require 0 <? halvingIndex orelse ParamAssert in
  Ok (to_i32 (nSubsidyHalvingInterval params * halvingIndex)).
Definition GetCommunityFeeStartHeight (params : Params) : Z := vCommunityFeeStartHeight params.
Definition GetLastCommunityFeeBlockHeight (params : Params) : Z := vCommunityFeeLastHeight params.

Definition GetBlockSubsidy (nHeight : Z) (params : Params) : result param_error Z :=
  let nSubsidy := to_i64 (12500 * COIN) in
  let* halvings := Halving params nHeight in
  if 64 <=? halvings then Ok 0
  else require 0 <=? halvings orelse ParamShift in
       Ok (Z.shiftr nSubsidy halvings).

(** *** Funding streams *)

Definition FundingPeriodIndex (params : Params) (fundingStreamStartHeight nHeight : Z) : result param_error Z :=
  let* firstHalvingHeight := HalvingHeight params 1 in
  let len := nFundingPeriodLength params in
  require negb (len =? 0) orelse ParamDivision in
  let startPeriodOffset := to_i32 (Z.rem (to_i32 (fundingStreamStartHeight - firstHalvingHeight)) len) in
  let startPeriodOffset := if startPeriodOffset <? 0 then to_i32 (startPeriodOffset + len) else startPeriodOffset in
  Ok (to_i32 (Z.quot (to_i32 (to_i32 (nHeight - fundingStreamStartHeight) + startPeriodOffset)) len)).

(** The period index is compared with the number of addresses as [size_t]. *)
Definition ValidateFundingStream (params : Params) (startHeight endHeight : Z) (addresses : list bytes)
  : result param_error (FundingStream + FundingStreamError) :=
  let* canopy := NetworkUpgradeActive params startHeight UPGRADE_CANOPY in
  if negb canopy then Ok (inr CANOPY_NOT_ACTIVE)
  else if endHeight <? startHeight then Ok (inr ILLEGAL_RANGE)
  else
    let* idx := FundingPeriodIndex params startHeight (to_i32 (endHeight - 1)) in
    Ok (if length addresses <=? to_u64 idx then inr INSUFFICIENT_ADDRESSES
        else inl (Stream startHeight endHeight addresses)).

Definition RecipientAddress (params : Params) (fs : FundingStream) (nHeight : Z) : result param_error bytes :=
  let* addressIndex := FundingPeriodIndex params (startHeight fs) nHeight in
  require (0 <=? addressIndex) && (to_u64 addressIndex <? length (addresses fs)) orelse ParamAssert in
  Ok (nth (Z.to_nat addressIndex) (addresses fs) []).

Record FSInfo := StreamInfo { recipient : string; specification : string; valueNumerator : Z; valueDenominator : Z }.
Definition FundingStreamInfo : list FSInfo :=
  [ StreamInfo "Electric Coin Company" "https://zips.z.cash/zip-0214" 7 100;
    StreamInfo "Zcash Foundation" "https://zips.z.cash/zip-0214" 5 100;
    StreamInfo "Major Grants" "https://zips.z.cash/zip-0214" 8 100 ].

(** [blockSubsidy * valueNumerator] is computed as [uint64_t]. *)
Definition FSInfo_Value (i : FSInfo) (blockSubsidy : Z) : Z :=
  to_i64 (to_u64 (to_u64 blockSubsidy * valueNumerator i) / valueDenominator i).

(** The compile-time check of the table, from the entry with index 0 on. *)
Definition validateFundingStreamInfo : bool :=
  forallb (fun i => (valueNumerator i <? valueDenominator i)
                    && (valueNumerator i <? INT64_MAX / (MAX_MONEY / 1000))) FundingStreamInfo.

Definition stream_active (nHeight : Z) (fs : FundingStream) : bool :=
  (startHeight fs <=? nHeight) && (nHeight <? endHeight fs).

(** The loop over the streams; the result is a [std::set]. *)
Fixpoint stream_elements (nHeight blockSubsidy : Z) (params : Params) (l : list (option FundingStream * FSInfo))
    (required : gset (bytes * Z)) : result param_error (gset (bytes * Z)) :=
  match l with
  | [] => Ok required
  | (Some fs, info) :: l =>
      if stream_active nHeight fs then
        let* a := RecipientAddress params fs nHeight in
        stream_elements nHeight blockSubsidy params l ({[ (a, FSInfo_Value info blockSubsidy) ]} ∪ required)
      else stream_elements nHeight blockSubsidy params l required
  | (None, _) :: l => stream_elements nHeight blockSubsidy params l required
  end.
Definition GetActiveFundingStreamElements (nHeight blockSubsidy : Z) (params : Params)
  : result param_error (gset (bytes * Z)) :=
  let* canopy := NetworkUpgradeActive params nHeight UPGRADE_CANOPY in
  if canopy : bool then stream_elements nHeight blockSubsidy params (zip (vFundingStreams params) FundingStreamInfo) ∅
  else Ok ∅.

Definition GetActiveFundingStreams (nHeight : Z) (params : Params) : result param_error (list FSInfo) :=
  let* canopy := NetworkUpgradeActive params nHeight UPGRADE_CANOPY in
  Ok (if canopy : bool then
        omap (fun '(fs, info) => match fs with
                                 | Some fs => if stream_active nHeight fs then Some info else None
                                 | None => None
                                 end) (zip (vFundingStreams params) FundingStreamInfo)
      else []).

(** *** Proof-of-work timespans *)

Definition PoWTargetSpacing (params : Params) (nHeight : Z) : Z := nPowTargetSpacing params.
Definition AveragingWindowTimespan (params : Params) (nHeight : Z) : Z :=
  to_i64 (nPowAveragingWindow params * PoWTargetSpacing params nHeight).
Definition MinActualTimespan (params : Params) (nHeight : Z) : Z :=
  Z.quot (to_i64 (AveragingWindowTimespan params nHeight * (100 - nPowMaxAdjustUp params))) 100.
Definition MaxActualTimespan (params : Params) (nHeight : Z) : Z :=
  Z.quot (to_i64 (AveragingWindowTimespan params nHeight * (100 + nPowMaxAdjustDown params))) 100.

(** *** Chain parameters (chainparams.h, chainparams.cpp) *)

Record EHparameters := EH { eh_n : Z; eh_k : Z; eh_nSolSize : Z }.
Definition eh200_9 : EHparameters := EH 200 9 1344.
Definition eh144_5 : EHparameters := EH 144 5 100.
Definition eh96_5 : EHparameters := EH 96 5 68.
Definition eh48_5 : EHparameters := EH 48 5 36.

Definition MAX_FUTURE_BLOCK_TIME : Z := 2 * 60 * 60.

(** The members of [CChainParams] that the modelled code reads;
    [futureBlockTimeWindows] is an ordered map, here by increasing key. *)
Record CChainParams := ChainParams {
  consensus : Params; eh_epoch_1 : EHparameters; eh_epoch_2 : EHparameters;
  eh_epoch_1_endblock : Z; eh_epoch_2_startblock : Z; futureBlockTimeWindows : list (Z * Z);
  vCommunityFeeAddress : list string }.

(** [blockheight] is an [unsigned long]. *)
Definition validEHparameterList (blockheight : Z) (params : CChainParams) : list EHparameters :=
  if (eh_epoch_2_startblock params <=? blockheight) && (eh_epoch_1_endblock params <? blockheight)
  then [eh_epoch_2 params]
  else if blockheight <? eh_epoch_2_startblock params then [eh_epoch_1 params]
  else [eh_epoch_2 params; eh_epoch_1 params].
Definition checkEHParamaters (solSize height : Z) (params : CChainParams) : bool :=
  if height =? 0 then true
  else existsb (fun p => eh_nSolSize p =? solSize) (validEHparameterList (to_u64 height) params).

Definition GetFutureBlockTimeWindow (params : CChainParams) (height : Z) : Z :=
  match List.find (fun i : Z * Z => i.1 <=? height) (rev (futureBlockTimeWindows params)) with
  | Some i => to_i32 (i.2 * 60)
  | None => MAX_FUTURE_BLOCK_TIME
  end.

(** Sizes are unsigned; an index past the end is undefined behaviour. *)
Definition GetCommunityFeeAddressAtHeight (params : CChainParams) (nHeight : Z) : result param_error string :=
  let maxHeight := GetLastCommunityFeeBlockHeight (consensus params) in
  require (0 <? nHeight) && (nHeight <=? maxHeight) orelse ParamAssert in
  let n := Z.of_nat (length (vCommunityFeeAddress params)) in
  require negb (n =? 0) orelse ParamDivision in
  let addressChangeInterval := to_u64 (to_u64 maxHeight + n) / n in
  require negb (addressChangeInterval =? 0) orelse ParamDivision in
  let i := to_u64 nHeight / addressChangeInterval in
  match vCommunityFeeAddress params !! Z.to_nat i with Some a => Ok a | None => Err ParamAssert end.

(** *** The main network *)

(** [CMainParams]; the genesis hash, the funding streams, which the constructor
    decodes from addresses, and the table of community addresses are arguments. *)
Definition CMainParams (genesis : bytes) (streams : list (option FundingStream)) (fees : list string)
  : CChainParams :=
  ChainParams
    (ConsensusParams genesis true 840000 750 950 4000
      [ Upgrade 170002 ALWAYS_ACTIVE None; Upgrade 170002 NO_ACTIVATION_HEIGHT None;
        Upgrade 770006 328500 None; Upgrade 770006 328500 None; Upgrade 770012 1735000 None ]
      (840000 / 48) streams 144 5 (replicate 30 0xff ++ [0x07; 0x00]) None 13 34 34 150
      [0xb5; 0x66; 0x49; 0x01; 0x64; 0xa0; 0; 0; 0; 0; 0; 0; 0; 0; 0; 0; 0; 0; 0; 0; 0; 0; 0; 0; 0; 0; 0; 0; 0; 0; 0; 0]
      328500 1400000)
    eh200_9 eh144_5 160010 160000 [(0, 2 * 60); (159300, 30); (364400, 5)] fees.

(** ** Epochs *)

Definition active_at (params : Params) (nHeight idx : Z) : bool :=
  negb (activation params idx =? NO_ACTIVATION_HEIGHT) && (activation params idx <=? nHeight).

(** The reference: the epoch is the latest active upgrade. *)
Definition is_epoch (params : Params) (nHeight e : Z) : Prop :=
  0 <= e < MAX_NETWORK_UPGRADES /\ active_at params nHeight e = true
  /\ forall i, e < i < MAX_NETWORK_UPGRADES -> active_at params nHeight i = false.

(** Upgrades are ordered on chain, as the enumeration requires, and Sprout is
    active from the start. *)
Definition upgrades_ok (params : Params) : Prop :=
  activation params BASE_SPROUT = ALWAYS_ACTIVE
  /\ forall i j, 1 <= i < j -> j < MAX_NETWORK_UPGRADES ->
       activation params i <> NO_ACTIVATION_HEIGHT -> activation params j <> NO_ACTIVATION_HEIGHT ->
       activation params i <= activation params j.

Section epochs.
Context (params : Params) (nHeight : Z) (Hheight : 0 <= nHeight).

Lemma NetworkUpgradeState_spec idx :
  is_upgrade idx = true ->
  NetworkUpgradeState nHeight params idx
  = Ok (if active_at params nHeight idx then UPGRADE_ACTIVE
        else if activation params idx =? NO_ACTIVATION_HEIGHT then UPGRADE_DISABLED else UPGRADE_PENDING).
Proof.
  intros Hi. unfold NetworkUpgradeState, active_at. rewrite Hi. destruct (Z.leb_spec 0 nHeight); [|lia].
  destruct (activation params idx =? NO_ACTIVATION_HEIGHT), (activation params idx <=? nHeight); done.
Qed.

Lemma NetworkUpgradeActive_spec idx :
  is_upgrade idx = true -> NetworkUpgradeActive params nHeight idx = Ok (active_at params nHeight idx).
Proof.
  intros Hi. unfold NetworkUpgradeActive. rewrite NetworkUpgradeState_spec by done. cbn [bindR].
  destruct (active_at params nHeight idx); [done|]. by destruct (activation params idx =? NO_ACTIVATION_HEIGHT).
Qed.

Lemma epoch_loop_spec e :
  is_epoch params nHeight e ->
  forall n : nat, e < n <= MAX_NETWORK_UPGRADES -> epoch_loop n nHeight params = Ok e.
Proof.
  intros (He & Ha & Hmax) n. unfold MAX_NETWORK_UPGRADES in *. induction n as [|n IH]; intros Hn; [lia|].
  cbn [epoch_loop]. rewrite NetworkUpgradeActive_spec by (unfold is_upgrade, BASE_SPROUT, MAX_NETWORK_UPGRADES; lia).
  cbn [bindR]. destruct (Z.eq_dec n e) as [->|].
  - by rewrite Ha.
  - rewrite Hmax by lia. apply IH. lia.
Qed.

Lemma CurrentEpoch_spec e : is_epoch params nHeight e -> CurrentEpoch nHeight params = Ok e.
Proof. intros He. apply epoch_loop_spec; [done|]. destruct He as (He & _). cbn in *. lia. Qed.

Lemma epoch_below (n : nat) :
  activation params BASE_SPROUT = ALWAYS_ACTIVE -> 1 <= n ->
  exists e, 0 <= e < n /\ active_at params nHeight e = true
    /\ forall i, e < i < n -> active_at params nHeight i = false.
Proof.
  intros Hs Hn. induction n as [|n IH]; [lia|]. destruct (active_at params nHeight n) eqn:E.
  - exists n. split_and!; [lia|lia|done|lia].
  - assert (n <> 0%nat).
    { intros ->. unfold active_at in E. change (Z.of_nat 0) with BASE_SPROUT in E. rewrite Hs in E. unfold ALWAYS_ACTIVE, NO_ACTIVATION_HEIGHT in E. lia. }
    destruct IH as (e & He & Ha & Hmax); [lia|]. exists e. split_and!; [lia|lia|done|].
    intros i Hi. destruct (Z.eq_dec i n) as [->|]; [done|]. apply Hmax. lia.
Qed.

Lemma epoch_exists : activation params BASE_SPROUT = ALWAYS_ACTIVE -> exists e, is_epoch params nHeight e.
Proof. intros Hs. by apply (epoch_below 5). Qed.
End epochs.

(** The epoch is the same at two heights between which no upgrade activates. *)
Lemma is_epoch_stable params h h' e :
  h <= h' -> (forall i, 1 <= i < MAX_NETWORK_UPGRADES -> activation params i <= h \/ h' < activation params i) ->
  is_epoch params h e -> is_epoch params h' e.
Proof.
  intros Hh Hno (He & Ha & Hmax). unfold is_epoch, active_at in *. split_and!; [lia|lia|lia|].
  intros i Hi. specialize (Hmax i Hi). destruct (Hno i); lia.
Qed.

Lemma next_epoch_loop_spec params nHeight idxs :
  0 <= nHeight -> Forall (fun i => is_upgrade i = true) idxs ->
  exists r, next_epoch_loop idxs nHeight params = Ok r
    /\ match r with
       | Some i => exists l1 l2, idxs = l1 ++ i :: l2 /\ nHeight < activation params i
                     /\ activation params i <> NO_ACTIVATION_HEIGHT
                     /\ Forall (fun j => activation params j <= nHeight) l1
       | None => Forall (fun j => activation params j <= nHeight) idxs
       end.
Proof.
  intros Hh. induction 1 as [|i idxs Hi _ IH]; [by exists None|].
  cbn [next_epoch_loop]. rewrite NetworkUpgradeState_spec by done. cbn [bindR].
  assert (Hcase : (activation params i <= nHeight) \/ (nHeight < activation params i)) by lia.
  unfold active_at, NO_ACTIVATION_HEIGHT. destruct Hcase as [Hle|Hlt].
  - rewrite decide_False by (destruct (Z.eqb_spec (activation params i) (-1)), (Z.leb_spec (activation params i) nHeight); done || lia).
    destruct IH as (r & -> & Hr). exists r. split; [done|]. destruct r as [j|]; [|by constructor].
    destruct Hr as (l1 & l2 & -> & ? & ? & ?). exists (i :: l1), l2. split_and!; [done..|]. by constructor.
  - rewrite decide_True by (destruct (Z.eqb_spec (activation params i) (-1)), (Z.leb_spec (activation params i) nHeight); done || lia).
    exists (Some i). split; [done|]. exists [], idxs. split_and!; [done|done| |constructor]. unfold NO_ACTIVATION_HEIGHT. lia.
Qed.

(** The next activation height is the least height at which an upgrade
    still to come activates. *)
Lemma NextActivationHeight_spec params nHeight :
  upgrades_ok params -> 0 <= nHeight ->
  exists r, NextActivationHeight nHeight params = Ok r
    /\ match r with
       | Some a => nHeight < a /\ (exists i, 1 <= i < MAX_NETWORK_UPGRADES /\ activation params i = a)
                   /\ forall i, 1 <= i < MAX_NETWORK_UPGRADES -> activation params i <= nHeight \/ a <= activation params i
       | None => forall i, 1 <= i < MAX_NETWORK_UPGRADES -> activation params i <= nHeight
       end.
Proof.
  intros [_ Hsort] Hh. unfold NextActivationHeight, NextEpoch. destruct (Z.ltb_spec nHeight 0); [lia|].
  destruct (next_epoch_loop_spec params nHeight upgrades_after_sprout Hh) as (r & -> & Hr); [by repeat constructor|].
  cbn [bindR]. eexists. split; [done|]. destruct r as [i|]; cbn [fmap option_fmap option_map].
  - destruct Hr as (l1 & l2 & Hl & Hlt & Hno & Hl1). rewrite Forall_forall in Hl1.
    assert (Hi : i ∈ upgrades_after_sprout) by (rewrite Hl; set_solver).
    unfold upgrades_after_sprout in *. unfold MAX_NETWORK_UPGRADES in *.
    assert (1 <= i < 5) by (rewrite !elem_of_cons, elem_of_nil in Hi; lia).
    split_and!; [done|by exists i|]. intros j Hj. destruct (Z.lt_trichotomy i j) as [Hij|[<-|Hij]]; [|lia|].
    + destruct (Z.eq_dec (activation params j) NO_ACTIVATION_HEIGHT) as [E|]; [unfold NO_ACTIVATION_HEIGHT in E; lia|].
      right. apply Hsort; [lia|lia|done|done].
    + left. apply Hl1. apply list_elem_of_In.
      assert (Hcases : i = 2 \/ i = 3 \/ i = 4) by lia.
      destruct l1 as [|x1 [|x2 [|x3 [|x4 l1]]]]; simplify_eq/=; lia || (assert (j = 1 \/ j = 2 \/ j = 3) by lia; lia).
  - rewrite Forall_forall in Hr. intros i Hi. apply Hr. unfold upgrades_after_sprout, MAX_NETWORK_UPGRADES in *.
    rewrite !elem_of_cons. lia.
Qed.

(** ** Subsidy *)

Section subsidy.
Context (params : Params) (Hint : 0 < nSubsidyHalvingInterval params).
Local Abbreviation I := (nSubsidyHalvingInterval params).
Local Abbreviation S0 := (12500 * COIN).

Lemma Halving_spec h : uint 31 h -> Halving params h = Ok (h / I).
Proof.
  intros Hh. unfold Halving. destruct (Z.eqb_spec I 0); [lia|]. cbn [negb]. f_equal.
  rewrite Z.quot_div_nonneg by (unfold uint in *; lia).
  apply swrap_small; [lia|]. unfold uint in Hh.
  pose proof (Z.div_pos h I ltac:(lia) ltac:(lia)). pose proof (Z.div_le_upper_bound h I h ltac:(lia) ltac:(nia)).
  solve_uint.
Qed.

Lemma GetBlockSubsidy_spec h : uint 31 h -> GetBlockSubsidy h params = Ok (S0 / 2 ^ (h / I)).
Proof.
  intros Hh. unfold GetBlockSubsidy. rewrite Halving_spec by done. cbn [bindR].
  pose proof (Z.div_pos h I ltac:(unfold uint in Hh; lia) ltac:(lia)).
  destruct (Z.leb_spec 64 (h / I)) as [H64|H64].
  - f_equal. symmetry. apply Z.div_small. split; [done|].
    eapply Z.lt_le_trans; [|apply (Z.pow_le_mono_r 2 64); lia]. done.
  - destruct (Z.leb_spec 0 (h / I)); [|lia]. f_equal.
    rewrite swrap_small by done. apply Z.shiftr_div_pow2. lia.
Qed.

(** What the blocks below height [n] may create. *)
Fixpoint issued (n : nat) : result param_error Z :=
  match n with
  | O => Ok 0
  | S n => let* t := issued n in let* s := GetBlockSubsidy n params in Ok (t + s)
  end.

(** While [r] blocks of a halving period are mined, what is issued and twice
    the rest of the current subsidy stay below the limit. *)
Lemma issued_invariant (n : nat) :
  n <= 2 ^ 31 ->
  exists t, issued n = Ok t /\ 0 <= t
    /\ t + (S0 / 2 ^ (n / I)) * (I - n mod I) + I * (S0 / 2 ^ (n / I)) <= 2 * S0 * I.
Proof.
  induction n as [|n IH]; intros Hn.
  - exists 0. split_and!; [done|done|]. rewrite Z.div_0_l, Z.mod_0_l by lia. change (2 ^ 0) with 1. rewrite Z.div_1_r. nia.
  - destruct IH as (t & Ht & Ht0 & Hb); [lia|]. cbn [issued]. rewrite Ht.
    rewrite GetBlockSubsidy_spec by (unfold uint; lia). cbn [bindR]. eexists. split; [done|].
    pose proof (Z.div_pos n I ltac:(lia) ltac:(lia)) as Hq.
    assert (Hs : 0 <= S0 / 2 ^ (n / I)) by (apply Z.div_pos; [done|apply pow2_pos; lia]).
    split; [lia|]. pose proof (Z.mod_pos_bound n I Hint) as Hr. pose proof (Z.div_mod n I ltac:(lia)) as Hdm.
    replace (Z.of_nat (S n)) with (n + 1) by lia.
    destruct (Z.eq_dec (n mod I) (I - 1)) as [E|E].
    + replace (n + 1) with ((n / I + 1) * I) by lia. rewrite Z.div_mul, Z.mod_mul by lia.
      rewrite Z.pow_add_r, <- Z.div_div by (done || lia || (pose proof (pow2_pos (n / I)); lia)).
      change (2 ^ 1) with 2. rewrite E in Hb. set (s := S0 / 2 ^ (n / I)) in *.
      pose proof (Z.mul_div_le s 2 ltac:(lia)). nia.
    + rewrite <- (Z.div_unique (n + 1) I (n / I) (n mod I + 1)) by lia.
      rewrite <- (Z.mod_unique (n + 1) I (n / I) (n mod I + 1)) by lia. nia.
Qed.
End subsidy.

(** ** Funding streams *)

(** Heights and lengths far from the limits of [int]. *)
Definition height_ok (h : Z) : Prop := 0 <= h < 2 ^ 30.
Definition funding_ok (params : Params) : Prop :=
  0 < nFundingPeriodLength params < 2 ^ 30 /\ height_ok (nSubsidyHalvingInterval params).

Section funding.
Context (params : Params) (Hfund : funding_ok params).
Local Abbreviation len := (nFundingPeriodLength params).
Local Abbreviation I := (nSubsidyHalvingInterval params).

(** The reference: periods of length [len] counted from the first halving, the
    one that holds the start height being number 0. *)
Definition period (h : Z) : Z := (h - I) / len.

Lemma FundingPeriodIndex_spec s h :
  height_ok s -> height_ok h ->
  FundingPeriodIndex params s h = Ok (Z.quot (h - s + (s - I) mod len) len).
Proof.
  intros Hs Hh. destruct Hfund as [Hlen HI]. unfold height_ok in *.
  unfold FundingPeriodIndex, HalvingHeight. cbn [Z.ltb Z.compare bindR]. rewrite Z.mul_1_r.
  destruct (Z.eqb_spec len 0); [lia|]. cbn [negb].
  assert (Hsw : forall z, - 2 ^ 31 <= z < 2 ^ 31 -> to_i32 z = z) by (intros; apply swrap_small; [lia|done]).
  rewrite (Hsw I), (Hsw (s - I)), (Hsw (h - s)) by lia.
  pose proof (Z.rem_bound_abs (s - I) len ltac:(lia)). rewrite (Hsw (Z.rem _ _)) by lia.
  assert (Hoff : (if Z.rem (s - I) len <? 0 then to_i32 (Z.rem (s - I) len + len) else Z.rem (s - I) len) = (s - I) mod len).
  { pose proof (Z.quot_rem' (s - I) len).
    destruct (Z.ltb_spec (Z.rem (s - I) len) 0).
    - rewrite Hsw by lia. apply (Z.mod_unique _ _ (Z.quot (s - I) len - 1)); lia.
    - apply (Z.mod_unique _ _ (Z.quot (s - I) len)); lia. }
  rewrite Hoff. pose proof (Z.mod_pos_bound (s - I) len ltac:(lia)).
  rewrite (Hsw (h - s + _)) by lia. rewrite Hsw; [done|].
  pose proof (Z.quot_rem' (h - s + (s - I) mod len) len).
  pose proof (Z.rem_bound_abs (h - s + (s - I) mod len) len ltac:(lia)). nia.
Qed.

Lemma period_index s h :
  height_ok s -> s <= h -> Z.quot (h - s + (s - I) mod len) len = period h - period s.
Proof.
  intros Hs Hsh. destruct Hfund as [Hlen HI]. unfold period.
  pose proof (Z.mod_pos_bound (s - I) len ltac:(lia)). rewrite Z.quot_div_nonneg by lia.
  pose proof (Z.div_mod (s - I) len ltac:(lia)) as E.
  replace (h - I) with (h - s + (s - I) mod len + ((s - I) / len) * len) by lia. rewrite Z.div_add by lia. lia.
Qed.

Lemma period_mono h h' : h <= h' -> period h <= period h'.
Proof. intros. apply Z.div_le_mono; [apply Hfund|lia]. Qed.

Lemma RecipientAddress_spec fs h :
  height_ok (startHeight fs) -> height_ok h -> startHeight fs <= h ->
  period h - period (startHeight fs) < length (addresses fs) ->
  RecipientAddress params fs h = Ok (nth (Z.to_nat (period h - period (startHeight fs))) (addresses fs) []).
Proof.
  intros Hs Hh Hsh Hlen. unfold RecipientAddress.
  rewrite FundingPeriodIndex_spec, period_index by (done || lia). cbn [bindR].
  pose proof (period_mono _ _ Hsh). destruct Hfund as [Hl HI]. unfold height_ok in *.
  assert (Hb : period h - period (startHeight fs) <= 2 ^ 30).
  { unfold period. pose proof (Z.div_mod (h - I) len ltac:(lia)). pose proof (Z.div_mod (startHeight fs - I) len ltac:(lia)).
    pose proof (Z.mod_pos_bound (h - I) len ltac:(lia)). pose proof (Z.mod_pos_bound (startHeight fs - I) len ltac:(lia)). nia. }
  rewrite wrap_small by (unfold uint; lia).
  destruct (Z.leb_spec 0 (period h - period (startHeight fs))); [|lia].
  destruct (Z.ltb_spec (period h - period (startHeight fs)) (length (addresses fs))); [done|lia].
Qed.

Lemma ValidateFundingStream_inv s e addrs fs :
  height_ok s -> height_ok e -> s < e ->
  ValidateFundingStream params s e addrs = Ok (inl fs) ->
  fs = Stream s e addrs /\ active_at params s UPGRADE_CANOPY = true
  /\ period (e - 1) - period s < length addrs.
Proof.
  intros Hs He Hse. unfold ValidateFundingStream. rewrite NetworkUpgradeActive_spec by (done || apply Hs). cbn [bindR].
  destruct (active_at params s UPGRADE_CANOPY); [|done]. cbn [negb]. destruct (Z.ltb_spec e s); [lia|].
  unfold height_ok in *. rewrite swrap_small by (done || solve_uint).
  rewrite FundingPeriodIndex_spec, period_index by (done || (unfold height_ok; lia) || lia). cbn [bindR].
  pose proof (period_mono s (e - 1) ltac:(lia)).
  assert (Hlt : period (e - 1) - period s < 2 ^ 64).
  { destruct Hfund as [Hl HI]. unfold height_ok in *. unfold period.
    pose proof (Z.div_mod (e - 1 - I) len ltac:(lia)). pose proof (Z.div_mod (s - I) len ltac:(lia)).
    pose proof (Z.mod_pos_bound (e - 1 - I) len ltac:(lia)). pose proof (Z.mod_pos_bound (s - I) len ltac:(lia)). nia. }
  rewrite wrap_small by (unfold uint; lia).
  destruct (Z.leb_spec (length addrs) (period (e - 1) - period s)); [done|]. intros [= <-]. done.
Qed.
End funding.

Lemma FSInfo_Value_spec i v :
  i ∈ FundingStreamInfo -> 0 <= v <= MAX_MONEY -> FSInfo_Value i v = v * valueNumerator i / 100.
Proof.
  intros Hi Hv. unfold FSInfo_Value, MAX_MONEY, COIN in *.
  rewrite (wrap_small 64 v) by (unfold uint; lia).
  assert (valueDenominator i = 100 /\ 0 <= valueNumerator i <= 8) as [-> Hn].
  { unfold FundingStreamInfo in Hi. rewrite !elem_of_cons, elem_of_nil in Hi. by destruct Hi as [->|[->|[->|[]]]]. }
  rewrite (wrap_small 64) by (unfold uint; nia).
  apply swrap_small; [lia|]. split; [|apply Z.div_lt_upper_bound; nia].
  assert (0 <= v * valueNumerator i / 100) by (apply Z.div_pos; nia). lia.
Qed.

(** What a set of required outputs pays in total. *)
Definition total_paid (X : gset (bytes * Z)) : Z := foldr Z.add 0 (elements X).*2.

Lemma foldr_add_perm (l l' : list Z) : l ≡ₚ l' -> foldr Z.add 0 l = foldr Z.add 0 l'.
Proof. induction 1; cbn; lia. Qed.

Lemma total_paid_insert a v X : 0 <= v -> total_paid ({[ (a, v) ]} ∪ X) <= v + total_paid X.
Proof.
  intros Hv. unfold total_paid. destruct (decide ((a, v) ∈ X)) as [Hin|Hin].
  - replace ({[ (a, v) ]} ∪ X) with X by set_solver. lia.
  - rewrite (foldr_add_perm _ ((a, v) :: elements X).*2); [cbn; lia|].
    apply Permutation_map, elements_union_singleton, Hin.
Qed.

(** The shares of the active streams, in percent. *)
Fixpoint shares (nHeight : Z) (l : list (option FundingStream * FSInfo)) : Z :=
  match l with
  | [] => 0
  | (Some fs, i) :: l => (if stream_active nHeight fs then valueNumerator i else 0) + shares nHeight l
  | (None, _) :: l => shares nHeight l
  end.

Lemma stream_elements_total params nHeight v l X :
  0 <= v <= MAX_MONEY -> Forall (fun '(_, i) => i ∈ FundingStreamInfo) l ->
  Forall (fun '(fs, _) => forall s, fs = Some s -> stream_active nHeight s = true ->
            exists a, RecipientAddress params s nHeight = Ok a) l ->
  exists Y, stream_elements nHeight v params l X = Ok Y
    /\ 100 * total_paid Y <= 100 * total_paid X + v * shares nHeight l.
Proof.
  intros Hv Hl. revert X. induction Hl as [|[[fs|] i] l Hi Hl IH]; intros X Ha; cbn [stream_elements shares].
  - exists X. split; [done|]. lia.
  - apply Forall_cons in Ha as [Ha Hrest]. destruct (stream_active nHeight fs) eqn:E.
    + destruct (Ha fs eq_refl E) as [a ->]. cbn [bindR].
      destruct (IH ({[ (a, FSInfo_Value i v) ]} ∪ X) Hrest) as (Y & HY & Hb). exists Y. split; [done|].
      rewrite FSInfo_Value_spec in Hb by done.
      assert (0 <= valueNumerator i).
      { unfold FundingStreamInfo in Hi. rewrite !elem_of_cons, elem_of_nil in Hi. by destruct Hi as [->|[->|[->|[]]]]. }
      assert (0 <= v * valueNumerator i / 100) by (apply Z.div_pos; nia).
      pose proof (total_paid_insert a (v * valueNumerator i / 100) X ltac:(lia)).
      pose proof (Z.mul_div_le (v * valueNumerator i) 100 ltac:(lia)). lia.
    + destruct (IH X Hrest) as (Y & HY & Hb). exists Y. split; [done|]. lia.
  - apply Forall_cons in Ha as [_ Hrest]. apply (IH X Hrest).
Qed.

(** Every configured stream has passed validation. *)
Definition streams_ok (params : Params) : Prop :=
  length (vFundingStreams params) = Z.to_nat MAX_FUNDING_STREAMS
  /\ Forall (fun o => forall fs, o = Some fs ->
       height_ok (startHeight fs) /\ height_ok (endHeight fs) /\ startHeight fs < endHeight fs
       /\ ValidateFundingStream params (startHeight fs) (endHeight fs) (addresses fs) = Ok (inl fs))
     (vFundingStreams params).

Lemma stream_recipient params fs nHeight :
  funding_ok params -> height_ok (startHeight fs) -> height_ok (endHeight fs) -> startHeight fs < endHeight fs ->
  ValidateFundingStream params (startHeight fs) (endHeight fs) (addresses fs) = Ok (inl fs) ->
  stream_active nHeight fs = true ->
  RecipientAddress params fs nHeight
    = Ok (nth (Z.to_nat (period params nHeight - period params (startHeight fs))) (addresses fs) [])
  /\ 0 <= period params nHeight - period params (startHeight fs) < length (addresses fs).
Proof.
  intros Hp Hs He Hse Hval Hact. unfold stream_active in Hact.
  apply ValidateFundingStream_inv in Hval as (_ & _ & Hlen); [|done..].
  pose proof (period_mono params Hp nHeight (endHeight fs - 1) ltac:(lia)).
  pose proof (period_mono params Hp (startHeight fs) nHeight ltac:(lia)).
  split; [|lia]. apply RecipientAddress_spec; [done|done|unfold height_ok in *; lia|lia|lia].
Qed.

(** The community fee address changes every [max / n + 1] blocks, which stays
    inside the table up to the last height. *)
Lemma community_address params h :
  let n := Z.of_nat (length (vCommunityFeeAddress params)) in
  let last := vCommunityFeeLastHeight (consensus params) in
  0 < n < 2 ^ 32 -> last < 2 ^ 31 -> 0 < h <= last ->
  exists a, GetCommunityFeeAddressAtHeight params h = Ok a
    /\ vCommunityFeeAddress params !! Z.to_nat (h / (last / n + 1)) = Some a.
Proof.
  intros n last Hn Hlast Hh. unfold GetCommunityFeeAddressAtHeight, GetLastCommunityFeeBlockHeight. fold n last.
  destruct (Z.ltb_spec 0 h), (Z.leb_spec h last); try lia. cbn [andb].
  destruct (Z.eqb_spec n 0); [lia|]. cbn [negb].
  rewrite (wrap_small 64 last), (wrap_small 64 (last + n)), (wrap_small 64 h) by (unfold uint; lia).
  replace (last + n) with (last + 1 * n) by lia. rewrite Z.div_add by lia.
  pose proof (Z.div_pos last n ltac:(lia) ltac:(lia)). destruct (Z.eqb_spec (last / n + 1) 0); [lia|]. cbn [negb].
  assert (Hi : 0 <= h / (last / n + 1) < n).
  { split; [apply Z.div_pos; lia|]. apply Z.div_lt_upper_bound; [lia|].
    pose proof (Z.mul_succ_div_gt last n ltac:(lia)). lia. }
  destruct (lookup_lt_is_Some_2 (vCommunityFeeAddress params) (Z.to_nat (h / (last / n + 1)))) as [a Ha].
  { unfold n in *. lia. }
  exists a. by rewrite Ha.
Qed.


(** ** Properties *)

(** At every height the current epoch is the latest active upgrade.  It
    stays the same until the height that [NextActivationHeight] returns, which
    is an activation height, or for ever when there is none; and it can change
    from one height to the next only at an activation height. *)
Theorem epochs_change_at_activations params h :
  upgrades_ok params -> 0 <= h ->
  exists e next, CurrentEpoch h params = Ok e /\ is_epoch params h e
    /\ CurrentEpochBranchId h params = Ok (branch_id e)
    /\ (IsActivationHeightForAnyUpgrade (h + 1) params = false -> CurrentEpoch (h + 1) params = Ok e)
    /\ NextActivationHeight h params = Ok next
    /\ match next with
       | Some a => h < a /\ IsActivationHeightForAnyUpgrade a params = true
                   /\ forall k, h <= k < a -> CurrentEpoch k params = Ok e
       | None => forall k, h <= k -> CurrentEpoch k params = Ok e
       end.
Proof.
  intros Hup Hh. destruct (epoch_exists params h Hh) as [e He]; [apply Hup|].
  destruct (NextActivationHeight_spec params h Hup Hh) as (next & Hn & Hspec). exists e, next.
  pose proof (CurrentEpoch_spec params h Hh e He) as Hcur.
  assert (Hlater : forall k, h <= k -> (forall i, 1 <= i < MAX_NETWORK_UPGRADES -> activation params i <= h \/ k < activation params i) ->
            CurrentEpoch k params = Ok e).
  { intros k Hk Hno. apply CurrentEpoch_spec; [lia|]. by apply (is_epoch_stable params h k). }
  split_and!; [done|done| | |done|].
  - unfold CurrentEpochBranchId. by rewrite Hcur.
  - unfold IsActivationHeightForAnyUpgrade, upgrades_after_sprout. destruct (Z.ltb_spec (h + 1) 0); [lia|].
    cbn [existsb]. intros Hnone. apply Hlater; [lia|]. unfold MAX_NETWORK_UPGRADES. intros i Hi.
    assert (i = 1 \/ i = 2 \/ i = 3 \/ i = 4) as [->|[->|[->| ->]]] by lia; lia.
  - destruct next as [a|].
    + destruct Hspec as (Ha & (i & Hi & <-) & Hall). split_and!; [done| |].
      * unfold IsActivationHeightForAnyUpgrade, upgrades_after_sprout. destruct (Z.ltb_spec (activation params i) 0); [lia|].
        cbn [existsb]. unfold MAX_NETWORK_UPGRADES in Hi.
        assert (i = 1 \/ i = 2 \/ i = 3 \/ i = 4) as [->|[->|[->| ->]]] by lia; lia.
      * intros k Hk. apply Hlater; [lia|]. intros j Hj. destruct (Hall j Hj); lia.
    + intros k Hk. apply Hlater; [lia|]. intros i Hi. specialize (Hspec i Hi). lia.
Qed.

Lemma epochs_change_at_activations_witness :
  exists e next, CurrentEpoch 400000 (consensus (CMainParams [] [] [])) = Ok e
    /\ CurrentEpoch 1734999 (consensus (CMainParams [] [] [])) = Ok e
    /\ NextActivationHeight 400000 (consensus (CMainParams [] [] [])) = Ok next /\ next = Some 1735000.
Proof.
  destruct (epochs_change_at_activations (consensus (CMainParams [] [] [])) 400000) as (e & next & He & _ & _ & _ & Hn & Hk); [|done|].
  - split; [done|]. intros i j Hi Hj. unfold MAX_NETWORK_UPGRADES in Hj.
    assert ((i = 1 \/ i = 2 \/ i = 3) /\ (j = 2 \/ j = 3 \/ j = 4)) as [[->|[->| ->]] [->|[->| ->]]] by lia; vm_compute; intros; lia || congruence.
  - exists e, next. assert (next = Some 1735000) as -> by (vm_compute in Hn; congruence).
    split_and!; [done| |done|done]. apply Hk. lia.
Defined.

(** C34: a funding stream accepted by [ValidateFundingStream] has a recipient at
    every height of its range, the address of the funding period the height
    falls in; the required outputs then exist at every height, and all
    together they pay at most the shares of the active streams, a fifth of the
    subsidy.  The community fee table has an address for every fee height. *)
Theorem funding_streams_safe params h subsidy :
  let p := consensus params in
  funding_ok p -> streams_ok p -> 0 <= h -> 0 <= subsidy <= MAX_MONEY ->
  (forall fs, Some fs ∈ vFundingStreams p -> stream_active h fs = true ->
     RecipientAddress p fs h = Ok (nth (Z.to_nat (period p h - period p (startHeight fs))) (addresses fs) [])
     /\ 0 <= period p h - period p (startHeight fs) < length (addresses fs))
  /\ (exists X, GetActiveFundingStreamElements h subsidy p = Ok X /\ 5 * total_paid X <= subsidy)
  /\ (0 < length (vCommunityFeeAddress params) < 2 ^ 32 -> vCommunityFeeLastHeight p < 2 ^ 31 ->
      0 < h <= vCommunityFeeLastHeight p -> is_ok (GetCommunityFeeAddressAtHeight params h) = true).
Proof.
  intros p Hf [Hlen Hs] Hh Hv.
  assert (Hrec : forall fs, Some fs ∈ vFundingStreams p -> stream_active h fs = true ->
    RecipientAddress p fs h = Ok (nth (Z.to_nat (period p h - period p (startHeight fs))) (addresses fs) [])
    /\ 0 <= period p h - period p (startHeight fs) < length (addresses fs)).
  { intros fs Hin Hact. rewrite Forall_forall in Hs. destruct (Hs _ Hin fs eq_refl) as (? & ? & ? & ?).
    by apply stream_recipient. }
  split_and!; [done| |].
  - unfold GetActiveFundingStreamElements. rewrite NetworkUpgradeActive_spec by done. cbn [bindR].
    destruct (active_at p h UPGRADE_CANOPY); [|exists ∅; split; [done|]; change (total_paid ∅) with 0; lia].
    destruct (stream_elements_total p h subsidy (zip (vFundingStreams p) FundingStreamInfo) ∅) as (X & HX & Hb); [done| | |].
    + apply Forall_forall. intros [fs i] Hin. by apply elem_of_zip_r in Hin.
    + apply Forall_forall. intros [fs i] Hin s -> Hact. apply elem_of_zip_l in Hin.
      destruct (Hrec s Hin Hact) as [-> _]. eauto.
    + exists X. split; [done|]. change (total_paid ∅) with 0 in Hb.
      destruct (vFundingStreams p) as [|o0 [|o1 [|o2 [|]]]]; try discriminate Hlen.
      assert (0 <= shares h (zip [o0; o1; o2] FundingStreamInfo) <= 20); [|nia].
      unfold FundingStreamInfo. cbn [zip zip_with shares]. destruct o0, o1, o2; cbn [shares valueNumerator]; repeat case_match; lia.
  - intros Hn Hl Hfee. by destruct (community_address params h) as (a & -> & _).
Qed.

Lemma funding_streams_safe_witness :
  let fs := Stream 1735000 3360000 (replicate 96 [0xa9]) in
  let params := CMainParams [] [Some fs; Some fs; None] ["t3"%string] in
  RecipientAddress (consensus params) fs 3359999 = Ok [0xa9]
  /\ (exists X, GetActiveFundingStreamElements 2000000 1000 (consensus params) = Ok X /\ 5 * total_paid X <= 1000).
Proof.
  intros fs params.
  assert (Hok : streams_ok (consensus params)).
  { split; [done|]. repeat apply Forall_cons_2; try apply Forall_nil_2; intros fs' [= <-]; by vm_compute. }
  assert (Hf : funding_ok (consensus params)) by by vm_compute.
  split.
  - destruct (funding_streams_safe params 3359999 1000) as (Hr & _); [done..|].
    destruct (Hr fs) as [-> _]; [by vm_compute; constructor|done|]. by vm_compute.
  - destruct (funding_streams_safe params 2000000 1000) as (_ & HX & _); [done..|]. exact HX.
Defined.

(** C35: the subsidy at height [h] is 12500 coins halved once per interval, it
    never increases, and with an interval of at most 840000 blocks the
    subsidies of all blocks up to any height the code can express sum to an
    amount in the money range. *)
Theorem subsidy_within_supply params (n : nat) :
  0 < nSubsidyHalvingInterval params <= 840000 -> n <= 2 ^ 31 ->
  (exists t, issued params n = Ok t /\ MoneyRange t = true)
  /\ forall h h', 0 <= h <= h' -> h' < 2 ^ 31 ->
       exists s s', GetBlockSubsidy h params = Ok s /\ GetBlockSubsidy h' params = Ok s'
         /\ s = 12500 * COIN / 2 ^ (h / nSubsidyHalvingInterval params) /\ 0 <= s' <= s.
Proof.
  intros Hi Hn. split.
  - destruct (issued_invariant params ltac:(lia) n Hn) as (t & Ht & Ht0 & Hb). exists t. split; [done|].
    unfold MoneyRange. set (I := nSubsidyHalvingInterval params) in *.
    pose proof (Z.mod_pos_bound n I ltac:(lia)). pose proof (Z.div_pos n I ltac:(lia) ltac:(lia)) as Hq.
    assert (0 <= 12500 * COIN / 2 ^ (n / I)) by (apply Z.div_pos; [done|by apply pow2_pos]).
    unfold MAX_MONEY, COIN in *. nia.
  - intros h h' Hh Hh'. rewrite !GetBlockSubsidy_spec by (unfold uint; lia). do 2 eexists. split_and!; [done|done|done| |].
    + apply Z.div_pos; [done|]. apply pow2_pos, Z.div_pos; lia.
    + apply Z.div_le_compat_l; [done|]. split; [apply pow2_pos, Z.div_pos; lia|].
      apply Z.pow_le_mono_r; [lia|]. apply Z.div_le_mono; lia.
Qed.

Lemma subsidy_within_supply_witness :
  exists s s', GetBlockSubsidy 840000 (consensus (CMainParams [] [] [])) = Ok s
    /\ GetBlockSubsidy 1680000 (consensus (CMainParams [] [] [])) = Ok s' /\ s = 6250 * COIN /\ 0 <= s' <= s.
Proof.
  destruct (subsidy_within_supply (consensus (CMainParams [] [] [])) 3) as [_ H]; [by vm_compute|lia|].
  destruct (H 840000 1680000) as (s & s' & H1 & H2 & -> & H3); [lia|lia|]. eauto 10.
Defined.
