(* ===== verification/Equihash.v ===== *)
(** * Equihash (src/crypto/equihash.cpp, equihash.h, equihash.tcc, pow.cpp)

    The verifier of the proof of work: packing and unpacking of the indices of
    a solution, the rows of a round of the verification and the rounds. A row
    is the meaningful prefix of the array of a [FullStepRow]: the bytes of the
    hash, then the bytes of the indices. Sizes are natural numbers; the
    template arguments [N] and [K] are arguments.

    BLAKE2b is a function of libsodium: the class [EhHash]. The solvers, which
    are built for mining only, are left out. *)

From S2P Require Import Prelude Serialize Digest Sha Ripemd Hash Amount Transaction.
Local Open Scope Z_scope.
Local Open Scope code_scope.

(** ** Definitions *)

Class EhHash := {
  eh_HashState : Type;
  blake2b_init_salt_personal : nat -> bytes -> eh_HashState;
  blake2b_update : eh_HashState -> bytes -> eh_HashState;
  blake2b_final : eh_HashState -> nat -> bytes
}.
Class EhHashLaws `{EhHash} : Prop := {
  blake2b_final_ok st n : length (blake2b_final st n) = n /\ bytes_ok (blake2b_final st n)
}.

Inductive eh_stop := eh_invalid (* returns false *) | eh_assert (* a failed assert, or an access out of bounds *).

Definition sizeof_eh_index : nat := 4.

(** *** Packing *)

Definition expand_element (out_width byte_pad : nat) (bit_len_mask : Z) (acc_bits : nat) (acc_value : Z) : bytes :=
  replicate byte_pad 0
  ++ map (fun x : nat => Z.land (Z.shiftr acc_value (acc_bits + 8 * (out_width - x - 1))%nat)
                                (Z.land (Z.shiftr bit_len_mask (8 * (out_width - x - 1))%nat) 0xFF))
         (seq byte_pad (out_width - byte_pad)).
Fixpoint expand_loop (bit_len out_width byte_pad : nat) (bit_len_mask : Z) (acc_bits : nat) (acc_value : Z) (input : bytes) : bytes :=
  match input with
  | [] => []
  | b :: input =>
      let acc_value := Z.lor (to_u32 (Z.shiftl acc_value 8)) b in
      let acc_bits := (acc_bits + 8)%nat in
      if (bit_len <=? acc_bits)%nat then
        let acc_bits := (acc_bits - bit_len)%nat in
        expand_element out_width byte_pad bit_len_mask acc_bits acc_value
        ++ expand_loop bit_len out_width byte_pad bit_len_mask acc_bits acc_value input
      else expand_loop bit_len out_width byte_pad bit_len_mask acc_bits acc_value input
  end.
Definition bit_len_mask (bit_len : nat) : Z := to_u32 (to_u32 (Z.shiftl 1 bit_len) - 1).

(** Writing into the array [out]. *)
Definition ExpandArray (input out : bytes) (bit_len byte_pad : nat) : result eh_stop bytes :=
  require (8 <=? bit_len)%nat && (7 + bit_len <=? 32)%nat orelse eh_assert in
  let out_width := ((bit_len + 7) / 8 + byte_pad)%nat in
  require (length out =? 8 * out_width * length input / bit_len)%nat orelse eh_assert in
  let written := expand_loop bit_len out_width byte_pad (bit_len_mask bit_len) 0 0 input in
  Ok (written ++ drop (length written) out).

Definition read_element (in_width byte_pad : nat) (bit_len_mask : Z) (acc_value : Z) (input : bytes) : Z :=
  foldl (fun acc_value (x : nat) =>
           Z.lor acc_value (to_u32 (Z.shiftl (Z.land (nth x input 0) (Z.land (Z.shiftr bit_len_mask (8 * (in_width - x - 1))%nat) 0xFF))
                                             (8 * (in_width - x - 1))%nat)))
        acc_value (seq byte_pad (in_width - byte_pad)).
Fixpoint compress_loop (n bit_len in_width byte_pad : nat) (bit_len_mask : Z) (acc_bits : nat) (acc_value : Z) (input : bytes) : bytes :=
  match n with
  | O => []
  | S n =>
      let '(acc_bits, acc_value, input) :=
        if (acc_bits <? 8)%nat then
          ((acc_bits + bit_len)%nat, read_element in_width byte_pad bit_len_mask (to_u32 (Z.shiftl acc_value bit_len)) input,
           drop in_width input)
        else (acc_bits, acc_value, input) in
      let acc_bits := (acc_bits - 8)%nat in
      Z.land (Z.shiftr acc_value acc_bits) 0xFF
      :: compress_loop n bit_len in_width byte_pad bit_len_mask acc_bits acc_value input
  end.
(** The whole array of [out_len] bytes is written. *)
Definition CompressArray (input : bytes) (out_len bit_len byte_pad : nat) : result eh_stop bytes :=
  require (8 <=? bit_len)%nat && (7 + bit_len <=? 32)%nat orelse eh_assert in
  let in_width := ((bit_len + 7) / 8 + byte_pad)%nat in
  require (out_len =? bit_len * length input / (8 * in_width))%nat orelse eh_assert in
  Ok (compress_loop out_len bit_len in_width byte_pad (bit_len_mask bit_len) 0 0 input).

Definition EhIndexToArray (i : Z) : bytes := WriteBE32 i.
Definition ArrayToEhIndex (array : bytes) : Z := ReadBE32 array.

Definition GetIndicesFromMinimal (minimal : bytes) (cBitLen : nat) : result eh_stop (list Z) :=
  require ((cBitLen + 1 + 7) / 8 <=? sizeof_eh_index)%nat orelse eh_assert in
  let lenIndices := (8 * sizeof_eh_index * length minimal / (cBitLen + 1))%nat in
  let bytePad := (sizeof_eh_index - (cBitLen + 1 + 7) / 8)%nat in
  let* array := ExpandArray minimal (replicate lenIndices 0) (cBitLen + 1) bytePad in
  Ok (map (fun i => ArrayToEhIndex (drop (i * sizeof_eh_index)%nat array)) (seq 0 ((lenIndices + 3) / sizeof_eh_index)%nat)).
Definition GetMinimalFromIndices (indices : list Z) (cBitLen : nat) : result eh_stop bytes :=
  require ((cBitLen + 1 + 7) / 8 <=? sizeof_eh_index)%nat orelse eh_assert in
  let lenIndices := (length indices * sizeof_eh_index)%nat in
  let minLen := ((cBitLen + 1) * lenIndices / (8 * sizeof_eh_index))%nat in
  let bytePad := (sizeof_eh_index - (cBitLen + 1 + 7) / 8)%nat in
  CompressArray (concat (map EhIndexToArray indices)) minLen (cBitLen + 1) bytePad.

(** *** Rows *)

(** [memcmp] of two arrays of the same length. *)
Fixpoint memcmp (a b : bytes) : comparison :=
  match a, b with
  | x :: a, y :: b => match x ?= y with Eq => memcmp a b | c => c end
  | _, _ => Eq
  end.

Definition HasCollision (a b : bytes) (l : nat) : bool := forallb (fun p => p.1 =? p.2) (zip (take l a) (take l b)).
Definition IsZero (a : bytes) (len : nat) : bool := forallb (fun x => x =? 0) (take len a).
Definition indices_of (a : bytes) (len lenIndices : nat) : bytes := take lenIndices (drop len a).
Definition IndicesBefore (a b : bytes) (len lenIndices : nat) : bool :=
  match memcmp (indices_of a len lenIndices) (indices_of b len lenIndices) with Lt => true | _ => false end.
(** The loops over [i] and [j] in steps of an index. *)
Definition DistinctIndices (a b : bytes) (len lenIndices : nat) : bool :=
  let offsets := map (fun i => (i * sizeof_eh_index)%nat) (seq 0 ((lenIndices + 3) / sizeof_eh_index)) in
  forallb (fun i => forallb (fun j =>
    match memcmp (take sizeof_eh_index (drop (len + i) a)) (take sizeof_eh_index (drop (len + j) b)) with Eq => false | _ => true end)
    offsets) offsets.

Definition FullStepRow (WIDTH : nat) (hashIn : bytes) (hLen cBitLen : nat) (i : Z) : result eh_stop bytes :=
  require (hLen <=? WIDTH)%nat orelse eh_assert in
  let* hash := ExpandArray hashIn (replicate hLen 0) cBitLen 0 in
  Ok (hash ++ EhIndexToArray i).
Definition FullStepRow_merge (WIDTH : nat) (a b : bytes) (len lenIndices trim : nat) : result eh_stop bytes :=
  require (len + lenIndices <=? WIDTH)%nat orelse eh_assert in
  require (len - trim + 2 * lenIndices <=? WIDTH)%nat orelse eh_assert in
  let hash := zip_with Z.lxor (drop trim (take len a)) (drop trim (take len b)) in
  Ok (if IndicesBefore a b len lenIndices
      then hash ++ indices_of a len lenIndices ++ indices_of b len lenIndices
      else hash ++ indices_of b len lenIndices ++ indices_of a len lenIndices).

(** *** [Equihash<N,K>] *)

Section equihash.
Context `{EhHash} (N K : nat).

Definition IndicesPerHashOutput : nat := 512 / N.
Definition HashOutput : nat := IndicesPerHashOutput * N / 8.
Definition CollisionBitLength : nat := N / (K + 1).
Definition CollisionByteLength : nat := (CollisionBitLength + 7) / 8.
Definition HashLength : nat := (K + 1) * CollisionByteLength.
Definition FinalFullWidth : nat := 2 * CollisionByteLength + sizeof_eh_index * 2 ^ K.
Definition SolutionWidth : nat := 2 ^ K * (CollisionBitLength + 1) / 8.

Definition InitialiseState : eh_HashState :=
  let name := if (N =? 144)%nat && (K =? 5)%nat then "BitcoinZ"%string else "ZcashPoW"%string in
  blake2b_init_salt_personal (512 / N * N / 8) (ascii_bytes name ++ WriteLE32 N ++ WriteLE32 K).

Definition GenerateHash (base_state : eh_HashState) (g : Z) (hLen : nat) : bytes :=
  blake2b_final (blake2b_update base_state (WriteLE32 g)) hLen.

Definition first_row (base_state : eh_HashState) (i : Z) : result eh_stop bytes :=
  let tmpHash := GenerateHash base_state (i / IndicesPerHashOutput) HashOutput in
  FullStepRow FinalFullWidth (take (N / 8)%nat (drop (Z.to_nat (i mod IndicesPerHashOutput) * N / 8)%nat tmpHash))
    HashLength CollisionBitLength i.
Fixpoint first_rows (base_state : eh_HashState) (indices : list Z) : result eh_stop (list bytes) :=
  match indices with
  | [] => Ok []
  | i :: indices => let* x := first_row base_state i in let* X := first_rows base_state indices in Ok (x :: X)
  end.

(** The loop over the pairs of a round. *)
Fixpoint merge_pairs (hashLen lenIndices : nat) (X : list bytes) : result eh_stop (list bytes) :=
  match X with
  | [] => Ok []
  | [_] => Err eh_assert
  | a :: b :: X =>
      require HasCollision a b CollisionByteLength orelse eh_invalid in
      require negb (IndicesBefore b a hashLen lenIndices) orelse eh_invalid in
      require DistinctIndices a b hashLen lenIndices orelse eh_invalid in
      let* x := FullStepRow_merge FinalFullWidth a b hashLen lenIndices CollisionByteLength in
      let* Xc := merge_pairs hashLen lenIndices X in
      Ok (x :: Xc)
  end.
(** The rounds; each of them halves the number of rows. *)
Fixpoint rounds (fuel : nat) (hashLen lenIndices : nat) (X : list bytes) : result eh_stop (list bytes * nat) :=
  match fuel with
  | O => Err eh_assert
  | S fuel =>
      if (length X <=? 1)%nat then Ok (X, hashLen)
      else
        let* Xc := merge_pairs hashLen lenIndices X in
        rounds fuel (hashLen - CollisionByteLength) (lenIndices * 2) Xc
  end.

Definition IsValidSolution (base_state : eh_HashState) (soln : bytes) : result eh_stop bool :=
  require (length soln =? SolutionWidth)%nat orelse eh_invalid in
  let* indices := GetIndicesFromMinimal soln CollisionBitLength in
  let* X := first_rows base_state indices in
  let* (X, hashLen) := rounds (S (length X)) HashLength sizeof_eh_index X in
  match X with
  | [x] => Ok (IsZero x hashLen)
  | _ => Err eh_assert
  end.
End equihash.

(** *** [CheckEquihashSolution] *)

Section check.
Context `{EhHash}.

(** The parameters for a size of the solution. *)
Definition equihash_params (nSolSize : nat) : option (nat * nat) :=
  match Z.of_nat nSolSize with
  | 1344 => Some (200%nat, 9%nat)
  | 100 => Some (144%nat, 5%nat)
  | 68 => Some (96%nat, 5%nat)
  | 36 => Some (48%nat, 5%nat)
  | _ => None
  end.

(** [None] for an exception of the writer or a failed assertion. *)
Definition CheckEquihashSolution (pblock : CBlockHeader) : option bool :=
  match equihash_params (length (hb_nSolution pblock)) with
  | None => Some false
  | Some (n, k) =>
      let state := InitialiseState n k in
      match Serialize equihash_input_codec (CEquihashInput pblock), Serialize uint256_codec (hb_nNonce pblock) with
      | Ok input, Ok nonce =>
          match IsValidSolution n k (blake2b_update state (input ++ nonce)) (hb_nSolution pblock) with
          | Ok isValid => Some isValid
          | Err eh_invalid => Some false
          | Err eh_assert => None
          end
      | _, _ => None
      end
  end.
End check.

(** ** Packing as positional notation *)

(** The number of a big-endian byte string, and of a list of [b]-bit words. *)
Definition bev (w : Z) (l : list Z) : Z := lev w (rev l).
(** The [b]-bit words of a number, most significant first. *)
Definition words (w : Z) (n : nat) (z : Z) : list Z := rev (digits w n z).

Lemma length_words w n z : length (words w n z) = n.
Proof. unfold words. by rewrite length_rev, length_digits. Qed.
Lemma words_ok w n z : 0 < w -> Forall (uint w) (words w n z).
Proof. intros Hw. unfold words. apply Forall_rev, digits_ok, Hw. Qed.
Lemma bev_cons w x l : 0 < w -> bev w (x :: l) = x * 2 ^ (w * length l) + bev w l.
Proof.
  intros Hw. unfold bev. cbn [rev]. rewrite lev_app, length_rev by done. cbn [lev]. rewrite Z.mul_0_r, Z.add_0_r. ring.
Qed.
Lemma bev_words w n z : 0 < w -> bev w (words w n z) = z mod 2 ^ (w * n).
Proof. intros Hw. unfold bev, words. rewrite rev_involutive. by apply lev_digits. Qed.
Lemma words_bev w l : 0 < w -> Forall (uint w) l -> words w (length l) (bev w l) = l.
Proof.
  intros Hw Hl. unfold words, bev. rewrite <- length_rev, digits_lev by (done || by apply Forall_rev). apply rev_involutive.
Qed.
Lemma bev_bound w l : 0 < w -> Forall (uint w) l -> 0 <= bev w l < 2 ^ (w * length l).
Proof. intros Hw Hl. unfold bev. rewrite <- (length_rev l). apply lev_bound; [done|by apply Forall_rev]. Qed.

Lemma digits_S_last w n z : 0 < w -> digits w (S n) z = digits w n z ++ [z / 2 ^ (w * n) mod 2 ^ w].
Proof.
  intros Hw. revert z. induction n as [|n IH]; intros z.
  - cbn. by rewrite Z.mul_0_r, Z.div_1_r.
  - change (digits w (S (S n)) z) with (z mod 2 ^ w :: digits w (S n) (z / 2 ^ w)). rewrite IH. cbn [digits app]. do 3 f_equal.
    rewrite Z.div_div by (first [apply Z.pow_nonzero|apply pow2_pos]; nia). rewrite <- Z.pow_add_r by nia.
    by replace (w + w * n) with (w * S n) by lia.
Qed.
Lemma words_S w n z : 0 < w -> words w (S n) z = z / 2 ^ (w * n) mod 2 ^ w :: words w n z.
Proof. intros Hw. unfold words. by rewrite digits_S_last, rev_app_distr. Qed.

(** Digits that are computed by shifting. *)
Lemma digits_shift n z : digits 8 n z = map (fun j : nat => z / 2 ^ (8 * j) mod 2 ^ 8) (seq 0 n).
Proof.
  induction n as [|n IH]; [done|]. rewrite digits_S_last by lia. rewrite seq_S, map_app, IH. done.
Qed.

Lemma bit_len_mask_ones b : (b <= 25)%nat -> bit_len_mask b = Z.ones b.
Proof.
  intros Hb. unfold bit_len_mask. rewrite Z.shiftl_mul_pow2, Z.mul_1_l, Z.ones_equiv by lia.
  assert (0 < 2 ^ b <= 2 ^ 25) by (split; [apply pow2_pos; lia|apply Z.pow_le_mono_r; lia]).
  change (2 ^ 25) with 33554432 in *. rewrite (wrap_small 32 (2 ^ b)), wrap_small; unfold uint; widths; lia.
Qed.

(** The accumulator holds the low 32 bits of what has been read. *)
Lemma acc_push (b : nat) V x :
  (b <= 32)%nat -> uint b x -> Z.lor (to_u32 (Z.shiftl (to_u32 V) b)) x = to_u32 (V * 2 ^ b + x).
Proof.
  intros Hb Hx. pose proof (pow2_pos b ltac:(lia)) as Hp. pose proof (pow2_pos (32 - b) ltac:(lia)) as Hq.
  assert (Hs : 2 ^ 32 = 2 ^ b * 2 ^ (32 - b)) by (rewrite <- Z.pow_add_r by lia; f_equal; lia).
  assert (Hm : to_u32 (Z.shiftl (to_u32 V) b) = 2 ^ b * (V mod 2 ^ (32 - b))).
  { unfold wrap. rewrite Z.shiftl_mul_pow2, Z.mul_mod_idemp_l by (widths; lia). rewrite Hs, Z.mul_comm, Z.mul_mod_distr_l by lia. done. }
  rewrite Hm, Z.lor_comm, (lor_add b) by (try lia; try apply Hx; rewrite Z.mul_comm; apply Z.mod_mul; lia).
  unfold wrap. rewrite <- (Z.mod_small (x + 2 ^ b * (V mod 2 ^ (32 - b))) (2 ^ 32)).
  - rewrite Hs. rewrite <- Z.mul_mod_distr_l by lia. rewrite Z.add_mod_idemp_r by lia. f_equal. ring.
  - pose proof (Z.mod_pos_bound V (2 ^ (32 - b)) Hq). unfold uint in Hx. rewrite Hs. nia.
Qed.

(** A byte of a word that the accumulator holds. *)
Lemma acc_byte (b ab s : nat) V :
  (b + 7 <= 32)%nat -> (ab <= 7)%nat ->
  Z.land (Z.shiftr (to_u32 V) (ab + s)%nat) (Z.land (Z.shiftr (Z.ones b) s) 0xFF) = (V / 2 ^ ab mod 2 ^ b) / 2 ^ s mod 2 ^ 8.
Proof.
  intros Hb Ha. rewrite <- !Z.land_ones, <- !Z.shiftr_div_pow2 by lia. unfold wrap. rewrite <- Z.land_ones by lia.
  change 0xFF with (Z.ones 8). apply Z.bits_inj'. intros n Hn. rewrite !Z.land_spec, !Z.shiftr_spec, !Z.land_spec, !Z.shiftr_spec by lia.
  rewrite Nat2Z.inj_add. replace (n + (ab + s)) with (n + s + ab) by lia.
  destruct (Z_lt_le_dec (n + s) b).
  - rewrite (Z.ones_spec_low 32), (Z.ones_spec_low b) by lia. by rewrite !andb_true_r.
  - rewrite (Z.ones_spec_high b) by lia. by rewrite andb_false_l, !andb_false_r.
Qed.

Definition element (m pad : nat) (e : Z) : bytes := replicate pad 0 ++ words 8 m e.

Lemma expand_element_spec (b ab pad : nat) V :
  (b + 7 <= 32)%nat -> (ab <= 7)%nat ->
  let m := ((b + 7) / 8)%nat in
  expand_element (m + pad) pad (Z.ones b) ab (to_u32 V) = element m pad (V / 2 ^ ab mod 2 ^ b).
Proof.
  intros Hb Ha m. unfold expand_element, element, words. f_equal. replace (m + pad - pad)%nat with m by lia.
  rewrite digits_shift. rewrite <- map_rev. apply list_eq. intros i.
  rewrite !list_lookup_fmap. destruct (decide (i < m)%nat) as [Hi|Hi].
  - rewrite lookup_seq_lt by done.
    assert (rev (seq 0 m) !! i = Some (m - S i)%nat) as ->.
    { rewrite rev_alt. change (rev_append (seq 0 m) []) with (reverse (seq 0 m)). rewrite reverse_lookup; rewrite ?length_seq; [|lia]. by rewrite lookup_seq_lt by lia. }
    cbn [fmap option_fmap option_map]. f_equal. replace (m + pad - (pad + i) - 1)%nat with (m - S i)%nat by lia.
    rewrite acc_byte by done. do 3 f_equal. lia.
  - rewrite !lookup_ge_None_2 by (rewrite ?length_rev, length_seq; lia). done.
Qed.

Lemma expand_loop_spec (b pad n : nat) ab V input :
  let m := ((b + 7) / 8)%nat in
  (8 <= b)%nat -> (b + 7 <= 32)%nat -> (ab < b)%nat -> (ab + 8 * length input = n * b)%nat -> bytes_ok input -> 0 <= V ->
  expand_loop b (m + pad) pad (Z.ones b) ab (to_u32 V) input
  = concat (map (element m pad) (words b n (V * 2 ^ (8 * length input) + bev 8 input))).
Proof.
  intros m Hb1 Hb2. revert ab V n. induction input as [|x input IH]; intros ab V n Hab Hn Hok HV; cbn [expand_loop].
  - cbn [length] in Hn. destruct n as [|n]; [done|]. nia.
  - apply Forall_cons in Hok as [Hx Hok]. rewrite (acc_push 8) by (done || lia).
    set (V' := V * 2 ^ 8%nat + x). assert (HV' : 0 <= V') by (unfold V', uint in *; change (2 ^ 8%nat) with 256; lia).
    assert (HT : V * 2 ^ (8 * length (x :: input)) + bev 8 (x :: input) = V' * 2 ^ (8 * length input) + bev 8 input).
    { rewrite bev_cons by lia. unfold V'. cbn [length]. rewrite Nat2Z.inj_succ, Z.mul_succ_r, Z.pow_add_r by lia.
      change (2 ^ 8%nat) with (2 ^ 8). ring. }
    rewrite HT. cbn [length] in Hn. destruct (Nat.leb_spec b (ab + 8)) as [Hle|Hlt].
    + destruct n as [|n]; [lia|]. rewrite words_S by lia. cbn [map concat]. f_equal; [|apply IH; (done || nia)].
      unfold m. rewrite expand_element_spec by lia. f_equal. f_equal.
      replace (Z.of_nat b * n) with (8 * length input + (ab + 8 - b)%nat) by nia. rewrite Z.pow_add_r by lia.
      rewrite <- Z.div_div by (first [apply Z.pow_nonzero|apply pow2_pos]; lia). f_equal.
      rewrite Z.add_comm, Z.div_add by (apply Z.pow_nonzero; lia). rewrite Z.div_small; [lia|].
      apply (bev_bound 8); [lia|done].
    + apply IH; done || lia.
Qed.

(** The low bits of the accumulator and a word read from the array. *)
Lemma read_element_spec (b pad : nat) acc e rest :
  let m := ((b + 7) / 8)%nat in
  (b + 7 <= 32)%nat -> uint b e ->
  read_element (m + pad) pad (Z.ones b) acc (element m pad e ++ rest) = Z.lor acc e.
Proof.
  intros m Hb He. unfold read_element. replace (m + pad - pad)%nat with m by lia.
  assert (Hgen : forall k acc, (k <= m)%nat ->
    foldl (fun acc_value (x : nat) =>
           Z.lor acc_value (to_u32 (Z.shiftl (Z.land (nth x (element m pad e ++ rest) 0)
             (Z.land (Z.shiftr (Z.ones b) (8 * (m + pad - x - 1))%nat) 0xFF)) (8 * (m + pad - x - 1))%nat))) acc (seq (pad + (m - k)) k)
    = Z.lor acc (e mod 2 ^ (8 * k))).
  { clear acc. induction k as [|k IH]; intros acc Hk; [by rewrite Z.mul_0_r, Z.mod_1_r, Z.lor_0_r|]. cbn [seq foldl].
    replace (S (pad + (m - S k)))%nat with (pad + (m - k))%nat by lia. rewrite IH by lia. rewrite <- Z.lor_assoc. f_equal.
    replace (m + pad - (pad + (m - S k)) - 1)%nat with k by lia.
    assert (nth (pad + (m - S k)) (element m pad e ++ rest) 0 = e / 2 ^ (8 * k) mod 2 ^ 8) as ->.
    { apply nth_lookup_Some. unfold element. rewrite <- app_assoc, lookup_app_r, length_replicate by (rewrite length_replicate; lia).
      rewrite lookup_app_l by (rewrite length_words; lia). unfold words. rewrite rev_alt.
      change (rev_append (digits 8 m e) []) with (reverse (digits 8 m e)). rewrite reverse_lookup; rewrite ?length_digits; [|lia].
      rewrite digits_shift, list_lookup_fmap, lookup_seq_lt by lia. cbn [fmap option_fmap option_map].
      by replace (0 + (m - S (pad + (m - S k) - pad)))%nat with k by lia. }
    unfold wrap. rewrite <- !Z.land_ones, <- Z.shiftr_div_pow2 by lia. change 0xFF with (Z.ones 8).
    apply Z.bits_inj'. intros n Hn. rewrite Z.lor_spec, !Z.land_spec.
    assert (He' : b <= n -> Z.testbit e n = false).
    { intros Hbn. rewrite <- (Z.mod_small e (2 ^ b)) by done. apply Z.mod_pow2_bits_high. lia. }
    replace (8 * S k) with (8 * k + 8) by lia. destruct (Z_lt_le_dec n (8 * k)).
    { rewrite Z.shiftl_spec_low, andb_false_l by lia. rewrite !Z.ones_spec_low by lia. by rewrite !andb_true_r. }
    rewrite (Z.ones_spec_high (8 * k)), andb_false_r, orb_false_r by lia. rewrite Z.shiftl_spec by lia.
    rewrite !Z.land_spec, !Z.shiftr_spec by lia. replace (n - (8 * k)%nat + 8 * k) with n by lia.
    replace (n - (8 * k)%nat + (8 * k)%nat) with n by lia. destruct (Z_lt_le_dec n b) as [Hnb|Hnb]; [|by rewrite He'].
    rewrite (Z.ones_spec_low b), (Z.ones_spec_low 32) by lia. destruct (Z_lt_le_dec n (8 * k + 8)).
    - rewrite !Z.ones_spec_low by lia. by rewrite !andb_true_r.
    - rewrite !Z.ones_spec_high by lia. by rewrite ?andb_false_r. }
  specialize (Hgen m acc ltac:(lia)). replace (pad + (m - m))%nat with pad in Hgen by lia. rewrite Hgen, Z.mod_small; [done|].
  unfold uint in He. split; [lia|]. eapply Z.lt_le_trans; [apply He|]. apply Z.pow_le_mono_r; [lia|].
  pose proof (Nat.div_mod_eq (b + 7) 8) as Hd. pose proof (Nat.mod_upper_bound (b + 7) 8). fold m in Hd. lia.
Qed.

Lemma compress_loop_spec (b pad n : nat) ab M es :
  let m := ((b + 7) / 8)%nat in
  (8 <= b)%nat -> (b + 7 <= 32)%nat -> (ab < b)%nat -> (ab + b * length es = 8 * n)%nat -> Forall (uint b) es -> 0 <= M ->
  compress_loop n b (m + pad) pad (Z.ones b) ab (to_u32 M) (concat (map (element m pad) es))
  = words 8 n (M * 2 ^ (b * length es) + bev b es).
Proof.
  intros m Hb1 Hb2. revert ab M es. induction n as [|n IH]; intros ab M es Hab Hn Hes HM; [done|].
  assert (Hstep : forall ab' M' es', (8 <= ab')%nat -> (ab' - 8 < b)%nat -> (ab' <= 32)%nat -> (ab' + b * length es' = 8 * S n)%nat ->
    Forall (uint b) es' -> 0 <= M' ->
    Z.land (Z.shiftr (to_u32 M') (ab' - 8)%nat) 0xFF
      :: compress_loop n b (m + pad) pad (Z.ones b) (ab' - 8) (to_u32 M') (concat (map (element m pad) es'))
    = words 8 (S n) (M' * 2 ^ (b * length es') + bev b es')).
  { clear ab M es Hab Hn Hes HM. intros ab' M' es' H8 Hlt H32 Hn Hes HM. rewrite words_S by lia. f_equal; [|apply IH; (done || lia)].
    change 0xFF with (Z.ones 8). rewrite Z.land_ones, Z.shiftr_div_pow2 by lia.
    replace (8 * n) with (b * length es' + (ab' - 8)%nat) by lia. rewrite Z.pow_add_r by lia.
    rewrite <- Z.div_div by (first [apply Z.pow_nonzero|apply pow2_pos]; lia).
    rewrite (Z.add_comm (M' * _)), Z.div_add by (apply Z.pow_nonzero; lia).
    rewrite (Z.div_small (bev b es')) by (apply bev_bound; [lia|done]). rewrite Z.add_0_l.
    apply Z.bits_inj'. intros i Hi. destruct (Z_lt_le_dec i 8).
    - rewrite !Z.mod_pow2_bits_low, <- !Z.shiftr_div_pow2, !Z.shiftr_spec by lia. unfold wrap. apply Z.mod_pow2_bits_low. lia.
    - rewrite !Z.mod_pow2_bits_high by lia. done. }
  cbn [compress_loop]. destruct (Nat.ltb_spec ab 8) as [Hlt|Hge].
  - destruct es as [|e es]; [cbn [length] in Hn; lia|]. apply Forall_cons in Hes as [He Hes]. cbn [map concat].
    unfold m. rewrite read_element_spec by (done || lia). fold m. rewrite acc_push by (done || lia).
    assert (Hd : drop (m + pad) (element m pad e ++ concat (map (element m pad) es)) = concat (map (element m pad) es)).
    { apply drop_app_length'. unfold element. rewrite length_app, length_replicate, length_words. lia. }
    rewrite Hd. cbn [length] in Hn.
    replace (M * 2 ^ (b * length (e :: es)) + bev b (e :: es)) with ((M * 2 ^ b + e) * 2 ^ (b * length es) + bev b es).
    + apply Hstep; try done; try nia. unfold uint in He. pose proof (pow2_pos b). nia.
    + rewrite bev_cons by lia. cbn [length]. rewrite Nat2Z.inj_succ, Z.mul_succ_r, Z.pow_add_r by lia. ring.
  - apply Hstep; done || lia.
Qed.

Lemma concat_length {A} (w : nat) (l : list (list A)) : Forall (fun x => length x = w) l -> length (concat l) = (length l * w)%nat.
Proof. induction 1 as [|x l Hx _ IH]; [done|]. cbn [concat length]. rewrite length_app, IH. lia. Qed.
Lemma length_element m pad e : length (element m pad e) = (m + pad)%nat.
Proof. unfold element. rewrite length_app, length_replicate, length_words. lia. Qed.
Lemma length_elements m pad l : length (concat (map (element m pad) l)) = ((m + pad) * length l)%nat.
Proof.
  rewrite (concat_length (m + pad)), length_map by (apply Forall_map, Forall_true; intros e; apply length_element). lia.
Qed.

(** The bit lengths for which the arrays are used. *)
Definition bits_ok (b : nat) : Prop := (8 <= b <= 25)%nat.
Definition byte_width (b : nat) : nat := (b + 7) / 8.
Lemma byte_width_bound b : bits_ok b -> (b <= 8 * byte_width b <= 32)%nat.
Proof.
  unfold bits_ok, byte_width. intros Hb. pose proof (Nat.div_mod_eq (b + 7) 8) as Hd. pose proof (Nat.mod_upper_bound (b + 7) 8).
  split; [lia|]. pose proof (Nat.Div0.div_le_mono (b + 7) 32 8). change (32 / 8)%nat with 4%nat in *. lia.
Qed.

Lemma ExpandArray_spec b pad n input out :
  bits_ok b -> (8 * length input = n * b)%nat -> bytes_ok input -> length out = ((byte_width b + pad) * n)%nat ->
  ExpandArray input out b pad = Ok (concat (map (element (byte_width b) pad) (words b n (bev 8 input)))).
Proof.
  intros Hb Hn Hok Hout. unfold bits_ok in Hb. unfold ExpandArray. rewrite (proj2 (Nat.leb_le 8 b)), (proj2 (Nat.leb_le (7 + b) 32)) by lia.
  cbn [andb]. fold (byte_width b). rewrite bit_len_mask_ones by lia.
  assert (8 * (byte_width b + pad) * length input / b = (byte_width b + pad) * n)%nat as ->.
  { replace (8 * (byte_width b + pad) * length input)%nat with ((byte_width b + pad) * n * b)%nat by nia. apply Nat.div_mul. lia. }
  rewrite Hout, Nat.eqb_refl. pose proof (expand_loop_spec b pad n 0 0 input) as He. cbn zeta in He. fold (byte_width b) in He.
  rewrite (wrap_small 32 0), Z.mul_0_l, Z.add_0_l in He by (unfold uint; widths; lia). rewrite He by (done || lia).
  rewrite drop_ge by (rewrite length_elements, length_words; lia). by rewrite app_nil_r.
Qed.

Lemma CompressArray_spec b pad n es :
  bits_ok b -> (b * length es = 8 * n)%nat -> Forall (uint b) es ->
  CompressArray (concat (map (element (byte_width b) pad) es)) n b pad = Ok (words 8 n (bev b es)).
Proof.
  intros Hb Hn Hes. unfold bits_ok in Hb. unfold CompressArray. rewrite (proj2 (Nat.leb_le 8 b)), (proj2 (Nat.leb_le (7 + b) 32)) by lia.
  cbn [andb]. fold (byte_width b). rewrite bit_len_mask_ones, length_elements by lia.
  assert (b * ((byte_width b + pad) * length es) / (8 * (byte_width b + pad)) = n)%nat as ->.
  { pose proof (byte_width_bound b Hb). replace (b * ((byte_width b + pad) * length es))%nat with (n * (8 * (byte_width b + pad)))%nat by nia.
    apply Nat.div_mul. lia. }
  rewrite Nat.eqb_refl. f_equal. pose proof (compress_loop_spec b pad n 0 0 es) as He. cbn zeta in He. fold (byte_width b) in He.
  rewrite (wrap_small 32 0), Z.mul_0_l, Z.add_0_l in He by (unfold uint; widths; lia). apply He; done || lia.
Qed.

(** Four bytes hold a word with the padding in front. *)
Lemma element_BE32 b e : bits_ok b -> uint b e -> element (byte_width b) (4 - byte_width b) e = WriteBE32 e.
Proof.
  intros Hb He. pose proof (byte_width_bound b Hb). change (WriteBE32 e) with (words 8 4 e).
  set (m := byte_width b) in *. rewrite <- (words_bev 8 (element m (4 - m) e)).
  - rewrite length_element. replace (m + (4 - m))%nat with 4%nat by lia. f_equal. unfold bev, element.
    rewrite rev_app_distr, lev_app by lia. rewrite <- (reverse_replicate (4 - m) 0) at 1. unfold reverse. rewrite <- rev_alt, rev_involutive.
    rewrite lev_replicate_0, Z.mul_0_r, Z.add_0_r. fold (bev 8 (words 8 m e)). rewrite bev_words by lia. apply Z.mod_small.
    unfold uint in He. split; [lia|]. eapply Z.lt_le_trans; [apply He|]. apply Z.pow_le_mono_r; lia.
  - lia.
  - unfold element. apply Forall_app. split; [|by apply words_ok]. apply Forall_replicate. unfold uint. widths. lia.
Qed.
Lemma elements_BE32 b l :
  bits_ok b -> Forall (uint b) l -> concat (map (element (byte_width b) (4 - byte_width b)) l) = concat (map EhIndexToArray l).
Proof. intros Hb Hl. f_equal. apply map_ext_Forall. eapply Forall_impl; [apply Hl|]. intros e He. by apply element_BE32. Qed.

Lemma read_indices l :
  Forall (uint 32) l ->
  map (fun i => ArrayToEhIndex (drop (i * 4)%nat (concat (map EhIndexToArray l)))) (seq 0 (length l)) = l.
Proof.
  induction 1 as [|e l He Hl IH]; [done|]. cbn [length seq map concat]. f_equal.
  - change (0 * 4)%nat with 0%nat. rewrite drop_0. unfold ArrayToEhIndex, ReadBE32, EhIndexToArray. rewrite take_app_length' by done. unfold WriteBE32.
    rewrite rev_involutive, lev_digits by lia. by apply Z.mod_small.
  - rewrite <- IH at 2. rewrite <- (seq_shift (length l) 0), map_map. apply map_ext. intros i. done.
Qed.

Section packing.
Context (c n : nat) (Hb : bits_ok (c + 1)).
Abbreviation b := (c + 1)%nat.

Lemma uint_32 l : Forall (uint b) l -> Forall (uint 32) l.
Proof.
  intros Hl. eapply Forall_impl; [apply Hl|]. intros e [? He]. split; [done|]. eapply Z.lt_le_trans; [apply He|].
  apply Z.pow_le_mono_r; unfold bits_ok in Hb; lia.
Qed.

Lemma GetIndicesFromMinimal_spec soln :
  (8 * length soln = n * b)%nat -> bytes_ok soln -> GetIndicesFromMinimal soln c = Ok (words b n (bev 8 soln)).
Proof.
  intros Hn Hok. pose proof (byte_width_bound _ Hb) as Hw. unfold GetIndicesFromMinimal, sizeof_eh_index. fold (byte_width b).
  rewrite (proj2 (Nat.leb_le (byte_width b) 4)) by lia.
  assert (8 * 4 * length soln / b = 4 * n)%nat as ->.
  { replace (8 * 4 * length soln)%nat with (4 * n * b)%nat by lia. apply Nat.div_mul. lia. }
  rewrite (ExpandArray_spec b _ n) by (try done; rewrite length_replicate; replace (byte_width b + (4 - byte_width b))%nat with 4%nat by lia; done).
  cbn [bindR]. f_equal. rewrite (elements_BE32 b) by (done || (apply words_ok; lia)).
  replace ((4 * n + 3) / 4)%nat with (length (words b n (bev 8 soln))).
  - apply read_indices, uint_32, words_ok. lia.
  - rewrite length_words. rewrite (Nat.mul_comm 4), Nat.add_comm, Nat.div_add by lia. done.
Qed.

Lemma GetMinimalFromIndices_spec indices len :
  (b * length indices = 8 * len)%nat -> Forall (uint b) indices -> GetMinimalFromIndices indices c = Ok (words 8 len (bev b indices)).
Proof.
  intros Hn Hok. pose proof (byte_width_bound _ Hb) as Hw. unfold GetMinimalFromIndices, sizeof_eh_index. fold (byte_width b).
  rewrite (proj2 (Nat.leb_le (byte_width b) 4)) by lia. rewrite <- (elements_BE32 b) by done.
  replace (b * (length indices * 4) / (8 * 4))%nat with len.
  - by apply CompressArray_spec.
  - replace (b * (length indices * 4))%nat with (len * (8 * 4))%nat by lia. by rewrite Nat.div_mul.
Qed.
End packing.

(** Packing the indices of a solution loses nothing. For an index width of
    8 to 25 bits, which covers every supported parameter, and a number of
    indices that fills whole bytes, unpacking a string of the matching length
    and packing the result gives the string back, and packing a list of indices
    of that width and unpacking the result gives the list back; neither fails
    an assertion. *)
Theorem equihash_packing_roundtrip (c n : nat) soln indices :
  (8 <= c + 1 <= 25)%nat ->
  (8 * length soln = n * (c + 1))%nat -> bytes_ok soln ->
  length indices = n -> Forall (uint (c + 1)%nat) indices ->
  (exists l, GetIndicesFromMinimal soln c = Ok l /\ length l = n /\ Forall (uint (c + 1)%nat) l /\ GetMinimalFromIndices l c = Ok soln)
  /\ (exists s, GetMinimalFromIndices indices c = Ok s /\ length s = length soln /\ GetIndicesFromMinimal s c = Ok indices).
Proof.
  intros Hb Hn Hok Hlen Hind. assert (Hw : 0 < (c + 1)%nat) by lia. split.
  - eexists. split_and!; [by apply (GetIndicesFromMinimal_spec c n)|apply length_words|by apply words_ok|].
    rewrite (GetMinimalFromIndices_spec c Hb _ (length soln)) by (rewrite ?length_words; (nia || by apply words_ok)).
    rewrite bev_words by done. pose proof (bev_bound 8 soln ltac:(lia) Hok).
    rewrite Z.mod_small by (replace ((c + 1)%nat * n) with (8 * length soln) by nia; done). f_equal. by apply words_bev.
  - eexists. split_and!; [apply (GetMinimalFromIndices_spec c Hb _ (length soln)); [nia|done]|apply length_words|].
    rewrite (GetIndicesFromMinimal_spec c n Hb) by (rewrite ?length_words; done || by apply words_ok).
    rewrite bev_words by lia. pose proof (bev_bound _ indices Hw Hind).
    rewrite Z.mod_small by (replace (8 * length soln) with ((c + 1)%nat * length indices) by nia; done). f_equal.
    rewrite <- Hlen. by apply words_bev.
Qed.

Lemma equihash_packing_roundtrip_witness :
  (exists l, GetIndicesFromMinimal [0; 1; 2; 3; 4; 5; 6; 7; 255] 8 = Ok l /\ length l = 8%nat /\ Forall (uint 9%nat) l
             /\ GetMinimalFromIndices l 8 = Ok [0; 1; 2; 3; 4; 5; 6; 7; 255])
  /\ (exists s, GetMinimalFromIndices [500; 3; 2; 1; 0; 511; 7; 7] 8 = Ok s /\ length s = 9%nat
                /\ GetIndicesFromMinimal s 8 = Ok [500; 3; 2; 1; 0; 511; 7; 7]).
Proof.
  apply (equihash_packing_roundtrip 8 8 [0; 1; 2; 3; 4; 5; 6; 7; 255] [500; 3; 2; 1; 0; 511; 7; 7]); try done; try (cbn; lia).
  - repeat constructor; unfold uint; widths; lia.
  - repeat constructor; by vm_compute.
Defined.

(** ** Bytes, words and comparisons *)

Lemma lxor_mod a b w : 0 <= w -> Z.lxor a b mod 2 ^ w = Z.lxor (a mod 2 ^ w) (b mod 2 ^ w).
Proof.
  intros Hw. rewrite <- !Z.land_ones by done. apply Z.bits_inj'. intros n Hn. rewrite !Z.land_spec, !Z.lxor_spec, !Z.land_spec.
  destruct (Z.testbit (Z.ones w) n); by rewrite ?andb_true_r, ?andb_false_r.
Qed.
Lemma lxor_div a b w : 0 <= w -> Z.lxor a b / 2 ^ w = Z.lxor (a / 2 ^ w) (b / 2 ^ w).
Proof. intros Hw. rewrite <- !Z.shiftr_div_pow2 by done. apply Z.shiftr_lxor. Qed.
Lemma words_lxor w n a b : 0 < w -> words w n (Z.lxor a b) = zip_with Z.lxor (words w n a) (words w n b).
Proof.
  intros Hw. induction n as [|n IH]; [done|]. rewrite !words_S by done. cbn [zip_with]. rewrite IH, lxor_div, lxor_mod by lia. done.
Qed.
Lemma elements_lxor (m : nat) l l' :
  zip_with Z.lxor (concat (map (words 8 m) l)) (concat (map (words 8 m) l')) = concat (map (words 8 m) (zip_with Z.lxor l l')).
Proof.
  revert l'. induction l as [|e l IH]; intros [|e' l']; cbn [map concat zip_with]; try done; [by rewrite zip_with_nil_r|].
  rewrite zip_with_app by (by rewrite !length_words). by rewrite IH, words_lxor by lia.
Qed.

Lemma memcmp_app a b x y :
  length a = length b -> memcmp (a ++ x) (b ++ y) = match memcmp a b with Eq => memcmp x y | r => r end.
Proof.
  revert b. induction a as [|u a IH]; intros [|v b] Hl; try done. cbn [memcmp app]. injection Hl as Hl.
  destruct (u ?= v); [by apply IH|done|done].
Qed.
Lemma memcmp_words (n : nat) a b : memcmp (words 8 n a) (words 8 n b) = (a mod 2 ^ (8 * n) ?= b mod 2 ^ (8 * n)).
Proof.
  induction n as [|n IH]; [cbn; by rewrite !Z.mod_1_r|]. rewrite !words_S by lia. cbn [memcmp]. rewrite IH. clear IH.
  assert (Hs : forall z, z mod 2 ^ (8 * S n) = (z / 2 ^ (8 * n) mod 2 ^ 8) * 2 ^ (8 * n) + z mod 2 ^ (8 * n)).
  { intros z. rewrite Nat2Z.inj_succ, Z.mul_succ_r, Z.pow_add_r by lia. rewrite Z.rem_mul_r by (first [apply Z.pow_nonzero|apply pow2_pos]; lia). ring. }
  rewrite !Hs. pose proof (pow2_pos (8 * n) ltac:(lia)).
  pose proof (Z.mod_pos_bound a (2 ^ (8 * n)) ltac:(lia)). pose proof (Z.mod_pos_bound b (2 ^ (8 * n)) ltac:(lia)).
  destruct (Z.compare_spec (a / 2 ^ (8 * n) mod 2 ^ 8) (b / 2 ^ (8 * n) mod 2 ^ 8)) as [->|Hlt|Hgt].
  - destruct (Z.compare_spec (a mod 2 ^ (8 * n)) (b mod 2 ^ (8 * n))); symmetry; [apply Z.compare_eq_iff|apply Z.compare_lt_iff|apply Z.compare_gt_iff]; lia.
  - symmetry. apply Z.compare_lt_iff. nia.
  - symmetry. apply Z.compare_gt_iff. nia.
Qed.
Lemma memcmp_index a b : uint 32 a -> uint 32 b -> memcmp (EhIndexToArray a) (EhIndexToArray b) = (a ?= b).
Proof.
  intros Ha Hb. change (EhIndexToArray a) with (words 8 4 a). change (EhIndexToArray b) with (words 8 4 b).
  rewrite memcmp_words. by rewrite !Z.mod_small.
Qed.

Lemma zip_eqb_true (a b : bytes) : length a = length b -> forallb (fun p => p.1 =? p.2) (zip a b) = true <-> a = b.
Proof.
  revert b. induction a as [|x a IH]; intros [|y b] Hl; try done. cbn [zip zip_with forallb fst snd]. injection Hl as Hl.
  rewrite andb_true_iff, Z.eqb_eq, IH by done. naive_solver.
Qed.

(** An index of an array of indices. *)
Lemma index_at l (i : nat) e rest :
  l !! i = Some e -> take 4 (drop (i * 4) (concat (map EhIndexToArray l) ++ rest)) = EhIndexToArray e.
Proof.
  revert i. induction l as [|x l IH]; intros i Hi; [done|]. cbn [map concat]. destruct i as [|i].
  - injection Hi as ->. by rewrite <- app_assoc, drop_0, take_app_length' by done.
  - cbn in Hi. rewrite <- (IH i Hi). f_equal.
Qed.
Lemma length_indices l : length (concat (map EhIndexToArray l)) = (4 * length l)%nat.
Proof. induction l as [|x l IH]; [done|]. cbn [map concat length]. rewrite length_app, IH. cbn. lia. Qed.

(** Between lists without a common index the first index decides. *)
Lemma memcmp_rows (L : nat) J J' :
  length J = L -> length J' = L -> (1 <= L)%nat -> Forall (uint 32) J -> Forall (uint 32) J' ->
  (forall i j, i ∈ J -> j ∈ J' -> i <> j) ->
  memcmp (concat (map EhIndexToArray J)) (concat (map EhIndexToArray J')) = (hd 0 J ?= hd 0 J').
Proof.
  intros HJ HJ' HL H32 H32' Hd. destruct J as [|i l], J' as [|j l']; try (cbn [length] in *; lia). cbn [map concat hd].
  rewrite memcmp_app by done. apply Forall_cons in H32 as [Hi _], H32' as [Hj _]. rewrite memcmp_index by done.
  destruct (Z.compare_spec i j) as [->|?|?]; [|done|done]. by destruct (Hd j j ltac:(left) ltac:(left)).
Qed.

(** ** What the verifier accepts *)

(** The parameters for which [Equihash] is instantiated. *)
Definition eh_ok (N K : nat) : Prop :=
  let c := CollisionBitLength N K in
  N = ((K + 1) * c)%nat /\ (8 <= c <= 24)%nat /\ (N mod 8 = 0)%nat /\ (N <= 512)%nat
  /\ (2 ^ K * (c + 1) mod 8 = 0)%nat.

Definition xor_all (l : list Z) : Z := foldr Z.lxor 0 l.
Lemma xor_all_app l l' : xor_all (l ++ l') = Z.lxor (xor_all l) (xor_all l').
Proof.
  induction l as [|x l IH]; [done|]. cbn [app]. change (xor_all (x :: l ++ l')) with (Z.lxor x (xor_all (l ++ l'))).
  rewrite IH. change (xor_all (x :: l)) with (Z.lxor x (xor_all l)). by rewrite Z.lxor_assoc.
Qed.

Section valid.
Context `{EhHash} (N K : nat) (st : eh_HashState).
Abbreviation c := (CollisionBitLength N K).

(** The [N]-bit hash of an index. *)
Definition index_hash (i : Z) : Z :=
  bev 8 (take (N / 8)%nat (drop (Z.to_nat (i mod IndicesPerHashOutput N) * N / 8)%nat
    (GenerateHash st (i / IndicesPerHashOutput N) (HashOutput N)))).

(** The indices below a node of the tree: the [q]-th group of [2^l] indices. *)
Definition block (indices : list Z) (l q : nat) : list Z := take (2 ^ l)%nat (drop (q * 2 ^ l)%nat indices).
Definition block_xor (indices : list Z) (l q : nat) : Z := xor_all (map index_hash (block indices l q)).

(** The generalised birthday problem: different indices in the order of their
    tree, the hashes below a node at height [l + 1] agreeing on the leading
    [l + 1] groups of bits, and all hashes cancelling out. *)
Record eh_valid (indices : list Z) : Prop := {
  eh_distinct : NoDup indices;
  eh_order (l p : nat) : (l < K)%nat -> (p < 2 ^ (K - S l))%nat ->
    hd 0 (block indices l (2 * p)) < hd 0 (block indices l (2 * p + 1));
  eh_collision (l p : nat) : (l < K)%nat -> (p < 2 ^ (K - S l))%nat ->
    0 <= block_xor indices (S l) p < 2 ^ (N - S l * c)%nat;
  eh_zero : xor_all (map index_hash indices) = 0
}.
End valid.

Section verify.
Context `{EhHashLaws} (N K : nat) (st : eh_HashState) (Hok : eh_ok N K).
Abbreviation c := (CollisionBitLength N K).
Abbreviation m := (CollisionByteLength N K).
Abbreviation h := (index_hash N st).

Lemma c_ok : bits_ok c.
Proof. destruct Hok as (_ & ? & _). unfold bits_ok. lia. Qed.
Lemma m_width : m = byte_width c.
Proof. done. Qed.
Lemma N_bytes : (8 * (N / 8) = N)%nat.
Proof. destruct Hok as (_ & _ & Hm & _). pose proof (Nat.div_mod_eq N 8). lia. Qed.

(** The slice of the hash output. *)
Lemma slice_ok i :
  let s := take (N / 8)%nat (drop (Z.to_nat (i mod IndicesPerHashOutput N) * N / 8)%nat
             (GenerateHash st (i / IndicesPerHashOutput N) (HashOutput N))) in
  length s = (N / 8)%nat /\ bytes_ok s.
Proof.
  cbn zeta. unfold GenerateHash. destruct (blake2b_final_ok (blake2b_update st (WriteLE32 (i / IndicesPerHashOutput N))) (HashOutput N)) as [Hl Hb].
  split; [|by apply Forall_take, Forall_drop]. rewrite length_take, length_drop, Hl. pose proof N_bytes as HN.
  assert (Hp : (0 < IndicesPerHashOutput N)%nat).
  { destruct Hok as (HN' & Hc & _ & H512 & _). unfold IndicesPerHashOutput. apply Nat.div_str_pos. nia. }
  pose proof (Z.mod_pos_bound i (IndicesPerHashOutput N) ltac:(lia)) as Hi.
  set (j := Z.to_nat (i mod IndicesPerHashOutput N)). assert (Hj : (j < IndicesPerHashOutput N)%nat) by lia.
  unfold HashOutput. set (n8 := (N / 8)%nat) in *. rewrite <- HN.
  replace (j * (8 * n8))%nat with (j * n8 * 8)%nat by lia. replace (IndicesPerHashOutput (8 * n8) * (8 * n8))%nat with (IndicesPerHashOutput (8 * n8) * n8 * 8)%nat by lia.
  rewrite !Nat.div_mul by lia. rewrite HN. nia.
Qed.
Lemma index_hash_bound i : 0 <= h i < 2 ^ N.
Proof.
  destruct (slice_ok i) as [Hl Hb]. unfold index_hash. pose proof (bev_bound 8 _ ltac:(lia) Hb) as Hx. rewrite Hl in Hx.
  pose proof N_bytes as HN. replace (8 * (N / 8)%nat) with (Z.of_nat N) in Hx by lia. exact Hx.
Qed.

(** A row whose hash has [n] groups left. *)
Definition row (n : nat) (x : Z) (ind : list Z) : bytes := concat (map (words 8 m) (words c n x)) ++ concat (map EhIndexToArray ind).

Lemma length_hash n x : length (concat (map (words 8 m) (words c n x))) = (n * m)%nat.
Proof. rewrite (concat_length m), length_map, length_words; [done|]. apply Forall_map, Forall_true. intros e. apply length_words. Qed.

Lemma first_row_spec i : first_row N K st i = Ok (row (K + 1) (h i) [i]).
Proof.
  unfold first_row, FullStepRow. destruct (slice_ok i) as [Hl Hb]. pose proof N_bytes as HN. destruct Hok as (HNc & Hc & _ & _ & _).
  assert (HashLength N K <=? FinalFullWidth N K = true)%nat as ->.
  { apply Nat.leb_le. unfold HashLength, FinalFullWidth, sizeof_eh_index. pose proof (byte_width_bound _ c_ok) as Hw. rewrite <- m_width in Hw.
    assert (m <= 4)%nat by lia. pose proof (Nat.pow_gt_lin_r 2 K). nia. }
  rewrite (ExpandArray_spec c 0 (K + 1)); [|apply c_ok|rewrite Hl; lia|done|].
  - cbn [bindR]. unfold row. cbn [map concat]. by rewrite app_nil_r.
  - rewrite length_replicate. unfold HashLength. rewrite m_width. lia.
Qed.

Lemma first_rows_spec ind : first_rows N K st ind = Ok (map (fun i => row (K + 1) (h i) [i]) ind).
Proof. induction ind as [|i ind IH]; [done|]. cbn [first_rows map]. by rewrite first_row_spec, IH. Qed.

(** *** Merging a pair *)

Lemma top_group n x y :
  0 <= x < 2 ^ (c * S n) -> 0 <= y < 2 ^ (c * S n) ->
  x / 2 ^ (c * n) mod 2 ^ c = y / 2 ^ (c * n) mod 2 ^ c <-> Z.lxor x y < 2 ^ (c * n).
Proof.
  intros Hx Hy. pose proof c_ok as Hc. unfold bits_ok in Hc. pose proof (pow2_pos (c * n) ltac:(lia)) as Hp.
  assert (Hs : 2 ^ (c * S n) = 2 ^ c * 2 ^ (c * n)) by (rewrite <- Z.pow_add_r by lia; f_equal; lia).
  assert (Hd : forall z, 0 <= z < 2 ^ (c * S n) -> z / 2 ^ (c * n) mod 2 ^ c = z / 2 ^ (c * n)).
  { intros z Hz. apply Z.mod_small. split; [apply Z.div_pos; lia|]. apply Z.div_lt_upper_bound; [done|]. rewrite Z.mul_comm. lia. }
  rewrite !Hd by done. assert (Hl : 0 <= Z.lxor x y) by (apply Z.lxor_nonneg; lia).
  transitivity (Z.lxor x y / 2 ^ (c * n) = 0).
  - rewrite lxor_div by lia. rewrite Z.lxor_eq_0_iff. done.
  - rewrite Z.div_small_iff by lia. lia.
Qed.

Lemma row_indices n L z ind :
  length ind = L -> indices_of (row (S n) z ind) (S n * m)%nat (4 * L)%nat = concat (map EhIndexToArray ind).
Proof.
  intros Hi. unfold indices_of, row. rewrite drop_app_length' by (by rewrite length_hash). apply take_ge. rewrite length_indices. lia.
Qed.

Section pair.
Context (n L : nat) (x y : Z) (J J' : list Z).
Context (HJ : length J = L) (HJ' : length J' = L) (HL : (1 <= L)%nat) (H32 : Forall (uint 32) J) (H32' : Forall (uint 32) J').
Context (Hx : 0 <= x < 2 ^ (c * S n)) (Hy : 0 <= y < 2 ^ (c * S n)).
Abbreviation a := (row (S n) x J).
Abbreviation b := (row (S n) y J').
Abbreviation len := (S n * m)%nat.

Lemma row_collision : HasCollision a b m = (Z.lxor x y <? 2 ^ (c * n)).
Proof.
  pose proof c_ok as Hc. unfold bits_ok in Hc. pose proof (byte_width_bound _ c_ok) as Hw. rewrite <- m_width in Hw.
  assert (Ht : forall z ind, take m (row (S n) z ind) = words 8 m (z / 2 ^ (c * n) mod 2 ^ c)).
  { intros z ind. unfold row. rewrite words_S by lia. cbn [map concat]. rewrite <- app_assoc. apply take_app_length'. by rewrite length_words. }
  apply eq_true_iff_eq. unfold HasCollision. rewrite !Ht, zip_eqb_true, Z.ltb_lt, <- top_group by (done || by rewrite !length_words).
  split; [|by intros ->]. intros He%(f_equal (bev 8)). rewrite !bev_words in He by lia.
  assert (Hb : forall z, 0 <= z mod 2 ^ c < 2 ^ (8 * m)).
  { intros z. pose proof (Z.mod_pos_bound z (2 ^ c) ltac:(apply pow2_pos; lia)). split; [lia|]. eapply Z.lt_le_trans; [apply H1|].
    apply Z.pow_le_mono_r; lia. }
  rewrite !(Z.mod_small (_ mod _)) in He by apply Hb. done.
Qed.

Lemma row_distinct : DistinctIndices a b len (4 * L)%nat = true <-> forall i j, i ∈ J -> j ∈ J' -> i <> j.
Proof.
  unfold DistinctIndices, sizeof_eh_index. replace ((4 * L + 3) / 4)%nat with L by (rewrite Nat.mul_comm, Nat.add_comm, Nat.div_add by lia; done).
  assert (Ht : forall z ind (k : nat) e, length ind = L -> ind !! k = Some e -> take 4 (drop (len + k * 4) (row (S n) z ind)) = EhIndexToArray e).
  { intros z ind k e Hi He. unfold row. rewrite drop_app_add' by (by rewrite length_hash).
    rewrite <- (app_nil_r (concat (map EhIndexToArray ind))). by apply index_at. }
  rewrite forallb_forall. setoid_rewrite forallb_forall. rewrite !Forall_forall in H32, H32'. split.
  - intros Hd i j Hi Hj ->. apply list_elem_of_lookup in Hi as [k Hk], Hj as [k' Hk'].
    pose proof (lookup_lt_Some _ _ _ Hk). pose proof (lookup_lt_Some _ _ _ Hk').
    assert (Hin : forall q, (q < L)%nat -> In (q * 4)%nat (map (fun i => (i * 4)%nat) (seq 0 L))).
    { intros q Hq. apply in_map_iff. exists q. split; [done|]. apply in_seq. lia. }
    specialize (Hd (k * 4)%nat (Hin k ltac:(lia)) (k' * 4)%nat (Hin k' ltac:(lia))).
    rewrite (Ht _ J k j), (Ht _ J' k' j) in Hd by done.
    rewrite memcmp_index, Z.compare_refl in Hd by (eapply H32', list_elem_of_lookup_2; done). done.
  - intros Hd u (k & <- & Hk%in_seq)%in_map_iff v (k' & <- & Hk'%in_seq)%in_map_iff.
    destruct (lookup_lt_is_Some_2 J k) as [i Hi]; [lia|]. destruct (lookup_lt_is_Some_2 J' k') as [j Hj]; [lia|].
    rewrite (Ht _ J k i), (Ht _ J' k' j) by done.
    rewrite memcmp_index by (first [eapply H32; by eapply list_elem_of_lookup_2|eapply H32'; by eapply list_elem_of_lookup_2]).
    destruct (Z.compare_spec i j) as [->|?|?]; [|done|done].
    by destruct (Hd j j (list_elem_of_lookup_2 _ _ _ Hi) (list_elem_of_lookup_2 _ _ _ Hj)).
Qed.
End pair.

Definition pair_okb (n : nat) (x y : Z) (J J' : list Z) : bool :=
  (Z.lxor x y <? 2 ^ (c * n)) && (hd 0 J <? hd 0 J') && bool_decide (Forall (fun i => i ∉ J') J).

Lemma merge_pair n L x y J J' X :
  length J = L -> length J' = L -> (1 <= L)%nat -> Forall (uint 32) J -> Forall (uint 32) J' ->
  0 <= x < 2 ^ (c * S n) -> 0 <= y < 2 ^ (c * S n) ->
  (S n * m + 4 * L <= FinalFullWidth N K)%nat -> (n * m + 2 * (4 * L) <= FinalFullWidth N K)%nat ->
  merge_pairs N K (S n * m) (4 * L) (row (S n) x J :: row (S n) y J' :: X)
  = if pair_okb n x y J J'
    then (let* Xc := merge_pairs N K (S n * m) (4 * L) X in Ok (row n (Z.lxor x y) (J ++ J') :: Xc)) else Err eh_invalid.
Proof.
  intros HJ HJ' HL H32 H32' Hx Hy Hw1 Hw2. cbn [merge_pairs]. unfold pair_okb.
  rewrite (row_collision n L) by done. destruct (Z.lxor x y <? 2 ^ (c * n)); cbn [andb]; [|done].
  pose proof (row_distinct n L x y J J' HJ HJ' HL H32 H32' Hx Hy) as Hd.
  unfold IndicesBefore. rewrite !(row_indices n L) by done.
  case_bool_decide as Hf.
  - assert (Hdis : forall i j, i ∈ J -> j ∈ J' -> i <> j).
    { rewrite Forall_forall in Hf. intros i j Hi Hj ->. by apply (Hf j). }
    rewrite (memcmp_rows L J' J) by (try done; intros i j Hi Hj ->; by apply (Hdis j j)). rewrite (proj2 Hd Hdis). rewrite andb_true_r.
    rewrite (Z.compare_antisym (hd 0 J) (hd 0 J')).
    assert (Hne : hd 0 J <> hd 0 J').
    { destruct J as [|i l], J' as [|j l']; try (cbn [length] in *; lia). cbn [hd]. apply Hdis; left. }
    destruct (Z.ltb_spec (hd 0 J) (hd 0 J')) as [Hlt|Hge].
    + rewrite (proj2 (Z.compare_lt_iff (hd 0 J) (hd 0 J'))) by done. cbn [CompOpp negb].
      unfold FullStepRow_merge. rewrite (proj2 (Nat.leb_le (S n * m + 4 * L) _)) by done.
      rewrite (proj2 (Nat.leb_le (S n * m - m + 2 * (4 * L)) _)) by lia. unfold IndicesBefore. rewrite !(row_indices n L) by done.
      rewrite (memcmp_rows L J J') by done. rewrite (proj2 (Z.compare_lt_iff (hd 0 J) (hd 0 J'))) by done. cbn [bindR].
      apply bindR_ext. intros Xc. f_equal. f_equal. unfold row. rewrite map_app, concat_app. f_equal.
      rewrite !take_app_length' by (by rewrite length_hash). pose proof c_ok as Hc. unfold bits_ok in Hc.
      rewrite !words_S by lia. cbn [map concat]. rewrite !drop_app_length' by (by rewrite length_words).
      rewrite elements_lxor. by rewrite words_lxor by lia.
    + rewrite (proj2 (Z.compare_gt_iff (hd 0 J) (hd 0 J'))) by lia. done.
  - rewrite andb_false_r. assert (Hd' : DistinctIndices (row (S n) x J) (row (S n) y J') (S n * m) (4 * L) = false).
    { apply not_true_iff_false. rewrite Hd. intros Hdis. apply Hf, Forall_forall. intros i Hi Hj. by apply (Hdis i i). }
    rewrite Hd'. by destruct (memcmp _ _).
Qed.

(** *** The rounds over the tree *)

Context (ind : list Z) (Hlen : length ind = (2 ^ K)%nat) (H32 : Forall (uint 32) ind).
Abbreviation blk := (block ind).
Abbreviation X := (block_xor N st ind).

Lemma pow2_split l : (l < K)%nat -> (2 ^ (K - l) = 2 * 2 ^ (K - S l))%nat.
Proof. intros Hl. replace (K - l)%nat with (S (K - S l)) by lia. done. Qed.
Lemma pow2_level l : (l <= K)%nat -> (2 ^ (K - l) * 2 ^ l = 2 ^ K)%nat.
Proof. intros Hl. rewrite <- Nat.pow_add_r. f_equal. lia. Qed.

Lemma length_block l q : (l <= K)%nat -> (q < 2 ^ (K - l))%nat -> length (blk l q) = (2 ^ l)%nat.
Proof. intros Hl Hq. unfold block. rewrite length_take, length_drop, Hlen. pose proof (pow2_level l Hl). nia. Qed.
Lemma block_ok l q : Forall (uint 32) (blk l q).
Proof. unfold block. by apply Forall_take, Forall_drop. Qed.
Lemma block_split l p : blk (S l) p = blk l (2 * p) ++ blk l (2 * p + 1).
Proof.
  unfold block. replace (p * 2 ^ S l)%nat with (2 * p * 2 ^ l)%nat by (cbn [Nat.pow]; lia).
  replace ((2 * p + 1) * 2 ^ l)%nat with (2 * p * 2 ^ l + 2 ^ l)%nat by lia. rewrite <- drop_drop.
  replace (2 ^ S l)%nat with (2 ^ l + 2 ^ l)%nat by (cbn [Nat.pow]; lia). by rewrite take_take_drop.
Qed.
Lemma block_top : blk K 0 = ind.
Proof. unfold block. cbn [Nat.mul]. rewrite drop_0. apply take_ge. lia. Qed.
Lemma xor_split l p : X (S l) p = Z.lxor (X l (2 * p)) (X l (2 * p + 1)).
Proof. unfold block_xor. by rewrite block_split, map_app, xor_all_app. Qed.

Definition row_at (l q : nat) : bytes := row (K + 1 - l) (X l q) (blk l q).
Definition level_okb (l : nat) : bool :=
  forallb (fun p => pair_okb (K - l) (X l (2 * p)) (X l (2 * p + 1)) (blk l (2 * p)) (blk l (2 * p + 1))) (seq 0 (2 ^ (K - S l))).
Definition level_bound (l : nat) : Prop := forall q, (q < 2 ^ (K - l))%nat -> 0 <= X l q < 2 ^ (c * (K + 1 - l)%nat).

Lemma widths_fit l : (l < K)%nat ->
  ((S (K - l)) * m + 4 * 2 ^ l <= FinalFullWidth N K)%nat /\ ((K - l) * m + 2 * (4 * 2 ^ l) <= FinalFullWidth N K)%nat.
Proof.
  intros Hl. unfold FinalFullWidth, sizeof_eh_index. pose proof (byte_width_bound _ c_ok) as Hw. rewrite <- m_width in Hw.
  assert (Hm : (m <= 4)%nat) by lia. assert (Hp : (K - S l + 2 ^ S l <= 2 ^ K)%nat).
  { replace (2 ^ K)%nat with (2 ^ (K - S l) * 2 ^ S l)%nat by (rewrite <- Nat.pow_add_r; f_equal; lia).
    pose proof (Nat.pow_gt_lin_r 2 (K - S l) ltac:(lia)). pose proof (Nat.pow_nonzero 2 (S l)). nia. }
  cbn [Nat.pow] in Hp. split; nia.
Qed.

Lemma merge_level l :
  (l < K)%nat -> level_bound l ->
  merge_pairs N K ((K + 1 - l) * m) (4 * 2 ^ l) (map (row_at l) (seq 0 (2 ^ (K - l))))
  = if level_okb l then Ok (map (row_at (S l)) (seq 0 (2 ^ (K - S l)))) else Err eh_invalid.
Proof.
  intros Hl Hb. unfold level_okb. rewrite pow2_split by done.
  assert (Hgen : forall n s, (s + n <= 2 ^ (K - S l))%nat ->
    merge_pairs N K ((K + 1 - l) * m) (4 * 2 ^ l) (map (row_at l) (seq (2 * s) (2 * n)))
    = if forallb (fun p => pair_okb (K - l) (X l (2 * p)) (X l (2 * p + 1)) (blk l (2 * p)) (blk l (2 * p + 1))) (seq s n)
      then Ok (map (row_at (S l)) (seq s n)) else Err eh_invalid); [|by apply (Hgen _ 0%nat)].
  induction n as [|n IH]; intros s Hs; [done|].
  replace (2 * S n)%nat with (S (S (2 * n))) by lia. cbn [seq map forallb].
  replace (S (S (2 * s))) with (2 * S s)%nat by lia. replace (S (2 * s)) with (2 * s + 1)%nat by lia.
  pose proof (pow2_split l Hl) as Hp. destruct (widths_fit l Hl) as [Hw1 Hw2]. unfold row_at at 1 2.
  unfold level_bound in Hb. replace (K + 1 - l)%nat with (S (K - l)) in * by lia.
  rewrite merge_pair; try done; try (apply length_block; lia); try apply block_ok; try (apply Hb; lia); [|pose proof (Nat.pow_nonzero 2 l); lia].
  destruct (pair_okb _ _ _ _ _); cbn [andb]; [|done]. rewrite IH by lia. destruct (forallb _ _); [|done]. cbn [bindR]. do 2 f_equal.
  unfold row_at. rewrite xor_split, block_split. by replace (K + 1 - S l)%nat with (K - l)%nat by lia.
Qed.

Lemma level_next l : (l < K)%nat -> level_okb l = true -> level_bound l -> level_bound (S l).
Proof.
  intros Hl Hok' Hb q Hq. unfold level_okb in Hok'. rewrite forallb_forall in Hok'. specialize (Hok' q).
  rewrite in_seq in Hok'. specialize (Hok' ltac:(lia)). unfold pair_okb in Hok'. rewrite !andb_true_iff, Z.ltb_lt in Hok'.
  rewrite xor_split. replace (K + 1 - S l)%nat with (K - l)%nat by lia. split; [|apply Hok'].
  pose proof (pow2_split l Hl). apply Z.lxor_nonneg. pose proof (Hb (2 * q)%nat ltac:(lia)). pose proof (Hb (2 * q + 1)%nat ltac:(lia)). lia.
Qed.

Lemma block_0 q i : ind !! q = Some i -> blk 0 q = [i].
Proof. intros Hi. unfold block. cbn [Nat.pow]. rewrite Nat.mul_1_r, (drop_S _ _ _ Hi). done. Qed.
Lemma xor_0 q i : ind !! q = Some i -> X 0 q = h i.
Proof. intros Hi. unfold block_xor. rewrite (block_0 q i Hi). cbn. apply Z.lxor_0_r. Qed.

Lemma level_0 : level_bound 0.
Proof.
  intros q Hq. rewrite Nat.sub_0_r in *. destruct (lookup_lt_is_Some_2 ind q) as [i Hi]; [lia|]. rewrite (xor_0 q i Hi).
  destruct Hok as (HN & _). replace (c * (K + 1)%nat) with (Z.of_nat N) by lia. apply index_hash_bound.
Qed.

Lemma first_level : map (fun i => row (K + 1) (h i) [i]) ind = map (row_at 0) (seq 0 (2 ^ (K - 0))).
Proof.
  rewrite Nat.sub_0_r, <- Hlen. apply list_eq. intros q. rewrite !list_lookup_fmap. destruct (ind !! q) as [i|] eqn:Hi.
  - rewrite lookup_seq_lt by (by eapply lookup_lt_Some). cbn [fmap option_fmap option_map]. f_equal. unfold row_at.
    by rewrite Nat.add_0_l, Nat.sub_0_r, (xor_0 q i Hi), (block_0 q i Hi).
  - rewrite lookup_seq_ge by (by apply lookup_ge_None). done.
Qed.

Lemma rounds_spec fuel l :
  (l <= K)%nat -> (K - l < fuel)%nat -> level_bound l ->
  rounds N K fuel ((K + 1 - l) * m) (4 * 2 ^ l) (map (row_at l) (seq 0 (2 ^ (K - l))))
  = if forallb level_okb (seq l (K - l)) then Ok ([row_at K 0], m) else Err eh_invalid.
Proof.
  remember (K - l)%nat as r eqn:Hr. revert fuel l Hr. induction r as [|r IH]; intros fuel l Hr Hl Hf Hb;
    (destruct fuel as [|fuel]; [lia|]); cbn [rounds]; rewrite length_map, length_seq.
  - assert (l = K) as -> by lia. cbn [Nat.pow Nat.leb seq map forallb]. by replace ((K + 1 - K) * m)%nat with m by lia.
  - assert (Hp : (2 ^ S r <=? 1 = false)%nat). { apply Nat.leb_gt. cbn [Nat.pow]. pose proof (Nat.pow_nonzero 2 r). lia. }
    rewrite Hp. pose proof (merge_level l ltac:(lia) Hb) as Hm. rewrite <- Hr in Hm. rewrite Hm. cbn [seq forallb].
    destruct (level_okb l) eqn:El; cbn [andb bindR]; [|done].
    replace ((K + 1 - l) * m - m)%nat with ((K + 1 - S l) * m)%nat by nia.
    replace (4 * 2 ^ l * 2)%nat with (4 * 2 ^ S l)%nat by (cbn [Nat.pow]; lia). replace (K - S l)%nat with r by lia.
    apply IH; try lia. by apply level_next; [lia| |].
Qed.

Lemma final_zero : level_bound K -> IsZero (row_at K 0) m = (X K 0 =? 0).
Proof.
  intros Hb. pose proof c_ok as Hc. unfold bits_ok in Hc. pose proof (byte_width_bound _ c_ok) as Hw. rewrite <- m_width in Hw.
  specialize (Hb 0%nat). rewrite Nat.sub_diag in Hb. specialize (Hb ltac:(cbn; lia)). replace (K + 1 - K)%nat with 1%nat in Hb by lia.
  rewrite Z.mul_1_r in Hb. unfold IsZero, row_at, row. replace (K + 1 - K)%nat with 1%nat by lia. rewrite words_S by lia. cbn [map concat].
  rewrite Z.mul_0_r, Z.div_1_r, (Z.mod_small (X K 0)) by done. rewrite <- app_assoc, take_app_length' by (by rewrite length_words).
  apply eq_true_iff_eq. rewrite Z.eqb_eq, forallb_forall. split.
  - intros Hz. assert (He : words 8 m (X K 0) = replicate m 0).
    { symmetry. apply replicate_as_Forall_2; [apply length_words|]. apply Forall_forall. intros x Hx.
      apply list_elem_of_In in Hx. symmetry. apply Z.eqb_eq. by apply Hz. }
    apply (f_equal (bev 8)) in He. rewrite bev_words in He by lia.
    assert (Hs : 2 ^ c <= 2 ^ (8 * m)) by (apply Z.pow_le_mono_r; lia). rewrite Z.mod_small in He by lia.
    rewrite He. unfold bev. rewrite <- (reverse_replicate m 0). unfold reverse.
    rewrite <- rev_alt, rev_involutive. by apply lev_replicate_0.
  - intros -> x Hx. apply Z.eqb_eq. unfold words in Hx. apply in_rev in Hx. rewrite digits_shift in Hx.
    apply in_map_iff in Hx as (j & <- & _). by rewrite Z.div_0_l, Z.mod_0_l by (first [apply Z.pow_nonzero; lia|done]).
Qed.

Lemma level_okb_spec l :
  level_okb l = true
  <-> forall p, (p < 2 ^ (K - S l))%nat ->
      X (S l) p < 2 ^ (c * (K - l)%nat) /\ hd 0 (blk l (2 * p)) < hd 0 (blk l (2 * p + 1))
      /\ Forall (fun i => i ∉ blk l (2 * p + 1)) (blk l (2 * p)).
Proof.
  unfold level_okb. rewrite forallb_forall. setoid_rewrite in_seq. unfold pair_okb. setoid_rewrite andb_true_iff. setoid_rewrite andb_true_iff.
  setoid_rewrite Z.ltb_lt. setoid_rewrite bool_decide_eq_true. setoid_rewrite xor_split. split.
  - intros Hx p Hp. destruct (Hx p ltac:(lia)) as [[? ?] ?]. done.
  - intros Hx p Hp. destruct (Hx p ltac:(lia)) as (? & ? & ?). done.
Qed.

Lemma levels_bound l : (l <= K)%nat -> (forall k, (k < l)%nat -> level_okb k = true) -> level_bound l.
Proof.
  induction l as [|l IH]; intros Hl Hk; [apply level_0|]. apply level_next; [lia|apply Hk; lia|]. apply IH; [lia|]. intros k ?. apply Hk. lia.
Qed.

Lemma levels_valid : ((forall l, (l < K)%nat -> level_okb l = true) /\ X K 0 = 0) <-> eh_valid N K st ind.
Proof.
  assert (HN : forall l, (l < K)%nat -> (N - S l * c = c * (K - l))%nat) by (destruct Hok as (HN & _); intros; nia).
  setoid_rewrite level_okb_spec. split.
  - intros [Hk Hz]. split.
    + assert (Hd : forall l q, (l <= K)%nat -> (q < 2 ^ (K - l))%nat -> NoDup (blk l q)); [|rewrite <- block_top; by apply Hd; [|rewrite Nat.sub_diag; cbn; lia]].
      induction l as [|l IH]; intros q Hl Hq.
      * rewrite Nat.sub_0_r in Hq. destruct (lookup_lt_is_Some_2 ind q) as [i Hi]; [lia|]. rewrite (block_0 q i Hi). apply NoDup_singleton.
      * pose proof (pow2_split l ltac:(lia)). destruct (Hk l ltac:(lia) q Hq) as (_ & _ & Hf). rewrite Forall_forall in Hf.
        rewrite block_split. apply NoDup_app. split_and!; [apply IH; lia|done|apply IH; lia].
    + intros l p Hl Hp. by apply Hk.
    + intros l p Hl Hp. rewrite HN, Nat2Z.inj_mul by done. pose proof (levels_bound (S l) ltac:(lia)) as Hb.
      replace (K + 1 - S l)%nat with (K - l)%nat in Hb by lia. unfold level_bound in Hb. replace (K + 1 - S l)%nat with (K - l)%nat in Hb by lia.
      apply Hb; [|done]. intros k Hkl. apply level_okb_spec. intros p' Hp'. apply Hk; [lia|done].
    + unfold block_xor in Hz. by rewrite block_top in Hz.
  - intros [Hd Ho Hc Hz]. split; [|unfold block_xor; by rewrite block_top]. intros l Hl p Hp. pose proof (Hc l p Hl Hp) as Hx.
    rewrite HN, Nat2Z.inj_mul in Hx by done. split_and!; [lia|by apply Ho|]. apply Forall_forall. intros i Hi Hj.
    assert (Hn : NoDup (blk (S l) p)) by (unfold block; eapply sublist_NoDup; [apply Hd|]; etransitivity; [apply sublist_take|apply sublist_drop]).
    rewrite block_split in Hn. apply NoDup_app in Hn as (_ & Hn & _). by apply (Hn i).
Qed.
End verify.

Section exact.
Context `{EhHashLaws}.

(** The indices that a solution packs. *)
Definition solution_indices (N K : nat) (soln : bytes) : list Z :=
  words (CollisionBitLength N K + 1)%nat (2 ^ K) (bev 8 soln).

Lemma IsValidSolution_spec N K st soln :
  eh_ok N K -> length soln = SolutionWidth N K -> bytes_ok soln ->
  exists r, (IsValidSolution N K st soln = Ok r \/ IsValidSolution N K st soln = Err eh_invalid /\ r = false)
    /\ (r = true <-> eh_valid N K st (solution_indices N K soln)).
Proof.
  intros Hok Hl Hb. pose proof Hok as (HN & Hc & _ & _ & H8). unfold IsValidSolution. rewrite Hl, Nat.eqb_refl.
  assert (Hn : (8 * length soln = 2 ^ K * (CollisionBitLength N K + 1))%nat).
  { rewrite Hl. unfold SolutionWidth. pose proof (Nat.div_mod_eq (2 ^ K * (CollisionBitLength N K + 1)) 8). lia. }
  rewrite (GetIndicesFromMinimal_spec _ (2 ^ K)) by (try done; unfold bits_ok; lia). cbn [bindR].
  fold (solution_indices N K soln). set (ind := solution_indices N K soln).
  assert (Hlen : length ind = (2 ^ K)%nat) by apply length_words.
  assert (H32 : Forall (uint 32) ind).
  { apply (uint_32 (CollisionBitLength N K)); [unfold bits_ok; lia|]. apply words_ok. lia. }
  rewrite (first_rows_spec N K st Hok). cbn [bindR]. rewrite length_map, Hlen, (first_level N K st ind Hlen).
  pose proof (level_0 N K st Hok ind Hlen) as H0'.
  replace (HashLength N K) with ((K + 1 - 0) * CollisionByteLength N K)%nat by (unfold HashLength; lia).
  change sizeof_eh_index with (4 * 2 ^ 0)%nat.
  rewrite (rounds_spec N K st Hok ind Hlen H32) by (try lia; try done; pose proof (Nat.pow_gt_lin_r 2 K); lia).
  rewrite Nat.sub_0_r. pose proof (levels_valid N K st Hok ind Hlen) as Hv. destruct (forallb _ _) eqn:Ef; cbn [bindR].
  - rewrite forallb_forall in Ef. assert (Hk : forall l, (l < K)%nat -> level_okb N K st ind l = true) by (intros; apply Ef, in_seq; lia).
    eexists. split; [by left|]. rewrite <- Hv, (final_zero N K st Hok ind) by (first [done|by apply levels_bound; auto]). rewrite Z.eqb_eq. naive_solver.
  - exists false. split; [by right|]. split; [done|]. intros [Hk _]%Hv. apply not_true_iff_false in Ef. destruct Ef.
    apply forallb_forall. intros l Hl'%in_seq. apply Hk. lia.
Qed.

Lemma params_ok n N K : equihash_params n = Some (N, K) -> eh_ok N K /\ n = SolutionWidth N K.
Proof.
  unfold equihash_params. intros He.
  assert (Hn : (n = 1344 /\ N = 200 /\ K = 9 \/ n = 100 /\ N = 144 /\ K = 5 \/ n = 68 /\ N = 96 /\ K = 5 \/ n = 36 /\ N = 48 /\ K = 5)%nat).
  { repeat case_match; simplify_eq; lia. }
  destruct Hn as [(-> & -> & ->)|[(-> & -> & ->)|[(-> & -> & ->)|(-> & -> & ->)]]]; clear He;
    (split; [unfold eh_ok; cbn zeta; split_and!; try (vm_compute; lia); vm_compute; reflexivity|vm_compute; reflexivity]).
Qed.

(** C24: [CheckEquihashSolution] decides the generalised birthday problem. For a
    well-formed header it neither fails an assertion nor throws, and it accepts
    exactly when the size of the solution is that of a supported pair [n, k]
    and the indices that the solution packs solve the problem of the header
    and nonce: they are all different, in every pair of subtrees the left one
    starts with the smaller index, the hashes below a node at height [l] agree
    on their leading [l * n / (k + 1)] bits, and all hashes cancel out. *)
Theorem equihash_verifier_exact (block : CBlockHeader) :
  header_ok block ->
  exists input nonce r,
    Serialize equihash_input_codec (CEquihashInput block) = Ok input /\ Serialize uint256_codec (hb_nNonce block) = Ok nonce
    /\ CheckEquihashSolution block = Some r
    /\ (r = true <-> exists N K, equihash_params (length (hb_nSolution block)) = Some (N, K)
          /\ eh_valid N K (blake2b_update (InitialiseState N K) (input ++ nonce)) (solution_indices N K (hb_nSolution block))).
Proof.
  intros (H1 & H2 & H3 & H4 & H5 & H6 & H7 & H8).
  eassert (Hlaw : Lawful equihash_input_codec _) by (unfold equihash_input_codec; lawful_fields).
  destruct (lawful_rt (Lawful := Hlaw) (CEquihashInput block)) as (input & Hi & _); [cbn; split_and!; done|].
  destruct (lawful_rt (c := uint256_codec) (hb_nNonce block) H7) as (nonce & Hv & _).
  exists input, nonce. unfold CheckEquihashSolution. rewrite Hi, Hv. destruct (equihash_params _) as [[N K]|] eqn:E.
  - destruct (params_ok _ _ _ E) as [Hok Hl].
    destruct (IsValidSolution_spec N K (blake2b_update (InitialiseState N K) (input ++ nonce)) (hb_nSolution block) Hok Hl) as (r & Hr & Hiff); [apply H8|].
    exists r. split_and!; try done; [by destruct Hr as [->|[-> ->]]|]. rewrite Hiff. naive_solver.
  - exists false. split_and!; try done. naive_solver.
Qed.
End exact.

(** A hash of zeros, for the witness: any indices in order solve its problem. *)
#[local] Instance toy_hash : EhHash := {|
  eh_HashState := unit; blake2b_init_salt_personal _ _ := tt; blake2b_update _ _ := tt; blake2b_final _ n := replicate n 0 |}.
#[local] Instance toy_hash_laws : EhHashLaws.
Proof.
  split. intros st n. cbn. split; [apply length_replicate|]. apply Forall_replicate. unfold uint. widths. lia.
Qed.

Lemma equihash_verifier_exact_witness :
  let soln := [0; 0; 64; 64; 48; 32; 20; 12; 7; 4; 2; 65; 64; 176; 96; 52; 28; 15;
               8; 4; 66; 65; 48; 160; 84; 44; 23; 12; 6; 67; 65; 176; 224; 116; 60; 31] in
  CheckEquihashSolution (BlockHeader 4 null256 null256 null256 0 0 null256 soln) = Some true
  /\ eh_valid 48 5 tt (solution_indices 48 5 soln).
Proof.
  intros soln. assert (Hok : header_ok (BlockHeader 4 null256 null256 null256 0 0 null256 soln)).
  { assert (flat_ok 32 null256) by (split; [done|]; apply Forall_replicate; unfold uint; widths; lia).
    split_and!; try done. split; [done|]. by repeat constructor. }
  destruct (equihash_verifier_exact _ Hok) as (input & nonce & r & _ & _ & Hc & Hr).
  assert (He : CheckEquihashSolution (BlockHeader 4 null256 null256 null256 0 0 null256 soln) = Some true) by (vm_compute; reflexivity).
  split; [exact He|]. rewrite He in Hc. injection Hc as <-. destruct (proj1 Hr eq_refl) as (N & K & Hp & Hv).
  injection Hp as <- <-. exact Hv.
Defined.
