(* ===== verification/Pow.v ===== *)
(** * Proof of work (src/pow.h, pow.cpp)

    The difficulty adjustment over the block tree of [Chain], on the 256-bit
    arithmetic of [ArithUint]: the required target of the next block, the
    check of a hash against its target, the work of a block and the time
    equivalent of a difference in work. A division by zero is the exception
    [uint_error], and [GetCompact] has an assertion. The equihash solution
    check, which runs a hash of libsodium, is not modelled. *)

From S2P Require Import Prelude.
From stdpp Require Import sorting pmap.
From S2P Require Import ArithUint Serialize Transaction Chain Params.
Local Open Scope Z_scope.
Local Open Scope code_scope.

(** ** Definitions *)

Inductive pow_error :=
| PowChain (e : chain_error)   (* a failure in the block tree *)
| PowDivision                  (* uint_error: division by zero *)
| PowAssert.                   (* the assertion of GetCompact *)

Definition of_chain {A} (m : result chain_error A) : result pow_error A :=
  match m with Ok a => Ok a | Err e => Err (PowChain e) end.
Definition divide (a b : base_uint) : result pow_error base_uint :=
  match op_div a b with Ok q => Ok q | Err _ => Err PowDivision end.
Definition compact (a : base_uint) : result pow_error Z :=
  match GetCompact a false with Some c => Ok c | None => Err PowAssert end.

Definition index_GetBlockTime (b : CBlockIndex) : Z := bi_nTime b.

(** An [int64_t] operand of [/=] becomes a [base_uint] through [uint64_t]; the
    one of [*=] selects the overload for [uint32_t]. *)
Definition CalculateNextWorkRequired (bnAvg : base_uint) (nLastBlockTime nFirstBlockTime : Z) (params : Params)
    (nextHeight : Z) : result pow_error Z :=
  let averagingWindowTimespan := AveragingWindowTimespan params nextHeight in
  let minActualTimespan := MinActualTimespan params nextHeight in
  let maxActualTimespan := MaxActualTimespan params nextHeight in
  let nActualTimespan := to_i64 (nLastBlockTime - nFirstBlockTime) in
  let nActualTimespan :=
    to_i64 (averagingWindowTimespan + Z.quot (to_i64 (nActualTimespan - averagingWindowTimespan)) 4) in
  let nActualTimespan := if nActualTimespan <? minActualTimespan then minActualTimespan else nActualTimespan in
  let nActualTimespan := if maxActualTimespan <? nActualTimespan then maxActualTimespan else nActualTimespan in
  let bnPowLimit := UintToArith256 (powLimit params) in
  let* bnNew := divide bnAvg (of_u64 (to_u64 averagingWindowTimespan)) in
  let bnNew := op_mul32 bnNew (to_u32 nActualTimespan) in
  let bnNew := if op_gt bnNew bnPowLimit then bnPowLimit else bnNew in
  compact bnNew.

(** The loop over the averaging window. *)
Fixpoint window_loop (n : nat) (st : store) (pindexFirst : option ptr) (bnTot : base_uint)
  : result chain_error (option ptr * base_uint) :=
  match n, pindexFirst with
  | S n, Some p =>
      let* b := deref st p in
      let '(bnTmp, _, _) := SetCompact (bi_nBits b) in
      window_loop n st (pprev b) (op_add bnTot bnTmp)
  | _, _ => Ok (pindexFirst, bnTot)
  end.

(** The epoch bound is an [unsigned long], the height of the minimum-difficulty
    rule a [uint32_t]: heights are compared as these types. [pblock] is a
    nullable pointer. *)
Definition GetNextWorkRequired (st : store) (pindexLast : option ptr) (pblock : option CBlockHeader)
    (chainParams : CChainParams) (params : Params) : result pow_error Z :=
  let* nProofOfWorkLimit := compact (UintToArith256 (powLimit params)) in
  match pindexLast with
  | None => Ok nProofOfWorkLimit
  | Some last =>
      let* b := of_chain (deref st last) in
      if (to_u64 (eh_epoch_1_endblock chainParams - 1) <? to_u64 (nHeight b))
         && (to_u64 (nHeight b) <? to_u64 (eh_epoch_1_endblock chainParams + nPowAveragingWindow params))
      then Ok nProofOfWorkLimit
      else if match nPowAllowMinDifficultyBlocksAfterHeight params, pblock with
              | Some h, Some blk =>
                  (h <=? to_u32 (nHeight b))
                  && (to_i64 (index_GetBlockTime b + to_i64 (PoWTargetSpacing params (nHeight b + 1) * 6))
                      <? GetBlockTime blk)
              | _, _ => false
              end
      then Ok nProofOfWorkLimit
      else
        let* (pindexFirst, bnTot) :=
          of_chain (window_loop (Z.to_nat (nPowAveragingWindow params)) st pindexLast zero256) in
        match pindexFirst with
        | None => Ok nProofOfWorkLimit
        | Some first =>
            let* bnAvg := divide bnTot (of_u64 (to_u64 (nPowAveragingWindow params))) in
            let* tLast := of_chain (GetMedianTimePast st last) in
            let* tFirst := of_chain (GetMedianTimePast st first) in
            CalculateNextWorkRequired bnAvg tLast tFirst params (to_i32 (nHeight b + 1))
        end
  end.

Definition CheckProofOfWork (hash : bytes) (nBits : Z) (params : Params) : bool :=
  let '(bnTarget, fNegative, fOverflow) := SetCompact nBits in
  if fNegative || EqualTo bnTarget 0 || fOverflow || op_gt bnTarget (UintToArith256 (powLimit params)) then false
  else if op_gt (UintToArith256 hash) bnTarget then false
  else true.

Definition GetBlockProof (block : CBlockIndex) : result pow_error base_uint :=
  let '(bnTarget, fNegative, fOverflow) := SetCompact (bi_nBits block) in
  if fNegative || fOverflow || EqualTo bnTarget 0 then Ok (of_u64 0)
  else let* q := divide (op_compl bnTarget) (op_add bnTarget (of_u64 1)) in Ok (op_add q (of_u64 1)).

Definition GetBlockProofEquivalentTime (to from tip : CBlockIndex) (params : Params) : result pow_error Z :=
  let '(r, sign) :=
    if op_gt (nChainWork to) (nChainWork from) then (op_sub (nChainWork to) (nChainWork from), 1)
    else (op_sub (nChainWork from) (nChainWork to), -1) in
  let* proof := GetBlockProof tip in
  let* r := divide (op_mul r (of_u64 (to_u64 (PoWTargetSpacing params (nHeight tip))))) proof in
  Ok (if 63 <? bits r then to_i64 (sign * INT64_MAX)
      else to_i64 (to_u64 (to_u64 sign * GetLow64 r))).

(** ** Reference values *)

(** The target a block claims, and the work it proves. *)
Definition target (b : CBlockIndex) : Z := compact_value (bi_nBits b).
Definition block_work (t : Z) : Z := 2 ^ 256 / (t + 1).

(** A compact number that stands for a target: positive, and in 256 bits. *)
Definition target_ok (nBits : Z) : Prop :=
  uint 32 nBits /\ 0 < compact_value nBits < 2 ^ 256 /\ Z.testbit nBits 23 = false.

Definition limit (params : Params) : Z := lev 8 (powLimit params).

(** What the proof-of-work parameters must satisfy: the window fits the limit,
    as the constructors of the chain parameters assert, and the largest
    timespan fits the multiplication's word. *)
Record pow_params_ok (params : Params) : Prop := {
  limit_bytes : bytes_ok (powLimit params) /\ length (powLimit params) = 32%nat;
  limit_pos : 0 < limit params;
  window_pos : 0 < nPowAveragingWindow params;
  spacing_pos : 0 < nPowTargetSpacing params;
  window_fits : limit params * nPowAveragingWindow params < 2 ^ 256;
  adjust_up : 0 <= nPowMaxAdjustUp params <= 100;
  adjust_down : 0 <= nPowMaxAdjustDown params;
  timespan_fits : nPowAveragingWindow params * nPowTargetSpacing params * (100 + nPowMaxAdjustDown params) < 2 ^ 32;
  limit_fits : limit params * (100 + nPowMaxAdjustDown params) < 100 * 2 ^ 256 }.

Definition window_time (params : Params) : Z := nPowAveragingWindow params * nPowTargetSpacing params.

(** The dampened and clamped timespan. *)
Definition damped_span (params : Params) (dt : Z) : Z :=
  let w := window_time params in
  Z.min (w * (100 + nPowMaxAdjustDown params) / 100)
        (Z.max (w * (100 - nPowMaxAdjustUp params) / 100) (w + Z.quot (dt - w) 4)).

(** The retargeting rule on plain numbers. *)
Definition next_target (params : Params) (avg dt : Z) : Z :=
  Z.min (limit params) (avg / window_time params * damped_span params dt).

(** The sum of the targets of [n] blocks from [p] back. *)
Fixpoint target_sum (st : store) (n : nat) (p : ptr) : Z :=
  match n, st !! p with
  | S n, Some b => target b + match pprev b with Some q => target_sum st n q | None => 0 end
  | _, _ => 0
  end.

(** ** Proofs *)

Lemma divide_spec a b :
  uint_ok a -> uint_ok b -> val b <> 0 -> exists q, divide a b = Ok q /\ uint_ok q /\ val q = val a / val b.
Proof. intros Ha Hb Hv. destruct (op_div_spec a b Ha Hb Hv) as (q & Hq & ?). exists q. unfold divide. by rewrite Hq. Qed.

Lemma compact_spec a : uint_ok a -> compact a = Ok (compact_of (val a)).
Proof. intros Ha. unfold compact. rewrite GetCompact_spec by done. by rewrite Z.add_0_r. Qed.

Lemma SetCompact_target nBits :
  target_ok nBits -> exists a, SetCompact nBits = (a, false, false) /\ uint_ok a /\ val a = compact_value nBits.
Proof.
  intros (Hn & Hv & Hs). destruct (SetCompact_spec nBits Hn) as (a & -> & Ha & Hval). exists a.
  rewrite Hs, andb_false_r. rewrite Z.mod_small in Hval by lia.
  destruct (Z.leb_spec (2 ^ 256) (compact_value nBits)); [lia|done].
Qed.

#[export] Instance target_ok_dec nBits : Decision (target_ok nBits).
Proof. unfold target_ok. apply _. Defined.

(** The flags and the zero test accept exactly the targets. *)
Lemma SetCompact_flags nBits a neg over :
  uint 32 nBits -> SetCompact nBits = (a, neg, over) ->
  neg || EqualTo a 0 || over = negb (bool_decide (target_ok nBits))
  /\ uint_ok a /\ (target_ok nBits -> val a = compact_value nBits).
Proof.
  intros Hn Hset. destruct (SetCompact_spec nBits Hn) as (a' & Hset' & Ha & Hval).
  rewrite Hset in Hset'.
  assert (a = a' /\ neg = negb (compact_value nBits =? 0) && Z.testbit nBits 23 /\ over = (2 ^ 256 <=? compact_value nBits))
    as (-> & -> & ->) by (split_and!; congruence). pose proof (compact_value_nonneg nBits Hn) as Hpos.
  split_and!; [|done|intros (_ & ? & _); rewrite Hval, Z.mod_small; lia].
  rewrite EqualTo_spec by (done || unfold uint; lia).
  destruct (bool_decide_reflect (target_ok nBits)) as [(_ & Hv & Hs)|Hno].
  - rewrite Hs, Hval, Z.mod_small by lia.
    destruct (Z.eqb_spec (compact_value nBits) 0), (Z.leb_spec (2 ^ 256) (compact_value nBits)); cbn; done || lia.
  - cbn [negb]. rewrite Hval. destruct (Z.leb_spec (2 ^ 256) (compact_value nBits)); [by rewrite orb_true_r|].
    rewrite Z.mod_small by lia. destruct (Z.eqb_spec (compact_value nBits) 0); [by rewrite orb_true_r|].
    destruct (Z.testbit nBits 23) eqn:E; [done|]. exfalso. apply Hno. split_and!; done || lia.
Qed.


Section retarget.
Context (params : Params) (Hok : pow_params_ok params).
Local Abbreviation W := (window_time params).

Lemma window_time_bounds : 0 < W < 2 ^ 32 /\ W * (100 + nPowMaxAdjustDown params) < 2 ^ 32.
Proof. destruct Hok. unfold window_time in *. split; [|lia]. nia. Qed.

Lemma AveragingWindowTimespan_spec h : AveragingWindowTimespan params h = W.
Proof.
  destruct window_time_bounds. unfold AveragingWindowTimespan, PoWTargetSpacing, window_time in *.
  apply swrap_small; [lia|]. solve_uint.
Qed.

Lemma MinActualTimespan_spec h : MinActualTimespan params h = W * (100 - nPowMaxAdjustUp params) / 100.
Proof.
  destruct window_time_bounds, Hok. unfold MinActualTimespan. rewrite AveragingWindowTimespan_spec.
  rewrite swrap_small; [apply Z.quot_div_nonneg; nia|lia|].
  assert (0 <= W * (100 - nPowMaxAdjustUp params) <= W * 100) by nia. solve_uint.
Qed.

Lemma MaxActualTimespan_spec h : MaxActualTimespan params h = W * (100 + nPowMaxAdjustDown params) / 100.
Proof.
  destruct window_time_bounds, Hok. unfold MaxActualTimespan. rewrite AveragingWindowTimespan_spec.
  rewrite swrap_small; [apply Z.quot_div_nonneg; nia|lia|].
  assert (0 <= W * (100 + nPowMaxAdjustDown params)) by nia. solve_uint.
Qed.

Lemma damped_span_bounds dt :
  0 <= W * (100 - nPowMaxAdjustUp params) / 100 <= damped_span params dt
  /\ damped_span params dt <= W * (100 + nPowMaxAdjustDown params) / 100 < 2 ^ 32.
Proof.
  destruct window_time_bounds as [Hw Hw'], Hok. unfold damped_span.
  assert (0 <= W * (100 - nPowMaxAdjustUp params) / 100) by (apply Z.div_pos; nia).
  assert (W * (100 - nPowMaxAdjustUp params) / 100 <= W * (100 + nPowMaxAdjustDown params) / 100)
    by (apply Z.div_le_mono; nia).
  assert (W * (100 + nPowMaxAdjustDown params) / 100 < 2 ^ 32) by (apply Z.div_lt_upper_bound; lia). lia.
Qed.

Lemma limit_ok : uint_ok (UintToArith256 (powLimit params)) /\ val (UintToArith256 (powLimit params)) = limit params.
Proof. destruct Hok as [[? ?] ?]. split; [by apply UintToArith256_ok|by apply val_UintToArith256]. Qed.

(** The adjusted target grows by at most the allowed percentage. *)
Lemma adjusted_bound avg dt :
  0 <= avg -> 0 <= avg / W * damped_span params dt /\ 100 * (avg / W * damped_span params dt) <= avg * (100 + nPowMaxAdjustDown params).
Proof.
  intros Ha. destruct window_time_bounds as [Hw _], (damped_span_bounds dt) as [[H0 Hmin] [Hmax _]], Hok.
  assert (Hq : 0 <= avg / W) by (apply Z.div_pos; lia). split; [nia|].
  pose proof (Z.mul_div_le avg W ltac:(lia)).
  pose proof (Z.mul_div_le (W * (100 + nPowMaxAdjustDown params)) 100 ltac:(lia)) as H100.
  assert (100 * damped_span params dt <= W * (100 + nPowMaxAdjustDown params)) by lia. nia.
Qed.

Lemma CalculateNextWorkRequired_spec bnAvg tLast tFirst nextHeight :
  uint_ok bnAvg -> val bnAvg <= limit params -> uint 32 tLast -> uint 32 tFirst ->
  CalculateNextWorkRequired bnAvg tLast tFirst params nextHeight
  = Ok (compact_of (next_target params (val bnAvg) (tLast - tFirst))).
Proof.
  intros Ha Hle HL HF. unfold CalculateNextWorkRequired, next_target.
  rewrite AveragingWindowTimespan_spec, MinActualTimespan_spec, MaxActualTimespan_spec.
  destruct window_time_bounds as [Hw _], (damped_span_bounds (tLast - tFirst)) as [Hmin Hmax], limit_ok as [Hlok Hlval].
  pose proof (uint_ok_bound bnAvg Ha) as Hab. pose proof (adjusted_bound (val bnAvg) (tLast - tFirst) ltac:(lia)) as [Hn0 Hn].
  assert (Hsw : forall z, - 2 ^ 63 <= z < 2 ^ 63 -> to_i64 z = z) by (intros; apply swrap_small; [lia|done]).
  assert (Hq : - 2 ^ 62 <= Z.quot (tLast - tFirst - W) 4 <= 2 ^ 62).
  { unfold uint in *. pose proof (Z.quot_rem' (tLast - tFirst - W) 4). pose proof (Z.rem_bound_abs (tLast - tFirst - W) 4). lia. }
  unfold uint in HL, HF.
  rewrite (Hsw (tLast - tFirst)), (Hsw (tLast - tFirst - W)), (Hsw (W + _)) by lia.
  set (span := if _ <? _ then _ else _).
  assert (Hspan : span = damped_span params (tLast - tFirst)).
  { unfold span, damped_span. repeat case_match; lia. }
  rewrite Hspan. rewrite (wrap_small 64) by (unfold uint; lia). rewrite (wrap_small 32) by (unfold uint; lia).
  destruct (divide_spec bnAvg (of_u64 W)) as (q & -> & Hqok & Hqv); [done|auto with uint| |].
  { rewrite val_of_u64 by (unfold uint; lia). lia. }
  rewrite val_of_u64 in Hqv by (unfold uint; lia). cbn [bindR].
  assert (Hu : uint 32 (damped_span params (tLast - tFirst))) by (unfold uint; lia).
  pose proof (op_mul32_ok q _ Hqok Hu) as Hmok. pose proof (val_mul32 q _ Hqok Hu) as Hmv.
  assert (Hfit : val bnAvg * (100 + nPowMaxAdjustDown params) < 100 * 2 ^ 256) by (destruct Hok; nia).
  rewrite Hqv, Z.mod_small in Hmv by lia.
  rewrite op_gt_spec, Hlval, Hmv by done.
  destruct (Z.ltb_spec (limit params) (val bnAvg / W * damped_span params (tLast - tFirst))).
  - rewrite compact_spec, Hlval by done. f_equal. f_equal. lia.
  - rewrite compact_spec, Hmv by done. f_equal. f_equal. lia.
Qed.

Lemma next_target_bounds avg dt :
  0 <= avg -> 0 <= next_target params avg dt <= limit params
  /\ 100 * next_target params avg dt <= avg * (100 + nPowMaxAdjustDown params).
Proof. intros Ha. pose proof (adjusted_bound avg dt Ha). destruct Hok. unfold next_target. lia. Qed.

Lemma limit_small : limit params < 2 ^ 256.
Proof. destruct limit_ok as [H <-]. by apply uint_ok_bound. Qed.
End retarget.

(** ** The averaging window *)

(** Every entry has the widths of the header fields and a target within the
    limit. *)
Definition entries_ok (st : store) (params : Params) : Prop :=
  forall p b, st !! p = Some b ->
    uint 32 (bi_nTime b) /\ target_ok (bi_nBits b) /\ target b <= limit params /\ nHeight b < 2 ^ 31 - 1.

Section window.
Context (st : store) (Hst : tree_ok st) (params : Params) (Hok : pow_params_ok params) (Hent : entries_ok st params).

Lemma target_sum_bound (n : nat) p : 0 <= target_sum st n p <= n * limit params.
Proof.
  revert p. induction n as [|n IH]; intros p; [cbn; lia|]. cbn [target_sum].
  pose proof (limit_pos params Hok). destruct (st !! p) as [b|] eqn:Hp; [|lia].
  destruct (Hent p b Hp) as (_ & (_ & Hv & _) & Hle & _). unfold target in *.
  destruct (pprev b) as [q|]; [pose proof (IH q)|]; lia.
Qed.

(** With enough ancestors the loop stops [n] blocks back with the exact sum;
    with fewer it runs off the chain. *)
Lemma window_loop_spec (n : nat) p b tot :
  st !! p = Some b -> uint_ok tot -> val tot + n * limit params < 2 ^ 256 ->
  exists first tot', window_loop n st (Some p) tot = Ok (first, tot') /\ uint_ok tot'
    /\ first = walk st n p /\ (n <= nHeight b -> is_Some first /\ val tot' = val tot + target_sum st n p)
    /\ (nHeight b < n -> first = None).
Proof.
  revert p b tot. induction n as [|n IH]; intros p b tot Hp Htot Hfit.
  - exists (Some p), tot. split_and!; [done|done|done| |].
    + intros _. cbn [target_sum]. split; [by eexists|lia].
    + destruct (Hst p b Hp) as (? & _). lia.
  - destruct (Hst p b Hp) as (Hh & Hprev & _). destruct (Hent p b Hp) as (_ & Ht & Hle & _).
    cbn [window_loop walk target_sum]. rewrite (deref_Some st p b Hp), Hp. step_bind. cbn [mbind option_bind].
    destruct (SetCompact_target _ Ht) as (a & -> & Ha & Hav).
    assert (Hsum : val (op_add tot a) = val tot + target b).
    { rewrite val_add by done. pose proof (uint_ok_bound tot Htot). unfold target in *. destruct Ht as (_ & Ht & _).
      pose proof (limit_pos params Hok). rewrite Hav, Z.mod_small; nia. }
    unfold prev_ok in Hprev. destruct (pprev b) as [q|].
    + destruct Hprev as (bq & Hq & Hhq).
      destruct (IH q bq (op_add tot a)) as (first & tot' & H1 & H2 & H3 & H4 & H5); [done|auto with uint|rewrite Hsum; lia|].
      exists first, tot'. cbn [mbind option_bind]. split_and!; [done|done|done| |intros; apply H5; lia].
      intros Hn. destruct H4 as [? ->]; [lia|]. split; [done|]. lia.
    + exists None, (op_add tot a). split_and!; [by destruct n|auto with uint|done|lia|done].
Qed.

Lemma past_times_uint n p l :
  past_times n st p = Ok l -> Forall (uint 32) l.
Proof.
  revert p l. induction n as [|n IH]; intros p l H; [cbn [past_times] in H; destruct p; injection H as <-; constructor|].
  destruct p as [p|]; cbn [past_times] in H; [|injection H as <-; constructor].
  unfold deref in H. destruct (st !! p) as [b|] eqn:Hp; cbn [bindR] in H; [|done].
  apply bindR_Ok in H as (l' & Hl & H). injection H as <-. apply Forall_app. split; [by eapply IH|].
  constructor; [|constructor]. by destruct (Hent p b Hp).
Qed.

Lemma GetMedianTimePast_uint p b :
  st !! p = Some b -> exists m, GetMedianTimePast st p = Ok m /\ uint 32 m.
Proof.
  intros Hp. destruct (past_times_ok st 10 p b Hst Hp) as (o & l & _ & Hol & _ & _).
  unfold GetMedianTimePast, nMedianTimeSpan. pose proof (past_times_uint _ _ _ Hol) as Hu. rewrite Hol.
  eexists. split; [done|]. unfold median.
  destruct (nth_in_or_default (length (o ++ l) / 2) (merge_sort Z.le (o ++ l)) 0) as [Hin|Hd].
  - rewrite Forall_forall in Hu. apply Hu. apply list_elem_of_In in Hin.
    revert Hin. generalize (nth (length (o ++ l) / 2) (merge_sort Z.le (o ++ l)) 0). intros x Hin.
    by rewrite (merge_sort_Permutation Z.le (o ++ l)) in Hin.
  - rewrite Hd. by split.
Qed.
End window.

(** The minimum-difficulty rule of the test network. *)
Definition easy_block (params : Params) (b : CBlockIndex) (pblock : option CBlockHeader) : bool :=
  match nPowAllowMinDifficultyBlocksAfterHeight params, pblock with
  | Some h, Some blk => (h <=? nHeight b) && (bi_nTime b + 6 * nPowTargetSpacing params <? hb_nTime blk)
  | _, _ => false
  end.

(** The window after the change of the equihash parameters. *)
Definition reset_window (chainParams : CChainParams) (params : Params) (b : CBlockIndex) : bool :=
  (eh_epoch_1_endblock chainParams <=? nHeight b)
  && (nHeight b <? eh_epoch_1_endblock chainParams + nPowAveragingWindow params).

Section next_work.
Context (st : store) (Hst : tree_ok st) (params : Params) (Hok : pow_params_ok params) (Hent : entries_ok st params).
Context (chainParams : CChainParams) (Hend : 1 <= eh_epoch_1_endblock chainParams < 2 ^ 62).
Local Abbreviation w := (Z.to_nat (nPowAveragingWindow params)).

Lemma window_small : 0 < nPowAveragingWindow params < 2 ^ 32 /\ 0 < nPowTargetSpacing params < 2 ^ 32.
Proof. destruct (window_time_bounds params Hok) as [Hw _], Hok. unfold window_time in Hw. nia. Qed.

Lemma reset_window_spec p b :
  st !! p = Some b ->
  (to_u64 (eh_epoch_1_endblock chainParams - 1) <? to_u64 (nHeight b))
    && (to_u64 (nHeight b) <? to_u64 (eh_epoch_1_endblock chainParams + nPowAveragingWindow params))
  = reset_window chainParams params b.
Proof.
  intros Hp. destruct (Hst p b Hp) as (H0 & _), (Hent p b Hp) as (_ & _ & _ & H1), window_small as [Hw _].
  rewrite !wrap_small by (unfold uint; lia). unfold reset_window. lia.
Qed.

Lemma easy_block_spec p b pblock :
  st !! p = Some b ->
  match nPowAllowMinDifficultyBlocksAfterHeight params, pblock with
  | Some h, Some blk =>
      (h <=? to_u32 (nHeight b))
      && (to_i64 (index_GetBlockTime b + to_i64 (PoWTargetSpacing params (nHeight b + 1) * 6)) <? GetBlockTime blk)
  | _, _ => false
  end = easy_block params b pblock.
Proof.
  intros Hp. destruct (Hst p b Hp) as (H0 & _), (Hent p b Hp) as (Ht & _ & _ & H1), window_small as [_ Hs].
  unfold easy_block, index_GetBlockTime, PoWTargetSpacing, GetBlockTime, uint in *.
  destruct (nPowAllowMinDifficultyBlocksAfterHeight params), pblock; try done.
  rewrite wrap_small by (unfold uint; lia).
  rewrite (swrap_small 64 (nPowTargetSpacing params * 6)) by solve_uint.
  rewrite swrap_small by solve_uint. f_equal. f_equal. lia.
Qed.

Lemma average_spec p b :
  st !! p = Some b -> nPowAveragingWindow params <= nHeight b ->
  exists first tot avg tl tf,
    window_loop w st (Some p) zero256 = Ok (Some first, tot) /\ walk st w p = Some first
    /\ divide tot (of_u64 (to_u64 (nPowAveragingWindow params))) = Ok avg /\ uint_ok avg
    /\ val avg = target_sum st w p / nPowAveragingWindow params /\ val avg <= limit params
    /\ GetMedianTimePast st p = Ok tl /\ GetMedianTimePast st first = Ok tf /\ uint 32 tl /\ uint 32 tf.
Proof.
  intros Hp Hh. destruct window_small as [Hw _]. pose proof (window_fits params Hok) as Hfit.
  destruct (window_loop_spec st Hst params Hok Hent w p b zero256) as (first & tot & Hl & Htot & Hfirst & Hsum & _);
    [done|auto with uint|rewrite val_zero256; lia|].
  destruct Hsum as [[f ->] Hv]; [lia|]. rewrite val_zero256, Z.add_0_l in Hv.
  destruct (walk_ok st Hst w p b Hp) as (q & bq & Hq & Hbq & _); [lia|]. rewrite Hq in Hfirst. injection Hfirst as ->.
  destruct (divide_spec tot (of_u64 (nPowAveragingWindow params))) as (avg & Hd & Havg & Hav); [done|auto with uint| |].
  { rewrite val_of_u64 by (unfold uint; lia). lia. }
  rewrite val_of_u64, Hv in Hav by (unfold uint; lia).
  destruct (GetMedianTimePast_uint st Hst params Hent p b Hp) as (tl & Htl & Hul).
  destruct (GetMedianTimePast_uint st Hst params Hent q bq Hbq) as (tf & Htf & Huf).
  exists q, tot, avg, tl, tf. rewrite (wrap_small 64) by (unfold uint; lia). split_and!; try done.
  rewrite Hav. apply Z.div_le_upper_bound; [lia|]. pose proof (target_sum_bound st params Hok Hent w p). nia.
Qed.

Lemma short_chain p b :
  st !! p = Some b -> nHeight b < nPowAveragingWindow params ->
  exists tot, window_loop w st (Some p) zero256 = Ok (None, tot).
Proof.
  intros Hp Hh. pose proof (window_fits params Hok). pose proof (window_pos params Hok).
  destruct (window_loop_spec st Hst params Hok Hent w p b zero256) as (first & tot & Hl & _ & _ & _ & Hnone);
    [done|auto with uint|rewrite val_zero256; lia|].
  rewrite Hnone in Hl by lia. eauto.
Qed.
End next_work.

(** ** Properties *)

(** C22: the difficulty adjustment.  On any block tree whose entries carry
    targets within the limit, [GetNextWorkRequired] returns without an error:
    the limit itself near the start, in the window after the equihash change
    and under the minimum-difficulty rule; otherwise the compact form of the
    average of the last targets, scaled by the damped and clamped ratio of the
    median times and capped at the limit.  256-bit sums and products do not
    overflow, and the result, when not zero, is a target within the limit. *)
Theorem next_work_required st last b pblock chainParams params :
  tree_ok st -> pow_params_ok params -> entries_ok st params -> st !! last = Some b ->
  1 <= eh_epoch_1_endblock chainParams < 2 ^ 62 ->
  let w := nPowAveragingWindow params in
  let special := reset_window chainParams params b || easy_block params b pblock || (nHeight b <? w) in
  exists t, GetNextWorkRequired st (Some last) pblock chainParams params = Ok (compact_of t)
    /\ (special = true -> t = limit params)
    /\ (special = false -> exists first tl tf,
          walk st (Z.to_nat w) last = Some first /\ GetMedianTimePast st last = Ok tl /\ GetMedianTimePast st first = Ok tf
          /\ t = next_target params (target_sum st (Z.to_nat w) last / w) (tl - tf)
          /\ 100 * t <= target_sum st (Z.to_nat w) last / w * (100 + nPowMaxAdjustDown params))
    /\ compact_value (compact_of t) <= limit params
    /\ (0 < compact_value (compact_of t) -> target_ok (compact_of t)).
Proof.
  intros Hst Hok Hent Hp Hend w special. subst special w. destruct (limit_ok params Hok) as [Hlok Hlval].
  pose proof (limit_pos params Hok) as Hlp. pose proof (limit_small params Hok) as Hls.
  assert (Hfin : forall t, 0 <= t <= limit params -> compact_value (compact_of t) <= limit params
            /\ (0 < compact_value (compact_of t) -> target_ok (compact_of t))).
  { intros t Ht. destruct (compact_of_spec t ltac:(lia)) as (Hc & Hbit & Hle & _). split; [lia|].
    intros Hpos. split_and!; [done..|lia|done]. }
  unfold GetNextWorkRequired. rewrite compact_spec, Hlval by done. cbn [bindR].
  rewrite (deref_Some st last b Hp). cbn [of_chain bindR].
  rewrite (reset_window_spec st Hst params Hok Hent chainParams Hend last b Hp), (easy_block_spec st Hst params Hok Hent last b pblock Hp).
  destruct (reset_window chainParams params b);
    [exists (limit params); split_and!; [done|done|done|apply Hfin; lia|apply Hfin; lia]|].
  destruct (easy_block params b pblock);
    [exists (limit params); split_and!; [done|done|done|apply Hfin; lia|apply Hfin; lia]|].
  cbn [orb]. destruct (Z.ltb_spec (nHeight b) (nPowAveragingWindow params)) as [Hs|Hs].
  - destruct (short_chain st Hst params Hok Hent last b Hp Hs) as [tot ->]. cbn [of_chain bindR].
    exists (limit params). split_and!; [done|done|done|apply Hfin; lia|apply Hfin; lia].
  - destruct (average_spec st Hst params Hok Hent last b Hp Hs)
      as (first & tot & avg & tl & tf & -> & Hw & Hd & Havg & Hav & Hle & Htl & Htf & Hul & Huf).
    cbn [of_chain bindR]. rewrite Hd, Htl, Htf. cbn [of_chain bindR].
    rewrite CalculateNextWorkRequired_spec, Hav by done. pose proof (uint_ok_bound avg Havg).
    destruct (next_target_bounds params Hok (val avg) (tl - tf) ltac:(lia)) as [Hb Hb']. rewrite Hav in Hb, Hb'.
    eexists. split; [done|]. split_and!; [done| |apply Hfin; lia|apply Hfin; lia].
    intros _. exists first, tl, tf. done.
Qed.

(** *** The work of a block *)

Lemma block_work_bounds t : 0 < t < 2 ^ 256 -> 1 <= block_work t < 2 ^ 256 /\ (2 ^ 256 - 1 - t) / (t + 1) + 1 = block_work t.
Proof.
  intros Ht. unfold block_work.
  assert (E : (2 ^ 256 - 1 - t) / (t + 1) + 1 = 2 ^ 256 / (t + 1)).
  { rewrite <- Z.div_add by lia. f_equal. lia. }
  assert (0 <= (2 ^ 256 - 1 - t) / (t + 1)) by (apply Z.div_pos; lia).
  split; [|done]. split; [lia|]. apply Z.div_lt_upper_bound; nia.
Qed.

(** The largest number is no compact value: a mantissa of 23 bits is small or
    shifted by whole bytes. *)
Lemma compact_value_not_max c : uint 32 c -> compact_value c <> 2 ^ 256 - 1.
Proof.
  intros Hc. destruct (word24 c Hc) as [Hs Hw]. unfold compact_value. destruct (Z.leb_spec (c / 2 ^ 24) 3).
  - assert (c mod 2 ^ 23 / 2 ^ (8 * (3 - c / 2 ^ 24)) <= c mod 2 ^ 23).
    { apply Z.div_le_upper_bound; [apply pow2_pos; lia|]. pose proof (pow2_pos (8 * (3 - c / 2 ^ 24)) ltac:(lia)). nia. }
    lia.
  - replace (8 * (c / 2 ^ 24 - 3)) with (8 * (c / 2 ^ 24 - 3) - 1 + 1) by lia. rewrite Z.pow_add_r by lia. lia.
Qed.

Lemma GetBlockProof_spec b :
  uint 32 (bi_nBits b) ->
  exists w, GetBlockProof b = Ok w /\ uint_ok w
    /\ val w = if bool_decide (target_ok (bi_nBits b)) then block_work (target b) else 0.
Proof.
  intros Hn. unfold GetBlockProof. destruct (SetCompact (bi_nBits b)) as [[a neg] over] eqn:Hset.
  destruct (SetCompact_flags _ _ _ _ Hn Hset) as (Hf & Ha & Hv).
  replace (neg || over || EqualTo a 0) with (neg || EqualTo a 0 || over) by (destruct neg, over, (EqualTo a 0); done).
  rewrite Hf. destruct (bool_decide_reflect (target_ok (bi_nBits b))) as [Ht|]; cbn [negb].
  - specialize (Hv Ht). destruct Ht as (_ & Ht & _). destruct (block_work_bounds _ Ht) as [Hw He].
    assert (H1 : val (of_u64 1) = 1) by (by apply val_of_u64). pose proof (of_u64_ok 1) as H1ok.
    pose proof (compact_value_not_max _ Hn).
    assert (Hsucc : val (op_add a (of_u64 1)) = target b + 1).
    { rewrite val_add, H1, Hv by done. apply Z.mod_small. unfold target. lia. }
    destruct (divide_spec (op_compl a) (op_add a (of_u64 1))) as (q & -> & Hq & Hqv); [auto with uint..| |].
    { rewrite Hsucc. unfold target. lia. }
    cbn [bindR]. eexists. split; [done|]. split; [auto with uint|].
    rewrite val_add, Hqv, H1, val_compl, Hsucc, Hv by done. unfold target. rewrite He. apply Z.mod_small. lia.
  - exists (of_u64 0). split_and!; [done|auto with uint|by apply val_of_u64].
Qed.

(** C23: the hash check and the work measure.  [CheckProofOfWork] accepts exactly
    the hashes that, read as a little-endian number, are at most a positive
    target that fits in 256 bits and is within the limit.  [GetBlockProof] is
    the expected number of hashes [2^256 / (target + 1)] although [2^256]
    itself does not fit, zero for a malformed target, and grows as the target
    shrinks. *)
Theorem proof_of_work_measure params hash nBits b b' :
  pow_params_ok params -> bytes_ok hash -> length hash = 32%nat -> uint 32 nBits ->
  uint 32 (bi_nBits b) -> target_ok (bi_nBits b') ->
  CheckProofOfWork hash nBits params
    = bool_decide (target_ok nBits /\ compact_value nBits <= limit params /\ lev 8 hash <= compact_value nBits)
  /\ exists w w', GetBlockProof b = Ok w /\ GetBlockProof b' = Ok w' /\ uint_ok w /\ uint_ok w'
       /\ val w = (if bool_decide (target_ok (bi_nBits b)) then 2 ^ 256 / (target b + 1) else 0)
       /\ 0 < val w' /\ (target b' <= target b -> val w <= val w').
Proof.
  intros Hok Hh Hl Hn Hb Hb'. split.
  - unfold CheckProofOfWork. destruct (SetCompact nBits) as [[a neg] over] eqn:Hset.
    destruct (SetCompact_flags _ _ _ _ Hn Hset) as (Hf & Ha & Hv). rewrite Hf.
    destruct (limit_ok params Hok) as [Hlok Hlv].
    destruct (bool_decide_reflect (target_ok nBits)) as [Ht|Hno]; cbn [negb orb].
    + rewrite !op_gt_spec, Hlv, (Hv Ht), val_UintToArith256 by auto using UintToArith256_ok.
      destruct (Z.ltb_spec (limit params) (compact_value nBits)), (Z.ltb_spec (compact_value nBits) (lev 8 hash));
        symmetry; (apply bool_decide_eq_true_2 || apply bool_decide_eq_false_2); intuition lia.
    + symmetry. apply bool_decide_eq_false_2. by intros [? _].
  - destruct (GetBlockProof_spec b Hb) as (w & Hw & Hwok & Hwv).
    destruct (GetBlockProof_spec b' (proj1 Hb')) as (w' & Hw' & Hwok' & Hwv').
    rewrite bool_decide_eq_true_2 in Hwv' by done. destruct (block_work_bounds (target b') (proj1 (proj2 Hb'))) as [Hpos _].
    exists w, w'. split_and!; [done..|lia|]. intros Hle. rewrite Hwv, Hwv'.
    destruct (bool_decide_reflect (target_ok (bi_nBits b))) as [(_ & Ht & _)|]; [|lia].
    apply Z.div_le_compat_l; [lia|]. destruct Hb' as (_ & Ht' & _). unfold target in *. lia.
Qed.

Lemma EquivalentTime_value r (neg : bool) :
  uint_ok r ->
  (if 63 <? bits r then to_i64 ((if neg then -1 else 1) * INT64_MAX)
   else to_i64 (to_u64 (to_u64 (if neg then -1 else 1) * GetLow64 r)))
  = (if neg then -1 else 1) * Z.min INT64_MAX (val r).
Proof.
  intros Hr. pose proof (uint_ok_bound r Hr) as Hb. rewrite bits_spec, GetLow64_spec by done.
  destruct (bitlen_bound (val r) ltac:(lia)) as (Hlt & Hn & Hge). unfold INT64_MAX.
  destruct (Z.ltb_spec 63 (bitlen (val r))) as [H63|H63].
  - assert (2 ^ 63 <= val r).
    { destruct Hge as [Hge _]; [intros E; rewrite E in H63; by cbn in H63|].
      eapply Z.le_trans; [apply (Z.pow_le_mono_r 2 63 (bitlen (val r) - 1)); lia|done]. }
    rewrite Z.min_l by lia. destruct neg; apply swrap_small; done.
  - assert (Hv : val r < 2 ^ 63).
    { eapply Z.lt_le_trans; [apply Hlt|]. apply Z.pow_le_mono_r; lia. }
    rewrite Z.min_r by lia. rewrite (Z.mod_small (val r)) by lia.
    unfold swrap, wrap. rewrite Z.mul_mod_idemp_l, Z.add_mod_idemp_l by lia.
    assert (E : (((if neg then -1 else 1) * val r + 2 ^ (64 - 1)) mod 2 ^ 64) = (if neg then -1 else 1) * val r + 2 ^ (64 - 1)).
    { apply Z.mod_small. change (2 ^ (64 - 1)) with (2 ^ 63). destruct neg; lia. }
    rewrite E. lia.
Qed.

(** [GetBlockProofEquivalentTime] is the time the tip's difficulty needs to
    produce the difference in chain work, the quotient rounded towards zero,
    with the sign of the difference and saturating at the largest [int64_t]. *)
Theorem proof_equivalent_time to from tip params :
  uint_ok (nChainWork to) -> uint_ok (nChainWork from) -> target_ok (bi_nBits tip) ->
  0 <= nPowTargetSpacing params < 2 ^ 63 ->
  let d := val (nChainWork to) - val (nChainWork from) in
  Z.abs d * nPowTargetSpacing params < 2 ^ 256 ->
  GetBlockProofEquivalentTime to from tip params
  = Ok (Z.sgn d * Z.min INT64_MAX (Z.abs d * nPowTargetSpacing params / block_work (target tip))).
Proof.
  intros Hto Hfrom Htip Hsp d Hfit.
  pose proof (uint_ok_bound _ Hto) as Hbt. pose proof (uint_ok_bound _ Hfrom) as Hbf.
  assert (Hr : exists r (neg : bool), (if op_gt (nChainWork to) (nChainWork from)
              then (op_sub (nChainWork to) (nChainWork from), 1)
              else (op_sub (nChainWork from) (nChainWork to), -1)) = (r, if neg then -1 else 1)
            /\ uint_ok r /\ val r = Z.abs d /\ (d = 0 \/ Z.sgn d = if neg then -1 else 1)).
  { rewrite op_gt_spec by done. destruct (Z.ltb_spec (val (nChainWork from)) (val (nChainWork to))).
    - eexists _, false. split_and!; [done|by apply op_sub_ok| |lia]. rewrite val_sub, Z.mod_small by (done || lia). lia.
    - eexists _, true. split_and!; [done|by apply op_sub_ok| |lia]. rewrite val_sub, Z.mod_small by (done || lia). lia. }
  destruct Hr as (r & neg & Hpair & Hrok & Hrv & Hsgn). unfold GetBlockProofEquivalentTime. rewrite Hpair.
  destruct (GetBlockProof_spec tip (proj1 Htip)) as (w & -> & Hw & Hwv). rewrite bool_decide_eq_true_2 in Hwv by done.
  destruct (block_work_bounds (target tip) (proj1 (proj2 Htip))) as [Hpos _]. cbn [bindR]. unfold PoWTargetSpacing.
  rewrite (wrap_small 64) by (unfold uint; lia).
  assert (Hm : val (op_mul r (of_u64 (nPowTargetSpacing params))) = Z.abs d * nPowTargetSpacing params).
  { rewrite val_mul, val_of_u64, Hrv by (auto with uint || unfold uint; lia). apply Z.mod_small. lia. }
  destruct (divide_spec (op_mul r (of_u64 (nPowTargetSpacing params))) w) as (q & -> & Hq & Hqv);
    [by apply op_mul_ok; auto with uint|done|lia|].
  cbn [bindR]. f_equal. rewrite (EquivalentTime_value q neg Hq), Hqv, Hm, Hwv.
  destruct Hsgn as [-> | ->]; [|done]. cbn [Z.abs Z.mul Z.sgn]. rewrite Z.div_0_l by lia. by destruct neg.
Qed.

(** *** A small tree under the main network's limit *)

(** The main network's parameters with an averaging window of one block. *)
Definition example_params : Params :=
  ConsensusParams [] true 840000 750 950 4000 [] 17500 [] 144 5 (replicate 30 0xff ++ [0x07; 0x00]) None 1 34 34 150 [] 0 0.
Definition example_block (time : Z) : CBlockIndex :=
  CBlockIndex_new (BlockHeader 4 null256 null256 null256 time 0x1f07ffff null256 []).
Definition example_tree : store :=
  <[2%positive := set_links (example_block 700) (Some 1%positive) (Some 1%positive) 1]> {[1%positive := example_block 7]}.

Lemma example_tree_ok : tree_ok example_tree /\ entries_ok example_tree example_params.
Proof.
  assert (Ht : target_ok 0x1f07ffff) by (split_and!; by vm_compute). split.
  - intros p b H. unfold example_tree in H. apply lookup_insert_Some in H as [[<- <-]|[_ H]].
    + split_and!; [done| |done]. by exists (example_block 7).
    + apply lookup_singleton_Some in H as [<- <-]. done.
  - intros p b H. unfold example_tree in H. apply lookup_insert_Some in H as [[<- <-]|[_ H]].
    + split; [done|]. split; [exact Ht|]. by vm_compute.
    + apply lookup_singleton_Some in H as [<- <-]. split; [done|]. split; [exact Ht|]. by vm_compute.
Qed.

Lemma example_params_ok : pow_params_ok example_params.
Proof.
  split; try (by vm_compute). split; [|done]. apply Forall_app. split; [by apply Forall_replicate|by repeat constructor].
Qed.

Lemma next_work_required_witness :
  exists t, GetNextWorkRequired example_tree (Some 2%positive) None (CMainParams [] [] []) example_params = Ok (compact_of t)
    /\ compact_value (compact_of t) <= limit example_params
    /\ exists first tl tf, GetMedianTimePast example_tree first = Ok tf
         /\ t = next_target example_params (target_sum example_tree 1 2 / 1) (tl - tf).
Proof.
  destruct (next_work_required example_tree 2 (set_links (example_block 700) (Some 1%positive) (Some 1%positive) 1) None
              (CMainParams [] [] []) example_params) as (t & Ht & _ & Hgen & Hle & _);
    [apply example_tree_ok|apply example_params_ok|apply example_tree_ok|reflexivity|done|].
  destruct Hgen as (first & tl & tf & _ & _ & Htf & -> & _); [by vm_compute|]. eexists. split_and!; [exact Ht|exact Hle|].
  exists first, tl, tf. split; [exact Htf|reflexivity].
Defined.

Lemma proof_of_work_measure_witness :
  CheckProofOfWork (replicate 32 0) 0x1f07ffff example_params = true
  /\ exists w', GetBlockProof (example_block 7) = Ok w' /\ 0 < val w'.
Proof.
  destruct (proof_of_work_measure example_params (replicate 32 0) 0x1f07ffff (example_block 7) (example_block 7))
    as (Hc & w & w' & _ & Hw' & _ & _ & _ & Hpos & _);
    [apply example_params_ok|by apply Forall_replicate|done|done|done|split_and!; by vm_compute|].
  split.
  - rewrite Hc. clear. apply bool_decide_eq_true_2. split; [split_and!; by vm_compute|]. split; by vm_compute.
  - exists w'. split; [exact Hw'|exact Hpos].
Defined.

Lemma proof_equivalent_time_witness :
  let to := example_block 7 in
  GetBlockProofEquivalentTime to to to example_params = Ok 0.
Proof.
  cbv zeta. rewrite (proof_equivalent_time (example_block 7) (example_block 7) (example_block 7) example_params);
    [reflexivity|apply zero256_ok|apply zero256_ok|split_and!; by vm_compute|done|by vm_compute].
Defined.
