(* ===== verification/Script.v ===== *)
(** * Scripts (src/script/script.h, script.cpp)

    Opcodes, script numbers, the parser [GetOp2], the push operators, the
    signature operation count and the two script templates that the script
    class itself recognises. A script is its byte string; an iterator into it
    is the rest of the string. Values of the opcode type that the enumeration
    does not name, among them the direct pushes of 1 to 75 bytes, are
    [OP_OTHER]. *)

From S2P Require Import Prelude.
Local Open Scope Z_scope.
Local Open Scope code_scope.

(** ** Definitions *)

Definition MAX_SCRIPT_ELEMENT_SIZE : Z := 520.
Definition MAX_SCRIPT_SIZE : Z := 10000.
Definition LOCKTIME_THRESHOLD : Z := 500000000.

Inductive opcodetype :=
| OP_0 | OP_PUSHDATA1 | OP_PUSHDATA2 | OP_PUSHDATA4 | OP_1NEGATE | OP_RESERVED
| OP_1 | OP_2 | OP_3 | OP_4 | OP_5 | OP_6 | OP_7 | OP_8
| OP_9 | OP_10 | OP_11 | OP_12 | OP_13 | OP_14 | OP_15 | OP_16
(* control *)
| OP_NOP | OP_VER | OP_IF | OP_NOTIF | OP_VERIF | OP_VERNOTIF | OP_ELSE | OP_ENDIF | OP_VERIFY | OP_RETURN
(* stack *)
| OP_TOALTSTACK | OP_FROMALTSTACK | OP_2DROP | OP_2DUP | OP_3DUP | OP_2OVER | OP_2ROT | OP_2SWAP | OP_IFDUP
| OP_DEPTH | OP_DROP | OP_DUP | OP_NIP | OP_OVER | OP_PICK | OP_ROLL | OP_ROT | OP_SWAP | OP_TUCK
(* splice *)
| OP_CAT | OP_SUBSTR | OP_LEFT | OP_RIGHT | OP_SIZE
(* bit logic *)
| OP_INVERT | OP_AND | OP_OR | OP_XOR | OP_EQUAL | OP_EQUALVERIFY | OP_RESERVED1 | OP_RESERVED2
(* numeric *)
| OP_1ADD | OP_1SUB | OP_2MUL | OP_2DIV | OP_NEGATE | OP_ABS | OP_NOT | OP_0NOTEQUAL
| OP_ADD | OP_SUB | OP_MUL | OP_DIV | OP_MOD | OP_LSHIFT | OP_RSHIFT
| OP_BOOLAND | OP_BOOLOR | OP_NUMEQUAL | OP_NUMEQUALVERIFY | OP_NUMNOTEQUAL | OP_LESSTHAN | OP_GREATERTHAN
| OP_LESSTHANOREQUAL | OP_GREATERTHANOREQUAL | OP_MIN | OP_MAX | OP_WITHIN
(* crypto *)
| OP_RIPEMD160 | OP_SHA1 | OP_SHA256 | OP_HASH160 | OP_HASH256 | OP_CODESEPARATOR
| OP_CHECKSIG | OP_CHECKSIGVERIFY | OP_CHECKMULTISIG | OP_CHECKMULTISIGVERIFY
(* expansion; NOP2 is CHECKLOCKTIMEVERIFY *)
| OP_NOP1 | OP_CHECKLOCKTIMEVERIFY | OP_NOP3 | OP_NOP4 | OP_NOP5 | OP_NOP6 | OP_NOP7 | OP_NOP8 | OP_NOP9 | OP_NOP10
| OP_INVALIDOPCODE
| OP_OTHER (b : Z).

(** The values of the enumerators. *)
Definition opcode_value (o : opcodetype) : Z :=
  match o with
  | OP_0 => 0x00 | OP_PUSHDATA1 => 0x4c | OP_PUSHDATA2 => 0x4d | OP_PUSHDATA4 => 0x4e | OP_1NEGATE => 0x4f
  | OP_RESERVED => 0x50 | OP_1 => 0x51 | OP_2 => 0x52 | OP_3 => 0x53 | OP_4 => 0x54 | OP_5 => 0x55 | OP_6 => 0x56
  | OP_7 => 0x57 | OP_8 => 0x58 | OP_9 => 0x59 | OP_10 => 0x5a | OP_11 => 0x5b | OP_12 => 0x5c | OP_13 => 0x5d
  | OP_14 => 0x5e | OP_15 => 0x5f | OP_16 => 0x60 | OP_NOP => 0x61 | OP_VER => 0x62 | OP_IF => 0x63
  | OP_NOTIF => 0x64 | OP_VERIF => 0x65 | OP_VERNOTIF => 0x66 | OP_ELSE => 0x67 | OP_ENDIF => 0x68
  | OP_VERIFY => 0x69 | OP_RETURN => 0x6a | OP_TOALTSTACK => 0x6b | OP_FROMALTSTACK => 0x6c | OP_2DROP => 0x6d
  | OP_2DUP => 0x6e | OP_3DUP => 0x6f | OP_2OVER => 0x70 | OP_2ROT => 0x71 | OP_2SWAP => 0x72 | OP_IFDUP => 0x73
  | OP_DEPTH => 0x74 | OP_DROP => 0x75 | OP_DUP => 0x76 | OP_NIP => 0x77 | OP_OVER => 0x78 | OP_PICK => 0x79
  | OP_ROLL => 0x7a | OP_ROT => 0x7b | OP_SWAP => 0x7c | OP_TUCK => 0x7d | OP_CAT => 0x7e | OP_SUBSTR => 0x7f
  | OP_LEFT => 0x80 | OP_RIGHT => 0x81 | OP_SIZE => 0x82 | OP_INVERT => 0x83 | OP_AND => 0x84 | OP_OR => 0x85
  | OP_XOR => 0x86 | OP_EQUAL => 0x87 | OP_EQUALVERIFY => 0x88 | OP_RESERVED1 => 0x89 | OP_RESERVED2 => 0x8a
  | OP_1ADD => 0x8b | OP_1SUB => 0x8c | OP_2MUL => 0x8d | OP_2DIV => 0x8e | OP_NEGATE => 0x8f | OP_ABS => 0x90
  | OP_NOT => 0x91 | OP_0NOTEQUAL => 0x92 | OP_ADD => 0x93 | OP_SUB => 0x94 | OP_MUL => 0x95 | OP_DIV => 0x96
  | OP_MOD => 0x97 | OP_LSHIFT => 0x98 | OP_RSHIFT => 0x99 | OP_BOOLAND => 0x9a | OP_BOOLOR => 0x9b
  | OP_NUMEQUAL => 0x9c | OP_NUMEQUALVERIFY => 0x9d | OP_NUMNOTEQUAL => 0x9e | OP_LESSTHAN => 0x9f
  | OP_GREATERTHAN => 0xa0 | OP_LESSTHANOREQUAL => 0xa1 | OP_GREATERTHANOREQUAL => 0xa2 | OP_MIN => 0xa3
  | OP_MAX => 0xa4 | OP_WITHIN => 0xa5 | OP_RIPEMD160 => 0xa6 | OP_SHA1 => 0xa7 | OP_SHA256 => 0xa8
  | OP_HASH160 => 0xa9 | OP_HASH256 => 0xaa | OP_CODESEPARATOR => 0xab | OP_CHECKSIG => 0xac
  | OP_CHECKSIGVERIFY => 0xad | OP_CHECKMULTISIG => 0xae | OP_CHECKMULTISIGVERIFY => 0xaf | OP_NOP1 => 0xb0
  | OP_CHECKLOCKTIMEVERIFY => 0xb1 | OP_NOP3 => 0xb2 | OP_NOP4 => 0xb3 | OP_NOP5 => 0xb4 | OP_NOP6 => 0xb5
  | OP_NOP7 => 0xb6 | OP_NOP8 => 0xb7 | OP_NOP9 => 0xb8 | OP_NOP10 => 0xb9 | OP_INVALIDOPCODE => 0xff
  | OP_OTHER b => b
  end.

Definition all_opcodes : list opcodetype :=
  [ OP_0; OP_PUSHDATA1; OP_PUSHDATA2; OP_PUSHDATA4; OP_1NEGATE; OP_RESERVED; OP_1; OP_2; OP_3; OP_4; OP_5; OP_6;
    OP_7; OP_8; OP_9; OP_10; OP_11; OP_12; OP_13; OP_14; OP_15; OP_16; OP_NOP; OP_VER; OP_IF; OP_NOTIF; OP_VERIF;
    OP_VERNOTIF; OP_ELSE; OP_ENDIF; OP_VERIFY; OP_RETURN; OP_TOALTSTACK; OP_FROMALTSTACK; OP_2DROP; OP_2DUP;
    OP_3DUP; OP_2OVER; OP_2ROT; OP_2SWAP; OP_IFDUP; OP_DEPTH; OP_DROP; OP_DUP; OP_NIP; OP_OVER; OP_PICK; OP_ROLL;
    OP_ROT; OP_SWAP; OP_TUCK; OP_CAT; OP_SUBSTR; OP_LEFT; OP_RIGHT; OP_SIZE; OP_INVERT; OP_AND; OP_OR; OP_XOR;
    OP_EQUAL; OP_EQUALVERIFY; OP_RESERVED1; OP_RESERVED2; OP_1ADD; OP_1SUB; OP_2MUL; OP_2DIV; OP_NEGATE; OP_ABS;
    OP_NOT; OP_0NOTEQUAL; OP_ADD; OP_SUB; OP_MUL; OP_DIV; OP_MOD; OP_LSHIFT; OP_RSHIFT; OP_BOOLAND; OP_BOOLOR;
    OP_NUMEQUAL; OP_NUMEQUALVERIFY; OP_NUMNOTEQUAL; OP_LESSTHAN; OP_GREATERTHAN; OP_LESSTHANOREQUAL;
    OP_GREATERTHANOREQUAL; OP_MIN; OP_MAX; OP_WITHIN; OP_RIPEMD160; OP_SHA1; OP_SHA256; OP_HASH160; OP_HASH256;
    OP_CODESEPARATOR; OP_CHECKSIG; OP_CHECKSIGVERIFY; OP_CHECKMULTISIG; OP_CHECKMULTISIGVERIFY; OP_NOP1;
    OP_CHECKLOCKTIMEVERIFY; OP_NOP3; OP_NOP4; OP_NOP5; OP_NOP6; OP_NOP7; OP_NOP8; OP_NOP9; OP_NOP10;
    OP_INVALIDOPCODE ].

(** The cast [(opcodetype)b]. *)
Definition opcode_of (b : Z) : opcodetype :=
  default (OP_OTHER b) (List.find (fun o => opcode_value o =? b) all_opcodes).

(** [a op b] on the values of two opcodes. *)
Definition op_le (a b : opcodetype) : bool := opcode_value a <=? opcode_value b.
Definition op_gt (a b : opcodetype) : bool := opcode_value b <? opcode_value a.
Definition op_eqb (a b : opcodetype) : bool := opcode_value a =? opcode_value b.

(** *** Script numbers *)

(** Exceptions that [EvalScript] catches, and failed assertions. *)
Inductive script_exn :=
| scriptnum_error           (* a number too long or not minimal *)
| out_of_range              (* [at] or [popstack] on a stack that is too short *)
| script_assert             (* a failed assert, which ends the process *)
| runtime_error.            (* an opcode outside a byte *)

Definition nDefaultMaxNumSize : Z := 4.

(** The 9-byte encoding of the least [int64_t]. *)
Definition int64_min_vch : bytes := [0; 0; 0; 0; 0; 0; 0; 128; 128].

(** [result |= static_cast<int64_t>(vch[i]) << 8*i] from index [i] on. *)
Fixpoint or_bytes (i : Z) (result : Z) (vch : bytes) : Z :=
  match vch with
  | [] => result
  | b :: vch => or_bytes (i + 1) (Z.lor result (to_i64 (Z.shiftl b (8 * i)))) vch
  end.

Definition set_vch (vch : bytes) : result script_exn Z :=
  match last vch with
  | None => Ok 0
  | Some back =>
      if bool_decide (vch = int64_min_vch) then Ok INT64_MIN
      else
        require negb (8 <? length vch) orelse scriptnum_error in
        let result := or_bytes 0 0 vch in
        Ok (if negb (Z.land back 0x80 =? 0)
            then to_i64 (- to_i64 (Z.land (to_u64 result) (to_u64 (Z.lnot (Z.shiftl 0x80 (8 * (length vch - 1)))))))
            else result)
  end.

(** [vch[vch.size() - 2]]. *)
Definition second_last (vch : bytes) : Z := nth (length vch - 2) vch 0.

(** [CScriptNum(vch, fRequireMinimal, nMaxNumSize)]; its value is [m_value]. *)
Definition CScriptNum_of (vch : bytes) (fRequireMinimal : bool) (nMaxNumSize : Z) : result script_exn Z :=
  require negb (nMaxNumSize <? length vch) orelse scriptnum_error in
  let nonminimal :=
    match last vch with
    | Some back => (Z.land back 0x7f =? 0) && ((length vch <=? 1) || (Z.land (second_last vch) 0x80 =? 0))
    | None => false
    end in
  require negb (fRequireMinimal && nonminimal) orelse scriptnum_error in
  set_vch vch.

(** [operator+=] and [operator-=] assert that the result fits. *)
Definition num_plus_assign (m_value rhs : Z) : result script_exn Z :=
  require (rhs =? 0) || ((0 <? rhs) && (m_value <=? INT64_MAX - rhs)) || ((rhs <? 0) && (INT64_MIN - rhs <=? m_value))
    orelse script_assert in Ok (m_value + rhs).
Definition num_minus_assign (m_value rhs : Z) : result script_exn Z :=
  require (rhs =? 0) || ((0 <? rhs) && (INT64_MIN + rhs <=? m_value)) || ((rhs <? 0) && (m_value <=? INT64_MAX + rhs))
    orelse script_assert in Ok (m_value - rhs).
Definition num_neg (m_value : Z) : result script_exn Z :=
  require negb (m_value =? INT64_MIN) orelse script_assert in Ok (- m_value).

Definition getint (m_value : Z) : Z :=
  if INT_MAX <? m_value then INT_MAX else if m_value <? INT_MIN then INT_MIN else m_value.

(** The bytes of [absvalue], least significant first; a [uint64_t] has at most
    eight. *)
Fixpoint abs_bytes (fuel : nat) (absvalue : Z) : bytes :=
  match fuel with
  | O => []
  | S fuel => if absvalue =? 0 then [] else Z.land absvalue 0xff :: abs_bytes fuel (Z.shiftr absvalue 8)
  end.

(** [result.back() |= v]. *)
Definition or_back (v : Z) (result : bytes) : bytes :=
  alter (fun b => Z.lor b v) (length result - 1)%nat result.

(** [CScriptNum::serialize], which [getvch] returns. *)
Definition num_serialize (value : Z) : bytes :=
  if value =? 0 then []
  else if value =? INT64_MIN then int64_min_vch
  else
    let neg := value <? 0 in
    let result := abs_bytes 8 (to_u64 (if neg then - value else value)) in
    if negb (Z.land (default 0 (last result)) 0x80 =? 0) then result ++ [if neg then 0x80 else 0]
    else if neg then or_back 0x80 result else result.

(** *** Building scripts *)

Abbreviation CScript := (list Z).

(** [operator<<] of a byte vector, an opcode and an integer. *)
Definition push_data (s : CScript) (b : bytes) : CScript :=
  s ++ (if length b <? opcode_value OP_PUSHDATA1 then [to_u8 (length b)]
        else if length b <=? 0xff then [opcode_value OP_PUSHDATA1; to_u8 (length b)]
        else if length b <=? 0xffff then opcode_value OP_PUSHDATA2 :: WriteLE16 (length b)
        else opcode_value OP_PUSHDATA4 :: WriteLE32 (length b))
    ++ b.
Definition push_opcode (s : CScript) (opcode : opcodetype) : result script_exn CScript :=
  require negb ((opcode_value opcode <? 0) || (0xff <? opcode_value opcode)) orelse runtime_error in
  Ok (s ++ [opcode_value opcode]).
Definition push_int64 (s : CScript) (n : Z) : CScript :=
  if (n =? -1) || ((1 <=? n) && (n <=? 16)) then s ++ [to_u8 (n + (opcode_value OP_1 - 1))]
  else if n =? 0 then s ++ [opcode_value OP_0]
  else push_data s (num_serialize n).

(** *** Reading scripts *)

(** [GetOp2] at the iterator [pc]: the opcode, the operand and the iterator
    after them, or [None] for the result [false]. *)
Definition GetOp (pc : bytes) : option (opcodetype * bytes * bytes) :=
  match pc with
  | [] => None
  | opcode :: pc =>
      if opcode <=? opcode_value OP_PUSHDATA4 then
        '(nSize, pc) ←
          (if opcode <? opcode_value OP_PUSHDATA1 then Some (opcode, pc)
           else if opcode =? opcode_value OP_PUSHDATA1 then
             if length pc <? 1 then None else Some (nth 0 pc 0, drop 1 pc)
           else if opcode =? opcode_value OP_PUSHDATA2 then
             if length pc <? 2 then None else Some (ReadLE16 pc, drop 2 pc)
           else
             if length pc <? 4 then None else Some (ReadLE32 pc, drop 4 pc));
        if to_u32 (length pc) <? nSize then None
        else Some (opcode_of opcode, take (Z.to_nat nSize) pc, drop (Z.to_nat nSize) pc)
      else Some (opcode_of opcode, [], pc)
  end.

Definition DecodeOP_N (opcode : opcodetype) : result script_exn Z :=
  if op_eqb opcode OP_0 then Ok 0
  else require op_le OP_1 opcode && op_le opcode OP_16 orelse script_assert in
       Ok (opcode_value opcode - (opcode_value OP_1 - 1)).
Definition EncodeOP_N (n : Z) : result script_exn opcodetype :=
  require (0 <=? n) && (n <=? 16) orelse script_assert in
  Ok (if n =? 0 then OP_0 else opcode_of (opcode_value OP_1 + n - 1)).

(** The loop of [GetSigOpCount(fAccurate)]; every pass reads at least a byte, so
    the length of the script bounds the passes. *)
Fixpoint sigop_loop (fuel : nat) (fAccurate : bool) (n : Z) (lastOpcode : opcodetype) (pc : bytes)
  : result script_exn Z :=
  match fuel, pc with
  | O, _ | _, [] => Ok n
  | S fuel, _ =>
      match GetOp pc with
      | None => Ok n
      | Some (opcode, _, pc) =>
          let* n :=
            match opcode with
            | OP_CHECKSIG | OP_CHECKSIGVERIFY => Ok (to_u32 (n + 1))
            | OP_CHECKMULTISIG | OP_CHECKMULTISIGVERIFY =>
                if fAccurate && op_le OP_1 lastOpcode && op_le lastOpcode OP_16
                then let* k := DecodeOP_N lastOpcode in Ok (to_u32 (n + k))
                else Ok (to_u32 (n + 20))
            | _ => Ok n
            end in
          sigop_loop fuel fAccurate n opcode pc
      end
  end.
Definition GetSigOpCount (s : CScript) (fAccurate : bool) : result script_exn Z :=
  sigop_loop (length s) fAccurate 0 OP_INVALIDOPCODE s.

Definition IsPayToPublicKeyHash (s : CScript) : bool :=
  (length s =? 25) && (nth 0 s 0 =? opcode_value OP_DUP) && (nth 1 s 0 =? opcode_value OP_HASH160)
  && (nth 2 s 0 =? 0x14) && (nth 23 s 0 =? opcode_value OP_EQUALVERIFY) && (nth 24 s 0 =? opcode_value OP_CHECKSIG).
Definition IsPayToScriptHash (s : CScript) : bool :=
  (length s =? 23) && (nth 0 s 0 =? opcode_value OP_HASH160) && (nth 1 s 0 =? 0x14) && (nth 22 s 0 =? opcode_value OP_EQUAL).

(** The loop over the signature script of a pay-to-script-hash output: the
    last pushed element, or [None] when it is not only pushes. *)
Fixpoint last_push (fuel : nat) (data pc : bytes) : option bytes :=
  match fuel, pc with
  | O, _ | _, [] => Some data
  | S fuel, _ =>
      match GetOp pc with
      | None => None
      | Some (opcode, data, pc) => if op_gt opcode OP_16 then None else last_push fuel data pc
      end
  end.
Definition GetSigOpCount_p2sh (s scriptSig : CScript) : result script_exn Z :=
  if negb (IsPayToScriptHash s) then GetSigOpCount s true
  else match last_push (length scriptSig) [] scriptSig with
       | None => Ok 0
       | Some data => GetSigOpCount data true
       end.

Fixpoint push_only_loop (fuel : nat) (pc : bytes) : bool :=
  match fuel, pc with
  | O, _ | _, [] => true
  | S fuel, _ =>
      match GetOp pc with
      | None => false
      | Some (opcode, _, pc) => if op_gt opcode OP_16 then false else push_only_loop fuel pc
      end
  end.
Definition IsPushOnly (s : CScript) : bool := push_only_loop (length s) s.

Inductive ScriptType := UNKNOWN | P2PKH | P2SH.
Definition GetType (s : CScript) : ScriptType :=
  if IsPayToPublicKeyHash s then P2PKH else if IsPayToScriptHash s then P2SH else UNKNOWN.
Definition AddressHash (s : CScript) : bytes :=
  if IsPayToPublicKeyHash s then take 20 (drop 3 s)
  else if IsPayToScriptHash s then take 20 (drop 2 s)
  else replicate 20 0.

Definition IsUnspendable (s : CScript) : bool :=
  ((0 <? length s) && (nth 0 s 0 =? opcode_value OP_RETURN)) || (MAX_SCRIPT_SIZE <? length s).

(** ** Script numbers are sign and magnitude *)

(** The magnitude and the sign bit of an [n]-byte little-endian number. *)
Definition magnitude (n : nat) (m : Z) : Z := m mod 2 ^ (8 * n - 1).
Definition negative (n : nat) (m : Z) : bool := 2 ^ (8 * n - 1) <=? m.

(** No shorter string holds the magnitude [a] and a sign bit. *)
Definition minimal (n : nat) (a : Z) : Prop := a <> 0 /\ (n = 1%nat \/ 2 ^ (8 * n - 9) <= a).

Lemma lev_last vch n b :
  bytes_ok vch -> length vch = S n -> last vch = Some b -> b = lev 8 vch / 2 ^ (8 * n) /\ uint 8 b.
Proof.
  intros Hok Hl Hb. apply last_Some in Hb as [l ->]. rewrite length_app in Hl. cbn in Hl.
  apply Forall_app in Hok as [Hl' Hb]. apply Forall_cons in Hb as [Hb _]. split; [|done].
  rewrite lev_app by lia. replace (length l) with n by lia. cbn [lev].
  pose proof (lev_bound 8 ltac:(lia) l Hl') as Hbd. replace (length l) with n in Hbd by lia.
  rewrite Z.mul_comm, Z.div_add by lia. rewrite Z.div_small by lia. lia.
Qed.

Lemma length_last (vch : bytes) n : length vch = S n -> exists b, last vch = Some b.
Proof. intros H. destruct vch as [|x l]; [done|]. apply last_is_Some. done. Qed.

Lemma to_i64_high z : 2 ^ 63 <= z < 2 ^ 64 -> to_i64 z = z - 2 ^ 64.
Proof.
  intros Hz. unfold swrap. change (2 ^ (64 - 1)) with (2 ^ 63).
  rewrite <- (Z.mod_unique (z + 2 ^ 63) (2 ^ 64) 1 (z + 2 ^ 63 - 2 ^ 64)) by lia. lia.
Qed.

(** The low part of a wider number is the sum of disjoint bytes. *)
Lemma or_bytes_spec vch (i : nat) r :
  bytes_ok vch -> (i + length vch <= 8)%nat -> vch <> [] \/ (i <= 7)%nat -> 0 <= r < 2 ^ (8 * i) ->
  or_bytes i r vch = to_i64 (r + 2 ^ (8 * i) * lev 8 vch).
Proof.
  intros Hok. revert i r. induction Hok as [|b vch Hb Hok IH]; intros i r Hl Hne Hr; cbn [or_bytes lev length] in *.
  - rewrite Z.mul_0_r, Z.add_0_r. symmetry. apply swrap_small; [lia|]. destruct Hne as [|Hi]; [done|].
    assert (2 ^ (8 * i) <= 2 ^ 56) by (apply Z.pow_le_mono_r; lia). solve_uint.
  - rewrite Z.shiftl_mul_pow2 by lia. unfold uint in Hb.
    destruct vch as [|b' vch].
    + cbn [or_bytes lev]. rewrite Z.mul_0_r, Z.add_0_r.
      assert (Hy : exists y, to_i64 (b * 2 ^ (8 * i)) = y * 2 ^ (8 * i) /\ to_i64 (r + 2 ^ (8 * i) * b) = r + y * 2 ^ (8 * i)).
      { assert (Hcase : b * 2 ^ (8 * i) + 2 ^ (8 * i) <= 2 ^ 63 \/ (i = 7%nat /\ 128 <= b)).
        { destruct (decide (i = 7%nat)) as [->|]; [change (2 ^ (8 * 7%nat)) with (2 ^ 56); lia|].
          assert (2 ^ (8 * i) <= 2 ^ 48) by (apply Z.pow_le_mono_r; lia). left. nia. }
        destruct Hcase as [Hs|[-> Hs]].
        - exists b. rewrite !swrap_small by (lia || (split; cbn [Z.sub]; widths; nia)). lia.
        - exists (b - 256). change (2 ^ (8 * 7%nat)) with (2 ^ 56) in *. 
          rewrite !to_i64_high by lia. lia. }
      destruct Hy as (y & -> & ->). apply lor_disjoint; lia.
    + cbn [length] in Hl. assert (Hp : 2 ^ (8 * i) * 256 = 2 ^ (8 * S i)).
      { change 256 with (2 ^ 8). rewrite <- Z.pow_add_r by lia. f_equal. lia. }
      assert (2 ^ (8 * S i) <= 2 ^ 56) by (apply Z.pow_le_mono_r; lia).
      rewrite swrap_small by (lia || (split; cbn [Z.sub]; widths; nia)).
      rewrite lor_disjoint by lia. replace (Z.of_nat i + 1) with (Z.of_nat (S i)) by lia.
      rewrite IH; [|cbn [length]; lia|by left|nia]. f_equal. change (2 ^ 8) with 256. cbn [lev]. nia.
Qed.

Section decode.
Context (vch : bytes) (n : nat) (Hok : bytes_ok vch) (Hl : length vch = S n) (Hn : (n <= 7)%nat).
Local Abbreviation m := (lev 8 vch).

Lemma decode_bound : 0 <= m < 2 ^ (8 * S n) /\ 2 ^ (8 * S n) = 2 * 2 ^ (8 * S n - 1)
  /\ 2 ^ (8 * S n - 1) = 128 * 2 ^ (8 * n) /\ 2 ^ (8 * S n - 1) <= 2 ^ 63.
Proof.
  pose proof (lev_bound 8 ltac:(lia) vch Hok) as Hb. rewrite Hl in Hb. split_and!; [lia|lia| | |].
  - change 2 with (2 ^ 1) at 2. rewrite <- Z.pow_add_r by lia. f_equal. lia.
  - change 128 with (2 ^ 7). rewrite <- Z.pow_add_r by lia. f_equal. lia.
  - apply Z.pow_le_mono_r; lia.
Qed.

Lemma magnitude_split : m = magnitude (S n) m + (if negative (S n) m then 2 ^ (8 * S n - 1) else 0)
  /\ 0 <= magnitude (S n) m < 2 ^ (8 * S n - 1).
Proof.
  destruct decode_bound as (Hb & H2 & _). unfold magnitude, negative.
  destruct (Z.leb_spec (2 ^ (8 * S n - 1)) m) as [Hle|Hlt].
  - rewrite <- (Z.mod_unique m (2 ^ (8 * S n - 1)) 1 (m - 2 ^ (8 * S n - 1))) by lia. lia.
  - rewrite Z.mod_small by lia. lia.
Qed.

Lemma sign_bit b : last vch = Some b -> negb (Z.land b 0x80 =? 0) = negative (S n) m.
Proof.
  intros Hb. destruct (lev_last vch n b Hok Hl Hb) as [Hv Hu], decode_bound as (Hm & H2 & H128 & _).
  change 0x80 with (2 ^ 7). rewrite land_pow2_eqb, negb_involutive by lia.
  rewrite testbit_top by (unfold uint in Hu; lia). unfold negative. change (2 ^ 7) with 128.
  pose proof (pow2_pos (8 * n) ltac:(lia)). pose proof (Z.div_mod m (2 ^ (8 * n)) ltac:(lia)) as Hd.
  pose proof (Z.mod_pos_bound m (2 ^ (8 * n)) ltac:(lia)). rewrite <- Hv in Hd.
  destruct (Z.leb_spec 128 b), (Z.leb_spec (2 ^ (8 * S n - 1)) m); try done; nia.
Qed.

Lemma set_vch_spec :
  set_vch vch = Ok (if negative (S n) m then - magnitude (S n) m else magnitude (S n) m).
Proof.
  destruct (length_last vch n Hl) as [b Hb]. unfold set_vch. rewrite Hb.
  destruct (bool_decide_reflect (vch = int64_min_vch)) as [->|_]; [cbn in Hl; lia|].
  rewrite (sign_bit b Hb). destruct (Z.ltb_spec 8 (length vch)); [lia|]. cbn [negb]. f_equal.
  pose proof (or_bytes_spec vch 0 0 Hok ltac:(lia) ltac:(right; lia) ltac:(by vm_compute)) as Hor.
  change (Z.of_nat 0) with 0 in Hor. rewrite Z.mul_0_r, Z.add_0_l in Hor. change (2 ^ 0) with 1 in Hor. rewrite Z.mul_1_l in Hor.
  rewrite Hor.
  destruct magnitude_split as [Hs Ha], decode_bound as (Hm & H2 & _ & H63).
  destruct (negative (S n) m) eqn:Hneg.
  - rewrite Hl. replace (Z.of_nat (S n) - 1) with (Z.of_nat n) by lia.
    assert (Hu : to_u64 (to_i64 m) = m).
    { unfold swrap, wrap. rewrite <- Zminus_mod_idemp_l, Z.mod_mod, Zminus_mod_idemp_l by lia.
      rewrite Z.mod_small; [lia|]. change (2 ^ (64 - 1)) with (2 ^ 63). widths. lia. }
    rewrite Hu. rewrite Z.shiftl_mul_pow2 by lia. change 0x80 with (2 ^ 7). rewrite <- Z.pow_add_r by lia.
    replace (7 + 8 * n) with (8 * S n - 1) by lia.
    assert (Hland : Z.land m (to_u64 (Z.lnot (2 ^ (8 * S n - 1)))) = magnitude (S n) m).
    { apply Z.bits_inj'. intros k Hk. rewrite Z.land_spec. unfold wrap, magnitude.
      destruct (Z_lt_le_dec k 64).
      - rewrite Z.mod_pow2_bits_low, Z.lnot_spec, Z.pow2_bits_eqb by lia.
        destruct (Z.eqb_spec (8 * S n - 1) k) as [<-|].
        + rewrite andb_false_r. symmetry. apply Z.mod_pow2_bits_high. lia.
        + rewrite andb_true_r. destruct (Z_lt_le_dec k (8 * S n - 1)).
          * symmetry. apply Z.mod_pow2_bits_low. lia.
          * rewrite Z.mod_pow2_bits_high by lia. apply (Z.testbit_false m k Hk).
            rewrite Z.div_small; [done|]. split; [lia|]. eapply Z.lt_le_trans; [apply Hm|]. apply Z.pow_le_mono_r; lia.
      - rewrite Z.mod_pow2_bits_high by lia. rewrite andb_false_r. symmetry. apply Z.mod_pow2_bits_high. lia. }
    rewrite Hland. rewrite !swrap_small; [done|lia|solve_uint|lia|]. rewrite swrap_small by (lia || solve_uint). solve_uint.
  - rewrite swrap_small; [lia|lia|]. solve_uint.
Qed.
End decode.

(** The minimality test of the constructor. *)
Definition nonminimal (vch : bytes) : bool :=
  match last vch with
  | Some back => (Z.land back 0x7f =? 0) && ((length vch <=? 1) || (Z.land (second_last vch) 0x80 =? 0))
  | None => false
  end.

Lemma land_low7 b : Z.land b 0x7f = b mod 2 ^ 7.
Proof. change 0x7f with (Z.ones 7). apply Z.land_ones. lia. Qed.

(** Reading byte [i] of a little-endian string. *)
Lemma lev_nth vch i : bytes_ok vch -> (i < length vch)%nat -> nth i vch 0 = lev 8 vch / 2 ^ (8 * i) mod 2 ^ 8.
Proof.
  intros Hok Hi. rewrite <- lev_drop by (lia || done).
  destruct (drop i vch) as [|b r] eqn:E; [apply (f_equal length) in E; rewrite length_drop in E; cbn in E; lia|].
  assert (nth i vch 0 = b) as ->.
  { rewrite <- (take_drop i vch), E, app_nth2; rewrite length_take_le by lia; [by rewrite Nat.sub_diag|lia]. }
  symmetry. apply lev_cons_mod; [lia|]. assert (Hd : bytes_ok (b :: r)) by (rewrite <- E; by apply Forall_drop).
  by apply Forall_cons in Hd as [? _].
Qed.

Lemma nonminimal_spec vch n :
  bytes_ok vch -> length vch = S n -> (n <= 7)%nat ->
  nonminimal vch = false <-> minimal (S n) (magnitude (S n) (lev 8 vch)).
Proof.
  intros Hok Hl Hn. destruct (length_last vch n Hl) as [b Hb]. unfold nonminimal. rewrite Hb.
  destruct (lev_last vch n b Hok Hl Hb) as [Hv Hu], (decode_bound vch n Hok Hl Hn) as (Hm & H2 & H128 & _).
  destruct (magnitude_split vch n Hok Hl Hn) as [Hs Ha]. set (m := lev 8 vch) in *. set (a := magnitude (S n) m) in *.
  pose proof (pow2_pos (8 * n) ltac:(lia)) as Hp.
  assert (Hb7 : b mod 2 ^ 7 = a / 2 ^ (8 * n)).
  { unfold a, magnitude. rewrite H128, (Z.mul_comm 128), Z.rem_mul_r by lia. change (2 ^ 7) with 128.
    rewrite (Z.mul_comm (2 ^ (8 * n))), Z.div_add by lia. rewrite Z.div_small, Hv by (apply Z.mod_pos_bound; lia). lia. }
  rewrite land_low7, Hb7, Hl. unfold minimal. destruct n as [|n].
  - change (2 ^ (8 * 0%nat)) with 1 in *. rewrite Z.div_1_r. cbn [Z.leb Z.of_nat Pos.of_succ_nat Z.compare Pos.compare Pos.compare_cont orb].
    rewrite andb_true_r. split; [|lia]. intros H. split; [lia|by left].
  - destruct (Z.leb_spec (S (S n)) 1) as [|_]; [lia|]. cbn [orb].
    unfold second_last. rewrite Hl. replace (S (S n) - 2)%nat with n by lia. rewrite lev_nth by (done || lia). fold m.
    change 0x80 with (2 ^ 7). rewrite land_pow2_eqb by lia.
    rewrite Z.mod_pow2_bits_low, Z.div_pow2_bits by lia. replace (7 + 8 * n) with (8 * S (S n) - 9) by lia.
    assert (Hbit : Z.testbit m (8 * S (S n) - 9) = Z.testbit a (8 * S (S n) - 9)).
    { unfold a, magnitude. symmetry. apply Z.mod_pow2_bits_low. lia. }
    rewrite Hbit. clear Hbit Hs Hb7. clearbody a. replace (8 * S n) with (8 * S (S n) - 9 + 1) in * by lia.
    split.
    + intros H. destruct (Z.ltb_spec a (2 ^ (8 * S (S n) - 9 + 1))) as [Hlt|Hge].
      * rewrite Z.div_small in H by lia. cbn [Z.eqb andb] in H. apply negb_false_iff in H.
        rewrite testbit_top in H by lia. apply Z.leb_le in H.
        pose proof (pow2_pos (8 * S (S n) - 9) ltac:(lia)). split; [lia|by right].
      * assert (2 ^ (8 * S (S n) - 9) <= 2 ^ (8 * S (S n) - 9 + 1)) as Hmono by (apply Z.pow_le_mono_r; lia).
        split; [intros ->; by apply Z.lt_nge in Hp|right; by etransitivity].
    + intros [Ha0 Hor]. destruct Hor as [|Hge]; [lia|].
      destruct (Z.eqb_spec (a / 2 ^ (8 * S (S n) - 9 + 1)) 0) as [E|]; [|done]. cbn [andb]. apply negb_false_iff.
      apply Z.div_small_iff in E; [|lia]. rewrite testbit_top by lia. by apply Z.leb_le.
Qed.

(** ** Encoding *)

Lemma abs_bytes_spec k a :
  0 < a < 2 ^ (8 * Z.of_nat k) ->
  exists n, (n < k)%nat /\ 2 ^ (8 * n) <= a < 2 ^ (8 * S n) /\ abs_bytes k a = digits 8 (S n) a.
Proof.
  revert a. induction k as [|k IH]; intros a Ha; [change (2 ^ (8 * 0%nat)) with 1 in Ha; lia|].
  cbn [abs_bytes]. destruct (Z.eqb_spec a 0) as [|_]; [lia|].
  rewrite (Z.shiftr_div_pow2 a 8) by lia. change 0xff with (Z.ones 8). rewrite Z.land_ones by lia.
  assert (Hp : forall j : nat, 2 ^ (8 * S j) = 256 * 2 ^ (8 * j)).
  { intros j. change 256 with (2 ^ 8). rewrite <- Z.pow_add_r by lia. f_equal. lia. }
  rewrite Hp in Ha. destruct (decide (a < 256)) as [Hlt|Hge].
  - exists 0%nat. split; [lia|]. change (2 ^ (8 * 0%nat)) with 1. change (2 ^ (8 * 1%nat)) with 256.
    split; [lia|]. rewrite (Z.div_small a) by lia. cbn [digits]. by destruct k.
  - assert (Hd : 0 < a / 2 ^ 8 < 2 ^ (8 * k)).
    { split; [apply Z.div_str_pos; lia|apply Z.div_lt_upper_bound; lia]. }
    destruct (IH _ Hd) as (n & Hn & Hb & ->). exists (S n). split; [lia|]. split; [|done].
    rewrite (Hp (S n)), (Hp n). change (2 ^ 8) with 256 in Hb. rewrite (Hp n) in Hb.
    pose proof (Z.mul_div_le a 256 ltac:(lia)). pose proof (Z.mul_succ_div_gt a 256 ltac:(lia)). lia.
Qed.

(** A serialized number is the minimal sign-and-magnitude string of it. *)
Lemma num_serialize_spec v :
  sint 64 v -> v <> 0 -> v <> INT64_MIN ->
  exists n, (n <= 7)%nat /\ length (num_serialize v) = S n /\ bytes_ok (num_serialize v)
    /\ lev 8 (num_serialize v) = Z.abs v + (if v <? 0 then 2 ^ (8 * S n - 1) else 0)
    /\ Z.abs v < 2 ^ (8 * S n - 1) /\ minimal (S n) (Z.abs v).
Proof.
  intros Hv Hv0 Hmin. unfold sint, INT64_MIN in *. change (64 - 1) with 63 in Hv.
  unfold num_serialize. destruct (Z.eqb_spec v 0) as [|_]; [lia|]. destruct (Z.eqb_spec v INT64_MIN) as [|_]; [done|].
  assert (Habs : to_u64 (if v <? 0 then - v else v) = Z.abs v).
  { rewrite wrap_small; destruct (Z.ltb_spec v 0); unfold uint; lia. }
  rewrite Habs. destruct (abs_bytes_spec 8 (Z.abs v)) as (n & Hn & Hb & ->); [change (2 ^ (8 * 8%nat)) with (2 ^ 64); lia|].
  set (a := Z.abs v) in *. set (neg := v <? 0).
  pose proof (length_digits 8 (S n) a) as Hl. pose proof (digits_ok 8 ltac:(lia) (S n) a) as Hok.
  pose proof (lev_digits 8 ltac:(lia) (S n) a) as Hlev. rewrite (Z.mod_small a) in Hlev by lia.
  destruct (length_last _ _ Hl) as [b Hlast]. rewrite Hlast. change (default 0 (Some b)) with b.
  destruct (lev_last _ n b Hok Hl Hlast) as [Hbv Hbu]. rewrite Hlev in Hbv.
  rewrite (sign_bit _ n Hok Hl ltac:(lia) b Hlast), Hlev. unfold negative.
  assert (Hpow : 2 ^ (8 * S n) = 2 * 2 ^ (8 * S n - 1) /\ 2 ^ (8 * S n - 1) = 128 * 2 ^ (8 * n)) by (by destruct (decode_bound _ n Hok Hl ltac:(lia)) as (_ & ? & ? & _)).
  assert (Ha63 : a < 2 ^ 63) by (unfold a; lia).
  clearbody a neg. destruct Hpow as [H2 H128]. destruct (Z.leb_spec (2 ^ (8 * S n - 1)) a) as [Htop|Htop].
  - assert (n <> 7)%nat. { intros ->. change (2 ^ (8 * 8%nat - 1)) with (2 ^ 63) in Htop. lia. }
    exists (S n). rewrite length_app, Hl. cbn [length]. split_and!; [lia|lia| | | |].
    + apply Forall_app. split; [done|]. constructor; [|constructor]. by destruct neg.
    + rewrite lev_app, Hlev, Hl by lia. cbn [lev]. rewrite Z.mul_0_r, Z.add_0_r.
      replace (8 * S (S n) - 1) with (8 * S n + 7) by lia. rewrite Z.pow_add_r by lia. destruct neg; lia.
    + eapply Z.lt_le_trans; [apply Hb|]. apply Z.pow_le_mono_r; lia.
    + pose proof (pow2_pos (8 * S n - 1) ltac:(lia)).
      split; [lia|]. right. replace (8 * S (S n) - 9) with (8 * S n - 1) by lia. done.
  - assert (Hm : minimal (S n) a).
    { pose proof (pow2_pos (8 * n) ltac:(lia)). split; [lia|]. destruct n as [|n]; [by left|right].
      etransitivity; [|apply Hb]. apply Z.pow_le_mono_r; lia. }
    exists n. destruct neg.
    + assert (Hx : digits 8 (S n) a !! n = Some b). { rewrite last_lookup, Hl in Hlast. done. }
      unfold or_back. rewrite length_alter, Hl. replace (S n - 1)%nat with n by lia. split_and!; [lia|done| | |done|done].
      * apply Forall_alter; [done|]. intros x Hx' _. rewrite Hx in Hx'. injection Hx' as <-.
        unfold uint in *. assert (b < 128) by (rewrite Hbv; apply Z.div_lt_upper_bound; lia).
        change 0x80 with (1 * 2 ^ 7). rewrite lor_disjoint by lia. lia.
      * rewrite (lev_alter 8 ltac:(lia) _ n _ b Hx), Hlev. unfold uint in Hbu.
        assert (b < 128) by (rewrite Hbv; apply Z.div_lt_upper_bound; lia).
        change 0x80 with (1 * 2 ^ 7). rewrite lor_disjoint by lia. lia.
    + split_and!; [lia|done|done|lia|done|done].
Qed.

Lemma CScriptNum_of_unfold vch fRequireMinimal nMax :
  CScriptNum_of vch fRequireMinimal nMax
  = if negb (nMax <? length vch) then if negb (fRequireMinimal && nonminimal vch) then set_vch vch else Err scriptnum_error
    else Err scriptnum_error.
Proof. done. Qed.

(** The number a sign-and-magnitude string stands for determines the minimal
    string. *)
Lemma minimal_length n n' a :
  minimal (S n) a -> minimal (S n') a -> 0 <= a < 2 ^ (8 * S n - 1) -> a < 2 ^ (8 * S n' - 1) -> n = n'.
Proof.
  assert (Haux : forall i j, minimal (S i) a -> a < 2 ^ (8 * S j - 1) -> (i <= j)%nat).
  { intros i j [_ [Hi|Hi]] Ha; [lia|]. destruct (decide (i <= j)%nat) as [|Hij]; [done|]. exfalso.
    assert (2 ^ (8 * S j - 1) <= 2 ^ (8 * S i - 9)) by (apply Z.pow_le_mono_r; lia). lia. }
  intros Hn Hn' Ha Ha'. pose proof (Haux n n' Hn Ha'). pose proof (Haux n' n Hn' ltac:(lia)). lia.
Qed.

Lemma serialize_decodes v :
  sint 64 v -> set_vch (num_serialize v) = Ok v /\ nonminimal (num_serialize v) = false.
Proof.
  intros Hv. destruct (Z.eq_dec v 0) as [->|Hv0]; [done|].
  destruct (Z.eq_dec v INT64_MIN) as [->|Hmin]; [by vm_compute|].
  destruct (num_serialize_spec v Hv Hv0 Hmin) as (n & Hn & Hl & Hok & Hlev & Ha & Hm).
  rewrite (set_vch_spec _ n Hok Hl Hn), Hlev. unfold magnitude, negative.
  destruct (Z.ltb_spec v 0) as [Hneg|Hpos].
  - rewrite <- (Z.mod_unique (Z.abs v + 2 ^ (8 * S n - 1)) (2 ^ (8 * S n - 1)) 1 (Z.abs v)) by lia.
    destruct (Z.leb_spec (2 ^ (8 * S n - 1)) (Z.abs v + 2 ^ (8 * S n - 1))); [|lia]. split; [f_equal; lia|].
    apply (nonminimal_spec _ n Hok Hl Hn). unfold magnitude. rewrite Hlev.
    by rewrite <- (Z.mod_unique (Z.abs v + 2 ^ (8 * S n - 1)) (2 ^ (8 * S n - 1)) 1 (Z.abs v)) by lia.
  - rewrite Z.add_0_r, Z.mod_small by lia. destruct (Z.leb_spec (2 ^ (8 * S n - 1)) (Z.abs v)); [lia|].
    split; [f_equal; lia|]. apply (nonminimal_spec _ n Hok Hl Hn). unfold magnitude. rewrite Hlev, Z.add_0_r, Z.mod_small by lia. done.
Qed.

Lemma decoded_serializes vch v :
  bytes_ok vch -> nonminimal vch = false -> set_vch vch = Ok v -> sint 64 v /\ num_serialize v = vch.
Proof.
  intros Hok Hmin Hv. destruct vch as [|b0 vch0] eqn:Evch; [by injection Hv as <-|].
  rewrite <- Evch in *. destruct (length vch) as [|n] eqn:Hl; [subst vch; discriminate Hl|].
  assert (Hcase : vch = int64_min_vch \/ (n <= 7)%nat).
  { unfold set_vch in Hv. destruct (length_last vch n Hl) as [b Hb]. rewrite Hb in Hv.
    destruct (bool_decide_reflect (vch = int64_min_vch)) as [|_]; [by left|]. right.
    destruct (Z.ltb_spec 8 (length vch)); [done|]. lia. }
  clear Evch. destruct Hcase as [->|Hn]; [injection Hv as <-; by vm_compute|].
  rewrite (set_vch_spec vch n Hok Hl Hn) in Hv. injection Hv as Hv.
  destruct (magnitude_split vch n Hok Hl Hn) as [Hs Ha], (decode_bound vch n Hok Hl Hn) as (_ & _ & _ & H63).
  apply (nonminimal_spec vch n Hok Hl Hn) in Hmin as Hm. set (a := magnitude (S n) (lev 8 vch)) in *.
  assert (Hva : Z.abs v = a /\ (v <? 0) = negative (S n) (lev 8 vch)).
  { destruct Hm as [Ha0 _]. destruct (negative (S n) (lev 8 vch)); lia. }
  destruct Hva as [Hva Hneg].
  assert (Hsv : sint 64 v) by (unfold sint; change (64 - 1) with 63; lia). split; [done|].
  destruct (num_serialize_spec v Hsv) as (n' & Hn' & Hl' & Hok' & Hlev' & Ha' & Hm');
    [destruct Hm; lia|unfold INT64_MIN; lia|]. rewrite Hva in *.
  assert (n = n') as <- by (by apply (minimal_length n n' a)).
  apply (lev_inj 8); [lia|done|done|congruence|]. rewrite Hlev', Hneg. lia.
Qed.

(** *** Parsing *)

Lemma opcode_of_value b : opcode_value (opcode_of b) = b.
Proof.
  unfold opcode_of. destruct (List.find _ _) as [o|] eqn:E; [|done]. apply List.find_some in E as [_ E]. cbn. lia.
Qed.

Lemma GetOp_app pc o d pc' :
  GetOp pc = Some (o, d, pc') -> exists b pre, pc = (b :: pre) ++ d ++ pc' /\ o = opcode_of b
    /\ (opcode_value OP_PUSHDATA4 < b -> d = []).
Proof.
  destruct pc as [|b pc]; [done|]. cbn [GetOp]. destruct (Z.leb_spec b (opcode_value OP_PUSHDATA4)) as [Hb|Hb].
  - match goal with |- context[mbind _ ?r] => destruct r as [[sz rest]|] eqn:E; [|done] end.
    cbn [mbind option_bind]. destruct (to_u32 (length rest) <? sz); [done|].
    intros [= <- <- <-]. assert (Hpre : exists pre, pc = pre ++ rest).
    { repeat case_match; simplify_eq; [by exists []|exists (take 1 pc)|exists (take 2 pc)|exists (take 4 pc)]; by rewrite take_drop. }
    destruct Hpre as [pre ->]. exists b, pre. split_and!; [|done|lia].
    cbn [app]. by rewrite take_drop.
  - intros [= <- <- <-]. by exists b, [].
Qed.

Lemma GetOp_shorter pc o d pc' : GetOp pc = Some (o, d, pc') -> (length d + length pc' < length pc)%nat.
Proof.
  intros (b & pre & -> & _)%GetOp_app. rewrite !length_app. cbn [length]. lia.
Qed.

Lemma take_digits (k : nat) n (t : bytes) : take k (digits 8 k n ++ t) = digits 8 k n.
Proof. rewrite take_app_le by (by rewrite length_digits). by rewrite take_ge by (by rewrite length_digits). Qed.
Lemma drop_digits (k : nat) n (t : bytes) : drop k (digits 8 k n ++ t) = t.
Proof. rewrite drop_app_ge by (by rewrite length_digits). by rewrite length_digits, Nat.sub_diag. Qed.

(** The header of a push: the opcode and the bytes of the length after it. *)
Definition push_header (n : Z) : bytes :=
  if n <? opcode_value OP_PUSHDATA1 then [to_u8 n]
  else if n <=? 0xff then [opcode_value OP_PUSHDATA1; to_u8 n]
  else if n <=? 0xffff then opcode_value OP_PUSHDATA2 :: WriteLE16 n
  else opcode_value OP_PUSHDATA4 :: WriteLE32 n.

(** Reading the header leaves the length and what follows. *)
Lemma GetOp_header n t :
  0 <= n < 2 ^ 32 -> exists x, x <= opcode_value OP_PUSHDATA4 /\ GetOp (push_header n ++ t)
  = (if to_u32 (length t) <? n then None else Some (opcode_of x, take (Z.to_nat n) t, drop (Z.to_nat n) t)).
Proof.
  intros Hn. unfold push_header. change (opcode_value OP_PUSHDATA1) with 0x4c.
  destruct (Z.ltb_spec n 0x4c) as [H1|H1]; [|destruct (Z.leb_spec n 0xff) as [H2|H2]; [|destruct (Z.leb_spec n 0xffff) as [H3|H3]]].
  - exists n. change (opcode_value OP_PUSHDATA4) with 0x4e. split; [lia|]. rewrite wrap_small by (unfold uint; lia). cbn [app GetOp].
    change (opcode_value OP_PUSHDATA4) with 0x4e. change (opcode_value OP_PUSHDATA1) with 0x4c.
    destruct (Z.leb_spec n 0x4e); [|lia]. by destruct (Z.ltb_spec n 0x4c); [|lia].
  - exists 0x4c. split; [done|]. rewrite wrap_small by (unfold uint; lia). cbn [app GetOp]. cbn [opcode_value Z.leb Z.ltb Z.eqb Z.compare Pos.compare Pos.compare_cont Pos.eqb length].
    destruct (Z.ltb_spec (S (length t)) 1); [lia|]. done.
  - exists 0x4d. split; [done|]. cbn [app GetOp]. cbn [opcode_value Z.leb Z.ltb Z.eqb Z.compare Pos.compare Pos.compare_cont Pos.eqb].
    unfold WriteLE16, ReadLE16. rewrite length_app, length_digits, take_digits, drop_digits, lev_digits by lia.
    destruct (Z.ltb_spec (2 + length t)%nat 2); [lia|]. cbn [mbind option_bind]. rewrite Z.mod_small; [done|]. change (2 ^ (8 * 2%nat)) with 65536. lia.
  - exists 0x4e. split; [done|]. cbn [app GetOp]. cbn [opcode_value Z.leb Z.ltb Z.eqb Z.compare Pos.compare Pos.compare_cont Pos.eqb].
    unfold WriteLE32, ReadLE32. rewrite length_app, length_digits, take_digits, drop_digits, lev_digits by lia.
    destruct (Z.ltb_spec (4 + length t)%nat 4); [lia|]. cbn [mbind option_bind]. rewrite Z.mod_small; [done|]. change (2 ^ (8 * 4%nat)) with (2 ^ 32). lia.
Qed.

(** A pushed vector reads back, whatever follows it. *)
Lemma GetOp_push s b rest :
  length (b ++ rest) < 2 ^ 32 ->
  exists h o, push_data s b ++ rest = s ++ h ++ b ++ rest /\ GetOp (h ++ b ++ rest) = Some (o, b, rest) /\ op_le o OP_PUSHDATA4 = true.
Proof.
  intros Hlen. rewrite length_app in Hlen. exists (push_header (length b)).
  destruct (GetOp_header (length b) (b ++ rest)) as (x & Hx & ->); [lia|]. exists (opcode_of x).
  split; [unfold push_data; by rewrite <- !app_assoc|].
  rewrite length_app, wrap_small by (unfold uint; lia).
  destruct (Z.ltb_spec (length b + length rest)%nat (length b)); [lia|]. rewrite Nat2Z.id, take_app_length, drop_app_length.
  split; [done|]. unfold op_le. rewrite opcode_of_value. lia.
Qed.

(** ** Counting and scanning *)

(** A script built by pushing vectors. *)
Definition push_all (l : list bytes) : CScript := foldl push_data [] l.

Lemma push_data_app s b : push_data s b = s ++ push_data [] b.
Proof. unfold push_data. by rewrite app_nil_l. Qed.

Lemma foldl_push s l : foldl push_data s l = s ++ push_all l.
Proof.
  unfold push_all. revert s. induction l as [|b l IH]; intros s; cbn [foldl]; [by rewrite app_nil_r|].
  rewrite IH, (IH (push_data [] b)), push_data_app. by rewrite app_assoc.
Qed.

Lemma push_all_cons b l : push_all (b :: l) = push_data [] b ++ push_all l.
Proof. unfold push_all. cbn [foldl]. apply foldl_push. Qed.

Lemma op_le_16 o : op_le o OP_PUSHDATA4 = true -> op_gt o OP_16 = false.
Proof. unfold op_le, op_gt. cbn. lia. Qed.

(** Both scanning loops on a pushed script; [d0] is the vector read before. *)
Lemma scan_push_all l (fuel : nat) d0 :
  (length (push_all l) <= fuel)%nat -> Z.of_nat (length (push_all l)) < 2 ^ 32 ->
  push_only_loop fuel (push_all l) = true /\ last_push fuel d0 (push_all l) = Some (default d0 (last l)).
Proof.
  revert fuel d0. induction l as [|b l IH]; intros fuel d0 Hf Hlen; [by destruct fuel|].
  rewrite push_all_cons in *.
  assert (Hb : length (b ++ push_all l) < 2 ^ 32).
  { rewrite length_app in *. unfold push_data in Hlen. rewrite !length_app in Hlen. lia. }
  destruct (GetOp_push [] b (push_all l) Hb) as (h & o & Happ & Hget & Ho). cbn [app] in Happ. rewrite Happ in *.
  pose proof (GetOp_shorter _ _ _ _ Hget) as Hs.
  destruct fuel as [|fuel]; [lia|].
  destruct (h ++ b ++ push_all l) as [|x pc] eqn:Epc; [done|].
  cbn [push_only_loop last_push]. rewrite Hget, (op_le_16 o Ho).
  destruct (IH fuel b) as [-> ->]; [lia|lia|]. split; [done|]. rewrite last_cons. by destruct (last l).
Qed.

(** A step of the counting loop adds at most twenty, and the accurate count at
    most the other. *)
Lemma sigop_loop_bounds (fuel : nat) pc n n' lo :
  0 <= n <= n' -> n' + 20 * length pc < 2 ^ 32 ->
  exists r r', sigop_loop fuel true n lo pc = Ok r /\ sigop_loop fuel false n' lo pc = Ok r'
    /\ n <= r <= r' /\ r' <= n' + 20 * length pc.
Proof.
  revert pc n n' lo. induction fuel as [|fuel IH]; intros pc n n' lo Hn Hb.
  { exists n, n'. cbn [sigop_loop]. split_and!; [done|done|lia|lia|lia]. }
  destruct pc as [|x pc0] eqn:Epc; [exists n, n'; cbn; split_and!; [done|done|lia|lia|lia]|].
  cbn [sigop_loop]. rewrite <- Epc in *. destruct (GetOp pc) as [[[o d] pc']|] eqn:Hget; [|exists n, n'; split_and!; [done|done|lia|lia|lia]].
  pose proof (GetOp_shorter _ _ _ _ Hget) as Hs. clear Epc.
  assert (Hstep : forall k k', 0 <= k <= k' -> k' <= 20 ->
    exists r r', sigop_loop fuel true (n + k) o pc' = Ok r /\ sigop_loop fuel false (n' + k') o pc' = Ok r'
      /\ n <= r <= r' /\ r' <= n' + 20 * length pc).
  { intros k k' Hk Hk'. destruct (IH pc' (n + k) (n' + k') o) as (r & r' & ? & ? & ? & ?); [lia|lia|].
    exists r, r'. split_and!; [done|done|lia|lia|lia]. }
  assert (Hw : forall z k, 0 <= z <= n' -> 0 <= k <= 20 -> to_u32 (z + k) = z + k) by (intros; apply wrap_small; unfold uint; lia).
  pose proof (Hstep 0 0 ltac:(lia) ltac:(lia)) as H0. rewrite !Z.add_0_r in H0.
  destruct o; cbn [bindR]; try exact H0.
  1-2: rewrite !Hw by lia; apply Hstep; lia.
  all: cbn [andb]; rewrite (Hw n' 20) by lia;
    destruct (op_le OP_1 lo && op_le lo OP_16) eqn:Elo; [|cbn [bindR]; rewrite Hw by lia; apply Hstep; lia];
    unfold DecodeOP_N; rewrite Elo;
    replace (op_eqb lo OP_0) with false by (unfold op_le, op_eqb in *; cbn in *; lia); cbn [bindR];
    rewrite Hw by (unfold op_le in *; cbn in *; lia); apply Hstep; unfold op_le in *; cbn in *; lia.
Qed.

(** The bound on the passes is never what ends a loop. *)
Lemma scan_fuel (fuel fuel' : nat) pc :
  (length pc <= fuel)%nat -> (length pc <= fuel')%nat ->
  (forall acc n lo, sigop_loop fuel acc n lo pc = sigop_loop fuel' acc n lo pc)
  /\ push_only_loop fuel pc = push_only_loop fuel' pc /\ forall d, last_push fuel d pc = last_push fuel' d pc.
Proof.
  revert fuel' pc. induction fuel as [|fuel IH]; intros fuel' pc Hf Hf'.
  { destruct pc; [|cbn in Hf; lia]. by destruct fuel'. }
  destruct pc as [|x pc]; [by destruct fuel'|]. destruct fuel' as [|fuel']; [cbn in Hf'; lia|].
  cbn [sigop_loop push_only_loop last_push]. destruct (GetOp (x :: pc)) as [[[o d] pc']|] eqn:Hget; [|done].
  pose proof (GetOp_shorter _ _ _ _ Hget) as Hs. cbn [length] in *.
  destruct (IH fuel' pc') as (H1 & H2 & H3); [lia|lia|]. split_and!.
  - intros acc n lo. match goal with |- bindR ?m _ = _ => destruct m as [k|]; [apply H1|done] end.
  - by rewrite H2.
  - intros _. by rewrite H3.
Qed.

(** ** Templates *)

Definition p2sh_script (h : bytes) : CScript := [opcode_value OP_HASH160; 0x14] ++ h ++ [opcode_value OP_EQUAL].
Definition p2pkh_script (h : bytes) : CScript :=
  [opcode_value OP_DUP; opcode_value OP_HASH160; 0x14] ++ h ++ [opcode_value OP_EQUALVERIFY; opcode_value OP_CHECKSIG].

(** Enumerate a list whose length is known in a hypothesis. *)
Ltac list_cases l :=
  repeat (let x := fresh "x" in destruct l as [|x l]; [discriminate|]); destruct l; [|discriminate].

Lemma p2sh_spec s : IsPayToScriptHash s = true <-> exists h, length h = 20%nat /\ s = p2sh_script h.
Proof.
  split.
  - unfold IsPayToScriptHash. rewrite !andb_true_iff, !Z.eqb_eq. intros (((Hl & H0) & H1) & H22).
    assert (Hl' : length s = 23%nat) by lia. list_cases s. cbn [nth] in *. subst.
    eexists [_; _; _; _; _; _; _; _; _; _; _; _; _; _; _; _; _; _; _; _]. split; reflexivity.
  - intros (h & Hl & ->). list_cases h. reflexivity.
Qed.

Lemma p2pkh_spec s : IsPayToPublicKeyHash s = true <-> exists h, length h = 20%nat /\ s = p2pkh_script h.
Proof.
  split.
  - unfold IsPayToPublicKeyHash. rewrite !andb_true_iff, !Z.eqb_eq. intros (((((Hl & H0) & H1) & H2) & H23) & H24).
    assert (Hl' : length s = 25%nat) by lia. list_cases s. cbn [nth] in *. subst.
    eexists [_; _; _; _; _; _; _; _; _; _; _; _; _; _; _; _; _; _; _; _]. split; reflexivity.
  - intros (h & Hl & ->). list_cases h. reflexivity.
Qed.

(** ** Properties *)

(** C36: script numbers are a canonical code.  The serialization of any
    [int64_t] decodes to it, with or without the minimality rule, and a byte
    string accepted under the minimality rule is the serialization of the
    number it decodes to, so no number has two accepted encodings.  Four bytes,
    the operand size of arithmetic opcodes, hold exactly the numbers of
    magnitude below [2^31]. *)
Theorem scriptnum_canonical v vch nMax fRequireMinimal :
  sint 64 v -> bytes_ok vch ->
  (length (num_serialize v) <= nMax -> CScriptNum_of (num_serialize v) fRequireMinimal nMax = Ok v)
  /\ (forall w, CScriptNum_of vch true nMax = Ok w -> num_serialize w = vch)
  /\ (length (num_serialize v) <= nDefaultMaxNumSize <-> Z.abs v < 2 ^ 31).
Proof.
  intros Hv Hok. split_and!.
  - intros Hl. destruct (serialize_decodes v Hv) as [Hd Hm]. rewrite CScriptNum_of_unfold, Hd, Hm, andb_false_r.
    destruct (Z.ltb_spec nMax (length (num_serialize v))); [lia|done].
  - intros w Hw. rewrite CScriptNum_of_unfold in Hw. destruct (negb (nMax <? length vch)); [|done].
    cbn [andb] in Hw. destruct (nonminimal vch) eqn:Hm; [done|]. by apply (decoded_serializes vch w).
  - unfold nDefaultMaxNumSize. destruct (Z.eq_dec v 0) as [->|Hv0]; [done|].
    destruct (Z.eq_dec v INT64_MIN) as [->|Hmin]; [done|].
    destruct (num_serialize_spec v Hv Hv0 Hmin) as (n & Hn & -> & _ & _ & Ha & _ & Hm). split.
    + intros Hl. eapply Z.lt_le_trans; [apply Ha|]. apply Z.pow_le_mono_r; lia.
    + intros Hb. destruct (decide (n <= 3)%nat) as [|Hn3]; [lia|]. exfalso. destruct Hm as [|Hm]; [lia|].
      assert (2 ^ 31 <= 2 ^ (8 * S n - 9)) by (apply Z.pow_le_mono_r; lia). lia.
Qed.

Lemma scriptnum_canonical_witness :
  CScriptNum_of (num_serialize (-255)) true 4 = Ok (-255) /\ num_serialize (-1) = [0x81].
Proof.
  split.
  - apply (scriptnum_canonical (-255) [0x81] 4 true); [by vm_compute|by repeat constructor|by vm_compute].
  - destruct (scriptnum_canonical (-255) [0x81] 4 true) as (_ & H & _); [by vm_compute|by repeat constructor|].
    apply H. by vm_compute.
Defined.

(** A script assembled with [operator<<] from byte vectors parses back: the
    first instruction is the first vector with the rest of the script after
    it, the script is push-only, and its last push, which pay-to-script-hash
    evaluation takes as the inner script, is the last vector. The two templates
    are recognised exactly, and [AddressHash] recovers the hash in them. *)
Theorem script_push_parse b l h s :
  Z.of_nat (length (push_all (b :: l))) < 2 ^ 32 -> length h = 20%nat ->
  (exists o, GetOp (push_all (b :: l)) = Some (o, b, push_all l) /\ op_gt o OP_16 = false)
  /\ IsPushOnly (push_all (b :: l)) = true
  /\ GetSigOpCount_p2sh (p2sh_script h) (push_all (b :: l)) = GetSigOpCount (default b (last l)) true
  /\ (GetType s = P2SH <-> exists h', length h' = 20%nat /\ s = p2sh_script h')
  /\ (GetType s = P2PKH <-> exists h', length h' = 20%nat /\ s = p2pkh_script h')
  /\ AddressHash (p2sh_script h) = h /\ AddressHash (p2pkh_script h) = h.
Proof.
  intros Hlen Hh. destruct (scan_push_all (b :: l) (length (push_all (b :: l))) []) as [Hpush Hlast]; [done|done|].
  split_and!.
  - rewrite push_all_cons in *. assert (Hb : length (b ++ push_all l) < 2 ^ 32).
    { unfold push_data in Hlen. rewrite !length_app in *. lia. }
    destruct (GetOp_push [] b (push_all l) Hb) as (hd & o & Happ & Hget & Ho). cbn [app] in Happ. rewrite Happ.
    exists o. split; [done|]. by apply op_le_16.
  - done.
  - unfold GetSigOpCount_p2sh. assert (IsPayToScriptHash (p2sh_script h) = true) as -> by (apply p2sh_spec; by exists h).
    cbn [negb]. rewrite Hlast, last_cons. by destruct (last l).
  - rewrite <- p2sh_spec. unfold GetType. destruct (IsPayToPublicKeyHash s) eqn:E1; [|by destruct (IsPayToScriptHash s)].
    apply p2pkh_spec in E1 as (h' & Hh' & ->). list_cases h'. done.
  - rewrite <- p2pkh_spec. unfold GetType. destruct (IsPayToPublicKeyHash s); [done|]. by destruct (IsPayToScriptHash s).
  - list_cases h. reflexivity.
  - list_cases h. reflexivity.
Qed.

Lemma script_push_parse_witness :
  IsPushOnly (push_all [[1; 2]; replicate 80 7]) = true
  /\ GetSigOpCount_p2sh (p2sh_script (replicate 20 0)) (push_all [[1; 2]; [0xac]]) = Ok 1.
Proof.
  split.
  - apply (script_push_parse [1; 2] [replicate 80 7] (replicate 20 0) []); by vm_compute.
  - destruct (script_push_parse [1; 2] [[0xac]] (replicate 20 0) []) as (_ & _ & -> & _); by vm_compute.
Defined.

(** The scans of a script end and count safely. Every pass of the loops
    consumes a byte, so any larger bound on the passes gives the same result;
    the counts never fail the assertion of [DecodeOP_N] nor wrap, the accurate
    count is at most the legacy one, and that is at most twenty per byte. *)
Theorem script_scans_terminate s (fuel : nat) :
  20 * Z.of_nat (length s) < 2 ^ 32 -> (length s <= fuel)%nat ->
  (exists n n', GetSigOpCount s true = Ok n /\ GetSigOpCount s false = Ok n'
     /\ 0 <= n <= n' /\ n' <= 20 * length s)
  /\ (forall acc, sigop_loop fuel acc 0 OP_INVALIDOPCODE s = GetSigOpCount s acc)
  /\ push_only_loop fuel s = IsPushOnly s
  /\ (forall pc o d pc', GetOp pc = Some (o, d, pc') -> (length d + length pc' < length pc)%nat).
Proof.
  intros Hl Hf. destruct (scan_fuel fuel (length s) s Hf ltac:(lia)) as (H1 & H2 & _). split_and!.
  - destruct (sigop_loop_bounds (length s) s 0 0 OP_INVALIDOPCODE) as (n & n' & Hn & Hn' & Hle & Hb); [lia|lia|].
    exists n, n'. split_and!; [done|done|lia|lia|lia].
  - intros acc. apply H1.
  - apply H2.
  - intros pc o d pc'. apply GetOp_shorter.
Qed.

Lemma script_scans_terminate_witness :
  exists n n', GetSigOpCount [0x52; 0xae; 0xac] true = Ok n /\ GetSigOpCount [0x52; 0xae; 0xac] false = Ok n' /\ n <= n'.
Proof.
  destruct (script_scans_terminate [0x52; 0xae; 0xac] 3) as ((n & n' & H1 & H2 & H3 & _) & _); [by vm_compute|by vm_compute|].
  exists n, n'. split_and!; [exact H1|exact H2|apply H3].
Defined.
