(* ===== verification/Address.v ===== *)
(** * Address encodings (src/base58.cpp, key_io.cpp, script/standard.cpp,
    chainparams.cpp)

    Base-58 strings with and without a checksum, the transparent addresses they
    spell and the scripts these stand for. A [std::string] is the list of its
    characters; the buffer of a conversion is kept with its last element
    first, the order in which the loops run through it. *)

From S2P Require Import Prelude Serialize Digest Sha Ripemd Hash Amount Transaction Params Script.
Local Open Scope Z_scope.
Local Open Scope code_scope.

(** ** Definitions *)

(** [pszBase58]. *)
Definition pszBase58 : bytes := ascii_bytes "123456789ABCDEFGHJKLMNPQRSTUVWXYZabcdefghijkmnopqrstuvwxyz".

Definition isspace (c : Z) : bool := (c =? 32) || ((9 <=? c) && (c <=? 13)).
Fixpoint skip_while (p : Z -> bool) (l : bytes) : bytes :=
  match l with c :: rest => if p c then skip_while p rest else l | [] => [] end.
(** [strchr] as an offset. *)
Fixpoint strchr (s : bytes) (c : Z) : option nat :=
  match s with [] => None | x :: s => if x =? c then Some 0%nat else S <$> strchr s c end.

Inductive base58_error := not_base58 (* returns false *) | carry_assert.

(** The loop that multiplies the number in the buffer and adds to it. *)
Fixpoint mul_add (base mult carry : Z) (buffer : list Z) : list Z * Z :=
  match buffer with
  | [] => ([], carry)
  | d :: buffer =>
      let carry := carry + mult * d in
      let '(buffer, last) := mul_add base mult (carry / base) buffer in
      (carry mod base :: buffer, last)
  end.

Fixpoint decode_chars (b256 : list Z) (psz : bytes) : result base58_error (list Z * bytes) :=
  match psz with
  | [] => Ok (b256, [])
  | c :: rest =>
      if isspace c then Ok (b256, psz)
      else
        match strchr pszBase58 c with
        | None => Err not_base58
        | Some ch =>
            let '(b256, carry) := mul_add 256 58 ch b256 in
            require carry =? 0 orelse carry_assert in
            decode_chars b256 rest
        end
  end.
Definition DecodeBase58 (psz : bytes) : result base58_error bytes :=
  let psz := skip_while isspace psz in
  let rest := skip_while (Z.eqb 0x31) psz in
  let zeroes := (length psz - length rest)%nat in
  let* (b256, psz) := decode_chars (replicate (length rest * 733 / 1000 + 1)%nat 0) rest in
  match skip_while isspace psz with
  | [] => Ok (replicate zeroes 0 ++ skip_while (Z.eqb 0) (rev b256))
  | _ => Err not_base58
  end.

Fixpoint encode_bytes (b58 : list Z) (bs : bytes) : result base58_error (list Z) :=
  match bs with
  | [] => Ok b58
  | b :: bs =>
      let '(b58, carry) := mul_add 58 256 b b58 in
      require carry =? 0 orelse carry_assert in
      encode_bytes b58 bs
  end.
Definition EncodeBase58 (bs : bytes) : result base58_error bytes :=
  let rest := skip_while (Z.eqb 0) bs in
  let zeroes := (length bs - length rest)%nat in
  let* b58 := encode_bytes (replicate (length rest * 138 / 100 + 1)%nat 0) rest in
  Ok (replicate zeroes 0x31 ++ map (fun d => nth (Z.to_nat d) pszBase58 0) (skip_while (Z.eqb 0) (rev b58))).

(** A C string ends at its first null character. *)
Fixpoint c_str (str : bytes) : bytes :=
  match str with [] => [] | c :: str => if c =? 0 then [] else c :: c_str str end.

Definition EncodeBase58Check (vchIn : bytes) : result base58_error bytes :=
  EncodeBase58 (vchIn ++ take 4 (Hash vchIn)).
Definition DecodeBase58Check (str : bytes) : result base58_error bytes :=
  let* vchRet := DecodeBase58 (c_str str) in
  require negb (length vchRet <? 4)%nat orelse not_base58 in
  let body := take (length vchRet - 4) vchRet in
  require bool_decide (take 4 (Hash body) = drop (length vchRet - 4) vchRet) orelse not_base58 in
  Ok body.

(** *** Destinations *)

Inductive CTxDestination := CNoDestination | CKeyID (id : bytes) | CScriptID (id : bytes).
Definition IsValidDestination (dest : CTxDestination) : bool := match dest with CNoDestination => false | _ => true end.
Definition IsScriptDestination (dest : CTxDestination) : bool := match dest with CScriptID _ => true | _ => false end.

(** The prefixes of [KeyConstants] for transparent addresses. *)
Record Base58Prefix := Prefixes { PUBKEY_ADDRESS : bytes; SCRIPT_ADDRESS : bytes }.
Definition main_prefixes : Base58Prefix := Prefixes [0x1C; 0xB8] [0x1C; 0xBD].
Definition test_prefixes : Base58Prefix := Prefixes [0x1D; 0x25] [0x1C; 0xBA].

Definition EncodeDestination (keyConstants : Base58Prefix) (dest : CTxDestination) : result base58_error bytes :=
  match dest with
  | CKeyID id => EncodeBase58Check (PUBKEY_ADDRESS keyConstants ++ id)
  | CScriptID id => EncodeBase58Check (SCRIPT_ADDRESS keyConstants ++ id)
  | CNoDestination => Ok []
  end.
Definition has_prefix (prefix data : bytes) : bool :=
  (length data =? 20 + length prefix)%nat && bool_decide (take (length prefix) data = prefix).
Definition DecodeDestination (keyConstants : Base58Prefix) (str : bytes) : result base58_error CTxDestination :=
  match DecodeBase58Check str with
  | Ok data =>
      Ok (if has_prefix (PUBKEY_ADDRESS keyConstants) data then CKeyID (drop (length (PUBKEY_ADDRESS keyConstants)) data)
          else if has_prefix (SCRIPT_ADDRESS keyConstants) data then CScriptID (drop (length (SCRIPT_ADDRESS keyConstants)) data)
          else CNoDestination)
  | Err not_base58 => Ok CNoDestination
  | Err e => Err e
  end.

(** [script << a << b ...] *)
Definition GetScriptForDestination (dest : CTxDestination) : result script_exn CScript :=
  match dest with
  | CNoDestination => Ok []
  | CKeyID keyID =>
      let* s := push_opcode [] OP_DUP in
      let* s := push_opcode s OP_HASH160 in
      let* s := push_opcode (push_data s keyID) OP_EQUALVERIFY in
      push_opcode s OP_CHECKSIG
  | CScriptID scriptID =>
      let* s := push_opcode [] OP_HASH160 in
      push_opcode (push_data s scriptID) OP_EQUAL
  end.

(** The script of the community fee; an assertion that fails, or an exception,
    is an error of the parameters. *)
Definition GetCommunityFeeScriptAtHeight (keyConstants : Base58Prefix) (params : CChainParams) (nHeight : Z)
  : result param_error CScript :=
  require (0 <? nHeight) && (nHeight <=? GetLastCommunityFeeBlockHeight (consensus params)) orelse ParamAssert in
  let* str := GetCommunityFeeAddressAtHeight params nHeight in
  match DecodeDestination keyConstants (c_str (ascii_bytes str)) with
  | Ok (CScriptID scriptID) =>
      match (let* s := push_opcode [] OP_HASH160 in push_opcode (push_data s scriptID) OP_EQUAL) with
      | Ok s => Ok s
      | Err _ => Err ParamAssert
      end
  | _ => Err ParamAssert
  end.

(** ** Numbers in a base *)

(** The value of a list of digits, most significant first. *)
Fixpoint bval (B : Z) (acc : Z) (l : list Z) : Z :=
  match l with [] => acc | d :: l => bval B (acc * B + d) l end.
Abbreviation digits_in B := (Forall (fun d => 0 <= d < B)).
Definition leading (l : list Z) : Prop := match l with 0 :: _ => False | _ => True end.

Section bases.
Context (B : Z) (HB : 1 < B).

Lemma pow_pos_base (n : nat) : 0 < B ^ n.
Proof. apply Z.pow_pos_nonneg; lia. Qed.
Lemma bval_acc acc l : bval B acc l = acc * B ^ length l + bval B 0 l.
Proof.
  revert acc. induction l as [|d l IH]; intros acc; cbn [bval length]; [lia|]. rewrite IH, (IH (0 * B + d)).
  rewrite Nat2Z.inj_succ, Z.pow_succ_r by lia. ring.
Qed.
Lemma bval_app l l' : bval B 0 (l ++ l') = bval B 0 l * B ^ length l' + bval B 0 l'.
Proof.
  assert (Hg : forall acc, bval B acc (l ++ l') = bval B (bval B acc l) l').
  { induction l as [|d l IH]; intros acc; [done|]. cbn [app bval]. apply IH. }
  rewrite Hg. apply bval_acc.
Qed.
Lemma bval_bound l : digits_in B l -> 0 <= bval B 0 l < B ^ length l.
Proof.
  induction 1 as [|d l Hd _ IH]; [cbn; lia|]. cbn [bval length]. rewrite bval_acc, Nat2Z.inj_succ, Z.pow_succ_r by lia. nia.
Qed.
Lemma bval_zeros n l : bval B 0 (replicate n 0 ++ l) = bval B 0 l.
Proof. induction n as [|n IH]; [done|]. cbn [replicate app bval]. by rewrite Z.mul_0_l. Qed.

Lemma bval_inj l l' : digits_in B l -> digits_in B l' -> length l = length l' -> bval B 0 l = bval B 0 l' -> l = l'.
Proof.
  intros Hl. revert l'. induction Hl as [|d l Hd Hl IH]; intros [|d' l'] Hl' Hlen Hv; try done.
  apply Forall_cons in Hl' as [Hd' Hl']. injection Hlen as Hlen. cbn [bval] in Hv. rewrite (bval_acc (0 * B + d)), (bval_acc (0 * B + d')) in Hv.
  pose proof (bval_bound l Hl) as H1. pose proof (bval_bound l' Hl') as H2. rewrite Hlen in *.
  pose proof (pow_pos_base (length l')). assert (d = d') as -> by nia. f_equal. apply IH; [done..|]. nia.
Qed.
(** Without leading zeros the digits of a number are determined. *)
Lemma bval_canonical l l' :
  digits_in B l -> digits_in B l' -> leading l -> leading l' -> bval B 0 l = bval B 0 l' -> l = l'.
Proof.
  assert (Hlow : forall l, digits_in B l -> leading l -> l <> [] -> B ^ (length l - 1)%nat <= bval B 0 l).
  { intros k Hk Hh Hn. destruct k as [|d k]; [done|]. apply Forall_cons in Hk as [Hd Hk]. cbn [bval length]. rewrite bval_acc.
    replace (S (length k) - 1)%nat with (length k) by lia. pose proof (bval_bound k Hk). pose proof (pow_pos_base (length k)).
    assert (d <> 0) by (intros ->; done). nia. }
  assert (Hle : forall l l', digits_in B l -> digits_in B l' -> leading l -> bval B 0 l = bval B 0 l' -> (length l <= length l')%nat).
  { intros k k' Hk Hk' Hh Hv. destruct (decide (k = [])) as [->|Hn]; [cbn; lia|]. specialize (Hlow k Hk Hh Hn).
    destruct (decide (length k <= length k')%nat); [done|]. pose proof (bval_bound k' Hk').
    assert (B ^ length k' <= B ^ (length k - 1)%nat) by (apply Z.pow_le_mono_r; lia). lia. }
  intros Hl Hl' Hh Hh' Hv. pose proof (Hle l l' Hl Hl' Hh Hv). pose proof (Hle l' l Hl' Hl Hh' (eq_sym Hv)). apply bval_inj; try done. lia.
Qed.

Lemma strip_zeros l :
  exists n, l = replicate n 0 ++ skip_while (Z.eqb 0) l /\ leading (skip_while (Z.eqb 0) l).
Proof.
  induction l as [|d l (n & He & Hl)]; [by exists 0%nat|]. cbn [skip_while]. destruct (Z.eqb_spec 0 d) as [<-|Hd].
  - exists (S n). split; [|done]. cbn [replicate app]. by rewrite He at 1.
  - exists 0%nat. split; [done|]. by destruct d.
Qed.
Lemma skip_leading l : leading l -> skip_while (Z.eqb 0) l = l.
Proof. destruct l as [|d l]; [done|]. cbn [skip_while]. intros Hl. by destruct (Z.eqb_spec 0 d) as [<-|]. Qed.
Lemma skip_zeros n l : leading l -> skip_while (Z.eqb 0) (replicate n 0 ++ l) = l.
Proof. intros Hl. induction n as [|n IH]; [by apply skip_leading|done]. Qed.

(** One pass over the buffer multiplies and adds. *)
Lemma mul_add_spec mult carry buf buf' last :
  0 <= carry -> 0 <= mult -> digits_in B buf -> mul_add B mult carry buf = (buf', last) ->
  length buf' = length buf /\ digits_in B buf' /\ 0 <= last
  /\ bval B 0 (rev buf') + B ^ length buf * last = mult * bval B 0 (rev buf) + carry.
Proof.
  intros Hc Hm Hb. revert carry buf' last Hc. induction Hb as [|d buf Hd Hb IH]; intros carry buf' last Hc He; cbn [mul_add] in He.
  - injection He as <- <-. cbn [length rev bval]. split_and!; [done|constructor|done|]. change (B ^ 0%nat) with 1. lia.
  - destruct (mul_add B mult ((carry + mult * d) / B) buf) as [b l] eqn:E. injection He as <- <-.
    destruct (IH ((carry + mult * d) / B) b l) as (Hl & Hdig & Hlast & Hv); [apply Z.div_pos; nia|done|].
    pose proof (Z.mod_pos_bound (carry + mult * d) B ltac:(lia)). split_and!; [cbn; by rewrite Hl|by constructor|done|].
    cbn [rev length]. rewrite !bval_app. cbn [length bval]. rewrite !Nat2Z.inj_succ, !Z.pow_succ_r by lia.
    change (B ^ 0%nat) with 1. pose proof (Z.div_mod (carry + mult * d) B ltac:(lia)). apply (f_equal (Z.mul B)) in Hv. lia.
Qed.

(** When the result fits, no carry is left. *)
Lemma mul_add_fits mult carry buf :
  0 <= carry -> 0 <= mult -> digits_in B buf -> mult * bval B 0 (rev buf) + carry < B ^ length buf ->
  exists buf', mul_add B mult carry buf = (buf', 0) /\ length buf' = length buf /\ digits_in B buf'
    /\ bval B 0 (rev buf') = mult * bval B 0 (rev buf) + carry.
Proof.
  intros Hc Hm Hb Hf. destruct (mul_add B mult carry buf) as [buf' last] eqn:E.
  destruct (mul_add_spec mult carry buf buf' last Hc Hm Hb E) as (Hl & Hd & Hlast & Hv).
  pose proof (bval_bound (rev buf') ltac:(by apply Forall_rev)) as Hbd. pose proof (pow_pos_base (length buf)).
  assert (last = 0) as -> by nia. exists buf'. split_and!; try done. lia.
Qed.
End bases.

(** The sizes of the buffers are large enough. *)
Lemma base58_buffer (n : nat) : 256 ^ n <= 58 ^ (n * 138 / 100 + 1)%nat.
Proof.
  set (k := (n * 138 / 100 + 1)%nat). assert (Hk : (138 * n <= 100 * k)%nat).
  { unfold k. pose proof (Nat.div_mod_eq (n * 138) 100). pose proof (Nat.mod_upper_bound (n * 138) 100). lia. }
  assert (H5 : (256 ^ n) ^ 5 <= (58 ^ k) ^ 5).
  { rewrite <- !Z.pow_mul_r by lia. change 256 with (2 ^ 8). rewrite <- Z.pow_mul_r by lia. transitivity (2 ^ (29 * k)).
    - apply Z.pow_le_mono_r; lia.
    - rewrite (Z.mul_comm k 5), !Z.pow_mul_r by lia. apply Z.pow_le_mono_l. split; [lia|]. by vm_compute. }
  destruct (Z.le_gt_cases (256 ^ n) (58 ^ k)) as [?|Hgt]; [done|]. exfalso.
  pose proof (Z.pow_lt_mono_l (58 ^ k) (256 ^ n) 5 ltac:(lia)). pose proof (Z.pow_nonneg 58 k). lia.
Qed.
Lemma base256_buffer (n : nat) : 58 ^ n <= 256 ^ (n * 733 / 1000 + 1)%nat.
Proof.
  set (k := (n * 733 / 1000 + 1)%nat). assert (Hk : (733 * n <= 1000 * k)%nat).
  { unfold k. pose proof (Nat.div_mod_eq (n * 733) 1000). pose proof (Nat.mod_upper_bound (n * 733) 1000). lia. }
  assert (H50 : (58 ^ n) ^ 50 <= (256 ^ k) ^ 50).
  { rewrite <- !Z.pow_mul_r by lia. change 256 with (2 ^ 8). rewrite <- Z.pow_mul_r by lia. transitivity (2 ^ (293 * n)).
    - rewrite (Z.mul_comm n 50), !Z.pow_mul_r by lia. apply Z.pow_le_mono_l. split; [lia|]. by vm_compute.
    - apply Z.pow_le_mono_r; lia. }
  destruct (Z.le_gt_cases (58 ^ n) (256 ^ k)) as [?|Hgt]; [done|]. exfalso.
  pose proof (Z.pow_lt_mono_l (256 ^ k) (58 ^ n) 50 ltac:(lia)). pose proof (Z.pow_nonneg 256 k). lia.
Qed.

(** ** The alphabet *)

Definition char58 (d : Z) : Z := nth (Z.to_nat d) pszBase58 0.

Lemma digit_cases (P : Z -> bool) d : forallb P (seqZ 0 58) = true -> 0 <= d < 58 -> P d = true.
Proof. intros H Hd. eapply forallb_forall in H; [exact H|]. apply list_elem_of_In, elem_of_seqZ. lia. Qed.
Lemma char58_strchr d : 0 <= d < 58 -> strchr pszBase58 (char58 d) = Some (Z.to_nat d).
Proof.
  intros Hd. pose proof (digit_cases (fun d => match strchr pszBase58 (char58 d) with Some n => Nat.eqb n (Z.to_nat d) | None => false end)
    d ltac:(by vm_compute) Hd) as Hc. cbn beta in Hc. destruct (strchr _ _) as [n|]; [|done]. f_equal. by apply Nat.eqb_eq.
Qed.
Lemma char58_plain d : 0 <= d < 58 -> isspace (char58 d) = false /\ char58 d <> 0 /\ (char58 d = 0x31 -> d = 0).
Proof.
  intros Hd. assert (H : negb (isspace (char58 d)) && negb (char58 d =? 0) && ((d =? 0) || negb (char58 d =? 0x31)) = true).
  { apply (digit_cases (fun d => negb (isspace (char58 d)) && negb (char58 d =? 0) && ((d =? 0) || negb (char58 d =? 0x31)))); [by vm_compute|done]. }
  rewrite !andb_true_iff, orb_true_iff, !negb_true_iff, Z.eqb_eq, !Z.eqb_neq in H. destruct H as [[? ?] H]. split_and!; [done..|]. intros He. by destruct H.
Qed.
Lemma strchr_char58 c n : strchr pszBase58 c = Some n -> (n < 58)%nat /\ char58 n = c.
Proof.
  unfold char58. rewrite Nat2Z.id. change 58%nat with (length pszBase58). generalize pszBase58 as s. intros s. revert n.
  induction s as [|x s IH]; intros n Hn; [done|]. cbn [strchr] in Hn. destruct (Z.eqb_spec x c) as [->|Hx].
  - injection Hn as <-. cbn. split; [lia|done].
  - destruct (strchr s c) as [k|] eqn:E; [|done]. cbn in Hn. injection Hn as <-. destruct (IH k eq_refl). cbn. split; [lia|done].
Qed.

(** ** The loops *)

Lemma encode_bytes_spec b58 bs :
  digits_in 58 b58 -> bytes_ok bs -> bval 256 (bval 58 0 (rev b58)) bs < 58 ^ length b58 ->
  exists b58', encode_bytes b58 bs = Ok b58' /\ digits_in 58 b58' /\ bval 58 0 (rev b58') = bval 256 (bval 58 0 (rev b58)) bs.
Proof.
  intros Hd Hb. revert b58 Hd. induction Hb as [|b bs Hb0 Hb IH]; intros b58 Hd Hf; [by exists b58|]. cbn [encode_bytes bval] in *.
  pose proof (bval_bound 58 ltac:(lia) (rev b58) ltac:(by apply Forall_rev)) as Hv.
  assert (Hle : 256 * bval 58 0 (rev b58) + b <= bval 256 (bval 58 0 (rev b58) * 256 + b) bs).
  { rewrite (bval_acc 256 _ bs). pose proof (bval_bound 256 ltac:(lia) bs Hb). pose proof (pow_pos_base 256 ltac:(lia) (length bs)).
    unfold uint in Hb0. nia. }
  destruct (mul_add_fits 58 ltac:(lia) 256 b b58) as (b' & E & Hl & Hd' & Hv'); [apply Hb0|lia|done|lia|].
  rewrite E. cbn [Z.eqb]. destruct (IH b' Hd') as (b'' & E' & Hd'' & Hv''); [rewrite Hl, Hv'; by rewrite Z.mul_comm in Hf|].
  exists b''. split_and!; [done..|]. rewrite Hv'', Hv'. by rewrite Z.mul_comm.
Qed.

(** Reading a string of digits, up to a space or the end. *)
Lemma decode_chars_spec b256 D rest :
  digits_in 256 b256 -> digits_in 58 D -> bval 58 (bval 256 0 (rev b256)) D < 256 ^ length b256 ->
  match rest with [] => True | c :: _ => isspace c = true end ->
  exists b256', decode_chars b256 (map char58 D ++ rest) = Ok (b256', rest) /\ digits_in 256 b256'
    /\ bval 256 0 (rev b256') = bval 58 (bval 256 0 (rev b256)) D.
Proof.
  intros Hd HD. revert b256 Hd. induction HD as [|d D Hd0 HD IH]; intros b256 Hd Hf Hr.
  - exists b256. split_and!; [|done|done]. destruct rest as [|c rest]; [done|]. cbn [map app decode_chars]. by rewrite Hr.
  - cbn [map app decode_chars bval] in *. destruct (char58_plain d Hd0) as (-> & _). rewrite char58_strchr by done.
    pose proof (bval_bound 256 ltac:(lia) (rev b256) ltac:(by apply Forall_rev)) as Hv.
    assert (Hle : 58 * bval 256 0 (rev b256) + d <= bval 58 (bval 256 0 (rev b256) * 58 + d) D).
    { rewrite (bval_acc 58 _ D). pose proof (bval_bound 58 ltac:(lia) D HD). pose proof (pow_pos_base 58 ltac:(lia) (length D)). nia. }
    rewrite Z2Nat.id by lia. destruct (mul_add_fits 256 ltac:(lia) 58 d b256) as (b' & E & Hl & Hd' & Hv'); [lia|lia|done|lia|].
    rewrite E. cbn [Z.eqb]. destruct (IH b' Hd') as (b'' & E' & Hd'' & Hv''); [rewrite Hl, Hv'; by rewrite Z.mul_comm in Hf|done|].
    exists b''. split_and!; [done..|]. rewrite Hv'', Hv'. by rewrite Z.mul_comm.
Qed.

(** Any string that is read is of that form. *)
Lemma decode_chars_inv b256 psz b256' rest :
  decode_chars b256 psz = Ok (b256', rest) ->
  exists D, psz = map char58 D ++ rest /\ digits_in 58 D /\ match rest with [] => True | c :: _ => isspace c = true end.
Proof.
  revert b256. induction psz as [|c psz IH]; intros b256 He; cbn [decode_chars] in He; [injection He as <- <-; by exists []|].
  destruct (isspace c) eqn:Es; [injection He as <- <-; exists []; by split_and!|].
  destruct (strchr pszBase58 c) as [n|] eqn:Ec; [|done]. destruct (strchr_char58 c n Ec) as [Hn Hc].
  destruct (mul_add 256 58 n b256) as [b carry]. destruct (carry =? 0); [|done]. destruct (IH b He) as (D & -> & HD & Hr).
  exists (Z.of_nat n :: D). cbn [map app]. rewrite Hc. split_and!; [done| |done]. constructor; [lia|done].
Qed.

(** ** Round trips *)

Lemma replicate_zero_digits B (n : nat) : 1 < B -> digits_in B (replicate n 0).
Proof. intros HB. apply Forall_replicate. lia. Qed.
Lemma bval_replicate B (n : nat) : bval B 0 (rev (replicate n 0)) = 0.
Proof.
  rewrite rev_alt. change (rev_append (replicate n 0) []) with (reverse (replicate n 0)). rewrite reverse_replicate.
  rewrite <- (app_nil_r (replicate n 0)), bval_zeros. done.
Qed.
Lemma bytes_digits l : bytes_ok l -> digits_in 256 l.
Proof. done. Qed.
Lemma strip_digits B l : digits_in B l -> digits_in B (skip_while (Z.eqb 0) l) /\ bval B 0 (skip_while (Z.eqb 0) l) = bval B 0 l.
Proof.
  intros Hl. destruct (strip_zeros l) as (n & He & _). rewrite He in Hl at 1. apply Forall_app in Hl as [_ Hl]. split; [done|].
  rewrite He at 2. by rewrite bval_zeros.
Qed.

(** What is encoded: the digits without leading zeros. *)
Lemma EncodeBase58_spec z rest :
  leading rest -> bytes_ok rest ->
  exists D, EncodeBase58 (replicate z 0 ++ rest) = Ok (replicate z 0x31 ++ map char58 D)
    /\ digits_in 58 D /\ leading D /\ bval 58 0 D = bval 256 0 rest.
Proof.
  intros Hh Hb. unfold EncodeBase58. rewrite skip_zeros by done. rewrite length_app, length_replicate.
  replace (z + length rest - length rest)%nat with z by lia. set (k := (length rest * 138 / 100 + 1)%nat).
  destruct (encode_bytes_spec (replicate k 0) rest) as (b & E & Hd & Hv);
    [by apply replicate_zero_digits|done| |].
  - rewrite bval_replicate, length_replicate. pose proof (bval_bound 256 ltac:(lia) rest Hb). pose proof (base58_buffer (length rest)). fold k in H0. lia.
  - rewrite bval_replicate in Hv. rewrite E. cbn [bindR]. destruct (strip_digits 58 (rev b)) as [H1 H2]; [by apply Forall_rev|].
    destruct (strip_zeros (rev b)) as (_ & _ & H3). eexists. split_and!; [done|done|done|]. by rewrite H2, Hv.
Qed.

Abbreviation spaces := (Forall (fun c => isspace c = true)).
Lemma skip_spaces s l : spaces s -> skip_while isspace (s ++ l) = skip_while isspace l.
Proof. induction 1 as [|c s Hc _ IH]; [done|]. cbn [app skip_while]. by rewrite Hc. Qed.
Lemma skip_all_spaces s : spaces s -> skip_while isspace s = [].
Proof. intros Hs. rewrite <- (app_nil_r s), skip_spaces by done. done. Qed.
Lemma skip_spaces_inv l : exists s, spaces s /\ l = s ++ skip_while isspace l
  /\ match skip_while isspace l with [] => True | c :: _ => isspace c = false end.
Proof.
  induction l as [|c l (s & Hs & He & Hn)]; [by exists []|]. cbn [skip_while]. destruct (isspace c) eqn:E.
  - exists (c :: s). split_and!; [by constructor| |done]. cbn [app]. by rewrite He at 1.
  - exists []. by split_and!.
Qed.

(** A string as the decoder reads it: ones, digits that do not start with a
    one, and what follows. *)
Lemma skip_ones z D s :
  digits_in 58 D -> leading D -> spaces s -> skip_while (Z.eqb 0x31) (replicate z 0x31 ++ map char58 D ++ s) = map char58 D ++ s.
Proof.
  intros HD Hh Hs. induction z as [|z IH]; [|done]. cbn [replicate app]. destruct D as [|d D]; cbn [map app].
  - destruct Hs as [|c s Hc _]; [done|]. cbn [skip_while]. by destruct (Z.eqb_spec 0x31 c) as [<-|].
  - cbn [skip_while]. apply Forall_cons in HD as [Hd _]. destruct (char58_plain d Hd) as (_ & _ & Hc).
    destruct (Z.eqb_spec 0x31 (char58 d)) as [He|]; [|done]. by rewrite (Hc (eq_sym He)) in Hh.
Qed.

Lemma decode_digits (n : nat) D s :
  digits_in 58 D -> spaces s -> (length D <= n)%nat ->
  exists b256, decode_chars (replicate (n * 733 / 1000 + 1)%nat 0) (map char58 D ++ s) = Ok (b256, s)
    /\ digits_in 256 b256 /\ bval 256 0 (rev b256) = bval 58 0 D.
Proof.
  intros HD Hs Hn. set (k := (n * 733 / 1000 + 1)%nat).
  destruct (decode_chars_spec (replicate k 0) D s) as (b & E & Hd & Hv); [by apply replicate_zero_digits|done| |by destruct Hs|].
  - rewrite bval_replicate, length_replicate. pose proof (bval_bound 58 ltac:(lia) D HD) as Hb. pose proof (base256_buffer n) as Hk. fold k in Hk.
    assert (58 ^ length D <= 58 ^ n) by (apply Z.pow_le_mono_r; lia). lia.
  - rewrite bval_replicate in Hv. by exists b.
Qed.

Lemma DecodeBase58_spec s1 s2 z D :
  spaces s1 -> spaces s2 -> digits_in 58 D -> leading D ->
  exists rest, DecodeBase58 (s1 ++ replicate z 0x31 ++ map char58 D ++ s2) = Ok (replicate z 0 ++ rest)
    /\ bytes_ok rest /\ leading rest /\ bval 256 0 rest = bval 58 0 D.
Proof.
  intros H1 H2 HD Hh. unfold DecodeBase58. rewrite skip_spaces by done.
  assert (Hs : exists s, spaces s /\ skip_while isspace (replicate z 0x31 ++ map char58 D ++ s2) = replicate z 0x31 ++ map char58 D ++ s).
  { destruct z as [|z]; [|by exists s2]. destruct D as [|d D]; cbn [replicate app map].
    - exists []. by rewrite skip_all_spaces.
    - exists s2. split; [done|]. cbn [skip_while]. apply Forall_cons in HD as [Hd _]. by destruct (char58_plain d Hd) as (-> & _). }
  destruct Hs as (s & Hs & ->). rewrite skip_ones by done. rewrite !length_app, length_replicate.
  replace (z + _ - _)%nat with z by lia.
  destruct (decode_digits (length (map char58 D) + length s) D s HD Hs) as (b & E & Hb & Hv); [rewrite length_map; lia|].
  rewrite E. cbn [bindR]. rewrite skip_all_spaces by done. destruct (strip_digits 256 (rev b)) as [H3 H4]; [by apply Forall_rev|].
  destruct (strip_zeros (rev b)) as (_ & _ & H5). eexists. split_and!; [done|done|done|]. by rewrite H4.
Qed.

(** Every string that is accepted has this form. *)
Lemma DecodeBase58_inv psz v :
  DecodeBase58 psz = Ok v ->
  exists s1 s2 z D, psz = s1 ++ replicate z 0x31 ++ map char58 D ++ s2 /\ spaces s1 /\ spaces s2 /\ digits_in 58 D /\ leading D.
Proof.
  unfold DecodeBase58. destruct (skip_spaces_inv psz) as (s1 & H1 & He & Hn). set (p := skip_while isspace psz) in *.
  assert (Hz : exists z, p = replicate z 0x31 ++ skip_while (Z.eqb 0x31) p
                /\ match skip_while (Z.eqb 0x31) p with [] => True | c :: _ => c <> 0x31 end).
  { clear. induction p as [|c p (z & He & Hc)]; [by exists 0%nat|]. cbn [skip_while]. destruct (Z.eqb_spec 0x31 c) as [<-|Hne].
    - exists (S z). split; [|done]. cbn [replicate app]. by rewrite He at 1.
    - exists 0%nat. split; [done|]. lia. }
  destruct Hz as (z & Hp & Hone). set (r := skip_while (Z.eqb 0x31) p) in *. intros Hb. apply bindR_Ok in Hb as ([b s] & Hd & Hb).
  destruct (decode_chars_inv _ _ _ _ Hd) as (D & Hr & HD & Hs). destruct (skip_spaces_inv s) as (s2 & H2 & He2 & _).
  destruct (skip_while isspace s) eqn:Es; [|done]. rewrite app_nil_r in He2. subst s2.
  exists s1, s, z, D. split_and!; try done; [by rewrite He, Hp, Hr at 1|]. destruct D as [|d D]; [done|]. rewrite Hr in Hone. cbn [map app] in Hone.
  destruct (decide (d = 0)) as [->|Hd0]; [by destruct Hone|]. by destruct d.
Qed.

(** The buffer never overflows, whatever the string. *)
Lemma decode_chars_fits b256 psz :
  digits_in 256 b256 -> (bval 256 0 (rev b256) + 1) * 58 ^ length psz <= 256 ^ length b256 -> decode_chars b256 psz <> Err carry_assert.
Proof.
  revert b256. induction psz as [|c psz IH]; intros b256 Hd Hf; cbn [decode_chars]; [done|]. destruct (isspace c); [done|].
  destruct (strchr pszBase58 c) as [n|] eqn:Ec; [|done]. destruct (strchr_char58 c n Ec) as [Hn _].
  cbn [length] in Hf. rewrite Nat2Z.inj_succ, Z.pow_succ_r in Hf by lia.
  pose proof (bval_bound 256 ltac:(lia) (rev b256) ltac:(by apply Forall_rev)) as Hv. pose proof (pow_pos_base 58 ltac:(lia) (length psz)) as Hp.
  destruct (mul_add_fits 256 ltac:(lia) 58 n b256) as (b' & E & Hl & Hd' & Hv'); [lia|lia|done|nia|]. rewrite E. cbn [Z.eqb].
  apply IH; [done|]. rewrite Hl, Hv'. nia.
Qed.
Lemma DecodeBase58_fits psz : DecodeBase58 psz <> Err carry_assert.
Proof.
  unfold DecodeBase58. set (r := skip_while _ (skip_while _ psz)). intros He. apply bindR_Err in He as [He|([b s] & _ & He)].
  - revert He. apply decode_chars_fits; [by apply replicate_zero_digits|]. rewrite bval_replicate, length_replicate, Z.mul_1_l. apply base256_buffer.
  - by destruct (skip_while isspace s).
Qed.

Lemma base58_decode_encode v :
  bytes_ok v -> exists s, EncodeBase58 v = Ok s /\ DecodeBase58 s = Ok v /\ c_str s = s.
Proof.
  intros Hv. destruct (strip_zeros v) as (z & He & Hh). set (rest := skip_while (Z.eqb 0) v) in *.
  assert (Hr : bytes_ok rest) by (rewrite He in Hv; by apply Forall_app in Hv as [_ ?]).
  destruct (EncodeBase58_spec z rest Hh Hr) as (D & E & HD & Hl & Hb).
  destruct (DecodeBase58_spec [] [] z D) as (rest' & E' & Hr' & Hh' & Hb'); [constructor|constructor|done|done|].
  rewrite app_nil_r in E'. cbn [app] in E'. rewrite He. eexists. split_and!; [exact E| |].
  - rewrite E'. do 2 f_equal. apply (bval_canonical 256); try done. by rewrite Hb', Hb.
  - clear -HD. induction z as [|z IH]; [|cbn; by rewrite IH]. cbn [replicate app]. induction HD as [|d D Hd _ IH]; [done|]. cbn [map c_str].
    destruct (char58_plain d Hd) as (_ & Hz & _). rewrite (proj2 (Z.eqb_neq _ 0)) by done. by rewrite IH.
Qed.
Lemma base58_encode_decode psz v :
  DecodeBase58 psz = Ok v -> bytes_ok v /\ exists s1 s s2, psz = s1 ++ s ++ s2 /\ spaces s1 /\ spaces s2 /\ EncodeBase58 v = Ok s.
Proof.
  intros He. destruct (DecodeBase58_inv psz v He) as (s1 & s2 & z & D & -> & H1 & H2 & HD & Hh).
  destruct (DecodeBase58_spec s1 s2 z D H1 H2 HD Hh) as (rest & E & Hr & Hl & Hb). rewrite He in E. injection E as ->.
  split; [apply Forall_app; split; [apply Forall_replicate; unfold uint; widths; lia|done]|].
  destruct (EncodeBase58_spec z rest Hl Hr) as (D' & E' & HD' & Hh' & Hb').
  assert (D' = D) as -> by (apply (bval_canonical 58); try done; by rewrite Hb', Hb).
  exists s1, (replicate z 0x31 ++ map char58 D), s2. split_and!; try done. by rewrite <- app_assoc.
Qed.

#[local] Opaque Hash.
Lemma Hash_checksum v : length (take 4 (Hash v)) = 4%nat /\ bytes_ok (take 4 (Hash v)).
Proof.
  rewrite Hash_spec. destruct (sha256d_output v) as [H1 H2]. split; [rewrite length_take, H2; done|by apply Forall_take].
Qed.

Lemma check_decode_encode v :
  bytes_ok v -> exists s, EncodeBase58Check v = Ok s /\ DecodeBase58Check s = Ok v /\ c_str s = s.
Proof.
  intros Hv. destruct (Hash_checksum v) as [Hl Hb]. destruct (base58_decode_encode (v ++ take 4 (Hash v))) as (s & E & E' & Hs); [by apply Forall_app|].
  exists s. split_and!; [done| |done]. unfold DecodeBase58Check. rewrite Hs, E'. cbn [bindR]. rewrite length_app, Hl.
  replace (length v + 4 - 4)%nat with (length v) by lia. rewrite (proj2 (Nat.ltb_ge _ 4)) by lia. cbn [negb].
  rewrite take_app_length, drop_app_length. by rewrite bool_decide_eq_true_2.
Qed.
Lemma check_encode_decode str v :
  DecodeBase58Check str = Ok v -> bytes_ok v /\ exists s1 s s2, c_str str = s1 ++ s ++ s2 /\ spaces s1 /\ spaces s2 /\ EncodeBase58Check v = Ok s.
Proof.
  unfold DecodeBase58Check. intros He. apply bindR_Ok in He as (w & E & He). destruct (base58_encode_decode _ _ E) as (Hw & s1 & s & s2 & Hs & H1 & H2 & E').
  destruct (length w <? 4)%nat; [done|]. cbn [negb] in He. case_bool_decide as Hc; [|done]. injection He as <-. split; [by apply Forall_take|].
  exists s1, s, s2. split_and!; try done. unfold EncodeBase58Check. by rewrite Hc, take_drop.
Qed.

(** ** Properties *)

Definition destination_ok (dest : CTxDestination) : Prop :=
  match dest with CNoDestination => False | CKeyID id | CScriptID id => length id = 20%nat /\ bytes_ok id end.
Definition prefixes_ok (k : Base58Prefix) : Prop :=
  bytes_ok (PUBKEY_ADDRESS k) /\ bytes_ok (SCRIPT_ADDRESS k) /\ length (PUBKEY_ADDRESS k) = length (SCRIPT_ADDRESS k)
  /\ PUBKEY_ADDRESS k <> SCRIPT_ADDRESS k.

Lemma has_prefix_spec p d : has_prefix p d = true <-> exists id, d = p ++ id /\ length id = 20%nat.
Proof.
  unfold has_prefix. rewrite andb_true_iff, Nat.eqb_eq, bool_decide_eq_true. split.
  - intros [Hl Ht]. exists (drop (length p) d). rewrite <- Ht at 1. rewrite take_drop, length_drop. split; [done|lia].
  - intros (id & -> & Hl). rewrite length_app, take_app_length. split; [lia|done].
Qed.

(** C25: base-58 text and addresses correspond one to one. A string of bytes is
    encoded to a text that decodes to it, and a text that decodes, once the
    spaces around it are dropped, is the encoding of what it decodes to; the
    buffers of both directions are large enough for every input. An address of
    a key or script hash decodes to that hash, stands for the matching script
    template, and no other text spells it; decoding never fails. *)
Theorem addresses_roundtrip (k : Base58Prefix) (v : bytes) (dest : CTxDestination) (str : bytes) :
  prefixes_ok k -> bytes_ok v -> destination_ok dest ->
  (exists s, EncodeBase58 v = Ok s /\ DecodeBase58 s = Ok v)
  /\ (forall w, DecodeBase58 str = Ok w -> exists s1 s s2, str = s1 ++ s ++ s2 /\ spaces s1 /\ spaces s2 /\ EncodeBase58 w = Ok s)
  /\ (exists s, EncodeDestination k dest = Ok s /\ DecodeDestination k s = Ok dest)
  /\ GetScriptForDestination dest
     = Ok (match dest with CKeyID id => p2pkh_script id | CScriptID id => p2sh_script id | CNoDestination => [] end)
  /\ (exists d, DecodeDestination k str = Ok d
        /\ (d <> CNoDestination -> destination_ok d
            /\ exists s1 s s2, c_str str = s1 ++ s ++ s2 /\ spaces s1 /\ spaces s2 /\ EncodeDestination k d = Ok s)).
Proof.
  intros (Hp1 & Hp2 & Hpl & Hpn) Hv Hd. split_and!.
  - destruct (base58_decode_encode v Hv) as (s & ? & ? & _). by exists s.
  - intros w Hw. by apply base58_encode_decode in Hw as [_ ?].
  - destruct dest as [|id|id]; [done| |]; destruct Hd as [Hl Hb]; cbn [EncodeDestination].
    + destruct (check_decode_encode (PUBKEY_ADDRESS k ++ id)) as (s & E & E' & _); [by apply Forall_app|]. exists s. split; [exact E|].
      unfold DecodeDestination. rewrite E'. rewrite (proj2 (has_prefix_spec _ _)) by eauto. by rewrite drop_app_length.
    + destruct (check_decode_encode (SCRIPT_ADDRESS k ++ id)) as (s & E & E' & _); [by apply Forall_app|]. exists s. split; [exact E|].
      unfold DecodeDestination. rewrite E'. destruct (has_prefix (PUBKEY_ADDRESS k) _) eqn:Eh.
      * apply has_prefix_spec in Eh as (id' & He & _). apply app_inj_1 in He as [? _]; [by destruct Hpn|done].
      * rewrite (proj2 (has_prefix_spec _ _)) by eauto. by rewrite drop_app_length.
  - destruct dest as [|id|id]; [done| |]; destruct Hd as [Hl _]; unfold GetScriptForDestination, push_data; rewrite Hl; cbn; by rewrite <- ?app_assoc.
  - unfold DecodeDestination. destruct (DecodeBase58Check str) as [data|[]] eqn:E.
    + eexists. split; [done|]. destruct (check_encode_decode str data E) as (Hb & s1 & s & s2 & Hs & H1 & H2 & Ee). intros Hn.
      destruct (has_prefix (PUBKEY_ADDRESS k) data) eqn:Ep; [|destruct (has_prefix (SCRIPT_ADDRESS k) data) eqn:Eq; [|done]].
      * apply has_prefix_spec in Ep as (id & -> & Hl). rewrite drop_app_length. apply Forall_app in Hb as [_ Hb].
        split; [exact (conj Hl Hb)|]. exists s1, s, s2. exact (conj Hs (conj H1 (conj H2 Ee))).
      * apply has_prefix_spec in Eq as (id & -> & Hl). rewrite drop_app_length. apply Forall_app in Hb as [_ Hb].
        split; [exact (conj Hl Hb)|]. exists s1, s, s2. exact (conj Hs (conj H1 (conj H2 Ee))).
    + exists CNoDestination. split; [reflexivity|]. intros Hn. by destruct Hn.
    + exfalso. unfold DecodeBase58Check in E. apply bindR_Err in E as [E|(w & _ & E)]; [by apply DecodeBase58_fits in E|].
      destruct (length w <? 4)%nat; [done|]. cbn [negb] in E. by case_bool_decide.
Qed.

Lemma addresses_roundtrip_witness :
  (exists s, EncodeBase58 [0; 0; 1; 255] = Ok s /\ DecodeBase58 s = Ok [0; 0; 1; 255])
  /\ (exists s, EncodeDestination main_prefixes (CScriptID (replicate 20 7)) = Ok s
                /\ DecodeDestination main_prefixes s = Ok (CScriptID (replicate 20 7))).
Proof.
  destruct (addresses_roundtrip main_prefixes [0; 0; 1; 255] (CScriptID (replicate 20 7)) []) as (H1 & _ & H3 & _).
  - split_and!; try done; by repeat constructor.
  - by repeat constructor.
  - split; [done|]. by repeat constructor.
  - split; [exact H1|exact H3].
Defined.
