(* ===== verification/Interpreter.v ===== *)
(** * The script interpreter (src/script/interpreter.h, interpreter.cpp)

    [EvalScript] and [VerifyScript] over the scripts of [Script] and the hash
    functions of [Hash], for any signature checker. The stacks are lists with
    the top at the head, so [stacktop(-i)] is the element with index [i - 1];
    [vfExec] has its back at the head. A run ends with a value or stops: [Fail]
    is a returned error, [Throw] an exception or failed assertion. The loop has
    as many passes as the script has bytes; [NoFuel] would mean that they do
    not suffice, which the theorems exclude.

    The elliptic-curve test [CPubKey::CheckLowS] is a function of
    libsecp256k1 and an argument of the interpreter. *)

From S2P Require Import Prelude Serialize Digest Sha Ripemd Hash Script.
Local Open Scope Z_scope.
Local Open Scope code_scope.

(** ** Definitions *)

Inductive ScriptError :=
| SCRIPT_ERR_OK | SCRIPT_ERR_UNKNOWN_ERROR | SCRIPT_ERR_EVAL_FALSE | SCRIPT_ERR_OP_RETURN
| SCRIPT_ERR_SCRIPT_SIZE | SCRIPT_ERR_PUSH_SIZE | SCRIPT_ERR_OP_COUNT | SCRIPT_ERR_STACK_SIZE
| SCRIPT_ERR_SIG_COUNT | SCRIPT_ERR_PUBKEY_COUNT
| SCRIPT_ERR_VERIFY | SCRIPT_ERR_EQUALVERIFY | SCRIPT_ERR_CHECKMULTISIGVERIFY | SCRIPT_ERR_CHECKSIGVERIFY
| SCRIPT_ERR_NUMEQUALVERIFY
| SCRIPT_ERR_BAD_OPCODE | SCRIPT_ERR_DISABLED_OPCODE | SCRIPT_ERR_INVALID_STACK_OPERATION
| SCRIPT_ERR_INVALID_ALTSTACK_OPERATION | SCRIPT_ERR_UNBALANCED_CONDITIONAL
| SCRIPT_ERR_NEGATIVE_LOCKTIME | SCRIPT_ERR_UNSATISFIED_LOCKTIME
| SCRIPT_ERR_SIG_HASHTYPE | SCRIPT_ERR_SIG_DER | SCRIPT_ERR_MINIMALDATA | SCRIPT_ERR_SIG_PUSHONLY
| SCRIPT_ERR_SIG_HIGH_S | SCRIPT_ERR_SIG_NULLDUMMY | SCRIPT_ERR_PUBKEYTYPE | SCRIPT_ERR_CLEANSTACK
| SCRIPT_ERR_DISCOURAGE_UPGRADABLE_NOPS | SCRIPT_ERR_ERROR_COUNT.

(** How a run stops early. *)
Inductive stop :=
| Fail (e : ScriptError)
| Throw (x : script_exn)
| NoFuel.
Definition lift {A} (m : result script_exn A) : result stop A :=
  match m with Ok a => Ok a | Err x => Err (Throw x) end.

(** Verification flags. *)
Definition SCRIPT_VERIFY_NONE : Z := 0.
Definition SCRIPT_VERIFY_P2SH : Z := Z.shiftl 1 0.
Definition SCRIPT_VERIFY_STRICTENC : Z := Z.shiftl 1 1.
Definition SCRIPT_VERIFY_LOW_S : Z := Z.shiftl 1 3.
Definition SCRIPT_VERIFY_NULLDUMMY : Z := Z.shiftl 1 4.
Definition SCRIPT_VERIFY_SIGPUSHONLY : Z := Z.shiftl 1 5.
Definition SCRIPT_VERIFY_MINIMALDATA : Z := Z.shiftl 1 6.
Definition SCRIPT_VERIFY_DISCOURAGE_UPGRADABLE_NOPS : Z := Z.shiftl 1 7.
Definition SCRIPT_VERIFY_CLEANSTACK : Z := Z.shiftl 1 8.
Definition SCRIPT_VERIFY_CHECKLOCKTIMEVERIFY : Z := Z.shiftl 1 9.
Definition has_flag (flags f : Z) : bool := negb (Z.land flags f =? 0).

Definition SIGHASH_ALL : Z := 1.
Definition SIGHASH_NONE : Z := 2.
Definition SIGHASH_SINGLE : Z := 3.
Definition SIGHASH_ANYONECANPAY : Z := 0x80.

Definition PUBLIC_KEY_SIZE : Z := 65.
Definition COMPRESSED_PUBLIC_KEY_SIZE : Z := 33.

(** [BaseSignatureChecker]: what the interpreter asks of the transaction. *)
Class BaseSignatureChecker := {
  CheckSig (vchSig vchPubKey : bytes) (scriptCode : CScript) (consensusBranchId : Z) : bool;
  CheckLockTime (nLockTime : Z) : bool
}.

Fixpoint CastToBool (vch : bytes) : bool :=
  match vch with
  | [] => false
  | b :: vch => if negb (b =? 0) then negb (match vch with [] => b =? 0x80 | _ => false end) else CastToBool vch
  end.

(** *** Encodings of keys and signatures *)

Definition IsCompressedOrUncompressedPubKey (vchPubKey : bytes) : bool :=
  if length vchPubKey <? COMPRESSED_PUBLIC_KEY_SIZE then false
  else if nth 0 vchPubKey 0 =? 0x04 then length vchPubKey =? PUBLIC_KEY_SIZE
  else if (nth 0 vchPubKey 0 =? 0x02) || (nth 0 vchPubKey 0 =? 0x03) then length vchPubKey =? COMPRESSED_PUBLIC_KEY_SIZE
  else false.

Definition IsValidSignatureEncoding (sig : bytes) : bool :=
  let at_ i := nth (Z.to_nat i) sig 0 in
  if length sig <? 9 then false
  else if 73 <? length sig then false
  else if negb (at_ 0 =? 0x30) then false
  else if negb (at_ 1 =? length sig - 3) then false
  else
    let lenR := at_ 3 in
    if length sig <=? 5 + lenR then false
    else
      let lenS := at_ (5 + lenR) in
      if negb (lenR + lenS + 7 =? length sig) then false
      else if negb (at_ 2 =? 0x02) then false
      else if lenR =? 0 then false
      else if negb (Z.land (at_ 4) 0x80 =? 0) then false
      else if (1 <? lenR) && (at_ 4 =? 0) && (Z.land (at_ 5) 0x80 =? 0) then false
      else if negb (at_ (lenR + 4) =? 0x02) then false
      else if lenS =? 0 then false
      else if negb (Z.land (at_ (lenR + 6)) 0x80 =? 0) then false
      else if (1 <? lenS) && (at_ (lenR + 6) =? 0) && (Z.land (at_ (lenR + 7)) 0x80 =? 0) then false
      else true.

Definition IsDefinedHashtypeSignature (vchSig : bytes) : bool :=
  match last vchSig with
  | None => false
  | Some b => let nHashType := to_u8 (Z.land b (Z.lnot SIGHASH_ANYONECANPAY)) in
              negb ((nHashType <? SIGHASH_ALL) || (SIGHASH_SINGLE <? nHashType))
  end.

Section interpreter.
Context (CheckLowS : bytes -> bool).

(** The functions below return [false] with [serror] set ([Some]) or left as it
    was ([None]). *)
Definition IsLowDERSignature (vchSig : bytes) : result (option ScriptError) unit :=
  require IsValidSignatureEncoding vchSig orelse Some SCRIPT_ERR_SIG_DER in
  require CheckLowS (take (length vchSig - 1) vchSig) orelse None in Ok tt.

Definition CheckSignatureEncoding (vchSig : bytes) (flags : Z) : result (option ScriptError) unit :=
  if length vchSig =? 0 then Ok tt
  else
    require IsValidSignatureEncoding vchSig orelse Some SCRIPT_ERR_SIG_DER in
    let* _ := if has_flag flags SCRIPT_VERIFY_LOW_S then IsLowDERSignature vchSig else Ok tt in
    require negb (has_flag flags SCRIPT_VERIFY_STRICTENC && negb (IsDefinedHashtypeSignature vchSig))
      orelse Some SCRIPT_ERR_SIG_HASHTYPE in Ok tt.

Definition CheckPubKeyEncoding (vchPubKey : bytes) (flags : Z) : result (option ScriptError) unit :=
  require negb (has_flag flags SCRIPT_VERIFY_STRICTENC && negb (IsCompressedOrUncompressedPubKey vchPubKey))
    orelse Some SCRIPT_ERR_PUBKEYTYPE in Ok tt.

(** In [EvalScript] an error left unset is the one set at its start. *)
Definition check_encodings (vchSig vchPubKey : bytes) (flags : Z) : result stop unit :=
  match (let* _ := CheckSignatureEncoding vchSig flags in CheckPubKeyEncoding vchPubKey flags) with
  | Ok _ => Ok tt
  | Err (Some e) => Err (Fail e)
  | Err None => Err (Fail SCRIPT_ERR_UNKNOWN_ERROR)
  end.

Definition CheckMinimalPush (data : bytes) (opcode : opcodetype) : bool :=
  let d0 := nth 0 data 0 in
  if length data =? 0 then op_eqb opcode OP_0
  else if (length data =? 1) && (1 <=? d0) && (d0 <=? 16) then opcode_value opcode =? opcode_value OP_1 + (d0 - 1)
  else if (length data =? 1) && (d0 =? 0x81) then op_eqb opcode OP_1NEGATE
  else if length data <=? 75 then opcode_value opcode =? length data
  else if length data <=? 255 then op_eqb opcode OP_PUSHDATA1
  else if length data <=? 65535 then op_eqb opcode OP_PUSHDATA2
  else true.

(** *** The machine *)

Record eval_state := EvalState {
  stack : list bytes; altstack : list bytes; vfExec : list bool; nOpCount : Z }.
Definition set_stack (st : eval_state) (s : list bytes) : eval_state :=
  EvalState s (altstack st) (vfExec st) (nOpCount st).
Definition set_exec (st : eval_state) (v : list bool) : eval_state :=
  EvalState (stack st) (altstack st) v (nOpCount st).

Definition vchFalse : bytes := [].
Definition vchTrue : bytes := [1].
Definition of_bool (b : bool) : bytes := if b then vchTrue else vchFalse.
Definition num_bool (b : bool) : Z := if b then 1 else 0.

Definition bad_stack {A} : result stop A := Err (Fail SCRIPT_ERR_INVALID_STACK_OPERATION).

(** [stacktop(-i)]. *)
Definition stacktop (s : list bytes) (i : Z) : result stop bytes :=
  match s !! Z.to_nat (i - 1) with Some v => Ok v | None => Err (Throw out_of_range) end.

Section ops.
Context `{BaseSignatureChecker} (flags : Z) (script : CScript) (consensusBranchId : Z).
Definition fRequireMinimal : bool := has_flag flags SCRIPT_VERIFY_MINIMALDATA.
Definition scriptnum (vch : bytes) : result stop Z := lift (CScriptNum_of vch fRequireMinimal nDefaultMaxNumSize).

Definition op_checklocktimeverify (s : list bytes) : result stop unit :=
  if negb (has_flag flags SCRIPT_VERIFY_CHECKLOCKTIMEVERIFY) then
    require negb (has_flag flags SCRIPT_VERIFY_DISCOURAGE_UPGRADABLE_NOPS)
      orelse Fail SCRIPT_ERR_DISCOURAGE_UPGRADABLE_NOPS in Ok tt
  else
    match s with
    | [] => bad_stack
    | top :: _ =>
        let* nLockTime := lift (CScriptNum_of top fRequireMinimal 5) in
        require negb (nLockTime <? 0) orelse Fail SCRIPT_ERR_NEGATIVE_LOCKTIME in
        require CheckLockTime nLockTime orelse Fail SCRIPT_ERR_UNSATISFIED_LOCKTIME in Ok tt
    end.

Definition op_nop_upgradable : result stop unit :=
  require negb (has_flag flags SCRIPT_VERIFY_DISCOURAGE_UPGRADABLE_NOPS)
    orelse Fail SCRIPT_ERR_DISCOURAGE_UPGRADABLE_NOPS in Ok tt.

(** [OP_IF] and [OP_NOTIF]. *)
Definition op_if (negate fExec : bool) (st : eval_state) : result stop eval_state :=
  if fExec then
    match stack st with
    | [] => Err (Fail SCRIPT_ERR_UNBALANCED_CONDITIONAL)
    | vch :: s => let fValue := CastToBool vch in
                  let fValue := if negate then negb fValue else fValue in
                  Ok (set_exec (set_stack st s) (fValue :: vfExec st))
    end
  else Ok (set_exec st (false :: vfExec st)).

Definition op_else (st : eval_state) : result stop eval_state :=
  match vfExec st with
  | [] => Err (Fail SCRIPT_ERR_UNBALANCED_CONDITIONAL)
  | b :: v => Ok (set_exec st (negb b :: v))
  end.

Definition op_endif (st : eval_state) : result stop eval_state :=
  match vfExec st with
  | [] => Err (Fail SCRIPT_ERR_UNBALANCED_CONDITIONAL)
  | _ :: v => Ok (set_exec st v)
  end.

Definition op_verify (s : list bytes) : result stop (list bytes) :=
  match s with
  | [] => bad_stack
  | vch :: s => if CastToBool vch then Ok s else Err (Fail SCRIPT_ERR_VERIFY)
  end.

Definition op_toaltstack (st : eval_state) : result stop eval_state :=
  match stack st with
  | [] => bad_stack
  | vch :: s => Ok (EvalState s (vch :: altstack st) (vfExec st) (nOpCount st))
  end.
Definition op_fromaltstack (st : eval_state) : result stop eval_state :=
  match altstack st with
  | [] => Err (Fail SCRIPT_ERR_INVALID_ALTSTACK_OPERATION)
  | vch :: a => Ok (EvalState (vch :: stack st) a (vfExec st) (nOpCount st))
  end.

(** The opcodes that only rearrange the stack, before and after [OP_PICK]. *)
Definition op_stack (opcode : opcodetype) (s : list bytes) : result stop (list bytes) :=
  match opcode, s with
  | OP_2DROP, _ :: _ :: r => Ok r
  | OP_2DUP, x2 :: x1 :: _ => Ok (x2 :: x1 :: s)
  | OP_3DUP, x3 :: x2 :: x1 :: _ => Ok (x3 :: x2 :: x1 :: s)
  | OP_2OVER, _ :: _ :: x2 :: x1 :: _ => Ok (x2 :: x1 :: s)
  | OP_2ROT, x6 :: x5 :: x4 :: x3 :: x2 :: x1 :: r => Ok (x2 :: x1 :: x6 :: x5 :: x4 :: x3 :: r)
  | OP_2SWAP, x4 :: x3 :: x2 :: x1 :: r => Ok (x2 :: x1 :: x4 :: x3 :: r)
  | OP_IFDUP, x :: _ => Ok (if CastToBool x then x :: s else s)
  | OP_DEPTH, _ => Ok (num_serialize (to_i64 (length s)) :: s)
  | OP_DROP, _ :: r => Ok r
  | OP_DUP, x :: _ => Ok (x :: s)
  | OP_NIP, x2 :: _ :: r => Ok (x2 :: r)
  | OP_OVER, _ :: x1 :: _ => Ok (x1 :: s)
  | _, _ => bad_stack
  end.

Definition op_rot_size (opcode : opcodetype) (s : list bytes) : result stop (list bytes) :=
  match opcode, s with
  | OP_ROT, x3 :: x2 :: x1 :: r => Ok (x1 :: x3 :: x2 :: r)
  | OP_SWAP, x2 :: x1 :: r => Ok (x1 :: x2 :: r)
  | OP_TUCK, x2 :: x1 :: r => Ok (x2 :: x1 :: x2 :: r)
  | OP_SIZE, x :: _ => Ok (num_serialize (to_i64 (length x)) :: s)
  | _, _ => bad_stack
  end.

(** [OP_PICK] and [OP_ROLL]. *)
Definition op_pick (roll : bool) (s : list bytes) : result stop (list bytes) :=
  match s with
  | top :: ((_ :: _) as s) =>
      let* bn := scriptnum top in
      let n := getint bn in
      if (n <? 0) || (to_i32 (length s) <=? n) then bad_stack
      else let* vch := stacktop s (n + 1) in
           Ok (vch :: if roll then delete (Z.to_nat n) s else s)
  | _ => bad_stack
  end.

(** [OP_EQUAL] and [OP_EQUALVERIFY]. *)
Definition op_equal (verify : bool) (s : list bytes) : result stop (list bytes) :=
  match s with
  | vch2 :: vch1 :: s =>
      let fEqual := bool_decide (vch1 = vch2) in
      if verify then if fEqual then Ok s else Err (Fail SCRIPT_ERR_EQUALVERIFY)
      else Ok (of_bool fEqual :: s)
  | _ => bad_stack
  end.

(** The numeric opcodes of one operand. *)
Definition op_numeric1 (opcode : opcodetype) (s : list bytes) : result stop (list bytes) :=
  match s with
  | [] => bad_stack
  | top :: s =>
      let* bn := scriptnum top in
      let* bn :=
        match opcode with
        | OP_1ADD => lift (num_plus_assign bn 1)
        | OP_1SUB => lift (num_minus_assign bn 1)
        | OP_NEGATE => lift (num_neg bn)
        | OP_ABS => if bn <? 0 then lift (num_neg bn) else Ok bn
        | OP_NOT => Ok (num_bool (bn =? 0))
        | OP_0NOTEQUAL => Ok (num_bool (negb (bn =? 0)))
        | _ => Err (Throw script_assert)
        end in
      Ok (num_serialize bn :: s)
  end.

(** The numeric opcodes of two operands. *)
Definition op_numeric2 (opcode : opcodetype) (s : list bytes) : result stop (list bytes) :=
  match s with
  | x2 :: x1 :: s =>
      let* bn1 := scriptnum x1 in
      let* bn2 := scriptnum x2 in
      let* bn :=
        match opcode with
        | OP_ADD => Ok (to_i64 (bn1 + bn2))
        | OP_SUB => Ok (to_i64 (bn1 - bn2))
        | OP_BOOLAND => Ok (num_bool (negb (bn1 =? 0) && negb (bn2 =? 0)))
        | OP_BOOLOR => Ok (num_bool (negb (bn1 =? 0) || negb (bn2 =? 0)))
        | OP_NUMEQUAL | OP_NUMEQUALVERIFY => Ok (num_bool (bn1 =? bn2))
        | OP_NUMNOTEQUAL => Ok (num_bool (negb (bn1 =? bn2)))
        | OP_LESSTHAN => Ok (num_bool (bn1 <? bn2))
        | OP_GREATERTHAN => Ok (num_bool (bn2 <? bn1))
        | OP_LESSTHANOREQUAL => Ok (num_bool (bn1 <=? bn2))
        | OP_GREATERTHANOREQUAL => Ok (num_bool (bn2 <=? bn1))
        | OP_MIN => Ok (if bn1 <? bn2 then bn1 else bn2)
        | OP_MAX => Ok (if bn2 <? bn1 then bn1 else bn2)
        | _ => Err (Throw script_assert)
        end in
      let vch := num_serialize bn in
      match opcode with
      | OP_NUMEQUALVERIFY => if CastToBool vch then Ok s else Err (Fail SCRIPT_ERR_NUMEQUALVERIFY)
      | _ => Ok (vch :: s)
      end
  | _ => bad_stack
  end.

Definition op_within (s : list bytes) : result stop (list bytes) :=
  match s with
  | x3 :: x2 :: x1 :: s =>
      let* bn1 := scriptnum x1 in
      let* bn2 := scriptnum x2 in
      let* bn3 := scriptnum x3 in
      Ok (of_bool ((bn2 <=? bn1) && (bn1 <? bn3)) :: s)
  | _ => bad_stack
  end.

(** The hash opcodes. *)
Definition op_digest (opcode : opcodetype) (s : list bytes) : result stop (list bytes) :=
  match s with
  | [] => bad_stack
  | vch :: s =>
      Ok (match opcode with
          | OP_RIPEMD160 => Finalize (Write (fresh CRIPEMD160) vch)
          | OP_SHA1 => Finalize (Write (fresh CSHA1) vch)
          | OP_SHA256 => Finalize (Write (fresh CSHA256) vch)
          | OP_HASH160 => CHash160_Finalize (Write (fresh CSHA256) vch)
          | _ => CHash256_Finalize (Write (fresh CSHA256) vch)
          end :: s)
  end.

(** [OP_CHECKSIG] and [OP_CHECKSIGVERIFY]. *)
Definition op_checksig (verify : bool) (s : list bytes) : result stop (list bytes) :=
  match s with
  | vchPubKey :: vchSig :: s =>
      let* _ := check_encodings vchSig vchPubKey flags in
      let fSuccess := CheckSig vchSig vchPubKey script consensusBranchId in
      if verify then if fSuccess then Ok s else Err (Fail SCRIPT_ERR_CHECKSIGVERIFY)
      else Ok (of_bool fSuccess :: s)
  | _ => bad_stack
  end.

(** The loop of [OP_CHECKMULTISIG]; every pass uses up a key. *)
Fixpoint multisig_loop (nKeysCount : nat) (s : list bytes) (isig nSigsCount ikey : Z) : result stop bool :=
  if nSigsCount <=? 0 then Ok true
  else
    match nKeysCount with
    | O => Err NoFuel
    | S nKeysCount =>
        let* vchSig := stacktop s isig in
        let* vchPubKey := stacktop s ikey in
        let* _ := check_encodings vchSig vchPubKey flags in
        let fOk := CheckSig vchSig vchPubKey script consensusBranchId in
        let isig := if fOk then isig + 1 else isig in
        let nSigsCount := if fOk then nSigsCount - 1 else nSigsCount in
        if nKeysCount <? nSigsCount then Ok false
        else multisig_loop nKeysCount s isig nSigsCount (ikey + 1)
    end.

(** [OP_CHECKMULTISIG] and [OP_CHECKMULTISIGVERIFY]. *)
Definition op_checkmultisig (verify : bool) (st : eval_state) : result stop eval_state :=
  let s := stack st in
  let i := 1 in
  if to_i32 (length s) <? i then bad_stack
  else
    let* top := stacktop s i in
    let* bn := scriptnum top in
    let nKeysCount := getint bn in
    require negb ((nKeysCount <? 0) || (20 <? nKeysCount)) orelse Fail SCRIPT_ERR_PUBKEY_COUNT in
    let nOpCount := nOpCount st + nKeysCount in
    require negb (201 <? nOpCount) orelse Fail SCRIPT_ERR_OP_COUNT in
    let ikey := i + 1 in
    let i := ikey + nKeysCount in
    if to_i32 (length s) <? i then bad_stack
    else
      let* v := stacktop s i in
      let* bn := scriptnum v in
      let nSigsCount := getint bn in
      require negb ((nSigsCount <? 0) || (nKeysCount <? nSigsCount)) orelse Fail SCRIPT_ERR_SIG_COUNT in
      let isig := i + 1 in
      let i := isig + nSigsCount in
      if to_i32 (length s) <? i then bad_stack
      else
        let* fSuccess := multisig_loop (Z.to_nat nKeysCount) s isig nSigsCount ikey in
        match drop (Z.to_nat (i - 1)) s with
        | [] => bad_stack
        | dummy :: s =>
            require negb (has_flag flags SCRIPT_VERIFY_NULLDUMMY && negb (length dummy =? 0))
              orelse Fail SCRIPT_ERR_SIG_NULLDUMMY in
            let* s := if verify then if fSuccess : bool then Ok s else Err (Fail SCRIPT_ERR_CHECKMULTISIGVERIFY)
                      else Ok (of_bool fSuccess :: s) in
            Ok (EvalState s (altstack st) (vfExec st) nOpCount)
        end.

(** The [switch] over the opcodes that are not pushes of data. *)
Definition eval_op (opcode : opcodetype) (fExec : bool) (st : eval_state) : result stop eval_state :=
  let on_stack (f : list bytes -> result stop (list bytes)) := let* s := f (stack st) in Ok (set_stack st s) in
  let check (m : result stop unit) := let* _ := m in Ok st in
  match opcode with
  | OP_1NEGATE | OP_1 | OP_2 | OP_3 | OP_4 | OP_5 | OP_6 | OP_7 | OP_8
  | OP_9 | OP_10 | OP_11 | OP_12 | OP_13 | OP_14 | OP_15 | OP_16 =>
      Ok (set_stack st (num_serialize (opcode_value opcode - (opcode_value OP_1 - 1)) :: stack st))
  | OP_NOP => Ok st
  | OP_CHECKLOCKTIMEVERIFY => check (op_checklocktimeverify (stack st))
  | OP_NOP1 | OP_NOP3 | OP_NOP4 | OP_NOP5 | OP_NOP6 | OP_NOP7 | OP_NOP8 | OP_NOP9 | OP_NOP10 => check op_nop_upgradable
  | OP_IF => op_if false fExec st
  | OP_NOTIF => op_if true fExec st
  | OP_ELSE => op_else st
  | OP_ENDIF => op_endif st
  | OP_VERIFY => on_stack op_verify
  | OP_RETURN => Err (Fail SCRIPT_ERR_OP_RETURN)
  | OP_TOALTSTACK => op_toaltstack st
  | OP_FROMALTSTACK => op_fromaltstack st
  | OP_2DROP | OP_2DUP | OP_3DUP | OP_2OVER | OP_2ROT | OP_2SWAP | OP_IFDUP | OP_DEPTH | OP_DROP | OP_DUP
  | OP_NIP | OP_OVER => on_stack (op_stack opcode)
  | OP_ROT | OP_SWAP | OP_TUCK | OP_SIZE => on_stack (op_rot_size opcode)
  | OP_PICK => on_stack (op_pick false)
  | OP_ROLL => on_stack (op_pick true)
  | OP_EQUAL => on_stack (op_equal false)
  | OP_EQUALVERIFY => on_stack (op_equal true)
  | OP_1ADD | OP_1SUB | OP_NEGATE | OP_ABS | OP_NOT | OP_0NOTEQUAL => on_stack (op_numeric1 opcode)
  | OP_ADD | OP_SUB | OP_BOOLAND | OP_BOOLOR | OP_NUMEQUAL | OP_NUMEQUALVERIFY | OP_NUMNOTEQUAL | OP_LESSTHAN
  | OP_GREATERTHAN | OP_LESSTHANOREQUAL | OP_GREATERTHANOREQUAL | OP_MIN | OP_MAX => on_stack (op_numeric2 opcode)
  | OP_WITHIN => on_stack op_within
  | OP_RIPEMD160 | OP_SHA1 | OP_SHA256 | OP_HASH160 | OP_HASH256 => on_stack (op_digest opcode)
  | OP_CHECKSIG => on_stack (op_checksig false)
  | OP_CHECKSIGVERIFY => on_stack (op_checksig true)
  | OP_CHECKMULTISIG => op_checkmultisig false st
  | OP_CHECKMULTISIGVERIFY => op_checkmultisig true st
  | _ => Err (Fail SCRIPT_ERR_BAD_OPCODE)
  end.

Definition is_disabled (opcode : opcodetype) : bool :=
  match opcode with
  | OP_CAT | OP_SUBSTR | OP_LEFT | OP_RIGHT | OP_INVERT | OP_AND | OP_OR | OP_XOR | OP_2MUL | OP_2DIV | OP_MUL
  | OP_DIV | OP_MOD | OP_LSHIFT | OP_RSHIFT | OP_CODESEPARATOR => true
  | _ => false
  end.

(** One pass of the loop, after the instruction has been read. *)
Definition eval_instruction (opcode : opcodetype) (vchPushValue : bytes) (st : eval_state) : result stop eval_state :=
  let fExec := forallb (fun b => b) (vfExec st) in
  require negb (MAX_SCRIPT_ELEMENT_SIZE <? length vchPushValue) orelse Fail SCRIPT_ERR_PUSH_SIZE in
  let nOpCount := if op_gt opcode OP_16 then nOpCount st + 1 else nOpCount st in
  require negb (op_gt opcode OP_16 && (201 <? nOpCount)) orelse Fail SCRIPT_ERR_OP_COUNT in
  let st := EvalState (stack st) (altstack st) (vfExec st) nOpCount in
  require negb (is_disabled opcode) orelse Fail SCRIPT_ERR_DISABLED_OPCODE in
  let* st :=
    if fExec && (0 <=? opcode_value opcode) && op_le opcode OP_PUSHDATA4 then
      require negb (fRequireMinimal && negb (CheckMinimalPush vchPushValue opcode)) orelse Fail SCRIPT_ERR_MINIMALDATA in
      Ok (set_stack st (vchPushValue :: stack st))
    else if fExec || (op_le OP_IF opcode && op_le opcode OP_ENDIF) then eval_op opcode fExec st
    else Ok st in
  require negb (1000 <? length (stack st) + length (altstack st)) orelse Fail SCRIPT_ERR_STACK_SIZE in Ok st.

Fixpoint eval_loop (fuel : nat) (pc : bytes) (st : eval_state) : result stop eval_state :=
  match pc with
  | [] => Ok st
  | _ =>
      match fuel with
      | O => Err NoFuel
      | S fuel =>
          match GetOp pc with
          | None => Err (Fail SCRIPT_ERR_BAD_OPCODE)
          | Some (opcode, vchPushValue, pc) => let* st := eval_instruction opcode vchPushValue st in eval_loop fuel pc st
          end
      end
  end.
End ops.

(** [catch (...)]: every exception becomes the unknown error; a failed
    assertion is not an exception. *)
Definition catch {A} (m : result stop A) : result stop A :=
  match m with
  | Err (Throw script_assert) => m
  | Err (Throw _) => Err (Fail SCRIPT_ERR_UNKNOWN_ERROR)
  | _ => m
  end.

(** [EvalScript]: the stack after a successful run. *)
Definition EvalScript `{BaseSignatureChecker} (s : list bytes) (script : CScript) (flags consensusBranchId : Z)
  : result stop (list bytes) :=
  require negb (MAX_SCRIPT_SIZE <? length script) orelse Fail SCRIPT_ERR_SCRIPT_SIZE in
  let* st := catch (eval_loop flags script consensusBranchId (length script) script (EvalState s [] [] 0)) in
  match vfExec st with
  | [] => Ok (stack st)
  | _ => Err (Fail SCRIPT_ERR_UNBALANCED_CONDITIONAL)
  end.

(** The stack must end with a true element. *)
Definition require_true (s : list bytes) : result stop unit :=
  match s with
  | [] => Err (Fail SCRIPT_ERR_EVAL_FALSE)
  | top :: _ => require CastToBool top orelse Fail SCRIPT_ERR_EVAL_FALSE in Ok tt
  end.

Definition VerifyScript `{BaseSignatureChecker} (scriptSig scriptPubKey : CScript) (flags consensusBranchId : Z)
  : result stop unit :=
  require negb (has_flag flags SCRIPT_VERIFY_SIGPUSHONLY && negb (IsPushOnly scriptSig)) orelse Fail SCRIPT_ERR_SIG_PUSHONLY in
  let* stackCopy := EvalScript [] scriptSig flags consensusBranchId in
  let* s := EvalScript stackCopy scriptPubKey flags consensusBranchId in
  let* _ := require_true s in
  let* s :=
    if has_flag flags SCRIPT_VERIFY_P2SH && IsPayToScriptHash scriptPubKey then
      require IsPushOnly scriptSig orelse Fail SCRIPT_ERR_SIG_PUSHONLY in
      match stackCopy with
      | [] => Err (Throw script_assert)
      | pubKey2 :: s =>
          let* s := EvalScript s pubKey2 flags consensusBranchId in
          let* _ := require_true s in Ok s
      end
    else Ok s in
  if has_flag flags SCRIPT_VERIFY_CLEANSTACK then
    require has_flag flags SCRIPT_VERIFY_P2SH orelse Throw script_assert in
    require (length s =? 1) orelse Fail SCRIPT_ERR_CLEANSTACK in Ok tt
  else Ok tt.
End interpreter.

(** ** Safe runs *)

(** A run that returns a value satisfying [P], fails with a script error, or
    throws the exception of a script number: it does not fail an assertion,
    index a stack out of range or run out of passes. *)
Definition runs {A} (P : A -> Prop) (m : result stop A) : Prop :=
  match m with
  | Ok a => P a
  | Err (Fail _) | Err (Throw scriptnum_error) => True
  | Err _ => False
  end.

Lemma runs_bind {A B} (Q : A -> Prop) (P : B -> Prop) (m : result stop A) k :
  runs Q m -> (forall a, Q a -> runs P (k a)) -> runs P (bindR m k).
Proof. intros Hm Hk. destruct m as [a|e]; [by apply Hk|exact Hm]. Qed.

Lemma runs_mono {A} (P Q : A -> Prop) m : (forall a, P a -> Q a) -> runs P m -> runs Q m.
Proof. intros H Hm. destruct m; [by apply H|exact Hm]. Qed.

Lemma runs_require {A} (P : A -> Prop) (b : bool) e m :
  (b = true -> runs P m) -> runs P (if b then m else Err (Fail e)).
Proof. intros H. destruct b; [by apply H|done]. Qed.

Lemma runs_check {A} (P : A -> Prop) (b : bool) e m :
  (b = false -> runs P m) -> runs P (if b then Err (Fail e) else m).
Proof. intros H. destruct b; [done|by apply H]. Qed.

(** Elements are byte strings within the size limit. *)
Definition elem_ok (v : bytes) : Prop := bytes_ok v /\ Z.of_nat (length v) <= MAX_SCRIPT_ELEMENT_SIZE.
Abbreviation elems_ok := (Forall elem_ok).

Create HintDb script.
#[export] Hint Resolve Forall_cons_2 Forall_nil_2 : script.

Lemma of_bool_ok b : elem_ok (of_bool b).
Proof. destruct b; (split; [by repeat constructor|by vm_compute]). Qed.

Lemma num_serialize_ok v : sint 64 v -> elem_ok (num_serialize v).
Proof.
  intros Hv. unfold elem_ok, MAX_SCRIPT_ELEMENT_SIZE. destruct (Z.eq_dec v 0) as [->|Hv0]; [done|].
  destruct (Z.eq_dec v INT64_MIN) as [->|Hm]; [split; [by repeat constructor|by vm_compute]|].
  destruct (num_serialize_spec v Hv Hv0 Hm) as (n & Hn & -> & Hok & _). split; [done|lia].
Qed.

Lemma CScriptNum_runs vch m (n : nat) :
  bytes_ok vch -> (n <= 7)%nat -> runs (fun v => Z.abs v < 2 ^ (8 * S n - 1)) (lift (CScriptNum_of vch m (S n))).
Proof.
  intros Hok Hn. rewrite CScriptNum_of_unfold. destruct (Z.ltb_spec (S n) (length vch)) as [|Hl]; [done|]. cbn [negb].
  destruct (negb _); [|done]. destruct vch as [|b vch0] eqn:E; [cbn; apply pow2_pos; lia|].
  rewrite <- E in *. destruct (length vch) as [|k] eqn:Hk; [subst; done|].
  rewrite (set_vch_spec vch k Hok Hk) by lia. cbn [lift runs].
  destruct (magnitude_split vch k Hok Hk ltac:(lia)) as [_ Ha].
  assert (2 ^ (8 * S k - 1) <= 2 ^ (8 * S n - 1)) by (apply Z.pow_le_mono_r; lia). destruct (negative _ _); lia.
Qed.

Lemma scriptnum_runs flags vch : elem_ok vch -> runs (fun v => Z.abs v < 2 ^ 31) (scriptnum flags vch).
Proof. intros [Hok _]. apply (CScriptNum_runs vch _ 3 Hok). lia. Qed.


Lemma to_i32_small (n : nat) : (n <= 1000)%nat -> to_i32 (Z.of_nat n) = Z.of_nat n.
Proof. intros Hn. apply swrap_small; [lia|]. unfold sint. lia. Qed.

(** The invariant: before an instruction both stacks hold at most 1000
    elements. *)
Definition elements_ok (st : eval_state) : Prop :=
  elems_ok (stack st) /\ elems_ok (altstack st) /\ 0 <= nOpCount st <= 201.
Definition state_ok (st : eval_state) : Prop :=
  elements_ok st /\ Z.of_nat (length (stack st)) + Z.of_nat (length (altstack st)) <= 1000.

Lemma output_elem n l : digest_ok n l -> Z.of_nat n <= MAX_SCRIPT_ELEMENT_SIZE -> elem_ok l.
Proof. intros [H <-] Hn. done. Qed.

Lemma stacktop_runs s i : elems_ok s -> 1 <= i <= length s -> runs elem_ok (stacktop s i).
Proof.
  intros Hs Hi. unfold stacktop. destruct (lookup_lt_is_Some_2 s (Z.to_nat (i - 1))) as [v Hv]; [lia|].
  rewrite Hv. cbn. by eapply Forall_lookup_1.
Qed.

Ltac elems := repeat match goal with H : elems_ok (_ :: _) |- _ => apply Forall_cons in H as [? H] end.
#[export] Hint Resolve of_bool_ok : script.

Lemma op_stack_runs opcode s :
  elems_ok s -> (length s <= 1000)%nat -> runs elems_ok (op_stack opcode s) /\ runs elems_ok (op_rot_size opcode s).
Proof.
  intros Hs Hl. assert (Hd : forall n : nat, (n <= 1000)%nat -> elem_ok (num_serialize (to_i64 n))).
  { intros n Hn. apply num_serialize_ok, swrap_range. lia. }
  pose proof (Hd _ Hl) as Hlen.
  assert (Hsz : forall v, elem_ok v -> elem_ok (num_serialize (to_i64 (length v)))).
  { intros v [_ Hv]. apply Hd. unfold MAX_SCRIPT_ELEMENT_SIZE in Hv. lia. }
  split; (destruct opcode; try exact I; unfold op_stack, op_rot_size;
    repeat (case_match; try exact I; subst); cbn [runs]; elems; eauto 10 with script).
Qed.

Lemma op_pick_runs flags roll s : elems_ok s -> (length s <= 1000)%nat -> runs elems_ok (op_pick flags roll s).
Proof.
  intros Hs Hl. destruct s as [|top [|x s]]; try exact I. apply Forall_cons in Hs as [Ht Hs].
  unfold op_pick. eapply runs_bind; [by apply scriptnum_runs|]. intros bn Hb; cbn beta in Hb. cbn beta zeta.
  rewrite to_i32_small by (cbn in *; lia). apply runs_check. intros Hn. apply orb_false_iff in Hn as [Hn1 Hn2].
  eapply runs_bind; [apply stacktop_runs; [done|lia]|]. intros vch Hv. cbn [runs].
  constructor; [done|]. destruct roll; [|done]. by apply Forall_delete.
Qed.

Lemma op_equal_runs verify s : elems_ok s -> runs elems_ok (op_equal verify s).
Proof.
  intros Hs. destruct s as [|x2 [|x1 s]]; try exact I. elems. unfold op_equal.
  destruct verify; [by case_match|cbn; auto with script].
Qed.

(** Numbers on the stack have at most four bytes, so arithmetic on them
    neither overflows nor fails an assertion. *)
Lemma num_bool_ok b : elem_ok (num_serialize (num_bool b)).
Proof. destruct b; apply num_serialize_ok; unfold sint; cbn; lia. Qed.
#[local] Hint Resolve num_bool_ok : script.

Lemma small_ok v : Z.abs v < 2 ^ 32 -> elem_ok (num_serialize v).
Proof. intros. apply num_serialize_ok. unfold sint. lia. Qed.

Lemma small_arith v :
  Z.abs v < 2 ^ 31 ->
  num_plus_assign v 1 = Ok (v + 1) /\ num_minus_assign v 1 = Ok (v - 1) /\ num_neg v = Ok (- v).
Proof.
  intros Hv. unfold num_plus_assign, num_minus_assign, num_neg. cbn [Z.eqb Z.ltb Z.compare orb andb].
  rewrite !(proj2 (Z.leb_le _ _)) by (unfold INT64_MAX, INT64_MIN; lia).
  rewrite (proj2 (Z.eqb_neq _ _)) by (unfold INT64_MIN; lia). done.
Qed.

Lemma op_numeric1_runs flags opcode s :
  opcode ∈ [OP_1ADD; OP_1SUB; OP_NEGATE; OP_ABS; OP_NOT; OP_0NOTEQUAL] ->
  elems_ok s -> runs elems_ok (op_numeric1 flags opcode s).
Proof.
  intros Hop Hs. destruct s as [|x s]; try exact I. elems. unfold op_numeric1.
  eapply runs_bind; [by apply scriptnum_runs|]. intros bn Hb; cbn beta in Hb.
  eapply runs_bind with (Q := fun v => Z.abs v < 2 ^ 32).
  - assert (Hnb : forall b, Z.abs (num_bool b) < 2 ^ 32) by (intros []; cbn; lia).
    destruct (small_arith bn Hb) as (Hp & Hm & Hn).
    repeat (apply elem_of_cons in Hop as [->|Hop]); [..|by apply not_elem_of_nil in Hop];
      rewrite ?Hp, ?Hm, ?Hn; cbn [lift runs]; auto; try lia;
      destruct (bn <? 0); cbn [runs lift]; lia.
  - intros v Hv. cbn. constructor; [by apply small_ok|done].
Qed.

Lemma op_numeric2_runs flags opcode s :
  opcode ∈ [OP_ADD; OP_SUB; OP_BOOLAND; OP_BOOLOR; OP_NUMEQUAL; OP_NUMEQUALVERIFY; OP_NUMNOTEQUAL; OP_LESSTHAN;
            OP_GREATERTHAN; OP_LESSTHANOREQUAL; OP_GREATERTHANOREQUAL; OP_MIN; OP_MAX] ->
  elems_ok s -> runs elems_ok (op_numeric2 flags opcode s).
Proof.
  intros Hop Hs. destruct s as [|x2 [|x1 s]]; try exact I. elems. unfold op_numeric2.
  eapply runs_bind; [by apply scriptnum_runs|]. intros bn1 Hb1; cbn beta in Hb1.
  eapply runs_bind; [by apply scriptnum_runs|]. intros bn2 Hb2; cbn beta in Hb2.
  eapply runs_bind with (Q := fun v => Z.abs v < 2 ^ 32).
  - assert (Hnb : forall b, Z.abs (num_bool b) < 2 ^ 32) by (intros []; cbn; lia).
    repeat (apply elem_of_cons in Hop as [->|Hop]); [..|by apply not_elem_of_nil in Hop]; cbn [runs]; auto;
      first [case_match; lia|rewrite swrap_small by (unfold sint; lia); lia].
  - intros v Hv. assert (elem_ok (num_serialize v)) by by apply small_ok.
    destruct opcode; cbn; eauto with script. by case_match.
Qed.

Lemma op_within_runs flags s : elems_ok s -> runs elems_ok (op_within flags s).
Proof.
  intros Hs. destruct s as [|x3 [|x2 [|x1 s]]]; try exact I. elems. unfold op_within.
  do 3 (eapply runs_bind; [by apply scriptnum_runs|]; intros ? ?). cbn. auto with script.
Qed.

Lemma Finalize_ok (h1 : hasher CSHA256) (h2 : hasher CSHA1) (h3 : hasher CRIPEMD160) :
  elem_ok (Finalize h1) /\ elem_ok (Finalize h2) /\ elem_ok (Finalize h3).
Proof.
  split_and!.
  - apply (output_elem 32); [|done]. apply words8_output. intros x. apply word_output_ok.
  - apply (output_elem 20); [|done]. apply words5_output. intros x. apply word_output_ok.
  - apply (output_elem 20); [|done]. apply words5_output. intros x. apply word_output_ok.
Qed.

Lemma op_digest_runs opcode s : elems_ok s -> runs elems_ok (op_digest opcode s).
Proof.
  intros Hs. destruct s as [|x s]; try exact I. elems. cbn [op_digest runs]. constructor; [|done].
  destruct opcode; try apply Finalize_ok; try exact (fresh _).
Qed.

Section safe_ops.
Context (CheckLowS : bytes -> bool) `{BaseSignatureChecker} (flags : Z) (script : CScript) (branch : Z).

Lemma check_encodings_runs sig key : runs (fun _ => True) (check_encodings CheckLowS sig key flags).
Proof. unfold check_encodings. destruct (bindR _ _) as [|[|]]; done. Qed.

Lemma op_checksig_runs verify s : elems_ok s -> runs elems_ok (op_checksig CheckLowS flags script branch verify s).
Proof.
  intros Hs. destruct s as [|key [|sig s]]; try exact I. elems. unfold op_checksig.
  eapply runs_bind; [apply check_encodings_runs|]. intros _ _.
  destruct verify; [by case_match|cbn; auto with script].
Qed.

(** Every index of the loop stays within the keys and signatures counted on
    the stack, and it ends within one pass per key. *)
Lemma multisig_loop_runs (n : nat) s isig nsigs ikey :
  elems_ok s -> 1 <= isig -> 1 <= ikey -> isig + nsigs <= length s -> ikey + n <= length s -> nsigs <= n ->
  runs (fun _ => True) (multisig_loop CheckLowS flags script branch n s isig nsigs ikey).
Proof.
  intros Hs. revert isig nsigs ikey. induction n as [|n IH]; intros isig nsigs ikey Hi Hk Hil Hkl Hn;
    cbn [multisig_loop]; (destruct (Z.leb_spec nsigs 0); [done|]); [lia|].
  eapply runs_bind; [apply stacktop_runs; [done|lia]|]. intros sig _.
  eapply runs_bind; [apply stacktop_runs; [done|lia]|]. intros key _.
  eapply runs_bind; [apply check_encodings_runs|]. intros _ _. cbn zeta.
  destruct (CheckSig _ _ _ _); (destruct (_ <? _) eqn:E; [done|apply Z.ltb_ge in E; apply IH; lia]).
Qed.

Lemma op_checkmultisig_runs verify st :
  state_ok st -> runs elements_ok (op_checkmultisig CheckLowS flags script branch verify st).
Proof.
  intros [(Hs & Ha & Hop) Hl]. unfold op_checkmultisig. cbn zeta. rewrite to_i32_small by lia.
  apply runs_check. intros H1%Z.ltb_ge.
  eapply runs_bind; [apply stacktop_runs; [done|lia]|]. intros top Ht.
  eapply runs_bind; [by apply scriptnum_runs|]. intros bn _.
  apply runs_require. intros Hk%negb_true_iff%orb_false_iff. destruct Hk as [Hk1%Z.ltb_ge Hk2%Z.ltb_ge].
  apply runs_require. intros Hops%negb_true_iff%Z.ltb_ge.
  apply runs_check. intros H2%Z.ltb_ge.
  eapply runs_bind; [apply stacktop_runs; [done|lia]|]. intros v Hv.
  eapply runs_bind; [by apply scriptnum_runs|]. intros bs _.
  apply runs_require. intros Hn%negb_true_iff%orb_false_iff. destruct Hn as [Hn1%Z.ltb_ge Hn2%Z.ltb_ge].
  apply runs_check. intros H3%Z.ltb_ge.
  eapply runs_bind; [apply multisig_loop_runs; try done; lia|]. intros ok _.
  assert (Hd : elems_ok (drop (Z.to_nat (1 + 1 + getint bn + 1 + getint bs - 1)) (stack st))) by by apply Forall_drop.
  destruct (drop _ _) as [|dummy r]; [done|]. apply Forall_cons in Hd as [_ Hr].
  apply runs_require. intros _.
  eapply runs_bind with (Q := elems_ok).
  - destruct verify; [by case_match|cbn; auto with script].
  - intros r' Hr'. cbn. split_and!; cbn; try done; lia.
Qed.

Lemma on_stack_runs st (m : result stop (list bytes)) :
  elements_ok st -> runs elems_ok m -> runs elements_ok (let* s := m in Ok (set_stack st s)).
Proof. intros (_ & Ha & Ho) Hm. eapply runs_bind; [exact Hm|]. intros r Hr. done. Qed.

Lemma check_runs st (m : result stop unit) :
  elements_ok st -> runs (fun _ => True) m -> runs elements_ok (let* _ := m in Ok st).
Proof. intros Hst Hm. eapply runs_bind; [exact Hm|]. done. Qed.

Lemma op_cltv_runs s : elems_ok s -> runs (fun _ => True) (op_checklocktimeverify flags s).
Proof.
  intros Hs. unfold op_checklocktimeverify. destruct (negb _); [by case_match|].
  destruct s as [|top s]; [done|]. elems.
  eapply runs_bind; [apply (CScriptNum_runs top _ 4); [by destruct select (elem_ok top)|lia]|].
  intros v _. repeat (apply runs_require; intros _). done.
Qed.
End safe_ops.

Section safe_eval.
Context (CheckLowS : bytes -> bool) `{BaseSignatureChecker} (flags : Z) (script : CScript) (branch : Z).

Lemma exec_runs st opcode fExec :
  state_ok st -> opcode ∈ [OP_IF; OP_NOTIF; OP_ELSE; OP_ENDIF; OP_TOALTSTACK; OP_FROMALTSTACK] ->
  runs elements_ok (eval_op CheckLowS flags script branch opcode fExec st).
Proof.
  intros [(Hs & Ha & Ho) _] Hop. destruct st as [s a v n]; cbn in Hs, Ha, Ho.
  repeat (apply elem_of_cons in Hop as [->|Hop]); [..|by apply not_elem_of_nil in Hop];
    cbn [eval_op]; unfold op_if, op_else, op_endif, op_toaltstack, op_fromaltstack; cbn [stack altstack vfExec nOpCount];
    repeat (case_match; try done); elems; cbn [runs]; split_and!; cbn; auto with script; lia.
Qed.

Lemma op_verify_runs s : elems_ok s -> runs elems_ok (op_verify s).
Proof. intros Hs. destruct s as [|x s]; [done|]. elems. unfold op_verify. by case_match. Qed.

Lemma eval_op_runs st opcode fExec :
  state_ok st -> runs elements_ok (eval_op CheckLowS flags script branch opcode fExec st).
Proof.
  intros Hst. pose proof Hst as [Hel Hl]. pose proof Hel as (Hs & Ha & Ho).
  destruct opcode; try exact I; try (apply exec_runs; [done|by repeat constructor]);
    try (apply check_runs; [done|]; first [by apply op_cltv_runs|unfold op_nop_upgradable; by case_match]);
    try (apply on_stack_runs; [done|];
         first [ apply op_stack_runs; [done|lia] | apply op_pick_runs; [done|lia] | by apply op_equal_runs
               | by apply op_checksig_runs | by apply op_verify_runs | by apply op_digest_runs | by apply op_within_runs
               | apply op_numeric1_runs; [by repeat constructor|done]
               | apply op_numeric2_runs; [by repeat constructor|done] ]);
    try by apply op_checkmultisig_runs.
  all: try exact Hel.
  all: (cbn [eval_op runs]; split_and!; [constructor; [apply small_ok; cbn; lia|done]|done|cbn; lia..]).
Qed.

Lemma eval_instruction_runs opcode vch st :
  state_ok st -> bytes_ok vch ->
  runs state_ok (eval_instruction CheckLowS flags script branch opcode vch st).
Proof.
  intros [(Hs & Ha & Ho) Hl] Hv. unfold eval_instruction. cbn zeta.
  apply runs_require. intros Hsz%negb_true_iff%Z.ltb_ge. apply runs_require. intros Hc%negb_true_iff.
  apply runs_require. intros _. cbn [stack altstack vfExec nOpCount].
  set (c := if op_gt opcode OP_16 then nOpCount st + 1 else nOpCount st) in *.
  assert (Hst : state_ok (EvalState (stack st) (altstack st) (vfExec st) c)).
  { split; [split_and!; cbn; try done; unfold c in *; destruct (op_gt _ _); lia|done]. }
  eapply runs_bind with (Q := elements_ok).
  - case_match.
    + apply runs_require. intros _. cbn. split_and!; cbn; try apply Hst. by constructor.
    + case_match; [by apply eval_op_runs|apply Hst].
  - intros st' Hst'. apply runs_require. intros Hn%negb_true_iff%Z.ltb_ge. split; [done|lia].
Qed.

(** Every pass reads at least a byte of the script. *)
Lemma eval_loop_runs (fuel : nat) pc st :
  state_ok st -> bytes_ok pc -> (length pc <= fuel)%nat ->
  runs state_ok (eval_loop CheckLowS flags script branch fuel pc st).
Proof.
  revert pc st. induction fuel as [|fuel IH]; intros pc st Hst Hpc Hf.
  - destruct pc; [done|cbn in Hf; lia].
  - destruct pc as [|b pc]; [done|]. cbn [eval_loop]. destruct (GetOp (b :: pc)) as [[[o d] pc']|] eqn:Hg; [|done].
    pose proof (GetOp_shorter _ _ _ _ Hg). apply GetOp_app in Hg as (b' & pre & Heq & _).
    rewrite Heq in Hpc, Hf. apply Forall_app in Hpc as [_ Hpc]. apply Forall_app in Hpc as [Hd Hpc].
    eapply runs_bind; [by apply eval_instruction_runs|]. intros st' Hst'. apply IH; [done|done|].
    rewrite <- Heq in Hf. lia.
Qed.
End safe_eval.

(** ** Running straight-line scripts *)

Section straight.
Context (CheckLowS : bytes -> bool) `{BaseSignatureChecker} (flags branch : Z) (script : CScript).
Local Abbreviation loop := (eval_loop CheckLowS flags script branch).

Lemma eval_loop_step (fuel : nat) pc o d pc' st :
  GetOp pc = Some (o, d, pc') -> (length pc <= fuel)%nat ->
  loop fuel pc st = let* st := eval_instruction CheckLowS flags script branch o d st in loop (pred fuel) pc' st.
Proof.
  intros Hg Hf. destruct pc as [|b pc]; [done|]. destruct fuel as [|fuel]; [cbn in Hf; lia|].
  cbn [eval_loop Nat.pred]. by rewrite Hg.
Qed.

(** A push of 2 to 75 bytes is direct. *)
Lemma GetOp_direct (d rest : bytes) :
  (2 <= length d <= 75)%nat -> Z.of_nat (length (d ++ rest)) < 2 ^ 32 ->
  push_data [] d ++ rest = Z.of_nat (length d) :: d ++ rest
  /\ GetOp (Z.of_nat (length d) :: d ++ rest) = Some (opcode_of (length d), d, rest).
Proof.
  intros Hd Hr. rewrite length_app in Hr. unfold push_data. rewrite app_nil_l.
  rewrite (proj2 (Z.ltb_lt (length d) (opcode_value OP_PUSHDATA1))) by (cbn; lia).
  rewrite wrap_small by (unfold uint; lia). split; [done|]. cbn [GetOp].
  rewrite (proj2 (Z.leb_le (length d) (opcode_value OP_PUSHDATA4))) by (cbn; lia).
  rewrite (proj2 (Z.ltb_lt (length d) (opcode_value OP_PUSHDATA1))) by (cbn; lia). cbn [mbind option_bind].
  rewrite wrap_small by (unfold uint; rewrite length_app; lia).
  rewrite (proj2 (Z.ltb_ge _ _)) by (rewrite length_app; lia).
  by rewrite Nat2Z.id, take_app_length, drop_app_length.
Qed.

Lemma is_disabled_high o : is_disabled o = true -> op_gt o OP_16 = true.
Proof. by destruct o. Qed.

Definition plain (s : list bytes) (n : Z) : eval_state := EvalState s [] [] n.

Lemma instruction_push d s n :
  (2 <= length d <= 75)%nat -> (length s < 1000)%nat ->
  eval_instruction CheckLowS flags script branch (opcode_of (length d)) d (plain s n) = Ok (plain (d :: s) n).
Proof.
  intros Hd Hs. unfold eval_instruction. cbn [plain stack altstack vfExec nOpCount forallb].
  unfold MAX_SCRIPT_ELEMENT_SIZE. rewrite (proj2 (Z.ltb_ge _ _)) by lia. cbn [negb].
  assert (Hlo : op_gt (opcode_of (length d)) OP_16 = false).
  { unfold op_gt. rewrite opcode_of_value. apply Z.ltb_ge. cbn. lia. }
  rewrite Hlo. cbn [andb negb].
  destruct (is_disabled _) eqn:E; [apply is_disabled_high in E; congruence|]. cbn [negb].
  unfold op_le. rewrite opcode_of_value, !(proj2 (Z.leb_le _ _)) by (cbn; lia). cbn [andb].
  assert (CheckMinimalPush d (opcode_of (length d)) = true) as ->.
  { unfold CheckMinimalPush. rewrite opcode_of_value, !(proj2 (Z.eqb_neq (length d) _)) by lia. cbn [andb].
    rewrite (proj2 (Z.leb_le _ _)) by lia. apply Z.eqb_refl. }
  rewrite andb_false_r. cbn [negb bindR set_stack stack altstack vfExec nOpCount length].
  by rewrite (proj2 (Z.ltb_ge _ _)) by lia.
Qed.

Lemma instruction_op o s n :
  op_gt o OP_16 = true -> is_disabled o = false -> n < 201 ->
  eval_instruction CheckLowS flags script branch o [] (plain s n)
  = let* st := eval_op CheckLowS flags script branch o true (plain s (n + 1)) in
    require negb (1000 <? length (stack st) + length (altstack st)) orelse Fail SCRIPT_ERR_STACK_SIZE in Ok st.
Proof.
  intros Ho Hd Hn. unfold eval_instruction. cbn [plain stack altstack vfExec nOpCount forallb length].
  rewrite Ho, Hd. change (negb (MAX_SCRIPT_ELEMENT_SIZE <? 0%nat)) with true. cbn [negb andb].
  rewrite (proj2 (Z.ltb_ge _ _)) by lia. cbn [negb].
  assert (op_le o OP_PUSHDATA4 = false) as ->.
  { unfold op_le, op_gt in *. apply Z.leb_gt. cbn in *. lia. }
  by rewrite andb_false_r.
Qed.

(** Reading one opcode that carries no data. *)
Lemma op_step (fuel : nat) o pc s n :
  (length (opcode_value o :: pc) <= fuel)%nat -> opcode_of (opcode_value o) = o ->
  op_gt o OP_16 = true -> is_disabled o = false -> n < 201 ->
  loop fuel (opcode_value o :: pc) (plain s n)
  = let* st := eval_op CheckLowS flags script branch o true (plain s (n + 1)) in
    let* st := require negb (1000 <? length (stack st) + length (altstack st)) orelse Fail SCRIPT_ERR_STACK_SIZE in Ok st in
    loop (pred fuel) pc st.
Proof.
  intros Hf Ho Hgt Hd Hn. erewrite eval_loop_step; [|cbn [GetOp]|done].
  - by rewrite instruction_op, bindR_assoc.
  - unfold op_gt in Hgt. rewrite (proj2 (Z.leb_gt _ _)) by (cbn in *; lia). by rewrite Ho.
Qed.

Lemma push_step (fuel : nat) d pc s n :
  (2 <= length d <= 75)%nat -> (length s < 1000)%nat -> (length (d ++ pc) < fuel)%nat ->
  Z.of_nat (length (d ++ pc)) < 2 ^ 32 ->
  loop fuel (push_data [] d ++ pc) (plain s n) = loop (pred fuel) pc (plain (d :: s) n).
Proof.
  intros Hd Hs Hf Hl. destruct (GetOp_direct d pc Hd Hl) as [-> Hg].
  rewrite (eval_loop_step _ _ _ _ _ _ Hg) by (cbn; lia). by rewrite instruction_push.
Qed.
End straight.

Section standard.
Context (CheckLowS : bytes -> bool) `{BaseSignatureChecker} (flags branch : Z).

Lemma EvalScript_small s script st :
  Z.of_nat (length script) <= 10000 ->
  eval_loop CheckLowS flags script branch (length script) script (plain s 0) = Ok st -> vfExec st = [] ->
  EvalScript CheckLowS s script flags branch = Ok (stack st).
Proof.
  intros Hl He Hv. unfold EvalScript, MAX_SCRIPT_SIZE. rewrite (proj2 (Z.ltb_ge _ _)) by lia.
  cbn [negb]. unfold plain in He. rewrite He. cbn [catch bindR]. by rewrite Hv.
Qed.

Lemma EvalScript_fail s script e :
  Z.of_nat (length script) <= 10000 ->
  eval_loop CheckLowS flags script branch (length script) script (plain s 0) = Err (Fail e) ->
  EvalScript CheckLowS s script flags branch = Err (Fail e).
Proof.
  intros Hl He. unfold EvalScript, MAX_SCRIPT_SIZE. rewrite (proj2 (Z.ltb_ge _ _)) by lia.
  cbn [negb]. unfold plain in He. by rewrite He.
Qed.

(** An opcode that works on the main stack alone. *)
Lemma stack_step (f : list bytes -> result stop (list bytes)) script (fuel : nat) o pc s s' n :
  (forall st, eval_op CheckLowS flags script branch o true st = let* s := f (stack st) in Ok (set_stack st s)) ->
  (length (opcode_value o :: pc) <= fuel)%nat -> opcode_of (opcode_value o) = o ->
  op_gt o OP_16 = true -> is_disabled o = false -> n < 201 ->
  f s = Ok s' -> (length s' <= 1000)%nat ->
  eval_loop CheckLowS flags script branch fuel (opcode_value o :: pc) (plain s n)
  = eval_loop CheckLowS flags script branch (pred fuel) pc (plain s' (n + 1)).
Proof.
  intros He Hf Ho Hgt Hd Hn Hs Hl. rewrite op_step, He by done. cbn [plain stack]. rewrite Hs.
  cbn [bindR set_stack stack altstack vfExec nOpCount length]. rewrite (proj2 (Z.ltb_ge 1000 _)) by (cbn; lia). done.
Qed.

Lemma stack_step_fail (f : list bytes -> result stop (list bytes)) script (fuel : nat) o pc s n e :
  (forall st, eval_op CheckLowS flags script branch o true st = let* s := f (stack st) in Ok (set_stack st s)) ->
  (length (opcode_value o :: pc) <= fuel)%nat -> opcode_of (opcode_value o) = o ->
  op_gt o OP_16 = true -> is_disabled o = false -> n < 201 -> f s = Err e ->
  eval_loop CheckLowS flags script branch fuel (opcode_value o :: pc) (plain s n) = Err e.
Proof. intros He Hf Ho Hgt Hd Hn Hs. rewrite op_step, He by done. cbn [plain stack]. by rewrite Hs. Qed.

Lemma op_hash160 x r : op_digest OP_HASH160 (x :: r) = Ok (hash160 x :: r).
Proof. unfold op_digest. rewrite (CHash160_spec _ x); [done|absorbs]. Qed.

(** The pay-to-script-hash output compares the hash of the top element. *)
Lemma eval_p2sh s h :
  length h = 20%nat -> (length s < 1000)%nat ->
  EvalScript CheckLowS s (p2sh_script h) flags branch
  = match s with
    | [] => Err (Fail SCRIPT_ERR_INVALID_STACK_OPERATION)
    | x :: r => Ok (of_bool (bool_decide (hash160 x = h)) :: r)
    end.
Proof.
  intros Hh Hs.
  assert (Hscr : p2sh_script h = opcode_value OP_HASH160 :: push_data [] h ++ [opcode_value OP_EQUAL])
    by (unfold push_data; by rewrite Hh).
  assert (Hlen : length (p2sh_script h) = 23%nat) by (unfold p2sh_script; rewrite !length_app, Hh; done).
  destruct s as [|x r].
  - apply EvalScript_fail; [lia|]. rewrite Hlen, Hscr.
    apply (stack_step_fail (op_digest OP_HASH160)); try done. rewrite <- Hscr. lia.
  - apply (EvalScript_small _ _ (plain (of_bool (bool_decide (hash160 x = h)) :: r) 2)); [lia|..|done].
    rewrite Hlen. rewrite Hscr at 2. cbn in Hs.
    erewrite (stack_step (op_digest OP_HASH160)); [|done|rewrite <- Hscr; lia|done|done|done|done|apply op_hash160|cbn; lia].
    rewrite push_step; [|cbn; rewrite ?length_app, ?Hh; cbn; lia..].
    by rewrite (stack_step (op_equal false) _ _ OP_EQUAL [] _ (of_bool (bool_decide (hash160 x = h)) :: r));
      [|done|cbn; lia|done..|cbn; lia].
Qed.

Lemma check_encodings_fail sig key e :
  check_encodings CheckLowS sig key flags = Err e -> exists e', e = Fail e'.
Proof. unfold check_encodings. destruct (bindR _ _) as [|[|]]; intros Heq; inversion Heq; eauto. Qed.

(** The pay-to-public-key-hash output compares the hash of the key and checks
    the signature. *)
Lemma eval_p2pkh key sig r h :
  length h = 20%nat -> (length r < 995)%nat ->
  EvalScript CheckLowS (key :: sig :: r) (p2pkh_script h) flags branch
  = if bool_decide (hash160 key = h) then
      let* _ := check_encodings CheckLowS sig key flags in
      Ok (of_bool (CheckSig sig key (p2pkh_script h) branch) :: r)
    else Err (Fail SCRIPT_ERR_EQUALVERIFY).
Proof.
  intros Hh Hs.
  assert (Hscr : p2pkh_script h = opcode_value OP_DUP :: opcode_value OP_HASH160 :: push_data [] h
                                  ++ [opcode_value OP_EQUALVERIFY; opcode_value OP_CHECKSIG])
    by (unfold push_data; by rewrite Hh).
  assert (Hlen : length (p2pkh_script h) = 25%nat) by (unfold p2pkh_script; rewrite !length_app, Hh; done).
  set (scr := p2pkh_script h) in *. set (ok := CheckSig sig key scr branch).
  assert (Hpre : eval_loop CheckLowS flags scr branch 25 scr (plain (key :: sig :: r) 0)
    = eval_loop CheckLowS flags scr branch 22 [opcode_value OP_EQUALVERIFY; opcode_value OP_CHECKSIG]
        (plain (h :: hash160 key :: key :: sig :: r) 2)).
  { pose proof (f_equal length Hscr) as Hl. cbn [length] in Hl. rewrite Hscr at 2.
    erewrite (stack_step (op_stack OP_DUP)); [|done|rewrite <- Hscr; lia|done..|cbn; lia].
    erewrite (stack_step (op_digest OP_HASH160)); [|done|cbn [length Nat.pred]; lia|done|done|done|done|apply op_hash160|cbn; lia].
    rewrite push_step; [done|cbn; rewrite ?length_app, ?Hh; cbn; lia..]. }
  destruct (bool_decide_reflect (hash160 key = h)) as [Heq|Hne].
  2: { apply EvalScript_fail; [lia|]. rewrite Hlen, Hpre. eapply (stack_step_fail (op_equal true)); try done; [cbn; lia|].
       cbn [op_equal]. by rewrite (bool_decide_eq_false_2 _ Hne). }
  assert (Hver : eval_loop CheckLowS flags scr branch 25 scr (plain (key :: sig :: r) 0)
    = eval_loop CheckLowS flags scr branch 21 [opcode_value OP_CHECKSIG] (plain (key :: sig :: r) 3)).
  { rewrite Hpre. apply (stack_step (op_equal true)); try done; [cbn; lia| |cbn; lia].
    cbn [op_equal]. by rewrite (bool_decide_eq_true_2 _ Heq). }
  destruct (check_encodings CheckLowS sig key flags) as [u|e] eqn:Henc; cbn [bindR].
  - apply (EvalScript_small _ _ (plain (of_bool ok :: r) 4)); [lia|..|done]. rewrite Hlen, Hver.
    erewrite (stack_step (op_checksig CheckLowS flags scr branch false)); [done|done|cbn; lia|done..| |].
    + cbn [op_checksig]. by rewrite Henc.
    + cbn; lia.
  - destruct (check_encodings_fail _ _ _ Henc) as [e' ->].
    apply EvalScript_fail; [lia|]. rewrite Hlen, Hver.
    apply (stack_step_fail (op_checksig CheckLowS flags scr branch false)); try done; [cbn; lia|].
    cbn [op_checksig]. by rewrite Henc.
Qed.
End standard.

Section spends.
Context (CheckLowS : bytes -> bool) `{BaseSignatureChecker} (flags branch : Z).

Lemma eval_push_all l script (fuel : nat) s n :
  Forall (fun d : bytes => (2 <= length d <= 75)%nat) l -> (length s + length l <= 1000)%nat ->
  (length (push_all l) <= fuel)%nat -> Z.of_nat (length (push_all l)) < 2 ^ 32 ->
  eval_loop CheckLowS flags script branch fuel (push_all l) (plain s n) = Ok (plain (rev l ++ s) n).
Proof.
  intros Hl. revert fuel s. induction Hl as [|d l Hd Hl IH]; intros fuel s Hs Hf Hlen; [by destruct fuel|].
  rewrite push_all_cons in Hf, Hlen |- *. cbn [length] in Hs.
  assert (Hcat : length (push_data [] d ++ push_all l) = S (length (d ++ push_all l))).
  { assert (Hsize : Z.of_nat (length (d ++ push_all l)) < 2 ^ 32).
    { unfold push_data in Hlen. rewrite app_nil_l, !length_app in *. lia. }
    by rewrite (proj1 (GetOp_direct d (push_all l) Hd Hsize)). }
  rewrite Hcat in Hf, Hlen. rewrite push_step by (done || lia). rewrite length_app in *.
  rewrite IH by (cbn [length]; lia). cbn [rev]. by rewrite <- app_assoc.
Qed.

Lemma EvalScript_push_all l :
  Forall (fun d : bytes => (2 <= length d <= 75)%nat) l -> (length l <= 130)%nat ->
  EvalScript CheckLowS [] (push_all l) flags branch = Ok (rev l).
Proof.
  intros Hl Hn. assert (Hlen : (length (push_all l) <= 76 * length l)%nat).
  { clear Hn. induction Hl as [|d l Hd Hl IH]; [done|]. rewrite push_all_cons, length_app. cbn [length].
    unfold push_data. rewrite (proj2 (Z.ltb_lt _ _)) by (cbn; lia). rewrite app_nil_l, length_app. cbn [length]. lia. }
  rewrite (EvalScript_small CheckLowS flags branch [] (push_all l) (plain (rev l ++ []) 0)); [|lia| |done].
  - cbn [plain stack]. by rewrite app_nil_r.
  - apply eval_push_all; cbn [length]; try done; lia.
Qed.

Lemma CastToBool_of_bool b : CastToBool (of_bool b) = b.
Proof. by destruct b. Qed.

(** The last test of [VerifyScript]. *)
Definition clean_stack (s : list bytes) : result stop unit :=
  if has_flag flags SCRIPT_VERIFY_CLEANSTACK
  then require (length s =? 1) orelse Fail SCRIPT_ERR_CLEANSTACK in Ok tt else Ok tt.

Lemma VerifyScript_plain scriptSig scriptPubKey s :
  IsPushOnly scriptSig = true -> (has_flag flags SCRIPT_VERIFY_CLEANSTACK = true -> has_flag flags SCRIPT_VERIFY_P2SH = true) ->
  IsPayToScriptHash scriptPubKey = false ->
  EvalScript CheckLowS [] scriptSig flags branch = Ok s ->
  VerifyScript CheckLowS scriptSig scriptPubKey flags branch
  = let* s := EvalScript CheckLowS s scriptPubKey flags branch in let* _ := require_true s in clean_stack s.
Proof.
  intros Hp Hf Hs He. unfold VerifyScript. rewrite Hp, He, Hs, !andb_false_r. cbn [negb bindR].
  destruct (EvalScript _ s _ _ _) as [s'|]; [|done]. cbn [bindR]. destruct (require_true s'); [|done]. cbn [bindR].
  unfold clean_stack. destruct (has_flag flags SCRIPT_VERIFY_CLEANSTACK); [|done]. by rewrite Hf.
Qed.

Lemma VerifyScript_p2sh scriptSig h redeem s :
  length h = 20%nat -> IsPushOnly scriptSig = true -> has_flag flags SCRIPT_VERIFY_P2SH = true ->
  EvalScript CheckLowS [] scriptSig flags branch = Ok (redeem :: s) -> (length s < 999)%nat ->
  VerifyScript CheckLowS scriptSig (p2sh_script h) flags branch
  = if bool_decide (hash160 redeem = h)
    then let* s := EvalScript CheckLowS s redeem flags branch in let* _ := require_true s in clean_stack s
    else Err (Fail SCRIPT_ERR_EVAL_FALSE).
Proof.
  intros Hh Hp Hf He Hl. unfold VerifyScript. rewrite Hp, He, Hf, andb_false_r. cbn [negb bindR].
  rewrite eval_p2sh by (cbn; done || lia). cbn [bindR require_true]. rewrite CastToBool_of_bool.
  destruct (bool_decide _); [|done]. cbn [bindR].
  assert (IsPayToScriptHash (p2sh_script h) = true) as -> by (apply p2sh_spec; eauto). cbn [andb].
  destruct (EvalScript _ s _ _ _) as [s'|]; [|done]. cbn [bindR]. by destruct (require_true s').
Qed.
End spends.

(** ** Multisignature *)

(** The order-preserving matching that the loop computes greedily. *)
Section matching.
Context (ok : bytes -> bytes -> bool).

Fixpoint greedy (sigs keys : list bytes) : bool :=
  match sigs, keys with
  | [], _ => true
  | _, [] => false
  | sig :: sigs', key :: keys => greedy (if ok sig key then sigs' else sigs) keys
  end.

Definition matches (sigs keys : list bytes) : Prop :=
  exists ks, ks `sublist_of` keys /\ Forall2 (fun sig key => ok sig key = true) sigs ks.

Lemma matches_tail sig sigs keys : matches (sig :: sigs) keys -> matches sigs keys.
Proof.
  intros (ks & Hk & HF). apply Forall2_cons_inv_l in HF as (k & ks' & _ & HF & ->).
  exists ks'. split; [|done]. etransitivity; [|exact Hk]. by apply sublist_cons.
Qed.

(** Taking the first key that fits never loses a matching. *)
Lemma greedy_matches sigs keys : greedy sigs keys = true <-> matches sigs keys.
Proof.
  revert sigs. induction keys as [|key keys IH]; intros sigs.
  - destruct sigs as [|sig sigs]; cbn [greedy].
    + split; [|done]. intros _. by exists [].
    + split; [done|]. intros (ks & Hk & HF). apply sublist_nil_r in Hk as ->. inversion HF.
  - destruct sigs as [|sig sigs]; cbn [greedy].
    { split; [|done]. intros _. exists []. split; [apply sublist_nil_l|done]. }
    rewrite IH. destruct (ok sig key) eqn:Hok.
    + split.
      * intros (ks & Hk & HF). exists (key :: ks). split; [by apply sublist_skip|by constructor].
      * intros (ks & Hk & HF). apply Forall2_cons_inv_l in HF as (k & ks' & Hk1 & HF & ->).
        exists ks'. split; [|done]. apply sublist_cons_r in Hk as [Hk|(ks'' & Heq & Hk)].
        -- etransitivity; [|exact Hk]. by apply sublist_cons.
        -- by injection Heq as -> ->.
    + split.
      * intros (ks & Hk & HF). exists ks. split; [by apply sublist_cons|done].
      * intros (ks & Hk & HF). exists ks. split; [|done].
        apply Forall2_cons_inv_l in HF as (k & ks' & Hk1 & HF & ->).
        apply sublist_cons_r in Hk as [Hk|(ks'' & Heq & Hk)]; [done|]. injection Heq as -> ->. congruence.
Qed.

Lemma greedy_short sigs keys : (length keys < length sigs)%nat -> greedy sigs keys = false.
Proof.
  intros Hl. destruct (greedy sigs keys) eqn:E; [|done]. apply greedy_matches in E as (ks & Hk & HF).
  apply sublist_length in Hk. apply Forall2_length in HF. lia.
Qed.
End matching.

Section multisig.
Context (CheckLowS : bytes -> bool) `{BaseSignatureChecker} (flags : Z) (script : CScript) (branch : Z).
Local Abbreviation ok := (fun sig key => CheckSig sig key script branch).
Definition encodings_ok (sigs keys : list bytes) : Prop :=
  Forall (fun sig => Forall (fun key => check_encodings CheckLowS sig key flags = Ok tt) keys) sigs.

Lemma stacktop_drop s (i : nat) x l : drop i s = x :: l -> stacktop s (i + 1) = Ok x /\ drop (S i) s = l.
Proof.
  intros Hd. unfold stacktop. replace (Z.to_nat (i + 1 - 1)) with i by lia.
  rewrite <- (Nat.add_0_r i) at 1. rewrite <- lookup_drop, Hd. split; [done|].
  replace (S i) with (i + 1)%nat by lia. by rewrite <- drop_drop, Hd.
Qed.

Lemma multisig_loop_greedy s sigs keys (isig ikey : nat) rs rk :
  encodings_ok sigs keys -> (length sigs <= length keys)%nat ->
  drop isig s = sigs ++ rs -> drop ikey s = keys ++ rk ->
  multisig_loop CheckLowS flags script branch (length keys) s (isig + 1) (length sigs) (ikey + 1)
  = Ok (greedy ok sigs keys).
Proof.
  revert sigs isig ikey. induction keys as [|key keys IH]; intros sigs isig ikey He Hl Hs Hk.
  { destruct sigs; [done|cbn in Hl; lia]. }
  destruct sigs as [|sig sigs]; [done|]. cbn [multisig_loop length greedy].
  destruct (Z.leb_spec (S (length sigs)) 0) as [|_]; [lia|].
  destruct (stacktop_drop s isig sig (sigs ++ rs) Hs) as [-> Hs'].
  destruct (stacktop_drop s ikey key (keys ++ rk) Hk) as [-> Hk']. cbn [bindR].
  pose proof (proj1 (Forall_cons _ _ _) He) as [He1 He2]. apply Forall_cons in He1 as [-> He1]. cbn [bindR].
  assert (Hen : forall l, l = sig :: sigs \/ l = sigs -> encodings_ok l keys).
  { assert (encodings_ok sigs keys) by (eapply Forall_impl; [exact He2|]; intros ? Hx; by apply Forall_cons in Hx as [_ Hx]).
    intros l [->| ->]; [by constructor|done]. }
  replace (ikey + 1 + 1) with (S ikey + 1) by lia.
  destruct (ok sig key) eqn:Hok; cbn beta in Hok; rewrite Hok; cbn match zeta.
  - replace (S (length sigs) - 1) with (Z.of_nat (length sigs)) by lia.
    replace (isig + 1 + 1) with (S isig + 1) by lia.
    destruct (Z.ltb_spec (length keys) (length sigs)) as [Hlt|Hge]; [rewrite greedy_short by lia; done|].
    apply IH; auto; lia.
  - destruct (Z.ltb_spec (length keys) (S (length sigs))) as [Hlt|Hge].
    + by rewrite greedy_short by (cbn; lia).
    + apply (IH (sig :: sigs)); auto; cbn; lia.
Qed.
End multisig.

(** ** The interpreter depends on what the checker answers *)

Definition same_answers (c1 c2 : BaseSignatureChecker) : Prop :=
  (forall sig key script branch, CheckSig (BaseSignatureChecker := c1) sig key script branch
                                 = CheckSig (BaseSignatureChecker := c2) sig key script branch)
  /\ (forall t, CheckLockTime (BaseSignatureChecker := c1) t = CheckLockTime (BaseSignatureChecker := c2) t).

(** Descend through the common structure of two computations. *)
Ltac ext_steps :=
  repeat match goal with
  | |- ?x = ?x => reflexivity
  | |- bindR ?m _ = bindR ?m _ => apply bindR_ext; intros ?
  | |- bindR ?m1 ?k = bindR ?m2 ?k => enough (m1 = m2) as -> by reflexivity
  | |- (if ?b then _ else _) = (if ?b then _ else _) => destruct b
  end.

Section checkers.
Context (CheckLowS : bytes -> bool) (c1 c2 : BaseSignatureChecker) (Hc : same_answers c1 c2) (flags branch : Z) (script : CScript).

Lemma op_checksig_ext verify s :
  op_checksig (H := c1) CheckLowS flags script branch verify s = op_checksig (H := c2) CheckLowS flags script branch verify s.
Proof. unfold op_checksig. destruct Hc as [Hs _]. destruct s as [|? [|? ?]]; [done|done|]. by rewrite Hs. Qed.

Lemma multisig_loop_ext n s isig nsigs ikey :
  multisig_loop (H := c1) CheckLowS flags script branch n s isig nsigs ikey
  = multisig_loop (H := c2) CheckLowS flags script branch n s isig nsigs ikey.
Proof.
  destruct Hc as [Hs _]. revert isig nsigs ikey. induction n as [|n IH]; intros isig nsigs ikey; cbn [multisig_loop]; [done|].
  destruct (nsigs <=? 0); [done|]. destruct (stacktop s isig); [|done]. destruct (stacktop s ikey); [|done]. cbn [bindR].
  rewrite Hs. destruct (check_encodings _ _ _ _); [|done]. cbn [bindR]. by rewrite IH.
Qed.

Lemma op_checkmultisig_ext verify st :
  op_checkmultisig (H := c1) CheckLowS flags script branch verify st
  = op_checkmultisig (H := c2) CheckLowS flags script branch verify st.
Proof.
  unfold op_checkmultisig. cbn zeta. ext_steps. rewrite multisig_loop_ext. ext_steps.
Qed.

Lemma op_cltv_ext s : op_checklocktimeverify (H := c1) flags s = op_checklocktimeverify (H := c2) flags s.
Proof. unfold op_checklocktimeverify. destruct Hc as [_ Hl]. ext_steps. destruct s; ext_steps. by rewrite Hl. Qed.

Lemma eval_op_ext opcode fExec st :
  eval_op (H := c1) CheckLowS flags script branch opcode fExec st = eval_op (H := c2) CheckLowS flags script branch opcode fExec st.
Proof.
  destruct opcode; try reflexivity; cbn [eval_op];
    rewrite ?op_cltv_ext, ?op_checksig_ext, ?op_checkmultisig_ext; reflexivity.
Qed.

Lemma eval_loop_ext fuel pc st :
  eval_loop (H := c1) CheckLowS flags script branch fuel pc st = eval_loop (H := c2) CheckLowS flags script branch fuel pc st.
Proof.
  revert pc st. induction fuel as [|fuel IH]; intros pc st; [done|]. destruct pc as [|b pc]; [done|]. cbn [eval_loop].
  destruct (GetOp (b :: pc)) as [[[o d] pc']|]; [|done].
  assert (eval_instruction (H := c1) CheckLowS flags script branch o d st
          = eval_instruction (H := c2) CheckLowS flags script branch o d st) as ->.
  { unfold eval_instruction. ext_steps. by rewrite eval_op_ext. }
  apply bindR_ext. intros st'. apply IH.
Qed.
End checkers.

Lemma EvalScript_ext CheckLowS c1 c2 s script flags branch :
  same_answers c1 c2 -> EvalScript (H := c1) CheckLowS s script flags branch = EvalScript (H := c2) CheckLowS s script flags branch.
Proof. intros Hc. unfold EvalScript. by rewrite (eval_loop_ext CheckLowS c1 c2 Hc). Qed.

Lemma VerifyScript_ext CheckLowS c1 c2 scriptSig scriptPubKey flags branch :
  same_answers c1 c2 ->
  VerifyScript (H := c1) CheckLowS scriptSig scriptPubKey flags branch
  = VerifyScript (H := c2) CheckLowS scriptSig scriptPubKey flags branch.
Proof.
  intros Hc. unfold VerifyScript. ext_steps. rewrite (EvalScript_ext CheckLowS c1 c2) by done. ext_steps.
  rewrite (EvalScript_ext CheckLowS c1 c2) by done. ext_steps. case_match; ext_steps.
  rewrite (EvalScript_ext CheckLowS c1 c2) by done. ext_steps.
Qed.

(** ** Properties *)

(** A computation that returns a value satisfying [P] or a script error. *)
Definition answers {A} (P : A -> Prop) (m : result stop A) : Prop :=
  (exists a, m = Ok a /\ P a) \/ exists e, m = Err (Fail e).

Lemma answers_bind {A B} (Q : A -> Prop) (P : B -> Prop) (m : result stop A) k :
  answers Q m -> (forall a, m = Ok a -> Q a -> answers P (k a)) -> answers P (bindR m k).
Proof. intros [(a & -> & Ha)|[e ->]] Hk; [by apply Hk|right; by exists e]. Qed.

Lemma answers_require {A} (P : A -> Prop) (b : bool) e m :
  (b = true -> answers P m) -> answers P (if b then m else Err (Fail e)).
Proof. intros H. destruct b; [by apply H|right; by exists e]. Qed.

(** [EvalScript] on a stack within the limits. *)
Definition stack_ok (s : list bytes) : Prop := elems_ok s /\ Z.of_nat (length s) <= 1000.

Lemma EvalScript_returns CheckLowS `{BaseSignatureChecker} s script flags branch :
  elems_ok s -> Z.of_nat (length s) <= 1000 -> bytes_ok script ->
  answers stack_ok (EvalScript CheckLowS s script flags branch).
Proof.
  intros Hs Hl Hb. unfold EvalScript. apply answers_require. intros _.
  assert (Hst : state_ok (EvalState s [] [] 0)) by (split; [split_and!; cbn; done || lia|cbn; lia]).
  pose proof (eval_loop_runs CheckLowS flags script branch (length script) script _ Hst Hb ltac:(done)) as Hr.
  destruct (eval_loop _ _ _ _ _ _ _) as [st|[e|[]|]]; try done; cbn [catch bindR]; [|right; eauto..].
  destruct Hr as [(He & _) Hn]. destruct (vfExec st); [left|right; eauto].
  exists (stack st). split; [done|]. split; [done|lia].
Qed.

(** C20: Evaluating any script is total and stays within the limits. From a stack
    of at most 1000 elements, each a byte string of at most 520 bytes,
    [EvalScript] returns either a stack of the same kind or a script error: it
    reads no stack out of range, overflows no number, fails no assertion, and
    the passes of its loop suffice. When the loop ends, both stacks together
    hold at most 1000 elements and at most 201 operations were counted. *)
Theorem evaluation_keeps_limits CheckLowS `{BaseSignatureChecker} s script flags branch :
  elems_ok s -> Z.of_nat (length s) <= 1000 -> bytes_ok script ->
  ((exists s', EvalScript CheckLowS s script flags branch = Ok s' /\ elems_ok s' /\ Z.of_nat (length s') <= 1000)
   \/ (exists e, EvalScript CheckLowS s script flags branch = Err (Fail e)))
  /\ (forall st, eval_loop CheckLowS flags script branch (length script) script (EvalState s [] [] 0) = Ok st ->
      Z.of_nat (length (stack st)) + Z.of_nat (length (altstack st)) <= 1000
      /\ elems_ok (altstack st) /\ nOpCount st <= 201).
Proof.
  intros Hs Hl Hb. split; [by apply EvalScript_returns|]. intros st Hst.
  assert (Hi : state_ok (EvalState s [] [] 0)) by (split; [split_and!; cbn; done || lia|cbn; lia]).
  pose proof (eval_loop_runs CheckLowS flags script branch (length script) script _ Hi Hb ltac:(done)) as Hr.
  rewrite Hst in Hr. destruct Hr as [(_ & Ha & Ho) Hn]. split_and!; [done..|lia].
Qed.

(** A checker that accepts a signature that starts with the byte of the key. *)
#[local] Instance toy_checker : BaseSignatureChecker :=
  {| CheckSig sig key _ _ := bool_decide (head sig = head key); CheckLockTime _ := false |}.
Definition toy_low (_ : bytes) : bool := true.

Lemma evaluation_keeps_limits_witness :
  exists s', EvalScript toy_low [[7]; [9]] [0x51; 0x93] 0 0 = Ok s' /\ elems_ok s'.
Proof.
  destruct (evaluation_keeps_limits toy_low [[7]; [9]] [0x51; 0x93] 0 0) as [[(s' & He & Hs & _)|[e He]] _].
  - repeat constructor; by vm_compute.
  - by vm_compute.
  - by repeat constructor.
  - by exists s'.
  - vm_compute in He. discriminate.
Defined.

Lemma require_true_total s : answers (fun _ => exists top s', s = top :: s' /\ CastToBool top = true) (require_true s).
Proof. destruct s as [|top s]; [right; by eexists|]. cbn. destruct (CastToBool top) eqn:E; [left|right]; eauto 10. Qed.

(** C21: [VerifyScript] answers every pair of scripts: unless the clean-stack flag
    is given without the pay-to-script-hash flag, it accepts or returns a script
    error. In particular its assertion that the stack of the signature script
    is not empty holds whenever it is reached. Accepting means that both
    scripts ran to the end and left a true element. *)
Theorem verify_script_answers CheckLowS `{BaseSignatureChecker} scriptSig scriptPubKey flags branch :
  bytes_ok scriptSig -> bytes_ok scriptPubKey ->
  (has_flag flags SCRIPT_VERIFY_CLEANSTACK = true -> has_flag flags SCRIPT_VERIFY_P2SH = true) ->
  (VerifyScript CheckLowS scriptSig scriptPubKey flags branch = Ok tt
   /\ exists s top s', EvalScript CheckLowS [] scriptSig flags branch = Ok s
      /\ EvalScript CheckLowS s scriptPubKey flags branch = Ok (top :: s') /\ CastToBool top = true)
  \/ exists e, VerifyScript CheckLowS scriptSig scriptPubKey flags branch = Err (Fail e).
Proof.
  intros Hsig Hpub Hf. set (P s s2 := exists top s', EvalScript CheckLowS s scriptPubKey flags branch = Ok (top :: s')
    /\ CastToBool top = true /\ s2 = tt).
  assert (Ha : answers (fun u => exists s, EvalScript CheckLowS [] scriptSig flags branch = Ok s /\ P s u)
    (VerifyScript CheckLowS scriptSig scriptPubKey flags branch)).
  { unfold VerifyScript. apply answers_require. intros _.
    eapply answers_bind; [apply EvalScript_returns; [done|by cbn|done]|]. intros s He1 [Hs Hl].
    eapply answers_bind; [by apply EvalScript_returns|]. intros s2 He2 [Hs2 _].
    eapply answers_bind with (Q := fun _ => P s tt); [|intros [] _ HP].
    { destruct (require_true_total s2) as [([] & -> & top & s' & -> & Ht)|[e ->]]; [left|right; eauto].
      exists tt. split; [done|]. by exists top, s'. }
    eapply answers_bind with (Q := fun _ => True).
    - destruct (has_flag flags SCRIPT_VERIFY_P2SH && _) eqn:E; [|left; eauto]. apply andb_true_iff in E as [_ Hp2sh].
      apply answers_require. intros _. apply p2sh_spec in Hp2sh as (h & Hh & ->).
      destruct s as [|redeem s]; [rewrite eval_p2sh in He2 by (done || cbn; lia); discriminate|].
      apply Forall_cons in Hs as [[Hr _] Hs].
      eapply answers_bind; [apply EvalScript_returns; [done|cbn in Hl; lia|done]|]. intros s3 _ _.
      eapply answers_bind ; [apply require_true_total|]. intros u _ _. left; eauto.
    - intros s3 _ _. destruct (has_flag flags SCRIPT_VERIFY_CLEANSTACK); [|left; eauto 10].
      rewrite Hf by done. apply answers_require. intros _. left; eauto 10. }
  destruct Ha as [([] & -> & s & Hs1 & top & s' & Hs2 & Ht & _)|He]; [left|by right]. split; [done|]. by exists s, top, s'.
Qed.

Lemma verify_script_answers_witness : VerifyScript toy_low [0x51] [0x51; 0x87] 0 0 = Ok tt.
Proof.
  destruct (verify_script_answers toy_low [0x51] [0x51; 0x87] 0 0) as [[H _]|[e He]]; [by repeat constructor..|done| |].
  - exact H.
  - vm_compute in He. discriminate.
Defined.

(** C18: What spending the two standard outputs takes. A pay-to-public-key-hash
    output is spent by a signature and a key, each pushed directly (2 to 75
    bytes), exactly when the key has the
    output's hash, both are encoded as the flags demand and the checker accepts
    the signature over that output's script; each failure has its own error. A
    pay-to-script-hash output is spent by a push-only script exactly when its
    last element has the output's hash and, run as a script on the elements
    below, leaves a true stack; with the clean-stack flag, of one element. *)
Theorem standard_spends CheckLowS `{BaseSignatureChecker} flags branch sig key h scriptSig redeem s :
  length h = 20%nat -> (2 <= length sig <= 75)%nat -> (2 <= length key <= 75)%nat ->
  (has_flag flags SCRIPT_VERIFY_CLEANSTACK = true -> has_flag flags SCRIPT_VERIFY_P2SH = true) ->
  VerifyScript CheckLowS (push_all [sig; key]) (p2pkh_script h) flags branch
  = (if bool_decide (hash160 key = h) then
       let* _ := check_encodings CheckLowS sig key flags in
       if CheckSig sig key (p2pkh_script h) branch then Ok tt else Err (Fail SCRIPT_ERR_EVAL_FALSE)
     else Err (Fail SCRIPT_ERR_EQUALVERIFY))
  /\ (IsPushOnly scriptSig = true -> has_flag flags SCRIPT_VERIFY_P2SH = true ->
      EvalScript CheckLowS [] scriptSig flags branch = Ok (redeem :: s) -> (length s < 999)%nat ->
      VerifyScript CheckLowS scriptSig (p2sh_script h) flags branch
      = if bool_decide (hash160 redeem = h)
        then let* s := EvalScript CheckLowS s redeem flags branch in let* _ := require_true s in clean_stack flags s
        else Err (Fail SCRIPT_ERR_EVAL_FALSE)).
Proof.
  intros Hh Hsig Hkey Hf. split; [|intros; by apply VerifyScript_p2sh].
  assert (Hl : Forall (fun d : bytes => (2 <= length d <= 75)%nat) [sig; key]) by (constructor; [done|by constructor]).
  assert (Hp : IsPushOnly (push_all [sig; key]) = true).
  { apply (scan_push_all [sig; key] _ []); [done|].
    rewrite !push_all_cons. unfold push_data, push_all. rewrite !(proj2 (Z.ltb_lt _ _)) by (cbn; lia).
    cbn [foldl]. rewrite !app_nil_l, !app_nil_r, !length_app. cbn [length]. lia. }
  assert (Hns : IsPayToScriptHash (p2pkh_script h) = false).
  { unfold IsPayToScriptHash, p2pkh_script. rewrite !length_app, Hh. done. }
  rewrite (VerifyScript_plain CheckLowS flags branch _ _ [key; sig] Hp Hf Hns);
    [|apply (EvalScript_push_all CheckLowS flags branch [sig; key] Hl); cbn; lia].
  rewrite eval_p2pkh by (done || cbn; lia). destruct (bool_decide _); [|done].
  destruct (check_encodings _ _ _ _); [|done]. cbn [bindR require_true]. rewrite CastToBool_of_bool.
  destruct (CheckSig _ _ _ _); [|done]. cbn [bindR]. unfold clean_stack. by destruct (has_flag flags _).
Qed.

(** A well-formed signature and a key for the checker above. *)
Definition toy_sig : bytes := [0x30; 6; 2; 1; 1; 2; 1; 1; 1].
Definition toy_key : bytes := replicate 33 0x30.

Lemma standard_spends_witness :
  VerifyScript toy_low (push_all [toy_sig; toy_key]) (p2pkh_script (hash160 toy_key)) 1 0 = Ok tt
  /\ VerifyScript toy_low [1; 0x51] (p2sh_script (hash160 [0x51])) 1 0 = Ok tt.
Proof.
  split.
  - destruct (standard_spends toy_low 1 0 toy_sig toy_key (hash160 toy_key) [] [] []) as [-> _];
      [by destruct (hash160_output toy_key)|cbn; lia|cbn; lia|done|].
    rewrite bool_decide_eq_true_2 by done. reflexivity.
  - destruct (standard_spends toy_low 1 0 toy_sig toy_key (hash160 [0x51]) [1; 0x51] [0x51] []) as [_ H];
      [by destruct (hash160_output [0x51])|cbn; lia|cbn; lia|done|].
    rewrite H; [|done|done|by vm_compute|cbn; lia].
    rewrite bool_decide_eq_true_2 by done. by vm_compute.
Defined.

Lemma scriptnum_count flags (n : nat) : (n <= 20)%nat -> scriptnum flags (num_serialize n) = Ok (Z.of_nat n).
Proof.
  intros Hn. destruct (serialize_decodes n) as [Hv Hm]; [unfold sint; lia|].
  unfold scriptnum. rewrite CScriptNum_of_unfold, Hv, Hm, andb_false_r. cbn [negb].
  do 21 (destruct n as [|n]; [by vm_compute|]). lia.
Qed.

Lemma multisig_unfold CheckLowS `{BaseSignatureChecker} flags script branch keys sigs dummy rest alt ex n :
  (length keys <= 20)%nat -> (length sigs <= length keys)%nat -> n + Z.of_nat (length keys) <= 201 ->
  encodings_ok CheckLowS flags sigs keys -> (length rest < 900)%nat ->
  op_checkmultisig CheckLowS flags script branch false
    (EvalState (num_serialize (length keys) :: keys ++ num_serialize (length sigs) :: sigs ++ dummy :: rest) alt ex n)
  = require negb (has_flag flags SCRIPT_VERIFY_NULLDUMMY && negb (length dummy =? 0)) orelse Fail SCRIPT_ERR_SIG_NULLDUMMY in
    Ok (EvalState (of_bool (greedy (fun sig key => CheckSig sig key script branch) sigs keys) :: rest) alt ex (n + length keys)).
Proof.
  intros Hk Hs Hn He Hr. unfold op_checkmultisig. cbn [stack nOpCount altstack vfExec]. cbn zeta.
  set (s := num_serialize (length keys) :: keys ++ num_serialize (length sigs) :: sigs ++ dummy :: rest).
  assert (Hl : length s = (length keys + length sigs + length rest + 3)%nat).
  { unfold s. cbn [length]. rewrite !length_app. cbn [length]. rewrite length_app. cbn [length]. lia. }
  assert (Hd1 : drop 1 s = keys ++ num_serialize (length sigs) :: sigs ++ dummy :: rest) by done.
  assert (Hd2 : drop (1 + length keys) s = num_serialize (length sigs) :: sigs ++ dummy :: rest).
  { rewrite <- drop_drop, Hd1. apply drop_app_length. }
  destruct (stacktop_drop s 0 _ _ eq_refl) as [Ht _], (stacktop_drop s _ _ _ Hd2) as [Ht2 Hd3].
  rewrite to_i32_small by lia. rewrite (proj2 (Z.ltb_ge (length s) 1)) by lia.
  change (stacktop s (0%nat + 1)) with (stacktop s 1) in Ht. rewrite Ht. cbn [bindR]. rewrite scriptnum_count by lia. cbn [bindR].
  assert (Hget : forall m : nat, (m <= 20)%nat -> getint m = m).
  { intros m Hm. unfold getint, INT_MAX, INT_MIN. rewrite !(proj2 (Z.ltb_ge _ _)) by lia. done. }
  rewrite Hget by lia. rewrite !(proj2 (Z.ltb_ge _ _)) by lia. cbn [orb negb].
  replace (1 + 1 + length keys) with ((1 + length keys)%nat + 1) by lia. rewrite Ht2. cbn [bindR].
  rewrite scriptnum_count by lia. cbn [bindR].
  rewrite Hget by lia. rewrite !(proj2 (Z.ltb_ge _ _)) by lia. cbn [orb negb]. rewrite Nat2Z.id.
  replace ((1 + length keys)%nat + 1 + 1) with (S (1 + length keys) + 1) by lia. change (1 + 1) with (1%nat + 1).
  rewrite (multisig_loop_greedy CheckLowS flags script branch s sigs keys _ _ _ _ He Hs Hd3 Hd1). cbn [bindR].
  replace (Z.to_nat _) with (S (1 + length keys) + length sigs)%nat by lia.
  rewrite <- drop_drop, Hd3, drop_app_length. reflexivity.
Qed.

(** C19: Multisignature checking finds a matching whenever there is one.
    [OP_CHECKMULTISIG] on [keys], [sigs] and a dummy element, all properly
    encoded, consumes them, counts one operation per key and pushes whether the
    signatures are valid for a subsequence of the keys, in the same order. The
    loop takes the first key that fits and gives up early when fewer keys than
    signatures are left; neither loses a matching. *)
Theorem multisig_matches CheckLowS `{BaseSignatureChecker} flags script branch keys sigs dummy rest alt ex n :
  (length keys <= 20)%nat -> (length sigs <= length keys)%nat -> n + Z.of_nat (length keys) <= 201 ->
  encodings_ok CheckLowS flags sigs keys -> has_flag flags SCRIPT_VERIFY_NULLDUMMY = false \/ dummy = [] ->
  (length rest < 900)%nat ->
  exists b,
    op_checkmultisig CheckLowS flags script branch false
      (EvalState (num_serialize (length keys) :: keys ++ num_serialize (length sigs) :: sigs ++ dummy :: rest) alt ex n)
    = Ok (EvalState (of_bool b :: rest) alt ex (n + length keys))
    /\ (b = true <-> exists ks, ks `sublist_of` keys /\ Forall2 (fun sig key => CheckSig sig key script branch = true) sigs ks).
Proof.
  intros Hk Hs Hn He Hd Hr. exists (greedy (fun sig key => CheckSig sig key script branch) sigs keys).
  split; [|apply greedy_matches]. rewrite multisig_unfold by (done || lia).
  destruct Hd as [->| ->]; [done|]. by rewrite andb_false_r.
Qed.

Lemma multisig_matches_witness :
  op_checkmultisig toy_low 0 [] 0 false
    (EvalState (num_serialize 3%nat :: [[5]; [0x30]; [0x30; 1]] ++ num_serialize 2%nat :: [toy_sig; toy_sig] ++ [[]]) [] [] 0)
  = Ok (EvalState [of_bool true] [] [] 3).
Proof.
  destruct (multisig_matches toy_low 0 [] 0 [[5]; [0x30]; [0x30; 1]] [toy_sig; toy_sig] [] [] [] [] 0) as (b & Hb & Hiff);
    [cbn; lia..|by repeat constructor|by right|cbn; lia|].
  assert (b = true) as ->; [|exact Hb]. apply Hiff.
  exists [[0x30]; [0x30; 1]]. split; [repeat constructor|by repeat constructor].
Defined.
