(* ===== verification/SigHash.v ===== *)
(** * Signature hashes and the transaction checker
    (src/script/interpreter.cpp, src/hash.h, src/pubkey.h)

    What a transparent signature signs: [SignatureHash] of all three
    transaction versions, the hashes cached for all inputs of a transaction,
    and [TransactionSignatureChecker], the checker that [Interpreter] runs
    scripts with.

    BLAKE2b is a function of libsodium and the elliptic-curve test of
    [CPubKey::Verify] one of libsecp256k1; both are arguments. Of BLAKE2b the
    binding theorem uses that it can be fed in pieces. *)

From S2P Require Import Prelude Serialize Digest Sha Ripemd Hash Amount Transaction Script Interpreter.
Local Open Scope Z_scope.
Local Open Scope code_scope.
Local Open Scope codec_scope.

(** ** Definitions *)

(** The three functions of libsodium that [CBLAKE2bWriter] calls. *)
Class Blake2b := {
  blake2b_state : Type;
  init_personal : bytes -> blake2b_state;
  update : blake2b_state -> bytes -> blake2b_state;
  final : blake2b_state -> bytes
}.

(** What their documentation says of feeding data in pieces, and the length of
    the hash. *)
Class Blake2bLaws `{Blake2b} : Prop := {
  update_nil st : update st [] = st;
  update_app st a b : update (update st a) b = update st (a ++ b);
  final_ok st : flat_ok 32 (final st)
}.

Inductive sighash_exn :=
| logic_error               (* the index or the hash type does not fit *)
| ser_failure (e : ser_error)
| sighash_assert            (* a failed assert *)
| vin_out_of_bounds.        (* [vin] is read past its end *)

Definition of_ser {A} (m : result ser_error A) : result sighash_exn A :=
  match m with Ok a => Ok a | Err e => Err (ser_failure e) end.

Inductive SigVersion := SIGVERSION_SPROUT | SIGVERSION_OVERWINTER | SIGVERSION_SAPLING.
Definition NOT_AN_INPUT : Z := 2 ^ 32 - 1.

(** [v[i]] for an unsigned index; [None] past the end. *)
Definition at_index {A} (v : list A) (i : Z) : option A := if i <? length v then v !! Z.to_nat i else None.

(** [for (i = first; i < first + n; i++)], collecting what each pass writes. *)
Fixpoint write_range (f : nat -> result sighash_exn bytes) (first n : nat) : result sighash_exn bytes :=
  match n with
  | O => Ok []
  | S n => let* b := f first in let* rest := write_range f (S first) n in Ok (b ++ rest)
  end.

(** *** The transaction as the first format signs it *)

Record CTransactionSignatureSerializer := SignatureSerializer {
  txTo : CMutableTransaction; scriptCode : CScript; nIn : Z;
  fAnyoneCanPay : bool; fHashSingle : bool; fHashNone : bool }.
Definition anyone_can_pay (nHashType : Z) : bool := negb (Z.land nHashType SIGHASH_ANYONECANPAY =? 0).
Definition hash_single (nHashType : Z) : bool := Z.land nHashType 0x1f =? SIGHASH_SINGLE.
Definition hash_none (nHashType : Z) : bool := Z.land nHashType 0x1f =? SIGHASH_NONE.
Definition new_serializer (txToIn : CMutableTransaction) (scriptCodeIn : CScript) (nInIn nHashTypeIn : Z)
  : CTransactionSignatureSerializer :=
  SignatureSerializer txToIn scriptCodeIn nInIn (anyone_can_pay nHashTypeIn) (hash_single nHashTypeIn) (hash_none nHashTypeIn).

Definition SerializeScriptCode (z : CTransactionSignatureSerializer) : bytes :=
  WriteCompactSize (length (scriptCode z)) ++ scriptCode z.

Definition SerializeInput (z : CTransactionSignatureSerializer) (nInput : Z) : result sighash_exn bytes :=
  let nInput := if fAnyoneCanPay z then nIn z else nInput in
  match at_index (vin (txTo z)) nInput with
  | None => Err vin_out_of_bounds
  | Some i =>
      let* p := of_ser (Serialize outpoint_codec (prevout i)) in
      require negb (nInput =? NOT_AN_INPUT) orelse sighash_assert in
      let* script := of_ser (if negb (nInput =? nIn z) then Serialize bytes_vec_codec [] else Ok (SerializeScriptCode z)) in
      let* sequence := of_ser (if negb (nInput =? nIn z) && (fHashSingle z || fHashNone z) then Serialize i32_codec 0
                               else Serialize u32_codec (nSequence i)) in
      Ok (p ++ script ++ sequence)
  end.

Definition SerializeOutput (z : CTransactionSignatureSerializer) (nOutput : Z) : result sighash_exn bytes :=
  if fHashSingle z && negb (nOutput =? nIn z) then of_ser (Serialize txout_codec txout_null)
  else match at_index (vout (txTo z)) nOutput with
       | None => Err vin_out_of_bounds
       | Some o => of_ser (Serialize txout_codec o)
       end.

(** The stream has version 0, which the JoinSplits are written for. *)
Definition sprout_Serialize (z : CTransactionSignatureSerializer) : result sighash_exn bytes :=
  let* version := of_ser (Serialize i32_codec (nVersion (txTo z))) in
  let nInputs := if fAnyoneCanPay z then 1%nat else length (vin (txTo z)) in
  let* inputs := write_range (fun i => SerializeInput z i) 0 nInputs in
  let nOutputs := if fHashNone z then 0%nat else if fHashSingle z then Z.to_nat (nIn z + 1) else length (vout (txTo z)) in
  let* outputs := write_range (fun i => SerializeOutput z i) 0 nOutputs in
  let* lockTime := of_ser (Serialize u32_codec (nLockTime (txTo z))) in
  let* js :=
    if 2 <=? nVersion (txTo z) then
      let* v := of_ser (Serialize (vector_of sizeof_JSDescription (js_codec 0)) (vJoinSplit (txTo z))) in
      Ok (v ++ if nonempty (vJoinSplit (txTo z)) then joinSplitPubKey (txTo z) ++ replicate 64 0 else [])
    else Ok [] in
  Ok (version ++ WriteCompactSize nInputs ++ inputs ++ WriteCompactSize nOutputs ++ outputs ++ lockTime ++ js).

(** *** The hashes of the later formats *)

Definition ZCASH_PREVOUTS_HASH_PERSONALIZATION : bytes := ascii_bytes "ZcashPrevoutHash".
Definition ZCASH_SEQUENCE_HASH_PERSONALIZATION : bytes := ascii_bytes "ZcashSequencHash".
Definition ZCASH_OUTPUTS_HASH_PERSONALIZATION : bytes := ascii_bytes "ZcashOutputsHash".
Definition ZCASH_JOINSPLITS_HASH_PERSONALIZATION : bytes := ascii_bytes "ZcashJSplitsHash".
Definition ZCASH_SHIELDED_SPENDS_HASH_PERSONALIZATION : bytes := ascii_bytes "ZcashSSpendsHash".
Definition ZCASH_SHIELDED_OUTPUTS_HASH_PERSONALIZATION : bytes := ascii_bytes "ZcashSOutputHash".

Section sighash.
Context `{Blake2b}.

(** [CBLAKE2bWriter]: the hash of what is written, one [operator<<] at a
    time; serializing may throw. *)
Record CBLAKE2bWriter := Blake2bWriter { writer_state : blake2b_state }.
Definition new_writer (personal : bytes) : CBLAKE2bWriter := Blake2bWriter (init_personal personal).
Definition put {A} (c : codec A) (ss : CBLAKE2bWriter) (obj : A) : result sighash_exn CBLAKE2bWriter :=
  let* b := of_ser (Serialize c obj) in Ok (Blake2bWriter (update (writer_state ss) b)).
Fixpoint put_all {A} (c : codec A) (ss : CBLAKE2bWriter) (l : list A) : result sighash_exn CBLAKE2bWriter :=
  match l with [] => Ok ss | a :: l => let* ss := put c ss a in put_all c ss l end.
Definition GetHash (ss : CBLAKE2bWriter) : bytes := final (writer_state ss).

Definition GetPrevoutHash (txTo : CMutableTransaction) : result sighash_exn bytes :=
  let* ss := put_all outpoint_codec (new_writer ZCASH_PREVOUTS_HASH_PERSONALIZATION) (map prevout (vin txTo)) in
  Ok (GetHash ss).
Definition GetSequenceHash (txTo : CMutableTransaction) : result sighash_exn bytes :=
  let* ss := put_all u32_codec (new_writer ZCASH_SEQUENCE_HASH_PERSONALIZATION) (map nSequence (vin txTo)) in
  Ok (GetHash ss).
Definition GetOutputsHash (txTo : CMutableTransaction) : result sighash_exn bytes :=
  let* ss := put_all txout_codec (new_writer ZCASH_OUTPUTS_HASH_PERSONALIZATION) (vout txTo) in Ok (GetHash ss).
Definition GetJoinSplitsHash (txTo : CMutableTransaction) : result sighash_exn bytes :=
  let* ss := put_all (js_codec (GetHeader txTo)) (new_writer ZCASH_JOINSPLITS_HASH_PERSONALIZATION) (vJoinSplit txTo) in
  let* ss := put uint256_codec ss (joinSplitPubKey txTo) in Ok (GetHash ss).

(** Every field of a spend but its signature. *)
Definition unsigned_spend_codec : codec (bytes * (bytes * (bytes * (bytes * bytes)))) :=
  uint256_codec >> uint256_codec >> uint256_codec >> uint256_codec >> flat_codec GROTH_PROOF_SIZE.
Definition unsigned_spend (d : SpendDescription) : bytes * (bytes * (bytes * (bytes * bytes))) :=
  (sd_cv d, (sd_anchor d, (sd_nullifier d, (sd_rk d, sd_zkproof d)))).
Definition GetShieldedSpendsHash (txTo : CMutableTransaction) : result sighash_exn bytes :=
  let* ss := put_all unsigned_spend_codec (new_writer ZCASH_SHIELDED_SPENDS_HASH_PERSONALIZATION)
               (map unsigned_spend (vShieldedSpend txTo)) in
  Ok (GetHash ss).
Definition GetShieldedOutputsHash (txTo : CMutableTransaction) : result sighash_exn bytes :=
  let* ss := put_all output_codec (new_writer ZCASH_SHIELDED_OUTPUTS_HASH_PERSONALIZATION) (vShieldedOutput txTo) in
  Ok (GetHash ss).

Record PrecomputedTransactionData := TransactionData {
  hashPrevouts : bytes; hashSequence : bytes; hashOutputs : bytes; hashJoinSplits : bytes;
  hashShieldedSpends : bytes; hashShieldedOutputs : bytes }.
Definition PrecomputedTransactionData_of (txTo : CMutableTransaction) : result sighash_exn PrecomputedTransactionData :=
  let* a := GetPrevoutHash txTo in
  let* b := GetSequenceHash txTo in
  let* c := GetOutputsHash txTo in
  let* d := GetJoinSplitsHash txTo in
  let* e := GetShieldedSpendsHash txTo in
  let* f := GetShieldedOutputsHash txTo in
  Ok (TransactionData a b c d e f).

Definition SignatureHashVersion (txTo : CMutableTransaction) : SigVersion :=
  if fOverwintered txTo then
    if nVersionGroupId txTo =? SAPLING_VERSION_GROUP_ID then SIGVERSION_SAPLING else SIGVERSION_OVERWINTER
  else SIGVERSION_SPROUT.

(** [cache ? cache->field : compute] under a condition; otherwise the null
    hash. *)
Definition part (cond : bool) (cache : option PrecomputedTransactionData)
    (field : PrecomputedTransactionData -> bytes) (compute : result sighash_exn bytes) : result sighash_exn bytes :=
  if cond then match cache with Some c => Ok (field c) | None => compute end else Ok null256.

Definition sighash_personalization (consensusBranchId : Z) : bytes := ascii_bytes "ZcashSigHash" ++ WriteLE32 consensusBranchId.

(** The hashes that the hash type selects. *)
Definition select_hashes (txTo : CMutableTransaction) (nIn nHashType : Z) (cache : option PrecomputedTransactionData)
  : result sighash_exn PrecomputedTransactionData :=
  let all := negb (hash_single nHashType) && negb (hash_none nHashType) in
  let* hPrevouts := part (negb (anyone_can_pay nHashType)) cache hashPrevouts (GetPrevoutHash txTo) in
  let* hSequence := part (negb (anyone_can_pay nHashType) && all) cache hashSequence (GetSequenceHash txTo) in
  let* hOutputs :=
    if all then part true cache hashOutputs (GetOutputsHash txTo)
    else if hash_single nHashType then
      match at_index (vout txTo) nIn with
      | Some o => let* ss := put txout_codec (new_writer ZCASH_OUTPUTS_HASH_PERSONALIZATION) o in Ok (GetHash ss)
      | None => Ok null256
      end
    else Ok null256 in
  let* hJoinSplits := part (nonempty (vJoinSplit txTo)) cache hashJoinSplits (GetJoinSplitsHash txTo) in
  let* hSpends := part (nonempty (vShieldedSpend txTo)) cache hashShieldedSpends (GetShieldedSpendsHash txTo) in
  let* hShieldedOutputs := part (nonempty (vShieldedOutput txTo)) cache hashShieldedOutputs (GetShieldedOutputsHash txTo) in
  Ok (TransactionData hPrevouts hSequence hOutputs hJoinSplits hSpends hShieldedOutputs).

(** The hash from Overwinter on, of the selected hashes and the input. *)
Definition sighash_message (scriptCode : CScript) (txTo : CMutableTransaction) (nIn nHashType amount consensusBranchId : Z)
    (h : PrecomputedTransactionData) : result sighash_exn bytes :=
  let sapling := match SignatureHashVersion txTo with SIGVERSION_SAPLING => true | _ => false end in
  let* ss := put u32_codec (new_writer (sighash_personalization consensusBranchId)) (GetHeader txTo) in
  let* ss := put u32_codec ss (nVersionGroupId txTo) in
  let* ss := put uint256_codec ss (hashPrevouts h) in
  let* ss := put uint256_codec ss (hashSequence h) in
  let* ss := put uint256_codec ss (hashOutputs h) in
  let* ss := put uint256_codec ss (hashJoinSplits h) in
  let* ss := if sapling
             then let* ss := put uint256_codec ss (hashShieldedSpends h) in put uint256_codec ss (hashShieldedOutputs h)
             else Ok ss in
  let* ss := put u32_codec ss (nLockTime txTo) in
  let* ss := put u32_codec ss (nExpiryHeight txTo) in
  let* ss := if sapling then put i64_codec ss (valueBalance txTo) else Ok ss in
  let* ss := put i32_codec ss nHashType in
  let* ss :=
    if negb (nIn =? NOT_AN_INPUT) then
      match at_index (vin txTo) nIn with
      | None => Err vin_out_of_bounds
      | Some i =>
          let* ss := put outpoint_codec ss (prevout i) in
          let* ss := put bytes_vec_codec ss scriptCode in
          let* ss := put i64_codec ss amount in
          put u32_codec ss (nSequence i)
      end
    else Ok ss in
  Ok (GetHash ss).

Definition SignatureHash (scriptCode : CScript) (txTo : CMutableTransaction) (nIn nHashType amount consensusBranchId : Z)
    (cache : option PrecomputedTransactionData) : result sighash_exn bytes :=
  require negb ((length (vin txTo) <=? nIn) && negb (nIn =? NOT_AN_INPUT)) orelse logic_error in
  match SignatureHashVersion txTo with
  | SIGVERSION_SPROUT =>
      require negb (hash_single nHashType && (length (vout txTo) <=? nIn)) orelse logic_error in
      let* txTmp := sprout_Serialize (new_serializer txTo scriptCode nIn nHashType) in
      let* hashType := of_ser (Serialize i32_codec nHashType) in
      Ok (CHash256_Finalize (Write (fresh CSHA256) (txTmp ++ hashType)))
  | _ =>
      let* h := select_hashes txTo nIn nHashType cache in
      sighash_message scriptCode txTo nIn nHashType amount consensusBranchId h
  end.

(** *** Public keys and the checker *)

(** [CPubKey]: the bytes of a key of valid size, or the invalid key. *)
Definition GetLen (chHeader : Z) : Z :=
  if (chHeader =? 2) || (chHeader =? 3) then COMPRESSED_PUBLIC_KEY_SIZE
  else if (chHeader =? 4) || (chHeader =? 6) || (chHeader =? 7) then PUBLIC_KEY_SIZE
  else 0.
Definition CPubKey_Set (vch : bytes) : option bytes :=
  let len := match vch with [] => 0 | b :: _ => GetLen b end in
  if negb (len =? 0) && (len =? length vch) then Some vch else None.
Definition ValidSize (vch : bytes) : bool :=
  match vch with [] => false | b :: _ => GetLen b =? length vch end.

(** [Verify hash vchSig] of a valid key. *)
Context (Verify : bytes -> bytes -> bytes -> bool).

Record checker := TransactionSignatureChecker_of {
  ck_txTo : CMutableTransaction; ck_nIn : Z; ck_amount : Z; ck_txdata : option PrecomputedTransactionData }.

(** [CheckSig]; it catches only [logic_error]. *)
Definition TransactionCheckSig (k : checker) (vchSigIn vchPubKey : bytes) (scriptCode : CScript) (consensusBranchId : Z)
  : result sighash_exn bool :=
  match CPubKey_Set vchPubKey, last vchSigIn with
  | Some pubkey, Some nHashType =>
      let vchSig := take (length vchSigIn - 1) vchSigIn in
      match SignatureHash scriptCode (ck_txTo k) (ck_nIn k) nHashType (ck_amount k) consensusBranchId (ck_txdata k) with
      | Ok sighash => Ok (Verify pubkey sighash vchSig)
      | Err logic_error => Ok false
      | Err e => Err e
      end
  | _, _ => Ok false
  end.

Definition TransactionCheckLockTime (k : checker) (lockTime : Z) : result sighash_exn bool :=
  let t := nLockTime (ck_txTo k) in
  if negb (((t <? LOCKTIME_THRESHOLD) && (lockTime <? LOCKTIME_THRESHOLD))
           || ((LOCKTIME_THRESHOLD <=? t) && (LOCKTIME_THRESHOLD <=? lockTime))) then Ok false
  else if t <? lockTime then Ok false
  else match at_index (vin (ck_txTo k)) (ck_nIn k) with
       | None => Err vin_out_of_bounds
       | Some i => Ok (negb (IsFinal i))
       end.

(** The checker that scripts are run with. On a well-formed transaction and an
    input of it neither method throws (shown below), so the value for a thrown
    exception is not used. *)
Definition TransactionSignatureChecker (k : checker) : BaseSignatureChecker := {|
  CheckSig sig key script branch := match TransactionCheckSig k sig key script branch with Ok b => b | Err _ => false end;
  CheckLockTime lockTime := match TransactionCheckLockTime k lockTime with Ok b => b | Err _ => false end |}.
End sighash.

(** ** Signatures are not part of what is signed *)

Definition unsigned_in (i : CTxIn) : CTxIn := TxIn (prevout i) [] (nSequence i).
Definition unsign_spend (d : SpendDescription) : SpendDescription :=
  Spend (sd_cv d) (sd_anchor d) (sd_nullifier d) (sd_rk d) (sd_zkproof d) (replicate 64 0).
Definition unsigned (t : CMutableTransaction) : CMutableTransaction :=
  MutableTransaction (fOverwintered t) (nVersion t) (nVersionGroupId t) (map unsigned_in (vin t)) (vout t)
    (nLockTime t) (nExpiryHeight t) (valueBalance t) (map unsign_spend (vShieldedSpend t)) (vShieldedOutput t)
    (vJoinSplit t) (joinSplitPubKey t) (replicate 64 0) (replicate 64 0).

Lemma nonempty_map {A B} (f : A -> B) l : nonempty (map f l) = nonempty l.
Proof. by destruct l. Qed.

Lemma at_index_map {A B} (f : A -> B) l i : at_index (map f l) i = f <$> at_index l i.
Proof. unfold at_index. rewrite length_map. destruct (i <? _); [apply list_lookup_fmap|done]. Qed.

Section ignores.
Context `{Blake2b}.

Lemma parts_unsigned t :
  GetPrevoutHash (unsigned t) = GetPrevoutHash t /\ GetSequenceHash (unsigned t) = GetSequenceHash t
  /\ GetOutputsHash (unsigned t) = GetOutputsHash t /\ GetJoinSplitsHash (unsigned t) = GetJoinSplitsHash t
  /\ GetShieldedSpendsHash (unsigned t) = GetShieldedSpendsHash t
  /\ GetShieldedOutputsHash (unsigned t) = GetShieldedOutputsHash t.
Proof.
  split_and!; try done; unfold GetPrevoutHash, GetSequenceHash, GetShieldedSpendsHash; cbn [vin vShieldedSpend unsigned];
    by rewrite map_map.
Qed.

Lemma data_unsigned t : PrecomputedTransactionData_of (unsigned t) = PrecomputedTransactionData_of t.
Proof.
  unfold PrecomputedTransactionData_of. by destruct (parts_unsigned t) as (-> & -> & -> & -> & -> & ->).
Qed.

Lemma select_unsigned t n ht c : select_hashes (unsigned t) n ht c = select_hashes t n ht c.
Proof.
  unfold select_hashes. destruct (parts_unsigned t) as (-> & -> & -> & -> & -> & ->).
  cbn [unsigned vout vJoinSplit vShieldedSpend vShieldedOutput]. by rewrite nonempty_map.
Qed.

Lemma message_unsigned sc t n ht amt br h :
  sighash_message sc (unsigned t) n ht amt br h = sighash_message sc t n ht amt br h.
Proof. unfold sighash_message. cbn [unsigned vin]. rewrite at_index_map. by destruct (at_index (vin t) n). Qed.

Lemma write_range_ext f g i m : (forall j, f j = g j) -> write_range f i m = write_range g i m.
Proof. intros Hfg. revert i. induction m as [|m IH]; intros i; [done|]. cbn [write_range]. by rewrite Hfg, IH. Qed.

Lemma sprout_unsigned sc t n ht :
  sprout_Serialize (new_serializer (unsigned t) sc n ht) = sprout_Serialize (new_serializer t sc n ht).
Proof.
  unfold sprout_Serialize. cbn [new_serializer txTo fAnyoneCanPay fHashNone fHashSingle unsigned vin vout nVersion
    nLockTime vJoinSplit joinSplitPubKey nIn]. rewrite length_map.
  rewrite (write_range_ext _ (fun i => SerializeInput (new_serializer t sc n ht) i)); [done|].
  intros j. unfold SerializeInput. cbn [new_serializer txTo fAnyoneCanPay nIn unsigned vin].
  rewrite at_index_map. by destruct (at_index (vin t) _).
Qed.

Lemma SignatureHash_unsigned sc t n ht amt br c :
  SignatureHash sc (unsigned t) n ht amt br c = SignatureHash sc t n ht amt br c.
Proof.
  unfold SignatureHash. rewrite select_unsigned, sprout_unsigned. cbn [unsigned vin vout]. rewrite length_map.
  change (SignatureHashVersion (unsigned t)) with (SignatureHashVersion t).
  destruct (negb _); [|done]. destruct (SignatureHashVersion t); [done|..];
    (destruct (select_hashes t n ht c); [|done]; apply message_unsigned).
Qed.

(** The cached hashes are those computed on demand. *)
Lemma SignatureHash_cached sc t n ht amt br c :
  PrecomputedTransactionData_of t = Ok c ->
  SignatureHash sc t n ht amt br (Some c) = SignatureHash sc t n ht amt br None.
Proof.
  intros Hc. unfold SignatureHash. replace (select_hashes t n ht (Some c)) with (select_hashes t n ht None); [done|].
  unfold select_hashes, part. unfold PrecomputedTransactionData_of in Hc.
  repeat (let E := fresh "E" in let x := fresh "h" in apply bindR_Ok in Hc as (x & E & Hc); rewrite E).
  by injection Hc as <-.
Qed.
End ignores.

(** ** What the writers hash *)

(** Two encodings followed by anything agree only on equal objects. *)
Lemma serialize_inj {A} (c : codec A) ok `{!Lawful c ok} a a' b b' s s' :
  ok a -> ok a' -> Serialize c a = Ok b -> Serialize c a' = Ok b' -> b ++ s = b' ++ s' -> a = a' /\ s = s'.
Proof.
  intros Ha Ha' Hb Hb' He. destruct (lawful_rt (c := c) a Ha) as (x & Hx & _ & Hu), (lawful_rt (c := c) a' Ha') as (x' & Hx' & _ & Hu').
  assert (x = b) as -> by congruence. assert (x' = b') as -> by congruence.
  specialize (Hu s). rewrite He, Hu' in Hu. by injection Hu as -> ->.
Qed.

(** A sequence of encodings without a length, ended by a suffix of fixed
    length, determines the objects. *)
Lemma serialize_all_inj {A} (c : codec A) ok `{!Lawful c ok} l l' b b' s s' :
  (forall a x, ok a -> Serialize c a = Ok x -> x <> []) -> Forall ok l -> Forall ok l' ->
  serialize_all c l = Ok b -> serialize_all c l' = Ok b' -> length s = length s' -> b ++ s = b' ++ s' ->
  l = l' /\ s = s'.
Proof.
  intros Hne Hl. revert l' b b'. induction Hl as [|a l Ha Hl IH]; intros l' b b' Hl' Hb Hb' Hs He.
  - injection Hb as <-. destruct Hl' as [|a' l' Ha' Hl']; [by injection Hb' as <-|]. exfalso.
    cbn [serialize_all] in Hb'. apply bindR_Ok in Hb' as (x & Hx & Hb'). apply bindR_Ok in Hb' as (y & Hy & Hb').
    injection Hb' as <-. apply (f_equal length) in He. rewrite !length_app in He. cbn in He.
    destruct x; [by apply (Hne a' [] Ha')|cbn in He; lia].
  - cbn [serialize_all] in Hb. apply bindR_Ok in Hb as (x & Hx & Hb). apply bindR_Ok in Hb as (y & Hy & Hb).
    injection Hb as <-. destruct Hl' as [|a' l' Ha' Hl'].
    + exfalso. injection Hb' as <-. apply (f_equal length) in He. rewrite !length_app in He. cbn in He.
      destruct x; [by apply (Hne a [] Ha)|cbn in He; lia].
    + cbn [serialize_all] in Hb'. apply bindR_Ok in Hb' as (x' & Hx' & Hb'). apply bindR_Ok in Hb' as (y' & Hy' & Hb').
      injection Hb' as <-. rewrite <- !app_assoc in He.
      destruct (serialize_inj c ok a a' x x' _ _ Ha Ha' Hx Hx' He) as [-> He'].
      by destruct (IH l' y y' Hl' Hy Hy' Hs He') as [-> ->].
Qed.

Lemma serialize_all_Ok {A} (c : codec A) ok `{!Lawful c ok} l : Forall ok l -> exists b, serialize_all c l = Ok b.
Proof. intros Hl. destruct (serialize_all_rt c ok l lawful_rt Hl) as (b & Hb & _). by exists b. Qed.

Section writers.
Context `{Blake2bLaws}.

Definition digest_of (personal data : bytes) : bytes := final (update (init_personal personal) data).
Definition wrote (personal data : bytes) : CBLAKE2bWriter := Blake2bWriter (update (init_personal personal) data).

Lemma new_wrote p : new_writer p = wrote p [].
Proof. unfold new_writer, wrote. by rewrite update_nil. Qed.

Lemma put_wrote {A} (c : codec A) p d a b :
  Serialize c a = Ok b -> put c (wrote p d) a = Ok (wrote p (d ++ b)).
Proof. intros Hb. unfold put, wrote. rewrite Hb. cbn [of_ser bindR writer_state]. by rewrite update_app. Qed.

Lemma put_all_wrote {A} (c : codec A) p d l b :
  serialize_all c l = Ok b -> put_all c (wrote p d) l = Ok (wrote p (d ++ b)).
Proof.
  revert d b. induction l as [|a l IH]; intros d b Hb; cbn [serialize_all put_all] in *.
  { injection Hb as <-. by rewrite app_nil_r. }
  apply bindR_Ok in Hb as (x & Hx & Hb). apply bindR_Ok in Hb as (y & Hy & Hb). injection Hb as <-.
  rewrite (put_wrote c p d a x Hx). cbn [bindR]. rewrite (IH (d ++ x) y Hy). by rewrite app_assoc.
Qed.

Lemma hash_all {A} (c : codec A) p l b :
  serialize_all c l = Ok b -> (let* ss := put_all c (new_writer p) l in Ok (GetHash ss)) = Ok (digest_of p b).
Proof. intros Hb. rewrite new_wrote, (put_all_wrote c p [] l b Hb). done. Qed.
End writers.

(** ** Binding *)

Section binding.
Context `{Blake2bLaws}.

Lemma overwinter_kinds t :
  tx_ok t -> fOverwintered t = true ->
  (nVersion t = OVERWINTER_TX_VERSION /\ nVersionGroupId t = OVERWINTER_VERSION_GROUP_ID)
  \/ (nVersion t = SAPLING_TX_VERSION /\ nVersionGroupId t = SAPLING_VERSION_GROUP_ID).
Proof.
  unfold tx_ok, tx_ok_into. intros (_ & _ & Hg & _) Hf. rewrite Hf in Hg. unfold is_overwinter_v3, is_sapling_v4 in Hg.
  cbn [andb] in Hg. destruct (nVersionGroupId t =? OVERWINTER_VERSION_GROUP_ID) eqn:E1, (nVersion t =? OVERWINTER_TX_VERSION) eqn:E2;
    destruct (nVersionGroupId t =? SAPLING_VERSION_GROUP_ID) eqn:E3, (nVersion t =? SAPLING_TX_VERSION) eqn:E4;
    cbn in Hg; try done; rewrite ?Z.eqb_eq in *; auto.
Qed.

(** The string that is hashed for an input, as a format: the header tells
    which fields it has. *)
Definition sapling_header : Z := make_header true SAPLING_TX_VERSION.
Definition preimage_codec :=
  seq_codec u32_codec (fun header =>
  let s := header =? sapling_header in
  u32_codec >> uint256_codec >> uint256_codec >> uint256_codec >> uint256_codec
  >> cond_codec s null256 uint256_codec >> cond_codec s null256 uint256_codec
  >> u32_codec >> u32_codec >> cond_codec s 0 i64_codec >> i32_codec
  >> outpoint_codec >> bytes_vec_codec >> i64_codec >> u32_codec).
Definition preimage (sc : CScript) (t : CMutableTransaction) (i : CTxIn) (ht amt : Z) (h : PrecomputedTransactionData) :=
  (GetHeader t, (nVersionGroupId t, (hashPrevouts h, (hashSequence h, (hashOutputs h, (hashJoinSplits h,
  (hashShieldedSpends h, (hashShieldedOutputs h, (nLockTime t, (nExpiryHeight t, (valueBalance t, (ht,
  (prevout i, (sc, (amt, nSequence i))))))))))))))).

Lemma message_digest sc t n i ht amt br h :
  tx_ok t -> fOverwintered t = true -> at_index (vin t) n = Some i -> n <> NOT_AN_INPUT ->
  exists b, Serialize preimage_codec (preimage sc t i ht amt h) = Ok b
  /\ sighash_message sc t n ht amt br h = Ok (digest_of (sighash_personalization br) b).
Proof.
  intros Hok Hf Hi Hn. unfold sighash_message, SignatureHashVersion, GetHeader. rewrite Hf, Hi, (proj2 (Z.eqb_neq _ _) Hn).
  unfold preimage, GetHeader. rewrite Hf. cbn [negb].
  destruct (overwinter_kinds t Hok Hf) as [[-> ->]|[-> ->]].
  - change (OVERWINTER_VERSION_GROUP_ID =? SAPLING_VERSION_GROUP_ID) with false.
    eexists. split; [reflexivity|]. rewrite new_wrote.
    repeat (erewrite put_wrote by reflexivity; cbn [bindR]). unfold GetHash, digest_of. cbn [writer_state wrote].
    do 3 f_equal. rewrite <- !app_assoc. reflexivity.
  - change (SAPLING_VERSION_GROUP_ID =? SAPLING_VERSION_GROUP_ID) with true.
    eexists. split; [reflexivity|]. rewrite new_wrote.
    repeat (erewrite put_wrote by reflexivity; cbn [bindR]). unfold GetHash, digest_of. cbn [writer_state wrote].
    do 3 f_equal. rewrite <- !app_assoc. reflexivity.
Qed.

(** Among the given inputs, two different ones with one hash, or one that
    hashes to zeros. *)
Definition blake_broken (queries : list (bytes * bytes)) : Prop :=
  (exists x y, x ∈ queries /\ y ∈ queries /\ x <> y /\ digest_of (fst x) (snd x) = digest_of (fst y) (snd y))
  \/ (exists x, x ∈ queries /\ digest_of (fst x) (snd x) = null256).

Lemma digest_eq qs p d p' d' :
  (p, d) ∈ qs -> (p', d') ∈ qs -> digest_of p d = digest_of p' d' -> (p = p' /\ d = d') \/ blake_broken qs.
Proof.
  intros Hq Hq' He. destruct (decide ((p, d) = (p', d'))) as [Heq|Hne]; [left; by injection Heq|].
  right; left. by exists (p, d), (p', d').
Qed.

Lemma optional_digest_eq qs (c c' : bool) p d d' :
  (c = true -> (p, d) ∈ qs) -> (c' = true -> (p, d') ∈ qs) ->
  (if c then digest_of p d else null256) = (if c' then digest_of p d' else null256) ->
  (c = c' /\ (c = true -> d = d')) \/ blake_broken qs.
Proof.
  destruct c, c'; intros Hq Hq' He.
  - destruct (digest_eq qs _ _ _ _ (Hq eq_refl) (Hq' eq_refl) He) as [[_ ->]|?]; [by left|by right].
  - right; right. exists (p, d). auto.
  - right; right. exists (p, d'). auto.
  - by left.
Qed.

(** What BLAKE2b is applied to for a message that signs everything: a
    personalisation and a byte string for each part, and the message. *)
Definition written {E} (r : result E bytes) : bytes := match r with Ok b => b | Err _ => [] end.
Definition part_queries (t : CMutableTransaction) : list (bytes * bytes) :=
  [(ZCASH_PREVOUTS_HASH_PERSONALIZATION, written (serialize_all outpoint_codec (map prevout (vin t))));
   (ZCASH_SEQUENCE_HASH_PERSONALIZATION, written (serialize_all u32_codec (map nSequence (vin t))));
   (ZCASH_OUTPUTS_HASH_PERSONALIZATION, written (serialize_all txout_codec (vout t)))]
  ++ (if nonempty (vJoinSplit t)
      then [(ZCASH_JOINSPLITS_HASH_PERSONALIZATION,
             written (serialize_all (js_codec (GetHeader t)) (vJoinSplit t)) ++ joinSplitPubKey t)] else [])
  ++ (if nonempty (vShieldedSpend t)
      then [(ZCASH_SHIELDED_SPENDS_HASH_PERSONALIZATION,
             written (serialize_all unsigned_spend_codec (map unsigned_spend (vShieldedSpend t))))] else [])
  ++ (if nonempty (vShieldedOutput t)
      then [(ZCASH_SHIELDED_OUTPUTS_HASH_PERSONALIZATION, written (serialize_all output_codec (vShieldedOutput t)))] else []).
Definition sighash_queries (sc : CScript) (t : CMutableTransaction) (n ht amt br : Z) : list (bytes * bytes) :=
  part_queries t
  ++ match at_index (vin t) n, select_hashes t n ht None with
     | Some i, Ok h => [(sighash_personalization br, written (Serialize preimage_codec (preimage sc t i ht amt h)))]
     | _, _ => []
     end.

(** A hash type that signs all inputs and outputs. *)
Definition signs_all (ht : Z) : Prop := anyone_can_pay ht = false /\ hash_single ht = false /\ hash_none ht = false.

(** The parts of a well-formed transaction, as byte strings. *)
Record part_bytes (t : CMutableTransaction) (bp bs bo bj bss bso : bytes) : Prop := {
  pb_prevouts : serialize_all outpoint_codec (map prevout (vin t)) = Ok bp;
  pb_sequence : serialize_all u32_codec (map nSequence (vin t)) = Ok bs;
  pb_outputs : serialize_all txout_codec (vout t) = Ok bo;
  pb_joinsplits : serialize_all (js_codec (GetHeader t)) (vJoinSplit t) = Ok bj;
  pb_spends : serialize_all unsigned_spend_codec (map unsigned_spend (vShieldedSpend t)) = Ok bss;
  pb_soutputs : serialize_all output_codec (vShieldedOutput t) = Ok bso
}.

Lemma part_queries_spec t bp bs bo bj bss bso :
  part_bytes t bp bs bo bj bss bso ->
  (ZCASH_PREVOUTS_HASH_PERSONALIZATION, bp) ∈ part_queries t /\ (ZCASH_SEQUENCE_HASH_PERSONALIZATION, bs) ∈ part_queries t
  /\ (ZCASH_OUTPUTS_HASH_PERSONALIZATION, bo) ∈ part_queries t
  /\ (nonempty (vJoinSplit t) = true -> (ZCASH_JOINSPLITS_HASH_PERSONALIZATION, bj ++ joinSplitPubKey t) ∈ part_queries t)
  /\ (nonempty (vShieldedSpend t) = true -> (ZCASH_SHIELDED_SPENDS_HASH_PERSONALIZATION, bss) ∈ part_queries t)
  /\ (nonempty (vShieldedOutput t) = true -> (ZCASH_SHIELDED_OUTPUTS_HASH_PERSONALIZATION, bso) ∈ part_queries t).
Proof.
  intros [H1 H2 H3 H4 H5 H6]. unfold part_queries. rewrite H1, H2, H3, H4, H5, H6. cbn [written].
  split_and!; try (intros ->); rewrite ?elem_of_app, ?list_elem_of_singleton, ?elem_of_cons; auto 10.
Qed.

(** Well-formed parts of an overwintered transaction. *)
Definition parts_ok (t : CMutableTransaction) : Prop :=
  Forall txin_ok (vin t) /\ Forall txout_ok (vout t) /\ Forall (js_ok (GetHeader t)) (vJoinSplit t)
  /\ Forall spend_ok (vShieldedSpend t) /\ Forall output_ok (vShieldedOutput t)
  /\ flat_ok 32 (joinSplitPubKey t) /\ uint 32 (nLockTime t) /\ uint 32 (nExpiryHeight t) /\ sint 64 (valueBalance t)
  /\ uint 32 (GetHeader t) /\ uint 32 (nVersionGroupId t).

Lemma flat_null : flat_ok 32 null256.
Proof. split; [done|]. by apply Forall_replicate. Qed.

Lemma tx_parts_ok t : tx_ok t -> fOverwintered t = true -> parts_ok t.
Proof.
  intros Hok Hf. destruct (overwinter_kinds t Hok Hf) as [[Hv Hg]|[Hv Hg]]; revert Hok;
    unfold tx_ok, tx_ok_into, parts_ok, GetHeader; rewrite Hf, Hv, Hg; cbn [mtx_default nVersionGroupId vShieldedSpend
      vShieldedOutput valueBalance joinSplitPubKey];
    unfold is_overwinter_v3, is_sapling_v4; cbn [andb orb negb Z.eqb Z.leb Z.compare Pos.compare Pos.compare_cont Pos.eqb
      OVERWINTER_VERSION_GROUP_ID SAPLING_VERSION_GROUP_ID OVERWINTER_TX_VERSION SAPLING_TX_VERSION];
    intros (_ & _ & _ & [_ Hi] & [_ Ho] & Hl & He & Hb & Hss & Hso & [_ Hj] & Hpk & _);
    (assert (flat_ok 32 (joinSplitPubKey t)) by (destruct (nonempty (vJoinSplit t)); [done|rewrite Hpk; apply flat_null])).
  - rewrite Hss, Hso, Hb. split_and!; try done; by vm_compute.
  - destruct Hss as [_ Hss], Hso as [_ Hso]. split_and!; try done; by vm_compute.
Qed.

Definition unsigned_spend_ok (x : bytes * (bytes * (bytes * (bytes * bytes)))) : Prop :=
  let '(a, (b, (c, (d, e)))) := x in
  flat_ok 32 a /\ flat_ok 32 b /\ flat_ok 32 c /\ flat_ok 32 d /\ flat_ok GROTH_PROOF_SIZE e.
#[export] Instance unsigned_spend_lawful : Lawful unsigned_spend_codec unsigned_spend_ok.
Proof.
  eapply lawful_ext; [unfold unsigned_spend_codec; lawful_fields|].
  intros (a & b & c & d & e). cbn. tauto.
Qed.

Lemma mapped_ok t : parts_ok t ->
  Forall outpoint_ok (map prevout (vin t)) /\ Forall (uint 32) (map nSequence (vin t))
  /\ Forall unsigned_spend_ok (map unsigned_spend (vShieldedSpend t)).
Proof.
  intros (Hi & _ & _ & Hs & _). rewrite !List.Forall_map. split_and!; eapply Forall_impl; [exact Hi| |exact Hi| |exact Hs|].
  - by intros i (Hp & _).
  - by intros i (_ & _ & Hq).
  - intros d (H1 & H2 & H3 & H4 & H5 & _). done.
Qed.

Lemma parts_exist t : parts_ok t -> exists bp bs bo bj bss bso, part_bytes t bp bs bo bj bss bso.
Proof.
  intros Hp. destruct (mapped_ok t Hp) as (H1 & H2 & H3). destruct Hp as (_ & Ho & Hj & _ & Hso & _).
  destruct (serialize_all_Ok outpoint_codec outpoint_ok _ H1) as [bp Hbp], (serialize_all_Ok u32_codec (uint 32) _ H2) as [bs Hbs],
    (serialize_all_Ok txout_codec txout_ok _ Ho) as [bo Hbo], (serialize_all_Ok (js_codec (GetHeader t)) _ _ Hj) as [bj Hbj],
    (serialize_all_Ok unsigned_spend_codec _ _ H3) as [bss Hbss], (serialize_all_Ok output_codec output_ok _ Hso) as [bso Hbso].
  by exists bp, bs, bo, bj, bss, bso.
Qed.

Lemma select_all t n ht bp bs bo bj bss bso :
  part_bytes t bp bs bo bj bss bso -> signs_all ht ->
  select_hashes t n ht None = Ok (TransactionData
    (digest_of ZCASH_PREVOUTS_HASH_PERSONALIZATION bp) (digest_of ZCASH_SEQUENCE_HASH_PERSONALIZATION bs)
    (digest_of ZCASH_OUTPUTS_HASH_PERSONALIZATION bo)
    (if nonempty (vJoinSplit t) then digest_of ZCASH_JOINSPLITS_HASH_PERSONALIZATION (bj ++ joinSplitPubKey t) else null256)
    (if nonempty (vShieldedSpend t) then digest_of ZCASH_SHIELDED_SPENDS_HASH_PERSONALIZATION bss else null256)
    (if nonempty (vShieldedOutput t) then digest_of ZCASH_SHIELDED_OUTPUTS_HASH_PERSONALIZATION bso else null256)).
Proof.
  intros [H1 H2 H3 H4 H5 H6] (Ha & Hs & Hn). unfold select_hashes, part. rewrite Ha, Hs, Hn. cbn [negb andb].
  unfold GetPrevoutHash, GetSequenceHash, GetOutputsHash. erewrite !hash_all by done. cbn [bindR].
  assert (HJ : GetJoinSplitsHash t = Ok (digest_of ZCASH_JOINSPLITS_HASH_PERSONALIZATION (bj ++ joinSplitPubKey t))).
  { unfold GetJoinSplitsHash. rewrite new_wrote, (put_all_wrote _ _ _ _ _ H4). cbn [bindR].
    erewrite put_wrote by reflexivity. done. }
  rewrite HJ. unfold GetShieldedSpendsHash, GetShieldedOutputsHash. erewrite !hash_all by done.
  by destruct (nonempty (vJoinSplit t)), (nonempty (vShieldedSpend t)), (nonempty (vShieldedOutput t)).
Qed.
End binding.

Lemma encodings_nonempty :
  (forall a x, outpoint_ok a -> Serialize outpoint_codec a = Ok x -> x <> [])
  /\ (forall a x, uint 32 a -> Serialize u32_codec a = Ok x -> x <> [])
  /\ (forall a x, txout_ok a -> Serialize txout_codec a = Ok x -> x <> [])
  /\ (forall v a x, js_ok v a -> Serialize (js_codec v) a = Ok x -> x <> [])
  /\ (forall a x, unsigned_spend_ok a -> Serialize unsigned_spend_codec a = Ok x -> x <> [])
  /\ (forall a x, output_ok a -> Serialize output_codec a = Ok x -> x <> []).
Proof.
  assert (Hflat : forall l s, flat_ok 32 l -> l ++ s <> []) by (intros [|] s [Hl _]; [done|discriminate]).
  split_and!.
  - intros [h n] x [Hh _] Hx. injection Hx as <-. by apply Hflat.
  - intros a x _ [= <-]. discriminate.
  - intros [v s] x _ Hx. injection Hx as <-. discriminate.
  - intros v a x _ Hx. cbn [Serialize js_codec struct_codec seq_codec i64_codec] in Hx.
    repeat (apply bindR_Ok in Hx as (? & Hy & Hx); try injection Hy as <-). injection Hx as <-. discriminate.
  - intros (a & b & c & d & e) x (Ha & _) Hx. injection Hx as <-. by apply Hflat.
  - intros [a b c d e f] x (Ha & _) Hx. injection Hx as <-. by apply Hflat.
Qed.

Section binding_theorem.
Context `{Blake2bLaws}.

Definition preimage_ok (x : Z * (Z * (bytes * (bytes * (bytes * (bytes * (bytes * (bytes * (Z * (Z * (Z * (Z *
    (COutPoint * (bytes * (Z * Z))))))))))))))) : Prop :=
  let '(header, (g, (a, (b, (c, (d, (e, (f, (l, (ex, (v, (h, (o, (s, (m, q))))))))))))))) := x in
  uint 32 header /\ uint 32 g /\ flat_ok 32 a /\ flat_ok 32 b /\ flat_ok 32 c /\ flat_ok 32 d
  /\ (if header =? sapling_header then flat_ok 32 e else e = null256)
  /\ (if header =? sapling_header then flat_ok 32 f else f = null256)
  /\ uint 32 l /\ uint 32 ex /\ (if header =? sapling_header then sint 64 v else v = 0) /\ sint 32 h
  /\ outpoint_ok o /\ script_ok s /\ sint 64 m /\ uint 32 q.

Lemma preimage_lawful : Lawful preimage_codec preimage_ok.
Proof.
  eapply lawful_ext.
  - unfold preimage_codec. apply seq_lawful; [apply _|]. intros header. cbn zeta.
    repeat first [apply seq2_lawful | apply cond_lawful_if | apply _].
  - intros (header & g & a & b & c & d & e & f & l & ex & v & h & o & s & m & q). cbn. unfold script_ok. tauto.
Qed.

(** A message to sign: an input of a well-formed transaction, a hash type that
    signs everything, and values in the range of their types. *)
Definition signable (sc : CScript) (t : CMutableTransaction) (n ht amt br : Z) : Prop :=
  tx_ok t /\ fOverwintered t = true /\ 0 <= n < length (vin t) /\ signs_all ht
  /\ script_ok sc /\ sint 32 ht /\ sint 64 amt /\ uint 32 br.

Lemma sapling_fields t : tx_ok t -> fOverwintered t = true -> (GetHeader t =? sapling_header) = false ->
  vShieldedSpend t = [] /\ vShieldedOutput t = [] /\ valueBalance t = 0.
Proof.
  intros Hok Hf Hh. destruct (overwinter_kinds t Hok Hf) as [[Hv Hg]|[Hv Hg]].
  - unfold tx_ok, tx_ok_into in Hok. rewrite Hf, Hv, Hg in Hok.
    destruct Hok as (_ & _ & _ & _ & _ & _ & _ & Hb & Hss & Hso & _). done.
  - unfold GetHeader in Hh. rewrite Hf, Hv in Hh. discriminate.
Qed.

Lemma preimage_is_ok sc t n ht amt br i bp bs bo bj bss bso h :
  signable sc t n ht amt br -> at_index (vin t) n = Some i -> part_bytes t bp bs bo bj bss bso ->
  select_hashes t n ht None = Ok h -> preimage_ok (preimage sc t i ht amt h).
Proof.
  intros (Hok & Hf & Hn & Hall & Hsc & Hht & Hamt & _) Hi Hpb Hh.
  pose proof (tx_parts_ok t Hok Hf) as Hp. rewrite (select_all t n ht _ _ _ _ _ _ Hpb Hall) in Hh. injection Hh as <-.
  assert (Hopt : forall (c : bool) p d, flat_ok 32 (if c then digest_of p d else null256))
    by (intros [] p d; [apply final_ok|apply flat_null]).
  assert (Hin : txin_ok i).
  { destruct Hp as (Hv & _). unfold at_index in Hi. destruct (_ <? _) in Hi; [|done]. by eapply Forall_lookup_1. }
  destruct Hin as (Hpo & _ & Hseq), Hp as (_ & _ & _ & _ & _ & _ & Hl & He & Hb & Hhd & Hg).
  unfold preimage, preimage_ok. cbn [hashPrevouts hashSequence hashOutputs hashJoinSplits hashShieldedSpends hashShieldedOutputs].
  destruct (GetHeader t =? sapling_header) eqn:E; [|destruct (sapling_fields t Hok Hf E) as (-> & -> & ->)];
    split_and!; try done; try apply final_ok; apply Hopt.
Qed.

(** The hash of a message is the digest of its preimage. *)
Lemma hash_of_message sc t n ht amt br h :
  signable sc t n ht amt br -> SignatureHash sc t n ht amt br None = Ok h ->
  exists i bp bs bo bj bss bso hs b,
    at_index (vin t) n = Some i /\ part_bytes t bp bs bo bj bss bso /\ select_hashes t n ht None = Ok hs
    /\ Serialize preimage_codec (preimage sc t i ht amt hs) = Ok b /\ preimage_ok (preimage sc t i ht amt hs)
    /\ h = digest_of (sighash_personalization br) b
    /\ sighash_queries sc t n ht amt br = part_queries t ++ [(sighash_personalization br, b)].
Proof.
  intros Hs Hh. pose proof Hs as (Hok & Hf & Hn & Hall & _).
  destruct (lookup_lt_is_Some_2 (vin t) (Z.to_nat n)) as [i Hi]; [lia|].
  assert (Hat : at_index (vin t) n = Some i) by (unfold at_index; by rewrite (proj2 (Z.ltb_lt _ _)) by lia).
  assert (Hni : n <> NOT_AN_INPUT).
  { unfold tx_ok, tx_ok_into in Hok. destruct Hok as (_ & _ & _ & [Hsz _] & _). unfold size_ok, MAX_SIZE in Hsz.
    unfold NOT_AN_INPUT. lia. }
  destruct (parts_exist t (tx_parts_ok t Hok Hf)) as (bp & bs & bo & bj & bss & bso & Hpb).
  assert (Hhs : exists hs, select_hashes t n ht None = Ok hs) by (eexists; by apply select_all). destruct Hhs as [hs Hhs].
  destruct (message_digest sc t n i ht amt br hs Hok Hf Hat Hni) as (b & Hb & Hmsg).
  exists i, bp, bs, bo, bj, bss, bso, hs, b. split_and!; try done; [by eapply preimage_is_ok| |].
  2: { unfold sighash_queries. by rewrite Hat, Hhs, Hb. }
  unfold SignatureHash in Hh. rewrite (proj2 (Z.leb_gt _ _)) in Hh by lia. cbn [andb negb] in Hh.
  rewrite Hhs in Hh. cbn [bindR] in Hh. rewrite Hmsg in Hh. unfold SignatureHashVersion in Hh. rewrite Hf in Hh.
  destruct (_ =? _) in Hh; congruence.
Qed.

Lemma sighash_personalization_inj br br' :
  uint 32 br -> uint 32 br' -> sighash_personalization br = sighash_personalization br' -> br = br'.
Proof.
  intros Hb Hb' He. apply app_inv_head in He. unfold WriteLE32 in He.
  apply (f_equal (lev 8)) in He. rewrite !lev_digits in He by lia. unfold uint in *.
  by rewrite !Z.mod_small in He by (cbn; lia).
Qed.

(** Equal parts come from equal lists. *)
Lemma parts_inj t t' bp bs bo bj bss bso bp' bs' bo' bj' bss' bso' :
  parts_ok t -> parts_ok t' -> GetHeader t = GetHeader t' ->
  part_bytes t bp bs bo bj bss bso -> part_bytes t' bp' bs' bo' bj' bss' bso' ->
  (bp = bp' -> map prevout (vin t) = map prevout (vin t')) /\ (bs = bs' -> map nSequence (vin t) = map nSequence (vin t'))
  /\ (bo = bo' -> vout t = vout t')
  /\ (bj ++ joinSplitPubKey t = bj' ++ joinSplitPubKey t' -> vJoinSplit t = vJoinSplit t' /\ joinSplitPubKey t = joinSplitPubKey t')
  /\ (bss = bss' -> map unsigned_spend (vShieldedSpend t) = map unsigned_spend (vShieldedSpend t'))
  /\ (bso = bso' -> vShieldedOutput t = vShieldedOutput t').
Proof.
  intros Hp Hp' Hh [H1 H2 H3 H4 H5 H6] [H1' H2' H3' H4' H5' H6'].
  destruct (mapped_ok t Hp) as (M1 & M2 & M3), (mapped_ok t' Hp') as (M1' & M2' & M3').
  destruct Hp as (_ & Ho & Hj & _ & Hso & [Hpk _] & _), Hp' as (_ & Ho' & Hj' & _ & Hso' & [Hpk' _] & _).
  destruct encodings_nonempty as (N1 & N2 & N3 & N4 & N5 & N6). rewrite <- Hh in *.
  split_and!; intros He; rewrite ?He in *.
  - by eapply (serialize_all_inj outpoint_codec outpoint_ok _ _ _ _ [] []).
  - by eapply (serialize_all_inj u32_codec (uint 32) _ _ _ _ [] []).
  - by eapply (serialize_all_inj txout_codec txout_ok _ _ _ _ [] []).
  - eapply (serialize_all_inj (js_codec (GetHeader t)) (js_ok (GetHeader t))); eauto; congruence.
  - by eapply (serialize_all_inj unsigned_spend_codec unsigned_spend_ok _ _ _ _ [] []).
  - by eapply (serialize_all_inj output_codec output_ok _ _ _ _ [] []).
Qed.
End binding_theorem.

Lemma unsigned_ins_eq l l' :
  map prevout l = map prevout l' -> map nSequence l = map nSequence l' -> map unsigned_in l = map unsigned_in l'.
Proof.
  revert l'. induction l as [|i l IH]; intros [|i' l'] Hp Hq; try done. cbn in *.
  injection Hp as Hp1 Hp2. injection Hq as Hq1 Hq2. rewrite (IH l' Hp2 Hq2). f_equal. unfold unsigned_in. congruence.
Qed.

Lemma unsign_spends_eq l l' : map unsigned_spend l = map unsigned_spend l' -> map unsign_spend l = map unsign_spend l'.
Proof.
  revert l'. induction l as [|i l IH]; intros [|i' l'] Hp; try done. cbn in *.
  injection Hp as ? ? ? ? ? Hp2. rewrite (IH l' Hp2). f_equal. unfold unsign_spend. congruence.
Qed.

Lemma version_of_header t t' :
  tx_ok t -> tx_ok t' -> fOverwintered t = true -> fOverwintered t' = true -> GetHeader t = GetHeader t' -> nVersion t = nVersion t'.
Proof.
  intros Hok Hok' Hf Hf' Hh. unfold GetHeader in Hh. rewrite Hf, Hf' in Hh.
  destruct (overwinter_kinds t Hok Hf) as [[Hv _]|[Hv _]], (overwinter_kinds t' Hok' Hf') as [[Hv' _]|[Hv' _]];
    rewrite Hv, Hv' in *; done.
Qed.

Lemma empty_joinsplits t : tx_ok t -> nonempty (vJoinSplit t) = false -> vJoinSplit t = [] /\ joinSplitPubKey t = null256.
Proof.
  intros Hok Hj. split; [by destruct (vJoinSplit t)|]. unfold tx_ok, tx_ok_into in Hok. rewrite Hj, andb_false_r in Hok.
  by destruct Hok as (_ & _ & _ & _ & _ & _ & _ & _ & _ & _ & _ & Hpk & _).
Qed.

(** Equal selected hashes give equal transactions up to signatures. *)
Section unsigned_equal.
Context `{Blake2bLaws}.

Lemma selected_inj t t' n n' ht ht' hs bp bs bo bj bss bso bp' bs' bo' bj' bss' bso' :
  tx_ok t -> tx_ok t' -> fOverwintered t = true -> fOverwintered t' = true ->
  signs_all ht -> signs_all ht' -> GetHeader t = GetHeader t' ->
  nVersionGroupId t = nVersionGroupId t' -> nLockTime t = nLockTime t' -> nExpiryHeight t = nExpiryHeight t' ->
  valueBalance t = valueBalance t' ->
  part_bytes t bp bs bo bj bss bso -> part_bytes t' bp' bs' bo' bj' bss' bso' ->
  select_hashes t n ht None = Ok hs -> select_hashes t' n' ht' None = Ok hs ->
  forall qs, part_queries t ⊆ qs -> part_queries t' ⊆ qs -> unsigned t = unsigned t' \/ blake_broken qs.
Proof.
  intros Hok Hok' Hf Hf' Ha Ha' Hh Hg Hl He Hb Hpb Hpb' Hs Hs' qs Hq Hq'.
  destruct (part_queries_spec t _ _ _ _ _ _ Hpb) as (Q1 & Q2 & Q3 & Q4 & Q5 & Q6).
  destruct (part_queries_spec t' _ _ _ _ _ _ Hpb') as (Q1' & Q2' & Q3' & Q4' & Q5' & Q6').
  rewrite (select_all t n ht _ _ _ _ _ _ Hpb Ha) in Hs. rewrite (select_all t' n' ht' _ _ _ _ _ _ Hpb' Ha') in Hs'.
  rewrite <- Hs' in Hs. injection Hs as E1 E2 E3 E4 E5 E6.
  destruct (digest_eq qs _ _ _ _ (Hq _ Q1) (Hq' _ Q1') E1) as [[_ D1]|?]; [|by right].
  destruct (digest_eq qs _ _ _ _ (Hq _ Q2) (Hq' _ Q2') E2) as [[_ D2]|?]; [|by right].
  destruct (digest_eq qs _ _ _ _ (Hq _ Q3) (Hq' _ Q3') E3) as [[_ D3]|?]; [|by right].
  destruct (optional_digest_eq qs _ _ _ _ _ (fun c => Hq _ (Q4 c)) (fun c => Hq' _ (Q4' c)) E4) as [[C4 D4]|?]; [|by right].
  destruct (optional_digest_eq qs _ _ _ _ _ (fun c => Hq _ (Q5 c)) (fun c => Hq' _ (Q5' c)) E5) as [[C5 D5]|?]; [|by right].
  destruct (optional_digest_eq qs _ _ _ _ _ (fun c => Hq _ (Q6 c)) (fun c => Hq' _ (Q6' c)) E6) as [[C6 D6]|?]; [|by right]. left.
  destruct (parts_inj t t' _ _ _ _ _ _ _ _ _ _ _ _ (tx_parts_ok t Hok Hf) (tx_parts_ok t' Hok' Hf') Hh Hpb Hpb')
    as (I1 & I2 & I3 & I4 & I5 & I6).
  assert (J : vJoinSplit t = vJoinSplit t' /\ joinSplitPubKey t = joinSplitPubKey t').
  { destruct (nonempty (vJoinSplit t)) eqn:E; [by apply I4, D4|].
    destruct (empty_joinsplits t Hok E) as [-> ->], (empty_joinsplits t' Hok' (eq_sym C4)) as [-> ->]. done. }
  assert (S5 : map unsign_spend (vShieldedSpend t) = map unsign_spend (vShieldedSpend t')).
  { destruct (vShieldedSpend t), (vShieldedSpend t'); try done. apply unsign_spends_eq, I5, D5. done. }
  assert (S6 : vShieldedOutput t = vShieldedOutput t').
  { destruct (vShieldedOutput t), (vShieldedOutput t'); try done. apply I6, D6. done. }
  unfold unsigned. destruct J as [-> ->]. rewrite Hf, Hf', (version_of_header t t'), Hg, Hl, He, Hb, S5, S6, (I3 D3) by done.
  by rewrite (unsigned_ins_eq _ _ (I1 D1) (I2 D2)).
Qed.
End unsigned_equal.

(** ** No exception escapes the checker *)

Section total.
Context `{Blake2bLaws}.

Lemma put_ok {A} (c : codec A) ok `{!Lawful c ok} ss a : ok a -> exists ss', put c ss a = Ok ss'.
Proof. intros Ha. destruct (lawful_rt (c := c) a Ha) as (b & Hb & _). unfold put. rewrite Hb. eauto. Qed.

Lemma select_total t n ht : tx_ok t -> fOverwintered t = true -> exists hs, select_hashes t n ht None = Ok hs.
Proof.
  intros Hok Hf. pose proof (tx_parts_ok t Hok Hf) as Hp.
  destruct (parts_exist t Hp) as (bp & bs & bo & bj & bss & bso & [H1 H2 H3 H4 H5 H6]).
  assert (Hpart : forall (c : bool) f m, (exists h, m = Ok h) -> exists h, part c None f m = Ok h)
    by (intros [] f m Hm; [exact Hm|by eexists]).
  destruct (Hpart (negb (anyone_can_pay ht)) hashPrevouts (GetPrevoutHash t)) as [a Ea];
    [eexists; by apply hash_all|].
  destruct (Hpart (negb (anyone_can_pay ht) && (negb (hash_single ht) && negb (hash_none ht))) hashSequence (GetSequenceHash t)) as [b Eb];
    [eexists; by apply hash_all|].
  destruct (Hpart true hashOutputs (GetOutputsHash t)) as [c Ec]; [eexists; by apply hash_all|].
  destruct (Hpart (nonempty (vJoinSplit t)) hashJoinSplits (GetJoinSplitsHash t)) as [d Ed].
  { unfold GetJoinSplitsHash. rewrite new_wrote, (put_all_wrote _ _ _ _ _ H4). cbn [bindR].
    erewrite put_wrote by reflexivity. by eexists. }
  destruct (Hpart (nonempty (vShieldedSpend t)) hashShieldedSpends (GetShieldedSpendsHash t)) as [e Ee];
    [eexists; by apply hash_all|].
  destruct (Hpart (nonempty (vShieldedOutput t)) hashShieldedOutputs (GetShieldedOutputsHash t)) as [f Ef];
    [eexists; by apply hash_all|].
  unfold select_hashes. rewrite Ea. cbn [bindR]. rewrite Eb. cbn [bindR]. rewrite Ec, Ed, Ee, Ef.
  destruct (negb (hash_single ht) && negb (hash_none ht)); [by eexists|]. destruct (hash_single ht); [|by eexists].
  destruct (at_index (vout t) n) as [o|] eqn:Eo; [|by eexists].
  assert (Ho : txout_ok o).
  { destruct Hp as (_ & Hp & _). unfold at_index in Eo. destruct (_ <? _) in Eo; [|done]. by eapply Forall_lookup_1. }
  destruct (put_ok txout_codec txout_ok (new_writer ZCASH_OUTPUTS_HASH_PERSONALIZATION) o Ho) as [ss ->]. by eexists.
Qed.

Lemma at_index_some {A} (l : list A) n : 0 <= n < length l -> exists a, at_index l n = Some a /\ l !! Z.to_nat n = Some a.
Proof.
  intros Hn. destruct (lookup_lt_is_Some_2 l (Z.to_nat n)) as [a Ha]; [lia|]. exists a. split; [|done].
  unfold at_index. by rewrite (proj2 (Z.ltb_lt _ _)) by lia.
Qed.

Lemma write_range_ok f i n : (forall j, (i <= j < i + n)%nat -> exists b, f j = Ok b) -> exists b, write_range f i n = Ok b.
Proof.
  revert i. induction n as [|n IH]; intros i Hf; [by eexists|]. cbn [write_range].
  destruct (Hf i) as [b ->]; [lia|]. cbn [bindR]. destruct (IH (S i)) as [r ->]; [intros j Hj; apply Hf; lia|]. by eexists.
Qed.

Lemma js_version_0 v l : 0 <= v < 2 ^ 31 -> Forall (js_ok (make_header false v)) l -> Forall (js_ok 0) l.
Proof.
  intros Hv Hl. eapply Forall_impl; [exact Hl|]. intros j Hj. unfold js_ok in *.
  assert (useGroth_of (make_header false v) = useGroth_of 0) as <-; [|exact Hj].
  destruct (make_header_spec false v Hv) as [-> _]. unfold useGroth_of. rewrite Z.add_0_r.
  rewrite swrap_small by (unfold sint; lia). rewrite Z.shiftr_div_pow2, Z.div_small by lia. done.
Qed.

Lemma sprout_total t sc n ht :
  tx_ok t -> fOverwintered t = false -> 0 <= n < length (vin t) -> hash_single ht = false \/ n < length (vout t) ->
  exists b, sprout_Serialize (new_serializer t sc n ht) = Ok b.
Proof.
  intros Hok Hf Hn Hso. unfold tx_ok, tx_ok_into in Hok. rewrite Hf in Hok.
  destruct Hok as (Hv & _ & _ & [Hsz Hi] & [_ Ho] & _ & _ & _ & _ & _ & Hj & _). unfold sprout_Serialize.
  cbn [new_serializer txTo fAnyoneCanPay fHashNone fHashSingle nIn]. cbn zeta.
  match goal with |- context[write_range ?f 0 ?k] => destruct (write_range_ok f 0 k) as [bi Hbi] end.
  { intros j Hj'. unfold SerializeInput. cbn [new_serializer txTo fAnyoneCanPay fHashNone fHashSingle nIn].
    set (m := if anyone_can_pay ht then n else j). destruct (at_index_some (vin t) m) as (i & -> & _).
    { unfold m. destruct (anyone_can_pay ht); lia. }
    unfold size_ok, MAX_SIZE in Hsz. rewrite (proj2 (Z.eqb_neq m NOT_AN_INPUT)).
    2: { unfold m, NOT_AN_INPUT. destruct (anyone_can_pay ht); lia. }
    cbn [negb of_ser bindR]. destruct (m =? n); cbn [negb andb of_ser bindR]; [by eexists|].
    destruct (_ || _); by eexists. }
  rewrite Hbi. cbn [of_ser bindR].
  match goal with |- context[write_range ?f 0 ?k] => destruct (write_range_ok f 0 k) as [bo Hbo] end.
  { intros j Hj'. unfold SerializeOutput. cbn [new_serializer txTo fHashSingle nIn].
    destruct (hash_single ht && negb (j =? n)) eqn:E; [by eexists|].
    destruct (at_index_some (vout t) j) as (o & -> & _); [|by eexists].
    destruct (hash_none ht); [lia|]. destruct (hash_single ht); [|lia]. cbn [andb] in E. apply negb_false_iff, Z.eqb_eq in E.
    destruct Hso; [done|]. lia. }
  rewrite Hbo. cbn [of_ser bindR]. destruct (2 <=? nVersion t); [|by eexists]. destruct Hj as [Hjs Hj].
  assert (Hvec : vec_ok (js_ok 0) (vJoinSplit t)) by (split; [done|by eapply js_version_0]).
  destruct (lawful_rt (Lawful := vector_of_lawful sizeof_JSDescription (js_codec 0) (js_ok 0) _ ltac:(by vm_compute)) _ Hvec)
    as (bj & -> & _). by eexists.
Qed.
End total.

(** ** Properties *)

(** C17: From Overwinter on, a signature hash that signs everything binds the
    whole transaction. If two messages (an input of a well-formed transaction
    with the script, amount, hash type and branch it is signed under) have the
    same hash, then the transactions are equal up to their signatures, the two
    inputs spend the same output with the same sequence, and script, amount,
    hash type and branch are equal, unless BLAKE2b maps two different ones of
    the byte strings hashed for the two messages to one hash, or one of them to
    zeros. *)
Theorem signature_hash_binding `{Blake2bLaws} sc t n ht amt br sc' t' n' ht' amt' br' h :
  signable sc t n ht amt br -> signable sc' t' n' ht' amt' br' ->
  SignatureHash sc t n ht amt br None = Ok h -> SignatureHash sc' t' n' ht' amt' br' None = Ok h ->
  (unsigned t = unsigned t'
   /\ unsigned_in <$> at_index (vin t) n = unsigned_in <$> at_index (vin t') n'
   /\ sc = sc' /\ amt = amt' /\ ht = ht' /\ br = br')
  \/ blake_broken (sighash_queries sc t n ht amt br ++ sighash_queries sc' t' n' ht' amt' br').
Proof.
  intros Hs Hs' Hh Hh'.
  destruct (hash_of_message sc t n ht amt br h Hs Hh) as (i & bp & bs & bo & bj & bss & bso & hs & b & Hi & Hpb & Hsel & Hb & Hpo & -> & ->).
  destruct (hash_of_message sc' t' n' ht' amt' br' _ Hs' Hh') as (i' & bp' & bs' & bo' & bj' & bss' & bso' & hs' & b' & Hi' & Hpb' & Hsel' & Hb' & Hpo' & He & ->).
  destruct (fun qs Hq Hq' => digest_eq qs _ _ _ _ Hq Hq' He) with
    (qs := (part_queries t ++ [(sighash_personalization br, b)]) ++ part_queries t' ++ [(sighash_personalization br', b')])
    as [[Hp <-]|?]; [rewrite !elem_of_app, !list_elem_of_singleton; auto..| |by right].
  destruct (serialize_inj preimage_codec preimage_ok (Lawful0 := preimage_lawful) _ _ _ _ [] [] Hpo Hpo' Hb Hb' eq_refl) as [Hpre _].
  destruct Hs as (Hok & Hf & _ & Ha & _ & _ & _ & Hbr), Hs' as (Hok' & Hf' & _ & Ha' & _ & _ & _ & Hbr').
  unfold preimage in Hpre. injection Hpre as Hhd Hg P1 P2 P3 P4 P5 P6 Hl Hex Hv Hht Hout Hsc Hamt Hq.
  assert (hs = hs') as -> by (destruct hs, hs'; cbn in *; congruence).
  destruct (selected_inj t t' n n' ht ht' hs' _ _ _ _ _ _ _ _ _ _ _ _ Hok Hok' Hf Hf' Ha Ha' Hhd Hg Hl Hex Hv Hpb Hpb' Hsel Hsel')
    with (qs := (part_queries t ++ [(sighash_personalization br, b)]) ++ part_queries t' ++ [(sighash_personalization br', b)])
    as [Hu|?]; [intros x Hx; rewrite !elem_of_app; auto..|left|by right].
  split_and!; try done; [|by apply sighash_personalization_inj].
  rewrite Hi, Hi'. cbn. unfold unsigned_in. congruence.
Qed.

(** A function with the laws above, for the witnesses. *)
#[local] Instance toy_blake : Blake2b := {|
  blake2b_state := (bytes * bytes)%type; init_personal p := (p, []); update st d := (fst st, snd st ++ d);
  final st := digest (D := CSHA256) (fst st ++ snd st) |}.
#[local] Instance toy_blake_laws : Blake2bLaws.
Proof.
  split; cbn.
  - intros [p d]. by rewrite app_nil_r.
  - intros [p d] a b. by rewrite <- app_assoc.
  - intros [p d]. destruct (sha256_output (p ++ d)). by split.
Qed.

(** A transaction of one input, with and without its signature script. *)
Definition toy_tx (scriptSig : bytes) : CMutableTransaction :=
  MutableTransaction true 4 SAPLING_VERSION_GROUP_ID [TxIn (OutPoint null256 3) scriptSig 0xFFFFFFFE] [TxOut 5 [0x51]]
    7 0 0 [] [] [] null256 (replicate 64 0) (replicate 64 0).

Lemma toy_tx_ok s : script_ok s -> tx_ok (toy_tx s).
Proof.
  intros Hs. assert (flat_ok 32 null256) by apply flat_null. unfold tx_ok, tx_ok_into, toy_tx.
  cbn [fOverwintered nVersion nVersionGroupId vin vout nLockTime nExpiryHeight valueBalance
       vShieldedSpend vShieldedOutput vJoinSplit joinSplitPubKey joinSplitSig bindingSig nonempty].
  change (is_sapling_v4 true 4 SAPLING_VERSION_GROUP_ID) with true. rewrite orb_true_r. cbn [andb orb negb Z.leb Z.compare].
  assert (Hin : txin_ok (TxIn (OutPoint null256 3) s 0xFFFFFFFE)) by (split_and!; done).
  assert (Hout : txout_ok (TxOut 5 [0x51])).
  { split; [done|]. split; [done|]. by repeat constructor. }
  split_and!; try done; (split; [done|]; first [by apply Forall_nil|by apply Forall_singleton]).
Qed.

Lemma toy_signable s : script_ok s -> signable [0x51] (toy_tx s) 0 SIGHASH_ALL 5 1.
Proof.
  intros Hs. split_and!; try done; [by apply toy_tx_ok|]. split; [done|by repeat constructor].
Qed.

Lemma signature_hash_binding_witness :
  (unsigned (toy_tx [1; 2]) = unsigned (toy_tx []) /\ unsigned_in <$> at_index (vin (toy_tx [1; 2])) 0
    = unsigned_in <$> at_index (vin (toy_tx [])) 0 /\ [0x51] = [0x51] /\ 5 = 5 /\ SIGHASH_ALL = SIGHASH_ALL /\ 1 = 1)
  \/ blake_broken (sighash_queries [0x51] (toy_tx [1; 2]) 0 SIGHASH_ALL 5 1 ++ sighash_queries [0x51] (toy_tx []) 0 SIGHASH_ALL 5 1).
Proof.
  assert (Hs : script_ok [1; 2] /\ script_ok []) by (split; (split; [done|by repeat constructor])).
  destruct (SignatureHash [0x51] (toy_tx []) 0 SIGHASH_ALL 5 1 None) as [h|e] eqn:E.
  - apply (signature_hash_binding [0x51] (toy_tx [1; 2]) 0 SIGHASH_ALL 5 1 [0x51] (toy_tx []) 0 SIGHASH_ALL 5 1 h);
      [exact (toy_signable _ (proj1 Hs))|exact (toy_signable _ (proj2 Hs))| |exact E].
    rewrite <- E, <- (SignatureHash_unsigned _ (toy_tx [1; 2])), <- (SignatureHash_unsigned _ (toy_tx [])).
    change (unsigned (toy_tx [1; 2])) with (unsigned (toy_tx [])). reflexivity.
  - exfalso. unfold SignatureHash in E.
    destruct (select_total (toy_tx []) 0 SIGHASH_ALL (toy_tx_ok [] ltac:(apply Hs)) eq_refl) as [hs Hsel].
    destruct (message_digest [0x51] (toy_tx []) 0 _ SIGHASH_ALL 5 1 hs (toy_tx_ok [] ltac:(apply Hs)) eq_refl eq_refl ltac:(done))
      as (b & _ & Hm).
    change (SignatureHashVersion (toy_tx [])) with SIGVERSION_SAPLING in E. cbn [negb andb] in E.
    rewrite Hsel in E. cbn [bindR] in E. rewrite Hm in E. inversion E.
Defined.

(** The checker answers: the hash exists or the index or hash type is wrong. *)
Lemma SignatureHash_total `{Blake2bLaws} sc t n ht amt br :
  tx_ok t -> 0 <= n < length (vin t) ->
  (exists h, SignatureHash sc t n ht amt br None = Ok h) \/ SignatureHash sc t n ht amt br None = Err logic_error.
Proof.
  intros Hok Hn. unfold SignatureHash. rewrite (proj2 (Z.leb_gt _ _)) by lia. cbn [andb negb].
  destruct (fOverwintered t) eqn:Hf.
  - left. destruct (at_index_some (vin t) n Hn) as (i & Hi & _).
    assert (Hni : n <> NOT_AN_INPUT).
    { unfold tx_ok, tx_ok_into in Hok. destruct Hok as (_ & _ & _ & [Hsz _] & _). unfold size_ok, MAX_SIZE in Hsz.
      unfold NOT_AN_INPUT. lia. }
    destruct (select_total t n ht Hok Hf) as [hs ->]. cbn [bindR].
    destruct (message_digest sc t n i ht amt br hs Hok Hf Hi Hni) as (b & _ & ->).
    unfold SignatureHashVersion. rewrite Hf. destruct (_ =? _); by eexists.
  - unfold SignatureHashVersion. rewrite Hf. destruct (hash_single ht && _) eqn:E; [by right|left]. cbn [negb].
    destruct (sprout_total t sc n ht Hok Hf Hn) as [b ->]; [|by eexists].
    destruct (hash_single ht); [right|by left]. cbn [andb] in E. apply Z.leb_gt in E. lia.
Qed.

Lemma lock_time_spec t l i :
  (if negb (((t <? LOCKTIME_THRESHOLD) && (l <? LOCKTIME_THRESHOLD)) || ((LOCKTIME_THRESHOLD <=? t) && (LOCKTIME_THRESHOLD <=? l)))
   then Ok false
   else if t <? l then Ok false else Ok (negb (IsFinal i)))
  = Ok (E := sighash_exn)
      (bool_decide ((t < LOCKTIME_THRESHOLD <-> l < LOCKTIME_THRESHOLD) /\ l <= t /\ nSequence i <> 0xFFFFFFFF)).
Proof.
  unfold IsFinal. destruct (Z.ltb_spec t LOCKTIME_THRESHOLD), (Z.ltb_spec l LOCKTIME_THRESHOLD),
    (Z.leb_spec LOCKTIME_THRESHOLD t), (Z.leb_spec LOCKTIME_THRESHOLD l), (Z.ltb_spec t l),
    (Z.eqb_spec (nSequence i) 0xFFFFFFFF); cbn [andb orb negb]; f_equal; symmetry;
    first [apply bool_decide_eq_true_2|apply bool_decide_eq_false_2]; lia.
Qed.

(** Running scripts against a transaction. On an input of a well-formed
    transaction the checker always answers, in every transaction version: no
    exception, failed assertion or out-of-range access escapes it. A lock time
    is satisfied exactly when it is of the kind of the transaction's, not above
    it, and the input is not final. The outcome of [VerifyScript] depends
    neither on the transaction's own signature scripts and signatures nor on
    whether the partial hashes are cached. *)
Theorem checker_ignores_signatures `{Blake2bLaws} Verify CheckLowS t n amt :
  tx_ok t -> 0 <= n < length (vin t) ->
  (forall sig key script br, exists b,
     TransactionCheckSig Verify (TransactionSignatureChecker_of t n amt None) sig key script br = Ok b)
  /\ (forall l, exists i, vin t !! Z.to_nat n = Some i
      /\ TransactionCheckLockTime (TransactionSignatureChecker_of t n amt None) l
         = Ok (bool_decide ((nLockTime t < LOCKTIME_THRESHOLD <-> l < LOCKTIME_THRESHOLD) /\ l <= nLockTime t /\ nSequence i <> 0xFFFFFFFF)))
  /\ (forall c scriptSig scriptPubKey flags br, PrecomputedTransactionData_of t = Ok c ->
      VerifyScript (H := TransactionSignatureChecker Verify (TransactionSignatureChecker_of (unsigned t) n amt (Some c)))
        CheckLowS scriptSig scriptPubKey flags br
      = VerifyScript (H := TransactionSignatureChecker Verify (TransactionSignatureChecker_of t n amt None))
          CheckLowS scriptSig scriptPubKey flags br).
Proof.
  intros Hok Hn. split_and!.
  - intros sig key script br. unfold TransactionCheckSig. cbn [ck_txTo ck_nIn ck_amount ck_txdata].
    destruct (CPubKey_Set key), (last sig); try by eexists.
    destruct (SignatureHash_total script t n z amt br Hok Hn) as [[h ->]| ->]; by eexists.
  - intros l. destruct (at_index_some (vin t) n Hn) as (i & Hi & Hl). exists i. split; [done|].
    unfold TransactionCheckLockTime. cbn [ck_txTo ck_nIn]. rewrite Hi. apply lock_time_spec.
  - intros c scriptSig scriptPubKey flags br Hc. apply VerifyScript_ext. split.
    + intros sig key script b. cbn [CheckSig TransactionSignatureChecker]. unfold TransactionCheckSig.
      cbn [ck_txTo ck_nIn ck_amount ck_txdata]. destruct (CPubKey_Set key), (last sig); try done.
      by rewrite (SignatureHash_unsigned script t n z amt b (Some c)), SignatureHash_cached.
    + intros l. cbn [CheckLockTime TransactionSignatureChecker]. unfold TransactionCheckLockTime.
      cbn [ck_txTo ck_nIn unsigned nLockTime vin]. rewrite at_index_map. by destruct (at_index (vin t) n).
Qed.

Lemma checker_ignores_signatures_witness :
  (exists b, TransactionCheckSig (fun _ _ _ => true) (TransactionSignatureChecker_of (toy_tx []) 0 5 None) toy_sig
               (2 :: replicate 32 7) [0x51] 1 = Ok b)
  /\ exists i, vin (toy_tx []) !! 0%nat = Some i
     /\ TransactionCheckLockTime (TransactionSignatureChecker_of (toy_tx []) 0 5 None) 6
        = Ok (bool_decide ((7 < LOCKTIME_THRESHOLD <-> 6 < LOCKTIME_THRESHOLD) /\ 6 <= 7 /\ nSequence i <> 0xFFFFFFFF)).
Proof.
  destruct (checker_ignores_signatures (fun _ _ _ => true) toy_low (toy_tx []) 0 5) as (H1 & H2 & _).
  - apply toy_tx_ok. split; [done|by repeat constructor].
  - by cbn.
  - split; [apply H1|apply H2].
Defined.
