(* ===== verification/Merkle.v ===== *)
(** * Merkle trees of blocks (src/consensus/merkle.cpp, src/merkleblock.h,
      merkleblock.cpp)

    The root and branch of a list of transaction hashes, computed in one pass
    with an array of subtree hashes, and the partial trees that prove a set of
    transactions to be in a block. Levels and positions are numbers; reading
    past a vector is [None]. The loops have 32 passes, one per bit of the
    counter; [None] would also mean that they do not suffice, which the
    theorems exclude. *)

From S2P Require Import Prelude Serialize Digest Sha Ripemd Hash Amount Transaction.
Local Open Scope Z_scope.
Local Open Scope code_scope.
Local Open Scope codec_scope.

(** ** Definitions *)

(** *** Root and branch *)

Record merkle_state := MerkleState {
  inner : list bytes; branch : list bytes; matchlevel : Z; mutated : bool }.

(** [count & (1 << level)] *)
Definition bit_set (count : Z) (level : nat) : bool := negb (Z.land count (to_u32 (Z.shiftl 1 level)) =? 0).

(** What a combination at [level] appends to the branch. *)
Definition extend_branch (want : bool) (st : merkle_state) (level : nat) (left h : bytes) (matchh : bool)
  : list bytes * bool :=
  if want then
    if matchh then (branch st ++ [left], true)
    else if matchlevel st =? level then (branch st ++ [h], true)
    else (branch st, false)
  else (branch st, matchh).

(** The loop over the levels that a new leaf completes. *)
Fixpoint leaf_loop (fuel : nat) (want : bool) (count : Z) (level : nat) (st : merkle_state) (h : bytes) (matchh : bool)
  : option merkle_state :=
  match fuel with
  | O => None
  | S fuel =>
      if negb (bit_set count level) then
        left ← inner st !! level;
        let '(br, matchh) := extend_branch want st level left h matchh in
        leaf_loop fuel want count (S level)
          (MerkleState (inner st) br (matchlevel st) (mutated st || bool_decide (left = h))) (Hash2 left h) matchh
      else
        Some (MerkleState (<[level:=h]> (inner st)) (branch st) (if matchh then Z.of_nat level else matchlevel st) (mutated st))
  end.

(** [while (count < leaves.size())]; [leaves] are those from [count] on. *)
Fixpoint leaves_loop (want : bool) (branchpos count : Z) (leaves : list bytes) (st : merkle_state) : option merkle_state :=
  match leaves with
  | [] => Some st
  | h :: leaves =>
      st ← leaf_loop 32 want (to_u32 (count + 1)) 0 st h (count =? branchpos);
      leaves_loop want branchpos (to_u32 (count + 1)) leaves st
  end.

(** [while (!(count & (1 << level))) level++]. *)
Fixpoint skip_loop (fuel : nat) (count : Z) (level : nat) : option nat :=
  match fuel with
  | O => None
  | S fuel => if bit_set count level then Some level else skip_loop fuel count (S level)
  end.

(** The upward propagation of the final sweep. *)
Fixpoint sweep_up (fuel : nat) (want : bool) (count : Z) (level : nat) (st : merkle_state) (h : bytes) (matchh : bool)
  : option (nat * merkle_state * bytes * bool) :=
  match fuel with
  | O => None
  | S fuel =>
      if negb (bit_set count level) then
        left ← inner st !! level;
        let '(br, matchh) := extend_branch want st level left h matchh in
        sweep_up fuel want count (S level) (MerkleState (inner st) br (matchlevel st) (mutated st)) (Hash2 left h) matchh
      else Some (level, st, h, matchh)
  end.

Fixpoint sweep (fuel : nat) (want : bool) (count : Z) (level : nat) (st : merkle_state) (h : bytes) (matchh : bool)
  : option (merkle_state * bytes) :=
  match fuel with
  | O => None
  | S fuel =>
      if negb (count =? to_u32 (Z.shiftl 1 level)) then
        let st := MerkleState (inner st) (if want && matchh then branch st ++ [h] else branch st) (matchlevel st) (mutated st) in
        let count := to_u32 (count + to_u32 (Z.shiftl 1 level)) in
        '(level, st, h, matchh) ← sweep_up 32 want count (S level) st (Hash2 h h) matchh;
        sweep fuel want count level st h matchh
      else Some (st, h)
  end.

(** [MerkleComputation]: root, mutation flag and branch. *)
Definition MerkleComputation (leaves : list bytes) (branchpos : Z) (want : bool) : option (bytes * bool * list bytes) :=
  match leaves with
  | [] => Some (null256, false, [])
  | _ =>
      st ← leaves_loop want branchpos 0 leaves (MerkleState (replicate 32 null256) [] (-1) false);
      let count := to_u32 (length leaves) in
      level ← skip_loop 32 count 0;
      h ← inner st !! level;
      '(st, h) ← sweep 33 want count level st h (matchlevel st =? level);
      Some (h, mutated st, branch st)
  end.

Definition ComputeMerkleRoot (leaves : list bytes) : option (bytes * bool) :=
  '(root, mutated, _) ← MerkleComputation leaves (to_u32 (-1)) false; Some (root, mutated).
Definition ComputeMerkleBranch (leaves : list bytes) (position : Z) : option (list bytes) :=
  '(_, _, branch) ← MerkleComputation leaves position true; Some branch.

Fixpoint ComputeMerkleRootFromBranch (hash : bytes) (vMerkleBranch : list bytes) (nIndex : Z) {struct vMerkleBranch} : bytes :=
  match vMerkleBranch with
  | [] => hash
  | it :: vMerkleBranch =>
      ComputeMerkleRootFromBranch (if negb (Z.land nIndex 1 =? 0) then Hash2 it hash else Hash2 hash it)
        vMerkleBranch (Z.shiftr nIndex 1)
  end.

(** The transactions of a block carry their hashes. *)
Definition BlockMerkleRoot (vtx : list CTransaction) : option (bytes * bool) := ComputeMerkleRoot (map tx_hash vtx).
Definition BlockMerkleBranch (vtx : list CTransaction) (position : Z) : option (list bytes) :=
  ComputeMerkleBranch (map tx_hash vtx) position.

(** *** Partial trees *)

Record CPartialMerkleTree := PartialMerkleTree {
  nTransactions : Z; vBits : list bool; vHash : list bytes; fBad : bool }.

Definition CalcTreeWidth (nTransactions : Z) (height : nat) : Z :=
  Z.shiftr (to_u32 (nTransactions + Z.shiftl 1 height - 1)) height.

Fixpoint CalcHash (nTransactions : Z) (height : nat) (pos : Z) (vTxid : list bytes) : option bytes :=
  match height with
  | O => vTxid !! Z.to_nat pos
  | S height =>
      left ← CalcHash nTransactions height (to_u32 (pos * 2)) vTxid;
      right ← (if to_u32 (pos * 2 + 1) <? CalcTreeWidth nTransactions height
               then CalcHash nTransactions height (to_u32 (pos * 2 + 1)) vTxid else Some left);
      Some (Hash2 left right)
  end.

(** [for (p = first; p < last; p++) fParentOfMatch |= vMatch[p]] *)
Fixpoint any_match (n : nat) (p : nat) (vMatch : list bool) : option bool :=
  match n with
  | O => Some false
  | S n => b ← vMatch !! p; r ← any_match n (S p) vMatch; Some (b || r)
  end.
Definition parent_of_match (nTransactions : Z) (height : nat) (pos : Z) (vMatch : list bool) : option bool :=
  let first := to_u32 (Z.shiftl pos height) in
  let last := Z.min (to_u32 (Z.shiftl (to_u32 (pos + 1)) height)) nTransactions in
  any_match (Z.to_nat (last - first)) (Z.to_nat first) vMatch.

Fixpoint TraverseAndBuild (nTransactions : Z) (height : nat) (pos : Z) (vTxid : list bytes) (vMatch : list bool)
    (bits : list bool) (hashes : list bytes) : option (list bool * list bytes) :=
  fParentOfMatch ← parent_of_match nTransactions height pos vMatch;
  let bits := bits ++ [fParentOfMatch] in
  let stop := h ← CalcHash nTransactions height pos vTxid; Some (bits, hashes ++ [h]) in
  match height with
  | O => stop
  | S height =>
      if negb fParentOfMatch then stop
      else
        '(bits, hashes) ← TraverseAndBuild nTransactions height (to_u32 (pos * 2)) vTxid vMatch bits hashes;
        if to_u32 (pos * 2 + 1) <? CalcTreeWidth nTransactions height
        then TraverseAndBuild nTransactions height (to_u32 (pos * 2 + 1)) vTxid vMatch bits hashes
        else Some (bits, hashes)
  end.

(** [while (CalcTreeWidth(nHeight) > 1) nHeight++]. *)
Fixpoint tree_height (fuel : nat) (nTransactions : Z) (nHeight : nat) : option nat :=
  match fuel with
  | O => None
  | S fuel => if 1 <? CalcTreeWidth nTransactions nHeight then tree_height fuel nTransactions (S nHeight) else Some nHeight
  end.

Definition CPartialMerkleTree_of (vTxid : list bytes) (vMatch : list bool) : option CPartialMerkleTree :=
  let n := to_u32 (length vTxid) in
  nHeight ← tree_height 32 n 0;
  '(bits, hashes) ← TraverseAndBuild n nHeight 0 vTxid vMatch [] [];
  Some (PartialMerkleTree n bits hashes false).

Record extract_state := ExtractState { bad : bool; nBitsUsed : Z; nHashUsed : Z; matches : list bytes }.
Definition set_bad (st : extract_state) : extract_state :=
  ExtractState true (nBitsUsed st) (nHashUsed st) (matches st).

Fixpoint TraverseAndExtract (t : CPartialMerkleTree) (height : nat) (pos : Z) (st : extract_state) : bytes * extract_state :=
  match vBits t !! Z.to_nat (nBitsUsed st) with
  | None => (null256, set_bad st)
  | Some fParentOfMatch =>
      let st := ExtractState (bad st) (nBitsUsed st + 1) (nHashUsed st) (matches st) in
      let stored (isLeaf : bool) :=
        match vHash t !! Z.to_nat (nHashUsed st) with
        | None => (null256, set_bad st)
        | Some hash => (hash, ExtractState (bad st) (nBitsUsed st) (nHashUsed st + 1)
                                (if isLeaf && fParentOfMatch then matches st ++ [hash] else matches st))
        end in
      match height with
      | O => stored true
      | S height =>
          if negb fParentOfMatch then stored false
          else
            let '(lhash, st) := TraverseAndExtract t height (to_u32 (pos * 2)) st in
            if to_u32 (pos * 2 + 1) <? CalcTreeWidth (nTransactions t) height then
              let '(rhash, st) := TraverseAndExtract t height (to_u32 (pos * 2 + 1)) st in
              (Hash2 lhash rhash, if bool_decide (rhash = lhash) then set_bad st else st)
            else (Hash2 lhash lhash, st)
      end
  end.

Definition MAX_BLOCK_SIZE : Z := 2000000.

(** The root, or zeros in case of failure, and the matched transactions;
    [None] for a height loop that does not end. *)
Definition ExtractMatches (t : CPartialMerkleTree) : option (bytes * list bytes) :=
  if nTransactions t =? 0 then Some (null256, [])
  else if MAX_BLOCK_SIZE / 60 <? nTransactions t then Some (null256, [])
  else if nTransactions t <? length (vHash t) then Some (null256, [])
  else if length (vBits t) <? length (vHash t) then Some (null256, [])
  else
    nHeight ← tree_height 32 (nTransactions t) 0;
    let '(hashMerkleRoot, st) := TraverseAndExtract t nHeight 0 (ExtractState (fBad t) 0 0 []) in
    let root :=
      if bad st then null256
      else if negb ((nBitsUsed st + 7) / 8 =? (length (vBits t) + 7) / 8) then null256
      else if negb (nHashUsed st =? length (vHash t)) then null256
      else hashMerkleRoot in
    Some (root, matches st).

(** Flag bits in bytes, least significant bit first. *)
Fixpoint pack_loop (p : nat) (vBits : list bool) (vBytes : bytes) : bytes :=
  match vBits with
  | [] => vBytes
  | b :: vBits => pack_loop (S p) vBits (alter (fun x => Z.lor x (Z.shiftl (Z.b2z b) (p mod 8)%nat)) (p / 8)%nat vBytes)
  end.
Definition pack_bits (vBits : list bool) : bytes := pack_loop 0 vBits (replicate ((length vBits + 7) / 8)%nat 0).
Definition unpack_bits (vBytes : bytes) : list bool :=
  map (fun p => negb (Z.land (nth (p / 8)%nat vBytes 0) (Z.shiftl 1 (p mod 8)%nat) =? 0)) (seq 0 (length vBytes * 8)).

Definition partial_tree_codec : codec CPartialMerkleTree :=
  let fields := u32_codec >> vector_of 32 uint256_codec >> bytes_vec_codec in
  Codec (fun t => Serialize fields (nTransactions t, (vHash t, pack_bits (vBits t))))
        (fun s => let* (x, s) := Unserialize fields s in
                  let '(n, (hashes, vBytes)) := x in
                  Ok (PartialMerkleTree n (unpack_bits vBytes) hashes false, s)).

(** [CMerkleBlock(block, txids)]. *)
Record CMerkleBlock := MerkleBlock { mb_header : CBlockHeader; mb_txn : CPartialMerkleTree }.
Definition CMerkleBlock_of (header : CBlockHeader) (vtx : list CTransaction) (txids : list bytes) : option CMerkleBlock :=
  let vHashes := map tx_hash vtx in
  txn ← CPartialMerkleTree_of vHashes (map (fun hash => bool_decide (hash ∈ txids)) vHashes);
  Some (MerkleBlock header txn).
Definition merkle_block_codec : codec CMerkleBlock :=
  struct_codec (block_header_codec >> partial_tree_codec) (fun b => (mb_header b, mb_txn b)) (fun '(h, t) => MerkleBlock h t).

(** ** The tree *)

Lemma pow2_S (k : nat) : 2 ^ S k = 2 * 2 ^ k.
Proof. rewrite Nat2Z.inj_succ, Z.pow_succ_r; lia. Qed.

Lemma div_S pos (k : nat) : pos / 2 ^ S k = pos / 2 ^ k / 2.
Proof. rewrite pow2_S, Z.mul_comm, <- Z.div_div; [done|apply Z.pow_nonzero; lia|lia]. Qed.

Lemma testbit_div x (k : nat) : Z.testbit x k = Z.odd (x / 2 ^ k).
Proof. by rewrite Z.testbit_odd, Z.shiftr_div_pow2 by lia. Qed.
Section tree.
Context (L : list bytes).
Let n : Z := length L.

(** The number of nodes of a level and the hash of a node; a node without a
    right child is combined with itself. *)
Definition width (k : nat) : Z := (n + 2 ^ k - 1) / 2 ^ k.
Fixpoint node (k : nat) (p : Z) : bytes :=
  match k with
  | O => nth (Z.to_nat p) L null256
  | S k => let l := node k (2 * p) in Hash2 l (if 2 * p + 1 <? width k then node k (2 * p + 1) else l)
  end.

(** Siblings of the ancestors of leaf [pos], from the leaves up to level [k]. *)
Definition sibling (pos : Z) (i : nat) : bytes :=
  let x := pos / 2 ^ i in
  if Z.odd x then node i (x - 1) else if x + 1 <? width i then node i (x + 1) else node i x.
Definition siblings (pos : Z) (k : nat) : list bytes := map (sibling pos) (seq 0 k).

Lemma siblings_S pos k : siblings pos (S k) = siblings pos k ++ [sibling pos k].
Proof. unfold siblings. by rewrite seq_S, map_app. Qed.

Lemma node_S k p : node (S k) p = Hash2 (node k (2 * p)) (if 2 * p + 1 <? width k then node k (2 * p + 1) else node k (2 * p)).
Proof. done. Qed.

Lemma width_bound (k : nat) : 2 ^ k * (width k - 1) < n <= 2 ^ k * width k.
Proof.
  unfold width. pose proof (pow2_pos k ltac:(lia)). pose proof (Z.div_mod (n + 2 ^ k - 1) (2 ^ k) ltac:(lia)).
  pose proof (Z.mod_pos_bound (n + 2 ^ k - 1) (2 ^ k) ltac:(lia)). nia.
Qed.

Lemma width_lt (k : nat) p : p < width k <-> 2 ^ k * p < n.
Proof. pose proof (width_bound k). pose proof (pow2_pos k ltac:(lia)). split; intros; nia. Qed.

(** Combining the two nodes of a full pair. *)
Lemma node_pair (k : nat) q : 2 ^ k * (2 * q + 1) < n -> Hash2 (node k (2 * q)) (node k (2 * q + 1)) = node (S k) q.
Proof. intros Hq. rewrite node_S, (proj2 (Z.ltb_lt _ _)); [done|]. by apply width_lt. Qed.

Lemma node_single k q : width k = 2 * q + 1 -> Hash2 (node k (2 * q)) (node k (2 * q)) = node (S k) q.
Proof. intros Hq. rewrite node_S, Hq, (proj2 (Z.ltb_ge _ _)) by lia. done. Qed.

(** The sibling of either node of a pair. *)
Lemma sibling_right pos (k : nat) q : pos / 2 ^ k = 2 * q + 1 -> sibling pos k = node k (2 * q).
Proof. intros Hp. unfold sibling. rewrite Hp, Z.odd_add, Z.odd_mul. cbn [Z.odd andb xorb]. f_equal. lia. Qed.
Lemma sibling_left pos (k : nat) q :
  pos / 2 ^ k = 2 * q -> 2 ^ k * (2 * q + 1) < n -> sibling pos k = node k (2 * q + 1).
Proof.
  intros Hp Hq. unfold sibling. rewrite Hp. rewrite Z.odd_mul. cbn [Z.odd andb].
  by rewrite (proj2 (Z.ltb_lt _ _)) by (by apply width_lt).
Qed.
Lemma sibling_none pos (k : nat) q : pos / 2 ^ k = 2 * q -> width k = 2 * q + 1 -> sibling pos k = node k (2 * q).
Proof.
  intros Hp Hw. unfold sibling. rewrite Hp, Hw, Z.odd_mul. cbn [Z.odd andb].
  by rewrite (proj2 (Z.ltb_ge _ _)) by lia.
Qed.

End tree.

Lemma bit_set_testbit c (k : nat) : 0 <= c < 2 ^ 32 -> (k < 32)%nat -> bit_set c k = Z.testbit c k.
Proof.
  intros Hc Hk. unfold bit_set. rewrite Z.shiftl_mul_pow2, Z.mul_1_l by lia.
  assert (0 < 2 ^ k < 2 ^ 32) by (split; [apply pow2_pos; lia|apply Z.pow_lt_mono_r; lia]).
  rewrite wrap_small by (unfold uint; lia). rewrite land_pow2_eqb by lia. by rewrite negb_involutive.
Qed.

(** ** The first pass *)

(** Numbers around a carry. *)
Lemma carry_div c (lev : nat) y : c + 1 = 2 ^ lev * y -> c / 2 ^ lev = y - 1.
Proof.
  intros Hc. pose proof (pow2_pos lev ltac:(lia)). symmetry. apply (Z.div_unique_pos _ _ _ (2 ^ lev - 1)); nia.
Qed.

Lemma above_carry c (lev i : nat) y :
  c + 1 = 2 ^ lev * y -> Z.odd y = true -> (lev < i)%nat -> (c + 1) / 2 ^ i = c / 2 ^ i.
Proof.
  intros Hc Hy Hi. replace (Z.of_nat i) with (Z.of_nat lev + (1 + Z.of_nat (i - lev - 1))) by lia.
  rewrite Z.pow_add_r by lia. pose proof (pow2_pos lev ltac:(lia)). pose proof (pow2_pos (1 + (i - lev - 1)%nat) ltac:(lia)).
  rewrite <- !Z.div_div by lia. rewrite (carry_div c lev y Hc).
  replace ((c + 1) / 2 ^ lev) with y by (symmetry; rewrite Hc, Z.mul_comm; apply Z.div_mul; lia).
  rewrite Z.pow_add_r by lia. change (2 ^ 1) with 2. pose proof (pow2_pos (i - lev - 1)%nat ltac:(lia)).
  rewrite <- !Z.div_div by lia. f_equal. apply Z.odd_spec in Hy as [q ->].
  replace (2 * q + 1 - 1) with (q * 2) by lia. replace (2 * q + 1) with (1 + q * 2) by lia.
  rewrite Z.div_mul, Z.div_add by lia. done.
Qed.

Lemma bits_below (lev i : nat) y : (i < lev)%nat -> Z.testbit (2 ^ lev * y) i = false.
Proof. intros Hi. rewrite Z.mul_comm. apply Z.mul_pow2_bits_low. lia. Qed.

Section pass.
Context (L : list bytes) (want : bool) (pos : Z).
Let n : Z := length L.
Hypothesis Hn : n <= 2 ^ 31.
Hypothesis Hpos : 0 <= pos.
Local Abbreviation nd := (node L).

(** Two equal full siblings among the first [c] leaves. *)
Definition dup_upto (c : Z) : Prop :=
  exists (i : nat) q, 0 <= q /\ 2 ^ i * (2 * q + 2) <= c /\ nd i (2 * q) = nd i (2 * q + 1).

(** The state after [c] leaves: [inner] holds, for each bit of [c], the last
    node that ends at that bit. *)
Definition branch_ok (c : Z) (lev : nat) (st : merkle_state) : Prop :=
  if pos <? c then exists ml : nat, (lev <= ml)%nat /\ matchlevel st = ml /\ Z.testbit c ml = true
                    /\ pos / 2 ^ ml = c / 2 ^ ml - 1 /\ branch st = siblings L pos ml
  else matchlevel st = -1 /\ branch st = [].
Definition inner_ok (c : Z) (st : merkle_state) : Prop :=
  length (inner st) = 32%nat
  /\ forall i : nat, (i < 32)%nat -> Z.testbit c i = true -> inner st !! i = Some (nd i (c / 2 ^ i - 1)).
Definition pass_ok (c : Z) (st : merkle_state) : Prop :=
  inner_ok c st /\ (mutated st = true <-> dup_upto c) /\ (want = true -> branch_ok c 0 st).

(** The pairs that leaf [c] completes, below level [lev]. *)
Definition dup_at (c : Z) (lev : nat) : Prop :=
  exists (i : nat) q, (i < lev)%nat /\ 2 ^ i * (2 * q + 2) = c + 1 /\ nd i (2 * q) = nd i (2 * q + 1).

Lemma dup_at_S c (lev : nat) q :
  c + 1 = 2 ^ lev * (2 * q + 2) -> dup_at c (S lev) <-> dup_at c lev \/ nd lev (2 * q) = nd lev (2 * q + 1).
Proof.
  intros Hc. pose proof (pow2_pos lev ltac:(lia)). split.
  - intros (i & q' & Hi & He & Hd). destruct (decide (i = lev)) as [->|]; [right|left; exists i, q'; split_and!; [lia|done|done]].
    assert (q' = q) as -> by nia. done.
  - intros [(i & q' & Hi & He & Hd)|Hd]; [exists i, q'; split_and!; [lia|done|done]|]. exists lev, q. split_and!; [lia|lia|done].
Qed.

Lemma dup_upto_S c (lev : nat) y :
  0 <= c -> c + 1 = 2 ^ lev * y -> Z.odd y = true -> dup_upto (c + 1) <-> dup_upto c \/ dup_at c lev.
Proof.
  intros Hc0 Hc Hy. split.
  - intros (i & q & Hq & Hle & Hd). destruct (Z.eq_dec (2 ^ i * (2 * q + 2)) (c + 1)) as [He|].
    + right. exists i, q. split_and!; [|done|done]. destruct (decide (i < lev)%nat) as [|Hge]; [done|exfalso].
      replace (Z.of_nat i) with (Z.of_nat lev + Z.of_nat (i - lev)) in He by lia. rewrite Z.pow_add_r in He by lia.
      pose proof (pow2_pos lev ltac:(lia)). assert (y = 2 * (2 ^ (i - lev)%nat * (q + 1))) as -> by nia.
      by rewrite Z.odd_mul in Hy.
    + left. exists i, q. split_and!; [done|lia|done].
  - intros [(i & q & Hq & Hle & Hd)|(i & q & Hi & He & Hd)]; exists i, q; split_and!; try done; try lia.
    pose proof (pow2_pos i ltac:(lia)). nia.
Qed.

(** The loop over completed levels: [h] is the node that ends at leaf [c]. *)
Definition loop_ok (c : Z) (lev : nat) (y : Z) (st : merkle_state) (h : bytes) (matchh : bool) : Prop :=
  c + 1 = 2 ^ lev * y /\ h = nd lev (y - 1) /\ inner_ok c st
  /\ (mutated st = true <-> dup_upto c \/ dup_at c lev)
  /\ (want = true -> if matchh then pos <= c /\ pos / 2 ^ lev = y - 1 /\ branch st = siblings L pos lev
                     else pos <> c /\ branch_ok c lev st).

Lemma loop_step c lev q st h matchh br m' :
  0 <= c -> c + 1 <= n -> (lev < 32)%nat -> loop_ok c lev (2 * q + 2) st h matchh ->
  inner st !! lev = Some (nd lev (2 * q)) /\
  (extend_branch want st lev (nd lev (2 * q)) h matchh = (br, m') ->
   loop_ok c (S lev) (q + 1) (MerkleState (inner st) br (matchlevel st) (mutated st || bool_decide (nd lev (2 * q) = h)))
     (Hash2 (nd lev (2 * q)) h) m').
Proof.
  intros Hc0 Hcn Hlev (Hc & -> & [Hlen Hin] & Hm & Hb). assert (E : 2 * q + 2 - 1 = 2 * q + 1) by lia. rewrite E in *.
  pose proof (carry_div c lev _ Hc) as Hcd. rewrite E in Hcd. pose proof (pow2_pos lev ltac:(lia)).
  assert (Hbit : Z.testbit c lev = true).
  { rewrite testbit_div, Hcd. by rewrite Z.odd_add, Z.odd_mul. }
  split; [rewrite (Hin lev Hlev Hbit), Hcd; do 2 f_equal; lia|]. intros Hext. split_and!.
  - rewrite pow2_S. lia.
  - replace (q + 1 - 1) with q by lia. apply node_pair. fold n. lia.
  - by split.
  - cbn [mutated]. rewrite orb_true_iff, bool_decide_eq_true, (dup_at_S c lev q Hc), Hm. tauto.
  - intros Hw. specialize (Hb Hw). rewrite Hw in Hext. unfold extend_branch in Hext. destruct matchh.
    + destruct Hb as (Hpc & Hp & Hbr). injection Hext as <- <-. split_and!; [done| |].
      * rewrite div_S, Hp. replace (2 * q + 1) with (1 + q * 2) by lia. rewrite Z.div_add by lia. change (1 / 2) with 0. lia.
      * cbn [branch]. rewrite siblings_S, Hbr, (sibling_right L pos lev q Hp). done.
    + destruct Hb as (Hpc & Hb). unfold branch_ok in Hb. destruct (Z.ltb_spec pos c) as [Hlt|Hge].
      * destruct Hb as (ml & Hml & Hmv & Hbt & Hp & Hbr). destruct (Z.eqb_spec (matchlevel st) lev) as [He|Hne].
        -- assert (ml = lev) as -> by lia. injection Hext as <- <-. rewrite Hcd in Hp.
           assert (Hp' : pos / 2 ^ lev = 2 * q) by lia. split_and!; [lia| |].
           ++ rewrite div_S, Hp', Z.mul_comm, Z.div_mul by lia. lia.
           ++ cbn [branch]. rewrite siblings_S, Hbr, (sibling_left L pos lev q Hp') by (fold n; lia). done.
        -- injection Hext as <- <-. split; [done|]. unfold branch_ok. rewrite (proj2 (Z.ltb_lt _ _) Hlt).
           exists ml. cbn [matchlevel branch]. split_and!; try done. destruct (decide (ml = lev)); [subst; lia|lia].
      * destruct Hb as [Hmv Hbr]. rewrite Hmv in Hext. rewrite (proj2 (Z.eqb_neq _ _)) in Hext by lia. injection Hext as <- <-.
        split; [done|]. unfold branch_ok. rewrite (proj2 (Z.ltb_ge _ _) Hge). done.
Qed.

Lemma loop_end c lev y st h matchh :
  0 <= c -> (lev < 32)%nat -> Z.odd y = true -> loop_ok c lev y st h matchh ->
  pass_ok (c + 1) (MerkleState (<[lev:=h]> (inner st)) (branch st) (if matchh then Z.of_nat lev else matchlevel st) (mutated st)).
Proof.
  intros Hc0 Hlev Hy (Hc & -> & [Hlen Hin] & Hm & Hb). pose proof (pow2_pos lev ltac:(lia)).
  assert (Hdiv : (c + 1) / 2 ^ lev = y) by (rewrite Hc, Z.mul_comm; apply Z.div_mul; lia).
  assert (Hhigh : forall i : nat, (lev < i)%nat -> Z.testbit (c + 1) i = Z.testbit c i).
  { intros i Hi. by rewrite !testbit_div, (above_carry c lev i y Hc Hy Hi). }
  split; [split; [cbn [inner]; by rewrite length_insert|]|split].
  - intros i Hi Hbit. cbn [inner]. destruct (decide (i = lev)) as [->|Hne].
    + rewrite list_lookup_insert_eq by lia. by rewrite Hdiv.
    + rewrite list_lookup_insert_ne by done. destruct (decide (i < lev)%nat) as [Hlt|Hge].
      * by rewrite Hc, bits_below in Hbit.
      * rewrite Hhigh in Hbit by lia. rewrite (Hin i Hi Hbit). by rewrite (above_carry c lev i y) by (done || lia).
  - cbn [mutated]. by rewrite (dup_upto_S c lev y).
  - intros Hw. specialize (Hb Hw). unfold branch_ok. cbn [matchlevel branch]. destruct matchh.
    + destruct Hb as (Hpc & Hp & Hbr). rewrite (proj2 (Z.ltb_lt _ _)) by lia. exists lev.
      rewrite testbit_div, Hdiv. split_and!; try done; lia.
    + destruct Hb as (Hpc & Hb). unfold branch_ok in Hb. destruct (Z.ltb_spec pos c) as [Hlt|Hge].
      * destruct Hb as (ml & Hml & Hmv & Hbt & Hp & Hbr). rewrite (proj2 (Z.ltb_lt _ _)) by lia. exists ml.
        assert (ml <> lev).
        { intros ->. rewrite testbit_div, (carry_div c lev y Hc), Z.odd_sub, Hy in Hbt. done. }
        rewrite Hhigh, (above_carry c lev ml y) by (done || lia). split_and!; try done; lia.
      * rewrite (proj2 (Z.ltb_ge _ _)) by lia. done.
Qed.

Lemma leaf_loop_spec fuel c lev y st h matchh :
  0 <= c -> c + 1 <= n -> (lev <= 31)%nat -> (32 <= fuel + lev)%nat -> loop_ok c lev y st h matchh ->
  exists st', leaf_loop fuel want (c + 1) lev st h matchh = Some st' /\ pass_ok (c + 1) st'.
Proof.
  revert lev y st h matchh. induction fuel as [|fuel IH]; intros lev y st h matchh Hc0 Hcn Hlev Hfuel Hok; [lia|].
  cbn [leaf_loop]. pose proof Hok as (Hc & _). pose proof (pow2_pos lev ltac:(lia)).
  assert (bit_set (c + 1) lev = Z.odd y) as ->.
  { rewrite bit_set_testbit by (fold n in Hn; lia). by rewrite testbit_div, Hc, Z.mul_comm, Z.div_mul by lia. }
  destruct (Z.odd y) eqn:Hy; cbn [negb].
  - eexists. split; [reflexivity|]. eapply loop_end; [done|lia|exact Hy|exact Hok].
  - assert (Hev : exists q, y = 2 * q + 2).
    { rewrite <- Z.negb_even in Hy. apply negb_false_iff, Z.even_spec in Hy as [m ->]. exists (m - 1). lia. }
    destruct Hev as [q ->]. destruct (extend_branch want st lev (nd lev (2 * q)) h matchh) as [br m'] eqn:Hext.
    destruct (loop_step c lev q st h matchh br m') as [-> Hstep]; try done; [lia|]. cbn [mbind option_bind]. rewrite Hext.
    apply (IH _ (q + 1)); [done|done| |lia|by apply Hstep].
    destruct (decide (lev = 31%nat)) as [->|]; [exfalso|lia].
    fold n in Hn. change (2 ^ 31%nat) with (2 ^ 31) in Hc. nia.
Qed.
End pass.

Section sweep.
Context (L : list bytes) (want : bool) (pos : Z).
Let n : Z := length L.
Hypothesis Hn : 0 < n <= 2 ^ 31.
Hypothesis Hpos : 0 <= pos.
Local Abbreviation nd := (node L).
Local Abbreviation wd := (width L).

Lemma pass_init : pass_ok L want pos 0 (MerkleState (replicate 32 null256) [] (-1) false).
Proof.
  split_and!; [split|split|].
  - done.
  - intros i _. by rewrite Z.testbit_0_l.
  - done.
  - intros (i & q & Hq & Hle & _). pose proof (pow2_pos i ltac:(lia)). nia.
  - intros _. unfold branch_ok. rewrite (proj2 (Z.ltb_ge _ _)) by lia. done.
Qed.

Lemma loop_start c st :
  0 <= c -> c < n -> pass_ok L want pos c st -> loop_ok L want pos c 0 (c + 1) st (nth (Z.to_nat c) L null256) (c =? pos).
Proof.
  intros Hc Hcn (Hin & Hm & Hb). split_and!; try done.
  - change (2 ^ 0%nat) with 1. lia.
  - cbn [node]. by replace (c + 1 - 1) with c by lia.
  - rewrite Hm. split; [by left|]. intros [|(i & q & Hi & _)]; [done|lia].
  - intros Hw. specialize (Hb Hw). destruct (Z.eqb_spec c pos) as [<-|Hne]; [|by split].
    unfold branch_ok in Hb. rewrite Z.ltb_irrefl in Hb. destruct Hb as [_ Hb]. rewrite Z.div_1_r. split_and!; [lia|lia|done].
Qed.

Lemma leaves_loop_spec rest c st :
  L = take (Z.to_nat c) L ++ rest -> 0 <= c -> c + length rest = n -> pass_ok L want pos c st ->
  exists st', leaves_loop want pos c rest st = Some st' /\ pass_ok L want pos n st'.
Proof.
  revert c st. induction rest as [|h rest IH]; intros c st HL Hc Hlen Hok; cbn [leaves_loop length] in *.
  { exists st. split; [done|]. by replace n with c by lia. }
  assert (Hcn : c < n) by lia. rewrite wrap_small by (unfold uint; lia).
  assert (Hlt : length (take (Z.to_nat c) L) = Z.to_nat c) by (apply length_take_le; fold n in Hcn; unfold n in *; lia).
  assert (nth (Z.to_nat c) L null256 = h) as Hh.
  { rewrite HL at 1. rewrite app_nth2; rewrite Hlt; [by rewrite Nat.sub_diag|lia]. }
  destruct (leaf_loop_spec L want pos ltac:(fold n; lia) 32 c 0 (c + 1) st h (c =? pos)) as (st' & -> & Hok');
    [done|fold n; lia|lia|lia| |].
  { rewrite <- Hh. by apply loop_start. }
  cbn [mbind option_bind]. apply IH; [|lia|lia|done].
  rewrite HL at 1. replace (Z.to_nat (c + 1)) with (S (Z.to_nat c)) by lia.
  rewrite (take_S_r L (Z.to_nat c) h); [by rewrite <- app_assoc|].
  rewrite HL. rewrite lookup_app_r; rewrite Hlt; [by rewrite Nat.sub_diag|lia].
Qed.

(** Widths of the levels. *)
Lemma width_unique (k : nat) w : 2 ^ k * (w - 1) < n <= 2 ^ k * w -> wd k = w.
Proof. intros Hw. pose proof (width_bound L k) as Hb. fold n in Hb. pose proof (pow2_pos k ltac:(lia)). nia. Qed.

Lemma width_room (k : nat) : (k <= 31)%nat -> 2 ^ k * wd k <= 2 ^ 31.
Proof.
  intros Hk. pose proof (width_bound L k) as Hb. fold n in Hb. pose proof (pow2_pos k ltac:(lia)).
  assert (2 ^ 31 = 2 ^ k * 2 ^ (31 - k)%nat) as E by (rewrite <- Z.pow_add_r by lia; f_equal; lia).
  assert (wd k - 1 < 2 ^ (31 - k)%nat) by (apply (Z.mul_lt_mono_pos_l (2 ^ k)); lia).
  rewrite E. apply Z.mul_le_mono_nonneg_l; lia.
Qed.

Lemma width_pos (k : nat) : 1 <= wd k.
Proof. pose proof (width_bound L k) as Hb. fold n in Hb. pose proof (pow2_pos k ltac:(lia)). nia. Qed.

(** A combination extends the branch when the matched leaf is below it. *)
Lemma extend_sweep (lev : nat) q st matchh br m' :
  want = true -> n / 2 ^ lev = 2 * q + 1 -> 2 ^ lev * (2 * q + 1) < n ->
  extend_branch want st lev (nd lev (2 * q)) (nd lev (2 * q + 1)) matchh = (br, m') ->
  (if matchh then pos / 2 ^ lev = 2 * q + 1 /\ branch st = siblings L pos lev
   else exists ml : nat, (lev <= ml)%nat /\ matchlevel st = ml /\ Z.testbit n ml = true
          /\ pos / 2 ^ ml = n / 2 ^ ml - 1 /\ branch st = siblings L pos ml) ->
  if m' then pos / 2 ^ S lev = q /\ br = siblings L pos (S lev)
  else exists ml : nat, (S lev <= ml)%nat /\ matchlevel st = ml /\ Z.testbit n ml = true
         /\ pos / 2 ^ ml = n / 2 ^ ml - 1 /\ br = siblings L pos ml.
Proof.
  intros -> Hnd Hlt Hext Hb. unfold extend_branch in Hext. destruct matchh.
  - destruct Hb as [Hp Hbr]. injection Hext as <- <-. rewrite div_S, Hp, siblings_S, Hbr, (sibling_right L pos lev q Hp).
    replace (2 * q + 1) with (1 + q * 2) by lia. rewrite Z.div_add by lia. by split.
  - destruct Hb as (ml & Hml & Hmv & Hbt & Hp & Hbr). destruct (Z.eqb_spec (matchlevel st) lev) as [He|Hne].
    + assert (ml = lev) as -> by lia. injection Hext as <- <-. assert (Hp' : pos / 2 ^ lev = 2 * q) by lia.
      rewrite div_S, Hp', siblings_S, Hbr, (sibling_left L pos lev q Hp') by done.
      rewrite Z.mul_comm, Z.div_mul by lia. by split.
    + injection Hext as <- <-. exists ml. split_and!; try done. destruct (decide (ml = lev)); [subst; lia|lia].
Qed.

(** The state of the final sweep: [h] is the last node of level [lev]. *)
Definition sweep_ok (b lev : nat) (st : merkle_state) (h : bytes) (matchh : bool) : Prop :=
  h = nd lev (wd lev - 1) /\ inner_ok L n st /\ (forall k : nat, (k < lev)%nat -> 2 <= wd k)
  /\ (want = true -> pos < n ->
      if matchh then pos / 2 ^ lev = wd lev - 1 /\ branch st = siblings L pos lev
      else exists ml : nat, (b <= ml)%nat /\ matchlevel st = ml /\ Z.testbit n ml = true
             /\ pos / 2 ^ ml = n / 2 ^ ml - 1 /\ branch st = siblings L pos ml).

Lemma sweep_up_spec fuel lev st h matchh :
  (lev <= 31)%nat -> (32 <= fuel + lev)%nat -> n < 2 ^ lev * wd lev -> sweep_ok lev lev st h matchh ->
  exists lev' st' h' m', sweep_up fuel want (2 ^ lev * wd lev) lev st h matchh = Some (lev', st', h', m')
    /\ (lev <= lev' <= 31)%nat /\ 2 ^ lev' * wd lev' = 2 ^ lev * wd lev /\ Z.odd (wd lev') = true
    /\ sweep_ok lev' lev' st' h' m' /\ mutated st' = mutated st.
Proof.
  revert lev st h matchh. induction fuel as [|fuel IH]; intros lev st h matchh Hlev Hf Hs Hok; [lia|].
  pose proof (width_room lev Hlev) as Hroom. pose proof (width_pos lev) as Hwp. pose proof (pow2_pos lev ltac:(lia)).
  pose proof (width_bound L lev) as Hwb. fold n in Hwb.
  cbn [sweep_up]. assert (bit_set (2 ^ lev * wd lev) lev = Z.odd (wd lev)) as ->.
  { rewrite bit_set_testbit by lia. by rewrite testbit_div, Z.mul_comm, Z.div_mul by lia. }
  destruct (Z.odd (wd lev)) eqn:Hodd; cbn [negb]; [by exists lev, st, h, matchh|].
  assert (Hev : exists q, wd lev = 2 * q + 2).
  { rewrite <- Z.negb_even in Hodd. apply negb_false_iff, Z.even_spec in Hodd as [m ->]. exists (m - 1). lia. }
  destruct Hev as [q Hq]. assert (Hnd : n / 2 ^ lev = 2 * q + 1).
  { symmetry. apply (Z.div_unique_pos _ _ _ (n - 2 ^ lev * (2 * q + 1))); nia. }
  assert (HwS : wd (S lev) = q + 1) by (apply width_unique; rewrite pow2_S; nia).
  assert (Hl31 : (S lev <= 31)%nat).
  { destruct (decide (lev = 31%nat)) as [->|]; [|lia]. change (2 ^ 31%nat) with (2 ^ 31) in *. nia. }
  destruct Hok as (-> & [Hlen Hin] & Hlow & Hb).
  assert (Hbit : Z.testbit n lev = true) by (rewrite testbit_div, Hnd; by rewrite Z.odd_add, Z.odd_mul).
  rewrite (Hin lev ltac:(lia) Hbit), Hnd. cbn [mbind option_bind]. replace (2 * q + 1 - 1) with (2 * q) by lia.
  assert (wd lev - 1 = 2 * q + 1) as Hw1 by lia. rewrite Hw1. rewrite Hw1 in Hb.
  destruct (extend_branch want st lev (nd lev (2 * q)) (nd lev (2 * q + 1)) matchh) as [br m'] eqn:Hext.
  rewrite node_pair by (fold n; nia).
  assert (Hcount : 2 ^ lev * wd lev = 2 ^ S lev * wd (S lev)) by (rewrite pow2_S, HwS; lia).
  rewrite Hcount. destruct (IH (S lev) (MerkleState (inner st) br (matchlevel st) (mutated st)) (nd (S lev) q) m')
    as (lev' & st' & h' & m'' & -> & Hl' & Hc' & Ho' & Hok' & Hm').
  - done.
  - lia.
  - rewrite <- Hcount. lia.
  - split_and!; [by replace (wd (S lev) - 1) with q by lia|by split| |].
    + intros k Hk. destruct (decide (k = lev)) as [->|]; [lia|apply Hlow; lia].
    + intros Hw Hpn. rewrite HwS. replace (q + 1 - 1) with q by lia.
      apply (extend_sweep lev q st matchh br m' Hw Hnd ltac:(nia) Hext (Hb Hw Hpn)).
  - exists lev', st', h', m''. split_and!; try done; lia.
Qed.

(** The height of the tree. *)
Definition is_height (k : nat) : Prop := wd k = 1 /\ forall j : nat, (j < k)%nat -> 2 <= wd j.

Lemma sweep_top lev st h matchh :
  wd lev = 1 -> sweep_ok (S lev) lev st h matchh -> want = true -> pos < n -> branch st = siblings L pos lev.
Proof.
  intros Hw (_ & _ & _ & Hb) Hwant Hpn. specialize (Hb Hwant Hpn). destruct matchh; [apply Hb|].
  destruct Hb as (ml & Hml & _ & Hbt & _). exfalso. pose proof (width_bound L lev) as Hwb. fold n in Hwb. rewrite Hw in Hwb.
  rewrite testbit_div in Hbt. assert (2 ^ lev < 2 ^ ml) by (apply Z.pow_lt_mono_r; lia).
  by rewrite Z.div_small in Hbt by lia.
Qed.

Lemma sweep_spec fuel lev st h matchh :
  (lev <= 31)%nat -> (33 <= fuel + lev)%nat -> Z.odd (wd lev) = true -> sweep_ok (S lev) lev st h matchh ->
  exists k st', sweep fuel want (2 ^ lev * wd lev) lev st h matchh = Some (st', nd k 0) /\ is_height k
    /\ mutated st' = mutated st /\ (want = true -> pos < n -> branch st' = siblings L pos k).
Proof.
  revert lev st h matchh. induction fuel as [|fuel IH]; intros lev st h matchh Hlev Hf Hodd Hok; [lia|].
  pose proof (width_room lev Hlev) as Hroom. pose proof (width_pos lev) as Hwp. pose proof (pow2_pos lev ltac:(lia)).
  pose proof (width_bound L lev) as Hwb. fold n in Hwb. cbn [sweep].
  assert (to_u32 (Z.shiftl 1 lev) = 2 ^ lev) as Hsh.
  { rewrite Z.shiftl_mul_pow2, Z.mul_1_l by lia. apply wrap_small. unfold uint.
    assert (2 ^ lev <= 2 ^ 31) by (apply Z.pow_le_mono_r; lia). lia. }
  rewrite Hsh. destruct (Z.eqb_spec (2 ^ lev * wd lev) (2 ^ lev)) as [He|Hne]; cbn [negb].
  { assert (Hw1 : wd lev = 1) by nia. exists lev, st. pose proof (sweep_top lev st h matchh Hw1 Hok).
    destruct Hok as (-> & _ & Hlow & _). rewrite Hw1. by split_and!. }
  pose proof Hodd as Hodd'. apply Z.odd_spec in Hodd' as [q Hq]. assert (1 <= q) by nia.
  assert (HwS : wd (S lev) = q + 1) by (apply width_unique; rewrite pow2_S; nia).
  assert (Hl31 : (S lev <= 31)%nat).
  { destruct (decide (lev = 31%nat)) as [->|]; [|lia]. change (2 ^ 31%nat) with (2 ^ 31) in *. nia. }
  pose proof (width_room (S lev) Hl31) as Hroom'.
  assert (Hc : 2 ^ lev * wd lev + 2 ^ lev = 2 ^ S lev * wd (S lev)) by (rewrite pow2_S, HwS, Hq; lia).
  rewrite Hc, wrap_small by (unfold uint; lia).
  set (st1 := MerkleState (inner st) (if want && matchh then branch st ++ [h] else branch st) (matchlevel st) (mutated st)).
  assert (Hok1 : sweep_ok (S lev) (S lev) st1 (Hash2 h h) matchh).
  { destruct Hok as (-> & Hin & Hlow & Hb). split_and!; [|done| |].
    - rewrite HwS, Hq. replace (2 * q + 1 - 1) with (2 * q) by lia. replace (q + 1 - 1) with q by lia. by apply node_single.
    - intros k Hk. destruct (decide (k = lev)) as [->|]; [lia|apply Hlow; lia].
    - intros Hw Hpn. specialize (Hb Hw Hpn). unfold st1. rewrite Hw. destruct matchh; cbn [andb branch matchlevel]; [|done].
      destruct Hb as [Hp Hbr]. rewrite Hq in Hp. assert (Hp' : pos / 2 ^ lev = 2 * q) by lia.
      rewrite div_S, Hp', Hbr, siblings_S, (sibling_none L pos lev q Hp' Hq), HwS, Hq.
      replace (2 * q + 1 - 1) with (2 * q) by lia. rewrite Z.mul_comm, Z.div_mul by lia. split; [lia|done]. }
  destruct (sweep_up_spec 32 (S lev) st1 (Hash2 h h) matchh) as (lev' & st' & h' & m' & -> & Hl' & Hc' & Ho' & Hok' & Hm');
    [done|lia|nia|done|]. cbn [mbind option_bind].
  assert (Hok2 : sweep_ok (S lev') lev' st' h' m').
  { destruct Hok' as (-> & Hin & Hlow & Hb). split_and!; try done. intros Hw Hpn. specialize (Hb Hw Hpn). destruct m'; [done|].
    destruct Hb as (ml & Hml & Hmv & Hbt & Hp & Hbr). exists ml. split_and!; try done.
    destruct (decide (ml = lev')) as [->|]; [exfalso|lia].
    assert (n / 2 ^ lev' = wd lev' - 1) as Hnd.
    { pose proof (width_bound L lev') as Hwb'. fold n in Hwb'. pose proof (pow2_pos lev' ltac:(lia)).
      symmetry. apply (Z.div_unique_pos _ _ _ (n - 2 ^ lev' * (wd lev' - 1))); nia. }
    by rewrite testbit_div, Hnd, Z.odd_sub, Ho' in Hbt. }
  rewrite <- Hc'. destruct (IH lev' st' h' m') as (k & st'' & -> & Hk & Hm & Hb); [lia|lia|done|done|].
  exists k, st''. split_and!; try done. by rewrite Hm, Hm'.
Qed.
End sweep.

(** ** Root and branch *)

Lemma MerkleComputation_nonempty leaves pos want :
  leaves <> [] ->
  MerkleComputation leaves pos want
  = (st ← leaves_loop want pos 0 leaves (MerkleState (replicate 32 null256) [] (-1) false);
     level ← skip_loop 32 (to_u32 (length leaves)) 0;
     h ← inner st !! level;
     '(st, h) ← sweep 33 want (to_u32 (length leaves)) level st h (matchlevel st =? level);
     Some (h, mutated st, branch st)).
Proof. by destruct leaves. Qed.

Section computation.
Context (L : list bytes).
Let n : Z := length L.
Hypothesis Hn : 0 < n <= 2 ^ 31.

Lemma skip_loop_spec fuel lev y :
  n = 2 ^ Z.of_nat lev * y -> (lev <= 31)%nat -> (32 <= fuel + lev)%nat ->
  exists lev' y', skip_loop fuel n lev = Some lev' /\ n = 2 ^ Z.of_nat lev' * y' /\ Z.odd y' = true /\ (lev' <= 31)%nat.
Proof.
  revert lev y. induction fuel as [|fuel IH]; intros lev y Hy Hlev Hf; [lia|]. cbn [skip_loop].
  pose proof (pow2_pos lev ltac:(lia)). rewrite bit_set_testbit by lia.
  assert (Z.testbit n lev = Z.odd y) as -> by (by rewrite testbit_div, Hy, Z.mul_comm, Z.div_mul by lia).
  destruct (Z.odd y) eqn:Hodd; [by exists lev, y|].
  rewrite <- Z.negb_even in Hodd. apply negb_false_iff, Z.even_spec in Hodd as [m ->].
  apply (IH (S lev) m); [rewrite pow2_S; lia| |lia].
  destruct (decide (lev = 31%nat)) as [->|]; [|lia]. change (2 ^ 31%nat) with (2 ^ 31) in *. nia.
Qed.

Lemma MerkleComputation_spec want pos :
  0 <= pos ->
  exists k mut br, MerkleComputation L pos want = Some (node L k 0, mut, br) /\ is_height L k
    /\ (mut = true <-> dup_upto L n) /\ (want = true -> pos < n -> br = siblings L pos k).
Proof.
  intros Hpos. rewrite MerkleComputation_nonempty.
  2: { pose proof Hn as Hn'. unfold n in Hn'. intros HL. rewrite HL in Hn'. cbn in Hn'. lia. }
  destruct (leaves_loop_spec L want pos Hn Hpos L 0 _ eq_refl ltac:(lia) ltac:(lia) (pass_init L want pos Hn Hpos)) as (st & -> & Hok).
  cbn [mbind option_bind]. fold n. rewrite wrap_small by (unfold uint; lia).
  destruct (skip_loop_spec 32 0 n) as (lev & y & -> & Hy & Hodd & Hlev); [by rewrite Z.mul_1_l|lia|lia|].
  cbn [mbind option_bind]. destruct Hok as ([Hlen Hin] & Hm & Hb). fold n in Hin, Hm, Hb.
  pose proof (pow2_pos lev ltac:(lia)). assert (Hnd : n / 2 ^ lev = y) by (by rewrite Hy, Z.mul_comm, Z.div_mul by lia).
  assert (Hw : width L lev = y) by (apply width_unique; fold n; nia).
  rewrite (Hin lev ltac:(lia)) by (by rewrite testbit_div, Hnd). cbn [mbind option_bind]. rewrite Hnd.
  assert (Hsw : sweep_ok L want pos (S lev) lev st (node L lev (y - 1)) (matchlevel st =? lev)).
  { split_and!; [by rewrite Hw|by split| |].
    - intros k Hk. assert (2 * 2 ^ k <= 2 ^ lev) by (rewrite <- pow2_S; apply Z.pow_le_mono_r; lia).
      pose proof (width_bound L k) as Hwb. fold n in Hwb. pose proof (pow2_pos k ltac:(lia)).
      assert (1 <= y) by nia. assert (2 ^ lev <= n) by nia. clear Hy Hw Hnd. nia.
    - intros Hwant Hpn. fold n. specialize (Hb Hwant). unfold branch_ok in Hb. fold n in Hpn.
      rewrite (proj2 (Z.ltb_lt _ _) Hpn) in Hb. destruct Hb as (ml & _ & Hmv & Hbt & Hp & Hbr).
      destruct (Z.eqb_spec (matchlevel st) lev) as [He|Hne].
      + assert (ml = lev) as -> by lia. rewrite Hnd in Hp. rewrite Hw. done.
      + exists ml. split_and!; try done. destruct (decide (lev <= ml)%nat) as [|Hlt]; [lia|exfalso].
        rewrite Hy, bits_below in Hbt by lia. done. }
  assert (Hs : 2 ^ lev * width L lev = n) by (rewrite Hw; lia). rewrite <- Hs.
  destruct (sweep_spec L want pos Hn 33 lev st (node L lev (y - 1)) (matchlevel st =? lev)) as (k & st' & -> & Hk & Hmut & Hbr);
    [lia|lia|by rewrite Hw|done|]. cbn [mbind option_bind]. exists k, (mutated st'), (branch st').
  rewrite Hs. split; [done|]. split; [done|]. split; [by rewrite Hmut|done].
Qed.

(** Climbing the branch of a leaf gives the nodes above it. *)
Lemma branch_climb pos (i k : nat) :
  0 <= pos < n -> ComputeMerkleRootFromBranch (node L i (pos / 2 ^ i)) (map (sibling L pos) (seq i k)) (pos / 2 ^ i)
  = node L (i + k) (pos / 2 ^ (i + k)%nat).
Proof.
  intros Hpos. revert i. induction k as [|k IH]; intros i; cbn [seq map ComputeMerkleRootFromBranch].
  { by rewrite Nat.add_0_r. }
  assert (Hstep : (if negb (Z.land (pos / 2 ^ i) 1 =? 0) then Hash2 (sibling L pos i) (node L i (pos / 2 ^ i))
                   else Hash2 (node L i (pos / 2 ^ i)) (sibling L pos i)) = node L (S i) (pos / 2 ^ S i)).
  { change 1 with (2 ^ 0) at 1. rewrite land_pow2_eqb, negb_involutive, Z.bit0_odd by lia.
    rewrite div_S. set (x := pos / 2 ^ i). destruct (Z.odd x) eqn:Ho.
    - apply Z.odd_spec in Ho as [q Hq]. rewrite (sibling_right L pos i q Hq), Hq.
      replace (2 * q + 1) with (1 + q * 2) by lia. rewrite Z.div_add by lia. change (1 / 2) with 0. rewrite Z.add_0_l.
      replace (1 + q * 2) with (2 * q + 1) by lia. apply node_pair. fold n.
      pose proof (Z.div_mod pos (2 ^ i) ltac:(pose proof (pow2_pos i); lia)) as Hd. fold x in Hd. rewrite Hq in Hd.
      pose proof (Z.mod_pos_bound pos (2 ^ i) ltac:(apply pow2_pos; lia)). lia.
    - rewrite <- Z.negb_even in Ho. apply negb_false_iff, Z.even_spec in Ho as [q Hq].
      unfold sibling. fold x. rewrite Hq, Z.odd_mul. cbn [Z.odd andb]. rewrite (Z.mul_comm 2 q), Z.div_mul by lia.
      by rewrite node_S, (Z.mul_comm 2 q). }
  rewrite Hstep, Z.shiftr_div_pow2 by lia. change (2 ^ 1) with 2. rewrite <- div_S, IH. f_equal; [lia|]. do 2 f_equal. lia.
Qed.
End computation.

(** ** The recursive tree of [CPartialMerkleTree] is the same tree *)

Section recursive.
Context (L : list bytes).
Let n : Z := length L.
Hypothesis Hn : 0 < n <= 2 ^ 31.

Lemma CalcTreeWidth_spec (k : nat) : (k <= 31)%nat -> CalcTreeWidth n k = width L k.
Proof.
  intros Hk. unfold CalcTreeWidth, width. fold n. pose proof (pow2_pos k ltac:(lia)).
  assert (2 ^ k <= 2 ^ 31) by (apply Z.pow_le_mono_r; lia).
  rewrite (Z.shiftl_mul_pow2 1 k), Z.mul_1_l, Z.shiftr_div_pow2 by lia. rewrite wrap_small by (unfold uint; lia). done.
Qed.

Lemma child_positions (k : nat) p :
  (S k <= 31)%nat -> 0 <= p < width L (S k) ->
  to_u32 (p * 2) = 2 * p /\ to_u32 (p * 2 + 1) = 2 * p + 1 /\ 0 <= 2 * p < width L k
  /\ (to_u32 (p * 2 + 1) <? CalcTreeWidth n k) = (2 * p + 1 <? width L k).
Proof.
  intros Hk Hp. assert (2 ^ k * (2 * p) < n) as Hlt.
  { pose proof (proj1 (width_lt L (S k) p) ltac:(lia)) as Hw. fold n in Hw. rewrite pow2_S in Hw. lia. }
  pose proof (pow2_pos k ltac:(lia)). assert (2 * p < 2 ^ 31) by nia.
  rewrite !wrap_small by (unfold uint; lia). rewrite CalcTreeWidth_spec by lia.
  replace (p * 2) with (2 * p) by lia. split_and!; try done; [lia|]. by apply width_lt.
Qed.

Lemma CalcHash_node (k : nat) p : (k <= 31)%nat -> 0 <= p < width L k -> CalcHash n k p L = Some (node L k p).
Proof.
  revert p. induction k as [|k IH]; intros p Hk Hp; cbn [CalcHash node].
  - pose proof (width_bound L 0) as Hw. fold n in Hw. change (2 ^ 0%nat) with 1 in Hw.
    destruct (lookup_lt_is_Some_2 L (Z.to_nat p)) as [x Hx]; [unfold n in Hw; lia|].
    rewrite Hx. by rewrite (nth_lookup_Some L (Z.to_nat p) null256 x Hx).
  - destruct (child_positions k p Hk Hp) as (-> & Hr & Hl & Hc). rewrite Hc, Hr, (IH (2 * p) ltac:(lia) Hl).
    cbn [mbind option_bind]. destruct (Z.ltb_spec (2 * p + 1) (width L k)); [|done].
    by rewrite (IH (2 * p + 1) ltac:(lia) ltac:(lia)).
Qed.

Lemma tree_height_spec fuel (k : nat) :
  (k <= 31)%nat -> (32 <= fuel + k)%nat -> (forall j : nat, (j < k)%nat -> 2 <= width L j) ->
  exists k', tree_height fuel n k = Some k' /\ is_height L k' /\ (k' <= 31)%nat.
Proof.
  revert k. induction fuel as [|fuel IH]; intros k Hk Hf Hlow; [lia|]. cbn [tree_height]. rewrite CalcTreeWidth_spec by lia.
  pose proof (width_pos L Hn k) as Hp. destruct (Z.ltb_spec 1 (width L k)) as [Hw|Hw].
  - apply IH; [|lia|].
    + pose proof (width_room L Hn k Hk). destruct (decide (k = 31%nat)) as [->|]; [|lia]. change (2 ^ 31%nat) with (2 ^ 31) in *. lia.
    + intros j Hj. destruct (decide (j = k)) as [->|]; [lia|apply Hlow; lia].
  - exists k. split_and!; [done|split; [lia|done]|done].
Qed.

Lemma is_height_unique (k k' : nat) : is_height L k -> is_height L k' -> k = k'.
Proof.
  intros [Hw Hlow] [Hw' Hlow']. destruct (lt_eq_lt_dec k k') as [[Hlt|]|Hlt]; [|done|].
  - specialize (Hlow' k Hlt). lia.
  - specialize (Hlow k' Hlt). lia.
Qed.
End recursive.

(** ** Hash collisions *)

Definition hash256 (h : bytes) : Prop := length h = 32%nat.

(** Two different ones of the given byte strings with one double SHA-256. *)
Definition sha256d_collision (messages : list bytes) : Prop :=
  exists a b, a ∈ messages /\ b ∈ messages /\ a <> b /\ sha256d a = sha256d b.

Lemma Hash2_length a b : hash256 (Hash2 a b).
Proof. rewrite Hash2_spec. apply sha256d_output. Qed.

Lemma messages_cons (x : bytes) a b ms : x :: a ++ b ⊆ ms -> x ∈ ms /\ a ⊆ ms /\ b ⊆ ms.
Proof. set_solver. Qed.
Lemma messages_l (a b : list bytes) : a ⊆ a ++ b.
Proof. set_solver. Qed.
Lemma messages_r (a b : list bytes) : b ⊆ a ++ b.
Proof. set_solver. Qed.
Lemma messages_last (x : bytes) a ms : x :: a ⊆ ms -> x ∈ ms /\ a ⊆ ms.
Proof. set_solver. Qed.

Lemma Hash2_inj ms a b c d :
  hash256 a -> hash256 b -> hash256 c -> hash256 d -> a ++ b ∈ ms -> c ++ d ∈ ms ->
  Hash2 a b = Hash2 c d -> (a = c /\ b = d) \/ sha256d_collision ms.
Proof.
  intros Ha Hb Hc Hd Hm Hm'. rewrite !Hash2_spec. intros He. destruct (decide (a ++ b = c ++ d)) as [Heq|Hne].
  - left. apply app_inj_1 in Heq; [done|congruence].
  - right. by exists (a ++ b), (c ++ d).
Qed.

(** The byte strings hashed for a node of the tree, and those hashed for a node
    of a partial tree. *)
Fixpoint tree_messages (L : list bytes) (k : nat) (p : Z) : list bytes :=
  match k with
  | O => []
  | S k =>
      if 2 * p + 1 <? width L k
      then (node L k (2 * p) ++ node L k (2 * p + 1)) :: tree_messages L k (2 * p) ++ tree_messages L k (2 * p + 1)
      else (node L k (2 * p) ++ node L k (2 * p)) :: tree_messages L k (2 * p)
  end.
Fixpoint proof_messages (t : CPartialMerkleTree) (k : nat) (p : Z) (st : extract_state) : list bytes :=
  match k, vBits t !! Z.to_nat (nBitsUsed st) with
  | S k, Some true =>
      let st := ExtractState (bad st) (nBitsUsed st + 1) (nHashUsed st) (matches st) in
      let '(lhash, st1) := TraverseAndExtract t k (2 * p) st in
      if 2 * p + 1 <? CalcTreeWidth (nTransactions t) k
      then (lhash ++ fst (TraverseAndExtract t k (2 * p + 1) st1))
             :: proof_messages t k (2 * p) st ++ proof_messages t k (2 * p + 1) st1
      else (lhash ++ lhash) :: proof_messages t k (2 * p) st
  | _, _ => []
  end.

Lemma node_length L k p : Forall hash256 L -> hash256 (node L k p).
Proof.
  intros HL. destruct k; [|apply Hash2_length]. cbn [node]. destruct (nth_in_or_default (Z.to_nat p) L null256) as [Hin| ->]; [|done].
  rewrite Forall_forall in HL. apply HL. by apply list_elem_of_In.
Qed.

(** ** Equal roots *)

(** The leaves below a node. *)
Definition segment {A} (L : list A) (k : nat) (p : Z) : list A :=
  take (Z.to_nat (2 ^ k)) (drop (Z.to_nat (2 ^ k * p)) L).

Lemma segment_S {A} (L : list A) (k : nat) p : 0 <= p -> segment L (S k) p = segment L k (2 * p) ++ segment L k (2 * p + 1).
Proof.
  intros Hp. unfold segment. pose proof (pow2_pos k ltac:(lia)). rewrite !pow2_S.
  replace (Z.to_nat (2 * 2 ^ k)) with (Z.to_nat (2 ^ k) + Z.to_nat (2 ^ k))%nat by lia.
  rewrite <- take_take_drop. f_equal; [do 2 f_equal; lia|]. rewrite drop_drop. do 2 f_equal. lia.
Qed.

Lemma segment_nil (L : list bytes) (k : nat) p : width L k <= p -> 0 <= p -> segment L k p = [].
Proof.
  intros Hw Hp. unfold segment. rewrite drop_ge, take_nil; [done|]. pose proof (width_bound L k). pose proof (pow2_pos k ltac:(lia)). nia.
Qed.

Lemma segment_full (L : list bytes) (k : nat) p : 0 <= p -> p + 1 < width L k -> length (segment L k p) = Z.to_nat (2 ^ k).
Proof.
  intros Hp Hw. unfold segment. rewrite length_take_le; [done|]. rewrite length_drop.
  apply width_lt in Hw. pose proof (pow2_pos k ltac:(lia)). nia.
Qed.

Lemma segment_length_full (L : list bytes) (k : nat) p : 0 <= p -> length (segment L k p) = Z.to_nat (2 ^ k) -> 2 ^ k * (p + 1) <= length L.
Proof.
  intros Hp Hl. unfold segment in Hl. rewrite length_take, length_drop in Hl. pose proof (pow2_pos k ltac:(lia)). nia.
Qed.

Definition mutated_tree (L : list bytes) : Prop := dup_upto L (length L).

Lemma segment_leaf (L : list bytes) p : 0 <= p < width L 0 -> segment L 0 p = [node L 0 p].
Proof.
  intros Hx. pose proof (width_bound L 0) as Hw. change (2 ^ 0%nat) with 1 in Hw.
  destruct (lookup_lt_is_Some_2 L (Z.to_nat p)) as [y Hy]; [lia|]. unfold segment. change (2 ^ 0%nat) with 1.
  rewrite Z.mul_1_l, (drop_S L y) by done. cbn [take node]. change (Z.to_nat 1) with 1%nat. cbn [take].
  by rewrite (nth_lookup_Some L _ _ y).
Qed.

(** Two nodes of one level with the same hash cover the same leaves, unless a
    tree has equal full siblings or two strings hashed for the nodes collide. *)
Lemma node_inj ms L L' k p p' :
  Forall hash256 L -> Forall hash256 L' -> 0 <= p < width L k -> 0 <= p' < width L' k ->
  tree_messages L k p ⊆ ms -> tree_messages L' k p' ⊆ ms -> node L k p = node L' k p' ->
  segment L k p = segment L' k p' \/ mutated_tree L \/ mutated_tree L' \/ sha256d_collision ms.
Proof.
  revert L L' p p'. induction k as [|k IH]; intros L L' p p' HL HL' Hp Hp' Hm Hm' He.
  - left. rewrite !segment_leaf by done. by rewrite He.
  - assert (Hchild : forall l x, 0 <= x < width l (S k) -> 0 <= 2 * x < width l k).
    { intros l x Hx. split; [lia|]. apply width_lt. pose proof (proj1 (width_lt l (S k) x) ltac:(lia)) as Hw.
      rewrite pow2_S in Hw. lia. }
    (* equal full siblings *)
    assert (Hdup : forall l x, Forall hash256 l -> 0 <= x -> 2 * x + 1 < width l k -> tree_messages l k (2 * x) ⊆ ms ->
                   tree_messages l k (2 * x + 1) ⊆ ms -> node l k (2 * x) = node l k (2 * x + 1) ->
                   mutated_tree l \/ sha256d_collision ms).
    { intros l x Hl Hx Hw Hml Hmr Heq.
      destruct (IH l l (2 * x) (2 * x + 1)) as [Hseg|[?|[?|?]]]; try done; [lia|lia| |by left|by left|by right].
      left. exists k, x. split_and!; [done| |done]. replace (2 * x + 2) with (2 * x + 1 + 1) by lia.
      apply segment_length_full; [lia|]. rewrite <- Hseg. by apply segment_full; lia. }
    rewrite !node_S in He. rewrite !segment_S by lia. cbn [tree_messages] in Hm, Hm'.
    assert (Hlen : forall l m x, Forall hash256 l -> hash256 (node l m x)) by (intros; by apply node_length).
    assert (Hleft := IH L L' (2 * p) (2 * p') HL HL' (Hchild _ _ Hp) (Hchild _ _ Hp')).
    destruct (Z.ltb_spec (2 * p + 1) (width L k)) as [Hr|Hr], (Z.ltb_spec (2 * p' + 1) (width L' k)) as [Hr'|Hr'];
      first [apply messages_cons in Hm as (Hx & Hml & Hmr)|apply messages_last in Hm as [Hx Hml]];
      first [apply messages_cons in Hm' as (Hx' & Hml' & Hmr')|apply messages_last in Hm' as [Hx' Hml']];
      apply (Hash2_inj ms) in He as [[He1 He2]|?]; auto.
    + destruct (Hleft Hml Hml' He1) as [->|?]; [|by right].
      destruct (IH L L' (2 * p + 1) (2 * p' + 1)) as [->|?]; try done; [lia|lia|by left|by right].
    + destruct (Hdup L p HL ltac:(lia) Hr Hml Hmr) as [?|?]; [congruence|auto..].
    + destruct (Hdup L' p' HL' ltac:(lia) Hr' Hml' Hmr') as [?|?]; [congruence|auto..].
    + destruct (Hleft Hml Hml' He1) as [->|?]; [|by right]. left.
      by rewrite (segment_nil L k (2 * p + 1)), (segment_nil L' k (2 * p' + 1)) by lia.
Qed.

Lemma segment_root L k : is_height L k -> segment L k 0 = L.
Proof.
  intros [Hw _]. unfold segment. rewrite Z.mul_0_r. cbn [Z.to_nat]. rewrite drop_0. apply take_ge.
  pose proof (width_bound L k) as Hb. rewrite Hw in Hb. lia.
Qed.

(** ** Partial trees *)

Section partial.
Context (L : list bytes) (M : list bool).
Let n : Z := length L.
Hypothesis Hn : 0 < n <= 2 ^ 31.
Hypothesis HM : length M = length L.
Local Abbreviation nd := (node L).
Local Abbreviation wd := (width L).
Definition matched (k : nat) (p : Z) : bool := existsb id (segment M k p).

(** What the traversal stores below a node, and the leaves it selects. *)
Fixpoint node_bits (k : nat) (p : Z) : list bool :=
  match k with
  | O => [matched O p]
  | S k => if matched (S k) p
           then true :: node_bits k (2 * p) ++ (if 2 * p + 1 <? wd k then node_bits k (2 * p + 1) else [])
           else [false]
  end.
Fixpoint node_hashes (k : nat) (p : Z) : list bytes :=
  match k with
  | O => [nd O p]
  | S k => if matched (S k) p
           then node_hashes k (2 * p) ++ (if 2 * p + 1 <? wd k then node_hashes k (2 * p + 1) else [])
           else [nd (S k) p]
  end.
Fixpoint pick (l : list bytes) (m : list bool) : list bytes :=
  match l, m with
  | x :: l, b :: m => if b then x :: pick l m else pick l m
  | _, _ => []
  end.

Lemma pick_app l1 l2 m1 m2 : length l1 = length m1 -> pick (l1 ++ l2) (m1 ++ m2) = pick l1 m1 ++ pick l2 m2.
Proof.
  revert m1. induction l1 as [|x l1 IH]; intros [|b m1] Hl; try done. cbn in *. rewrite IH by lia. by destruct b.
Qed.

Lemma pick_none l m : existsb id m = false -> pick l m = [].
Proof. revert l. induction m as [|b m IH]; intros [|x l] Hm; try done. cbn in *. destruct b; [done|]. by apply IH. Qed.

Lemma pick_elem l m x : x ∈ pick l m -> x ∈ l.
Proof.
  revert m. induction l as [|y l IH]; intros [|b m] Hx; cbn in *; try by apply not_elem_of_nil in Hx.
  destruct b; [apply elem_of_cons in Hx as [->|Hx]; [by constructor|]|]; constructor; by eapply IH.
Qed.

Lemma any_match_spec (m : nat) p : (p + m <= length M)%nat -> any_match m p M = Some (existsb id (take m (drop p M))).
Proof.
  revert p. induction m as [|m IH]; intros p Hp; [done|]. cbn [any_match].
  destruct (lookup_lt_is_Some_2 M p) as [b Hb]; [lia|]. rewrite Hb. cbn [mbind option_bind]. rewrite IH by lia.
  cbn [mbind option_bind]. by rewrite (drop_S M b p Hb).
Qed.

Lemma parent_of_match_spec (k : nat) p : (k <= 31)%nat -> 0 <= p < wd k -> parent_of_match n k p M = Some (matched k p).
Proof.
  intros Hk Hp. pose proof (pow2_pos k ltac:(lia)). pose proof (width_room L Hn k Hk) as Hr.
  pose proof (proj1 (width_lt L k p) ltac:(lia)) as Hlt. fold n in Hlt.
  unfold parent_of_match. rewrite !Z.shiftl_mul_pow2 by lia. rewrite (wrap_small _ (p + 1)) by (unfold uint; nia).
  rewrite !wrap_small by (unfold uint; nia). rewrite any_match_spec; [|fold n; rewrite HM; unfold n in *; lia].
  unfold matched, segment. do 2 f_equal. replace (p * 2 ^ k) with (2 ^ k * p) by lia.
  destruct (Z.le_gt_cases ((p + 1) * 2 ^ k) n) as [Hle|Hgt].
  - f_equal. lia.
  - rewrite !take_ge; [done|..]; rewrite length_drop, HM; unfold n in *; lia.
Qed.

Lemma calc_node (k : nat) p : (k <= 31)%nat -> 0 <= p < wd k -> CalcHash n k p L = Some (nd k p).
Proof. exact (CalcHash_node L Hn k p). Qed.

Lemma TraverseAndBuild_spec (k : nat) p bits hashes :
  (k <= 31)%nat -> 0 <= p < wd k ->
  TraverseAndBuild n k p L M bits hashes = Some (bits ++ node_bits k p, hashes ++ node_hashes k p).
Proof.
  revert p bits hashes. induction k as [|k IH]; intros p bits hashes Hk Hp; cbn [TraverseAndBuild node_bits node_hashes];
    rewrite parent_of_match_spec by lia; cbn [mbind option_bind].
  - rewrite calc_node by lia. done.
  - destruct (matched (S k) p) eqn:Em; cbn [negb]; [|by rewrite calc_node by lia].
    destruct (child_positions L Hn k p Hk Hp) as (-> & Hr & Hl & Hc). fold n in Hc. rewrite Hc, Hr, IH by lia.
    cbn [mbind option_bind]. destruct (Z.ltb_spec (2 * p + 1) (wd k)).
    + rewrite IH by lia. by rewrite <- !app_assoc.
    + by rewrite !app_nil_r, <- app_assoc.
Qed.

(** No two children of a node are equal. *)
Definition distinct_siblings : Prop :=
  forall (k : nat) p, 0 <= p -> 2 * p + 1 < wd k -> nd k (2 * p) <> nd k (2 * p + 1).

Lemma segment_lengths (k : nat) p : length (segment L k p) = length (segment M k p).
Proof. unfold segment. by rewrite !length_take, !length_drop, HM. Qed.

Lemma pick_S (k : nat) p :
  0 <= p -> pick (segment L (S k) p) (segment M (S k) p)
  = pick (segment L k (2 * p)) (segment M k (2 * p))
    ++ (if 2 * p + 1 <? wd k then pick (segment L k (2 * p + 1)) (segment M k (2 * p + 1)) else []).
Proof.
  intros Hp. rewrite !segment_S, pick_app by (done || apply segment_lengths). f_equal.
  destruct (Z.ltb_spec (2 * p + 1) (wd k)); [done|]. by rewrite (segment_nil L k (2 * p + 1)) by lia.
Qed.

Section extraction.
Context (t : CPartialMerkleTree) (Ht : nTransactions t = n) (Hd : distinct_siblings).

Lemma TraverseAndExtract_built (k : nat) p pre post hpre hpost b ms :
  (k <= 31)%nat -> 0 <= p < wd k ->
  vBits t = pre ++ node_bits k p ++ post -> vHash t = hpre ++ node_hashes k p ++ hpost ->
  TraverseAndExtract t k p (ExtractState b (length pre) (length hpre) ms)
  = (nd k p, ExtractState b (length pre + length (node_bits k p)) (length hpre + length (node_hashes k p))
               (ms ++ pick (segment L k p) (segment M k p))).
Proof.
  revert p pre post hpre hpost ms. induction k as [|k IH]; intros p pre post hpre hpost ms Hk Hp Hb Hh;
    cbn [TraverseAndExtract node_bits node_hashes nBitsUsed nHashUsed bad matches] in *; rewrite Nat2Z.id.
  - rewrite Hb, (list_lookup_middle pre post (matched 0 p)) by done. rewrite Nat2Z.id, Hh.
    rewrite (list_lookup_middle hpre hpost (nd 0 p)) by done. cbn [length andb]. do 2 f_equal.
    rewrite segment_leaf by done. unfold matched. pose proof (segment_lengths 0 p) as Hlen. rewrite segment_leaf in Hlen by done.
    destruct (segment M 0 p) as [|b0 [|]]; try done. cbn. unfold id. destruct b0; cbn; by rewrite ?app_nil_r.
  - assert (Hpick : matched (S k) p = false -> pick (segment L (S k) p) (segment M (S k) p) = []) by (apply pick_none).
    destruct (matched (S k) p) eqn:Em; cbn [app] in Hb, Hh.
    + rewrite Hb, (list_lookup_middle pre _ true) by done. cbn [negb].
      destruct (child_positions L Hn k p Hk Hp) as (-> & Hr & Hl & Hc). fold n in Hc. rewrite Ht, Hc, Hr. clear Hc Hr Hpick.
      replace (length pre + 1) with (Z.of_nat (length (pre ++ [true]))) by (rewrite length_app; cbn; lia).
      destruct (Z.ltb_spec (2 * p + 1) (wd k)) as [Hr|Hr].
      * rewrite <- app_assoc in Hb, Hh.
        rewrite (IH (2 * p) (pre ++ [true]) (node_bits k (2 * p + 1) ++ post) hpre (node_hashes k (2 * p + 1) ++ hpost) ms)
          by (done || lia || by rewrite <- app_assoc).
        replace (length (pre ++ [true]) + length (node_bits k (2 * p)))
          with (Z.of_nat (length (pre ++ [true] ++ node_bits k (2 * p)))) by (rewrite !length_app; lia).
        replace (length hpre + length (node_hashes k (2 * p)))
          with (Z.of_nat (length (hpre ++ node_hashes k (2 * p)))) by (rewrite length_app; lia).
        rewrite (IH (2 * p + 1) (pre ++ [true] ++ node_bits k (2 * p)) post (hpre ++ node_hashes k (2 * p)) hpost _)
          by (done || lia || by rewrite <- !app_assoc).
        rewrite bool_decide_eq_false_2 by (intros He; by apply (Hd k p ltac:(lia) Hr)).
        rewrite node_S, pick_S, (proj2 (Z.ltb_lt _ _) Hr), <- app_assoc by lia. do 2 f_equal;
          cbn [length]; rewrite !length_app; cbn [length]; lia.
      * rewrite app_nil_r in Hb, Hh.
        rewrite (IH (2 * p) (pre ++ [true]) post hpre hpost ms) by (done || lia || by rewrite <- app_assoc).
        rewrite node_S, pick_S, (proj2 (Z.ltb_ge _ _) Hr), !app_nil_r by lia. do 2 f_equal;
          cbn [length]; rewrite !length_app; cbn [length]; lia.
    + rewrite Hb, (list_lookup_middle pre post false) by done. cbn [negb]. rewrite Nat2Z.id, Hh.
      rewrite (list_lookup_middle hpre hpost (nd (S k) p)) by done. rewrite Hpick by done. cbn [andb length].
      by rewrite app_nil_r.
Qed.
End extraction.
End partial.

Lemma node_counts L M (k : nat) p :
  length M = length L -> 0 <= p < width L k ->
  (length (node_hashes L M k p) <= length (segment L k p))%nat
  /\ (length (node_hashes L M k p) <= length (node_bits L M k p))%nat.
Proof.
  intros HM. revert p. induction k as [|k IH]; intros p Hp; cbn [node_hashes node_bits].
  - by rewrite segment_leaf by done.
  - assert (Hl : 0 <= 2 * p < width L k).
    { split; [lia|]. apply width_lt. pose proof (proj1 (width_lt L (S k) p) ltac:(lia)) as Hw. rewrite pow2_S in Hw. lia. }
    rewrite segment_S by lia. rewrite length_app. destruct (IH (2 * p) Hl) as [H1 H2].
    destruct (matched M (S k) p).
    + destruct (Z.ltb_spec (2 * p + 1) (width L k)); cbn [length]; rewrite !length_app; [|cbn [length]; lia].
      destruct (IH (2 * p + 1) ltac:(lia)) as [H3 H4]. lia.
    + cbn [length]. split; [|lia]. enough (1 <= length (node_hashes L M k (2 * p)))%nat by lia.
      clear. generalize (2 * p). induction k as [|k IH]; intros q; cbn [node_hashes]; [done|].
      destruct (matched M (S k) q); [|done]. rewrite length_app. specialize (IH (2 * q)). lia.
Qed.

(** *** Flag bits in bytes *)

Definition padded_bits (bits : list bool) : list bool :=
  bits ++ replicate (8 * ((length bits + 7) / 8) - length bits) false.

Lemma pack_loop_length p bits b : length (pack_loop p bits b) = length b.
Proof. revert p b. induction bits as [|x bits IH]; intros p b; [done|]. cbn [pack_loop]. by rewrite IH, length_alter. Qed.

(** Bit [q] of the packed bytes. *)
Definition byte_bit (b : bytes) (q : nat) : bool := Z.testbit (nth (q / 8) b 0) (q mod 8)%nat.

Lemma byte_bit_alter b p q x :
  (p < 8 * length b)%nat ->
  byte_bit (alter (fun y => Z.lor y (Z.shiftl (Z.b2z x) (p mod 8)%nat)) (p / 8)%nat b) q
  = byte_bit b q || (bool_decide (q = p) && x).
Proof.
  intros Hp. unfold byte_bit. assert (Hlt : (p / 8 < length b)%nat) by (apply Nat.Div0.div_lt_upper_bound; lia).
  destruct (decide (q / 8 = p / 8)%nat) as [He|Hne].
  - rewrite He. destruct (lookup_lt_is_Some_2 b (p / 8)) as [y Hy]; [done|].
    rewrite (nth_lookup_Some _ _ 0 (Z.lor y (Z.shiftl (Z.b2z x) (p mod 8)%nat))) by (by rewrite list_lookup_alter_eq, Hy).
    rewrite (nth_lookup_Some b _ 0 y Hy), Z.lor_spec. f_equal. rewrite Z.shiftl_spec by lia.
    pose proof (Nat.div_mod_eq p 8) as Dp. pose proof (Nat.div_mod_eq q 8) as Dq.
    destruct (bool_decide_reflect (q = p)) as [->|Hqp].
    + rewrite Z.sub_diag. by destruct x.
    + cbn [andb]. destruct (Z.lt_ge_cases (q mod 8)%nat (p mod 8)%nat) as [|Hge]; [by apply Z.testbit_neg_r; lia|].
      destruct x; [|apply Z.testbit_0_l]. change (Z.b2z true) with (2 ^ 0). rewrite Z.pow2_bits_false by lia. done.
  - rewrite bool_decide_eq_false_2 by (intros ->; done). cbn [andb]. rewrite orb_false_r. f_equal.
    rewrite !nth_lookup. by rewrite list_lookup_alter_ne by done.
Qed.

Lemma byte_bit_pack p bits b q :
  (p + length bits <= 8 * length b)%nat ->
  byte_bit (pack_loop p bits b) q = byte_bit b q || (bool_decide (p <= q)%nat && default false (bits !! (q - p)%nat)).
Proof.
  revert p b. induction bits as [|x bits IH]; intros p b Hl; cbn [pack_loop length] in *.
  - by rewrite lookup_nil, andb_false_r, orb_false_r.
  - rewrite IH by (rewrite length_alter; lia). rewrite byte_bit_alter by lia. rewrite <- orb_assoc. f_equal.
    destruct (decide (q = p)) as [->|Hne].
    + rewrite (bool_decide_eq_true_2 (p = p)), (bool_decide_eq_false_2 (S p <= p)%nat), (bool_decide_eq_true_2 (p <= p)%nat) by lia.
      rewrite Nat.sub_diag. cbn. by rewrite orb_false_r.
    + rewrite (bool_decide_eq_false_2 (q = p)) by done. cbn [andb orb].
      destruct (decide (p < q)%nat) as [Hlt|Hge].
      * rewrite !bool_decide_eq_true_2 by lia. cbn [andb]. by replace (q - p)%nat with (S (q - S p)) by lia.
      * by rewrite !bool_decide_eq_false_2 by lia.
Qed.

Lemma unpack_pack bits : unpack_bits (pack_bits bits) = padded_bits bits.
Proof.
  unfold unpack_bits, pack_bits, padded_bits. rewrite pack_loop_length, length_replicate.
  set (m := ((length bits + 7) / 8)%nat). assert (Hm : (length bits <= 8 * m)%nat).
  { unfold m. pose proof (Nat.div_mod_eq (length bits + 7) 8). pose proof (Nat.mod_upper_bound (length bits + 7) 8). lia. }
  clearbody m. apply list_eq. intros q. destruct (decide (q < 8 * m)%nat) as [Hq|Hq].
  - rewrite list_lookup_fmap, lookup_seq_lt by lia. cbn [fmap option_fmap option_map].
    rewrite Nat.add_0_l. rewrite Z.shiftl_mul_pow2, Z.mul_1_l by lia.
    rewrite land_pow2_eqb, negb_involutive by lia. change (Z.testbit (nth (q / 8) (pack_loop 0 bits (replicate m 0)) 0) (q mod 8)%nat)
      with (byte_bit (pack_loop 0 bits (replicate m 0)) q).
    rewrite byte_bit_pack by (rewrite length_replicate; lia). rewrite bool_decide_eq_true_2, Nat.sub_0_r by lia. cbn [andb].
    assert (byte_bit (replicate m 0) q = false) as ->.
    { unfold byte_bit. rewrite nth_lookup. destruct (replicate m 0 !! (q / 8)%nat) as [z|] eqn:E; cbn [default]; [|apply Z.testbit_0_l].
      apply lookup_replicate in E as [-> _]. apply Z.testbit_0_l. }
    cbn [orb]. destruct (decide (q < length bits)%nat) as [Hl|Hl].
    + rewrite lookup_app_l by done. destruct (lookup_lt_is_Some_2 bits q Hl) as [x ->]. done.
    + rewrite lookup_app_r, (lookup_ge_None_2 bits q) by lia. cbn [default from_option]. symmetry. apply lookup_replicate. split; [done|lia].
  - rewrite !lookup_ge_None_2; [done|..]; rewrite ?length_app, ?length_replicate, ?length_map, ?length_seq; lia.
Qed.

(** A proof that leads to a node of the tree selects leaves of the tree. *)
Lemma TraverseAndExtract_sound msgs L t (k : nat) p st h st' :
  0 < Z.of_nat (length L) <= 2 ^ 31 -> nTransactions t = length L -> Forall hash256 L -> Forall hash256 (vHash t) ->
  (k <= 31)%nat -> 0 <= p < width L k -> TraverseAndExtract t k p st = (h, st') ->
  hash256 h /\ (bad st' = false -> bad st = false)
  /\ (bad st' = false -> tree_messages L k p ⊆ msgs -> proof_messages t k p st ⊆ msgs -> h = node L k p ->
      (exists ms, matches st' = matches st ++ ms /\ Forall (fun m => m ∈ L) ms) \/ sha256d_collision msgs).
Proof.
  intros Hn Ht HL Hv. revert p st h st'.
  induction k as [|k IH]; intros p st h st' Hk Hp He; cbn [TraverseAndExtract] in He; cbn [proof_messages tree_messages];
    cbn [nHashUsed nBitsUsed bad matches] in He.
  all: destruct (vBits t !! _) as [b|]; [|injection He as <- <-; done].
  - destruct (vHash t !! _) as [x|] eqn:Ex; [|injection He as <- <-; done]. injection He as <- <-.
    split; [by eapply Forall_lookup_1|]. split; [done|]. intros _ _ _ ->. left. cbn [matches andb].
    destruct b; [|exists []; by rewrite app_nil_r]. exists [node L 0 p]. split; [done|]. constructor; [|done].
    pose proof (width_bound L 0) as Hw. change (2 ^ 0%nat) with 1 in Hw.
    destruct (lookup_lt_is_Some_2 L (Z.to_nat p)) as [y Hy]; [lia|]. cbn [node]. rewrite (nth_lookup_Some L _ _ y Hy).
    by eapply list_elem_of_lookup_2.
  - destruct b; cbn [negb] in He.
    2: { destruct (vHash t !! _) as [x|] eqn:Ex; [|injection He as <- <-; done]. injection He as <- <-.
         split; [by eapply Forall_lookup_1|]. split; [done|]. intros _ _ _ _. left. exists []. by rewrite app_nil_r. }
    destruct (child_positions L Hn k p Hk Hp) as (Hpl & Hpr & Hl & Hc). rewrite Ht, Hc, Hpl, Hpr in He.
    rewrite Ht, CalcTreeWidth_spec by (done || lia).
    destruct (TraverseAndExtract t k (2 * p) _) as [lh st1] eqn:E1.
    destruct (IH (2 * p) _ lh st1 ltac:(lia) Hl E1) as (Hlh & Hbad1 & Hs1). cbn [bad matches] in Hbad1, Hs1.
    destruct (Z.ltb_spec (2 * p + 1) (width L k)) as [Hr|Hr].
    + destruct (TraverseAndExtract t k (2 * p + 1) st1) as [rh st2] eqn:E2. injection He as <- <-. cbn [fst].
      destruct (IH (2 * p + 1) _ rh st2 ltac:(lia) ltac:(lia) E2) as (Hrh & Hbad2 & Hs2).
      split; [apply Hash2_length|].
      assert (Hst : bad (if bool_decide (rh = lh) then set_bad st2 else st2) = false -> bad st2 = false) by (by case_match).
      split; [intros Hb; apply Hbad1, Hbad2, Hst, Hb|]. intros Hb Hmt Hmp Heq. apply Hst in Hb as Hb2.
      rewrite node_S, (proj2 (Z.ltb_lt _ _) Hr) in Heq.
      apply messages_cons in Hmt as (Hx & Hml & Hmr), Hmp as (Hx' & Hml' & Hmr').
      apply (Hash2_inj msgs) in Heq as [[-> ->]|?]; try done; [|by right|by apply node_length..].
      destruct (Hs1 (Hbad2 Hb2) Hml Hml' eq_refl) as [(m1 & Hm1 & HF1)|?]; [|by right].
      destruct (Hs2 Hb2 Hmr Hmr' eq_refl) as [(m2 & Hm2 & HF2)|?]; [|by right]. left. exists (m1 ++ m2).
      split; [|by apply Forall_app]. rewrite app_assoc, <- Hm1, <- Hm2. by case_match.
    + injection He as <- <-. split; [apply Hash2_length|]. split; [done|]. intros Hb Hmt Hmp Heq.
      rewrite node_S, (proj2 (Z.ltb_ge _ _) Hr) in Heq.
      apply messages_last in Hmt as [Hx Hml], Hmp as [Hx' Hml'].
      apply (Hash2_inj msgs) in Heq as [[-> _]|?]; try done; [|by right|by apply node_length..]. by apply Hs1.
Qed.

(** Sizes and ranges of what a partial tree is written with. *)
Lemma node_bits_length L M (k : nat) p : Z.of_nat (length (node_bits L M k p)) <= 2 ^ S k - 1.
Proof.
  revert p. induction k as [|k IH]; intros p; cbn [node_bits]; [done|]. rewrite pow2_S. pose proof (pow2_pos (S k) ltac:(lia)).
  destruct (matched M (S k) p); [|cbn [length]; lia]. cbn [length]. rewrite length_app. pose proof (IH (2 * p)).
  destruct (_ <? _); [pose proof (IH (2 * p + 1)); lia|cbn [length]; lia].
Qed.

Lemma node_flat L k p : Forall (flat_ok 32) L -> flat_ok 32 (node L k p).
Proof.
  intros HL. destruct k.
  - cbn [node]. destruct (nth_in_or_default (Z.to_nat p) L null256) as [Hin| ->].
    + rewrite Forall_forall in HL. apply HL. by apply list_elem_of_In.
    + split; [done|]. by apply Forall_replicate.
  - cbn [node]. rewrite Hash2_spec. destruct (sha256d_output (node L k (2 * p)
      ++ (if 2 * p + 1 <? width L k then node L k (2 * p + 1) else node L k (2 * p)))). by split.
Qed.

Lemma node_hashes_flat L M k p : Forall (flat_ok 32) L -> Forall (flat_ok 32) (node_hashes L M k p).
Proof.
  intros HL. revert p. induction k as [|k IH]; intros p; cbn [node_hashes].
  - constructor; [by apply (node_flat L 0)|done].
  - destruct (matched M (S k) p); [|constructor; [by apply (node_flat L (S k))|done]].
    apply Forall_app. split; [done|]. by destruct (_ <? _).
Qed.

Lemma pack_loop_ok p bits b : bytes_ok b -> bytes_ok (pack_loop p bits b).
Proof.
  revert p b. induction bits as [|x bits IH]; intros p b Hb; [done|]. cbn [pack_loop]. apply IH.
  apply Forall_alter; [done|]. intros y _ Hy. unfold uint in *.
  assert (0 <= Z.shiftl (Z.b2z x) (p mod 8)%nat < 2 ^ 8).
  { rewrite Z.shiftl_mul_pow2 by lia. pose proof (Nat.mod_upper_bound p 8 ltac:(lia)).
    assert (0 < 2 ^ (p mod 8)%nat <= 2 ^ 7) by (split; [apply pow2_pos; lia|apply Z.pow_le_mono_r; lia]). destruct x; cbn [Z.b2z]; lia. }
  by apply lor_range.
Qed.

(** ** Properties *)

(** C37: The Merkle root computed in one pass over the leaves is the hash of the
    recursive tree that the partial trees use, of the height both count up to.
    The branch computed for any leaf has one hash per level and leads from the
    leaf to that root. *)
Theorem merkle_root_and_branch L pos :
  0 < Z.of_nat (length L) <= 2 ^ 31 -> 0 <= pos < length L ->
  exists k root mut br,
    tree_height 32 (length L) 0 = Some k /\ CalcHash (length L) k 0 L = Some root
    /\ ComputeMerkleRoot L = Some (root, mut) /\ ComputeMerkleBranch L pos = Some br /\ length br = k
    /\ ComputeMerkleRootFromBranch (nth (Z.to_nat pos) L null256) br pos = root.
Proof.
  intros Hn Hpos. destruct (tree_height_spec L Hn 32 0) as (k & Hk & Hh & Hk31); [lia|lia|lia|].
  destruct (MerkleComputation_spec L Hn false (to_u32 (-1)) ltac:(done)) as (k1 & mut & br1 & E1 & Hh1 & _).
  destruct (MerkleComputation_spec L Hn true pos ltac:(lia)) as (k2 & mut2 & br2 & E2 & Hh2 & _ & Hbr).
  assert (k1 = k) as -> by (by eapply is_height_unique). assert (k2 = k) as -> by (by eapply is_height_unique).
  exists k, (node L k 0), mut, br2. unfold ComputeMerkleRoot, ComputeMerkleBranch. rewrite E1, E2, Hk.
  assert (Hw : 0 <= 0 < width L k) by (destruct Hh as [-> _]; lia). rewrite (CalcHash_node L Hn k 0 Hk31 Hw).
  rewrite (Hbr eq_refl ltac:(lia)). split_and!; try done.
  - unfold siblings. by rewrite length_map, length_seq.
  - pose proof (branch_climb L pos 0 k ltac:(lia)) as Hc. rewrite Z.div_1_r, Nat.add_0_l in Hc.
    unfold siblings. cbn [node] in Hc. rewrite Hc. f_equal. apply Z.div_small.
    pose proof (width_bound L k) as Hb. destruct Hh as [Hw1 _]. rewrite Hw1 in Hb. lia.
Qed.

Definition toy_leaves : list bytes := [replicate 32 1; replicate 32 2; replicate 32 3].

Lemma merkle_root_and_branch_witness :
  exists root br, ComputeMerkleBranch toy_leaves 2 = Some br /\ length br = 2%nat
    /\ CalcHash 3 2 0 toy_leaves = Some root /\ ComputeMerkleRootFromBranch (replicate 32 3) br 2 = root.
Proof.
  destruct (merkle_root_and_branch toy_leaves 2) as (k & root & mut & br & Hk & Hr & _ & Hb & Hl & Hc); [by cbn|by cbn|].
  assert (k = 2%nat) as -> by (vm_compute in Hk; congruence). exists root, br. split_and!; [exact Hb|exact Hl|exact Hr|exact Hc].
Defined.

(** The root that [ComputeMerkleRoot] returns, and its flag. *)
Lemma ComputeMerkleRoot_spec L k :
  0 < Z.of_nat (length L) <= 2 ^ 31 -> tree_height 32 (length L) 0 = Some k ->
  is_height L k /\ exists mut, ComputeMerkleRoot L = Some (node L k 0, mut) /\ (mut = true <-> mutated_tree L).
Proof.
  intros Hn Hk. destruct (MerkleComputation_spec L Hn false (to_u32 (-1)) ltac:(done)) as (k1 & mut & br & E & Hh & Hm & _).
  destruct (tree_height_spec L Hn 32 0) as (k2 & Hk2 & Hh2 & _); [lia|lia|lia|]. assert (k2 = k) as -> by congruence.
  assert (k1 = k) as -> by (by eapply is_height_unique). split; [done|]. exists mut. unfold ComputeMerkleRoot. by rewrite E.
Qed.

(** Lists with the same root and clear flags are equal. *)
Lemma merkle_root_binds L L' k root :
  0 < Z.of_nat (length L) <= 2 ^ 31 -> 0 < Z.of_nat (length L') <= 2 ^ 31 ->
  Forall hash256 L -> Forall hash256 L' -> tree_height 32 (length L) 0 = Some k -> tree_height 32 (length L') 0 = Some k ->
  ComputeMerkleRoot L = Some (root, false) -> ComputeMerkleRoot L' = Some (root, false) ->
  L = L' \/ sha256d_collision (tree_messages L k 0 ++ tree_messages L' k 0).
Proof.
  intros Hn Hn' HL HL' Hk Hk' Hr Hr'. destruct (ComputeMerkleRoot_spec L k Hn Hk) as (Hh & mut & E & Hm).
  destruct (ComputeMerkleRoot_spec L' k Hn' Hk') as (Hh' & mut' & E' & Hm').
  assert (node L k 0 = root /\ mut = false) as [<- ->] by (clear - Hr E; split; congruence).
  assert (node L' k 0 = node L k 0 /\ mut' = false) as [He ->] by (clear - Hr' E'; split; congruence).
  assert (Hw : 0 <= 0 < width L k) by (destruct Hh as [-> _]; lia). assert (Hw' : 0 <= 0 < width L' k) by (destruct Hh' as [-> _]; lia).
  destruct (node_inj (tree_messages L k 0 ++ tree_messages L' k 0) L L' k 0 0 HL HL' Hw Hw' (messages_l _ _) (messages_r _ _)
              (eq_sym He)) as [Hs|[Hx|[Hx|?]]]; [left| | |by right].
  - by rewrite !segment_root in Hs.
  - by apply Hm in Hx.
  - by apply Hm' in Hx.
Qed.

(** C16: The mutation flag finds every list of leaves that could be mistaken for
    another. It is set exactly when two full sibling subtrees are equal; two
    lists of hashes with the same tree height, the same root and clear flags
    are equal, unless double SHA-256 maps two different ones of the strings
    hashed in the two trees to one hash. *)
Theorem merkle_mutation_detected L L' k :
  0 < Z.of_nat (length L) <= 2 ^ 31 -> 0 < Z.of_nat (length L') <= 2 ^ 31 ->
  Forall hash256 L -> Forall hash256 L' -> tree_height 32 (length L) 0 = Some k -> tree_height 32 (length L') 0 = Some k ->
  (exists root mut, ComputeMerkleRoot L = Some (root, mut) /\ (mut = true <-> mutated_tree L))
  /\ (forall root, ComputeMerkleRoot L = Some (root, false) -> ComputeMerkleRoot L' = Some (root, false) ->
      L = L' \/ sha256d_collision (tree_messages L k 0 ++ tree_messages L' k 0)).
Proof.
  intros Hn Hn' HL HL' Hk Hk'. split.
  - destruct (ComputeMerkleRoot_spec L k Hn Hk) as (_ & mut & E & Hm). by exists (node L k 0), mut.
  - intros root Hr Hr'. by apply (merkle_root_binds L L' k root).
Qed.

Lemma merkle_mutation_detected_witness :
  (exists root mut, ComputeMerkleRoot toy_leaves = Some (root, mut) /\ (mut = true <-> mutated_tree toy_leaves))
  /\ (forall root, ComputeMerkleRoot toy_leaves = Some (root, false) ->
      ComputeMerkleRoot (toy_leaves ++ [replicate 32 3]) = Some (root, false) ->
      toy_leaves = toy_leaves ++ [replicate 32 3]
      \/ sha256d_collision (tree_messages toy_leaves 2 0 ++ tree_messages (toy_leaves ++ [replicate 32 3]) 2 0)).
Proof.
  apply (merkle_mutation_detected toy_leaves (toy_leaves ++ [replicate 32 3]) 2);
    [by cbn|by cbn|by repeat constructor|by repeat constructor|by vm_compute|by vm_compute].
Defined.

Lemma small_height L k : is_height L k -> Z.of_nat (length L) <= 33333 -> (k <= 16)%nat.
Proof.
  intros [_ Hlow] Hn. destruct (decide (k <= 16)%nat) as [|Hk]; [done|]. specialize (Hlow 16%nat ltac:(lia)).
  pose proof (proj1 (width_lt L 16 1) ltac:(lia)) as Hw. change (2 ^ 16%nat * 1) with 65536 in Hw. lia.
Qed.

(** Reading back what was written for a built tree pads its bits. *)
Lemma partial_tree_read n bits hashes :
  uint 32 n -> size_ok hashes -> Forall (flat_ok 32) hashes -> Z.of_nat (length bits) <= 2 ^ 17 ->
  exists b, Serialize partial_tree_codec (PartialMerkleTree n bits hashes false) = Ok b
    /\ Unserialize partial_tree_codec b = Ok (PartialMerkleTree n (padded_bits bits) hashes false, []).
Proof.
  intros Hn Hs Hh Hb.
  assert (Hl : Lawful (u32_codec >> vector_of 32 uint256_codec >> bytes_vec_codec)
                 (fun '(a, (b, c)) => uint 32 a /\ vec_ok (flat_ok 32) b /\ (size_ok c /\ bytes_ok c))).
  { eapply lawful_ext; [repeat first [apply seq2_lawful|apply vector_of_lawful|apply _|by vm_compute]|].
    intros (a & b & c). cbn. tauto. }
  assert (Hpack : size_ok (pack_bits bits) /\ bytes_ok (pack_bits bits)).
  { split; [|apply pack_loop_ok, Forall_replicate; by split]. unfold size_ok, pack_bits. rewrite pack_loop_length, length_replicate.
    pose proof (Nat.div_mod_eq (length bits + 7) 8). unfold MAX_SIZE. lia. }
  destruct (lawful_rt (Lawful := Hl) (n, (hashes, pack_bits bits))) as (b & Hser & _ & Hu);
    [split; [exact Hn|split; [split; [exact Hs|exact Hh]|exact Hpack]]|].
  exists b. unfold partial_tree_codec. cbn [Serialize Unserialize nTransactions vHash vBits]. split; [exact Hser|].
  specialize (Hu []). rewrite app_nil_r in Hu. cbn [Unserialize] in Hu. rewrite Hu. cbn [bindR]. by rewrite unpack_pack.
Qed.

Lemma padded_same_bytes bits : (length (padded_bits bits) + 7) / 8 = (length bits + 7) / 8.
Proof.
  unfold padded_bits. rewrite length_app, length_replicate.
  pose proof (Nat.div_mod_eq (length bits + 7) 8) as Hd. pose proof (Nat.mod_upper_bound (length bits + 7) 8 ltac:(lia)).
  set (q := ((length bits + 7) / 8)%nat) in *. replace (length bits + (8 * q - length bits))%nat with (8 * q)%nat by lia.
  transitivity (Z.of_nat q); [symmetry; apply (Z.div_unique_pos _ 8 q 7); lia|].
  apply (Z.div_unique_pos _ 8 q ((length bits + 7) mod 8)%nat); lia.
Qed.

Lemma built_extracts L M k :
  0 < Z.of_nat (length L) <= 33333 -> length M = length L -> Forall (flat_ok 32) L -> is_height L k -> (k <= 16)%nat ->
  tree_height 32 (length L) 0 = Some k -> distinct_siblings L ->
  exists t b t', CPartialMerkleTree_of L M = Some t /\ Serialize partial_tree_codec t = Ok b
    /\ Unserialize partial_tree_codec b = Ok (t', []) /\ ExtractMatches t' = Some (node L k 0, pick L M).
Proof.
  intros Hn HM HL Hh Hk16 Hk Hd. assert (Hn' : 0 < Z.of_nat (length L) <= 2 ^ 31) by lia.
  assert (Hw : 0 <= 0 < width L k) by (destruct Hh as [-> _]; lia).
  set (bits := node_bits L M k 0). set (hashes := node_hashes L M k 0).
  assert (Hbits : Z.of_nat (length bits) <= 2 ^ 17).
  { pose proof (node_bits_length L M k 0). assert (2 ^ S k <= 2 ^ 17) by (apply Z.pow_le_mono_r; lia). fold bits in H. lia. }
  destruct (node_counts L M k 0 HM Hw) as [Hc1 Hc2]. rewrite (segment_root L k Hh) in Hc1. fold hashes bits in Hc1, Hc2.
  destruct (partial_tree_read (length L) bits hashes) as (b & Hser & Hun);
    [unfold uint; lia|unfold size_ok, MAX_SIZE; lia|by apply node_hashes_flat|done|].
  exists (PartialMerkleTree (length L) bits hashes false), b, (PartialMerkleTree (length L) (padded_bits bits) hashes false).
  split_and!; [|done|done|].
  - unfold CPartialMerkleTree_of. rewrite wrap_small by (unfold uint; lia). rewrite Hk. cbn [mbind option_bind].
    by rewrite (TraverseAndBuild_spec L M Hn' HM k 0 [] [] ltac:(lia) Hw).
  - unfold ExtractMatches. cbn [nTransactions vHash vBits fBad].
    assert (length bits <= length (padded_bits bits))%nat by (unfold padded_bits; rewrite length_app; lia).
    rewrite (proj2 (Z.eqb_neq _ _)) by lia. change (MAX_BLOCK_SIZE / 60) with 33333. rewrite !(proj2 (Z.ltb_ge _ _)) by lia.
    rewrite Hk. cbn [mbind option_bind].
    pose proof (TraverseAndExtract_built L M Hn' HM (PartialMerkleTree (length L) (padded_bits bits) hashes false) eq_refl Hd k 0
                  [] (replicate (8 * ((length bits + 7) / 8) - length bits) false) [] [] false [] ltac:(lia) Hw eq_refl
                  ltac:(by cbn [vHash app]; rewrite app_nil_r)) as HT.
    change (Z.of_nat (length (@nil bool))) with 0 in HT. change (Z.of_nat (length (@nil bytes))) with 0 in HT. rewrite HT.
    cbn [bad nBitsUsed nHashUsed matches length app]. fold bits hashes. rewrite !Z.add_0_l, padded_same_bytes, !Z.eqb_refl.
    cbn [negb]. rewrite (segment_root L k Hh). do 3 f_equal. unfold segment. rewrite Z.mul_0_r. cbn [Z.to_nat]. rewrite drop_0.
    apply take_ge. rewrite HM. destruct Hh as [Hw1 _]. pose proof (width_bound L k). rewrite Hw1 in *. lia.
Qed.

Lemma extract_sound L t k ms :
  0 < Z.of_nat (length L) <= 2 ^ 31 -> Forall hash256 L -> is_height L k -> (k <= 31)%nat ->
  tree_height 32 (length L) 0 = Some k -> nTransactions t = length L -> Forall hash256 (vHash t) -> node L k 0 <> null256 ->
  ExtractMatches t = Some (node L k 0, ms) ->
  Forall (fun m => m ∈ L) ms \/ sha256d_collision (tree_messages L k 0 ++ proof_messages t k 0 (ExtractState (fBad t) 0 0 [])).
Proof.
  intros Hn HL Hh Hk31 Hk Ht Hv Hne He. unfold ExtractMatches in He. rewrite Ht in He.
  assert (Hnull : forall m : list bytes, Some (null256, m) <> Some (node L k 0, ms)) by (intros m [= Hx _]; by rewrite Hx in Hne).
  destruct (_ =? 0) in He; [by apply Hnull in He|]. do 3 (destruct (_ <? _) in He; [by apply Hnull in He|]).
  rewrite Hk in He. cbn [mbind option_bind] in He.
  destruct (TraverseAndExtract t k 0 _) as [h st] eqn:E.
  assert (Hw : 0 <= 0 < width L k) by (destruct Hh as [-> _]; lia).
  destruct (TraverseAndExtract_sound (tree_messages L k 0 ++ proof_messages t k 0 (ExtractState (fBad t) 0 0 [])) L t k 0 _ h st Hn Ht HL Hv Hk31 Hw E) as (_ & _ & Hs).
  destruct (bad st); [by apply Hnull in He|]. do 2 (destruct (negb _) in He; [by apply Hnull in He|]).
  assert (h = node L k 0 /\ matches st = ms) as [-> <-] by (clear - He; split; congruence).
  destruct (Hs eq_refl (messages_l _ _) (messages_r _ _) eq_refl) as [(m & Hm & HF)|?]; [left|by right]. by rewrite Hm.
Qed.

(** C38: Partial Merkle trees prove inclusion. For a block of at most 33333
    transactions in which no node has equal children, the tree built for any
    selection, written, read back and extracted, gives the Merkle root and
    exactly the selected transactions in order. Conversely, whatever tree
    claims the right number of transactions and extracts to the Merkle root,
    which is not zero, the transactions it selects are in the block, unless double SHA-256 maps
    two different ones of the strings hashed in the two trees to one hash. *)
Theorem partial_tree_proofs L M k root :
  0 < Z.of_nat (length L) <= 33333 -> length M = length L -> Forall (flat_ok 32) L ->
  tree_height 32 (length L) 0 = Some k -> CalcHash (length L) k 0 L = Some root ->
  (distinct_siblings L ->
   exists t b t', CPartialMerkleTree_of L M = Some t /\ Serialize partial_tree_codec t = Ok b
     /\ Unserialize partial_tree_codec b = Ok (t', []) /\ ExtractMatches t' = Some (root, pick L M))
  /\ (forall t ms, nTransactions t = length L -> Forall hash256 (vHash t) -> root <> null256 ->
      ExtractMatches t = Some (root, ms) ->
      Forall (fun m => m ∈ L) ms \/ sha256d_collision (tree_messages L k 0 ++ proof_messages t k 0 (ExtractState (fBad t) 0 0 []))).
Proof.
  intros Hn HM HL Hk Hroot. assert (Hn' : 0 < Z.of_nat (length L) <= 2 ^ 31) by lia.
  assert (HL' : Forall hash256 L) by (eapply Forall_impl; [exact HL|]; by intros x [Hx _]).
  destruct (tree_height_spec L Hn' 32 0) as (k' & Hk' & Hh & Hk31); [lia|lia|lia|].
  assert (k' = k) as -> by congruence. pose proof (small_height L k Hh ltac:(lia)) as Hk16.
  assert (Hw : 0 <= 0 < width L k) by (destruct Hh as [-> _]; lia).
  rewrite (CalcHash_node L Hn' k 0 Hk31 Hw) in Hroot. injection Hroot as <-.
  split; [|intros t ms Ht Hv Hne He; by eapply extract_sound].
  intros Hd. by apply built_extracts.
Qed.

Lemma toy_distinct : distinct_siblings [replicate 32 1; replicate 32 2].
Proof.
  intros k p Hp Hw. apply width_lt in Hw. cbn [length] in Hw. destruct k as [|k].
  - change (2 ^ 0%nat) with 1 in Hw. assert (p = 0) as -> by lia. by vm_compute.
  - rewrite pow2_S in Hw. pose proof (pow2_pos k ltac:(lia)). nia.
Qed.

Lemma partial_tree_proofs_witness :
  let L := [replicate 32 1; replicate 32 2] in
  exists root t b t', CPartialMerkleTree_of L [false; true] = Some t
    /\ Serialize partial_tree_codec t = Ok b /\ Unserialize partial_tree_codec b = Ok (t', [])
    /\ ExtractMatches t' = Some (root, pick L [false; true]).
Proof.
  intros L. assert (Hk : tree_height 32 (length L) 0 = Some 1%nat) by by vm_compute.
  assert (HL : Forall (flat_ok 32) L) by (repeat constructor; lia).
  assert (Hlen : 0 < Z.of_nat (length L) <= 33333) by by cbn.
  assert (exists root, CalcHash (length L) 1 0 L = Some root) as [root E] by (eexists; reflexivity).
  exists root. apply (proj1 (partial_tree_proofs L [false; true] 1 root Hlen eq_refl HL Hk E) toy_distinct).
Defined.
