(* ===== verification/Coins.v ===== *)
(** * The coins view (src/coins.h, coins.cpp)

    Unspent outputs, note commitment tree anchors and nullifiers, read through
    a stack of views: a cache holds the entries that were read or changed and
    falls back to its base. [CCoinsView] is the interface that a cache reads its
    base through; [as_view] is the view that a cache offers in turn. Reading
    fills the cache, so it returns a new one. A [CCoinsModifier] lives from
    [ModifyCoins] to its destructor: [ModifyCoins] takes the code that runs in
    between. The accounting of memory is left out.

    The trees are values of the interface [MerkleTree]. A map is iterated in an
    unspecified order; the theorems do not depend on it. *)

From S2P Require Import Prelude Serialize Digest Sha Ripemd Hash Amount Transaction Script.
Local Open Scope Z_scope.
Local Open Scope code_scope.

(** ** Definitions *)

(** *** Coins *)

Record CCoins := Coins { fCoinBase : bool; c_vout : list CTxOut; c_nHeight : Z; c_nVersion : Z }.

#[export] Instance CCoins_eq_dec : EqDecision CCoins.
Proof. solve_decision. Defined.

Definition coins_null : CCoins := Coins false [] 0 0.
Definition set_vout (vout : list CTxOut) (c : CCoins) : CCoins := Coins (fCoinBase c) vout (c_nHeight c) (c_nVersion c).

(** The outputs from the back of the vector on, without the null ones it
    starts with. *)
Fixpoint pop_null (back : list CTxOut) : list CTxOut :=
  match back with
  | o :: rest => if txout_IsNull o then pop_null rest else back
  | [] => []
  end.
Definition Cleanup (c : CCoins) : CCoins := set_vout (rev (pop_null (rev (c_vout c)))) c.
Definition ClearUnspendable (c : CCoins) : CCoins :=
  Cleanup (set_vout (map (fun o => if IsUnspendable (scriptPubKey o) then txout_null else o) (c_vout c)) c).
Definition FromTx (t : CTransaction) (nHeightIn : Z) : CCoins :=
  ClearUnspendable (Coins (IsCoinBase t) (vout t) nHeightIn (nVersion t)).

Definition IsAvailable (c : CCoins) (nPos : Z) : bool :=
  match c_vout c !! Z.to_nat nPos with Some o => negb (txout_IsNull o) | None => false end.
Definition IsPruned (c : CCoins) : bool := forallb txout_IsNull (c_vout c).
Definition coins_equal (a b : CCoins) : bool :=
  if IsPruned a && IsPruned b then true
  else eqb (fCoinBase a) (fCoinBase b) && (c_nHeight a =? c_nHeight b) && (c_nVersion a =? c_nVersion b)
       && bool_decide (c_vout a = c_vout b).
Definition coins_Spend (c : CCoins) (nPos : Z) : CCoins * bool :=
  if IsAvailable c nPos then (Cleanup (set_vout (<[Z.to_nat nPos := txout_null]> (c_vout c)) c), true)
  else (c, false).

(** *** Views *)

Inductive ShieldedType := SPROUT | SAPLING.

(** The tree of note commitments: its root, and appending, which throws when
    the tree is full. *)
Class MerkleTree (T : Type) := {
  tree_empty : T;
  tree_append : T -> bytes -> option T;
  tree_root : T -> bytes
}.

Section coins_view.
Context {SproutMerkleTree SaplingMerkleTree : Type} `{MerkleTree SproutMerkleTree} `{MerkleTree SaplingMerkleTree}.

Record CCoinsView := View {
  view_GetSproutAnchorAt : bytes -> option SproutMerkleTree;
  view_GetSaplingAnchorAt : bytes -> option SaplingMerkleTree;
  view_GetNullifier : bytes -> ShieldedType -> bool;
  view_GetCoins : bytes -> option CCoins;
  view_GetBestBlock : bytes;
  view_GetBestAnchor : ShieldedType -> bytes }.

(** The view of the base class, which has nothing. *)
Definition view_nothing : CCoinsView :=
  View (fun _ => None) (fun _ => None) (fun _ _ => false) (fun _ => None) null256 (fun _ => null256).

(** *** Cache entries and the cache *)

Record CCoinsCacheEntry := CoinsEntry { e_coins : CCoins; e_dirty : bool; e_fresh : bool }.
Record CAnchorsCacheEntry (Tree : Type) := AnchorEntry { a_entered : bool; a_tree : Tree; a_dirty : bool }.
Arguments AnchorEntry {Tree}.
Arguments a_entered {Tree}.
Arguments a_tree {Tree}.
Arguments a_dirty {Tree}.
Record CNullifiersCacheEntry := NullifierEntry { n_entered : bool; n_dirty : bool }.

Record CCoinsViewCache := Cache {
  base : CCoinsView;
  hashBlock : bytes;
  cacheCoins : gmap bytes CCoinsCacheEntry;
  hashSproutAnchor : bytes;
  hashSaplingAnchor : bytes;
  cacheSproutAnchors : gmap bytes (CAnchorsCacheEntry SproutMerkleTree);
  cacheSaplingAnchors : gmap bytes (CAnchorsCacheEntry SaplingMerkleTree);
  cacheSproutNullifiers : gmap bytes CNullifiersCacheEntry;
  cacheSaplingNullifiers : gmap bytes CNullifiersCacheEntry }.

Definition new_cache (baseIn : CCoinsView) : CCoinsViewCache := Cache baseIn null256 ∅ null256 null256 ∅ ∅ ∅ ∅.

Definition set_coins (c : CCoinsViewCache) (m : gmap bytes CCoinsCacheEntry) : CCoinsViewCache :=
  Cache (base c) (hashBlock c) m (hashSproutAnchor c) (hashSaplingAnchor c)
    (cacheSproutAnchors c) (cacheSaplingAnchors c) (cacheSproutNullifiers c) (cacheSaplingNullifiers c).
Definition set_best (c : CCoinsViewCache) (block sprout sapling : bytes) : CCoinsViewCache :=
  Cache (base c) block (cacheCoins c) sprout sapling
    (cacheSproutAnchors c) (cacheSaplingAnchors c) (cacheSproutNullifiers c) (cacheSaplingNullifiers c).
Definition set_sprout_anchors (c : CCoinsViewCache) m (hash : bytes) : CCoinsViewCache :=
  Cache (base c) (hashBlock c) (cacheCoins c) hash (hashSaplingAnchor c)
    m (cacheSaplingAnchors c) (cacheSproutNullifiers c) (cacheSaplingNullifiers c).
Definition set_sapling_anchors (c : CCoinsViewCache) m (hash : bytes) : CCoinsViewCache :=
  Cache (base c) (hashBlock c) (cacheCoins c) (hashSproutAnchor c) hash
    (cacheSproutAnchors c) m (cacheSproutNullifiers c) (cacheSaplingNullifiers c).
Definition set_nullifiers (c : CCoinsViewCache) (sprout sapling : gmap bytes CNullifiersCacheEntry) : CCoinsViewCache :=
  Cache (base c) (hashBlock c) (cacheCoins c) (hashSproutAnchor c) (hashSaplingAnchor c)
    (cacheSproutAnchors c) (cacheSaplingAnchors c) sprout sapling.

(** *** Reading *)

Definition FetchCoins (c : CCoinsViewCache) (txid : bytes) : CCoinsViewCache * option CCoins :=
  match cacheCoins c !! txid with
  | Some e => (c, Some (e_coins e))
  | None =>
      match view_GetCoins (base c) txid with
      | None => (c, None)
      | Some tmp => (set_coins c (<[txid := CoinsEntry tmp false (IsPruned tmp)]> (cacheCoins c)), Some tmp)
      end
  end.
Definition AccessCoins (c : CCoinsViewCache) (txid : bytes) : CCoinsViewCache * option CCoins := FetchCoins c txid.
Definition GetCoins (c : CCoinsViewCache) (txid : bytes) : CCoinsViewCache * option CCoins := FetchCoins c txid.
Definition HaveCoins (c : CCoinsViewCache) (txid : bytes) : CCoinsViewCache * bool :=
  let '(c, co) := FetchCoins c txid in
  (c, match co with Some co => match c_vout co with [] => false | _ => true end | None => false end).
Definition HaveCoinsInCache (c : CCoinsViewCache) (txid : bytes) : bool := bool_decide (is_Some (cacheCoins c !! txid)).
Definition Uncache (c : CCoinsViewCache) (txid : bytes) : CCoinsViewCache :=
  match cacheCoins c !! txid with
  | Some (CoinsEntry _ false false) => set_coins c (delete txid (cacheCoins c))
  | _ => c
  end.

(** [GetSproutAnchorAt] and [GetSaplingAnchorAt] differ in the maps they use. *)
Definition fetch_anchor {Tree} (from_base : bytes -> option Tree) (cache : gmap bytes (CAnchorsCacheEntry Tree)) (rt : bytes)
  : gmap bytes (CAnchorsCacheEntry Tree) * option Tree :=
  match cache !! rt with
  | Some e => (cache, if a_entered e then Some (a_tree e) else None)
  | None =>
      match from_base rt with
      | None => (cache, None)
      | Some tree => (<[rt := AnchorEntry true tree false]> cache, Some tree)
      end
  end.
Definition GetSproutAnchorAt (c : CCoinsViewCache) (rt : bytes) : CCoinsViewCache * option SproutMerkleTree :=
  let '(m, t) := fetch_anchor (view_GetSproutAnchorAt (base c)) (cacheSproutAnchors c) rt in
  (set_sprout_anchors c m (hashSproutAnchor c), t).
Definition GetSaplingAnchorAt (c : CCoinsViewCache) (rt : bytes) : CCoinsViewCache * option SaplingMerkleTree :=
  let '(m, t) := fetch_anchor (view_GetSaplingAnchorAt (base c)) (cacheSaplingAnchors c) rt in
  (set_sapling_anchors c m (hashSaplingAnchor c), t).

Definition fetch_nullifier (from_base : bool) (cache : gmap bytes CNullifiersCacheEntry) (nullifier : bytes)
  : gmap bytes CNullifiersCacheEntry * bool :=
  match cache !! nullifier with
  | Some e => (cache, n_entered e)
  | None => (<[nullifier := NullifierEntry from_base false]> cache, from_base)
  end.
Definition GetNullifier (c : CCoinsViewCache) (nullifier : bytes) (type : ShieldedType) : CCoinsViewCache * bool :=
  let tmp := view_GetNullifier (base c) nullifier type in
  match type with
  | SPROUT => let '(m, b) := fetch_nullifier tmp (cacheSproutNullifiers c) nullifier in
              (set_nullifiers c m (cacheSaplingNullifiers c), b)
  | SAPLING => let '(m, b) := fetch_nullifier tmp (cacheSaplingNullifiers c) nullifier in
               (set_nullifiers c (cacheSproutNullifiers c) m, b)
  end.

Definition GetBestBlock (c : CCoinsViewCache) : CCoinsViewCache * bytes :=
  let h := if bool_decide (hashBlock c = null256) then view_GetBestBlock (base c) else hashBlock c in
  (set_best c h (hashSproutAnchor c) (hashSaplingAnchor c), h).
Definition GetBestAnchor (c : CCoinsViewCache) (type : ShieldedType) : CCoinsViewCache * bytes :=
  match type with
  | SPROUT =>
      let h := if bool_decide (hashSproutAnchor c = null256) then view_GetBestAnchor (base c) SPROUT else hashSproutAnchor c in
      (set_best c (hashBlock c) h (hashSaplingAnchor c), h)
  | SAPLING =>
      let h := if bool_decide (hashSaplingAnchor c = null256) then view_GetBestAnchor (base c) SAPLING else hashSaplingAnchor c in
      (set_best c (hashBlock c) (hashSproutAnchor c) h, h)
  end.

(** The view that a cache offers. *)
Definition as_view (c : CCoinsViewCache) : CCoinsView :=
  View (fun rt => snd (GetSproutAnchorAt c rt)) (fun rt => snd (GetSaplingAnchorAt c rt))
    (fun nf type => snd (GetNullifier c nf type)) (fun txid => snd (GetCoins c txid))
    (snd (GetBestBlock c)) (fun type => snd (GetBestAnchor c type)).

(** *** Writing *)

(** The destructor of [CCoinsModifier]. *)
Definition end_modify (c : CCoinsViewCache) (txid : bytes) (e : CCoinsCacheEntry) : CCoinsViewCache :=
  let e := CoinsEntry (Cleanup (e_coins e)) (e_dirty e) (e_fresh e) in
  set_coins c (if e_fresh e && IsPruned (e_coins e) then delete txid (cacheCoins c) else <[txid := e]> (cacheCoins c)).

(** [modify] is what the caller does with the modifier, and returns what the
    caller keeps. *)
Definition ModifyCoins {A} (c : CCoinsViewCache) (txid : bytes) (modify : CCoins -> CCoins * A) : CCoinsViewCache * A :=
  let e :=
    match cacheCoins c !! txid with
    | Some e => e
    | None =>
        match view_GetCoins (base c) txid with
        | None => CoinsEntry coins_null false true
        | Some coins => CoinsEntry coins false (IsPruned coins)
        end
    end in
  let '(coins, a) := modify (e_coins e) in
  (end_modify c txid (CoinsEntry coins true (e_fresh e)), a).
Definition ModifyNewCoins (c : CCoinsViewCache) (txid : bytes) (modify : CCoins -> CCoins) : CCoinsViewCache :=
  end_modify c txid (CoinsEntry (modify coins_null) true true).

Definition SetBestBlock (c : CCoinsViewCache) (hashBlockIn : bytes) : CCoinsViewCache :=
  set_best c hashBlockIn (hashSproutAnchor c) (hashSaplingAnchor c).

(** The map and the best anchor after pushing and popping; [None] for the
    failed assertion that the best anchor is known. *)
Definition AbstractPushAnchor {Tree} `{MerkleTree Tree} (tree : Tree) (cacheAnchors : gmap bytes (CAnchorsCacheEntry Tree))
    (currentRoot : bytes) : gmap bytes (CAnchorsCacheEntry Tree) * bytes :=
  let newrt := tree_root tree in
  if bool_decide (currentRoot = newrt) then (cacheAnchors, currentRoot)
  else (<[newrt := AnchorEntry true tree true]> cacheAnchors, newrt).
Definition AbstractPopAnchor {Tree} (from_base : bytes -> option Tree) (newrt : bytes)
    (cacheAnchors : gmap bytes (CAnchorsCacheEntry Tree)) (currentRoot : bytes)
  : option (gmap bytes (CAnchorsCacheEntry Tree) * bytes) :=
  if bool_decide (currentRoot = newrt) then Some (cacheAnchors, currentRoot)
  else
    let '(cacheAnchors, t) := fetch_anchor from_base cacheAnchors currentRoot in
    match t with
    | None => None
    | Some tree => Some (<[currentRoot := AnchorEntry false tree true]> cacheAnchors, newrt)
    end.
Definition PushSproutAnchor (c : CCoinsViewCache) (tree : SproutMerkleTree) : CCoinsViewCache :=
  let '(c, currentRoot) := GetBestAnchor c SPROUT in
  let '(m, h) := AbstractPushAnchor tree (cacheSproutAnchors c) currentRoot in set_sprout_anchors c m h.
Definition PushSaplingAnchor (c : CCoinsViewCache) (tree : SaplingMerkleTree) : CCoinsViewCache :=
  let '(c, currentRoot) := GetBestAnchor c SAPLING in
  let '(m, h) := AbstractPushAnchor tree (cacheSaplingAnchors c) currentRoot in set_sapling_anchors c m h.
Definition PopAnchor (c : CCoinsViewCache) (newrt : bytes) (type : ShieldedType) : option CCoinsViewCache :=
  let '(c, currentRoot) := GetBestAnchor c type in
  match type with
  | SPROUT =>
      '(m, h) ← AbstractPopAnchor (view_GetSproutAnchorAt (base c)) newrt (cacheSproutAnchors c) currentRoot;
      Some (set_sprout_anchors c m h)
  | SAPLING =>
      '(m, h) ← AbstractPopAnchor (view_GetSaplingAnchorAt (base c)) newrt (cacheSaplingAnchors c) currentRoot;
      Some (set_sapling_anchors c m h)
  end.

Definition enter_nullifiers (spent : bool) (nfs : list bytes) (cache : gmap bytes CNullifiersCacheEntry)
  : gmap bytes CNullifiersCacheEntry :=
  foldl (fun cache nf => <[nf := NullifierEntry spent true]> cache) cache nfs.
Definition SetNullifiers (c : CCoinsViewCache) (t : CMutableTransaction) (spent : bool) : CCoinsViewCache :=
  set_nullifiers c (enter_nullifiers spent (concat (map js_nullifiers (vJoinSplit t))) (cacheSproutNullifiers c))
    (enter_nullifiers spent (map sd_nullifier (vShieldedSpend t)) (cacheSaplingNullifiers c)).

(** *** Writing to the parent *)

Definition batch_coins (us : gmap bytes CCoinsCacheEntry) (it : bytes * CCoinsCacheEntry) : gmap bytes CCoinsCacheEntry :=
  let '(txid, e) := it in
  if e_dirty e then
    match us !! txid with
    | None =>
        if e_fresh e && IsPruned (e_coins e) then us
        else <[txid := CoinsEntry (e_coins e) true (e_fresh e)]> us
    | Some u =>
        if e_fresh u && IsPruned (e_coins e) then delete txid us
        else <[txid := CoinsEntry (e_coins e) true (e_fresh u)]> us
    end
  else us.
Definition batch_anchors {Tree} (us : gmap bytes (CAnchorsCacheEntry Tree)) (it : bytes * CAnchorsCacheEntry Tree)
  : gmap bytes (CAnchorsCacheEntry Tree) :=
  let '(rt, e) := it in
  if a_dirty e then
    match us !! rt with
    | None => <[rt := AnchorEntry (a_entered e) (a_tree e) true]> us
    | Some u => if eqb (a_entered u) (a_entered e) then us else <[rt := AnchorEntry (a_entered e) (a_tree u) true]> us
    end
  else us.
Definition batch_nullifiers (us : gmap bytes CNullifiersCacheEntry) (it : bytes * CNullifiersCacheEntry)
  : gmap bytes CNullifiersCacheEntry :=
  let '(nf, e) := it in
  if n_dirty e then
    match us !! nf with
    | None => <[nf := NullifierEntry (n_entered e) true]> us
    | Some u => if eqb (n_entered u) (n_entered e) then us else <[nf := NullifierEntry (n_entered e) true]> us
    end
  else us.

(** [BatchWrite] of the cache [us], with the contents of the cache [c]. *)
Definition BatchWrite (us c : CCoinsViewCache) : CCoinsViewCache :=
  Cache (base us) (hashBlock c) (foldl batch_coins (cacheCoins us) (map_to_list (cacheCoins c)))
    (hashSproutAnchor c) (hashSaplingAnchor c)
    (foldl batch_anchors (cacheSproutAnchors us) (map_to_list (cacheSproutAnchors c)))
    (foldl batch_anchors (cacheSaplingAnchors us) (map_to_list (cacheSaplingAnchors c)))
    (foldl batch_nullifiers (cacheSproutNullifiers us) (map_to_list (cacheSproutNullifiers c)))
    (foldl batch_nullifiers (cacheSaplingNullifiers us) (map_to_list (cacheSaplingNullifiers c))).

(** [Flush] of a cache whose base is the cache [parent]. *)
Definition Flush (c parent : CCoinsViewCache) : CCoinsViewCache * CCoinsViewCache :=
  let parent := BatchWrite parent c in
  (Cache (as_view parent) (hashBlock c) ∅ (hashSproutAnchor c) (hashSaplingAnchor c) ∅ ∅ ∅ ∅, parent).

(** *** Queries about a transaction *)

Inductive coins_error := coins_assertion | value_out_of_range | tree_full.

Definition GetOutputFor (c : CCoinsViewCache) (input : CTxIn) : CCoinsViewCache * result coins_error CTxOut :=
  let '(c, coins) := AccessCoins c (op_hash (prevout input)) in
  (c, match coins with
      | Some coins =>
          match c_vout coins !! Z.to_nat (op_n (prevout input)) with
          | Some o => if txout_IsNull o then Err coins_assertion else Ok o
          | None => Err coins_assertion
          end
      | None => Err coins_assertion
      end).

Fixpoint sum_inputs (c : CCoinsViewCache) (nResult : Z) (ins : list CTxIn) : CCoinsViewCache * result coins_error Z :=
  match ins with
  | [] => (c, Ok nResult)
  | i :: ins =>
      match GetOutputFor c i with
      | (c, Ok o) => sum_inputs c (to_i64 (nResult + nValue o)) ins
      | (c, Err e) => (c, Err e)
      end
  end.
Definition GetValueIn (c : CCoinsViewCache) (t : CMutableTransaction) : CCoinsViewCache * result coins_error Z :=
  if IsCoinBase t then (c, Ok 0)
  else
    match sum_inputs c 0 (vin t) with
    | (c, Ok nResult) =>
        (c, match GetShieldedValueIn t with Ok v => Ok (to_i64 (nResult + v)) | Err _ => Err value_out_of_range end)
    | (c, Err e) => (c, Err e)
    end.

Fixpoint have_inputs (c : CCoinsViewCache) (ins : list CTxIn) : CCoinsViewCache * bool :=
  match ins with
  | [] => (c, true)
  | i :: ins =>
      let '(c, coins) := AccessCoins c (op_hash (prevout i)) in
      match coins with
      | Some coins => if IsAvailable coins (op_n (prevout i)) then have_inputs c ins else (c, false)
      | None => (c, false)
      end
  end.
Definition HaveInputs (c : CCoinsViewCache) (t : CMutableTransaction) : CCoinsViewCache * bool :=
  if IsCoinBase t then (c, true) else have_inputs c (vin t).

(** Whether one of the nullifiers is spent; the loop stops at the first. *)
Fixpoint any_spent (c : CCoinsViewCache) (type : ShieldedType) (nfs : list bytes) : CCoinsViewCache * bool :=
  match nfs with
  | [] => (c, false)
  | nf :: nfs =>
      let '(c, b) := GetNullifier c nf type in
      if b then (c, true) else any_spent c type nfs
  end.
Fixpoint append_all {Tree} `{MerkleTree Tree} (t : Tree) (l : list bytes) : option Tree :=
  match l with [] => Some t | x :: l => t ← tree_append t x; append_all t l end.
Fixpoint have_joinsplits (c : CCoinsViewCache) (intermediates : gmap bytes SproutMerkleTree) (l : list JSDescription)
  : CCoinsViewCache * result coins_error bool :=
  match l with
  | [] => (c, Ok true)
  | j :: l =>
      let '(c, spent) := any_spent c SPROUT (js_nullifiers j) in
      if spent then (c, Ok false)
      else
        let '(c, tree) :=
          match intermediates !! js_anchor j with Some t => (c, Some t) | None => GetSproutAnchorAt c (js_anchor j) end in
        match tree with
        | None => (c, Ok false)
        | Some tree =>
            match append_all tree (js_commitments j) with
            | None => (c, Err tree_full)
            | Some tree =>
                have_joinsplits c
                  (match intermediates !! tree_root tree with
                   | Some _ => intermediates | None => <[tree_root tree := tree]> intermediates end) l
            end
        end
  end.
Fixpoint have_spends (c : CCoinsViewCache) (l : list SpendDescription) : CCoinsViewCache * bool :=
  match l with
  | [] => (c, true)
  | d :: l =>
      let '(c, spent) := GetNullifier c (sd_nullifier d) SAPLING in
      if spent then (c, false)
      else
        let '(c, tree) := GetSaplingAnchorAt c (sd_anchor d) in
        match tree with None => (c, false) | Some _ => have_spends c l end
  end.
Definition HaveShieldedRequirements (c : CCoinsViewCache) (t : CMutableTransaction) : CCoinsViewCache * result coins_error bool :=
  match have_joinsplits c ∅ (vJoinSplit t) with
  | (c, Ok true) => let '(c, b) := have_spends c (vShieldedSpend t) in (c, Ok b)
  | r => r
  end.

(** ** The abstract state *)

(** Coins that differ only in null outputs, or that have no other outputs, are
    the same: [norm] is what they have in common. *)
Definition clear_null (o : CTxOut) : CTxOut := if txout_IsNull o then txout_null else o.
Definition norm (c : CCoins) : option CCoins :=
  if IsPruned c then None else Some (set_vout (map clear_null (c_vout (Cleanup c))) c).
#[export] Instance coins_equiv : Equiv CCoins := fun c c' => norm c = norm c'.
#[export] Instance coins_equivalence : Equivalence (≡@{CCoins}).
Proof. split; unfold equiv, coins_equiv; [intros c|intros c c'|intros c c' c'']; congruence. Qed.

Definition unspent (v : CCoinsView) (txid : bytes) : option CCoins := view_GetCoins v txid ≫= norm.

(** Views that answer every question in the same way, trees being compared by
    their roots. *)
Record view_equiv (v w : CCoinsView) : Prop := {
  ve_coins txid : unspent v txid = unspent w txid;
  ve_sprout rt : tree_root <$> view_GetSproutAnchorAt v rt = tree_root <$> view_GetSproutAnchorAt w rt;
  ve_sapling rt : tree_root <$> view_GetSaplingAnchorAt v rt = tree_root <$> view_GetSaplingAnchorAt w rt;
  ve_nullifier nf type : view_GetNullifier v nf type = view_GetNullifier w nf type;
  ve_block : view_GetBestBlock v = view_GetBestBlock w;
  ve_anchor type : view_GetBestAnchor v type = view_GetBestAnchor w type
}.
#[export] Instance view_equiv_equiv : Equiv CCoinsView := view_equiv.
#[export] Instance view_equivalence : Equivalence (≡@{CCoinsView}).
Proof.
  split.
  - intros v. by split.
  - intros v w []. by split.
  - intros u v w [] []. split; intros; etransitivity; eauto.
Qed.

(** Null outputs are empty. *)
Definition coins_clear (co : CCoins) : Prop := Forall (fun o => clear_null o = o) (c_vout co).

(** Anchors are filed under their roots, and null outputs are empty. *)
Record view_ok (v : CCoinsView) : Prop := {
  ao_sprout rt t : view_GetSproutAnchorAt v rt = Some t -> tree_root t = rt;
  ao_sapling rt t : view_GetSaplingAnchorAt v rt = Some t -> tree_root t = rt;
  ao_clear txid co : view_GetCoins v txid = Some co -> coins_clear co
}.

(** ** The invariant of a cache *)

Definition coins_entry_ok (v : CCoinsView) (txid : bytes) (e : CCoinsCacheEntry) : Prop :=
  coins_clear (e_coins e)
  /\ (e_dirty e = false -> unspent v txid = norm (e_coins e)) /\ (e_fresh e = true -> unspent v txid = None).
Definition anchor_entry_ok {Tree} `{MerkleTree Tree} (from_base : bytes -> option Tree) (rt : bytes)
    (e : CAnchorsCacheEntry Tree) : Prop :=
  tree_root (a_tree e) = rt
  /\ (a_dirty e = false -> tree_root <$> from_base rt = if a_entered e then Some rt else None).
Definition nullifier_entry_ok (spent : bool) (e : CNullifiersCacheEntry) : Prop := n_dirty e = false -> spent = n_entered e.

Record cache_ok (c : CCoinsViewCache) : Prop := {
  ok_base : view_ok (base c);
  ok_coins : map_Forall (coins_entry_ok (base c)) (cacheCoins c);
  ok_sprout : map_Forall (anchor_entry_ok (view_GetSproutAnchorAt (base c))) (cacheSproutAnchors c);
  ok_sapling : map_Forall (anchor_entry_ok (view_GetSaplingAnchorAt (base c))) (cacheSaplingAnchors c);
  ok_sprout_nf : map_Forall (fun nf => nullifier_entry_ok (view_GetNullifier (base c) nf SPROUT)) (cacheSproutNullifiers c);
  ok_sapling_nf : map_Forall (fun nf => nullifier_entry_ok (view_GetNullifier (base c) nf SAPLING)) (cacheSaplingNullifiers c)
}.

(** *** Reading a cache *)

Lemma view_coins c txid :
  view_GetCoins (as_view c) txid
  = match cacheCoins c !! txid with Some e => Some (e_coins e) | None => view_GetCoins (base c) txid end.
Proof. cbn. unfold GetCoins, FetchCoins. destruct (cacheCoins c !! txid); [done|]. by destruct (view_GetCoins _ _). Qed.

Lemma unspent_cached c txid :
  unspent (as_view c) txid = match cacheCoins c !! txid with Some e => norm (e_coins e) | None => unspent (base c) txid end.
Proof. unfold unspent. rewrite view_coins. by destruct (_ !! txid). Qed.

Lemma fetch_anchor_value {Tree} (f : bytes -> option Tree) m rt :
  snd (fetch_anchor f m rt) = match m !! rt with Some e => if a_entered e then Some (a_tree e) else None | None => f rt end.
Proof. unfold fetch_anchor. destruct (m !! rt); [done|]. by destruct (f rt). Qed.
Lemma view_sprout c rt : view_GetSproutAnchorAt (as_view c) rt = snd (fetch_anchor (view_GetSproutAnchorAt (base c)) (cacheSproutAnchors c) rt).
Proof. cbn. unfold GetSproutAnchorAt. by destruct (fetch_anchor _ _ _). Qed.
Lemma view_sapling c rt : view_GetSaplingAnchorAt (as_view c) rt = snd (fetch_anchor (view_GetSaplingAnchorAt (base c)) (cacheSaplingAnchors c) rt).
Proof. cbn. unfold GetSaplingAnchorAt. by destruct (fetch_anchor _ _ _). Qed.

Definition nullifiers_of (c : CCoinsViewCache) (type : ShieldedType) : gmap bytes CNullifiersCacheEntry :=
  match type with SPROUT => cacheSproutNullifiers c | SAPLING => cacheSaplingNullifiers c end.
Lemma view_nullifier c nf type :
  view_GetNullifier (as_view c) nf type
  = match nullifiers_of c type !! nf with Some e => n_entered e | None => view_GetNullifier (base c) nf type end.
Proof. destruct type; cbn; unfold fetch_nullifier; by destruct (_ !! nf). Qed.
Lemma ok_nullifiers c type : cache_ok c ->
  map_Forall (fun nf => nullifier_entry_ok (view_GetNullifier (base c) nf type)) (nullifiers_of c type).
Proof. intros []. by destruct type. Qed.

Lemma fetched_root {Tree} `{MerkleTree Tree} (f : bytes -> option Tree) m rt :
  (forall rt t, f rt = Some t -> tree_root t = rt) -> map_Forall (anchor_entry_ok f) m ->
  forall t, snd (fetch_anchor f m rt) = Some t -> tree_root t = rt.
Proof.
  intros Hf Hm t. rewrite fetch_anchor_value. destruct (m !! rt) as [e|] eqn:E; [|apply Hf].
  destruct (Hm rt e E) as [Hr _]. destruct (a_entered e); [|done]. by intros [= <-].
Qed.
Lemma as_view_ok c : cache_ok c -> view_ok (as_view c).
Proof.
  intros [[B1 B2 B3] Hc H1 H2 _ _]. split; intros rt t; [rewrite view_sprout; by apply fetched_root|rewrite view_sapling; by apply fetched_root|].
  rewrite view_coins. destruct (cacheCoins c !! rt) as [e|] eqn:E; [|apply B3]. intros [= <-]. by apply (Hc rt e E).
Qed.

Definition anchor_hash (c : CCoinsViewCache) (type : ShieldedType) : bytes :=
  match type with SPROUT => hashSproutAnchor c | SAPLING => hashSaplingAnchor c end.
Lemma view_anchor c type :
  view_GetBestAnchor (as_view c) type
  = if bool_decide (anchor_hash c type = null256) then view_GetBestAnchor (base c) type else anchor_hash c type.
Proof. by destruct type. Qed.

(** *** Outputs at the end of the vector *)

Definition strip (l : list CTxOut) : list CTxOut := rev (pop_null (rev l)).
Definition live_end (l : list CTxOut) : Prop := forall l0 o, l = l0 ++ [o] -> txout_IsNull o = false.

Lemma pop_null_spec l : exists ns, l = ns ++ pop_null l /\ forallb txout_IsNull ns = true
  /\ match pop_null l with o :: _ => txout_IsNull o = false | [] => True end.
Proof.
  induction l as [|o l (ns & He & Hn & Hl)]; [by exists []|]. cbn [pop_null]. destruct (txout_IsNull o) eqn:E.
  - exists (o :: ns). cbn. rewrite E. by rewrite He at 1.
  - by exists [].
Qed.
Lemma strip_spec l : exists ns, l = strip l ++ ns /\ forallb txout_IsNull ns = true /\ live_end (strip l).
Proof.
  destruct (pop_null_spec (rev l)) as (ns & He & Hn & Hl). exists (rev ns). unfold strip. split_and!.
  - by rewrite <- rev_app_distr, <- He, rev_involutive.
  - rewrite forallb_forall in *. intros o Ho%in_rev. rewrite ?rev_involutive in Ho. by apply Hn.
  - intros l0 o Ho. apply (f_equal (@rev _)) in Ho. rewrite rev_involutive, rev_app_distr in Ho. cbn in Ho. by rewrite Ho in Hl.
Qed.
Lemma live_end_unique l l' ns ns' :
  l ++ ns = l' ++ ns' -> forallb txout_IsNull ns = true -> forallb txout_IsNull ns' = true ->
  live_end l -> live_end l' -> l = l'.
Proof.
  assert (Hle : forall l l' ns ns', l ++ ns = l' ++ ns' -> forallb txout_IsNull ns = true -> live_end l' -> (length l' <= length l)%nat).
  { clear. intros l l' ns ns' He Hn Hl. destruct l' as [|o l' _] using rev_ind; [cbn; lia|].
    destruct (decide (length l' < length l)%nat); [rewrite length_app; cbn; lia|]. exfalso.
    specialize (Hl l' o eq_refl). apply (f_equal (fun x => x !! length l')) in He.
    cbn beta in He. rewrite <- (app_assoc l'), (list_lookup_middle l' ns' o) in He by done. rewrite lookup_app_r in He by lia.
    rewrite forallb_forall in Hn. by rewrite Hn in Hl by (by eapply list_elem_of_In, list_elem_of_lookup_2). }
  intros He Hn Hn' Hl Hl'. pose proof (Hle _ _ _ _ He Hn Hl'). pose proof (Hle _ _ _ _ (eq_sym He) Hn' Hl).
  apply app_inj_1 in He as [? _]; [done|lia].
Qed.
Lemma strip_app_null l ns : forallb txout_IsNull ns = true -> strip (l ++ ns) = strip l.
Proof.
  intros Hn. destruct (strip_spec (l ++ ns)) as (n1 & H1 & Hn1 & Hl1), (strip_spec l) as (n2 & H2 & Hn2 & Hl2).
  eapply (live_end_unique _ _ n1 (n2 ++ ns)); [by rewrite app_assoc, <- H2, <- H1|done| |done|done].
  by rewrite forallb_app, Hn2, Hn.
Qed.
Lemma strip_idem l : strip (strip l) = strip l.
Proof. destruct (strip_spec l) as (ns & Hl & Hn & _). rewrite Hl at 2. symmetry. by apply strip_app_null. Qed.

Lemma Cleanup_strip c : Cleanup c = set_vout (strip (c_vout c)) c.
Proof. done. Qed.
Lemma Cleanup_idem c : Cleanup (Cleanup c) = Cleanup c.
Proof. rewrite !Cleanup_strip. unfold set_vout. cbn [c_vout fCoinBase c_nHeight c_nVersion]. by rewrite strip_idem. Qed.
Lemma IsPruned_strip l : forallb txout_IsNull (strip l) = forallb txout_IsNull l.
Proof. destruct (strip_spec l) as (ns & Hl & Hn & _). rewrite Hl at 2. by rewrite forallb_app, Hn, andb_true_r. Qed.
Lemma IsPruned_Cleanup c : IsPruned (Cleanup c) = IsPruned c.
Proof. unfold IsPruned. apply IsPruned_strip. Qed.
Lemma norm_Cleanup c : norm (Cleanup c) = norm c.
Proof. unfold norm. by rewrite IsPruned_Cleanup, Cleanup_idem. Qed.
Lemma clear_null_null o : txout_IsNull (clear_null o) = txout_IsNull o.
Proof. unfold clear_null. by destruct (txout_IsNull o) eqn:E. Qed.
Lemma clear_null_idem o : clear_null (clear_null o) = clear_null o.
Proof. unfold clear_null at 1. rewrite clear_null_null. unfold clear_null. by destruct (txout_IsNull o). Qed.
Lemma strip_clear l : strip (map clear_null l) = map clear_null (strip l).
Proof.
  unfold strip. rewrite map_rev, <- map_rev. f_equal. induction (rev l) as [|o r IH]; [done|]. cbn [map pop_null].
  rewrite clear_null_null. by destruct (txout_IsNull o).
Qed.
Lemma pruned_clear l : forallb txout_IsNull (map clear_null l) = forallb txout_IsNull l.
Proof. induction l as [|o l IH]; [done|]. cbn. by rewrite clear_null_null, IH. Qed.
Lemma norm_idem c c' : norm c = Some c' -> norm c' = Some c'.
Proof.
  unfold norm. destruct (IsPruned c) eqn:E; [done|]. intros [= <-]. rewrite !Cleanup_strip. unfold IsPruned, set_vout in *.
  cbn [c_vout fCoinBase c_nHeight c_nVersion]. fold (strip (c_vout c)). rewrite pruned_clear, IsPruned_strip, E, strip_clear, strip_idem, map_map.
  do 2 f_equal. apply map_ext, clear_null_idem.
Qed.
Lemma norm_pruned c : IsPruned c = true -> norm c = None.
Proof. unfold norm. by intros ->. Qed.
Lemma pruned_strip l : forallb txout_IsNull l = true -> strip l = [].
Proof. intros Hl. by apply (strip_app_null [] l). Qed.

(** The output at a position, unless it is null or there is none. *)
Definition out_of (l : list CTxOut) (n : nat) : option CTxOut :=
  match l !! n with Some o => if txout_IsNull o then None else Some o | None => None end.
Abbreviation out_at c := (out_of (c_vout c)).

Lemma out_app_null l ns n : forallb txout_IsNull ns = true -> out_of (l ++ ns) n = out_of l n.
Proof.
  intros Hn. unfold out_of. destruct (decide (n < length l)%nat); [by rewrite lookup_app_l|].
  rewrite lookup_app_r, (lookup_ge_None_2 l) by lia. destruct (ns !! _) as [o|] eqn:E; [|done].
  rewrite forallb_forall in Hn. by rewrite Hn by (by eapply list_elem_of_In, list_elem_of_lookup_2).
Qed.
Lemma out_strip l n : out_of (strip l) n = out_of l n.
Proof. destruct (strip_spec l) as (ns & Hl & Hn & _). rewrite Hl at 2. symmetry. by apply out_app_null. Qed.
Lemma out_clear l n : out_of (map clear_null l) n = out_of l n.
Proof.
  unfold out_of. change (map clear_null l) with (clear_null <$> l). rewrite list_lookup_fmap. destruct (l !! n) as [o|]; [|done]. cbn.
  rewrite clear_null_null. unfold clear_null. by destruct (txout_IsNull o).
Qed.
Lemma out_insert l n o m : (n < length l)%nat -> out_of (<[n := o]> l) m = if decide (m = n) then if txout_IsNull o then None else Some o else out_of l m.
Proof.
  intros Hn. unfold out_of. destruct (decide (m = n)) as [->|Hm]; [by rewrite list_lookup_insert_eq|by rewrite list_lookup_insert_ne].
Qed.
Lemma out_length l n o : out_of l n = Some o -> (n < length l)%nat /\ txout_IsNull o = false.
Proof.
  unfold out_of. destruct (l !! n) as [o'|] eqn:E; [|done]. apply lookup_lt_Some in E. destruct (txout_IsNull o') eqn:En; [done|].
  by intros [= <-].
Qed.
Lemma pruned_out l : forallb txout_IsNull l = true <-> forall n, out_of l n = None.
Proof.
  split.
  - intros Hl n. by apply (out_app_null [] l).
  - intros Hl. rewrite forallb_forall. intros o Ho. apply list_elem_of_In, list_elem_of_lookup in Ho as [n Hn].
    specialize (Hl n). unfold out_of in Hl. rewrite Hn in Hl. by destruct (txout_IsNull o).
Qed.
Lemma strip_length l l' : (forall n, out_of l n = out_of l' n) -> (length (strip l) <= length (strip l'))%nat.
Proof.
  intros Ho. destruct (decide (length (strip l) <= length (strip l'))%nat) as [|Hl]; [done|]. exfalso.
  destruct (strip_spec l) as (_ & _ & _ & He). destruct (strip l) as [|o r _] eqn:E using rev_ind; [cbn in Hl; lia|].
  specialize (He r o eq_refl). specialize (Ho (length r)). rewrite <- (out_strip l), E, <- (out_strip l') in Ho. unfold out_of in Ho.
  rewrite list_lookup_middle, He in Ho by done. rewrite length_app in Hl. cbn in Hl.
  rewrite (lookup_ge_None_2 (strip l')) in Ho by lia. done.
Qed.
Lemma norm_vout_out l l' : (forall n, out_of l n = out_of l' n) -> map clear_null (strip l) = map clear_null (strip l').
Proof.
  intros Ho. pose proof (strip_length l l' Ho). pose proof (strip_length l' l (fun n => eq_sym (Ho n))).
  assert (Hv : forall l n, (clear_null <$> strip l) !! n = if decide (n < length (strip l))%nat then Some (default txout_null (out_of l n)) else None).
  { clear. intros l n. rewrite list_lookup_fmap, <- out_strip. unfold out_of. case_decide as Hn; [|by rewrite lookup_ge_None_2 by lia].
    destruct (lookup_lt_is_Some_2 (strip l) n Hn) as [o ->]. cbn. unfold clear_null. by destruct (txout_IsNull o). }
  change (clear_null <$> strip l = clear_null <$> strip l'). apply list_eq. intros n. rewrite !Hv, Ho.
  assert (length (strip l) = length (strip l')) as -> by lia. done.
Qed.

(** Coins are the same exactly when they have the same outputs and, if there
    are any, come from the same transaction. *)
Lemma coins_equiv_out c c' :
  c ≡ c' <-> (forall n, out_at c n = out_at c' n)
             /\ (IsPruned c = false -> fCoinBase c = fCoinBase c' /\ c_nHeight c = c_nHeight c' /\ c_nVersion c = c_nVersion c').
Proof.
  assert (Hp : (forall n, out_at c n = out_at c' n) -> IsPruned c = IsPruned c').
  { intros Ho. apply eq_bool_prop_intro. rewrite !Is_true_true. unfold IsPruned. rewrite !pruned_out. by setoid_rewrite Ho. }
  change (c ≡ c') with (norm c = norm c'). unfold norm. rewrite !Cleanup_strip. unfold set_vout. cbn [c_vout]. split.
  - destruct (IsPruned c) eqn:E, (IsPruned c') eqn:E'; try done.
    + intros _. split; [|done]. intros n. unfold IsPruned in *. rewrite pruned_out in E, E'. congruence.
    + intros Heq. injection Heq as Hf Hv Hh Hn. split; [|done]. intros n.
      by rewrite <- (out_strip (c_vout c)), <- out_clear, Hv, out_clear, out_strip.
  - intros [Ho Hm]. rewrite <- (Hp Ho). destruct (IsPruned c); [done|]. destruct (Hm eq_refl) as (-> & -> & ->).
    by rewrite (norm_vout_out _ _ Ho).
Qed.
Lemma norm_out c c' : norm c = Some c' -> (forall n, out_at c' n = out_at c n) /\ IsPruned c = false /\ (length (c_vout c') <= length (c_vout c))%nat
  /\ fCoinBase c' = fCoinBase c /\ c_nHeight c' = c_nHeight c /\ c_nVersion c' = c_nVersion c.
Proof.
  unfold norm. destruct (IsPruned c); [done|]. rewrite Cleanup_strip. intros [= <-]. cbn [c_vout set_vout fCoinBase c_nHeight c_nVersion].
  split_and!; try done; [intros n; by rewrite out_clear, out_strip|]. rewrite length_map.
  destruct (strip_spec (c_vout c)) as (ns & Hl & _). rewrite Hl at 2. rewrite length_app. lia.
Qed.

(** *** Updates of the coins *)

Definition with_coins (v : CCoinsView) (coins : bytes -> option CCoins) : CCoinsView :=
  View (view_GetSproutAnchorAt v) (view_GetSaplingAnchorAt v) (view_GetNullifier v) coins (view_GetBestBlock v) (view_GetBestAnchor v).

Lemma unspent_same a b n v block anchor txid : unspent (View a b n (view_GetCoins v) block anchor) txid = unspent v txid.
Proof. done. Qed.

Ltac same_view :=
  split; intros; rewrite ?unspent_cached, ?view_sprout, ?view_sapling, ?view_nullifier, ?view_anchor;
  cbn [with_coins set_coins set_best set_sprout_anchors set_sapling_anchors set_nullifiers base hashBlock cacheCoins
       hashSproutAnchor hashSaplingAnchor cacheSproutAnchors cacheSaplingAnchors cacheSproutNullifiers cacheSaplingNullifiers
       view_GetSproutAnchorAt view_GetSaplingAnchorAt view_GetNullifier view_GetCoins view_GetBestBlock view_GetBestAnchor];
  rewrite ?unspent_same, ?unspent_cached, ?view_sprout, ?view_sapling, ?view_nullifier, ?view_anchor; try done;
  try (match goal with x : ShieldedType |- _ => by destruct x end).


Definition put_coins (v : CCoinsView) (txid : bytes) (coins : CCoins) : CCoinsView :=
  View (view_GetSproutAnchorAt v) (view_GetSaplingAnchorAt v) (view_GetNullifier v)
    (fun x => if decide (x = txid) then Some coins else view_GetCoins v x) (view_GetBestBlock v) (view_GetBestAnchor v).
Definition coins_at (v : CCoinsView) (txid : bytes) : CCoins := default coins_null (unspent v txid).

Lemma unspent_put v txid coins x : unspent (put_coins v txid coins) x = if decide (x = txid) then norm coins else unspent v x.
Proof. unfold unspent. cbn. by destruct (decide (x = txid)). Qed.

#[export] Instance put_coins_proper : Proper ((≡) ==> (=) ==> (≡) ==> (≡)) put_coins.
Proof.
  intros v w [] txid ? <- c c' Hc. split; try done. intros x. rewrite !unspent_put. by destruct (decide _).
Qed.
#[export] Instance unspent_proper : Proper ((≡) ==> (=) ==> (=)) unspent.
Proof. intros v w [] txid ? <-. done. Qed.
#[export] Instance coins_at_proper : Proper ((≡) ==> (=) ==> (=)) coins_at.
Proof. intros v w Hv txid ? <-. unfold coins_at. by rewrite Hv. Qed.

Lemma set_coins_view c m v :
  (forall txid, match m !! txid with Some e => norm (e_coins e) | None => unspent (base c) txid end = unspent v txid) ->
  as_view (set_coins c m) ≡ with_coins (as_view c) (view_GetCoins v).
Proof. intros Hm. same_view. Qed.

Lemma set_coins_ok c m : cache_ok c -> map_Forall (coins_entry_ok (base c)) m -> cache_ok (set_coins c m).
Proof. intros [] Hm. by split. Qed.

Lemma FetchCoins_spec c txid c' co :
  cache_ok c -> FetchCoins c txid = (c', co) ->
  cache_ok c' /\ as_view c' ≡ as_view c /\ base c' = base c /\ co = view_GetCoins (as_view c) txid.
Proof.
  intros Hok He. rewrite view_coins. unfold FetchCoins in He. destruct (cacheCoins c !! txid) as [e|] eqn:E.
  { injection He as <- <-. by split_and!. }
  destruct (view_GetCoins (base c) txid) as [tmp|] eqn:Eb; injection He as <- <-; [|by split_and!].
  assert (Hu : unspent (base c) txid = norm tmp) by (unfold unspent; by rewrite Eb). split_and!; try done.
  - apply set_coins_ok; [done|]. apply map_Forall_insert_2; [|apply Hok]. split_and!; cbn; [by apply (ao_clear _ (ok_base c Hok) txid)|done|].
    intros Hp. by rewrite Hu, norm_pruned.
  - etransitivity; [apply (set_coins_view c _ (as_view c))|by split]. intros x. rewrite unspent_cached.
    destruct (decide (x = txid)) as [->|Hx]; [by rewrite lookup_insert_eq, E|]. by rewrite lookup_insert_ne.
Qed.

Lemma Uncache_spec c txid : cache_ok c -> cache_ok (Uncache c txid) /\ as_view (Uncache c txid) ≡ as_view c.
Proof.
  intros Hok. unfold Uncache. destruct (cacheCoins c !! txid) as [[co [] []]|] eqn:E; try (split; [done|reflexivity]).
  split.
  - apply set_coins_ok; [done|]. apply map_Forall_delete, Hok.
  - etransitivity; [apply (set_coins_view c _ (as_view c))|by split]. intros x. rewrite unspent_cached.
    destruct (decide (x = txid)) as [->|Hx]; [|by rewrite lookup_delete_ne].
    rewrite lookup_delete_eq, E. by apply (ok_coins c Hok txid _ E).
Qed.

Lemma Cleanup_clear co : coins_clear co -> coins_clear (Cleanup co).
Proof.
  unfold coins_clear. rewrite Cleanup_strip. cbn [c_vout set_vout]. destruct (strip_spec (c_vout co)) as (ns & Hl & _). rewrite Hl at 1.
  by intros [? _]%Forall_app.
Qed.
Lemma end_modify_spec c txid coins fresh :
  cache_ok c -> coins_clear coins -> (fresh = true -> unspent (base c) txid = None) ->
  let c' := end_modify c txid (CoinsEntry coins true fresh) in
  cache_ok c' /\ base c' = base c /\ as_view c' ≡ put_coins (as_view c) txid coins.
Proof.
  intros Hok Hcl Hf. cbn zeta. unfold end_modify. cbn [e_coins e_dirty e_fresh]. rewrite IsPruned_Cleanup. split_and!; [|done|].
  - apply set_coins_ok; [done|]. destruct (fresh && IsPruned coins); [apply map_Forall_delete, Hok|].
    apply map_Forall_insert_2; [|apply Hok]. split_and!; [by apply Cleanup_clear|done|done].
  - etransitivity; [apply (set_coins_view c _ (put_coins (as_view c) txid coins))|by split]. intros x.
    rewrite unspent_put, unspent_cached. destruct (decide (x = txid)) as [->|Hx].
    + destruct (fresh && IsPruned coins) eqn:E; [|by rewrite lookup_insert_eq; apply norm_Cleanup].
      apply andb_true_iff in E as [-> Hp]. by rewrite lookup_delete_eq, Hf, norm_pruned.
    + destruct (fresh && IsPruned coins); [by rewrite lookup_delete_ne|by rewrite lookup_insert_ne].
Qed.

(** Code under a modifier that does not look at what pruned coins hold. *)
Definition respects {A} (modify : CCoins -> CCoins * A) : Prop :=
  forall c c', c ≡ c' -> fst (modify c) ≡ fst (modify c') /\ snd (modify c) = snd (modify c').

Lemma coins_at_equiv v txid co : unspent v txid = norm co -> co ≡ coins_at v txid.
Proof.
  intros Hu. unfold coins_at. rewrite Hu. destruct (norm co) as [co'|] eqn:E; cbn [default from_option].
  - change (norm co = norm co'). rewrite E. symmetry. by apply (norm_idem co).
  - exact E.
Qed.

(** The coins that a modifier gets. *)
Definition stored_coins (c : CCoinsViewCache) (txid : bytes) : CCoins := default coins_null (view_GetCoins (as_view c) txid).
Lemma stored_coins_equiv c txid : stored_coins c txid ≡ coins_at (as_view c) txid.
Proof.
  apply coins_at_equiv. unfold stored_coins, unspent. by destruct (view_GetCoins (as_view c) txid).
Qed.
Lemma stored_clear c txid : cache_ok c -> coins_clear (stored_coins c txid).
Proof.
  intros Hok. unfold stored_coins. destruct (view_GetCoins (as_view c) txid) as [co|] eqn:E; [|constructor].
  by apply (ao_clear _ (as_view_ok c Hok) txid).
Qed.
Lemma ModifyCoins_stored {A} c txid (modify : CCoins -> CCoins * A) c' a :
  cache_ok c -> coins_clear (fst (modify (stored_coins c txid))) -> ModifyCoins c txid modify = (c', a) ->
  cache_ok c' /\ base c' = base c /\ as_view c' ≡ put_coins (as_view c) txid (fst (modify (stored_coins c txid)))
  /\ a = snd (modify (stored_coins c txid)).
Proof.
  intros Hok Hcl He. unfold ModifyCoins in He.
  set (e := match cacheCoins c !! txid with Some e => e | None => _ end) in He.
  assert (He1 : e_coins e = stored_coins c txid /\ (e_fresh e = true -> unspent (base c) txid = None)).
  { unfold e, stored_coins. rewrite view_coins. destruct (cacheCoins c !! txid) as [u|] eqn:E.
    - split; [done|]. by apply (ok_coins c Hok txid u E).
    - unfold unspent. destruct (view_GetCoins (base c) txid) as [co|]; cbn [e_coins e_fresh]; split; try done. intros Hp. cbn. by apply norm_pruned. }
  destruct He1 as [He1 Hfr]. rewrite He1 in He. destruct (modify (stored_coins c txid)) as [co b].
  injection He as <- <-. by destruct (end_modify_spec c txid co (e_fresh e) Hok Hcl Hfr) as (? & ? & ?).
Qed.
Lemma ModifyCoins_spec {A} c txid (modify : CCoins -> CCoins * A) c' a :
  cache_ok c -> respects modify -> (forall co, coins_clear co -> coins_clear (fst (modify co))) -> ModifyCoins c txid modify = (c', a) ->
  cache_ok c' /\ base c' = base c
  /\ as_view c' ≡ put_coins (as_view c) txid (fst (modify (coins_at (as_view c) txid)))
  /\ a = snd (modify (coins_at (as_view c) txid)).
Proof.
  intros Hok Hr Hcl He. destruct (ModifyCoins_stored c txid modify c' a Hok (Hcl _ (stored_clear c txid Hok)) He) as (? & ? & V & ->).
  destruct (Hr _ _ (stored_coins_equiv c txid)) as [Hf1 Hf2]. split_and!; [done|done| |done]. by rewrite V, Hf1.
Qed.

Lemma ModifyNewCoins_spec c txid modify :
  cache_ok c -> coins_clear (modify coins_null) -> unspent (base c) txid = None ->
  let c' := ModifyNewCoins c txid modify in
  cache_ok c' /\ base c' = base c /\ as_view c' ≡ put_coins (as_view c) txid (modify coins_null).
Proof. intros Hok Hcl Hu. by apply end_modify_spec. Qed.

(** *** Anchors *)

Definition put_anchor {Tree} (f : bytes -> option Tree) (rt : bytes) (t : option Tree) : bytes -> option Tree :=
  fun x => if decide (x = rt) then t else f x.

Section anchors.
Context {Tree : Type} `{MerkleTree Tree} (f : bytes -> option Tree) (m : gmap bytes (CAnchorsCacheEntry Tree)).
Hypothesis Hf : forall rt t, f rt = Some t -> tree_root t = rt.
Hypothesis Hm : map_Forall (anchor_entry_ok f) m.

Lemma fetch_anchor_ok rt : map_Forall (anchor_entry_ok f) (fst (fetch_anchor f m rt)).
Proof.
  unfold fetch_anchor. destruct (m !! rt) as [e|] eqn:E; [done|]. destruct (f rt) as [t|] eqn:Ef; [|done].
  cbn. apply map_Forall_insert_2; [|done]. split; cbn; [by apply Hf|]. intros _. rewrite Ef. cbn. by rewrite (Hf rt t).
Qed.
Lemma fetch_anchor_same rt x : snd (fetch_anchor f (fst (fetch_anchor f m rt)) x) = snd (fetch_anchor f m x).
Proof.
  rewrite !fetch_anchor_value. unfold fetch_anchor. destruct (m !! rt) as [e|] eqn:E; [done|].
  destruct (f rt) as [t|] eqn:Ef; [|done]. cbn [fst]. destruct (decide (x = rt)) as [->|Hx].
  - by rewrite lookup_insert_eq, E.
  - by rewrite lookup_insert_ne.
Qed.
Lemma insert_anchor_ok rt b t : tree_root t = rt -> map_Forall (anchor_entry_ok f) (<[rt := AnchorEntry b t true]> m).
Proof. intros Hr. by apply map_Forall_insert_2. Qed.
Lemma insert_anchor_view rt (b : bool) t x :
  snd (fetch_anchor f (<[rt := AnchorEntry b t true]> m) x)
  = put_anchor (fun x => snd (fetch_anchor f m x)) rt (if b then Some t else None) x.
Proof.
  unfold put_anchor. rewrite !fetch_anchor_value. destruct (decide (x = rt)) as [->|Hx].
  - by rewrite lookup_insert_eq.
  - by rewrite lookup_insert_ne.
Qed.
End anchors.

(** *** Reading changes nothing *)

Definition reads (c c' : CCoinsViewCache) : Prop := cache_ok c' /\ base c' = base c /\ as_view c' ≡ as_view c.

Lemma reads_refl c : cache_ok c -> reads c c.
Proof. intros Hok. by split_and!. Qed.
Lemma reads_trans c c' c'' : reads c c' -> reads c' c'' -> reads c c''.
Proof. intros (_ & B1 & V1) (O2 & B2 & V2). split_and!; [done|congruence|by etransitivity]. Qed.

Lemma AccessCoins_reads c txid : cache_ok c ->
  reads c (fst (AccessCoins c txid)) /\ snd (AccessCoins c txid) = view_GetCoins (as_view c) txid.
Proof.
  intros Hok. unfold AccessCoins. destruct (FetchCoins c txid) as [c' co] eqn:E.
  destruct (FetchCoins_spec c txid c' co Hok E) as (? & ? & ? & ->). by split.
Qed.
Lemma GetSproutAnchorAt_reads c rt : cache_ok c ->
  reads c (fst (GetSproutAnchorAt c rt)) /\ snd (GetSproutAnchorAt c rt) = view_GetSproutAnchorAt (as_view c) rt.
Proof.
  intros Hok. split; [|done]. unfold GetSproutAnchorAt.
  pose proof (fetch_anchor_ok _ _ (ao_sprout _ (ok_base c Hok)) (ok_sprout c Hok) rt) as H1.
  pose proof (fetch_anchor_same (view_GetSproutAnchorAt (base c)) (cacheSproutAnchors c) rt) as H2.
  destruct (fetch_anchor _ _ rt) as [m t]. cbn [fst] in *. split_and!; [by destruct Hok; split|done|].
  same_view; by rewrite H2.
Qed.
Lemma GetSaplingAnchorAt_reads c rt : cache_ok c ->
  reads c (fst (GetSaplingAnchorAt c rt)) /\ snd (GetSaplingAnchorAt c rt) = view_GetSaplingAnchorAt (as_view c) rt.
Proof.
  intros Hok. split; [|done]. unfold GetSaplingAnchorAt.
  pose proof (fetch_anchor_ok _ _ (ao_sapling _ (ok_base c Hok)) (ok_sapling c Hok) rt) as H1.
  pose proof (fetch_anchor_same (view_GetSaplingAnchorAt (base c)) (cacheSaplingAnchors c) rt) as H2.
  destruct (fetch_anchor _ _ rt) as [m t]. cbn [fst] in *. split_and!; [by destruct Hok; split|done|].
  same_view; by rewrite H2.
Qed.

Definition with_nullifiers (c : CCoinsViewCache) (type : ShieldedType) (m : gmap bytes CNullifiersCacheEntry) : CCoinsViewCache :=
  match type with
  | SPROUT => set_nullifiers c m (cacheSaplingNullifiers c) | SAPLING => set_nullifiers c (cacheSproutNullifiers c) m end.
Lemma with_nullifiers_ok c type m :
  cache_ok c -> map_Forall (fun nf => nullifier_entry_ok (view_GetNullifier (base c) nf type)) m -> cache_ok (with_nullifiers c type m).
Proof. intros [] Hm. destruct type; by split. Qed.

Lemma GetNullifier_reads c nf type : cache_ok c ->
  reads c (fst (GetNullifier c nf type)) /\ snd (GetNullifier c nf type) = view_GetNullifier (as_view c) nf type.
Proof.
  intros Hok. split; [|done].
  set (m := fst (fetch_nullifier (view_GetNullifier (base c) nf type) (nullifiers_of c type) nf)).
  assert (fst (GetNullifier c nf type) = with_nullifiers c type m) as ->.
  { unfold m. destruct type; cbn; by destruct (fetch_nullifier _ _ _). }
  assert (Hm : map_Forall (fun x => nullifier_entry_ok (view_GetNullifier (base c) x type)) m
               /\ forall x, match m !! x with Some e => n_entered e | None => view_GetNullifier (base c) x type end
                            = match nullifiers_of c type !! x with Some e => n_entered e | None => view_GetNullifier (base c) x type end).
  { pose proof (ok_nullifiers c type Hok) as Ho. unfold m, fetch_nullifier.
    destruct (nullifiers_of c type !! nf) as [e|] eqn:E; [done|]. cbn [fst].
    split; [by apply map_Forall_insert_2|]. intros x. destruct (decide (x = nf)) as [->|Hx].
    - by rewrite lookup_insert_eq, E.
    - by rewrite lookup_insert_ne. }
  destruct Hm as [Hm1 Hm2]. split_and!; [by apply with_nullifiers_ok|by destruct type|].
  destruct type; same_view; destruct type; try done; apply Hm2.
Qed.

Lemma set_best_ok c b s1 s2 : cache_ok c -> cache_ok (set_best c b s1 s2).
Proof. intros []. by split. Qed.
Lemma GetBestBlock_reads c : cache_ok c -> reads c (fst (GetBestBlock c)) /\ snd (GetBestBlock c) = view_GetBestBlock (as_view c).
Proof.
  intros Hok. split; [|done]. split_and!; [by apply set_best_ok|done|]. same_view.
  cbn. unfold GetBestBlock. cbn. repeat case_bool_decide; congruence.
Qed.
Lemma GetBestAnchor_reads c type : cache_ok c ->
  reads c (fst (GetBestAnchor c type)) /\ snd (GetBestAnchor c type) = view_GetBestAnchor (as_view c) type.
Proof.
  intros Hok. split; [|by destruct type]. split_and!; [destruct type; by apply set_best_ok|by destruct type|].
  destruct type; same_view; destruct type; cbn; repeat case_bool_decide; congruence.
Qed.

(** *** Updates of the rest of the state *)

Definition put_block (v : CCoinsView) (h : bytes) : CCoinsView :=
  View (view_GetSproutAnchorAt v) (view_GetSaplingAnchorAt v) (view_GetNullifier v) (view_GetCoins v) h (view_GetBestAnchor v).
Definition put_sprout (v : CCoinsView) (rt : bytes) (t : option SproutMerkleTree) (best : bytes) : CCoinsView :=
  View (put_anchor (view_GetSproutAnchorAt v) rt t) (view_GetSaplingAnchorAt v) (view_GetNullifier v) (view_GetCoins v)
    (view_GetBestBlock v) (fun type => match type with SPROUT => best | SAPLING => view_GetBestAnchor v SAPLING end).
Definition put_sapling (v : CCoinsView) (rt : bytes) (t : option SaplingMerkleTree) (best : bytes) : CCoinsView :=
  View (view_GetSproutAnchorAt v) (put_anchor (view_GetSaplingAnchorAt v) rt t) (view_GetNullifier v) (view_GetCoins v)
    (view_GetBestBlock v) (fun type => match type with SAPLING => best | SPROUT => view_GetBestAnchor v SPROUT end).
Definition push_sprout (v : CCoinsView) (t : SproutMerkleTree) : CCoinsView :=
  if bool_decide (view_GetBestAnchor v SPROUT = tree_root t) then v else put_sprout v (tree_root t) (Some t) (tree_root t).
Definition push_sapling (v : CCoinsView) (t : SaplingMerkleTree) : CCoinsView :=
  if bool_decide (view_GetBestAnchor v SAPLING = tree_root t) then v else put_sapling v (tree_root t) (Some t) (tree_root t).
Definition pop_anchor (v : CCoinsView) (newrt : bytes) (type : ShieldedType) : CCoinsView :=
  let current := view_GetBestAnchor v type in
  if bool_decide (current = newrt) then v
  else match type with SPROUT => put_sprout v current None newrt | SAPLING => put_sapling v current None newrt end.

Definition tx_nullifiers (t : CMutableTransaction) (type : ShieldedType) : list bytes :=
  match type with SPROUT => concat (map js_nullifiers (vJoinSplit t)) | SAPLING => map sd_nullifier (vShieldedSpend t) end.
Definition put_nullifiers (v : CCoinsView) (t : CMutableTransaction) (spent : bool) : CCoinsView :=
  View (view_GetSproutAnchorAt v) (view_GetSaplingAnchorAt v)
    (fun nf type => if decide (nf ∈ tx_nullifiers t type) then spent else view_GetNullifier v nf type)
    (view_GetCoins v) (view_GetBestBlock v) (view_GetBestAnchor v).

#[export] Instance put_block_proper : Proper ((≡) ==> (=) ==> (≡)) put_block.
Proof. intros v w [] h ? <-. by split. Qed.
Lemma put_anchor_ext {Tree} `{MerkleTree Tree} (f g : bytes -> option Tree) rt t :
  (forall x, tree_root <$> f x = tree_root <$> g x) ->
  forall x, tree_root <$> put_anchor f rt t x = tree_root <$> put_anchor g rt t x.
Proof. intros Hfg x. unfold put_anchor. by destruct (decide _). Qed.
#[export] Instance put_sprout_proper : Proper ((≡) ==> (=) ==> (=) ==> (=) ==> (≡)) put_sprout.
Proof.
  intros v w [] rt ? <- t ? <- h ? <-. split; try done; [by apply put_anchor_ext|]. intros []; cbn; [done|]. done.
Qed.
#[export] Instance put_sapling_proper : Proper ((≡) ==> (=) ==> (=) ==> (=) ==> (≡)) put_sapling.
Proof.
  intros v w [] rt ? <- t ? <- h ? <-. split; try done; [by apply put_anchor_ext|]. intros []; cbn; [done|]. done.
Qed.
#[export] Instance push_sprout_proper : Proper ((≡) ==> (=) ==> (≡)) push_sprout.
Proof. intros v w Hv t ? <-. unfold push_sprout. rewrite (ve_anchor _ _ Hv). case_bool_decide; [done|]. by rewrite Hv. Qed.
#[export] Instance push_sapling_proper : Proper ((≡) ==> (=) ==> (≡)) push_sapling.
Proof. intros v w Hv t ? <-. unfold push_sapling. rewrite (ve_anchor _ _ Hv). case_bool_decide; [done|]. by rewrite Hv. Qed.
#[export] Instance pop_anchor_proper : Proper ((≡) ==> (=) ==> (=) ==> (≡)) pop_anchor.
Proof.
  intros v w Hv h ? <- type ? <-. unfold pop_anchor. rewrite (ve_anchor _ _ Hv). case_bool_decide; [done|].
  destruct type; by rewrite Hv.
Qed.
#[export] Instance put_nullifiers_proper : Proper ((≡) ==> (=) ==> (=) ==> (≡)) put_nullifiers.
Proof. intros v w [] t ? <- b ? <-. split; try done. intros nf type. cbn. by destruct (decide _). Qed.

Lemma SetBestBlock_spec c h : cache_ok c -> h <> null256 ->
  cache_ok (SetBestBlock c h) /\ base (SetBestBlock c h) = base c /\ as_view (SetBestBlock c h) ≡ put_block (as_view c) h.
Proof.
  intros Hok Hh. split_and!; [by apply set_best_ok|done|]. unfold SetBestBlock, put_block. same_view.
  cbn. by rewrite bool_decide_eq_false_2.
Qed.

(** Setting the map of anchors and the best anchor. *)
Lemma set_sprout_spec c rt (b : bool) t best :
  cache_ok c -> tree_root t = rt -> best <> null256 ->
  let c' := set_sprout_anchors c (<[rt := AnchorEntry b t true]> (cacheSproutAnchors c)) best in
  cache_ok c' /\ base c' = base c /\ as_view c' ≡ put_sprout (as_view c) rt (if b then Some t else None) best.
Proof.
  intros Hok Hr Hb. cbn zeta. split_and!; [|done|].
  - destruct Hok. split; try done. by apply insert_anchor_ok.
  - unfold put_sprout. same_view; [|destruct type; cbn; [by rewrite bool_decide_eq_false_2|done]].
    rewrite insert_anchor_view. apply put_anchor_ext. intros x. by rewrite view_sprout.
Qed.
Lemma set_sapling_spec c rt (b : bool) t best :
  cache_ok c -> tree_root t = rt -> best <> null256 ->
  let c' := set_sapling_anchors c (<[rt := AnchorEntry b t true]> (cacheSaplingAnchors c)) best in
  cache_ok c' /\ base c' = base c /\ as_view c' ≡ put_sapling (as_view c) rt (if b then Some t else None) best.
Proof.
  intros Hok Hr Hb. cbn zeta. split_and!; [|done|].
  - destruct Hok. split; try done. by apply insert_anchor_ok.
  - unfold put_sapling. same_view; [|destruct type; cbn; [done|by rewrite bool_decide_eq_false_2]].
    rewrite insert_anchor_view. apply put_anchor_ext. intros x. by rewrite view_sapling.
Qed.

Lemma PushSproutAnchor_spec c t : cache_ok c -> tree_root t <> null256 ->
  cache_ok (PushSproutAnchor c t) /\ base (PushSproutAnchor c t) = base c
  /\ as_view (PushSproutAnchor c t) ≡ push_sprout (as_view c) t.
Proof.
  intros Hok Ht. unfold PushSproutAnchor, push_sprout. destruct (GetBestAnchor_reads c SPROUT Hok) as [(O & B & V) Hb].
  destruct (GetBestAnchor c SPROUT) as [c1 h] eqn:E. cbn [fst snd] in *. subst h. unfold AbstractPushAnchor.
  case_bool_decide as Hd.
  - assert (set_sprout_anchors c1 (cacheSproutAnchors c1) (view_GetBestAnchor (as_view c) SPROUT) = c1) as ->; [|done].
    injection E as <-. by destruct c.
  - destruct (set_sprout_spec c1 (tree_root t) true t (tree_root t) O eq_refl Ht) as (? & ? & ?).
    split_and!; [done|congruence|]. by rewrite <- V.
Qed.
Lemma PushSaplingAnchor_spec c t : cache_ok c -> tree_root t <> null256 ->
  cache_ok (PushSaplingAnchor c t) /\ base (PushSaplingAnchor c t) = base c
  /\ as_view (PushSaplingAnchor c t) ≡ push_sapling (as_view c) t.
Proof.
  intros Hok Ht. unfold PushSaplingAnchor, push_sapling. destruct (GetBestAnchor_reads c SAPLING Hok) as [(O & B & V) Hb].
  destruct (GetBestAnchor c SAPLING) as [c1 h] eqn:E. cbn [fst snd] in *. subst h. unfold AbstractPushAnchor.
  case_bool_decide as Hd.
  - assert (set_sapling_anchors c1 (cacheSaplingAnchors c1) (view_GetBestAnchor (as_view c) SAPLING) = c1) as ->; [|done].
    injection E as <-. by destruct c.
  - destruct (set_sapling_spec c1 (tree_root t) true t (tree_root t) O eq_refl Ht) as (? & ? & ?).
    split_and!; [done|congruence|]. by rewrite <- V.
Qed.

(** The best anchor is known, or popping it changes nothing. *)
Definition can_pop (v : CCoinsView) (newrt : bytes) (type : ShieldedType) : Prop :=
  view_GetBestAnchor v type = newrt
  \/ match type with
     | SPROUT => is_Some (view_GetSproutAnchorAt v (view_GetBestAnchor v SPROUT))
     | SAPLING => is_Some (view_GetSaplingAnchorAt v (view_GetBestAnchor v SAPLING))
     end.
#[export] Instance can_pop_proper : Proper ((≡) ==> (=) ==> (=) ==> iff) can_pop.
Proof.
  assert (Hi : forall v w, v ≡ w -> forall h type, can_pop v h type -> can_pop w h type).
  { intros v w Hv h type [Hp|Hp]; [left; by rewrite <- (ve_anchor _ _ Hv)|right]. destruct type.
    - apply (fmap_is_Some tree_root). rewrite <- (ve_anchor _ _ Hv), <- (ve_sprout _ _ Hv). by apply fmap_is_Some.
    - apply (fmap_is_Some tree_root). rewrite <- (ve_anchor _ _ Hv), <- (ve_sapling _ _ Hv). by apply fmap_is_Some. }
  intros v w Hv h ? <- type ? <-. split; apply Hi; [done|by symmetry].
Qed.

Lemma PopAnchor_spec c newrt type : cache_ok c -> newrt <> null256 -> can_pop (as_view c) newrt type ->
  exists c', PopAnchor c newrt type = Some c' /\ cache_ok c' /\ base c' = base c
    /\ as_view c' ≡ pop_anchor (as_view c) newrt type.
Proof.
  intros Hok Hn Hp. unfold PopAnchor, pop_anchor. destruct (GetBestAnchor_reads c type Hok) as [(O & B & V) Hb].
  destruct (GetBestAnchor c type) as [c1 h] eqn:E. cbn [fst snd] in *. subst h.
  unfold AbstractPopAnchor. case_bool_decide as Hd; [exists c1|].
  { split_and!; try done. destruct type; cbn; f_equal; injection E as <-; by destruct c. }
  rewrite <- V in Hp. destruct Hp as [Hp|Hp]; [by rewrite (ve_anchor _ _ V) in Hp|].
  destruct type; destruct Hp as [t Ht]; [rewrite view_sprout in Ht|rewrite view_sapling in Ht]; rewrite (ve_anchor _ _ V) in Ht.
  - pose proof (fetched_root _ _ _ (ao_sprout _ (ok_base _ O)) (ok_sprout _ O) t Ht) as Hr.
    destruct (GetSproutAnchorAt_reads c1 (view_GetBestAnchor (as_view c) SPROUT) O) as [(O2 & B2 & V2) _].
    unfold GetSproutAnchorAt in O2, B2, V2. destruct (fetch_anchor _ _ _) as [m t1]. cbn in Ht, O2, B2, V2. subst t1.
    cbn [mbind option_bind]. eexists. split; [done|].
    destruct (set_sprout_spec _ (view_GetBestAnchor (as_view c) SPROUT) false t newrt O2 Hr Hn) as (? & _ & V3).
    split_and!; [done|exact B|]. rewrite V3, V2. by rewrite V.
  - pose proof (fetched_root _ _ _ (ao_sapling _ (ok_base _ O)) (ok_sapling _ O) t Ht) as Hr.
    destruct (GetSaplingAnchorAt_reads c1 (view_GetBestAnchor (as_view c) SAPLING) O) as [(O2 & B2 & V2) _].
    unfold GetSaplingAnchorAt in O2, B2, V2. destruct (fetch_anchor _ _ _) as [m t1]. cbn in Ht, O2, B2, V2. subst t1.
    cbn [mbind option_bind]. eexists. split; [done|].
    destruct (set_sapling_spec _ (view_GetBestAnchor (as_view c) SAPLING) false t newrt O2 Hr Hn) as (? & _ & V3).
    split_and!; [done|exact B|]. rewrite V3, V2. by rewrite V.
Qed.

Lemma enter_nullifiers_lookup spent nfs m nf :
  enter_nullifiers spent nfs m !! nf = if decide (nf ∈ nfs) then Some (NullifierEntry spent true) else m !! nf.
Proof.
  revert m. induction nfs as [|x nfs IH]; intros m; cbn [enter_nullifiers foldl]; [by rewrite decide_False by apply not_elem_of_nil|].
  fold (enter_nullifiers spent nfs (<[x := NullifierEntry spent true]> m)). rewrite IH.
  destruct (decide (nf ∈ nfs)) as [Hin|Hin]; [by rewrite decide_True by (by right)|].
  destruct (decide (nf = x)) as [->|Hx].
  - by rewrite lookup_insert_eq, decide_True by left.
  - rewrite lookup_insert_ne by done. rewrite decide_False; [done|]. by rewrite elem_of_cons; intros [].
Qed.

Lemma SetNullifiers_spec c t spent : cache_ok c ->
  cache_ok (SetNullifiers c t spent) /\ base (SetNullifiers c t spent) = base c
  /\ as_view (SetNullifiers c t spent) ≡ put_nullifiers (as_view c) t spent.
Proof.
  intros Hok. unfold SetNullifiers. split_and!; [|done|].
  - destruct Hok. split; try done; intros nf e; cbn [set_nullifiers cacheSproutNullifiers cacheSaplingNullifiers base];
      rewrite enter_nullifiers_lookup; destruct (decide _); [by intros [= <-]|apply ok_sprout_nf0|by intros [= <-]|apply ok_sapling_nf0].
  - unfold put_nullifiers. same_view.
    assert (Hn : nullifiers_of (set_nullifiers c (enter_nullifiers spent (concat (map js_nullifiers (vJoinSplit t))) (cacheSproutNullifiers c))
                   (enter_nullifiers spent (map sd_nullifier (vShieldedSpend t)) (cacheSaplingNullifiers c))) type
                 = enter_nullifiers spent (tx_nullifiers t type) (nullifiers_of c type)) by (by destruct type).
    rewrite Hn, enter_nullifiers_lookup. by destruct (decide _).
Qed.

(** *** Flushing *)

(** A loop over a map whose step at a key changes only that key. *)
Lemma foldl_pointwise {V} (step : gmap bytes V -> bytes * V -> gmap bytes V) (g : option V -> V -> option V) :
  (forall us k e k', step us (k, e) !! k' = if decide (k' = k) then g (us !! k) e else us !! k') ->
  forall us (m : gmap bytes V) k,
    foldl step us (map_to_list m) !! k = match m !! k with Some e => g (us !! k) e | None => us !! k end.
Proof.
  intros Hs us m k. rewrite <- (list_to_map_to_list m) at 2. pose proof (NoDup_fst_map_to_list m) as Hnd.
  revert us Hnd. generalize (map_to_list m) as l. induction l as [|[x e] l IH]; intros us Hnd; [done|].
  cbn [foldl]. cbn [fmap list_fmap fst] in Hnd. apply NoDup_cons in Hnd as [Hx Hnd]. rewrite (IH _ Hnd), Hs.
  change (list_to_map ((x, e) :: l)) with (<[x := e]> (list_to_map l) : gmap bytes V).
  destruct (decide (k = x)) as [->|Hk]; [|by rewrite lookup_insert_ne].
  rewrite lookup_insert_eq. by rewrite not_elem_of_list_to_map_1.
Qed.

Definition flushed_coins (u : option CCoinsCacheEntry) (e : CCoinsCacheEntry) : option CCoinsCacheEntry :=
  if e_dirty e then
    let fresh := match u with None => e_fresh e | Some u => e_fresh u end in
    if fresh && IsPruned (e_coins e) then None else Some (CoinsEntry (e_coins e) true fresh)
  else u.
Definition flushed_anchor {Tree} (u : option (CAnchorsCacheEntry Tree)) (e : CAnchorsCacheEntry Tree)
  : option (CAnchorsCacheEntry Tree) :=
  if a_dirty e then
    match u with
    | None => Some (AnchorEntry (a_entered e) (a_tree e) true)
    | Some u => if eqb (a_entered u) (a_entered e) then Some u else Some (AnchorEntry (a_entered e) (a_tree u) true)
    end
  else u.
Definition flushed_nullifier (u : option CNullifiersCacheEntry) (e : CNullifiersCacheEntry) : option CNullifiersCacheEntry :=
  if n_dirty e then
    match u with
    | None => Some (NullifierEntry (n_entered e) true)
    | Some u => if eqb (n_entered u) (n_entered e) then Some u else Some (NullifierEntry (n_entered e) true)
    end
  else u.

Ltac pointwise_step :=
  intros ? x e y; cbn; destruct (decide (y = x)) as [->|];
  repeat (case_match; simplify_eq; rewrite ?lookup_insert_eq, ?lookup_delete_eq, ?lookup_insert_ne, ?lookup_delete_ne by done; try done).

Lemma batch_coins_lookup us m k :
  foldl batch_coins us (map_to_list m) !! k = match m !! k with Some e => flushed_coins (us !! k) e | None => us !! k end.
Proof. apply foldl_pointwise. unfold flushed_coins. pointwise_step. Qed.
Lemma batch_anchors_lookup {Tree} (us m : gmap bytes (CAnchorsCacheEntry Tree)) k :
  foldl batch_anchors us (map_to_list m) !! k = match m !! k with Some e => flushed_anchor (us !! k) e | None => us !! k end.
Proof. apply foldl_pointwise. unfold flushed_anchor. pointwise_step. Qed.
Lemma batch_nullifiers_lookup us m k :
  foldl batch_nullifiers us (map_to_list m) !! k = match m !! k with Some e => flushed_nullifier (us !! k) e | None => us !! k end.
Proof. apply foldl_pointwise. unfold flushed_nullifier. pointwise_step. Qed.

Section flush.
Context (c p : CCoinsViewCache).
Hypothesis Hc : cache_ok c.
Hypothesis Hp : cache_ok p.
Hypothesis Hb : base c ≡ as_view p.

Lemma flush_coins txid e :
  cacheCoins c !! txid = Some e ->
  match flushed_coins (cacheCoins p !! txid) e with
  | Some u => coins_entry_ok (base p) txid u /\ norm (e_coins u) = norm (e_coins e)
  | None => unspent (base p) txid = norm (e_coins e)
  end.
Proof.
  intros He. destruct (ok_coins c Hc txid e He) as (Hcl & Hd & Hf). rewrite (ve_coins _ _ Hb), unspent_cached in Hd, Hf.
  unfold flushed_coins. destruct (cacheCoins p !! txid) as [u|] eqn:Eu.
  - destruct (ok_coins p Hp txid u Eu) as (Hucl & Hud & Huf). destruct (e_dirty e); [|split; [by split_and!|by rewrite Hd]].
    destruct (e_fresh u && IsPruned (e_coins e)) eqn:E; [|by split_and!].
    apply andb_true_iff in E as [E1 E2]. by rewrite (Huf E1), norm_pruned.
  - destruct (e_dirty e); [|by apply Hd]. destruct (e_fresh e && IsPruned (e_coins e)) eqn:E; [|by split_and!].
    apply andb_true_iff in E as [E1 E2]. by rewrite (Hf E1), norm_pruned.
Qed.

Lemma flush_anchor {Tree} `{MerkleTree Tree} (f g : bytes -> option Tree) (m us : gmap bytes (CAnchorsCacheEntry Tree)) rt e :
  map_Forall (anchor_entry_ok g) m -> map_Forall (anchor_entry_ok f) us -> (forall rt t, f rt = Some t -> tree_root t = rt) ->
  (forall x, tree_root <$> g x = tree_root <$> snd (fetch_anchor f us x)) -> m !! rt = Some e ->
  let value := if a_entered e then Some rt else None in
  match flushed_anchor (us !! rt) e with
  | Some u => anchor_entry_ok f rt u /\ (if a_entered u then Some (tree_root (a_tree u)) else None) = value
  | None => tree_root <$> f rt = value
  end.
Proof.
  intros Hm Hus Hf Hg He. cbn zeta. destruct (Hm rt e He) as [Hr Hd]. rewrite Hg, fetch_anchor_value in Hd.
  unfold flushed_anchor. destruct (us !! rt) as [u|] eqn:Eu.
  - destruct (Hus rt u Eu) as [Hur Hud]. destruct (a_dirty e).
    + destruct (eqb (a_entered u) (a_entered e)) eqn:E.
      * apply eqb_prop in E. split; [by split|]. by rewrite E, Hur.
      * split; [by split|]. cbn. by rewrite Hur.
    + split; [by split|]. specialize (Hd eq_refl). by destruct (a_entered u).
  - destruct (a_dirty e); [|by apply Hd]. split; [by split|]. cbn. by rewrite Hr.
Qed.

Lemma flush_nullifier type nf e :
  nullifiers_of c type !! nf = Some e ->
  match flushed_nullifier (nullifiers_of p type !! nf) e with
  | Some u => nullifier_entry_ok (view_GetNullifier (base p) nf type) u /\ n_entered u = n_entered e
  | None => view_GetNullifier (base p) nf type = n_entered e
  end.
Proof.
  intros He. pose proof (ok_nullifiers c type Hc nf e He) as Hd. unfold nullifier_entry_ok in Hd.
  rewrite (ve_nullifier _ _ Hb), view_nullifier in Hd. unfold flushed_nullifier.
  destruct (nullifiers_of p type !! nf) as [u|] eqn:Eu.
  - pose proof (ok_nullifiers p type Hp nf u Eu) as Hud. destruct (n_dirty e); [|split; [done|by apply Hd]].
    destruct (eqb (n_entered u) (n_entered e)) eqn:E; [apply eqb_prop in E|]; by split.
  - destruct (n_dirty e); [by split|by apply Hd].
Qed.

(** The best block and anchors were read before flushing, or the parent has
    not read them either. *)
Definition best_known : Prop :=
  (hashBlock c <> null256 \/ hashBlock p = null256)
  /\ forall type, anchor_hash c type <> null256 \/ anchor_hash p type = null256.

Lemma BatchWrite_ok : cache_ok (BatchWrite p c).
Proof.
  split; cbn [BatchWrite base cacheCoins cacheSproutAnchors cacheSaplingAnchors cacheSproutNullifiers cacheSaplingNullifiers];
    [apply Hp|intros k e Hk..].
  - rewrite batch_coins_lookup in Hk. destruct (cacheCoins c !! k) as [x|] eqn:E; [|by apply (ok_coins p Hp)].
    pose proof (flush_coins k x E) as Hx. rewrite Hk in Hx. apply Hx.
  - rewrite batch_anchors_lookup in Hk. destruct (cacheSproutAnchors c !! k) as [x|] eqn:E; [|by apply (ok_sprout p Hp)].
    pose proof (flush_anchor _ _ _ _ k x (ok_sprout c Hc) (ok_sprout p Hp) (ao_sprout _ (ok_base p Hp))
                  (fun y => eq_trans (ve_sprout _ _ Hb y) (f_equal _ (view_sprout p y))) E) as Hx.
    rewrite Hk in Hx. apply Hx.
  - rewrite batch_anchors_lookup in Hk. destruct (cacheSaplingAnchors c !! k) as [x|] eqn:E; [|by apply (ok_sapling p Hp)].
    pose proof (flush_anchor _ _ _ _ k x (ok_sapling c Hc) (ok_sapling p Hp) (ao_sapling _ (ok_base p Hp))
                  (fun y => eq_trans (ve_sapling _ _ Hb y) (f_equal _ (view_sapling p y))) E) as Hx.
    rewrite Hk in Hx. apply Hx.
  - rewrite batch_nullifiers_lookup in Hk. destruct (cacheSproutNullifiers c !! k) as [x|] eqn:E; [|by apply (ok_sprout_nf p Hp)].
    pose proof (flush_nullifier SPROUT k x E) as Hx. cbn [nullifiers_of] in Hx. rewrite Hk in Hx. apply Hx.
  - rewrite batch_nullifiers_lookup in Hk. destruct (cacheSaplingNullifiers c !! k) as [x|] eqn:E; [|by apply (ok_sapling_nf p Hp)].
    pose proof (flush_nullifier SAPLING k x E) as Hx. cbn [nullifiers_of] in Hx. rewrite Hk in Hx. apply Hx.
Qed.

Lemma best_hash (mine theirs below above : bytes) :
  below = (if bool_decide (theirs = null256) then above else theirs) -> mine <> null256 \/ theirs = null256 ->
  (if bool_decide (mine = null256) then above else mine) = (if bool_decide (mine = null256) then below else mine).
Proof. intros -> Hk. repeat case_bool_decide; try done. by destruct Hk. Qed.

Lemma BatchWrite_anchor {Tree} `{MerkleTree Tree} (f g : bytes -> option Tree) (m us : gmap bytes (CAnchorsCacheEntry Tree)) rt :
  map_Forall (anchor_entry_ok g) m -> map_Forall (anchor_entry_ok f) us -> (forall rt t, f rt = Some t -> tree_root t = rt) ->
  (forall x, tree_root <$> g x = tree_root <$> snd (fetch_anchor f us x)) ->
  tree_root <$> snd (fetch_anchor f (foldl batch_anchors us (map_to_list m)) rt) = tree_root <$> snd (fetch_anchor g m rt).
Proof.
  intros Hm Hus Hf Hg. pose proof (fun e => flush_anchor f g m us rt e Hm Hus Hf Hg) as Hx. specialize (Hg rt).
  rewrite fetch_anchor_value in Hg. rewrite !fetch_anchor_value, batch_anchors_lookup.
  destruct (m !! rt) as [e|] eqn:E; [|by rewrite Hg]. specialize (Hx e eq_refl). destruct (Hm rt e E) as [Hr _].
  destruct (flushed_anchor (us !! rt) e) as [u|].
  - destruct Hx as [_ Hx]. destruct (a_entered u), (a_entered e); cbn in *; congruence.
  - rewrite Hx. destruct (a_entered e); cbn; congruence.
Qed.

Lemma BatchWrite_view : best_known -> as_view (BatchWrite p c) ≡ as_view c.
Proof.
  intros [Hkb Hka]. split; intros.
  - rewrite !unspent_cached. cbn [BatchWrite base cacheCoins]. rewrite batch_coins_lookup.
    destruct (cacheCoins c !! txid) as [e|] eqn:E; [|by rewrite (ve_coins _ _ Hb), unspent_cached].
    pose proof (flush_coins txid e E) as Hx. destruct (flushed_coins _ _); [apply Hx|done].
  - rewrite !view_sprout. cbn [BatchWrite base cacheSproutAnchors].
    apply BatchWrite_anchor; [apply Hc|apply Hp|apply Hp|]. intros x. by rewrite (ve_sprout _ _ Hb), view_sprout.
  - rewrite !view_sapling. cbn [BatchWrite base cacheSaplingAnchors].
    apply BatchWrite_anchor; [apply Hc|apply Hp|apply Hp|]. intros x. by rewrite (ve_sapling _ _ Hb), view_sapling.
  - rewrite !view_nullifier. assert (nullifiers_of (BatchWrite p c) type
      = foldl batch_nullifiers (nullifiers_of p type) (map_to_list (nullifiers_of c type))) as -> by (by destruct type).
    cbn [BatchWrite base]. rewrite batch_nullifiers_lookup.
    destruct (nullifiers_of c type !! nf) as [e|] eqn:E; [|by rewrite (ve_nullifier _ _ Hb), view_nullifier].
    pose proof (flush_nullifier type nf e E) as Hx. destruct (flushed_nullifier _ _); [apply Hx|done].
  - cbn. apply (best_hash _ (hashBlock p)); [|done]. apply (ve_block _ _ Hb).
  - rewrite !view_anchor. assert (anchor_hash (BatchWrite p c) type = anchor_hash c type) as -> by (by destruct type).
    apply (best_hash _ (anchor_hash p type)); [|done]. cbn [BatchWrite base]. rewrite (ve_anchor _ _ Hb). apply view_anchor.
Qed.
End flush.

Lemma new_cache_ok v : view_ok v -> cache_ok (new_cache v).
Proof. intros Hv. split; try done; apply map_Forall_empty. Qed.
Lemma new_cache_view v : as_view (new_cache v) ≡ v.
Proof.
  split; intros; rewrite ?unspent_cached, ?view_sprout, ?view_sapling, ?view_nullifier, ?view_anchor, ?fetch_anchor_value;
    cbn [new_cache base cacheCoins cacheSproutAnchors cacheSaplingAnchors]; rewrite ?lookup_empty; try done.
  all: destruct type; cbn; by rewrite ?lookup_empty, ?bool_decide_eq_true_2.
Qed.

(** ** Sequences of operations *)

Inductive cache_op :=
| Access (txid : bytes) | Drop_unchanged (txid : bytes) | ReadSprout (rt : bytes) | ReadSapling (rt : bytes)
| ReadNullifier (nf : bytes) (type : ShieldedType) | ReadBestBlock | ReadBestAnchor (type : ShieldedType)
| Modify (txid : bytes) (modify : CCoins -> CCoins) | ModifyNew (txid : bytes) (modify : CCoins -> CCoins)
| Nullify (t : CMutableTransaction) (spent : bool) | BestBlock (h : bytes)
| PushSprout (t : SproutMerkleTree) | PushSapling (t : SaplingMerkleTree) | Pop (rt : bytes) (type : ShieldedType).

Definition run_op (c : CCoinsViewCache) (op : cache_op) : option CCoinsViewCache :=
  match op with
  | Access txid => Some (fst (AccessCoins c txid))
  | Drop_unchanged txid => Some (Uncache c txid)
  | ReadSprout rt => Some (fst (GetSproutAnchorAt c rt))
  | ReadSapling rt => Some (fst (GetSaplingAnchorAt c rt))
  | ReadNullifier nf type => Some (fst (GetNullifier c nf type))
  | ReadBestBlock => Some (fst (GetBestBlock c))
  | ReadBestAnchor type => Some (fst (GetBestAnchor c type))
  | Modify txid f => Some (fst (ModifyCoins c txid (fun coins => (f coins, tt))))
  | ModifyNew txid f => Some (ModifyNewCoins c txid f)
  | Nullify t spent => Some (SetNullifiers c t spent)
  | BestBlock h => Some (SetBestBlock c h)
  | PushSprout t => Some (PushSproutAnchor c t)
  | PushSapling t => Some (PushSaplingAnchor c t)
  | Pop rt type => PopAnchor c rt type
  end.
Fixpoint run_ops (c : CCoinsViewCache) (ops : list cache_op) : option CCoinsViewCache :=
  match ops with [] => Some c | op :: ops => c ← run_op c op; run_ops c ops end.

(** The same operations on the abstract state. *)
Definition spec_op (v : CCoinsView) (op : cache_op) : CCoinsView :=
  match op with
  | Modify txid f => put_coins v txid (f (coins_at v txid))
  | ModifyNew txid f => put_coins v txid (f coins_null)
  | Nullify t spent => put_nullifiers v t spent
  | BestBlock h => put_block v h
  | PushSprout t => push_sprout v t
  | PushSapling t => push_sapling v t
  | Pop rt type => pop_anchor v rt type
  | _ => v
  end.
Definition spec_ops (v : CCoinsView) (ops : list cache_op) : CCoinsView := foldl spec_op v ops.

(** What the callers observe: code under a modifier does not look at what
    pruned coins hold and leaves null outputs empty, coins that are created are
    not in the base [v0], hashes are not null, and the best anchor is known when
    it is popped. *)
Definition op_ok (v0 v : CCoinsView) (op : cache_op) : Prop :=
  match op with
  | Modify _ f => Proper ((≡) ==> (≡)) f /\ forall co, coins_clear co -> coins_clear (f co)
  | ModifyNew txid f => unspent v0 txid = None /\ coins_clear (f coins_null)
  | BestBlock h => h <> null256
  | PushSprout t => tree_root t <> null256
  | PushSapling t => tree_root t <> null256
  | Pop rt type => rt <> null256 /\ can_pop v rt type
  | _ => True
  end.
Fixpoint ops_ok (v0 v : CCoinsView) (ops : list cache_op) : Prop :=
  match ops with [] => True | op :: ops => op_ok v0 v op /\ ops_ok v0 (spec_op v op) ops end.

Lemma spec_op_proper v w op : match op with Modify _ f => Proper ((≡) ==> (≡)) f | _ => True end -> v ≡ w -> spec_op v op ≡ spec_op w op.
Proof. intros Hf Hv. destruct op; cbn [spec_op]; try done; by rewrite Hv. Qed.

Lemma run_op_spec c op v :
  cache_ok c -> as_view c ≡ v -> op_ok (base c) v op ->
  exists c', run_op c op = Some c' /\ cache_ok c' /\ base c' = base c /\ as_view c' ≡ spec_op v op.
Proof.
  intros Hok Hv Ho.
  assert (Hread : forall c1, reads c c1 -> exists c', Some c1 = Some c' /\ cache_ok c' /\ base c' = base c /\ as_view c' ≡ v)
    by (intros c1 (? & ? & V); exists c1; split_and!; try done; by rewrite V).
  destruct op as [txid|txid|rt|rt|nf type| |type|txid f|txid f|t spent|h|t|t|rt type]; cbn [run_op spec_op op_ok] in *.
  - by apply Hread, AccessCoins_reads.
  - destruct (Uncache_spec c txid Hok). apply Hread. split_and!; try done. unfold Uncache. by repeat case_match.
  - by apply Hread, GetSproutAnchorAt_reads.
  - by apply Hread, GetSaplingAnchorAt_reads.
  - by apply Hread, GetNullifier_reads.
  - by apply Hread, GetBestBlock_reads.
  - by apply Hread, GetBestAnchor_reads.
  - destruct (ModifyCoins c txid (fun coins => (f coins, tt))) as [c' a] eqn:E.
    assert (Hr : respects (fun coins => (f coins, tt))) by (intros x y Hxy; split; [by apply Ho|done]).
    destruct (ModifyCoins_spec c txid _ c' a Hok Hr (proj2 Ho) E) as (? & ? & V & _).
    exists c'. split_and!; try done. cbn [fst] in V. by rewrite V, Hv.
  - destruct (ModifyNewCoins_spec c txid f Hok (proj2 Ho) (proj1 Ho)) as (? & ? & V). eexists. split_and!; try done. by rewrite V, Hv.
  - destruct (SetNullifiers_spec c t spent Hok) as (? & ? & V). eexists. split_and!; try done. by rewrite V, Hv.
  - destruct (SetBestBlock_spec c h Hok Ho) as (? & ? & V). eexists. split_and!; try done. by rewrite V, Hv.
  - destruct (PushSproutAnchor_spec c t Hok Ho) as (? & ? & V). eexists. split_and!; try done. by rewrite V, Hv.
  - destruct (PushSaplingAnchor_spec c t Hok Ho) as (? & ? & V). eexists. split_and!; try done. by rewrite V, Hv.
  - destruct Ho as [Hn Hp]. rewrite <- Hv in Hp. destruct (PopAnchor_spec c rt type Hok Hn Hp) as (c' & ? & ? & ? & V).
    exists c'. split_and!; try done. by rewrite V, Hv.
Qed.

Lemma run_ops_spec c ops v :
  cache_ok c -> as_view c ≡ v -> ops_ok (base c) v ops ->
  exists c', run_ops c ops = Some c' /\ cache_ok c' /\ base c' = base c /\ as_view c' ≡ spec_ops v ops.
Proof.
  revert c v. induction ops as [|op ops IH]; intros c v Hok Hv Ho; [by exists c|]. destruct Ho as [Ho Hos].
  destruct (run_op_spec c op v Hok Hv Ho) as (c1 & E1 & O1 & B1 & V1). cbn [run_ops]. rewrite E1. cbn [mbind option_bind].
  rewrite <- B1 in Hos. destruct (IH c1 _ O1 V1 Hos) as (c2 & E2 & O2 & B2 & V2). exists c2. split_and!; try done. congruence.
Qed.

Lemma Flush_spec c p : cache_ok c -> cache_ok p -> base c ≡ as_view p -> best_known c p ->
  cache_ok (snd (Flush c p)) /\ as_view (snd (Flush c p)) ≡ as_view c
  /\ cache_ok (fst (Flush c p)) /\ as_view (fst (Flush c p)) ≡ as_view c.
Proof.
  intros Hc Hp Hb Hk. pose proof (BatchWrite_ok c p Hc Hp Hb) as Ho. pose proof (BatchWrite_view c p Hc Hp Hb Hk) as Hv.
  cbn [Flush fst snd]. split_and!; [done|done| |].
  - split; cbn; try apply map_Forall_empty. by apply as_view_ok.
  - etransitivity; [|exact Hv]. set (q := BatchWrite p c) in *.
    split; intros; rewrite ?(unspent_cached (Cache _ _ _ _ _ _ _ _ _)), ?(view_sprout (Cache _ _ _ _ _ _ _ _ _)),
      ?(view_sapling (Cache _ _ _ _ _ _ _ _ _)), ?(view_nullifier (Cache _ _ _ _ _ _ _ _ _)), ?(view_anchor (Cache _ _ _ _ _ _ _ _ _)),
      ?fetch_anchor_value; cbn [base cacheCoins cacheSproutAnchors cacheSaplingAnchors]; rewrite ?lookup_empty; try done.
    + destruct type; cbn [nullifiers_of cacheSproutNullifiers cacheSaplingNullifiers]; by rewrite lookup_empty.
    + cbn [as_view view_GetBestBlock]. cbn. unfold q. cbn. by repeat case_bool_decide.
    + destruct type; rewrite view_anchor; unfold q; cbn; by repeat case_bool_decide.
Qed.

(** ** Properties *)

End coins_view.

(** A tree that counts its leaves, for the witnesses. *)
#[local] Instance toy_tree : MerkleTree nat := {|
  tree_empty := 0%nat; tree_append t _ := Some (S t); tree_root t := Z.of_nat (S t) :: replicate 31 0 |}.
Definition toy_coins : CCoins := Coins false [TxOut 5 [0x51]] 7 4.
Definition toy_ops : list (cache_op (SproutMerkleTree := nat) (SaplingMerkleTree := nat)) :=
  [ModifyNew (replicate 32 1) (fun _ => toy_coins); BestBlock (replicate 32 9); PushSprout 3%nat; PushSapling 4%nat;
   Modify (replicate 32 1) (fun _ => coins_null); Pop (1 :: replicate 31 0) SPROUT].

