(* ===== verification/NoteTree.v ===== *)
(** * The incremental Merkle tree of note commitments
    (src/zcash/IncrementalMerkleTree.hpp, IncrementalMerkleTree.cpp, util.cpp)

    A tree of fixed depth that leaves are appended to, kept as its last pair of
    leaves and the roots of the complete subtrees to their left, and a witness
    that maintains the authentication path of one leaf while more leaves are
    appended. [TreeHash] is the template parameter [Hash]: SHA256Compress, whose
    compression is that of [Sha], and PedersenHash, whose functions are those of
    librustzcash. The reference is the Merkle tree of the given depth over the
    leaves, padded with the uncommitted leaf ([full_root]). *)

From S2P Require Import Prelude Serialize Digest Sha Ripemd Hash Amount Transaction Script Coins.
Local Open Scope Z_scope.
Local Open Scope code_scope.

(** ** Definitions *)

(** *** Bits of paths (util.cpp) *)

Definition byte_bits (c : Z) : list bool := map (fun j => Z.testbit c (7 - j)) (seqZ 0 8).
Definition convertBytesVectorToVector (bytes : bytes) : list bool := concat (map byte_bits bytes).

(** The bit at [i] is shifted by [(v.size() - 1) - i], the number of bits
    after it. *)
Fixpoint vector_to_int (v : list bool) (result : Z) : Z :=
  match v with
  | [] => result
  | b :: v => vector_to_int v (if b then Z.lor result (Z.shiftl 1 (length v)) else result)
  end.
(** [None] is the [length_error]. *)
Definition convertVectorToInt (v : list bool) : option Z :=
  if (64 <? length v)%nat then None else Some (vector_to_int v 0).

(** *** Hashes *)

(** The static members of a hash class. A hash is its 32 bytes. [EmptyRoot]
    reads a table with [at], which throws past its end. *)
Class TreeHash := {
  combine : bytes -> bytes -> nat -> bytes;
  uncommitted : bytes;
  EmptyRoot : nat -> option bytes
}.

(** The bytes of a [uint256] in the order they are written. *)
Definition uint256_bytes (hex : Z) : bytes := rev (digits 8 32 hex).

Definition sha256_empty_roots : list bytes := map uint256_bytes [
  0x0000000000000000000000000000000000000000000000000000000000000000;
  0xda5698be17b9b46962335799779fbeca8ce5d491c0d26243bafef9ea1837a9d8;
  0xdc766fab492ccf3d1e49d4f374b5235fa56506aac2224d39f943fcd49202974c;
  0x3f0a406181105968fdaee30679e3273c66b72bf9a7f5debbf3b5a0a26e359f92;
  0x26b0052694fc42fdff93e6fb5a71d38c3dd7dc5b6ad710eb048c660233137fab;
  0x0109ecc0722659ff83450b8f7b8846e67b2859f33c30d9b7acd5bf39cae54e31;
  0x3f909b8ce3d7ffd8a5b30908f605a03b0db85169558ddc1da7bbbcc9b09fd325;
  0x40460fa6bc692a06f47521a6725a547c028a6a240d8409f165e63cb54da2d23f;
  0x8c085674249b43da1b9a31a0e820e81e75f342807b03b6b9e64983217bc2b38e;
  0xa083450c1ba2a3a7be76fad9d13bc37be4bf83bd3e59fc375a36ba62dc620298;
  0x1ddddabc2caa2de9eff9e18c8c5a39406d7936e889bc16cfabb144f5c0022682;
  0xc22d8f0b5e4056e5f318ba22091cc07db5694fbeb5e87ef0d7e2c57ca352359e;
  0x89a434ae1febd7687eceea21d07f20a2512449d08ce2eee55871cdb9d46c1233;
  0x7333dbffbd11f09247a2b33a013ec4c4342029d851e22ba485d4461851370c15;
  0x5dad844ab9466b70f745137195ca221b48f346abd145fb5efc23a8b4ba508022;
  0x507e0dae81cbfbe457fd370ef1ca4201c2b6401083ddab440e4a038dc1e358c4;
  0xbdcdb3293188c9807d808267018684cfece07ac35a42c00f2c79b4003825305d;
  0xbab5800972a16c2c22530c66066d0a5867e987bed21a6d5a450b683cf1cfd709;
  0x11aa0b4ad29b13b057a31619d6500d636cd735cdd07d811ea265ec4bcbbbd058;
  0x5145b1b055c2df02b95675e3797b91de1b846d25003c0a803d08900728f2cd6a;
  0x0323f2850bf3444f4b4c5c09a6057ec7169190f45acb9e46984ab3dfcec4f06a;
  0x671546e26b1da1af754531e26d8a6a51073a57ddd72dc472efb43fcb257cffff;
  0xbb23a9bba56de57cb284b0d2b01c642cf79c9a5563f0067a21292412145bd78a;
  0xf30cc836b9f71b4e7ee3c72b1fd253268af9a27e9d7291a23d02821b21ddfd16;
  0x58a2753dade103cecbcda50b5ebfce31e12d41d5841dcc95620f7b3d50a1b9a1;
  0x925e6d474a5d8d3004f29da0dd78d30ae3824ce79dfe4934bb29ec3afaf3d521;
  0x08f279618616bcdd4eadc9c7a9062691a59b43b07e2c1e237f17bd189cd6a8fe;
  0xc92b32db42f42e2bf0a59df9055be5c669d3242df45357659b75ae2c27a76f50;
  0xc0db2a74998c50eb7ba6534f6d410efc27c4bb88acb0222c7906ea28a327b511;
  0xd7c612c817793191a1e68652121876d6b3bde40f4fa52bc314145ce6e5cdd259;
  0xb22370106c67a17209f6130bc09f735d83aa2c04fc4fe72ea5d80b216723e7ce;
  0x9f67d5f664664c901940eee3d02dd5b3e4b92e7b42820c42fc5159e91b41172a;
  0xac58cd1388fec290d398f1944b564449a63c815880566bd1d189f7839e3b0c8c;
  0x5698eae7c8515ed05a70339bdf7c1028e7acca13a4fa97d9538f01ac8d889ae3;
  0x2d4995770a76fb93314ca74b3524ea1db5688ad0a76183ea17204a8f024a9f3b;
  0x5e8992c1b072c16e9e28a85358fb5fb6901a81587766dadb7aa0b973ded2f264;
  0xe95db71e1f7291ba5499461bc715203e29b84bfa4283e3bb7f470a15d0e1584e;
  0x41f078bd1824c8a4b71964f394aa595084d8eb17b97a3630433af70d10e0eff6;
  0xa1913fe6b20132312f8c1f00ddd63cec7a03f5f1d7d83492fa284c0b5d6320b0;
  0xba9440c4dbfcf55ceb605a5b8990fc11f8ef22870d8d12e130f986491eae84b3;
  0x49db2d5e22b8015cae4810d75e54014c5469862738e161ec96ec20218718828a;
  0xd4851fb8431edfbb8b1e85ada6895967c2dac87df344992a05faf1ecf836eec9;
  0xe4ab9f4470f00cd196d47c75c82e7adaf06fe17e042e3953d93bb5d56d8cd8fb;
  0x7e4320434849ecb357f1afaaba21a54400ef2d11cff83b937d87fdafa49f8199;
  0x020adc98d96cfbbcca15fc3aa03760ed286686c35b5d92c7cb64a999b394a854;
  0x3a26b29fe1acfdd6c6a151bcc3dbcb95a10ebe2f0553f80779569b67b7244e77;
  0xec2d0986e6a0ddf43897b2d4f23bb034f538ffe00827f310dc4963f3267f0bfb;
  0xd48073f8819f81f0358e3fc35a047cc74082ae1cb7ee22fb609c01649342d0e6;
  0xad8037601793f172441ecb00dc138d9fc5957125ecc382ec65e36f817dc799fb;
  0xca500a5441f36f4df673d6b8ed075d36dae2c7e6481428c70a5a76b7a9bebce8;
  0x422b6ddd473231dc4d56fe913444ccd56f7c61f747ba57ca946d5fef72d840a0;
  0xab41f4ecb7d7089615800e19fcc53b8379ed05ee35c82567095583fd90ff3035;
  0xbbf7618248354ceb1bc1fc9dbc42c426a4e2c1e0d443c5683a9256c62ecdc26f;
  0xe50ae71479fc8ec569192a13072e011afc249f471af09500ea39f75d0af856bf;
  0xe74c0b9220147db2d50a3b58d413775d16c984690be7d90f0bc43d99dba1b689;
  0x29324a0a48d11657a51ba08b004879bfcfc66a1acb7ce36dfe478d2655484b48;
  0x88952e3d0ac06cb16b665201122249659a22325e01c870f49e29da6b1757e082;
  0xcdf879f2435b95af042a3bf7b850f7819246c805285803d67ffbf4f295bed004;
  0xe005e324200b4f428c62bc3331e695c373607cd0faa9790341fa3ba1ed228bc5;
  0x354447727aa9a53dd8345b6b6c693443e56ef4aeba13c410179fc8589e7733d5;
  0xda52dda91f2829c15c0e58d29a95360b86ab30cf0cac8101832a29f38c3185f1;
  0xc7da7814e228e1144411d78b536092fe920bcdfcc36cf19d1259047b267d58b5;
  0xaba1f68b6c2b4db6cc06a7340e12313c4b4a4ea6deb17deb3e1e66cd8eacf32b;
  0xc160ae4f64ab764d864a52ad5e33126c4b5ce105a47deedd75bc70199a5247ef;
  0xeadf23fc99d514dd8ea204d223e98da988831f9b5d1940274ca520b7fb173d8a;
  0x5b8e14facac8a7c7a3bfee8bae71f2f7793d3ad5fe3383f93ab6061f2a11bb02
].

(** The array has 65 elements and 63 initializers: the last two are zero. *)
Definition pedersen_empty_roots : list bytes := map uint256_bytes [
  0x0100000000000000000000000000000000000000000000000000000000000000;
  0x817de36ab2d57feb077634bca77819c8e0bd298c04f6fed0e6a83cc1356ca155;
  0xffe9fc03f18b176c998806439ff0bb8ad193afdb27b2ccbc88856916dd804e34;
  0xd8283386ef2ef07ebdbb4383c12a739a953a4d6e0d6fb1139a4036d693bfbb6c;
  0xe110de65c907b9dea4ae0bd83a4b0a51bea175646a64c12b4c9f931b2cb31b49;
  0x912d82b2c2bca231f71efcf61737fbf0a08befa0416215aeef53e8bb6d23390a;
  0x8ac9cf9c391e3fd42891d27238a81a8a5c1d3a72b1bcbea8cf44a58ce7389613;
  0xd6c639ac24b46bd19341c91b13fdcab31581ddaf7f1411336a271f3d0aa52813;
  0x7b99abdc3730991cc9274727d7d82d28cb794edbc7034b4f0053ff7c4b680444;
  0x43ff5457f13b926b61df552d4e402ee6dc1463f99a535f9a713439264d5b616b;
  0xba49b659fbd0b7334211ea6a9d9df185c757e70aa81da562fb912b84f49bce72;
  0x4777c8776a3b1e69b73a62fa701fa4f7a6282d9aee2c7a6b82e7937d7081c23c;
  0xec677114c27206f5debc1c1ed66f95e2b1885da5b7be3d736b1de98579473048;
  0x1b77dac4d24fb7258c3c528704c59430b630718bec486421837021cf75dab651;
  0xbd74b25aacb92378a871bf27d225cfc26baca344a1ea35fdd94510f3d157082c;
  0xd6acdedf95f608e09fa53fb43dcd0990475726c5131210c9e5caeab97f0e642f;
  0x1ea6675f9551eeb9dfaaa9247bc9858270d3d3a4c5afa7177a984d5ed1be2451;
  0x6edb16d01907b759977d7650dad7e3ec049af1a3d875380b697c862c9ec5d51c;
  0xcd1c8dbf6e3acc7a80439bc4962cf25b9dce7c896f3a5bd70803fc5a0e33cf00;
  0x6aca8448d8263e547d5ff2950e2ed3839e998d31cbc6ac9fd57bc6002b159216;
  0x8d5fa43e5a10d11605ac7430ba1f5d81fb1b68d29a640405767749e841527673;
  0x08eeab0c13abd6069e6310197bf80f9c1ea6de78fd19cbae24d4a520e6cf3023;
  0x0769557bc682b1bf308646fd0b22e648e8b9e98f57e29f5af40f6edb833e2c49;
  0x4c6937d78f42685f84b43ad3b7b00f81285662f85c6a68ef11d62ad1a3ee0850;
  0xfee0e52802cb0c46b1eb4d376c62697f4759f6c8917fa352571202fd778fd712;
  0x16d6252968971a83da8521d65382e61f0176646d771c91528e3276ee45383e4a;
  0xd2e1642c9a462229289e5b0e3b7f9008e0301cbb93385ee0e21da2545073cb58;
  0xa5122c08ff9c161d9ca6fc462073396c7d7d38e8ee48cdb3bea7e2230134ed6a;
  0x28e7b841dcbc47cceb69d7cb8d94245fb7cb2ba3a7a6bc18f13f945f7dbd6e2a;
  0xe1f34b034d4a3cd28557e2907ebf990c918f64ecb50a94f01d6fda5ca5c7ef72;
  0x12935f14b676509b81eb49ef25f39269ed72309238b4c145803544b646dca62d;
  0xb2eed031d4d6a4f02a097f80b54cc1541d4163c6b6f5971f88b6e41d35c53814;
  0xfbc2f4300c01f0b7820d00e3347c8da4ee614674376cbc45359daa54f9b5493e;
  0x252e6798645f5bf114e4b4e90e96182861489840d9b4ccc4c1fb5a46997cee14;
  0x98b19042f1f7c7dd11ec25ea66b6ff74e08ce11d447ed6f1bfe87e110e331e11;
  0xd451304799572ba9f42c4dab6b07c703bd2c123ab9d60f2a60f9955854910b6a;
  0x3ecd5f27acf01bd37a33e4517867ef76474cd83fb31c9208dcef2eedcef36c72;
  0x26c37da67894a13df8aa4878d2514a4212573b73eccaab16fe4fa660e8fe2707;
  0xb545ef34485eed30d42b2c295a4a5b680de8a9d5e38345782462c04f09dc6851;
  0x77fd20b300946765a87f24bd045073729cbd7b66eb8fa140b583faa9d1425801;
  0xcbaa576b1799b58ff3a6decbba919b0b68d7c893e46fde998768e87e350a0725;
  0x45fe81b18ca30074d0120d2b1a0d10b3a050933512db8ee34e52473d4f08a267;
  0x0e60a1f0121f591e551d3ed1865b50a75d7ccff1289df7c44dd465a54317f56a;
  0xcedfb184dd92a0cbfc11e8be697b476988ed5f39369abdd90c61544988601c0d;
  0xf362686612649a313ba464437a0cad0e7e3d7e1b4b3743f90e05a2100a495f42;
  0x7deae5f3bbdeffd3f85271a08b5ec31f16f937964ae708fdff7c13e5a4f3df6b;
  0x40ccf0fc1eab6d8502bd93dc31342dfd57df5bbb5d70a1bf6b92efc61ec9a258;
  0xd78025491f1bca8507f64f25872dd02388479a1a225126e40d2fe418b98e0e2c;
  0x0db7294685c8a0725f15846ea5899ea0e986c2707bd7b412954412f26abf550a;
  0xb7e290be9555cf75548650da6d47c893aef7f8c6dd2735499495f636590dae0a;
  0x2dd2532a858c300145a65e351f91be6afeab597c41ef073f50b622d586ff5927;
  0x972f0c5c6f9aeb0e38bf8319f3a5fcdc8fd8782e4188730cd082d9babc589851;
  0x001e577b0f4390182b4ae43d329b3aa8835dae1bb79e604b7d2da0e90d060929;
  0xaa6e70a91ebc54eefce5ffd5b675daf3f1d940a8451fcb01081fa9d4f262436f;
  0xd77038bf67e631752940231251d7fe85af52dbdd6aab37c7a5ec32b65fe6de03;
  0xd227a17a7e0cf96dcedd9fc7bce43c6c1d66badd7543a887c8656c547ecfb24f;
  0x70e8a521951583e53fc0585c707eceda89b7a7d1af41d1a015d797fa76c0f569;
  0xe485a96855e872fc5090150e2cd24e10591d35166eb0eb30fcdfac93b01d281c;
  0xe4a19febdf2a86896e41f2cedcf2ae584671802e6a467e8439cab5d61843416b;
  0xe927838847806a43bd6c6088e39f65b8b3e58b2db5f7ad5643d91e0659a28a2a;
  0x0bd3a818e83f9cd2ff4f62011a510176ac32f5448e6e154515043c5926d51c6f;
  0xce413445e03790498fe72d8e01915e7ff120ae35b3b590d21b7f74dee1830f0d;
  0x600e6f93e73d7abd4ee0a65cb1b19aa3ecc525689dbf17779658741b95c15a55
] ++ replicate 2 (replicate 32 0).

(** Both hashes of a pair fill one block, so [FinalizeNoPadding] does not
    throw ([sha_combine_compresses]). *)
Definition sha_combine (a b : bytes) (depth : nat) : bytes :=
  default (replicate 32 0) (sha256_FinalizeNoPadding (Write (Write (fresh CSHA256) a) b) true).

#[export] Instance SHA256Compress : TreeHash := {|
  combine := sha_combine;
  uncommitted := replicate 32 0;
  EmptyRoot depth := sha256_empty_roots !! depth |}.

(** [merkle_hash] and [tree_uncommitted] are functions of librustzcash. *)
Definition PedersenHash (merkle_hash : nat -> bytes -> bytes -> bytes) (tree_uncommitted : bytes) : TreeHash := {|
  combine a b depth := merkle_hash depth a b;
  uncommitted := tree_uncommitted;
  EmptyRoot depth := pedersen_empty_roots !! depth |}.

(** *** The tree *)

Inductive tree_error := TreeFull | NoCursor | NoPath | OutOfRange.

Record IncrementalMerkleTree := Tree { left : option bytes; right : option bytes; parents : list (option bytes) }.
Definition empty_tree : IncrementalMerkleTree := Tree None None [].

#[export] Instance IncrementalMerkleTree_eq_dec : EqDecision IncrementalMerkleTree.
Proof. solve_decision. Defined.

Record MerklePath := Path { authentication_path : list (list bool); index : list bool }.

Section tree.
Context {TH : TreeHash} (Depth : nat).

(** [PathFiller::next]. *)
Definition filler_next (queue : list bytes) (depth : nat) : result tree_error (bytes * list bytes) :=
  match queue with
  | h :: queue => Ok (h, queue)
  | [] => match EmptyRoot depth with Some h => Ok (h, []) | None => Err OutOfRange end
  end.

Definition wfcheck (t : IncrementalMerkleTree) : result ser_error unit :=
  require negb (Depth <=? length (parents t))%nat orelse InvalidData in
  require negb (negb (bool_decide (parents t = [])) && bool_decide (last (parents t) = Some None)) orelse InvalidData in
  require negb (bool_decide (left t = None) && bool_decide (is_Some (right t))) orelse InvalidData in
  require negb (bool_decide (left t = None) && (0 <? length (parents t))%nat) orelse InvalidData in
  Ok tt.

Definition tree_last (t : IncrementalMerkleTree) : result tree_error bytes :=
  match right t, left t with
  | Some h, _ => Ok h
  | None, Some h => Ok h
  | None, None => Err NoCursor
  end.

(** The occupied parents from index [i] on; [1 << (i+1)] is a shift of a
    32-bit int, converted to the 64 bits of [ret]. *)
Fixpoint count_parents (ps : list (option bytes)) (i : nat) (ret : Z) : Z :=
  match ps with
  | [] => ret
  | p :: ps =>
      count_parents ps (S i)
        (if p then to_u64 (ret + to_u64 (to_i32 (Z.shiftl 1 (i + 1)))) else ret)
  end.
Definition tree_size (t : IncrementalMerkleTree) : Z :=
  count_parents (parents t) 0 ((if left t then 1 else 0) + (if right t then 1 else 0)).

Definition is_complete (t : IncrementalMerkleTree) (depth : nat) : bool :=
  if bool_decide (left t = None) || bool_decide (right t = None) then false
  else if negb (Z.of_nat (length (parents t)) =? to_u64 (depth - 1)) then false
  else forallb (fun parent : option bytes => if parent then true else false) (parents t).

(** The loop of [append] from index [i] on, at most [n] more times. *)
Fixpoint carry (n i : nat) (ps : list (option bytes)) (combined : bytes) : list (option bytes) :=
  match n with
  | O => ps
  | S n =>
      match ps with
      | Some parent :: ps => None :: carry n (S i) ps (combine parent combined (i + 1))
      | None :: ps => Some combined :: ps
      | [] => [Some combined]
      end
  end.

Definition append (t : IncrementalMerkleTree) (obj : bytes) : result tree_error IncrementalMerkleTree :=
  require negb (is_complete t Depth) orelse TreeFull in
  match left t, right t with
  | None, r => Ok (Tree (Some obj) r (parents t))
  | Some l, None => Ok (Tree (Some l) (Some obj) (parents t))
  | Some l, Some r => Ok (Tree (Some obj) None (carry Depth 0 (parents t) (combine l r 0)))
  end.

Fixpoint next_parent (ps : list (option bytes)) (skip d : nat) : nat :=
  match ps with
  | [] => d + skip
  | None :: ps => match skip with O => d | S skip => next_parent ps skip (S d) end
  | Some _ :: ps => next_parent ps skip (S d)
  end.
Definition next_depth (t : IncrementalMerkleTree) (skip : nat) : nat :=
  match left t, right t, skip with
  | Some _, Some _, _ => next_parent (parents t) skip 1
  | None, None, S (S skip) => next_parent (parents t) skip 1
  | None, Some _, S skip | Some _, None, S skip => next_parent (parents t) skip 1
  | _, _, _ => 0
  end.

(** The parents from depth [d] on: the root so far, the next depth and the
    hashes that the filler has left. *)
Fixpoint root_parents (ps : list (option bytes)) (d : nat) (filler : list bytes) (root : bytes)
  : result tree_error (bytes * nat * list bytes) :=
  match ps with
  | [] => Ok (root, d, filler)
  | Some parent :: ps => root_parents ps (S d) filler (combine parent root d)
  | None :: ps => let* (h, filler) := filler_next filler d in root_parents ps (S d) filler (combine root h d)
  end.
(** [while (d < depth)], [n = depth - d] times. *)
Fixpoint root_above (n d : nat) (filler : list bytes) (root : bytes) : result tree_error bytes :=
  match n with
  | O => Ok root
  | S n => let* (h, filler) := filler_next filler d in root_above n (S d) filler (combine root h d)
  end.
Definition or_next (h : option bytes) (filler : list bytes) : result tree_error (bytes * list bytes) :=
  match h with Some h => Ok (h, filler) | None => filler_next filler 0 end.
Definition root (t : IncrementalMerkleTree) (depth : nat) (filler_hashes : list bytes) : result tree_error bytes :=
  let* (combine_left, filler) := or_next (left t) filler_hashes in
  let* (combine_right, filler) := or_next (right t) filler in
  let* (root, d, filler) := root_parents (parents t) 1 filler (combine combine_left combine_right 0) in
  root_above (depth - d) d filler root.

(** One entry of [index] and of [path] for each level, towards the root. *)
Fixpoint path_parents (ps : list (option bytes)) (d : nat) (filler : list bytes)
  : result tree_error (list (bool * bytes) * list bytes) :=
  match ps with
  | [] => Ok ([], filler)
  | Some parent :: ps =>
      let* (path, filler) := path_parents ps (S d) filler in Ok ((true, parent) :: path, filler)
  | None :: ps =>
      let* (h, filler) := filler_next filler d in
      let* (path, filler) := path_parents ps (S d) filler in Ok ((false, h) :: path, filler)
  end.
Fixpoint path_above (n d : nat) (filler : list bytes) : result tree_error (list (bool * bytes)) :=
  match n with
  | O => Ok []
  | S n =>
      let* (h, filler) := filler_next filler d in
      let* path := path_above n (S d) filler in Ok ((false, h) :: path)
  end.
Definition levels (t : IncrementalMerkleTree) (filler_hashes : list bytes) : result tree_error (list (bool * bytes)) :=
  match left t with
  | None => Err NoPath
  | Some l =>
      let* (first, filler) :=
        match right t with
        | Some _ => Ok ((true, l), filler_hashes)
        | None => let* (h, filler) := filler_next filler_hashes 0 in Ok ((false, h), filler)
        end in
      let* (path, filler) := path_parents (parents t) 1 filler in
      let d := S (length (parents t)) in
      let* above := path_above (Depth - d) d filler in
      Ok (first :: path ++ above)
  end.
Definition path (t : IncrementalMerkleTree) (filler_hashes : list bytes) : result tree_error MerklePath :=
  let* path := levels t filler_hashes in
  Ok (Path (rev (map (fun '(_, b) => convertBytesVectorToVector b) path)) (rev (map fst path))).

(** *** The witness *)

Record IncrementalWitness := Witness {
  tree : IncrementalMerkleTree;
  filled : list bytes;
  cursor : option IncrementalMerkleTree;
  cursor_depth : nat
}.

(** [IncrementalMerkleTree::witness]. *)
Definition witness (t : IncrementalMerkleTree) : IncrementalWitness := Witness t [] None 0.

Definition partial_path (w : IncrementalWitness) : result tree_error (list bytes) :=
  match cursor w with
  | Some c => let* h := root c (cursor_depth w) [] in Ok (filled w ++ [h])
  | None => Ok (filled w)
  end.
Definition witness_path (w : IncrementalWitness) : result tree_error MerklePath :=
  let* uncles := partial_path w in path (tree w) uncles.
Definition element (w : IncrementalWitness) : result tree_error bytes := tree_last (tree w).
Definition position (w : IncrementalWitness) : Z := to_u64 (tree_size (tree w) - 1).
Definition witness_root (w : IncrementalWitness) : result tree_error bytes :=
  let* uncles := partial_path w in root (tree w) Depth uncles.

Definition witness_append (w : IncrementalWitness) (obj : bytes) : result tree_error IncrementalWitness :=
  match cursor w with
  | Some c =>
      let* c := append c obj in
      if is_complete c (cursor_depth w) then
        let* h := root c (cursor_depth w) [] in
        Ok (Witness (tree w) (filled w ++ [h]) None (cursor_depth w))
      else Ok (Witness (tree w) (filled w) (Some c) (cursor_depth w))
  | None =>
      let depth := next_depth (tree w) (length (filled w)) in
      require negb (Depth <=? depth)%nat orelse TreeFull in
      if (depth =? 0)%nat then Ok (Witness (tree w) (filled w ++ [obj]) None depth)
      else let* c := append empty_tree obj in Ok (Witness (tree w) (filled w) (Some c) depth)
  end.
End tree.

(** *** Serialization *)

(** [pathBytes[i][p / 8] |= authentication_path[i][p] << (7-(p % 8))]. *)
Definition pack_bit (v : bytes) (p : nat) (b : bool) : bytes :=
  alter (fun x => to_u8 (Z.lor x (Z.shiftl (Z.b2z b) (7 - (p mod 8)%nat)))) (p / 8)%nat v.
Fixpoint pack_path (v : bytes) (p : nat) (bits : list bool) : bytes :=
  match bits with
  | [] => v
  | b :: bits => pack_path (pack_bit v p b) (S p) bits
  end.
Definition path_bytes (bits : list bool) : bytes := pack_path (replicate ((length bits + 7) / 8) 0) 0 bits.

Definition path_fields : codec (list bytes * Z) := seq_codec (vector_of 24 bytes_vec_codec) (fun _ => u64_codec).
(** The failed assertion and the [length_error] are [InvalidData]. A shift of
    [indexInt] by 64 bits or more, which the source leaves undefined, gives 0. *)
Definition merkle_path_codec : codec MerklePath :=
  Codec (fun p =>
           require (length (authentication_path p) =? length (index p))%nat orelse InvalidData in
           match convertVectorToInt (index p) with
           | Some indexInt => Serialize path_fields (map path_bytes (authentication_path p), indexInt)
           | None => Err InvalidData
           end)
        (fun s =>
           let* (pathBytes, indexInt, s) := Unserialize path_fields s in
           Ok (Path (map convertBytesVectorToVector pathBytes)
                    (imap (fun i _ => Z.testbit indexInt (length pathBytes - 1 - i)%nat) pathBytes), s)).

Definition check_codec (check : result ser_error unit) : codec unit :=
  Codec (fun _ => let* _ := check in Ok []) (fun s => let* _ := check in Ok (tt, s)).

Definition tree_fields : codec (option bytes * (option bytes * list (option bytes))) :=
  seq_codec (optional_codec uint256_codec) (fun _ =>
  seq_codec (optional_codec uint256_codec) (fun _ => vector_of 36 (optional_codec uint256_codec))).
Definition make_tree (f : option bytes * (option bytes * list (option bytes))) : IncrementalMerkleTree :=
  let '(left, (right, parents)) := f in Tree left right parents.
Definition tree_codec (Depth : nat) : codec IncrementalMerkleTree :=
  struct_codec (seq_codec tree_fields (fun f => check_codec (wfcheck Depth (make_tree f))))
    (fun t => ((left t, (right t, parents t)), tt)) (fun '(f, _) => make_tree f).

(** Reading sets [cursor_depth] from the fields. *)
Definition witness_codec (Depth : nat) : codec IncrementalWitness :=
  struct_codec
    (seq_codec (tree_codec Depth) (fun _ =>
     seq_codec (vector_of 32 uint256_codec) (fun _ => optional_codec (tree_codec Depth))))
    (fun w => (tree w, (filled w, cursor w)))
    (fun '(t, (filled, cursor)) => Witness t filled cursor (next_depth t (length filled))).

(** *** The trees of the chain state *)

Definition INCREMENTAL_MERKLE_TREE_DEPTH : nat := 29.
Definition SAPLING_INCREMENTAL_MERKLE_TREE_DEPTH : nat := 32.

(** What the coins view uses of a tree. [tree_represented] shows that the root
    of a tree that was built by appending is never an error. *)
Definition note_tree {TH : TreeHash} (Depth : nat) : MerkleTree IncrementalMerkleTree := {|
  tree_empty := empty_tree;
  tree_append t obj := match append Depth t obj with Ok t => Some t | Err _ => None end;
  tree_root t := match root t Depth [] with Ok r => r | Err _ => [] end |}.

(** *** Reference: the Merkle tree over the leaves *)

Section reference.
Context {TH : TreeHash}.

(** The root of the tree of depth [d] over the leaves, padded with
    uncommitted ones. *)
Fixpoint full_root (d : nat) (leaves : list bytes) : bytes :=
  match d with
  | O => match leaves with leaf :: _ => leaf | [] => uncommitted end
  | S d => combine (full_root d (take (2 ^ d) leaves)) (full_root d (drop (2 ^ d) leaves)) d
  end.

(** The root that an authentication path gives for a leaf: from the leaf
    upwards, the sibling is on the left where the bit is set. *)
Fixpoint climb (levels : list (bool * bytes)) (d : nat) (h : bytes) : bytes :=
  match levels with
  | [] => h
  | (b, sibling) :: levels => climb levels (S d) (if b : bool then combine sibling h d else combine h sibling d)
  end.

(** The occupied parents are the roots of the complete subtrees of the leaves
    before the last pair, the smallest subtree last. *)
Fixpoint reps_parents (d : nat) (ps : list (option bytes)) (leaves : list bytes) : Prop :=
  match ps with
  | [] => leaves = []
  | None :: ps => reps_parents (S d) ps leaves
  | Some p :: ps =>
      exists l1 l2, leaves = l1 ++ l2 /\ length l2 = (2 ^ d)%nat /\ p = full_root d l2 /\ reps_parents (S d) ps l1
  end.

Definition represents (t : IncrementalMerkleTree) (leaves : list bytes) : Prop :=
  last (parents t) <> Some None /\
  match left t, right t with
  | None, None => parents t = [] /\ leaves = []
  | Some a, None => exists l, leaves = l ++ [a] /\ reps_parents 1 (parents t) l
  | Some a, Some b => exists l, leaves = l ++ [a; b] /\ reps_parents 1 (parents t) l
  | None, Some _ => False
  end.

(** The depths of the subtrees to the right of the last leaf. *)
Fixpoint holes (ps : list (option bytes)) (d : nat) : list nat :=
  match ps with
  | [] => []
  | None :: ps => d :: holes ps (S d)
  | Some _ :: ps => holes ps (S d)
  end.
Definition uncles (t : IncrementalMerkleTree) (depth : nat) : list nat :=
  (if right t then [] else [0%nat]) ++ holes (parents t) 1
  ++ seq (S (length (parents t))) (depth - S (length (parents t))).

(** Hashes that fill the first of these subtrees with the leaves [ms]. *)
Fixpoint fills (fs : list bytes) (ds : list nat) (ms : list bytes) : Prop :=
  match fs, ds with
  | [], _ => ms = []
  | f :: fs, d :: ds => f = full_root d (take (2 ^ d) ms) /\ fills fs ds (drop (2 ^ d) ms)
  | _ :: _, [] => False
  end.
End reference.

(** What the tree relies on: the table holds the roots of empty trees, and
    hashes are 32 bytes. *)
Class TreeHashLaws (TH : TreeHash) (Depth : nat) : Prop := {
  EmptyRoot_spec d : (d <= Depth)%nat -> EmptyRoot d = Some (full_root d []);
  combine_ok a b d : flat_ok 32 a -> flat_ok 32 b -> flat_ok 32 (combine a b d);
  uncommitted_ok : flat_ok 32 uncommitted
}.

(** ** Theorems *)

Section full_root.
Context {TH : TreeHash}.
Local Open Scope nat_scope.

Lemma pow2_nz d : 1 <= 2 ^ d.
Proof. pose proof (Nat.pow_nonzero 2 d). lia. Qed.

Lemma full_root_join d l r : length l = 2 ^ d -> combine (full_root d l) (full_root d r) d = full_root (S d) (l ++ r).
Proof. intros Hl. cbn [full_root]. by rewrite take_app_length', drop_app_length' by done. Qed.

Lemma full_root_pad d l : length l <= 2 ^ d -> combine (full_root d l) (full_root d []) d = full_root (S d) l.
Proof. intros Hl. cbn [full_root]. by rewrite take_ge, drop_ge by lia. Qed.

(** The subtree over [cs] is complete, or no leaves remain. *)
Definition closed (d : nat) (cs ms : list bytes) : Prop := length cs = 2 ^ d \/ (ms = [] /\ length cs <= 2 ^ d).

Lemma closed_step d cs ms :
  closed d cs ms ->
  combine (full_root d cs) (full_root d (take (2 ^ d) ms)) d = full_root (S d) (cs ++ take (2 ^ d) ms)
  /\ closed (S d) (cs ++ take (2 ^ d) ms) (drop (2 ^ d) ms).
Proof.
  unfold closed. rewrite Nat.pow_succ_r', length_app, length_take. intros [Hc|[-> Hc]].
  - split; [by apply full_root_join|]. destruct (decide (2 ^ d <= length ms)); [left; lia|].
    right. rewrite drop_ge by lia. split; [done|lia].
  - rewrite take_nil, drop_nil, app_nil_r. split; [by apply full_root_pad|]. right. split; [done|]. cbn. lia.
Qed.
End full_root.

Section root.
Context {TH : TreeHash} (Depth : nat) {L : TreeHashLaws TH Depth}.
Local Open Scope nat_scope.

Lemma next_fills fs d ds ms :
  fills fs (d :: ds) ms -> d <= Depth ->
  exists fs', filler_next fs d = Ok (full_root d (take (2 ^ d) ms), fs') /\ fills fs' ds (drop (2 ^ d) ms).
Proof using L.
  destruct fs as [|f fs]; cbn [fills filler_next].
  - intros -> Hd. rewrite EmptyRoot_spec by done. rewrite take_nil, drop_nil. by exists [].
  - intros [-> Hf] _. by exists fs.
Qed.

Lemma root_parents_spec ps : forall d fs ds l cs ms,
  reps_parents d ps l -> closed d cs ms -> fills fs (holes ps d ++ ds) ms -> d + length ps <= S Depth ->
  exists cs' ms' fs', root_parents ps d fs (full_root d cs) = Ok (full_root (d + length ps) cs', d + length ps, fs')
    /\ cs' ++ ms' = l ++ cs ++ ms /\ closed (d + length ps) cs' ms' /\ fills fs' ds ms'.
Proof using L.
  induction ps as [|[p|] ps IH]; intros d fs ds l cs ms Hl Hc Hf Hd; cbn [reps_parents holes root_parents length app] in *.
  - subst. rewrite Nat.add_0_r. by exists cs, ms, fs.
  - destruct Hl as (l1 & l2 & -> & H2 & -> & Hl). rewrite full_root_join by done.
    destruct (IH (S d) fs ds l1 (l2 ++ cs) ms) as (cs' & ms' & fs' & E & Ha & ? & ?); [done| |done|lia|].
    { unfold closed in *. rewrite Nat.pow_succ_r', length_app, H2. destruct Hc as [?|[-> ?]]; [left; lia|right; split; [done|lia]]. }
    exists cs', ms', fs'. replace (d + S (length ps)) with (S d + length ps) by lia. rewrite E, Ha, <- !app_assoc. done.
  - destruct (next_fills _ _ _ _ Hf) as (fs1 & -> & Hf1); [lia|]. cbn [bindR]. destruct (closed_step _ _ _ Hc) as [-> Hc1].
    destruct (IH (S d) fs1 ds l (cs ++ take (2 ^ d) ms) (drop (2 ^ d) ms)) as (cs' & ms' & fs' & E & Ha & ? & ?); [done..|lia|].
    exists cs', ms', fs'. replace (d + S (length ps)) with (S d + length ps) by lia.
    rewrite E, Ha, <- (app_assoc cs), take_drop. done.
Qed.

Lemma root_above_spec n : forall d fs cs ms,
  closed d cs ms -> fills fs (seq d n) ms -> d + n <= S Depth ->
  root_above n d fs (full_root d cs) = Ok (full_root (d + n) (cs ++ ms)).
Proof using L.
  induction n as [|n IH]; intros d fs cs ms Hc Hf Hd; cbn [root_above seq] in *.
  - destruct fs; [|done]. cbn in Hf. subst. by rewrite app_nil_r, Nat.add_0_r.
  - destruct (next_fills _ _ _ _ Hf) as (fs1 & -> & Hf1); [lia|]. cbn [bindR]. destruct (closed_step _ _ _ Hc) as [-> Hc1].
    rewrite (IH (S d) fs1 _ _ Hc1 Hf1) by lia. rewrite <- app_assoc, take_drop. by replace (S d + n) with (d + S n) by lia.
Qed.

Lemma root_spec t leaves ms fs depth :
  represents t leaves -> leaves <> [] -> length (parents t) < depth -> depth <= S Depth ->
  fills fs (uncles t depth) ms ->
  root t depth fs = Ok (full_root depth (leaves ++ ms)).
Proof using L.
  intros [_ Ht] Hne Hp Hd Hf. unfold root, uncles in *.
  assert (Hrest : forall l cs ms fs, reps_parents 1 (parents t) l -> closed 1 cs ms ->
    fills fs (holes (parents t) 1 ++ seq (S (length (parents t))) (depth - S (length (parents t)))) ms ->
    (let* (root, d, filler) := root_parents (parents t) 1 fs (full_root 1 cs) in root_above (depth - d) d filler root)%code
    = Ok (full_root depth (l ++ cs ++ ms))).
  { clear Hf ms fs. intros l cs ms fs Hl Hc Hf.
    destruct (root_parents_spec _ _ _ _ _ _ _ Hl Hc Hf) as (cs' & ms' & fs' & -> & Ha & Hc' & Hf'); [lia|].
    cbn [bindR]. replace (1 + length (parents t)) with (S (length (parents t))) in * by lia.
    rewrite root_above_spec with (ms := ms') by (done || lia). rewrite Ha. do 2 f_equal. lia. }
  destruct (left t) as [a|], (right t) as [b|]; [| |done|by destruct Ht].
  - destruct Ht as (l & -> & Hl). cbn [or_next bindR app] in *.
    change (combine a b 0) with (full_root 1 [a; b]). rewrite (Hrest l [a; b] ms fs) by (done || left; done). by rewrite <- app_assoc.
  - destruct Ht as (l & -> & Hl). cbn [or_next bindR app] in *.
    destruct (next_fills _ _ _ _ Hf) as (fs1 & -> & Hf1); [lia|]. cbn [bindR].
    destruct (closed_step 0 [a] ms) as [E Hc]; [by left|].
    change (combine a (full_root 0 (take (2 ^ 0) ms)) 0) with (combine (full_root 0 [a]) (full_root 0 (take (2 ^ 0) ms)) 0).
    rewrite E, (Hrest l _ _ _ Hl Hc Hf1). by rewrite <- !app_assoc, take_drop.
Qed.

Lemma root_empty depth : 0 < depth -> depth <= S Depth -> root empty_tree depth [] = Ok (full_root depth []).
Proof using L.
  intros H0 Hd. unfold root. cbn [empty_tree left right parents or_next filler_next].
  destruct depth as [|depth]; [lia|]. rewrite EmptyRoot_spec by lia. cbn [bindR or_next filler_next root_parents].
  rewrite EmptyRoot_spec by lia. cbn [bindR root_parents]. rewrite full_root_pad by (cbn; lia).
  rewrite root_above_spec with (ms := []); [|right; cbn; split; [done|lia]|done|lia]. do 2 f_equal. lia.
Qed.
End root.

Section append.
Context {TH : TreeHash}.
Local Open Scope nat_scope.

Lemma pow2_succ d n : 2 ^ (d + S n) = 2 ^ (S d + n).
Proof. f_equal. lia. Qed.

Lemma reps_bound ps : forall d l, reps_parents d ps l -> length l + 2 ^ d <= 2 ^ (d + length ps).
Proof.
  induction ps as [|[p|] ps IH]; intros d l Hl; cbn [reps_parents length] in *.
  - subst. rewrite Nat.add_0_r. done.
  - destruct Hl as (l1 & l2 & -> & H2 & _ & Hl). apply IH in Hl. rewrite pow2_succ, length_app, H2. rewrite Nat.pow_succ_r' in Hl. lia.
  - apply IH in Hl. rewrite pow2_succ. rewrite Nat.pow_succ_r' in Hl. lia.
Qed.

Lemma reps_even ps : forall d l, reps_parents d ps l -> exists k, length l = 2 ^ d * k.
Proof.
  induction ps as [|[p|] ps IH]; intros d l Hl; cbn [reps_parents length] in *.
  - subst. exists 0. cbn. lia.
  - destruct Hl as (l1 & l2 & -> & H2 & _ & Hl). apply IH in Hl as [k Hk]. exists (2 * k + 1).
    rewrite length_app, Hk, H2, Nat.pow_succ_r'. lia.
  - apply IH in Hl as [k Hk]. exists (2 * k). rewrite Hk, Nat.pow_succ_r'. lia.
Qed.

Lemma reps_lower ps : forall d l, reps_parents d ps l -> last ps <> Some None -> ps <> [] -> 2 ^ (d + length ps) <= 2 * length l.
Proof.
  induction ps as [|p ps IH]; intros d l Hl Hlast Hne; [done|].
  destruct (decide (ps = [])) as [->|Hps].
  - destruct p as [p|]; [|done]. cbn [reps_parents length] in *. destruct Hl as (l1 & l2 & -> & H2 & _ & ->).
    rewrite Nat.add_1_r, Nat.pow_succ_r'. cbn. lia.
  - assert (Hlast' : last ps <> Some None) by (by rewrite last_cons_ne in Hlast || (destruct ps; [done|exact Hlast])).
    cbn [length]. rewrite pow2_succ. destruct p as [p|]; cbn [reps_parents] in Hl.
    + destruct Hl as (l1 & l2 & -> & H2 & _ & Hl). rewrite length_app. specialize (IH _ _ Hl Hlast' Hps). lia.
    + by apply IH.
Qed.

Lemma reps_full ps : forall d l, reps_parents d ps l ->
  forallb (fun parent : option bytes => if parent then true else false) ps = true <-> length l + 2 ^ d = 2 ^ (d + length ps).
Proof.
  induction ps as [|[p|] ps IH]; intros d l Hl; cbn [reps_parents length forallb andb] in *.
  - subst. rewrite Nat.add_0_r. done.
  - destruct Hl as (l1 & l2 & -> & H2 & _ & Hl). rewrite (IH _ _ Hl), pow2_succ, length_app, H2, Nat.pow_succ_r'. lia.
  - apply reps_bound in Hl. rewrite pow2_succ. rewrite Nat.pow_succ_r' in Hl. pose proof (pow2_nz d). split; [done|lia].
Qed.

Lemma carry_spec n : forall i ps l l2,
  reps_parents (S i) ps l -> length l2 = 2 ^ S i -> length ps < n ->
  reps_parents (S i) (carry n i ps (full_root (S i) l2)) (l ++ l2).
Proof.
  induction n as [|n IH]; intros i ps l l2 Hl H2 Hn; [lia|].
  destruct ps as [|[p|] ps]; cbn [carry reps_parents length] in *.
  - subst. by exists [], l2.
  - destruct Hl as (la & lb & -> & Hb & -> & Hl). rewrite Nat.add_1_r, full_root_join by done.
    rewrite <- app_assoc. apply IH; [done| |lia]. rewrite length_app, Hb, H2, (Nat.pow_succ_r' 2 (S i)). lia.
  - by exists l, l2.
Qed.

Lemma carry_last n : forall i ps c, length ps < n -> last ps <> Some None -> last (carry n i ps c) <> Some None.
Proof.
  induction n as [|n IH]; intros i ps c Hn Hl; [lia|]. destruct ps as [|[p|] ps]; cbn [carry length] in *; [done| |].
  - destruct ps as [|q ps]; cbn [length] in *.
    + destruct n; [lia|done].
    + specialize (IH (S i) (q :: ps) (combine p c (i + 1)) ltac:(cbn; lia) Hl). destruct n as [|n]; [lia|].
      destruct q; cbn [carry] in *; exact IH.
  - destruct ps as [|q ps]; [done|exact Hl].
Qed.

Lemma represents_nil t : represents t [] -> t = empty_tree.
Proof.
  intros [_ Ht]. destruct t as [[a|] [b|] ps]; cbn in Ht; try done; [| |by destruct Ht as [-> _]].
  all: destruct Ht as ([|? ?] & ? & _); done.
Qed.

(** The leaves before the last pair. *)
Lemma represents_split t leaves :
  represents t leaves -> leaves <> [] ->
  exists l tl, leaves = l ++ tl /\ reps_parents 1 (parents t) l /\ length tl = (if right t then 2 else 1)
    /\ is_Some (left t) /\ tree_last t = Ok (default [] (last leaves)).
Proof.
  intros [_ Ht] Hne. destruct t as [[a|] [b|] ps]; cbn in *; [| |done|by destruct Ht].
  - destruct Ht as (l & -> & ?). exists l, [a; b]. split_and!; try done. by rewrite last_app.
  - destruct Ht as (l & -> & ?). exists l, [a]. split_and!; try done. by rewrite last_app.
Qed.

Lemma represents_parents t leaves depth :
  represents t leaves -> 0 < depth -> length leaves <= 2 ^ depth -> length (parents t) < depth.
Proof.
  intros Ht Hd Hl. destruct (decide (leaves = [])) as [->|Hne].
  { by rewrite (represents_nil _ Ht). }
  destruct (represents_split _ _ Ht Hne) as (l & tl & -> & Hr & Htl & _). destruct Ht as [Hlast _].
  destruct (decide (parents t = [])) as [->|Hps]; [done|].
  pose proof (reps_lower _ _ _ Hr Hlast Hps) as Hlow. rewrite length_app in Hl.
  destruct (decide (length (parents t) < depth)) as [?|Hge]; [done|]. exfalso.
  assert (2 ^ depth <= 2 ^ length (parents t)) by (apply Nat.pow_le_mono_r; lia).
  replace (1 + length (parents t)) with (S (length (parents t))) in Hlow by lia. rewrite Nat.pow_succ_r' in Hlow.
  destruct (right t); lia.
Qed.

Lemma is_complete_spec t leaves depth :
  represents t leaves -> 1 <= depth <= 64 -> is_complete t depth = true <-> length leaves = 2 ^ depth.
Proof.
  intros Ht Hd. pose proof (represents_parents t leaves depth Ht ltac:(lia)) as Hpar. pose proof (pow2_nz depth) as H1.
  destruct Ht as [Hlast Ht]. unfold is_complete.
  replace (to_u64 (depth - 1)) with (Z.of_nat (depth - 1)).
  2: { rewrite wrap_small; [lia|]. unfold uint. lia. }
  destruct depth as [|depth]; [lia|]. rewrite Nat.pow_succ_r' in *. replace (S depth - 1) with depth by lia.
  destruct (left t) as [a|], (right t) as [b|]; cbn [bool_decide orb]; [| |done|].
  - destruct Ht as (l & -> & Hl). rewrite length_app. cbn [length].
    rewrite !bool_decide_eq_false_2 by done. cbn [orb].
    pose proof (reps_full _ _ _ Hl) as Hfull. pose proof (reps_bound _ _ _ Hl) as Hb.
    replace (1 + length (parents t)) with (S (length (parents t))) in * by lia. rewrite Nat.pow_succ_r' in *. cbn [Nat.pow] in *.
    destruct (Z.eqb_spec (length (parents t)) depth) as [E|E]; cbn [negb].
    + apply Nat2Z.inj in E. rewrite Hfull, E. lia.
    + split; [done|]. rewrite length_app in Hpar. cbn [length] in Hpar. intros Hn. specialize (Hpar ltac:(lia)).
      assert (2 * 2 ^ length (parents t) <= 2 ^ depth) by (rewrite <- Nat.pow_succ_r'; apply Nat.pow_le_mono_r; lia). lia.
  - rewrite bool_decide_eq_true_2 with (P := None = None) by done. rewrite orb_true_r. destruct Ht as (l & -> & Hl).
    destruct (reps_even _ _ _ Hl) as [k Hk]. rewrite length_app, Hk. cbn. split; [done|lia].
  - rewrite bool_decide_eq_true_2 with (P := None = None) by done. cbn [orb]. destruct Ht as [_ ->]. cbn [length]. split; [done|lia].
Qed.

Context (Depth : nat) (HD : 1 <= Depth <= 64).

Lemma append_spec t leaves x :
  represents t leaves -> length leaves < 2 ^ Depth ->
  exists t', append Depth t x = Ok t' /\ represents t' (leaves ++ [x]).
Proof using HD.
  intros Ht Hlt. unfold append. destruct (is_complete t Depth) eqn:Hc.
  { apply (is_complete_spec _ _ _ Ht HD) in Hc. lia. }
  pose proof (represents_parents t leaves Depth Ht ltac:(lia) ltac:(lia)) as Hp.
  cbn [negb]. destruct Ht as [Hlast Ht]. unfold represents. destruct (left t) as [a|], (right t) as [b|]; [| |done|].
  - destruct Ht as (l & -> & Hl). eexists. split; [done|]. cbn [left right parents]. split; [by apply carry_last|].
    exists (l ++ [a; b]). split; [done|]. change (combine a b 0) with (full_root 1 [a; b]). by apply carry_spec.
  - destruct Ht as (l & -> & Hl). eexists. split; [done|]. cbn [left right parents]. split; [done|].
    exists l. by rewrite <- app_assoc.
  - destruct Ht as [Hps ->]. eexists. split; [done|]. cbn [left right parents]. split; [done|]. exists []. by rewrite Hps.
Qed.

Lemma append_full t leaves x : represents t leaves -> length leaves = 2 ^ Depth -> append Depth t x = Err TreeFull.
Proof using HD. intros Ht Hl. unfold append. by rewrite (proj2 (is_complete_spec _ _ _ Ht HD) Hl). Qed.

Lemma empty_represents : represents empty_tree [].
Proof using. by split. Qed.
End append.

Section observers.
Context {TH : TreeHash}.

Lemma pow2_Z (d : nat) : Z.of_nat (2 ^ d)%nat = 2 ^ d.
Proof. by rewrite Nat2Z.inj_pow. Qed.

(** What [size] is short of: [1 << 31] is negative. *)
Definition shortfall (n : Z) : Z := if 2 ^ 31 <=? n then 2 ^ 32 else 0.

Lemma shortfall_step (i : nat) (k : Z) : (i < 30)%nat -> shortfall (2 ^ (i + 2) * k + 2 ^ (i + 1)) = shortfall (2 ^ (i + 2) * k).
Proof.
  intros Hi. unfold shortfall. replace (2 ^ 31) with (2 ^ (i + 2) * 2 ^ (29 - i)) by (rewrite <- Z.pow_add_r by lia; f_equal; lia).
  replace (2 ^ (i + 2)) with (2 * 2 ^ (i + 1)) by (rewrite <- Z.pow_succ_r by lia; f_equal; lia).
  assert (0 < 2 ^ (i + 1)) by (apply Z.pow_pos_nonneg; lia).
  generalize dependent (2 ^ (i + 1)). generalize (2 ^ (29 - i)). intros q m Hm.
  destruct (Z.leb_spec (2 * m * q) (2 * m * k)) as [?|Hlt], (Z.leb_spec (2 * m * q) (2 * m * k + m)); try done; [lia|].
  apply Z.mul_lt_mono_pos_l in Hlt; [nia|lia].
Qed.

Lemma added_parent (i : nat) ret : (i < 31)%nat ->
  to_u64 (ret + to_u64 (to_i32 (Z.shiftl 1 (i + 1)))) = to_u64 (ret + 2 ^ (i + 1) - (if (i =? 30)%nat then 2 ^ 32 else 0)).
Proof.
  intros Hi. rewrite Z.shiftl_1_l. unfold wrap at 1 2 3. rewrite Zplus_mod_idemp_r. f_equal. rewrite <- Z.add_sub_assoc. f_equal.
  destruct (Nat.eqb_spec i 30) as [->|Hne]; [done|]. rewrite Z.sub_0_r.
  assert (2 ^ (i + 1) < 2 ^ (32 - 1)) by (apply Z.pow_lt_mono_r; lia). pose proof (pow2_pos (i + 1)).
  rewrite swrap_small; [done|lia|split; lia].
Qed.

Lemma count_parents_spec ps : forall i l ret,
  reps_parents (S i) ps l -> (i + length ps <= 31)%nat -> uint 64 ret ->
  count_parents ps i ret = to_u64 (ret + length l - shortfall (length l)).
Proof.
  induction ps as [|[p|] ps IH]; intros i l ret Hl Hi Hr; cbn [reps_parents length count_parents] in *.
  - subst. change (shortfall (length [])) with 0. replace (ret + length [] - 0) with ret by (cbn [length]; lia). by rewrite wrap_small.
  - destruct Hl as (l1 & l2 & -> & H2 & _ & Hl). rewrite added_parent by lia.
    rewrite (IH (S i) l1) by (done || lia || (apply wrap_range; lia)).
    rewrite length_app, H2, Nat2Z.inj_add, pow2_Z. replace (Z.of_nat (S i)) with (i + 1) by lia.
    unfold wrap at 1 2. rewrite <- Z.add_sub_assoc, Zplus_mod_idemp_l. unfold wrap. f_equal.
    destruct (reps_even _ _ _ Hl) as [k Hk]. rewrite Hk, Nat2Z.inj_mul, pow2_Z. replace (Z.of_nat (S (S i))) with (i + 2) by lia.
    destruct (Nat.eqb_spec i 30) as [->|Hne].
    + destruct ps; cbn [length] in *; [|lia]. cbn in Hl. subst l1. cbn [length] in Hk.
      symmetry in Hk. apply Nat.eq_mul_0 in Hk as [Hk| ->]; [by apply Nat.pow_nonzero in Hk|].
      rewrite Z.mul_0_r. change (30%nat + 1) with 31. change (shortfall 0) with 0. change (shortfall (0 + 2 ^ 31)) with (2 ^ 32). lia.
    + rewrite shortfall_step by lia. lia.
  - by apply (IH (S i)); [|lia|].
Qed.

Lemma size_spec t leaves :
  represents t leaves -> Z.of_nat (length leaves) <= 2 ^ 32 ->
  tree_size t = to_u64 (length leaves - (if 2 ^ 31 <? length leaves then 2 ^ 32 else 0)).
Proof.
  intros Ht Hlen. destruct (decide (leaves = [])) as [->|Hne]; [by rewrite (represents_nil _ Ht)|].
  assert (Hp : (length (parents t) < 32)%nat).
  { apply (represents_parents _ _ _ Ht); [lia|]. apply Nat2Z.inj_le. rewrite pow2_Z. exact Hlen. }
  destruct (represents_split _ _ Ht Hne) as (l & tl & -> & Hl & Htl & [a Ha] & _). unfold tree_size. rewrite Ha.
  rewrite (count_parents_spec _ _ l) by (done || lia || (destruct (right t); done)).
  rewrite length_app, Htl. destruct (reps_even _ _ _ Hl) as [k Hk]. cbn [Nat.pow] in Hk. unfold shortfall.
  destruct (right t); f_equal; repeat case_match; rewrite ?Z.leb_le, ?Z.leb_gt, ?Z.ltb_lt, ?Z.ltb_ge in *; lia.
Qed.

Lemma wfcheck_spec (Depth : nat) t leaves :
  represents t leaves -> (0 < Depth)%nat -> (length leaves <= 2 ^ Depth)%nat -> wfcheck Depth t = Ok tt.
Proof.
  intros Ht HD Hl. pose proof (represents_parents _ _ _ Ht HD Hl) as Hp. destruct Ht as [Hlast Ht]. unfold wfcheck.
  destruct (Nat.leb_spec Depth (length (parents t))); [lia|]. cbn [negb].
  rewrite (bool_decide_eq_false_2 (last (parents t) = Some None)) by done. rewrite andb_false_r. cbn [negb].
  destruct t as [[a|] [b|] ps]; cbn in *; try done. by destruct Ht as [-> _].
Qed.

(** The path and the root read the same levels. *)
Lemma root_parents_climb ps : forall d fs r,
  root_parents ps d fs r
  = (let* (path, filler) := path_parents ps d fs in Ok (climb path d r, (d + length ps)%nat, filler))%code.
Proof.
  induction ps as [|[p|] ps IH]; intros d fs r; cbn [root_parents path_parents].
  - cbn. by rewrite Nat.add_0_r.
  - rewrite IH, bindR_assoc. apply bindR_ext. intros [path fs']. cbn. by rewrite Nat.add_succ_r.
  - rewrite bindR_assoc. apply bindR_ext. intros [h fs']. rewrite IH, bindR_assoc. apply bindR_ext. intros [path fs1].
    cbn. by rewrite Nat.add_succ_r.
Qed.

Lemma climb_levels_app l1 l2 : forall d h, climb (l1 ++ l2) d h = climb l2 (d + length l1) (climb l1 d h).
Proof.
  induction l1 as [|[b x] l1 IH]; intros d h; cbn [climb app length]; [by rewrite Nat.add_0_r|].
  rewrite IH. f_equal. lia.
Qed.

Lemma root_above_climb n : forall d fs r,
  root_above n d fs r = (let* path := path_above n d fs in Ok (climb path d r))%code.
Proof.
  induction n as [|n IH]; intros d fs r; cbn [root_above path_above]; [done|].
  rewrite bindR_assoc. apply bindR_ext. intros [h fs']. rewrite IH, bindR_assoc. apply bindR_ext. done.
Qed.

Lemma length_path_parents ps : forall d fs path fs', path_parents ps d fs = Ok (path, fs') ->
  length path = length ps /\ map fst path = map (fun p : option bytes => if p then true else false) ps.
Proof.
  induction ps as [|[p|] ps IH]; intros d fs path fs' Hp; cbn [path_parents] in Hp.
  - by simplify_eq/=.
  - apply bindR_Ok in Hp as ([path1 fs1] & Hp & [= <- <-]). apply IH in Hp as [? ?]. cbn. by split; f_equal.
  - apply bindR_Ok in Hp as ([h fs1] & _ & Hp). apply bindR_Ok in Hp as ([path1 fs2] & Hp & [= <- <-]).
    apply IH in Hp as [? ?]. cbn. by split; f_equal.
Qed.

Lemma length_path_above n : forall d fs path, path_above n d fs = Ok path -> map fst path = replicate n false.
Proof.
  induction n as [|n IH]; intros d fs path Hp; cbn [path_above] in Hp; [by simplify_eq|].
  apply bindR_Ok in Hp as ([h fs1] & _ & Hp). apply bindR_Ok in Hp as (path1 & Hp & [= <-]). cbn. f_equal. eauto.
Qed.

Lemma root_levels (Depth : nat) t leaves fs r :
  represents t leaves -> leaves <> [] -> root t Depth fs = Ok r ->
  exists lv, levels Depth t fs = Ok lv /\ climb lv 0 (default [] (last leaves)) = r
    /\ map fst lv = (if right t then true else false) :: map (fun p : option bytes => if p then true else false) (parents t)
                    ++ replicate (Depth - S (length (parents t))) false.
Proof.
  intros Ht Hne Hr. destruct (represents_split _ _ Ht Hne) as (l & tl & _ & _ & _ & [a Ha] & Hlast).
  unfold tree_last in Hlast. unfold root, levels in *. rewrite Ha in *. cbn [or_next bindR] in Hr.
  destruct (right t) as [b|]; cbn [or_next bindR] in *; injection Hlast as <-.
  - rewrite root_parents_climb, bindR_assoc in Hr. apply bindR_Ok in Hr as ([path fs1] & Hp & Hr). cbn [bindR] in Hr.
    rewrite root_above_climb in Hr. apply bindR_Ok in Hr as (above & Hab & [= <-]).
    rewrite Hp. cbn [bindR]. change (1 + length (parents t))%nat with (S (length (parents t))) in Hab. rewrite Hab. cbn [bindR].
    apply length_path_parents in Hp as [Hlen Hbits]. apply length_path_above in Hab. eexists. split; [done|]. split.
    + cbn [climb]. rewrite climb_levels_app. by rewrite Hlen.
    + cbn [map fst]. by rewrite map_app, Hbits, Hab.
  - apply bindR_Ok in Hr as ([h fs0] & Hn & Hr). rewrite Hn. cbn [bindR].
    rewrite root_parents_climb, bindR_assoc in Hr. apply bindR_Ok in Hr as ([path fs1] & Hp & Hr). cbn [bindR] in Hr.
    rewrite root_above_climb in Hr. apply bindR_Ok in Hr as (above & Hab & [= <-]).
    rewrite Hp. cbn [bindR]. change (1 + length (parents t))%nat with (S (length (parents t))) in Hab. rewrite Hab. cbn [bindR].
    apply length_path_parents in Hp as [Hlen Hbits]. apply length_path_above in Hab. eexists. split; [done|]. split.
    + cbn [climb]. rewrite climb_levels_app. by rewrite Hlen.
    + cbn [map fst]. by rewrite map_app, Hbits, Hab.
Qed.
End observers.

Section witness.
Context {TH : TreeHash}.
Local Open Scope nat_scope.

(** Hashes of complete subtrees at the first of these depths, over [ms]. *)
Fixpoint filled_by (fs : list bytes) (ds : list nat) (ms : list bytes) : Prop :=
  match fs, ds with
  | [], _ => ms = []
  | f :: fs, d :: ds => exists a b, ms = a ++ b /\ length a = 2 ^ d /\ f = full_root d a /\ filled_by fs ds b
  | _ :: _, [] => False
  end.

Definition capacity (ds : list nat) : nat := foldr (fun d n => 2 ^ d + n) 0 ds.

Lemma filled_by_length fs : forall ds ms, filled_by fs ds ms -> length fs <= length ds /\ length ms = capacity (take (length fs) ds).
Proof.
  induction fs as [|f fs IH]; intros [|d ds] ms Hf; cbn in *; subst; try done; [split; [lia|done]|].
  destruct Hf as (a & b & -> & Ha & _ & Hf). destruct (IH _ _ Hf) as [? E]. rewrite length_app, Ha, E. unfold capacity. split; lia.
Qed.

Lemma filled_by_snoc fs : forall ds ms d a,
  filled_by fs ds ms -> ds !! length fs = Some d -> length a = 2 ^ d -> filled_by (fs ++ [full_root d a]) ds (ms ++ a).
Proof.
  induction fs as [|f fs IH]; intros [|d' ds] ms d a Hf Hd Ha; cbn in *; subst; try done.
  - simplify_eq. exists a, []. by rewrite app_nil_r.
  - destruct Hf as (m & m' & -> & Hm & -> & Hf). exists m, (m' ++ a). rewrite app_assoc. eauto.
Qed.

Lemma filled_by_fills fs : forall ds ms hs ms',
  filled_by fs ds ms -> fills hs (drop (length fs) ds) ms' -> fills (fs ++ hs) ds (ms ++ ms').
Proof.
  induction fs as [|f fs IH]; intros [|d ds] ms hs ms' Hf Hh; cbn in *; subst; try done.
  destruct Hf as (a & b & -> & Ha & -> & Hf). rewrite <- app_assoc, take_app_length', drop_app_length' by done. split; [done|by apply IH].
Qed.

Lemma capacity_app d1 d2 : capacity (d1 ++ d2) = capacity d1 + capacity d2.
Proof. unfold capacity. induction d1 as [|d d1 IH]; cbn [app foldr]; [done|]. rewrite IH. lia. Qed.

Lemma capacity_seq n : forall d, capacity (seq d n) + 2 ^ d = 2 ^ (d + n).
Proof.
  induction n as [|n IH]; intros d; cbn [seq capacity foldr]; [by rewrite Nat.add_0_r|].
  fold (capacity (seq (S d) n)). specialize (IH (S d)). rewrite pow2_succ. rewrite Nat.pow_succ_r' in IH. lia.
Qed.

Lemma capacity_holes ps : forall d l, reps_parents d ps l -> length l + 2 ^ d + capacity (holes ps d) = 2 ^ (d + length ps).
Proof.
  induction ps as [|[p|] ps IH]; intros d l Hl; cbn [reps_parents holes length] in *.
  - subst. by rewrite !Nat.add_0_r.
  - destruct Hl as (l1 & l2 & -> & H2 & _ & Hl). apply IH in Hl. rewrite pow2_succ, length_app, H2. rewrite Nat.pow_succ_r' in Hl. lia.
  - apply IH in Hl. rewrite pow2_succ. cbn [capacity foldr]. fold (capacity (holes ps (S d))). rewrite Nat.pow_succ_r' in Hl. lia.
Qed.

Lemma next_parent_uncles ps n : forall skip d,
  let k := next_parent ps skip d in
  (k < d + length ps + n -> (holes ps d ++ seq (d + length ps) n) !! skip = Some k)
  /\ (d + length ps + n <= k -> length (holes ps d ++ seq (d + length ps) n) <= skip).
Proof.
  induction ps as [|[p|] ps IH]; intros skip d; cbn [next_parent holes app length].
  - rewrite Nat.add_0_r, length_seq. split; intros Hk; [|lia]. apply lookup_seq. lia.
  - rewrite Nat.add_succ_r. apply (IH skip (S d)).
  - rewrite Nat.add_succ_r. destruct skip as [|skip]; cbn [lookup list_lookup length].
    + split; [done|lia].
    + destruct (IH skip (S d)) as [H1 H2]. split; [exact H1|]. intros Hk. specialize (H2 Hk). cbn in H2. lia.
Qed.

Context (Depth : nat) {L : TreeHashLaws TH Depth} (HD : 1 <= Depth <= 64).

(** A witness of the last of [leaves], after [ms] were appended. *)
Definition witnesses (w : IncrementalWitness) (leaves ms : list bytes) : Prop :=
  represents (tree w) leaves /\ leaves <> [] /\ length leaves <= 2 ^ Depth /\
  exists m1 m2, ms = m1 ++ m2 /\ filled_by (filled w) (uncles (tree w) Depth) m1 /\
    match cursor w with
    | None => m2 = []
    | Some c => represents c m2 /\ m2 <> [] /\ uncles (tree w) Depth !! length (filled w) = Some (cursor_depth w)
                /\ 0 < cursor_depth w /\ length m2 < 2 ^ cursor_depth w
    end.

(** The subtrees to the right of the last leaf hold all that is missing. *)
Lemma capacity_uncles t leaves :
  represents t leaves -> leaves <> [] -> length leaves <= 2 ^ Depth -> length leaves + capacity (uncles t Depth) = 2 ^ Depth.
Proof using HD.
  intros Ht Hne Hl. pose proof (represents_parents t leaves Depth Ht ltac:(lia) Hl) as Hp.
  destruct (represents_split _ _ Ht Hne) as (l & tl & -> & Hr & Htl & _). unfold uncles. rewrite !capacity_app, length_app, Htl.
  pose proof (capacity_holes _ _ _ Hr) as Hh. pose proof (capacity_seq (Depth - S (length (parents t))) (S (length (parents t)))) as Hs.
  replace (S (length (parents t)) + (Depth - S (length (parents t)))) with Depth in Hs by lia.
  change (1 + length (parents t)) with (S (length (parents t))) in Hh. destruct (right t); cbn [capacity foldr Nat.pow] in *; lia.
Qed.

Lemma next_depth_uncles t leaves skip :
  represents t leaves -> leaves <> [] -> length leaves <= 2 ^ Depth ->
  let k := next_depth t skip in
  (k < Depth -> uncles t Depth !! skip = Some k) /\ (Depth <= k -> length (uncles t Depth) <= skip).
Proof using HD.
  intros Ht Hne Hl. pose proof (represents_parents t leaves Depth Ht ltac:(lia) Hl) as Hp.
  destruct (represents_split _ _ Ht Hne) as (_ & _ & _ & _ & _ & [a Ha] & _). unfold next_depth, uncles. rewrite Ha.
  pose proof (next_parent_uncles (parents t) (Depth - S (length (parents t)))) as Hn.
  change (1 + length (parents t)) with (S (length (parents t))) in Hn.
  assert (E : S (length (parents t)) + (Depth - S (length (parents t))) = Depth) by lia.
  destruct (right t); [|destruct skip as [|skip]; [split; [done|cbn; lia]|]].
  all: specialize (Hn skip 1); cbn [app] in *; change (1 + length (parents t)) with (S (length (parents t))) in Hn; rewrite E in Hn.
  - exact Hn.
  - destruct Hn as [H1 H2]. split; [exact H1|]. intros Hk. specialize (H2 Hk). cbn [length]. lia.
Qed.

Lemma uncles_lt t d k : length (parents t) < Depth -> uncles t Depth !! k = Some d -> d < Depth.
Proof using HD.
  intros Hp Hk. apply list_elem_of_lookup_2 in Hk. unfold uncles in Hk. rewrite !elem_of_app, elem_of_seq in Hk.
  assert (Hh : forall ps n, d ∈ holes ps n -> d < n + length ps).
  { induction ps as [|[p|] ps IH]; intros n Hd; cbn in *; [by apply elem_of_nil in Hd| |].
    - apply IH in Hd. lia.
    - apply elem_of_cons in Hd as [->|Hd]; [lia|]. apply IH in Hd. lia. }
  destruct Hk as [Hk|[Hk|Hk]]; [|apply Hh in Hk; lia|lia].
  destruct (right t); [by apply elem_of_nil in Hk|]. apply list_elem_of_singleton in Hk. lia.
Qed.

Lemma new_witnesses t leaves :
  represents t leaves -> leaves <> [] -> length leaves <= 2 ^ Depth -> witnesses (witness t) leaves [].
Proof using. intros Ht Hne Hl. split_and!; [done..|]. by exists [], []. Qed.

Lemma partial_path_spec w leaves ms :
  witnesses w leaves ms -> exists fs, partial_path w = Ok fs /\ fills fs (uncles (tree w) Depth) ms.
Proof using L HD.
  intros (Ht & Hne & Hl & m1 & m2 & -> & Hf & Hc). unfold partial_path. destruct (cursor w) as [c|].
  - destruct Hc as (Hc & Hm & Hd & H0 & Hlt).
    pose proof (uncles_lt _ _ _ (represents_parents _ _ Depth Ht ltac:(lia) Hl) Hd) as HdD.
    rewrite (root_spec Depth c m2 [] [] (cursor_depth w)); [|done..| |lia|done]; [|apply (represents_parents _ _ _ Hc H0); lia].
    cbn [bindR]. eexists. split; [done|]. apply filled_by_fills; [done|].
    rewrite (drop_S _ _ _ Hd). cbn [fills]. rewrite take_ge, drop_ge by lia. by rewrite app_nil_r.
  - subst. eexists. split; [done|]. rewrite <- (app_nil_r (filled w)). by apply filled_by_fills.
Qed.

Lemma witness_append_spec w leaves ms x :
  witnesses w leaves ms -> length leaves + length ms < 2 ^ Depth ->
  exists w', witness_append Depth w x = Ok w' /\ tree w' = tree w /\ witnesses w' leaves (ms ++ [x]).
Proof using L HD.
  intros (Ht & Hne & Hl & m1 & m2 & -> & Hf & Hc) Hlt. unfold witness_append. destruct (cursor w) as [c|].
  - destruct Hc as (Hc & Hm & Hd & H0 & H2). rewrite length_app in Hlt.
    pose proof (uncles_lt _ _ _ (represents_parents _ _ Depth Ht ltac:(lia) Hl) Hd) as HdD.
    destruct (append_spec Depth HD c m2 x Hc ltac:(lia)) as (c' & -> & Hc'). cbn [bindR].
    pose proof (is_complete_spec _ _ (cursor_depth w) Hc' ltac:(lia)) as Hcomp. rewrite length_app in Hcomp. cbn [length] in Hcomp.
    destruct (is_complete c' (cursor_depth w)).
    + assert (Hfull : length (m2 ++ [x]) = 2 ^ cursor_depth w) by (rewrite length_app; cbn; by apply Hcomp).
      rewrite (root_spec Depth c' (m2 ++ [x]) [] [] (cursor_depth w)); [|done|by destruct m2| |lia|done].
      2: { apply (represents_parents _ _ _ Hc' H0). lia. }
      cbn [bindR]. eexists. split; [done|]. split; [done|]. unfold witnesses. split_and!; [done..|]. cbn [tree filled cursor].
      exists (m1 ++ m2 ++ [x]), []. rewrite !app_nil_r, <- app_assoc. split_and!; [done| |done]. by apply filled_by_snoc.
    + eexists. split; [done|]. split; [done|]. unfold witnesses. split_and!; [done..|]. cbn [tree filled cursor cursor_depth].
      exists m1, (m2 ++ [x]). rewrite <- app_assoc. split_and!; [done..|by destruct m2|done|done|].
      rewrite length_app. cbn [length]. assert (length m2 + 1 <> 2 ^ cursor_depth w) by (intros E; apply Hcomp in E; done). lia.
  - subst. rewrite app_nil_r in *. destruct (filled_by_length _ _ _ Hf) as [Hfl Hml].
    pose proof (capacity_uncles _ leaves Ht Hne Hl) as Hcap.
    destruct (next_depth_uncles _ _ (length (filled w)) Ht Hne Hl) as [Hin Hout]. cbn in Hin, Hout.
    destruct (Nat.leb_spec Depth (next_depth (tree w) (length (filled w)))) as [Hge|Hge]; cbn [negb].
    { specialize (Hout Hge). rewrite take_ge in Hml by done. lia. }
    specialize (Hin Hge). destruct (Nat.eqb_spec (next_depth (tree w) (length (filled w))) 0) as [E|E].
    + eexists. split; [done|]. split; [done|]. unfold witnesses. split_and!; [done..|]. cbn [tree filled cursor]. exists (m1 ++ [x]), []. rewrite app_nil_r.
      split_and!; [done| |done]. rewrite E in Hin. by apply (filled_by_snoc _ _ _ 0 [x]).
    + destruct (append_spec Depth HD empty_tree [] x empty_represents) as (c' & -> & Hc').
      { apply Nat.neq_0_lt_0, Nat.pow_nonzero. done. }
      cbn [bindR]. eexists. split; [done|]. split; [done|]. unfold witnesses. split_and!; [done..|]. cbn [tree filled cursor cursor_depth].
      exists m1, [x]. split_and!; [done..|lia|]. cbn [length]. apply Nat.pow_gt_1; lia.
Qed.

Lemma witness_append_full w leaves ms x :
  witnesses w leaves ms -> length leaves + length ms = 2 ^ Depth -> witness_append Depth w x = Err TreeFull.
Proof using HD.
  intros (Ht & Hne & Hl & m1 & m2 & -> & Hf & Hc) Hfull. unfold witness_append.
  destruct (filled_by_length _ _ _ Hf) as [Hfl Hml]. pose proof (capacity_uncles _ leaves Ht Hne Hl) as Hcap.
  rewrite <- (take_drop (length (filled w)) (uncles (tree w) Depth)), capacity_app, <- Hml in Hcap. rewrite length_app in Hfull.
  destruct (cursor w) as [c|].
  - destruct Hc as (_ & _ & Hd & _ & H2). rewrite (drop_S _ _ _ Hd) in Hcap. cbn [capacity foldr] in Hcap. lia.
  - subst m2. cbn [length] in Hfull. destruct (next_depth_uncles _ _ (length (filled w)) Ht Hne Hl) as [Hin _]. cbn in Hin.
    destruct (Nat.leb_spec Depth (next_depth (tree w) (length (filled w)))) as [Hge|Hge]; [done|]. specialize (Hin Hge).
    rewrite (drop_S _ _ _ Hin) in Hcap. cbn [capacity foldr] in Hcap.
    pose proof (pow2_nz (next_depth (tree w) (length (filled w)))). lia.
Qed.

Lemma witness_root_spec w leaves ms :
  witnesses w leaves ms -> witness_root Depth w = Ok (full_root Depth (leaves ++ ms)).
Proof using L HD.
  intros Hw. destruct (partial_path_spec _ _ _ Hw) as (fs & Hp & Hf). destruct Hw as (Ht & Hne & Hl & _).
  unfold witness_root. rewrite Hp. cbn [bindR]. apply (root_spec Depth); [done..| |lia|done].
  apply (represents_parents _ _ _ Ht); lia.
Qed.
End witness.

(** *** Bits of paths *)

Section bits.
Definition le_bits (l : list bool) : Z := foldr (fun b n => Z.b2z b + 2 * n) 0 l.

Lemma le_bits_app l1 l2 : le_bits (l1 ++ l2) = le_bits l1 + 2 ^ length l1 * le_bits l2.
Proof.
  unfold le_bits. induction l1 as [|b l1 IH]; cbn [app foldr length]; [change (2 ^ 0%nat) with 1; lia|].
  rewrite IH, Nat2Z.inj_succ, Z.pow_succ_r by lia. lia.
Qed.

Lemma le_bits_range l : 0 <= le_bits l < 2 ^ length l.
Proof.
  induction l as [|b l IH]; cbn [le_bits foldr length]; [done|]. fold (le_bits l).
  rewrite Nat2Z.inj_succ, Z.pow_succ_r by lia. destruct b; cbn [Z.b2z]; lia.
Qed.

Lemma le_bits_false n : le_bits (replicate n false) = 0.
Proof. induction n as [|n IH]; [done|]. cbn [replicate le_bits foldr Z.b2z]. fold (le_bits (replicate n false)). lia. Qed.

Lemma vector_to_int_spec v : forall r, vector_to_int v (r * 2 ^ length v) = r * 2 ^ length v + le_bits (rev v).
Proof.
  induction v as [|b v IH]; intros r; cbn [vector_to_int rev length]; [by rewrite Z.add_0_r|].
  rewrite le_bits_app, length_rev, Nat2Z.inj_succ, Z.pow_succ_r, Z.shiftl_1_l by lia. pose proof (pow2_pos (length v)).
  replace (if b then Z.lor (r * (2 * 2 ^ length v)) (2 ^ length v) else r * (2 * 2 ^ length v))
    with ((2 * r + Z.b2z b) * 2 ^ length v).
  - rewrite IH. unfold le_bits. cbn [foldr]. destruct b; cbn [Z.b2z]; lia.
  - destruct b; cbn [Z.b2z]; [|lia]. rewrite Z.lor_comm.
    replace (r * (2 * 2 ^ length v)) with (r * 2 ^ (length v + 1)) by (rewrite Z.pow_add_r by lia; lia).
    rewrite lor_disjoint; [|lia|split; [lia|apply Z.pow_lt_mono_r; lia]]. rewrite Z.pow_add_r by lia. lia.
Qed.

Lemma convertVectorToInt_spec v : (length v <= 64)%nat -> convertVectorToInt (rev v) = Some (le_bits v).
Proof.
  intros Hl. unfold convertVectorToInt. rewrite length_rev. destruct (Nat.ltb_spec 64 (length v)); [lia|].
  f_equal. pose proof (vector_to_int_spec (rev v) 0) as E. by rewrite rev_involutive in E.
Qed.

Lemma le_bits_testbit l : forall (i : nat) b, l !! i = Some b -> Z.testbit (le_bits l) i = b.
Proof.
  induction l as [|c l IH]; intros [|i] b Hi; cbn [lookup list_lookup] in Hi; try done; simplify_eq; cbn [le_bits foldr]; fold (le_bits l).
  - rewrite Z.add_comm. apply Z.testbit_0_r.
  - rewrite Z.add_comm, Nat2Z.inj_succ, Z.testbit_succ_r by lia. by apply IH.
Qed.

(** A byte's bits, packed. *)
Lemma pack_bit_at dn x r (j : nat) b : (j < 8)%nat ->
  pack_bit (dn ++ x :: r) (8 * length dn + j) b = dn ++ to_u8 (Z.lor x (Z.shiftl (Z.b2z b) (7 - j))) :: r.
Proof.
  intros Hj. unfold pack_bit. replace ((8 * length dn + j) / 8)%nat with (length dn).
  2: { symmetry. rewrite Nat.mul_comm, Nat.div_add_l, Nat.div_small by lia. lia. }
  replace ((8 * length dn + j) mod 8)%nat with j.
  2: { symmetry. rewrite Nat.mul_comm, Nat.add_comm, Nat.Div0.mod_add, Nat.mod_small by lia. done. }
  rewrite alter_app_r_alt by lia. by rewrite Nat.sub_diag.
Qed.

Fixpoint pack_byte (x : Z) (j : nat) (bits : list bool) : Z :=
  match bits with [] => x | b :: bits => pack_byte (to_u8 (Z.lor x (Z.shiftl (Z.b2z b) (7 - j)))) (S j) bits end.

Lemma pack_path_byte bits : forall dn x r j rest, (j + length bits <= 8)%nat ->
  pack_path (dn ++ x :: r) (8 * length dn + j) (bits ++ rest)
  = pack_path (dn ++ pack_byte x j bits :: r) (8 * length dn + j + length bits) rest.
Proof.
  induction bits as [|b bits IH]; intros dn x r j rest Hj; cbn [app pack_path pack_byte length] in *; [by rewrite Nat.add_0_r|].
  rewrite pack_bit_at by lia. rewrite <- Nat.add_succ_r, IH by lia. f_equal. lia.
Qed.

Lemma pack_byte_bits c : uint 8 c -> pack_byte 0 0 (byte_bits c) = c.
Proof.
  intros Hc. apply Z.eqb_eq. apply (byte_cases (fun c => pack_byte 0 0 (byte_bits c) =? c)); [by vm_compute|done].
Qed.

Lemma length_byte_bits c : length (byte_bits c) = 8%nat.
Proof. done. Qed.

Lemma pack_path_convert v : forall dn, bytes_ok v ->
  pack_path (dn ++ replicate (length v) 0) (8 * length dn) (convertBytesVectorToVector v) = dn ++ v.
Proof.
  induction v as [|c v IH]; intros dn Hv; [done|]. apply Forall_cons in Hv as [Hc Hv].
  cbn [length replicate]. unfold convertBytesVectorToVector. cbn [map concat]. fold (convertBytesVectorToVector v).
  rewrite <- (Nat.add_0_r (8 * length dn)), pack_path_byte by (rewrite length_byte_bits; lia).
  rewrite pack_byte_bits, length_byte_bits by done.
  specialize (IH (dn ++ [c]) Hv). rewrite <- !app_assoc, length_app in IH. cbn [app length] in IH. rewrite <- IH. f_equal. lia.
Qed.

Lemma length_convert v : length (convertBytesVectorToVector v) = (8 * length v)%nat.
Proof.
  induction v as [|c v IH]; [done|]. unfold convertBytesVectorToVector in *. cbn [map concat length]. rewrite length_app, IH, length_byte_bits. lia.
Qed.

Lemma path_bytes_convert v : bytes_ok v -> path_bytes (convertBytesVectorToVector v) = v.
Proof.
  intros Hv. unfold path_bytes. rewrite length_convert. replace ((8 * length v + 7) / 8)%nat with (length v).
  - exact (pack_path_convert v [] Hv).
  - symmetry. rewrite Nat.mul_comm, Nat.div_add_l by lia. change (7 / 8)%nat with 0%nat. lia.
Qed.
End bits.

Abbreviation occupied ps := (map (fun p : option bytes => if p then true else false) ps).

Lemma reps_bits {TH : TreeHash} ps : forall d l, reps_parents d ps l -> Z.of_nat (length l) = 2 ^ d * le_bits (occupied ps).
Proof.
  induction ps as [|p ps IH]; intros d l Hl; cbn [reps_parents map le_bits foldr] in *; [subst; cbn; lia|].
  fold (le_bits (occupied ps)). destruct p as [p|]; cbn [Z.b2z].
  - destruct Hl as (l1 & l2 & -> & H2 & _ & Hl). apply IH in Hl. rewrite Nat2Z.inj_succ, Z.pow_succ_r in Hl by lia.
    rewrite length_app, H2, Nat2Z.inj_add, Hl, pow2_Z. lia.
  - apply IH in Hl. rewrite Nat2Z.inj_succ, Z.pow_succ_r in Hl by lia. lia.
Qed.

(** *** Hashes are 32 bytes *)

Abbreviation hash_ok := (flat_ok 32).
Definition opt_hash_ok (o : option bytes) : Prop := match o with Some h => hash_ok h | None => True end.
Definition tree_ok (Depth : nat) (t : IncrementalMerkleTree) : Prop :=
  opt_hash_ok (left t) /\ opt_hash_ok (right t) /\ vec_ok opt_hash_ok (parents t) /\ wfcheck Depth t = Ok tt.
Definition witness_ok (Depth : nat) (w : IncrementalWitness) : Prop :=
  tree_ok Depth (tree w) /\ vec_ok hash_ok (filled w)
  /\ match cursor w with Some c => tree_ok Depth c | None => True end
  /\ cursor_depth w = next_depth (tree w) (length (filled w)).

Lemma check_lawful check : Lawful (check_codec check) (fun _ => check = Ok tt).
Proof.
  split.
  - intros [] Hc. exists []. cbn. rewrite Hc. by split_and!.
  - intros s [] s' Hs H. cbn in H. destruct check as [[]|]; [|done]. injection H as <-. split; [done|]. by exists [].
Qed.

#[export] Instance tree_lawful Depth : Lawful (tree_codec Depth) (tree_ok Depth).
Proof.
  assert (Ho : Lawful (optional_codec uint256_codec) opt_hash_ok) by (apply optional_lawful, _).
  assert (Hf : Lawful tree_fields (fun '(l, f) => opt_hash_ok l /\ (fun '(r, ps) => opt_hash_ok r /\ vec_ok opt_hash_ok ps) f)).
  { apply seq2_lawful; [done|]. apply seq2_lawful; [done|]. apply vector_of_lawful; [done|lia]. }
  eapply struct_lawful; [apply seq_lawful; [exact Hf|intros f; apply check_lawful]| |].
  - intros [l r ps] (?&?&?&?). done.
  - intros [[l [r ps]] []] [(?&?&?) ?]. done.
Qed.

#[export] Instance witness_lawful Depth : Lawful (witness_codec Depth) (witness_ok Depth).
Proof.
  eapply struct_lawful.
  - apply seq2_lawful; [apply _|]. apply seq2_lawful; [apply vector_of_lawful; [apply _|lia]|apply _].
  - intros [t fs c d] (?&?&?&?). cbn in *. by subst.
  - intros [t [fs c]] (?&?&?). done.
Qed.

Lemma holes_length ps : forall d, (length (holes ps d) <= length ps)%nat.
Proof. induction ps as [|[p|] ps IH]; intros d; cbn; [done|..]; specialize (IH (S d)); lia. Qed.

Section hashes_ok.
Context {TH : TreeHash} (Depth : nat) {L : TreeHashLaws TH Depth} (HD : (1 <= Depth <= 64)%nat).

Lemma full_root_ok d : forall leaves, Forall hash_ok leaves -> hash_ok (full_root d leaves).
Proof using L.
  induction d as [|d IH]; intros leaves Hl; cbn [full_root].
  - destruct leaves as [|x leaves]; [apply uncommitted_ok|]. by apply Forall_cons in Hl as [? _].
  - apply combine_ok; apply IH; [by apply Forall_take|by apply Forall_drop].
Qed.

Lemma reps_ok ps : forall d l, reps_parents d ps l -> Forall hash_ok l -> Forall opt_hash_ok ps.
Proof using L.
  induction ps as [|[p|] ps IH]; intros d l Hl Hok; cbn [reps_parents] in Hl.
  - constructor.
  - destruct Hl as (l1 & l2 & -> & H2 & -> & Hl). apply Forall_app in Hok as [? ?]. constructor; [by apply full_root_ok|eauto].
  - constructor; [done|eauto].
Qed.

Lemma represents_ok t leaves :
  represents t leaves -> Forall hash_ok leaves -> (length leaves <= 2 ^ Depth)%nat -> tree_ok Depth t.
Proof using L HD.
  intros Ht Hok Hl. pose proof (represents_parents t leaves Depth Ht ltac:(lia) Hl) as Hp.
  pose proof (wfcheck_spec Depth t leaves Ht ltac:(lia) Hl) as Hwf. destruct Ht as [_ Ht].
  assert (Hv : Forall opt_hash_ok (parents t) -> vec_ok opt_hash_ok (parents t)).
  { intros Hf. split; [|done]. unfold size_ok, MAX_SIZE. lia. }
  unfold tree_ok. destruct t as [[a|] [b|] ps]; cbn [left right parents opt_hash_ok] in *; [| |done|].
  - destruct Ht as (l & -> & Hr). apply Forall_app in Hok as [? Hok]. apply Forall_cons in Hok as [? Hok].
    apply Forall_cons in Hok as [? _]. split_and!; try done. eauto using reps_ok.
  - destruct Ht as (l & -> & Hr). apply Forall_app in Hok as [? Hok]. apply Forall_cons in Hok as [? _].
    split_and!; try done. eauto using reps_ok.
  - destruct Ht as [-> _]. by split_and!.
Qed.

Lemma filled_ok fs : forall ds ms, filled_by fs ds ms -> Forall hash_ok ms -> Forall hash_ok fs.
Proof using L.
  induction fs as [|f fs IH]; intros [|d ds] ms Hf Hm; cbn in Hf; try done; [constructor..|].
  destruct Hf as (a & b & -> & _ & -> & Hf). apply Forall_app in Hm as [? ?]. constructor; [by apply full_root_ok|eauto].
Qed.

Lemma uncles_length t : (length (parents t) < Depth)%nat -> (length (uncles t Depth) <= Depth)%nat.
Proof using HD.
  intros Hp. unfold uncles. rewrite !length_app, length_seq. pose proof (holes_length (parents t) 1). destruct (right t); cbn; lia.
Qed.

(** A witness as it is after being written and read. *)
Definition restored (w : IncrementalWitness) : IncrementalWitness :=
  Witness (tree w) (filled w) (cursor w) (next_depth (tree w) (length (filled w))).

Lemma restored_depth w leaves ms :
  witnesses Depth w leaves ms -> cursor w <> None -> next_depth (tree w) (length (filled w)) = cursor_depth w.
Proof using HD.
  intros (Ht & Hne & Hl & m1 & m2 & -> & Hf & Hc) Hcur. destruct (cursor w) as [c|]; [|done].
  destruct Hc as (Hc & Hm & Hd & H0 & H2). pose proof (represents_parents _ _ Depth Ht ltac:(lia) Hl) as Hp.
  pose proof (uncles_lt Depth HD _ _ _ Hp Hd) as HdD. apply lookup_lt_Some in Hd as Hlt.
  destruct (next_depth_uncles Depth HD _ _ (length (filled w)) Ht Hne Hl) as [Hin Hout]. cbn in Hin, Hout.
  destruct (decide (next_depth (tree w) (length (filled w)) < Depth)%nat) as [Hn|Hn]; [|lia]. apply Hin in Hn. congruence.
Qed.

Lemma restored_same w leaves ms :
  witnesses Depth w leaves ms -> partial_path (restored w) = partial_path w
    /\ forall x, witness_append Depth (restored w) x = witness_append Depth w x.
Proof using HD.
  intros Hw. pose proof (restored_depth w leaves ms Hw) as E.
  unfold partial_path, witness_append. cbn [restored tree filled cursor cursor_depth]. destruct (cursor w); [|done]. by rewrite E.
Qed.

Lemma witnesses_ok w leaves ms :
  witnesses Depth w leaves ms -> Forall hash_ok (leaves ++ ms) -> witness_ok Depth (restored w).
Proof using L HD.
  intros (Ht & Hne & Hl & m1 & m2 & -> & Hf & Hc) Hok. rewrite !Forall_app in Hok. destruct Hok as (Hok & Hok1 & Hok2).
  pose proof (represents_parents _ _ Depth Ht ltac:(lia) Hl) as Hp. unfold witness_ok, restored. cbn [tree filled cursor cursor_depth].
  split_and!; [by eapply represents_ok| |  |done].
  - split; [|by eapply filled_ok]. destruct (filled_by_length _ _ _ Hf). pose proof (uncles_length _ Hp). unfold size_ok, MAX_SIZE. lia.
  - destruct (cursor w) as [c|]; [|done]. destruct Hc as (Hc & _ & Hd & _ & H2). eapply represents_ok; [done..|].
    pose proof (uncles_lt Depth HD _ _ _ Hp Hd). assert (2 ^ cursor_depth w <= 2 ^ Depth)%nat by (apply Nat.pow_le_mono_r; lia). lia.
Qed.

Lemma fills_ok fs : forall ds ms, fills fs ds ms -> Forall hash_ok ms -> Forall hash_ok fs.
Proof using L.
  induction fs as [|f fs IH]; intros [|d ds] ms Hf Hm; cbn in Hf; try done; [constructor..|]. destruct Hf as [-> Hf].
  constructor; [by apply full_root_ok, Forall_take|]. eapply IH; [done|by apply Forall_drop].
Qed.
End hashes_ok.

(** *** SHA256Compress *)

Lemma sha_absorbed a b : hash_ok a -> hash_ok b ->
  sha256_FinalizeNoPadding (Write (Write (fresh CSHA256) a) b) true
  = Some (write_words8 WriteBE32 (fips_sha256 sha256_Initialize (a ++ b))).
Proof.
  intros [Ha _] [Hb _]. pose proof (Write_absorbed _ _ b (fresh_absorbed CSHA256 a)) as (Hn & Hs & _).
  assert (Hlen : length (a ++ b) = 64%nat) by (rewrite length_app; lia).
  unfold sha256_FinalizeNoPadding. rewrite Hs, Hn, Hlen. change (true && negb (wrap 64 64%nat =? 64)) with false. cbv iota.
  unfold chain_state. rewrite Hlen. change (64 / BLOCK)%nat with 1%nat. cbn [blocks fold_left].
  rewrite take_ge by (rewrite Hlen; done). exact (f_equal (fun w => Some (write_words8 WriteBE32 w)) (sha256_Transform_fips _ _)).
Qed.

Lemma sha_table : forall d, (d < 65)%nat ->
  exists e, sha256_empty_roots !! d = Some e /\ sha256_empty_roots !! S d = Some (sha_combine e e d).
Proof.
  assert (E : forallb (fun d => match sha256_empty_roots !! d, sha256_empty_roots !! S d with
                                | Some e, Some f => bool_decide (f = sha_combine e e d)
                                | _, _ => false end) (seq 0 65) = true) by (vm_compute; reflexivity).
  intros d Hd. rewrite forallb_forall in E. specialize (E d). rewrite in_seq in E. specialize (E ltac:(lia)).
  destruct (sha256_empty_roots !! d) as [e|]; [|done]. destruct (sha256_empty_roots !! S d) as [f|]; [|done].
  apply bool_decide_eq_true in E as ->. eauto.
Qed.

Lemma sha_EmptyRoot d : (d <= 65)%nat -> EmptyRoot d = Some (full_root d []).
Proof.
  induction d as [|d IH]; intros Hd; [vm_compute; reflexivity|]. specialize (IH ltac:(lia)).
  destruct (sha_table d ltac:(lia)) as (e & He & Hf). cbn [EmptyRoot SHA256Compress] in *.
  rewrite He in IH. injection IH as ->. rewrite Hf. cbn [full_root]. by rewrite take_nil, drop_nil.
Qed.

#[export] Instance sha_laws Depth : (Depth <= 65)%nat -> TreeHashLaws SHA256Compress Depth.
Proof.
  intros HD. split.
  - intros d Hd. apply sha_EmptyRoot. lia.
  - intros a b d Ha Hb. cbn [combine SHA256Compress]. unfold sha_combine. rewrite sha_absorbed by done. cbn [default].
    destruct (words8_output WriteBE32 (fips_sha256 sha256_Initialize (a ++ b))) as [? ?]; [intros; apply word_output_ok|].
    split; assumption.
  - split; [done|]. by apply Forall_replicate.
Qed.

(** *** Properties *)

(** The witness after more leaves are appended. *)
Fixpoint witness_append_all {TH : TreeHash} (Depth : nat) (w : IncrementalWitness) (ms : list bytes)
  : result tree_error IncrementalWitness :=
  match ms with
  | [] => Ok w
  | m :: ms => let* w := witness_append Depth w m in witness_append_all Depth w ms
  end.

(** What the circuit computes from a path and a leaf. *)
Definition authenticate {TH : TreeHash} (p : MerklePath) (leaf : bytes) : bytes :=
  climb (zip (rev (index p)) (rev (map path_bytes (authentication_path p)))) 0 leaf.

Section properties.
Context {TH : TreeHash} (Depth : nat) {L : TreeHashLaws TH Depth} (HD : (1 <= Depth <= 64)%nat).
#[local] Instance tree_of_depth : MerkleTree IncrementalMerkleTree := note_tree Depth.

Lemma tree_represented more : forall t leaves,
  represents t leaves -> (length leaves + length more <= 2 ^ Depth)%nat ->
  exists t', append_all t more = Some t' /\ represents t' (leaves ++ more).
Proof using HD.
  induction more as [|x more IH]; intros t leaves Ht Hl; cbn [append_all length] in *; [exists t; by rewrite app_nil_r|].
  destruct (append_spec Depth HD t leaves x Ht ltac:(lia)) as (t1 & Ha & Ht1).
  destruct (IH t1 (leaves ++ [x]) Ht1) as (t' & ? & ?); [rewrite length_app; cbn; lia|].
  exists t'. cbn [tree_append tree_of_depth note_tree]. rewrite Ha. by rewrite <- app_assoc in *.
Qed.

Lemma tree_overflows more : forall t leaves,
  represents t leaves -> (length leaves <= 2 ^ Depth < length leaves + length more)%nat -> append_all t more = None.
Proof using HD.
  induction more as [|x more IH]; intros t leaves Ht Hl; cbn [append_all length] in *; [lia|].
  cbn [tree_append tree_of_depth note_tree]. destruct (decide (length leaves = 2 ^ Depth)%nat) as [E|E].
  - by rewrite (append_full Depth HD t leaves x Ht E).
  - destruct (append_spec Depth HD t leaves x Ht ltac:(lia)) as (t1 & -> & Ht1).
    apply (IH t1 (leaves ++ [x]) Ht1). rewrite length_app. cbn. lia.
Qed.

Lemma tree_root_spec t leaves :
  represents t leaves -> (length leaves <= 2 ^ Depth)%nat -> root t Depth [] = Ok (full_root Depth leaves).
Proof using L HD.
  intros Ht Hl. destruct (decide (leaves = [])) as [->|Hne].
  - rewrite (represents_nil _ Ht). apply (root_empty Depth); lia.
  - rewrite (root_spec Depth t leaves [] [] Depth); [by rewrite app_nil_r|done..| |lia|done].
    apply (represents_parents _ _ _ Ht); lia.
Qed.

Lemma witness_appends more : forall w leaves ms,
  witnesses Depth w leaves ms -> (length leaves + length ms + length more <= 2 ^ Depth)%nat ->
  exists w', witness_append_all Depth w more = Ok w' /\ tree w' = tree w /\ witnesses Depth w' leaves (ms ++ more).
Proof using L HD.
  induction more as [|x more IH]; intros w leaves ms Hw Hl; cbn [witness_append_all length] in *.
  - exists w. by rewrite app_nil_r.
  - destruct (witness_append_spec Depth HD w leaves ms x Hw ltac:(lia)) as (w1 & -> & E & Hw1). cbn [bindR].
    destruct (IH w1 leaves (ms ++ [x]) Hw1) as (w' & ? & ? & ?); [rewrite length_app; cbn; lia|].
    exists w'. rewrite <- app_assoc in *. split_and!; [done|congruence|done].
Qed.

(** C14: the incremental tree is the Merkle tree of its leaves. From the empty
    tree any list of at most 2^Depth leaves can be appended, and not one leaf
    more; the root is the root of the complete tree of that depth over the
    leaves, padded with the uncommitted leaf; the last leaf is reported, the
    tree is complete exactly when it is full, and its form passes the check made
    when trees are read. The size is the number of leaves up to 2^31 leaves;
    above that, in the Sapling tree, it is 2^32 short modulo 2^64. *)
Theorem note_tree_refines (leaves : list bytes) :
  ((length leaves <= 2 ^ Depth)%nat ->
   exists t, append_all tree_empty leaves = Some t
     /\ root t Depth [] = Ok (full_root Depth leaves) /\ tree_root t = full_root Depth leaves
     /\ (leaves <> [] -> tree_last t = Ok (default [] (last leaves)))
     /\ (is_complete t Depth = true <-> length leaves = (2 ^ Depth)%nat)
     /\ wfcheck Depth t = Ok tt
     /\ (Z.of_nat (length leaves) <= 2 ^ 32 ->
         tree_size t = to_u64 (length leaves - (if 2 ^ 31 <? length leaves then 2 ^ 32 else 0))))
  /\ ((2 ^ Depth < length leaves)%nat -> append_all tree_empty leaves = None).
Proof using L HD.
  split; intros Hl.
  - destruct (tree_represented leaves _ _ empty_represents) as (t & Ha & Ht); [done|]. exists t.
    pose proof (tree_root_spec t leaves Ht Hl) as Hr. split_and!; [done..| | | | |].
    + cbn [tree_root tree_of_depth note_tree]. by rewrite Hr.
    + intros Hne. by destruct (represents_split _ _ Ht Hne) as (_ & _ & _ & _ & _ & _ & E).
    + by apply is_complete_spec.
    + apply (wfcheck_spec _ _ _ Ht); [lia|done].
    + by apply size_spec.
  - apply (tree_overflows leaves _ [] empty_represents). cbn. lia.
Qed.

Lemma next_ok fs d h fs' :
  filler_next fs d = Ok (h, fs') -> (d <= Depth)%nat -> Forall hash_ok fs -> hash_ok h /\ Forall hash_ok fs'.
Proof using L HD.
  intros Hn Hd Hf. destruct fs as [|f fs]; cbn [filler_next] in Hn.
  - rewrite EmptyRoot_spec in Hn by done. simplify_eq. split; [|done]. by apply (full_root_ok Depth).
  - simplify_eq. by apply Forall_cons in Hf.
Qed.

Abbreviation levels_hash_ok := (Forall (fun l : bool * bytes => hash_ok (snd l))).

Lemma path_parents_ok ps : forall d fs path fs',
  path_parents ps d fs = Ok (path, fs') -> (d + length ps <= Depth)%nat -> Forall opt_hash_ok ps -> Forall hash_ok fs ->
  levels_hash_ok path /\ Forall hash_ok fs'.
Proof using L HD.
  induction ps as [|[p|] ps IH]; intros d fs path fs' Hp Hd Hps Hf; cbn [path_parents length] in *; [by simplify_eq|..];
    apply Forall_cons in Hps as [Hp0 Hps].
  - apply bindR_Ok in Hp as ([path1 fs1] & Hp & [= <- <-]). apply IH in Hp as [? ?]; [|lia|done..]. by split; [constructor|].
  - apply bindR_Ok in Hp as ([h fs1] & Hn & Hp). apply bindR_Ok in Hp as ([path1 fs2] & Hp & [= <- <-]).
    apply next_ok in Hn as [? ?]; [|lia|done]. apply IH in Hp as [? ?]; [|lia|done..]. by split; [constructor|].
Qed.

Lemma path_above_ok n : forall d fs path,
  path_above n d fs = Ok path -> (d + n <= S Depth)%nat -> Forall hash_ok fs -> levels_hash_ok path.
Proof using L HD.
  induction n as [|n IH]; intros d fs path Hp Hd Hf; cbn [path_above] in Hp; [by simplify_eq|].
  apply bindR_Ok in Hp as ([h fs1] & Hn & Hp). apply bindR_Ok in Hp as (path1 & Hp & [= <-]).
  apply next_ok in Hn as [? ?]; [|lia|done]. apply IH in Hp; [|lia|done]. by constructor.
Qed.

Lemma levels_ok t fs lv : levels Depth t fs = Ok lv -> tree_ok Depth t -> Forall hash_ok fs -> levels_hash_ok lv.
Proof using L HD.
  intros Hlv (Hl & Hr & [_ Hps] & Hwf) Hf. unfold levels in Hlv.
  assert (Hlen : (length (parents t) < Depth)%nat).
  { unfold wfcheck in Hwf. destruct (Nat.leb_spec Depth (length (parents t))); [done|lia]. }
  destruct (left t) as [l|]; [|done]. apply bindR_Ok in Hlv as ([first fs1] & Hfirst & Hlv).
  assert (hash_ok (snd first) /\ Forall hash_ok fs1) as [Hf0 Hf1].
  { destruct (right t); [by simplify_eq|]. apply bindR_Ok in Hfirst as ([h fs2] & Hn & [= <- <-]). by apply next_ok in Hn; [|lia|]. }
  apply bindR_Ok in Hlv as ([path fs2] & Hp & Hlv). apply bindR_Ok in Hlv as (above & Hab & [= <-]).
  apply path_parents_ok in Hp as [? ?]; [|lia|done..]. apply path_above_ok in Hab; [|lia|done]. constructor; [done|]. by apply Forall_app.
Qed.

(** A path as it is made from its levels. *)
Definition path_of (lv : list (bool * bytes)) : MerklePath :=
  Path (rev (map (fun '(_, b) => convertBytesVectorToVector b) lv)) (rev (map fst lv)).

Lemma path_of_bytes lv : levels_hash_ok lv -> map path_bytes (authentication_path (path_of lv)) = rev (map snd lv).
Proof using.
  intros Hok. cbn [path_of authentication_path]. rewrite map_rev, map_map. f_equal.
  induction Hok as [|[b h] lv [_ Hh] _ IH]; cbn [map snd]; [done|]. by rewrite path_bytes_convert, IH.
Qed.

Lemma authenticate_path lv leaf : levels_hash_ok lv -> authenticate (path_of lv) leaf = climb lv 0 leaf.
Proof using.
  intros Hok. unfold authenticate. rewrite path_of_bytes by done. cbn [path_of index]. rewrite !rev_involutive. f_equal.
  clear. induction lv as [|[b h] lv IH]; cbn [map fst snd zip_with]; [done|]. by f_equal.
Qed.

(** The bits of a path are the position of its leaf. *)
Lemma position_bits t leaves :
  represents t leaves -> leaves <> [] ->
  le_bits ((if right t then true else false) :: occupied (parents t) ++ replicate (Depth - S (length (parents t))) false)
  = length leaves - 1.
Proof using HD.
  intros Ht Hne. destruct (represents_split _ _ Ht Hne) as (l & tl & -> & Hr & Htl & _).
  cbn [le_bits foldr]. fold (le_bits (occupied (parents t) ++ replicate (Depth - S (length (parents t))) false)).
  rewrite le_bits_app, le_bits_false, length_app, Htl. apply reps_bits in Hr. change (2 ^ 1%nat) with 2 in Hr.
  destruct (right t); cbn [Z.b2z]; lia.
Qed.

Lemma witness_levels w leaves ms :
  witnesses Depth w leaves ms -> Forall hash_ok (leaves ++ ms) ->
  exists lv, witness_path Depth w = Ok (path_of lv) /\ levels_hash_ok lv /\ length lv = Depth
    /\ climb lv 0 (default [] (last leaves)) = full_root Depth (leaves ++ ms) /\ le_bits (map fst lv) = length leaves - 1.
Proof using L HD.
  intros Hw Hok. pose proof (witness_root_spec Depth HD w leaves ms Hw) as Hr. pose proof Hw as (Ht & Hne & Hl & _).
  destruct (partial_path_spec Depth HD w leaves ms Hw) as (fs & Hp & Hf). unfold witness_root, witness_path, path in *. rewrite Hp in *.
  cbn [bindR] in *. destruct (root_levels _ _ _ _ _ Ht Hne Hr) as (lv & Hlv & Hc & Hb). rewrite Hlv. cbn [bindR].
  apply Forall_app in Hok as [Hok1 Hok2]. exists lv. split_and!; [done| | |done|by rewrite Hb; apply position_bits].
  - eapply levels_ok; [done|by eapply (represents_ok Depth)|by eapply (fills_ok Depth)].
  - pose proof (represents_parents _ _ Depth Ht ltac:(lia) Hl).
    rewrite <- (length_map fst), Hb. cbn [length]. rewrite length_app, length_map, length_replicate. lia.
Qed.

(** C15: a witness keeps the authentication path of its leaf. Take a witness of
    the tree of [leaves] and append [ms] to it, in all at most 2^Depth leaves:
    every append succeeds, and one more fails exactly when the tree is full. The
    witness still reports its leaf; its root is the root of the tree of all
    leaves; its path has one sibling per level, hashing the leaf up the path
    gives that root, and the bits of the path are the position of the leaf,
    which is the reported one up to 2^31 leaves. *)
Theorem witness_authenticates (leaves ms : list bytes) :
  leaves <> [] -> Forall hash_ok (leaves ++ ms) -> (length leaves + length ms <= 2 ^ Depth)%nat ->
  exists t w p, append_all tree_empty leaves = Some t /\ witness_append_all Depth (witness t) ms = Ok w
    /\ element w = Ok (default [] (last leaves))
    /\ witness_root Depth w = Ok (full_root Depth (leaves ++ ms))
    /\ witness_path Depth w = Ok p /\ length (authentication_path p) = Depth
    /\ authenticate p (default [] (last leaves)) = full_root Depth (leaves ++ ms)
    /\ convertVectorToInt (index p) = Some (length leaves - 1)
    /\ (Z.of_nat (length leaves) <= 2 ^ 31 -> position w = length leaves - 1)
    /\ forall x, witness_append Depth w x = Err TreeFull <-> (length leaves + length ms)%nat = (2 ^ Depth)%nat.
Proof using L HD.
  intros Hne Hok Hlen. destruct (tree_represented leaves _ _ empty_represents) as (t & Ha & Ht); [cbn; lia|]. cbn [app] in Ht.
  destruct (witness_appends ms _ leaves [] (new_witnesses Depth t leaves Ht Hne ltac:(lia))) as (w & Hwa & Htree & Hw); [cbn; lia|].
  destruct (witness_levels w leaves ms Hw Hok) as (lv & Hp & Hlv & Hn & Hc & Hb). exists t, w, (path_of lv).
  destruct (represents_split _ _ Ht Hne) as (_ & _ & _ & _ & _ & _ & Hlast). cbn [witness tree] in Htree. unfold element, position. rewrite Htree.
  split_and!; [done..| |done| | | | |].
  - by apply witness_root_spec.
  - cbn [path_of authentication_path]. by rewrite length_rev, length_map.
  - by rewrite authenticate_path.
  - cbn [path_of index]. rewrite convertVectorToInt_spec by (rewrite length_map; lia). by rewrite Hb.
  - intros Hs. rewrite (size_spec _ _ Ht) by (etransitivity; [exact Hs|done]). destruct (Z.ltb_spec (2 ^ 31) (length leaves)); [lia|].
    assert (1 <= Z.of_nat (length leaves)) by (destruct leaves; cbn [length]; [done|lia]). clear Hlen HD.
    rewrite Z.sub_0_r, (wrap_small 64 (length leaves)), wrap_small; unfold uint; lia.
  - intros x. split; [|intros E; by apply (witness_append_full Depth HD w leaves ms)].
    intros Hx. destruct (decide (length leaves + length ms = 2 ^ Depth)%nat) as [|Hlt]; [done|].
    destruct (witness_append_spec Depth HD w leaves ms x Hw ltac:(lia)) as (w' & Hx' & _). by rewrite Hx in Hx'.
Qed.

Lemma path_roundtrip lv s : levels_hash_ok lv -> (length lv <= 64)%nat ->
  exists b, Serialize merkle_path_codec (path_of lv) = Ok b /\ Unserialize merkle_path_codec (b ++ s) = Ok (path_of lv, s).
Proof using HD.
  intros Hok Hlen. assert (Hlaw : Lawful path_fields (fun '(v, i) => vec_ok (fun v => size_ok v /\ bytes_ok v) v /\ uint 64 i)).
  { apply seq2_lawful; [apply vector_of_lawful; [apply _|lia]|apply _]. }
  destruct (lawful_rt (rev (map snd lv), le_bits (map fst lv))) as (b & Hb & _ & Hu).
  { split; [split|].
    - unfold size_ok, MAX_SIZE. rewrite length_rev, length_map. lia.
    - apply Forall_rev, Forall_map. eapply Forall_impl; [exact Hok|]. intros [c h] [Hh ?]. cbn [snd] in *. split; [|done].
      unfold size_ok, MAX_SIZE. cbn [snd]. lia.
    - pose proof (le_bits_range (map fst lv)) as Hr. rewrite length_map in Hr. split; [lia|].
      eapply Z.lt_le_trans; [apply Hr|]. apply Z.pow_le_mono_r; lia. }
  exists b. cbn [Serialize Unserialize merkle_path_codec]. rewrite path_of_bytes, Hu by done. cbn [path_of authentication_path index bindR].
  rewrite !length_rev, !length_map, Nat.eqb_refl, convertVectorToInt_spec by (by rewrite length_map). split; [exact Hb|].
  unfold path_of. do 3 f_equal.
  - rewrite map_rev, map_map. f_equal. apply map_ext. by intros [].
  - apply list_eq. intros i. rewrite list_lookup_imap, !rev_alt. change (rev_append ?l []) with (reverse l).
    destruct (decide (i < length lv)%nat) as [Hi|Hi].
    2: { rewrite !lookup_ge_None_2 by (rewrite ?length_reverse, ?length_map; lia). done. }
    rewrite !reverse_lookup by (rewrite length_map; lia). rewrite !length_map, !list_lookup_fmap.
    destruct (lookup_lt_is_Some_2 lv (length lv - S i)) as [[c h] Hx]; [lia|]. rewrite Hx. cbn [fmap option_fmap option_map snd fst].
    f_equal. apply le_bits_testbit. replace (length lv - 1 - i)%nat with (length lv - S i)%nat by lia. by rewrite list_lookup_fmap, Hx.
Qed.

(** C26: trees, witnesses and paths survive being stored. What is written for a
    tree or a path that was built by appending reads back as the same value. A
    witness reads back with the same contents, the cursor's depth recomputed, and
    goes on like the original: the same path, root and appends. Reading accepts
    only the encoding that writing gives, and only trees that pass the check. *)
Theorem note_encodings (ls mm : list bytes) (s : bytes) :
  ls <> [] -> Forall hash_ok (ls ++ mm) -> (length ls + length mm <= 2 ^ Depth)%nat ->
  (exists t w p bt bw bp, append_all tree_empty ls = Some t /\ witness_append_all Depth (witness t) mm = Ok w
    /\ witness_path Depth w = Ok p
    /\ Serialize (tree_codec Depth) t = Ok bt /\ Unserialize (tree_codec Depth) (bt ++ s) = Ok (t, s)
    /\ Serialize merkle_path_codec p = Ok bp /\ Unserialize merkle_path_codec (bp ++ s) = Ok (p, s)
    /\ Serialize (witness_codec Depth) w = Ok bw /\ Unserialize (witness_codec Depth) (bw ++ s) = Ok (restored w, s)
    /\ witness_path Depth (restored w) = Ok p /\ witness_root Depth (restored w) = witness_root Depth w
    /\ forall x, witness_append Depth (restored w) x = witness_append Depth w x)
  /\ (forall s t s', bytes_ok s -> Unserialize (tree_codec Depth) s = Ok (t, s') ->
        wfcheck Depth t = Ok tt /\ exists b, Serialize (tree_codec Depth) t = Ok b /\ s = b ++ s').
Proof using L HD.
  intros Hne Hok Hlen. split.
  - destruct (tree_represented ls _ _ empty_represents) as (t & Ha & Ht); [cbn; lia|]. cbn [app] in Ht.
    destruct (witness_appends mm _ ls [] (new_witnesses Depth t ls Ht Hne ltac:(lia))) as (w & Hwa & _ & Hw); [cbn; lia|].
    destruct (witness_levels w ls mm Hw Hok) as (lv & Hp & Hlv & Hn & _ & _). apply Forall_app in Hok as Hok'. destruct Hok' as [Hok1 _].
    destruct (lawful_rt t (represents_ok Depth HD t ls Ht Hok1 ltac:(lia))) as (bt & Hbt & _ & Hut).
    destruct (lawful_rt _ (witnesses_ok Depth HD w ls mm Hw Hok)) as (bw & Hbw & _ & Huw).
    destruct (path_roundtrip lv s Hlv ltac:(lia)) as (bp & Hbp & Hup). destruct (restored_same Depth HD w ls mm Hw) as [Epath Eapp].
    exists t, w, (path_of lv), bt, bw, bp. unfold witness_path, witness_root in *. rewrite Epath. by split_and!.
  - intros s0 t s' Hs Hu. apply lawful_canonical in Hu as ((_ & _ & _ & ?) & ?); [|done]. done.
Qed.
End properties.

(** C27: SHA256Compress is what the tree needs. Two hashes fill the block of the
    bare compression function, which is that of FIPS 180-4 from the initial
    state and never throws; and the table of empty roots, as far as it goes,
    holds the roots of trees without leaves. *)
Theorem sha_tree_hash (a b : bytes) (d e : nat) :
  hash_ok a -> hash_ok b -> (e <= 65)%nat ->
  sha256_FinalizeNoPadding (Write (Write (fresh CSHA256) a) b) true = Some (combine a b d)
  /\ combine a b d = write_words8 WriteBE32 (fips_sha256 sha256_Initialize (a ++ b))
  /\ EmptyRoot e = Some (full_root e []).
Proof.
  intros Ha Hb He. cbn [combine SHA256Compress]. unfold sha_combine. rewrite sha_absorbed by done. cbn [default]. unfold id.
  exact (conj eq_refl (conj eq_refl (sha_EmptyRoot e He))).
Qed.

(** *** Instances of the properties *)

Definition leaf (n : Z) : bytes := n :: replicate 31 0.
Lemma leaf_ok n : uint 8 n -> hash_ok (leaf n).
Proof. intros Hn. split; [done|]. constructor; [done|]. by apply Forall_replicate. Qed.

Definition seven_leaves : list bytes := map leaf (seqZ 1 7).
Definition later_leaves : list bytes := map leaf (seqZ 20 5).
Lemma leaves_ok : Forall hash_ok (seven_leaves ++ later_leaves).
Proof. repeat constructor; done. Qed.

Lemma note_tree_refines_witness :
  exists t, @append_all _ (note_tree 4) empty_tree seven_leaves = Some t
    /\ root t 4 [] = Ok (full_root 4 seven_leaves) /\ tree_size t = 7.
Proof.
  pose proof (sha_laws 4 ltac:(lia)) as L.
  destruct (note_tree_refines 4 ltac:(lia) seven_leaves) as [H _]. destruct (H ltac:(vm_compute; lia)) as (t & Ha & Hr & _ & _ & _ & _ & Hs).
  exists t. split; [exact Ha|]. split; [exact Hr|]. exact (Hs ltac:(vm_compute; discriminate)).
Defined.

Lemma witness_authenticates_witness :
  exists t w p, @append_all _ (note_tree 4) empty_tree seven_leaves = Some t
    /\ witness_append_all 4 (witness t) later_leaves = Ok w /\ witness_path 4 w = Ok p
    /\ authenticate p (leaf 7) = full_root 4 (seven_leaves ++ later_leaves) /\ convertVectorToInt (index p) = Some 6.
Proof.
  pose proof (sha_laws 4 ltac:(lia)) as L.
  destruct (witness_authenticates 4 ltac:(lia) seven_leaves later_leaves ltac:(discriminate) leaves_ok ltac:(vm_compute; lia))
    as (t & w & p & Ha & Hw & _ & _ & Hp & _ & Hc & Hi & _).
  exists t, w, p. split; [exact Ha|]. split; [exact Hw|]. split; [exact Hp|]. split; [exact Hc|exact Hi].
Defined.

Lemma note_encodings_witness :
  exists t bt, @append_all _ (note_tree 4) empty_tree seven_leaves = Some t
    /\ Serialize (tree_codec 4) t = Ok bt /\ Unserialize (tree_codec 4) (bt ++ [7]) = Ok (t, [7]).
Proof.
  pose proof (sha_laws 4 ltac:(lia)) as L.
  destruct (note_encodings 4 ltac:(lia) seven_leaves later_leaves [7] ltac:(discriminate) leaves_ok ltac:(vm_compute; lia))
    as [(t & w & p & bt & bw & bp & Ha & _ & _ & Hs & Hu & _) _].
  exists t, bt. split; [exact Ha|]. split; [exact Hs|exact Hu].
Defined.

Lemma sha_tree_hash_witness :
  sha256_FinalizeNoPadding (Write (Write (fresh CSHA256) (leaf 1)) (leaf 2)) true = Some (combine (leaf 1) (leaf 2) 0)
  /\ EmptyRoot INCREMENTAL_MERKLE_TREE_DEPTH = Some (full_root INCREMENTAL_MERKLE_TREE_DEPTH []).
Proof.
  assert (H1 : hash_ok (leaf 1)) by (by apply leaf_ok). assert (H2 : hash_ok (leaf 2)) by (by apply leaf_ok).
  destruct (sha_tree_hash (leaf 1) (leaf 2) 0 INCREMENTAL_MERKLE_TREE_DEPTH H1 H2 ltac:(vm_compute; lia)) as (E & _ & F).
  split; [exact E|exact F].
Defined.
