(* ===== verification/Validation.v ===== *)
(** * Checks of transactions (src/main.cpp, consensus/validation.h)

    The rules a transaction must obey whatever the state of the chain, and the
    ones that depend on the height only. A check that passes returns [Ok tt]; a
    failing one returns what [CValidationState] records, or the exception it
    throws. The sets of values already seen are the lists of them. *)

From S2P Require Import Prelude ArithUint Serialize Digest Sha Ripemd Hash Amount Transaction Chain Params Pow Script Merkle.
From S2P Require Import Interpreter SigHash Coins.
Local Open Scope string_scope.
Local Open Scope Z_scope.
Local Open Scope code_scope.

(** ** Definitions *)

(** [state.DoS(level, ret, code, reason, corruption)], or an exception or a
    failed assertion: of the writer, of the value sums, of a signature hash, of
    the parameters, of scripts, of the difficulty or of the coins view; or
    [state.Error], a failure of the disk. *)
Inductive reject :=
| DoS (level : Z) (chRejectCode : Z) (strRejectReason : string) (corruption : bool)
| ThrowsWriting (e : ser_error)
| ThrowsValue
| ThrowsSigHash (e : sighash_exn)
| ThrowsParam (e : param_error)
| ThrowsScript (e : script_exn)
| ThrowsPow (e : pow_error)
| ThrowsCoins (e : coins_error)
| AssertFails
| AbortNode (strMessage : string).

Definition REJECT_INVALID : Z := 0x10.
Definition REJECT_OBSOLETE : Z := 0x11.
Definition REJECT_NONSTANDARD : Z := 0x40.
Definition invalid (level : Z) (reason : string) : reject := DoS level REJECT_INVALID reason false.

Definition MAX_TX_SIZE_BEFORE_SAPLING : Z := 100000.
Definition MAX_TX_SIZE_AFTER_SAPLING : Z := MAX_BLOCK_SIZE.
Definition MAX_BLOCK_SIGOPS : Z := 20000.
Definition COINBASE_MATURITY : Z := 100.
Definition TX_EXPIRING_SOON_THRESHOLD : Z := 3.

(** *** Lock time and expiry *)

Definition IsFinalTx (t : CMutableTransaction) (nBlockHeight nBlockTime : Z) : bool :=
  if nLockTime t =? 0 then true
  else if nLockTime t <? (if nLockTime t <? LOCKTIME_THRESHOLD then nBlockHeight else nBlockTime) then true
  else forallb IsFinal (vin t).
Definition IsExpiredTx (t : CMutableTransaction) (nBlockHeight : Z) : bool :=
  if (nExpiryHeight t =? 0) || IsCoinBase t then false else nExpiryHeight t <? to_u32 nBlockHeight.
Definition IsExpiringSoonTx (t : CMutableTransaction) (nNextBlockHeight : Z) : bool :=
  IsExpiredTx t (to_i32 (nNextBlockHeight + TX_EXPIRING_SOON_THRESHOLD)).

(** *** Signature operations *)

Fixpoint count_sigops (nSigOps : Z) (scripts : list CScript) : result script_exn Z :=
  match scripts with
  | [] => Ok nSigOps
  | s :: scripts => let* n := GetSigOpCount s false in count_sigops (to_u32 (nSigOps + n)) scripts
  end.
Definition GetLegacySigOpCount (t : CMutableTransaction) : result script_exn Z :=
  let* n := count_sigops 0 (map scriptSig (vin t)) in count_sigops n (map scriptPubKey (vout t)).

(** *** Context-free checks *)

Definition GetSerializeSize (t : CMutableTransaction) : result reject Z :=
  match Serialize tx_codec t with Ok b => Ok (Z.of_nat (length b)) | Err e => Err (ThrowsWriting e) end.

Definition check_tx_version (t : CMutableTransaction) : result reject unit :=
  if negb (fOverwintered t) && (nVersion t <? SPROUT_MIN_TX_VERSION) then Err (invalid 100 "bad-txns-version-too-low")
  else if fOverwintered t then
    require negb (nVersion t <? OVERWINTER_MIN_TX_VERSION) orelse invalid 100 "bad-tx-overwinter-version-too-low" in
    require (nVersionGroupId t =? OVERWINTER_VERSION_GROUP_ID) || (nVersionGroupId t =? SAPLING_VERSION_GROUP_ID)
      orelse invalid 100 "bad-tx-version-group-id" in
    require negb (TX_EXPIRY_HEIGHT_THRESHOLD <=? nExpiryHeight t) orelse invalid 100 "bad-tx-expiry-height-too-high" in
    Ok tt
  else Ok tt.

Definition check_tx_sizes (t : CMutableTransaction) : result reject unit :=
  require nonempty (vin t) || nonempty (vJoinSplit t) || nonempty (vShieldedSpend t)
    orelse invalid 10 "bad-txns-vin-empty" in
  require nonempty (vout t) || nonempty (vJoinSplit t) || nonempty (vShieldedOutput t)
    orelse invalid 10 "bad-txns-vout-empty" in
  let* size := GetSerializeSize t in
  require negb (MAX_TX_SIZE_AFTER_SAPLING <? size) orelse invalid 100 "bad-txns-oversize" in Ok tt.

Fixpoint check_outputs (nValueOut : Z) (outs : list CTxOut) : result reject Z :=
  match outs with
  | [] => Ok nValueOut
  | o :: outs =>
      require negb (nValue o <? 0) orelse invalid 100 "bad-txns-vout-negative" in
      require negb (MAX_MONEY <? nValue o) orelse invalid 100 "bad-txns-vout-toolarge" in
      let nValueOut := to_i64 (nValueOut + nValue o) in
      require MoneyRange nValueOut orelse invalid 100 "bad-txns-txouttotal-toolarge" in
      check_outputs nValueOut outs
  end.
Definition check_value_balance (t : CMutableTransaction) (nValueOut : Z) : result reject Z :=
  require nonempty (vShieldedSpend t) || nonempty (vShieldedOutput t) || (valueBalance t =? 0)
    orelse invalid 100 "bad-txns-valuebalance-nonzero" in
  require negb ((MAX_MONEY <? valueBalance t) || (valueBalance t <? - MAX_MONEY))
    orelse invalid 100 "bad-txns-valuebalance-toolarge" in
  if valueBalance t <=? 0 then
    let nValueOut := to_i64 (nValueOut + to_i64 (- valueBalance t)) in
    require MoneyRange nValueOut orelse invalid 100 "bad-txns-txouttotal-toolarge" in Ok nValueOut
  else Ok nValueOut.
Fixpoint check_joinsplits (nValueOut : Z) (l : list JSDescription) : result reject Z :=
  match l with
  | [] => Ok nValueOut
  | j :: l =>
      require negb (vpub_old j <? 0) orelse invalid 100 "bad-txns-vpub_old-negative" in
      require negb (vpub_new j <? 0) orelse invalid 100 "bad-txns-vpub_new-negative" in
      require negb (MAX_MONEY <? vpub_old j) orelse invalid 100 "bad-txns-vpub_old-toolarge" in
      require negb (MAX_MONEY <? vpub_new j) orelse invalid 100 "bad-txns-vpub_new-toolarge" in
      require (vpub_new j =? 0) || (vpub_old j =? 0) orelse invalid 100 "bad-txns-vpubs-both-nonzero" in
      let nValueOut := to_i64 (nValueOut + vpub_old j) in
      require MoneyRange nValueOut orelse invalid 100 "bad-txns-txouttotal-toolarge" in
      check_joinsplits nValueOut l
  end.
Fixpoint check_joinsplits_in (nValueIn : Z) (l : list JSDescription) : result reject Z :=
  match l with
  | [] => Ok nValueIn
  | j :: l =>
      let nValueIn := to_i64 (nValueIn + vpub_new j) in
      require MoneyRange (vpub_new j) && MoneyRange nValueIn orelse invalid 100 "bad-txns-txintotal-toolarge" in
      check_joinsplits_in nValueIn l
  end.
Definition check_values_in (t : CMutableTransaction) : result reject unit :=
  let* nValueIn := check_joinsplits_in 0 (vJoinSplit t) in
  if 0 <=? valueBalance t then
    require MoneyRange (to_i64 (nValueIn + valueBalance t)) orelse invalid 100 "bad-txns-txintotal-toolarge" in Ok tt
  else Ok tt.

(** One loop over a set of the values seen so far. *)
Fixpoint check_distinct {A} `{EqDecision A} (e : reject) (seen l : list A) : result reject unit :=
  match l with
  | [] => Ok tt
  | a :: l => if decide (a ∈ seen) then Err e else check_distinct e (a :: seen) l
  end.

Definition check_coinbase (t : CMutableTransaction) : result reject unit :=
  if IsCoinBase t then
    require negb (nonempty (vJoinSplit t)) orelse invalid 100 "bad-cb-has-joinsplits" in
    require negb (nonempty (vShieldedSpend t)) orelse invalid 100 "bad-cb-has-spend-description" in
    require negb (nonempty (vShieldedOutput t)) orelse invalid 100 "bad-cb-has-output-description" in
    match vin t with
    | [] => Ok tt
    | i :: _ =>
        require negb ((length (scriptSig i) <? 2) || (100 <? length (scriptSig i))) orelse invalid 100 "bad-cb-length" in Ok tt
    end
  else require negb (existsb (fun i => outpoint_IsNull (prevout i)) (vin t)) orelse invalid 10 "bad-txns-prevout-null" in Ok tt.

Definition CheckTransactionWithoutProofVerification (t : CMutableTransaction) : result reject unit :=
  let* _ := check_tx_version t in
  let* _ := check_tx_sizes t in
  let* nValueOut := check_outputs 0 (vout t) in
  let* nValueOut := check_value_balance t nValueOut in
  let* _ := check_joinsplits nValueOut (vJoinSplit t) in
  let* _ := check_values_in t in
  let* _ := check_distinct (invalid 100 "bad-txns-inputs-duplicate") [] (map prevout (vin t)) in
  let* _ := check_distinct (invalid 100 "bad-joinsplits-nullifiers-duplicate") [] (concat (map js_nullifiers (vJoinSplit t))) in
  let* _ := check_distinct (invalid 100 "bad-spend-description-nullifiers-duplicate") [] (map sd_nullifier (vShieldedSpend t)) in
  check_coinbase t.

(** *** Proofs and signatures of the shielded parts *)

(** The verifiers of libsodium and librustzcash; the Sapling checks share a
    context. *)
Class ShieldedVerifier := {
  librustzcash_sprout_verify (proof rt h_sig : bytes) (macs nullifiers commitments : list bytes) (vpub_old vpub_new : Z) : bool;
  crypto_sign_verify_detached : bytes -> bytes -> bytes -> bool;
  sapling_ctx : Type;
  sapling_ctx_init : sapling_ctx;
  sapling_check_spend : sapling_ctx -> SpendDescription -> bytes -> option sapling_ctx;
  sapling_check_output : sapling_ctx -> OutputDescription -> option sapling_ctx;
  sapling_final_check : sapling_ctx -> Z -> bytes -> bytes -> bool
}.

Section checks.
Context `{Blake2b} `{ShieldedVerifier}.

(** [ZCJoinSplit::h_sig]. *)
Definition h_sig (randomSeed : bytes) (nullifiers : list bytes) (pubKeyHash : bytes) : bytes :=
  final (update (init_personal (ascii_bytes "ZcashComputehSig")) (randomSeed ++ concat nullifiers ++ pubKeyHash)%list).

(** [ProofVerifier::VerifySprout], for a strict or disabled verifier. *)
Definition VerifySprout (perform_verification : bool) (j : JSDescription) (joinSplitPubKey : bytes) : bool :=
  if negb perform_verification then true
  else
    match js_proof j with
    | PHGR _ => true
    | Groth proof =>
        librustzcash_sprout_verify proof (js_anchor j) (h_sig (js_randomSeed j) (js_nullifiers j) joinSplitPubKey)
          (js_macs j) (js_nullifiers j) (js_commitments j) (vpub_old j) (vpub_new j)
    end.

Definition CheckTransaction (verifier : bool) (t : CMutableTransaction) : result reject unit :=
  let* _ := CheckTransactionWithoutProofVerification t in
  require forallb (fun j => VerifySprout verifier j (joinSplitPubKey t)) (vJoinSplit t)
    orelse invalid 100 "bad-txns-joinsplit-verification-failed" in Ok tt.

Fixpoint check_spends (ctx : sapling_ctx) (dataToBeSigned : bytes) (l : list SpendDescription) : option sapling_ctx :=
  match l with [] => Some ctx | d :: l => ctx ← sapling_check_spend ctx d dataToBeSigned; check_spends ctx dataToBeSigned l end.
Fixpoint check_shielded_outputs (ctx : sapling_ctx) (l : list OutputDescription) : option sapling_ctx :=
  match l with [] => Some ctx | d :: l => ctx ← sapling_check_output ctx d; check_shielded_outputs ctx l end.
Definition check_sapling (t : CMutableTransaction) (dataToBeSigned : bytes) : result reject unit :=
  if nonempty (vShieldedSpend t) || nonempty (vShieldedOutput t) then
    match check_spends sapling_ctx_init dataToBeSigned (vShieldedSpend t) with
    | None => Err (invalid 100 "bad-txns-sapling-spend-description-invalid")
    | Some ctx =>
        match check_shielded_outputs ctx (vShieldedOutput t) with
        | None => Err (invalid 100 "bad-txns-sapling-output-description-invalid")
        | Some ctx =>
            require sapling_final_check ctx (valueBalance t) (bindingSig t) dataToBeSigned
              orelse invalid 100 "bad-txns-sapling-binding-signature-invalid" in Ok tt
        end
    end
  else Ok tt.

(** The hash for the current epoch; the one for the previous epoch is computed
    too and not used. *)
Definition check_shielded_signatures (t : CMutableTransaction) (ibd : bool) (branch prevBranch : Z) : result reject unit :=
  if nonempty (vJoinSplit t) || nonempty (vShieldedSpend t) || nonempty (vShieldedOutput t) then
    match (let* h := SignatureHash [] t NOT_AN_INPUT SIGHASH_ALL 0 branch None in
           let* _ := SignatureHash [] t NOT_AN_INPUT SIGHASH_ALL 0 prevBranch None in Ok h) with
    | Err logic_error => Err (invalid 100 "error-computing-signature-hash")
    | Err e => Err (ThrowsSigHash e)
    | Ok dataToBeSigned =>
        require negb (nonempty (vJoinSplit t))
                || crypto_sign_verify_detached (joinSplitSig t) dataToBeSigned (joinSplitPubKey t)
          orelse invalid (if ibd then 0 else 100) "bad-txns-invalid-joinsplit-signature" in
        check_sapling t dataToBeSigned
    end
  else Ok tt.

(** *** Checks at a height *)

Definition of_param {A} (r : result param_error A) : result reject A :=
  match r with Ok a => Ok a | Err e => Err (ThrowsParam e) end.

(** The version rules of the network upgrade that is active. *)
Definition check_upgrade_rules (t : CMutableTransaction) (overwinterActive saplingActive : bool) (nHeight dosLevel : Z) (ibd : bool)
  : result reject unit :=
  let* _ :=
    if overwinterActive then
      require fOverwintered t orelse invalid dosLevel "tx-overwintered-flag-not-set" in
      require negb (IsExpiredTx t nHeight)
        orelse invalid (if IsExpiredTx t (to_i32 (nHeight - 1)) then dosLevel else 0) "tx-overwinter-expired" in
      if saplingActive then Ok tt
      else
        require negb (OVERWINTER_MAX_TX_VERSION <? nVersion t) orelse invalid 100 "bad-tx-overwinter-version-too-high" in
        require nVersionGroupId t =? OVERWINTER_VERSION_GROUP_ID
          orelse invalid (if ibd then 0 else dosLevel) "bad-overwinter-tx-version-group-id" in Ok tt
    else require negb (fOverwintered t) orelse invalid (if ibd then 0 else dosLevel) "tx-overwinter-not-active" in Ok tt in
  if saplingActive then
    require nVersionGroupId t =? SAPLING_VERSION_GROUP_ID
      orelse invalid (if ibd then 0 else dosLevel) "bad-sapling-tx-version-group-id" in
    require negb (nVersion t <? SAPLING_MIN_TX_VERSION) orelse invalid 100 "bad-tx-sapling-version-too-low" in
    require negb (SAPLING_MAX_TX_VERSION <? nVersion t) orelse invalid 100 "bad-tx-sapling-version-too-high" in Ok tt
  else
    let* size := GetSerializeSize t in
    require negb (MAX_TX_SIZE_BEFORE_SAPLING <? size) orelse invalid 100 "bad-txns-oversize" in Ok tt.

(** Erasing the first element that an output pays; elements are different, so
    at most one is paid. *)
Definition detect_streams (elements : gset (bytes * Z)) (outs : list CTxOut) : gset (bytes * Z) :=
  foldl (fun els o => els ∖ {[ (scriptPubKey o, nValue o) ]}) elements outs.
Definition check_funding (t : CMutableTransaction) (saplingActive canopyActive : bool) (dosLevel : Z) (elements : gset (bytes * Z))
  : result reject unit :=
  let* elements :=
    if saplingActive && IsCoinBase t then
      require negb (nonempty (vShieldedOutput t)) orelse invalid dosLevel "bad-cb-has-output-description" in
      Ok (if canopyActive then detect_streams elements (vout t) else elements)
    else Ok elements in
  if canopyActive then
    require forallb (fun j => vpub_old j <=? 0) (vJoinSplit t) orelse invalid dosLevel "bad-txns-vpub_old-nonzero" in
    if IsCoinBase t then
      require bool_decide (detect_streams elements (vout t) = ∅) orelse invalid dosLevel "cb-funding-stream-missing" in Ok tt
    else Ok tt
  else Ok tt.

Definition ContextualCheckTransaction (t : CMutableTransaction) (chainparams : CChainParams) (nHeight dosLevel : Z) (ibd : bool)
  : result reject unit :=
  let params := consensus chainparams in
  let* overwinterActive := of_param (NetworkUpgradeActive params nHeight UPGRADE_OVERWINTER) in
  let* saplingActive := of_param (NetworkUpgradeActive params nHeight UPGRADE_SAPLING) in
  let* canopyActive := of_param (NetworkUpgradeActive params nHeight UPGRADE_CANOPY) in
  require negb saplingActive || overwinterActive orelse ThrowsParam ParamAssert in
  require negb canopyActive || saplingActive orelse ThrowsParam ParamAssert in
  let* _ := check_upgrade_rules t overwinterActive saplingActive nHeight dosLevel ibd in
  let* subsidy := of_param (GetBlockSubsidy nHeight params) in
  let* elements := of_param (GetActiveFundingStreamElements nHeight subsidy params) in
  let* _ := check_funding t saplingActive canopyActive dosLevel elements in
  let* branch := of_param (CurrentEpochBranchId nHeight params) in
  check_shielded_signatures t ibd branch (PrevEpochBranchId branch params).
End checks.

(** ** What the context-free checks accept *)

Lemma money_to_i64 z : 0 <= z <= 2 * MAX_MONEY -> to_i64 z = z.
Proof. intros Hz. apply swrap_small; [lia|]. unfold sint, MAX_MONEY, COIN in *. lia. Qed.

Lemma require_Ok {E A} (c : bool) (e : E) (k : result E A) a : (require c orelse e in k) = Ok a <-> c = true /\ k = Ok a.
Proof. destruct c; [tauto|]. split; [discriminate|intros []; discriminate]. Qed.

Lemma bindR_iff {E A B} (m : result E A) (k : A -> result E B) b : bindR m k = Ok b <-> exists a, m = Ok a /\ k a = Ok b.
Proof. split; [apply bindR_Ok|]. by intros (a & -> & Ha). Qed.

Lemma add_all_range total l r : 0 <= total <= MAX_MONEY -> add_all total l = Ok r -> 0 <= r <= MAX_MONEY.
Proof.
  intros Ht. rewrite add_all_spec by done. destruct (forallb MoneyRange l) eqn:E; [|done]. apply sum_nonneg in E. cbn [andb].
  destruct (Z.leb_spec (total + sum l) MAX_MONEY); [|done]. intros [= <-]. lia.
Qed.
Lemma add_in_range_iff total v r :
  0 <= total <= MAX_MONEY -> add_in_range total v = Ok r <-> 0 <= v <= MAX_MONEY /\ total + v <= MAX_MONEY /\ r = total + v.
Proof.
  intros Ht. rewrite add_in_range_spec by done. rewrite <- MoneyRange_spec. destruct (MoneyRange v); cbn [andb]; [|naive_solver].
  destruct (Z.leb_spec (total + v) MAX_MONEY); split; intros; destruct_and?; simplify_eq; auto; lia.
Qed.

Lemma check_outputs_spec total outs r :
  0 <= total <= MAX_MONEY -> check_outputs total outs = Ok r <-> add_all total (map nValue outs) = Ok r.
Proof.
  revert total. induction outs as [|o outs IH]; intros total Ht; [cbn; naive_solver|]. cbn [check_outputs map add_all].
  rewrite bindR_iff. rewrite !require_Ok, !negb_true_iff, !Z.ltb_ge. split.
  - intros (H0 & Hm & Hr & H1). rewrite money_to_i64 in Hr, H1 by lia. apply MoneyRange_spec in Hr.
    exists (total + nValue o). rewrite add_in_range_iff by done. split; [lia|]. by apply IH.
  - intros (x & Hx & Ha). apply (add_in_range_iff _ _ _ Ht) in Hx as (Hx & Hs & ->). rewrite !money_to_i64 by lia.
    split_and!; [lia|lia|apply MoneyRange_spec; lia|]. apply IH; [lia|done].
Qed.

Definition js_values_ok (j : JSDescription) : Prop := 0 <= vpub_new j <= MAX_MONEY /\ (vpub_new j = 0 \/ vpub_old j = 0).

Lemma check_joinsplits_spec total l r :
  0 <= total <= MAX_MONEY ->
  check_joinsplits total l = Ok r <-> add_all total (map vpub_old l) = Ok r /\ Forall js_values_ok l.
Proof.
  revert total. induction l as [|j l IH]; intros total Ht; [cbn; naive_solver|]. cbn [check_joinsplits map add_all].
  rewrite bindR_iff, !require_Ok, !negb_true_iff, !Z.ltb_ge, orb_true_iff, !Z.eqb_eq, Forall_cons. unfold js_values_ok at 1. split.
  - intros (H0 & H1 & H2 & H3 & H4 & Hr & H5). rewrite money_to_i64 in Hr, H5 by lia.
    apply MoneyRange_spec in Hr. apply IH in H5 as [H5 H6]; [|done]. split; [|done].
    exists (total + vpub_old j). rewrite add_in_range_iff by done. split; [lia|done].
  - intros [(x & Hx & Ha) [Hj Hl]]. apply (add_in_range_iff _ _ _ Ht) in Hx as (Hx & Hs & ->). rewrite !money_to_i64 by lia.
    split_and!; try lia; [apply MoneyRange_spec; lia|]. apply IH; [lia|done].
Qed.

Lemma check_joinsplits_in_spec total l r : check_joinsplits_in total l = Ok r <-> add_all total (map vpub_new l) = Ok r.
Proof.
  revert total. induction l as [|j l IH]; intros total; [cbn; naive_solver|]. cbn [check_joinsplits_in map add_all]. unfold add_in_range.
  destruct (MoneyRange (vpub_new j) && MoneyRange (to_i64 (total + vpub_new j))); [apply IH|cbn; naive_solver].
Qed.

Lemma check_distinct_spec {A} `{EqDecision A} e (seen l : list A) :
  check_distinct e seen l = Ok tt <-> NoDup l /\ forall a, a ∈ l -> a ∉ seen.
Proof.
  revert seen. induction l as [|a l IH]; intros seen; cbn [check_distinct].
  - split; [intros _; split; [by apply NoDup_nil|by intros a ?%elem_of_nil]|done].
  - destruct (decide (a ∈ seen)) as [Hin|Hin].
    + split; [done|]. intros [_ Hs]. by destruct (Hs a ltac:(left)).
    + rewrite IH, NoDup_cons. setoid_rewrite elem_of_cons. split.
      * intros [Hn Hs]. split_and!; [|done|intros b [->|Hb]; [done|]]; [intros Ha; apply (Hs a Ha); by left|].
        intros Hbs. apply (Hs b Hb). by right.
      * intros [[Ha Hn] Hs]. split; [done|]. intros b Hb [->|Hbs]; [done|]. apply (Hs b); auto.
Qed.

(** The rules of the context-free checks. *)
Record tx_valid (t : CMutableTransaction) : Prop := {
  tv_version :
    if fOverwintered t
    then OVERWINTER_MIN_TX_VERSION <= nVersion t
         /\ (nVersionGroupId t = OVERWINTER_VERSION_GROUP_ID \/ nVersionGroupId t = SAPLING_VERSION_GROUP_ID)
         /\ nExpiryHeight t < TX_EXPIRY_HEIGHT_THRESHOLD
    else SPROUT_MIN_TX_VERSION <= nVersion t;
  tv_source : vin t <> [] \/ vJoinSplit t <> [] \/ vShieldedSpend t <> [];
  tv_sink : vout t <> [] \/ vJoinSplit t <> [] \/ vShieldedOutput t <> [];
  tv_size : exists b, Serialize tx_codec t = Ok b /\ Z.of_nat (length b) <= MAX_TX_SIZE_AFTER_SAPLING;
  tv_out : Forall (fun v => 0 <= v <= MAX_MONEY) (values_out t) /\ sum (values_out t) <= MAX_MONEY;
  tv_in : Forall (fun v => 0 <= v <= MAX_MONEY) (shielded_values_in t) /\ sum (shielded_values_in t) <= MAX_MONEY;
  tv_balance : - MAX_MONEY <= valueBalance t <= MAX_MONEY
    /\ (vShieldedSpend t = [] -> vShieldedOutput t = [] -> valueBalance t = 0);
  tv_joinsplit : Forall (fun j => vpub_new j = 0 \/ vpub_old j = 0) (vJoinSplit t);
  tv_inputs : NoDup (map prevout (vin t));
  tv_sprout_nf : NoDup (concat (map js_nullifiers (vJoinSplit t)));
  tv_sapling_nf : NoDup (map sd_nullifier (vShieldedSpend t));
  tv_coinbase :
    if IsCoinBase t
    then vJoinSplit t = [] /\ vShieldedSpend t = [] /\ vShieldedOutput t = []
         /\ Forall (fun i => 2 <= Z.of_nat (length (scriptSig i)) <= 100) (vin t)
    else Forall (fun i => outpoint_IsNull (prevout i) = false) (vin t)
}.

Lemma add_all_iff total l r :
  0 <= total <= MAX_MONEY ->
  add_all total l = Ok r <-> Forall (fun v => 0 <= v <= MAX_MONEY) l /\ total + sum l <= MAX_MONEY /\ r = total + sum l.
Proof.
  intros Ht. rewrite add_all_spec by done. assert (Hf : forallb MoneyRange l = true <-> Forall (fun v => 0 <= v <= MAX_MONEY) l).
  { rewrite forallb_forall, List.Forall_forall. split; intros Hx v Hv; apply MoneyRange_spec; by apply Hx. }
  destruct (forallb MoneyRange l) eqn:E; cbn [andb].
  - destruct (Z.leb_spec (total + sum l) MAX_MONEY); split; intros; destruct_and?; simplify_eq; try (split_and!; [by apply Hf|done|done]); [done|lia].
  - split; [done|]. intros (Hx & _). by apply Hf in Hx.
Qed.

Lemma sum_cons v l : sum (v :: l) = v + sum l.
Proof. done. Qed.

Lemma nonempty_true {A} (l : list A) : nonempty l = true <-> l <> [].
Proof. by destruct l. Qed.
Lemma nonempty_negb {A} (l : list A) : negb (nonempty l) = true <-> l = [].
Proof. by destruct l. Qed.

Lemma check_tx_version_spec t :
  check_tx_version t = Ok tt
  <-> if fOverwintered t
      then OVERWINTER_MIN_TX_VERSION <= nVersion t
           /\ (nVersionGroupId t = OVERWINTER_VERSION_GROUP_ID \/ nVersionGroupId t = SAPLING_VERSION_GROUP_ID)
           /\ nExpiryHeight t < TX_EXPIRY_HEIGHT_THRESHOLD
      else SPROUT_MIN_TX_VERSION <= nVersion t.
Proof.
  unfold check_tx_version. destruct (fOverwintered t); cbn [negb andb].
  - rewrite !require_Ok, !negb_true_iff, orb_true_iff, !Z.eqb_eq, Z.ltb_ge, Z.leb_gt. tauto.
  - destruct (Z.ltb_spec (nVersion t) SPROUT_MIN_TX_VERSION); split; intros; try done; lia.
Qed.

(** A limit on the size of the serialization. *)
Lemma size_check_spec t limit e :
  (let* size := GetSerializeSize t in require negb (limit <? size) orelse e in Ok tt) = Ok tt
  <-> exists b, Serialize tx_codec t = Ok b /\ Z.of_nat (length b) <= limit.
Proof.
  unfold GetSerializeSize. destruct (Serialize tx_codec t) as [b|]; cbn [bindR]; [|naive_solver].
  rewrite require_Ok, negb_true_iff, Z.ltb_ge. naive_solver.
Qed.

Lemma check_tx_sizes_spec t :
  check_tx_sizes t = Ok tt
  <-> (vin t <> [] \/ vJoinSplit t <> [] \/ vShieldedSpend t <> []) /\ (vout t <> [] \/ vJoinSplit t <> [] \/ vShieldedOutput t <> [])
      /\ exists b, Serialize tx_codec t = Ok b /\ Z.of_nat (length b) <= MAX_TX_SIZE_AFTER_SAPLING.
Proof.
  unfold check_tx_sizes. rewrite !require_Ok, !orb_true_iff, !nonempty_true, size_check_spec. tauto.
Qed.

Lemma check_value_balance_spec t n r :
  0 <= n <= MAX_MONEY ->
  check_value_balance t n = Ok r
  <-> (- MAX_MONEY <= valueBalance t <= MAX_MONEY /\ (vShieldedSpend t = [] -> vShieldedOutput t = [] -> valueBalance t = 0))
      /\ add_all n (if valueBalance t <=? 0 then [to_i64 (- valueBalance t)] else []) = Ok r.
Proof.
  intros Hn. unfold check_value_balance. rewrite !require_Ok, !orb_true_iff, !nonempty_true, Z.eqb_eq, negb_true_iff, orb_false_iff, !Z.ltb_ge.
  assert (Hs : (vShieldedSpend t <> [] \/ vShieldedOutput t <> []) \/ valueBalance t = 0
               <-> (vShieldedSpend t = [] -> vShieldedOutput t = [] -> valueBalance t = 0)).
  { destruct (vShieldedSpend t), (vShieldedOutput t); naive_solver. }
  rewrite Hs. assert (Hr : - MAX_MONEY <= valueBalance t <= MAX_MONEY ->
    (if valueBalance t <=? 0 then
       let nValueOut := to_i64 (n + to_i64 (- valueBalance t)) in
       require MoneyRange nValueOut orelse invalid 100 "bad-txns-txouttotal-toolarge" in Ok nValueOut else Ok n) = Ok r
    <-> add_all n (if valueBalance t <=? 0 then [to_i64 (- valueBalance t)] else []) = Ok r).
  { intros Hb. destruct (Z.leb_spec (valueBalance t) 0) as [Hle|Hgt]; [|cbn; naive_solver]. cbn zeta.
    rewrite (money_to_i64 (- valueBalance t)) by lia. rewrite (add_all_iff n _ r Hn). cbn [sum fold_right].
    rewrite money_to_i64, require_Ok, MoneyRange_spec by lia. rewrite Forall_singleton. split.
    - intros [? [= <-]]. split_and!; lia.
    - intros (? & ? & ->). split; [lia|]. f_equal. lia. }
  split; intros; destruct_and?; split_and?; try done; try lia; apply Hr; done || lia.
Qed.

Lemma check_values_in_spec t :
  - MAX_MONEY <= valueBalance t <= MAX_MONEY ->
  check_values_in t = Ok tt
  <-> Forall (fun v => 0 <= v <= MAX_MONEY) (shielded_values_in t) /\ sum (shielded_values_in t) <= MAX_MONEY.
Proof.
  intros Hb. unfold check_values_in, shielded_values_in. rewrite bindR_iff. setoid_rewrite check_joinsplits_in_spec.
  assert (H0 : 0 <= 0 <= MAX_MONEY) by (unfold MAX_MONEY, COIN; lia). setoid_rewrite (fun r => add_all_iff 0 _ r H0).
  rewrite Forall_app. set (s := sum (map vpub_new (vJoinSplit t))).
  assert (Hs : Forall (fun v => 0 <= v <= MAX_MONEY) (map vpub_new (vJoinSplit t)) -> 0 <= s).
  { unfold s. generalize (map vpub_new (vJoinSplit t)) as l. clear. induction 1 as [|v l Hv _ IH]; cbn [sum fold_right]; [lia|].
    fold (sum l). lia. }
  destruct (Z.leb_spec 0 (valueBalance t)) as [Hge|Hlt]; cbn [app]; rewrite ?sum_cons; fold s.
  - rewrite Forall_singleton. split.
    + intros (a & (Hf & Hle & ->) & Hr). apply require_Ok in Hr as [Hr _]. specialize (Hs Hf). rewrite money_to_i64 in Hr by lia.
      apply MoneyRange_spec in Hr. split_and!; try done; lia.
    + intros [[Hv Hf] Hle]. specialize (Hs Hf). exists (0 + s). split_and!; [done|lia|done|]. apply require_Ok. split; [|done].
      rewrite money_to_i64 by lia. apply MoneyRange_spec. lia.
  - split; [intros (a & (Hf & Hle & ->) & _); split_and!; done || lia|]. intros [[_ Hf] Hle]. exists (0 + s). split_and!; done || lia.
Qed.

Lemma check_coinbase_spec t :
  check_coinbase t = Ok tt
  <-> if IsCoinBase t
      then vJoinSplit t = [] /\ vShieldedSpend t = [] /\ vShieldedOutput t = []
           /\ Forall (fun i => 2 <= Z.of_nat (length (scriptSig i)) <= 100) (vin t)
      else Forall (fun i => outpoint_IsNull (prevout i) = false) (vin t).
Proof.
  unfold check_coinbase. destruct (IsCoinBase t) eqn:E.
  - rewrite !require_Ok, !nonempty_negb. unfold IsCoinBase in E. destruct (vin t) as [|i [|]]; try done.
    rewrite require_Ok, negb_true_iff, orb_false_iff, !Z.ltb_ge, Forall_singleton. tauto.
  - rewrite require_Ok, negb_true_iff. rewrite <- not_true_iff_false, existsb_exists, List.Forall_forall. split.
    + intros [Hn _] i Hi. apply not_true_iff_false. intros Hx. apply Hn. eauto.
    + intros Hf. split; [|done]. intros (i & Hi & Hx). by rewrite Hf in Hx.
Qed.

(** The three loops of the outgoing values are one sum over [values_out]. *)
Lemma check_values_out_spec t :
  (exists n n', check_outputs 0 (vout t) = Ok n /\ check_value_balance t n = Ok n'
                /\ exists r, check_joinsplits n' (vJoinSplit t) = Ok r)
  <-> (- MAX_MONEY <= valueBalance t <= MAX_MONEY /\ (vShieldedSpend t = [] -> vShieldedOutput t = [] -> valueBalance t = 0))
      /\ Forall js_values_ok (vJoinSplit t) /\ exists r, add_all 0 (values_out t) = Ok r.
Proof.
  assert (H0 : 0 <= 0 <= MAX_MONEY) by (unfold MAX_MONEY, COIN; lia). unfold values_out. split.
  - intros (n & n' & Ho & Hv & r & Hj). apply check_outputs_spec in Ho; [|done]. pose proof (add_all_range _ _ _ H0 Ho) as Hn.
    apply check_value_balance_spec in Hv as [Hb Hv]; [|done]. pose proof (add_all_range _ _ _ Hn Hv) as Hn'.
    apply check_joinsplits_spec in Hj as [Hj Hjs]; [|done]. split_and!; try apply Hb; [done|]. exists r.
    rewrite add_all_app, Ho. cbn [bindR]. rewrite add_all_app, Hv. done.
  - intros (Hb & Hjs & r & Hr). rewrite add_all_app in Hr. apply bindR_Ok in Hr as (n & Ho & Hr).
    rewrite add_all_app in Hr. apply bindR_Ok in Hr as (n' & Hv & Hr). pose proof (add_all_range _ _ _ H0 Ho) as Hn.
    pose proof (add_all_range _ _ _ Hn Hv) as Hn'. exists n, n'.
    split_and!; [by apply check_outputs_spec|by apply check_value_balance_spec|]. exists r. by apply check_joinsplits_spec.
Qed.

Lemma sum_ok_iff l :
  (exists r, add_all 0 l = Ok r) <-> Forall (fun v => 0 <= v <= MAX_MONEY) l /\ sum l <= MAX_MONEY.
Proof.
  assert (H0 : 0 <= 0 <= MAX_MONEY) by (unfold MAX_MONEY, COIN; lia). setoid_rewrite (fun r => add_all_iff 0 l r H0). naive_solver.
Qed.

Lemma js_values_split t :
  Forall (fun v => 0 <= v <= MAX_MONEY) (shielded_values_in t) ->
  Forall js_values_ok (vJoinSplit t) <-> Forall (fun j => vpub_new j = 0 \/ vpub_old j = 0) (vJoinSplit t).
Proof.
  unfold shielded_values_in. rewrite Forall_app, Forall_map. intros [_ Hf]. split; intros Hj.
  - eapply Forall_impl; [apply Hj|]. by intros j [_ ?].
  - pose proof (conj Hf Hj) as Hb. rewrite <- Forall_and in Hb. eapply Forall_impl; [apply Hb|]. by intros j [? ?].
Qed.

Lemma CheckTransaction_steps t :
  CheckTransactionWithoutProofVerification t = Ok tt
  <-> check_tx_version t = Ok tt /\ check_tx_sizes t = Ok tt
      /\ (exists n n', check_outputs 0 (vout t) = Ok n /\ check_value_balance t n = Ok n'
                       /\ exists r, check_joinsplits n' (vJoinSplit t) = Ok r)
      /\ check_values_in t = Ok tt /\ NoDup (map prevout (vin t)) /\ NoDup (concat (map js_nullifiers (vJoinSplit t)))
      /\ NoDup (map sd_nullifier (vShieldedSpend t)) /\ check_coinbase t = Ok tt.
Proof.
  assert (Hd : forall A `{EqDecision A} e (l : list A), check_distinct e [] l = Ok tt <-> NoDup l).
  { intros A ? e l. rewrite check_distinct_spec. set_solver. }
  unfold CheckTransactionWithoutProofVerification. repeat setoid_rewrite bindR_iff. repeat setoid_rewrite <- (Hd _ _ _). split.
  - intros ([] & Hv & [] & Hs & n & Ho & n' & Hb & r & Hj & [] & Hi & [] & H1 & [] & H2 & [] & H3 & Hc). split_and!; try done. eauto 10.
  - intros (Hv & Hs & (n & n' & Ho & Hb & r & Hj) & Hi & H1 & H2 & H3 & Hc).
    repeat match goal with |- exists _ : unit, _ => exists tt; split; [done|] end.
    exists n; split; [done|]. exists n'; split; [done|]. exists r; split; [done|].
    repeat match goal with |- exists _ : unit, _ => exists tt; split; [eassumption|] end. done.
Qed.

Lemma check_transaction_rules t : CheckTransactionWithoutProofVerification t = Ok tt <-> tx_valid t.
Proof.
  rewrite CheckTransaction_steps, check_tx_version_spec, check_tx_sizes_spec, check_values_out_spec, sum_ok_iff, check_coinbase_spec.
  split.
  - intros (Hv & Hs & (Hb & Hj & Ho) & Hi & H1 & H2 & H3 & Hc). apply check_values_in_spec in Hi; [|apply Hb].
    constructor; try done; try apply Hs. by apply js_values_split in Hj; [|apply Hi].
  - intros [Hv Hsrc Hsnk Hsz Ho Hi Hb Hj H1 H2 H3 Hc]. split; [done|]. split; [done|]. split; [|split_and!; try done].
    + split; [done|]. split; [|done]. apply js_values_split; [apply Hi|done].
    + by apply check_values_in_spec; [apply Hb|].
Qed.

(** C12: the checks of a transaction that need no context accept exactly the
    transactions that satisfy the declared rules: a version and group that
    exist, some source and some sink of value, at most the maximal size, every
    outgoing and incoming value and their sums within the monetary range, no
    joinsplit with both public values, distinct inputs and nullifiers, and the
    shape of a coinbase. The wrapping 64-bit additions of the code therefore
    never hide an overflow, and the value sums of an accepted transaction are
    the exact ones, without an exception. *)
Theorem check_transaction_exact t :
  (CheckTransactionWithoutProofVerification t = Ok tt <-> tx_valid t)
  /\ (CheckTransactionWithoutProofVerification t = Ok tt ->
      GetValueOut t = Ok (sum (values_out t)) /\ GetShieldedValueIn t = Ok (sum (shielded_values_in t))
      /\ sum (values_out t) <= MAX_MONEY /\ sum (shielded_values_in t) <= MAX_MONEY).
Proof.
  assert (H0 : 0 <= 0 <= MAX_MONEY) by (unfold MAX_MONEY, COIN; lia).
  pose proof (check_transaction_rules t) as Hiff.
  split; [done|]. rewrite Hiff. intros [_ _ _ _ [Ho Hos] [Hi His] _ _ _ _ _ _]. rewrite GetValueOut_sum, GetShieldedValueIn_sum.
  split_and!; try done; apply add_all_iff; done.
Qed.

Lemma check_transaction_exact_witness :
  let t := MutableTransaction true 4 SAPLING_VERSION_GROUP_ID [TxIn (OutPoint (replicate 32 7) 0) [0; 0] 0xFFFFFFFF]
             [TxOut 1250000000 [81]; TxOut 5 []] 0 100 0 [] [] [] null256 (replicate 64 0) (replicate 64 0) in
  tx_valid t /\ GetValueOut t = Ok 1250000005.
Proof.
  intros t. assert (Hc : CheckTransactionWithoutProofVerification t = Ok tt) by (vm_compute; reflexivity).
  split; [by apply (proj1 (check_transaction_exact t))|]. exact (proj1 (proj2 (check_transaction_exact t) Hc)).
Defined.

(** ** What the checks at a height accept *)

Lemma detect_streams_spec els outs e :
  e ∈ detect_streams els outs <-> e ∈ els /\ forall o, o ∈ outs -> (scriptPubKey o, nValue o) <> e.
Proof.
  unfold detect_streams. revert els. induction outs as [|o outs IH]; intros els; cbn [foldl]; [set_solver|].
  rewrite IH, elem_of_difference, elem_of_singleton. setoid_rewrite elem_of_cons. naive_solver.
Qed.

(** The element is paid by some output. *)
Definition pays (t : CMutableTransaction) (e : bytes * Z) : Prop :=
  exists o, o ∈ vout t /\ scriptPubKey o = fst e /\ nValue o = snd e.

Lemma detect_streams_empty els t :
  detect_streams els (vout t) = ∅ <-> forall e, e ∈ els -> pays t e.
Proof.
  split.
  - intros Hd e He. destruct (decide (Exists (fun o => (scriptPubKey o, nValue o) = e) (vout t))) as [Hx|Hx].
    + apply Exists_exists in Hx as (o & Ho & <-). by exists o.
    + exfalso. assert (Hin : e ∈ detect_streams els (vout t)); [|by rewrite Hd in Hin; apply elem_of_empty in Hin].
      apply detect_streams_spec. split; [done|]. intros o Ho Heq. apply Hx, Exists_exists. eauto.
  - intros Hp. apply set_eq. intros e. rewrite detect_streams_spec. split; [|by intros ?%elem_of_empty].
    intros [He Hn]. destruct (Hp e He) as (o & Ho & Hs & Hv). destruct (Hn o Ho). by destruct e; cbn in *; subst.
Qed.
(** The second pass of the detection finds nothing more. *)
Lemma detect_streams_twice els outs : detect_streams (detect_streams els outs) outs = detect_streams els outs.
Proof. apply set_eq. intros e. rewrite !detect_streams_spec. tauto. Qed.

Section contextual.
Context `{Blake2b} `{ShieldedVerifier}.

(** The signatures and proofs over the hash of the transaction. *)
Definition shielded_signed (t : CMutableTransaction) (hash : bytes) : Prop :=
  (vJoinSplit t <> [] -> crypto_sign_verify_detached (joinSplitSig t) hash (joinSplitPubKey t) = true)
  /\ (vShieldedSpend t <> [] \/ vShieldedOutput t <> [] ->
      exists ctx ctx', check_spends sapling_ctx_init hash (vShieldedSpend t) = Some ctx
        /\ check_shielded_outputs ctx (vShieldedOutput t) = Some ctx'
        /\ sapling_final_check ctx' (valueBalance t) (bindingSig t) hash = true).
Definition shielded_hash (t : CMutableTransaction) (branch : Z) : result sighash_exn bytes :=
  SignatureHash [] t NOT_AN_INPUT SIGHASH_ALL 0 branch None.

(** The rules at a height where the given upgrades are active. *)
Record tx_valid_at (t : CMutableTransaction) (nHeight : Z) (overwinter sapling canopy : bool) (elements : gset (bytes * Z))
  (branch prevBranch : Z) : Prop := {
  va_flag : fOverwintered t = overwinter;
  va_expiry : overwinter = true -> nExpiryHeight t = 0 \/ IsCoinBase t = true \/ nHeight <= nExpiryHeight t;
  va_overwinter : overwinter = true -> sapling = false ->
    nVersion t <= OVERWINTER_MAX_TX_VERSION /\ nVersionGroupId t = OVERWINTER_VERSION_GROUP_ID;
  va_sapling : sapling = true -> nVersion t = SAPLING_TX_VERSION /\ nVersionGroupId t = SAPLING_VERSION_GROUP_ID;
  va_size : sapling = false -> exists b, Serialize tx_codec t = Ok b /\ Z.of_nat (length b) <= MAX_TX_SIZE_BEFORE_SAPLING;
  va_coinbase : sapling = true -> IsCoinBase t = true -> vShieldedOutput t = [];
  va_sprout : canopy = true -> Forall (fun j => vpub_old j <= 0) (vJoinSplit t);
  va_funding : canopy = true -> IsCoinBase t = true -> forall e, e ∈ elements -> pays t e;
  va_signed : vJoinSplit t <> [] \/ vShieldedSpend t <> [] \/ vShieldedOutput t <> [] ->
    exists hash prev, shielded_hash t branch = Ok hash /\ shielded_hash t prevBranch = Ok prev /\ shielded_signed t hash
}.

Lemma IsExpiredTx_false t h :
  uint 32 h -> IsExpiredTx t h = false <-> nExpiryHeight t = 0 \/ IsCoinBase t = true \/ h <= nExpiryHeight t.
Proof.
  intros Hh. unfold IsExpiredTx. rewrite (wrap_small 32 h Hh). destruct (Z.eqb_spec (nExpiryHeight t) 0); cbn [orb]; [naive_solver|].
  destruct (IsCoinBase t); [naive_solver|]. rewrite Z.ltb_ge. naive_solver.
Qed.

Lemma check_upgrade_rules_spec t ow sap h dos ibd :
  (sap = true -> ow = true) ->
  check_upgrade_rules t ow sap h dos ibd = Ok tt
  <-> fOverwintered t = ow /\ (ow = true -> IsExpiredTx t h = false)
      /\ (ow = true -> sap = false -> nVersion t <= OVERWINTER_MAX_TX_VERSION /\ nVersionGroupId t = OVERWINTER_VERSION_GROUP_ID)
      /\ (sap = true -> nVersion t = SAPLING_TX_VERSION /\ nVersionGroupId t = SAPLING_VERSION_GROUP_ID)
      /\ (sap = false -> exists b, Serialize tx_codec t = Ok b /\ Z.of_nat (length b) <= MAX_TX_SIZE_BEFORE_SAPLING).
Proof.
  intros Hso. unfold check_upgrade_rules. rewrite bindR_iff.
  pose proof (size_check_spec t MAX_TX_SIZE_BEFORE_SAPLING (invalid 100 "bad-txns-oversize")) as Hsz.
  destruct sap; [rewrite (Hso eq_refl)|destruct ow].
  - split.
    + intros ([] & H1 & H2). rewrite !require_Ok, !negb_true_iff in H1. rewrite !require_Ok, !negb_true_iff, Z.eqb_eq, !Z.ltb_ge in H2.
      unfold SAPLING_MIN_TX_VERSION, SAPLING_MAX_TX_VERSION, SAPLING_TX_VERSION in *. split_and!; try done; try tauto; lia.
    + intros (Hf & He & _ & Hs & _). exists tt. destruct (Hs eq_refl) as [Hv Hg]. rewrite !require_Ok, !negb_true_iff, Z.eqb_eq, !Z.ltb_ge.
      rewrite Hv. split_and!; auto; done.
  - split.
    + intros ([] & H1 & H2). rewrite !require_Ok, !negb_true_iff, Z.eqb_eq, Z.ltb_ge in H1. apply Hsz in H2. split_and!; done || tauto.
    + intros (Hf & He & Ho & _ & Hs). exists tt. destruct (Ho eq_refl eq_refl). rewrite !require_Ok, !negb_true_iff, Z.eqb_eq, Z.ltb_ge.
      split_and!; auto. apply Hsz. auto.
  - split.
    + intros ([] & H1 & H2). rewrite !require_Ok, !negb_true_iff in H1. apply Hsz in H2. split_and!; done || tauto.
    + intros (Hf & _ & _ & _ & Hs). exists tt. rewrite !require_Ok, !negb_true_iff. split_and!; auto. apply Hsz. auto.
Qed.

Lemma forallb_le_zero (l : list JSDescription) :
  forallb (fun j => vpub_old j <=? 0) l = true <-> Forall (fun j => vpub_old j <= 0) l.
Proof. rewrite forallb_forall, List.Forall_forall. by setoid_rewrite Z.leb_le. Qed.

Lemma check_funding_spec t sap can dos els :
  check_funding t sap can dos els = Ok tt
  <-> (sap = true -> IsCoinBase t = true -> vShieldedOutput t = [])
      /\ (can = true -> Forall (fun j => vpub_old j <= 0) (vJoinSplit t))
      /\ (can = true -> IsCoinBase t = true -> forall e, e ∈ els -> pays t e).
Proof.
  unfold check_funding. rewrite <- detect_streams_empty, <- forallb_le_zero, <- nonempty_negb.
  destruct can, (IsCoinBase t), sap, (nonempty (vShieldedOutput t)), (forallb _ (vJoinSplit t));
    cbn [andb bindR negb]; rewrite ?detect_streams_twice; repeat case_bool_decide; cbn; naive_solver.
Qed.

Lemma check_sapling_spec t hash :
  check_sapling t hash = Ok tt
  <-> (vShieldedSpend t <> [] \/ vShieldedOutput t <> [] ->
       exists ctx ctx', check_spends sapling_ctx_init hash (vShieldedSpend t) = Some ctx
         /\ check_shielded_outputs ctx (vShieldedOutput t) = Some ctx'
         /\ sapling_final_check ctx' (valueBalance t) (bindingSig t) hash = true).
Proof.
  unfold check_sapling. destruct (nonempty (vShieldedSpend t) || nonempty (vShieldedOutput t)) eqn:E.
  - rewrite orb_true_iff, !nonempty_true in E. destruct (check_spends _ _ _) as [ctx|] eqn:E1; [|naive_solver].
    destruct (check_shielded_outputs _ _) as [ctx'|] eqn:E2; [|naive_solver]. rewrite require_Ok. naive_solver.
  - apply orb_false_iff in E as [E1 E2]. destruct (vShieldedSpend t), (vShieldedOutput t); naive_solver.
Qed.

Lemma check_shielded_signatures_spec t ibd br prev :
  check_shielded_signatures t ibd br prev = Ok tt
  <-> (vJoinSplit t <> [] \/ vShieldedSpend t <> [] \/ vShieldedOutput t <> [] ->
       exists hash hash', shielded_hash t br = Ok hash /\ shielded_hash t prev = Ok hash' /\ shielded_signed t hash).
Proof.
  unfold check_shielded_signatures, shielded_signed. fold (shielded_hash t br) (shielded_hash t prev).
  destruct (nonempty (vJoinSplit t) || nonempty (vShieldedSpend t) || nonempty (vShieldedOutput t)) eqn:E.
  - rewrite !orb_true_iff, !nonempty_true in E.
    assert (E' : vJoinSplit t <> [] \/ vShieldedSpend t <> [] \/ vShieldedOutput t <> []) by tauto. clear E.
    destruct (shielded_hash t br) as [hash|[]]; cbn [bindR]; try naive_solver.
    destruct (shielded_hash t prev) as [hash'|[]]; cbn [bindR]; try naive_solver.
    rewrite require_Ok, check_sapling_spec, orb_true_iff, nonempty_negb.
    assert (Hj : vJoinSplit t = [] \/ crypto_sign_verify_detached (joinSplitSig t) hash (joinSplitPubKey t) = true
      <-> (vJoinSplit t <> [] -> crypto_sign_verify_detached (joinSplitSig t) hash (joinSplitPubKey t) = true))
      by (destruct (vJoinSplit t); naive_solver).
    rewrite Hj. naive_solver.
  - rewrite !orb_false_iff in E. destruct (vJoinSplit t), (vShieldedSpend t), (vShieldedOutput t); naive_solver.
Qed.

(** C13: at a height where the parameters say which upgrades are active, the
    contextual checks accept exactly the transactions that follow the rules of
    the active upgrade: the version and group of that upgrade and no other, not
    expired, within the size limit before Sapling, no shielded output in a
    coinbase, no value into the Sprout pool after Canopy, a coinbase that pays
    every required funding element of the height, and, for a transaction with
    shielded parts, signatures and proofs that verify over the signature hash
    of the branch of this epoch. *)
Theorem contextual_check_exact t chainparams h dos ibd ow sap can subsidy els br :
  let p := consensus chainparams in
  uint 32 h -> NetworkUpgradeActive p h UPGRADE_OVERWINTER = Ok ow -> NetworkUpgradeActive p h UPGRADE_SAPLING = Ok sap ->
  NetworkUpgradeActive p h UPGRADE_CANOPY = Ok can -> (sap = true -> ow = true) -> (can = true -> sap = true) ->
  GetBlockSubsidy h p = Ok subsidy -> GetActiveFundingStreamElements h subsidy p = Ok els -> CurrentEpochBranchId h p = Ok br ->
  ContextualCheckTransaction t chainparams h dos ibd = Ok tt <-> tx_valid_at t h ow sap can els br (PrevEpochBranchId br p).
Proof.
  intros p Hh How Hsap Hcan Hso Hcs Hsub Hels Hbr. unfold ContextualCheckTransaction. fold p.
  rewrite How, Hsap, Hcan, Hsub. cbn [of_param bindR]. rewrite Hels, Hbr. cbn [of_param bindR].
  assert (Hr : negb sap || ow = true /\ negb can || sap = true) by (destruct sap, can, ow; naive_solver).
  rewrite !require_Ok, bindR_iff. split.
  - intros (_ & _ & [] & H1 & H2). apply bindR_iff in H2 as ([] & H2 & H3).
    apply check_upgrade_rules_spec in H1; [|done].
    apply check_funding_spec in H2. rewrite check_shielded_signatures_spec in H3. destruct_and!. constructor; try done. intros Ho. apply IsExpiredTx_false; auto.
  - intros [? He]. setoid_rewrite <- (IsExpiredTx_false t h Hh) in He. split; [apply Hr|]. split; [apply Hr|]. exists tt. split; [apply check_upgrade_rules_spec; [done|]; split_and!; done|].
    apply bindR_iff. exists tt. split; [apply check_funding_spec; split_and!; done|by apply check_shielded_signatures_spec].
Qed.
End contextual.

(** Verifiers for the witnesses: a signature is the signed hash, a Sapling
    context counts its descriptions. *)
#[local] Instance toy_blake : Blake2b := {|
  blake2b_state := (bytes * bytes)%type; init_personal p := (p, []); update st d := (fst st, (snd st ++ d)%list);
  final st := (fst st ++ snd st)%list |}.
#[local] Instance toy_verifier : ShieldedVerifier := {|
  librustzcash_sprout_verify _ _ _ _ _ _ _ _ := true; crypto_sign_verify_detached sig h _ := bool_decide (sig = h);
  sapling_ctx := nat; sapling_ctx_init := 0%nat; sapling_check_spend n _ _ := Some (S n); sapling_check_output n _ := Some (S n);
  sapling_final_check n _ _ _ := true |}.

Lemma contextual_check_exact_witness :
  let cp := CMainParams [] [Some (Stream 1735000 3360000 (replicate 96 [0xa9])); None; None] [] in
  let cb outs := MutableTransaction true 4 SAPLING_VERSION_GROUP_ID [TxIn (OutPoint null256 0xFFFFFFFF) [0; 0] 0xFFFFFFFF]
             outs 0 0 0 [] [] [] null256 (replicate 64 0) (replicate 64 0) in
  let els := {[ ([0xa9], 21875000000) ]} in
  tx_valid_at (cb [TxOut 21875000000 [0xa9]]) 2000000 true true true els 3925833126 (PrevEpochBranchId 3925833126 (consensus cp))
  /\ ~ tx_valid_at (cb [TxOut 21875000000 [0xaa]]) 2000000 true true true els 3925833126
        (PrevEpochBranchId 3925833126 (consensus cp)).
Proof.
  intros cp cb els. assert (Hels : GetActiveFundingStreamElements 2000000 312500000000 (consensus cp) = Ok els) by (vm_compute; reflexivity).
  assert (Hiff : forall outs, ContextualCheckTransaction (cb outs) cp 2000000 100 false = Ok tt
                    <-> tx_valid_at (cb outs) 2000000 true true true els 3925833126 (PrevEpochBranchId 3925833126 (consensus cp))).
  { intros outs. apply (contextual_check_exact (cb outs) cp 2000000 100 false true true true 312500000000 els 3925833126);
      done || (vm_compute; reflexivity). }
  split; [apply Hiff; vm_compute; reflexivity|]. intros Hv%Hiff. vm_compute in Hv. discriminate Hv.
Defined.
