(* ===== verification/Block.v ===== *)
(** * Checks of blocks (src/main.cpp, checkpoints.cpp)

    The rules of a block that need no state of the coins: its header and proof
    of work, its Merkle root, its size, the shape of its coinbase and its
    transactions; and the rules that depend on the blocks before it. A block in
    memory carries its transactions with their hashes, and the flag [fChecked]
    of a block that has passed [CheckBlock] already. *)

From S2P Require Import Prelude ArithUint Serialize Digest Sha Ripemd Hash Amount Transaction Chain Params Equihash Pow.
From S2P Require Import Script Address Interpreter SigHash Merkle Coins Validation.
Local Open Scope string_scope.
Local Open Scope Z_scope.
Local Open Scope code_scope.

(** ** Definitions *)

Record CBlockInMemory := BlockInMemory { m_header :> CBlockHeader; m_vtx : list CTransaction; fChecked : bool }.
Definition MIN_BLOCK_VERSION : Z := 4.

Definition of_pow {A} (r : result pow_error A) : result reject A :=
  match r with Ok a => Ok a | Err e => Err (ThrowsPow e) end.
Definition of_chain_error {A} (r : result chain_error A) : result reject A :=
  match r with Ok a => Ok a | Err e => Err (ThrowsPow (PowChain e)) end.
Definition of_writer {A} (r : result ser_error A) : result reject A :=
  match r with Ok a => Ok a | Err e => Err (ThrowsWriting e) end.
Definition of_script {A} (r : result script_exn A) : result reject A :=
  match r with Ok a => Ok a | Err e => Err (ThrowsScript e) end.

(** [GetLastCheckpoint]: the last checkpoint whose block is in the index; the
    map of checkpoints is given by decreasing height. *)
Fixpoint GetLastCheckpoint (mapBlockIndex : gmap bytes ptr) (checkpoints : list (Z * bytes)) : option ptr :=
  match checkpoints with
  | [] => None
  | (_, hash) :: checkpoints =>
      match mapBlockIndex !! hash with Some p => Some p | None => GetLastCheckpoint mapBlockIndex checkpoints end
  end.

Section blocks.
Context `{Blake2b} `{ShieldedVerifier} `{EhHash}.

(** *** Checks without context *)

Definition CheckBlockHeader (block : CBlockHeader) (chainparams : CChainParams) (fCheckPOW : bool) : result reject unit :=
  require negb (hb_nVersion block <? MIN_BLOCK_VERSION) orelse invalid 100 "version-too-low" in
  let* hash := of_writer (header_GetHash block) in
  if bool_decide (hash = hashGenesisBlock (consensus chainparams)) then Ok tt
  else if fCheckPOW then
    match CheckEquihashSolution block with
    | None => Err AssertFails
    | Some false => Err (invalid 100 "invalid-solution")
    | Some true =>
        require CheckProofOfWork hash (hb_nBits block) (consensus chainparams) orelse invalid 50 "high-hash" in Ok tt
    end
  else Ok tt.

Definition check_merkle_root (block : CBlockInMemory) : result reject unit :=
  match BlockMerkleRoot (m_vtx block) with
  | None => Err AssertFails
  | Some (hashMerkleRoot2, mutated) =>
      require bool_decide (hb_hashMerkleRoot block = hashMerkleRoot2) orelse DoS 100 REJECT_INVALID "bad-txnmrklroot" true in
      require negb mutated orelse DoS 100 REJECT_INVALID "bad-txns-duplicate" true in Ok tt
  end.

(** The serialized size of the block. *)
Definition block_size (block : CBlockInMemory) : result reject Z :=
  let* b := of_writer (Serialize block_codec (Block (m_header block) (map tx (m_vtx block)))) in Ok (Z.of_nat (length b)).
Definition check_block_sizes (block : CBlockInMemory) : result reject unit :=
  match m_vtx block with
  | [] => Err (invalid 100 "bad-blk-length")
  | coinbase :: others =>
      require negb (MAX_BLOCK_SIZE <? Z.of_nat (length (m_vtx block))) orelse invalid 100 "bad-blk-length" in
      let* size := block_size block in
      require negb (MAX_BLOCK_SIZE <? size) orelse invalid 100 "bad-blk-length" in
      require IsCoinBase coinbase orelse invalid 100 "bad-cb-missing" in
      require negb (existsb (fun t : CTransaction => IsCoinBase t) others) orelse invalid 100 "bad-cb-multiple" in Ok tt
  end.

Fixpoint check_transactions (verifier : bool) (vtx : list CTransaction) : result reject unit :=
  match vtx with
  | [] => Ok tt
  | t :: vtx => let* _ := CheckTransaction verifier t in check_transactions verifier vtx
  end.
Fixpoint block_sigops (nSigOps : Z) (vtx : list CTransaction) : result reject Z :=
  match vtx with
  | [] => Ok nSigOps
  | t :: vtx => let* n := of_script (GetLegacySigOpCount t) in block_sigops (to_u32 (nSigOps + n)) vtx
  end.

(** A block that is marked as checked is accepted at once; a block is marked when
    its proof of work and its Merkle root were tested, whatever the verifier. *)
Definition CheckBlock (block : CBlockInMemory) (chainparams : CChainParams) (verifier fCheckPOW fCheckMerkleRoot : bool)
  : result reject CBlockInMemory :=
  if fChecked block then Ok block
  else
    let* _ := CheckBlockHeader block chainparams fCheckPOW in
    let* _ := if fCheckMerkleRoot then check_merkle_root block else Ok tt in
    let* _ := check_block_sizes block in
    let* _ := check_transactions verifier (m_vtx block) in
    let* nSigOps := block_sigops 0 (m_vtx block) in
    require negb (MAX_BLOCK_SIGOPS <? nSigOps) orelse DoS 100 REJECT_INVALID "bad-blk-sigops" true in
    Ok (BlockInMemory (m_header block) (m_vtx block) (fCheckPOW && fCheckMerkleRoot)).

(** *** Checks against the chain *)

(** What the checks read of the node: the block index, the time and the
    checkpoints. *)
Record node := Node {
  block_index : store; mapBlockIndex : gmap bytes ptr; GetTime : Z; fCheckpointsEnabled : bool; mapCheckpoints : list (Z * bytes) }.

Definition ContextualCheckBlockHeader (n : node) (block : CBlockHeader) (chainParams : CChainParams) (pindexPrev : option ptr)
    (fCheckPOW : bool) : result reject unit :=
  let* hash := of_writer (header_GetHash block) in
  if bool_decide (hash = hashGenesisBlock (consensus chainParams)) then Ok tt
  else
    match pindexPrev with
    | None => Err AssertFails
    | Some p =>
        let* prev := of_chain_error (deref (block_index n) p) in
        let height := to_u32 (nHeight prev + 1) in
        require negb fCheckPOW || checkEHParamaters (Z.of_nat (length (hb_nSolution block))) (to_i32 height) chainParams
          orelse invalid 100 "bad-equihash-solution-size" in
        let* work := of_pow (GetNextWorkRequired (block_index n) (Some p) (Some block) chainParams (consensus chainParams)) in
        require hb_nBits block =? work orelse invalid 100 "bad-diffbits" in
        let* past := of_chain_error (GetMedianTimePast (block_index n) p) in
        require past <? GetBlockTime block orelse invalid 0 "time-too-old" in
        require negb (to_i64 (GetTime n + GetFutureBlockTimeWindow chainParams (to_i32 height)) <? GetBlockTime block)
          orelse invalid 0 "time-too-new" in
        let* old :=
          if fCheckpointsEnabled n then
            match GetLastCheckpoint (mapBlockIndex n) (mapCheckpoints n) with
            | None => Ok false
            | Some c => let* b := of_chain_error (deref (block_index n) c) in Ok (height <? to_u32 (nHeight b))
            end
          else Ok false in
        require negb old orelse DoS 100 0 EmptyString false in
        require negb (hb_nVersion block <? 4) orelse DoS 0 REJECT_OBSOLETE "bad-version" false in Ok tt
    end.

(** *** The community fee *)

(** A nonnegative number [n / 2^s] rounded to the 53 bits of a [double], to
    nearest and to even, again as [(n, s)]. *)
Definition round53 (n s : Z) : Z * Z :=
  let k := Z.log2 n + 1 - 53 in
  if k <=? 0 then (n, s)
  else
    let q := n / 2 ^ k in
    let r := n mod 2 ^ k in
    let half := 2 ^ (k - 1) in
    (if (half <? r) || ((half =? r) && Z.odd q) then q + 1 else q, s - k).
(** The literal [0.05], rounded to a [double]: [3602879701896397 / 2^56]. *)
Definition DOUBLE_005 : Z * Z := (3602879701896397, 56).
Definition double_equal (a b : Z * Z) : bool := fst a * 2 ^ snd b =? fst b * 2 ^ snd a.
(** [output.nValue == (subsidy * 0.05)] in double precision; the shifts stay
    positive for amounts. *)
Definition is_community_fee (nValue subsidy : Z) : bool :=
  let '(m, s) := round53 subsidy 60 in
  let '(p, t) := round53 (m * fst DOUBLE_005) (s + snd DOUBLE_005) in
  (0 <=? nValue) && double_equal (round53 nValue 60) (p, t).

Fixpoint pays_community_fee (script : result reject CScript) (subsidy : result reject Z) (outs : list CTxOut) : result reject bool :=
  match outs with
  | [] => Ok false
  | o :: outs =>
      let* s := script in
      let* paid := if bool_decide (scriptPubKey o = s) then let* v := subsidy in Ok (is_community_fee (nValue o) v) else Ok false in
      if paid then Ok true else pays_community_fee script subsidy outs
  end.

(** *** The contents of a block at its height *)

Fixpoint check_final (chainparams : CChainParams) (height : Z) (ibd : bool) (time : Z) (vtx : list CTransaction) : result reject unit :=
  match vtx with
  | [] => Ok tt
  | t :: vtx =>
      let* _ := ContextualCheckTransaction t chainparams height 100 ibd in
      require IsFinalTx t height time orelse invalid 10 "bad-txns-nonfinal" in
      check_final chainparams height ibd time vtx
  end.

Definition coinbase_script (block : CBlockInMemory) : option CScript :=
  match m_vtx block with t :: _ => match vin t with i :: _ => Some (scriptSig i) | [] => None end | [] => None end.

Definition check_coinbase_height (block : CBlockInMemory) (height : Z) : result reject unit :=
  if 50 <? height then
    let expect := push_int64 [] height in
    match coinbase_script block with
    | None => Err AssertFails
    | Some s => require bool_decide (take (length expect) s = expect) orelse invalid 100 "bad-cb-height" in Ok tt
    end
  else Ok tt.

(** The funding streams after Canopy are checked with each transaction. *)
Definition check_community_fee (keyConstants : Base58Prefix) (block : CBlockInMemory) (chainparams : CChainParams) (height : Z)
  : result reject unit :=
  let params := consensus chainparams in
  let* canopy := of_param (NetworkUpgradeActive params height UPGRADE_CANOPY) in
  if canopy then Ok tt
  else if (GetCommunityFeeStartHeight params <? height) && (height <=? GetLastCommunityFeeBlockHeight params) then
    match m_vtx block with
    | [] => Err AssertFails
    | coinbase :: _ =>
        let* found := pays_community_fee (of_param (GetCommunityFeeScriptAtHeight keyConstants chainparams height))
                        (of_param (GetBlockSubsidy height params)) (vout coinbase) in
        require found orelse invalid 100 "cb-no-community-fee" in Ok tt
    end
  else Ok tt.

Definition ContextualCheckBlock (keyConstants : Base58Prefix) (n : node) (block : CBlockInMemory) (chainparams : CChainParams)
    (pindexPrev : option ptr) (ibd : bool) : result reject unit :=
  let* height :=
    match pindexPrev with
    | None => Ok 0
    | Some p => let* prev := of_chain_error (deref (block_index n) p) in Ok (to_i32 (nHeight prev + 1))
    end in
  let* _ := check_final chainparams height ibd (GetBlockTime block) (m_vtx block) in
  let* _ := check_coinbase_height block height in
  check_community_fee keyConstants block chainparams height.
End blocks.

(** ** What the checks of a block accept *)

Lemma of_writer_Ok {A} (r : result ser_error A) a : of_writer r = Ok a <-> r = Ok a.
Proof. destruct r; cbn; naive_solver. Qed.
Lemma of_pow_Ok {A} (r : result pow_error A) a : of_pow r = Ok a <-> r = Ok a.
Proof. destruct r; cbn; naive_solver. Qed.
Lemma of_chain_Ok {A} (r : result chain_error A) a : of_chain_error r = Ok a <-> r = Ok a.
Proof. destruct r; cbn; naive_solver. Qed.
Lemma of_param_Ok {A} (r : result param_error A) a : of_param r = Ok a <-> r = Ok a.
Proof. destruct r; cbn; naive_solver. Qed.

Lemma check_all_spec {A} (f : A -> result reject unit) (loop : list A -> result reject unit) l :
  loop [] = Ok tt -> (forall a l, loop (a :: l) = (let* _ := f a in loop l)) ->
  loop l = Ok tt <-> Forall (fun a => f a = Ok tt) l.
Proof.
  intros H0 Hs. induction l as [|a l IH]; [by rewrite H0; split|]. rewrite Hs, bindR_iff, Forall_cons, <- IH. split.
  - intros ([] & ? & ?). done.
  - intros [? ?]. by exists tt.
Qed.

Section accepted.
Context `{Blake2b} `{ShieldedVerifier} `{EhHash}.

(** The rules of a transaction of a block, with the proofs of its joinsplits. *)
Definition tx_checked (verifier : bool) (t : CTransaction) : Prop :=
  tx_valid t /\ Forall (fun j => VerifySprout verifier j (joinSplitPubKey t) = true) (vJoinSplit t).

Record block_valid (b : CBlockInMemory) (cp : CChainParams) (verifier pow merkle : bool) (hash : bytes) : Prop := {
  bv_version : MIN_BLOCK_VERSION <= hb_nVersion b;
  bv_pow : pow = true -> hash <> hashGenesisBlock (consensus cp) ->
    CheckEquihashSolution b = Some true /\ CheckProofOfWork hash (hb_nBits b) (consensus cp) = true;
  bv_merkle : merkle = true -> BlockMerkleRoot (m_vtx b) = Some (hb_hashMerkleRoot b, false);
  bv_coinbase : exists coinbase others, m_vtx b = coinbase :: others /\ IsCoinBase coinbase = true
    /\ Forall (fun t : CTransaction => IsCoinBase t = false) others;
  bv_size : Z.of_nat (length (m_vtx b)) <= MAX_BLOCK_SIZE
    /\ exists s, Serialize block_codec (Block (m_header b) (map tx (m_vtx b))) = Ok s /\ Z.of_nat (length s) <= MAX_BLOCK_SIZE;
  bv_transactions : Forall (tx_checked verifier) (m_vtx b);
  bv_sigops : exists n, block_sigops 0 (m_vtx b) = Ok n /\ n <= MAX_BLOCK_SIGOPS
}.

Lemma CheckTransaction_spec verifier (t : CTransaction) : CheckTransaction verifier t = Ok tt <-> tx_checked verifier t.
Proof.
  unfold CheckTransaction, tx_checked. rewrite bindR_iff, <- check_transaction_rules. split.
  - intros ([] & Ht & Hr). apply require_Ok in Hr as [Hr _]. split; [done|]. rewrite forallb_forall in Hr. by apply List.Forall_forall.
  - intros [Ht Hr]. exists tt. split; [done|]. apply require_Ok. split; [|done]. apply forallb_forall. by apply List.Forall_forall.
Qed.

Lemma CheckBlockHeader_spec (b : CBlockHeader) cp pow hash :
  header_GetHash b = Ok hash ->
  CheckBlockHeader b cp pow = Ok tt
  <-> MIN_BLOCK_VERSION <= hb_nVersion b
      /\ (pow = true -> hash <> hashGenesisBlock (consensus cp) ->
          CheckEquihashSolution b = Some true /\ CheckProofOfWork hash (hb_nBits b) (consensus cp) = true).
Proof.
  intros Hh. unfold CheckBlockHeader. rewrite Hh. cbn [of_writer bindR]. rewrite require_Ok, negb_true_iff, Z.ltb_ge.
  case_bool_decide as Hg; [naive_solver|]. destruct pow; [|naive_solver].
  destruct (CheckEquihashSolution b) as [[]|]; rewrite ?require_Ok; naive_solver.
Qed.

Lemma check_merkle_root_spec b : check_merkle_root b = Ok tt <-> BlockMerkleRoot (m_vtx b) = Some (hb_hashMerkleRoot b, false).
Proof.
  unfold check_merkle_root. destruct (BlockMerkleRoot (m_vtx b)) as [[r mut]|]; [|naive_solver].
  rewrite !require_Ok, bool_decide_eq_true, negb_true_iff. naive_solver.
Qed.

Lemma block_size_spec b size :
  block_size b = Ok size <-> exists s, Serialize block_codec (Block (m_header b) (map tx (m_vtx b))) = Ok s /\ size = Z.of_nat (length s).
Proof. unfold block_size. destruct (Serialize block_codec _); cbn; naive_solver. Qed.

Lemma check_block_sizes_spec b :
  check_block_sizes b = Ok tt
  <-> (exists coinbase others, m_vtx b = coinbase :: others /\ IsCoinBase coinbase = true
        /\ Forall (fun t : CTransaction => IsCoinBase t = false) others)
      /\ Z.of_nat (length (m_vtx b)) <= MAX_BLOCK_SIZE
      /\ exists s, Serialize block_codec (Block (m_header b) (map tx (m_vtx b))) = Ok s /\ Z.of_nat (length s) <= MAX_BLOCK_SIZE.
Proof.
  unfold check_block_sizes. destruct (m_vtx b) as [|cb others] eqn:E; [naive_solver|]. rewrite <- E.
  rewrite require_Ok, bindR_iff, negb_true_iff, Z.ltb_ge.
  assert (Hn : negb (existsb (fun t : CTransaction => IsCoinBase t) others) = true <-> Forall (fun t : CTransaction => IsCoinBase t = false) others).
  { rewrite negb_true_iff, <- not_true_iff_false, existsb_exists, List.Forall_forall. split.
    - intros Hx t Ht. apply not_true_iff_false. intros Hc. apply Hx. by exists t.
    - intros Hf (t & Ht & Hc). by rewrite Hf in Hc. }
  split.
  - intros (Hl & size & Hs & Hr). rewrite !require_Ok, Hn, negb_true_iff, Z.ltb_ge in Hr. destruct Hr as (Hz & Hc & Ho & _).
    apply block_size_spec in Hs as (s & Hs & ->). split; [by exists cb, others|]. split; [exact Hl|]. exists s. exact (conj Hs Hz).
  - intros ((cb' & o' & Hv & Hc & Ho) & Hl & s & Hs & Hz). rewrite E in Hv. injection Hv as <- <-. split; [done|].
    exists (Z.of_nat (length s)). split; [apply block_size_spec; by exists s|]. rewrite !require_Ok, Hn, negb_true_iff, Z.ltb_ge. done.
Qed.

Lemma CheckBlock_spec (b : CBlockInMemory) cp verifier pow merkle hash :
  header_GetHash b = Ok hash -> fChecked b = false ->
  forall b', CheckBlock b cp verifier pow merkle = Ok b'
    <-> block_valid b cp verifier pow merkle hash /\ b' = BlockInMemory (m_header b) (m_vtx b) (pow && merkle).
Proof.
  intros Hh Hf b'. unfold CheckBlock. rewrite Hf. repeat setoid_rewrite bindR_iff.
  assert (Hm : (if merkle then check_merkle_root b else Ok tt) = Ok tt
               <-> (merkle = true -> BlockMerkleRoot (m_vtx b) = Some (hb_hashMerkleRoot b, false))).
  { destruct merkle; [rewrite check_merkle_root_spec|]; naive_solver. }
  assert (Ht : check_transactions verifier (m_vtx b) = Ok tt <-> Forall (tx_checked verifier) (m_vtx b)).
  { rewrite (check_all_spec (fun t : CTransaction => CheckTransaction verifier t) (check_transactions verifier)) by done.
    split; intros Hl; eapply Forall_impl; [exact Hl|intros t; apply CheckTransaction_spec|exact Hl|intros t; apply CheckTransaction_spec]. }
  split.
  - intros ([] & R1 & [] & R2 & [] & R3 & [] & R4 & n & R5 & R6). apply require_Ok in R6 as [R6 [= <-]]. split; [|done].
    rewrite (CheckBlockHeader_spec b cp pow hash Hh) in R1. rewrite Hm in R2. rewrite check_block_sizes_spec in R3. rewrite Ht in R4.
    apply negb_true_iff, Z.ltb_ge in R6. destruct R1, R3 as (? & ?). constructor; try done. by exists n.
  - intros [[V1 V2 V3 V4 V5 V6 (n & V7 & V8)] ->]. exists tt. split; [by apply (CheckBlockHeader_spec b cp pow hash Hh)|].
    exists tt. split; [by apply Hm|]. exists tt. split; [by apply check_block_sizes_spec|]. exists tt. split; [by apply Ht|].
    exists n. split; [done|]. apply require_Ok. split; [|done]. by apply negb_true_iff, Z.ltb_ge.
Qed.

(** The ids of the transactions of a block that passes the checks are the ones
    its header commits to. *)
Lemma accepted_ids (b1 b2 : CBlockInMemory) cp v1 v2 p1 p2 h1 h2 k :
  block_valid b1 cp v1 p1 true h1 -> block_valid b2 cp v2 p2 true h2 -> hb_hashMerkleRoot b1 = hb_hashMerkleRoot b2 ->
  Forall hash256 (map tx_hash (m_vtx b1)) -> Forall hash256 (map tx_hash (m_vtx b2)) ->
  tree_height 32 (length (m_vtx b1)) 0 = Some k -> tree_height 32 (length (m_vtx b2)) 0 = Some k ->
  map tx_hash (m_vtx b1) = map tx_hash (m_vtx b2)
  \/ sha256d_collision (tree_messages (map tx_hash (m_vtx b1)) k 0 ++ tree_messages (map tx_hash (m_vtx b2)) k 0)%list.
Proof.
  intros V1 V2 Hr L1 L2 K1 K2.
  assert (Hlen : forall b v p h, block_valid b cp v p true h -> 0 < Z.of_nat (length (map tx_hash (m_vtx b))) <= 2 ^ 31).
  { intros b v p h [_ _ _ (cb & os & Hc & _) [Hs _] _ _]. rewrite length_map. split; [rewrite Hc; cbn; lia|].
    transitivity MAX_BLOCK_SIZE; [exact Hs|by unfold MAX_BLOCK_SIZE]. }
  apply (merkle_root_binds _ _ k (hb_hashMerkleRoot b1)); try done.
  - by apply (Hlen b1 v1 p1 h1).
  - by apply (Hlen b2 v2 p2 h2).
  - by rewrite length_map.
  - by rewrite length_map.
  - by apply (bv_merkle _ _ _ _ _ _ V1).
  - rewrite Hr. by apply (bv_merkle _ _ _ _ _ _ V2).
Qed.

(** Checking less is weaker. *)
Lemma block_valid_weaken (b : CBlockInMemory) cp verifier pow merkle verifier' pow' merkle' hash :
  (verifier' = true -> verifier = true) -> (pow' = true -> pow = true) -> (merkle' = true -> merkle = true) ->
  block_valid b cp verifier pow merkle hash -> block_valid b cp verifier' pow' merkle' hash.
Proof.
  intros Hv Hp Hm [V1 V2 V3 V4 V5 V6 V7]. constructor; try done; [auto..|]. eapply Forall_impl; [exact V6|]. intros t [Ht Hj]. split; [done|].
  eapply Forall_impl; [exact Hj|]. intros j. cbn beta. destruct verifier'; [by rewrite (Hv eq_refl)|done].
Qed.

(** C7: a block that is already marked as checked is accepted as it is. For any
    other block the checks that need no context accept exactly the blocks that
    satisfy the declared rules: the version, a valid Equihash solution and proof
    of work unless the block is the genesis block or the test is switched off, a
    Merkle root that is the root of the transactions and of no list with
    duplicated subtrees unless that test is switched off, one coinbase
    transaction in front, the limits on size and signature operations, and every
    transaction valid, with its joinsplit proofs if the verifier is enabled. The
    block returned is the same block, marked as checked exactly when proof of
    work and Merkle root were tested: also when the verifier was disabled and no
    proof was verified. Two accepted unmarked blocks with one Merkle root and
    trees of one height hold the same transaction ids, unless two of the strings
    hashed for the two trees are a collision. *)
Theorem check_block_exact (b : CBlockInMemory) cp verifier pow merkle hash :
  header_GetHash b = Ok hash ->
  (fChecked b = true -> CheckBlock b cp verifier pow merkle = Ok b)
  /\ (fChecked b = false -> forall b', CheckBlock b cp verifier pow merkle = Ok b'
       <-> block_valid b cp verifier pow merkle hash /\ b' = BlockInMemory (m_header b) (m_vtx b) (pow && merkle))
  /\ (forall (b2 : CBlockInMemory) hash2 b' b2' k,
       header_GetHash b2 = Ok hash2 -> fChecked b = false -> fChecked b2 = false -> merkle = true ->
       CheckBlock b cp verifier pow merkle = Ok b' -> CheckBlock b2 cp verifier pow merkle = Ok b2' ->
       hb_hashMerkleRoot b = hb_hashMerkleRoot b2 ->
       Forall hash256 (map tx_hash (m_vtx b)) -> Forall hash256 (map tx_hash (m_vtx b2)) ->
       tree_height 32 (length (m_vtx b)) 0 = Some k -> tree_height 32 (length (m_vtx b2)) 0 = Some k ->
       map tx_hash (m_vtx b) = map tx_hash (m_vtx b2)
       \/ sha256d_collision (tree_messages (map tx_hash (m_vtx b)) k 0 ++ tree_messages (map tx_hash (m_vtx b2)) k 0)%list).
Proof.
  intros Hh. split; [intros Hf; unfold CheckBlock; by rewrite Hf|]. split; [intros Hf; by apply CheckBlock_spec|].
  intros b2 hash2 b' b2' k Hh2 Hf Hf2 -> C1 C2 Hr.
  apply (CheckBlock_spec b cp verifier pow true hash Hh Hf) in C1 as [V1 _].
  apply (CheckBlock_spec b2 cp verifier pow true hash2 Hh2 Hf2) in C2 as [V2 _].
  exact (accepted_ids b b2 cp _ _ _ _ _ _ k V1 V2 Hr).
Qed.
End accepted.

#[local] Existing Instance Validation.toy_blake.
#[local] Existing Instance toy_verifier.
#[local] Existing Instance toy_hash.
Definition toy_coinbase (script : CScript) : CTransaction :=
  Transaction (MutableTransaction true 4 SAPLING_VERSION_GROUP_ID [TxIn (OutPoint null256 0xFFFFFFFF) script 0xFFFFFFFF]
    [TxOut 1250000000 [81]] 0 0 0 [] [] [] null256 (replicate 64 0) (replicate 64 0)) (replicate 32 5).
Definition toy_block (version : Z) (script : CScript) : CBlockInMemory :=
  BlockInMemory (BlockHeader version null256 (replicate 32 5) null256 1478403829 0x1f07ffff null256 []) [toy_coinbase script] false.

Lemma SerializeHash_Ok {A} (c : codec A) a b : Serialize c a = Ok b -> exists h, SerializeHash c a = Ok h.
Proof. intros Hb. unfold SerializeHash. rewrite Hb. by eexists. Qed.

Lemma check_block_exact_witness :
  exists hash, block_valid (toy_block 4 [0; 0]) (CMainParams [] [] []) true false true hash
    /\ ~ block_valid (toy_block 3 [0; 0]) (CMainParams [] [] []) true false true hash.
Proof.
  assert (exists hash, header_GetHash (toy_block 4 [0; 0]) = Ok hash) as [hash Hh].
  { eapply SerializeHash_Ok. vm_compute. reflexivity. }
  exists hash.
  destruct (check_block_exact (toy_block 4 [0; 0]) (CMainParams [] [] []) true false true hash Hh) as [_ [Hiff _]]. specialize (Hiff eq_refl).
  split; [|intros [Hv _ _ _ _ _ _]; clear - Hv; unfold MIN_BLOCK_VERSION in Hv; cbn in Hv; lia].
  apply (Hiff (BlockInMemory (m_header (toy_block 4 [0; 0])) (m_vtx (toy_block 4 [0; 0])) false)).
  assert (Hhd : CheckBlockHeader (toy_block 4 [0; 0]) (CMainParams [] [] []) false = Ok tt).
  { apply (CheckBlockHeader_spec _ _ _ hash Hh). clear. split; [unfold MIN_BLOCK_VERSION; cbn; lia|intros Hx; discriminate Hx]. }
  unfold CheckBlock.
  rewrite Hhd.
  clear.
  vm_compute.
  reflexivity.
Defined.

(** ** Rules against the chain *)

(** The last known checkpoint is the first of the list that is in the index. *)
Lemma GetLastCheckpoint_spec m cps p :
  GetLastCheckpoint m cps = Some p
  <-> exists pre h hash post, cps = (pre ++ (h, hash) :: post)%list /\ Forall (fun c => m !! snd c = None) pre /\ m !! hash = Some p.
Proof.
  induction cps as [|[h hash] cps IH]; cbn [GetLastCheckpoint]; [by split; [|intros ([] & ? & ? & ? & ? & _)]|].
  destruct (m !! hash) as [q|] eqn:E.
  - split.
    + intros [= <-]. by exists [], h, hash, cps.
    + intros (pre & h' & hash' & post & Hc & Hp & Hq). destruct pre as [|c pre]; injection Hc as <- ?; [congruence|].
      apply Forall_cons in Hp as [Hp _]. cbn in Hp. congruence.
  - rewrite IH. split.
    + intros (pre & h' & hash' & post & -> & Hp & Hq). exists ((h, hash) :: pre), h', hash', post. by repeat constructor.
    + intros (pre & h' & hash' & post & Hc & Hp & Hq). destruct pre as [|c pre]; injection Hc as <- ->; [congruence|].
      apply Forall_cons in Hp as [_ Hp]. by exists pre, h', hash', post.
Qed.

(** The header rules at [height], on a chain whose next work is [work] and
    whose median time is [past]. *)
Record header_valid_at (n : node) (b : CBlockHeader) (cp : CChainParams) (pow : bool) (height work past : Z) : Prop := {
  hv_solution : pow = true -> checkEHParamaters (Z.of_nat (length (hb_nSolution b))) height cp = true;
  hv_bits : hb_nBits b = work;
  hv_after : past < GetBlockTime b;
  hv_before : GetBlockTime b <= GetTime n + GetFutureBlockTimeWindow cp height;
  hv_checkpoint : fCheckpointsEnabled n = true -> forall c cb, GetLastCheckpoint (mapBlockIndex n) (mapCheckpoints n) = Some c ->
    deref (block_index n) c = Ok cb -> nHeight cb <= height;
  hv_version : 4 <= hb_nVersion b
}.

(** The index: what the map points to is in it, heights are nonnegative. *)
Definition index_ok (n : node) : Prop :=
  forall hash c, mapBlockIndex n !! hash = Some c -> exists cb, deref (block_index n) c = Ok cb /\ 0 <= nHeight cb < 2 ^ 31.

Lemma last_checkpoint_in n c : index_ok n -> GetLastCheckpoint (mapBlockIndex n) (mapCheckpoints n) = Some c ->
  exists cb, deref (block_index n) c = Ok cb /\ 0 <= nHeight cb < 2 ^ 31.
Proof. intros Hn Hc. apply GetLastCheckpoint_spec in Hc as (? & ? & hash & ? & _ & _ & Hm). by apply (Hn hash). Qed.

Lemma checkpoint_check n height :
  index_ok n -> 0 <= height < 2 ^ 31 ->
  (exists old, (if fCheckpointsEnabled n then
      match GetLastCheckpoint (mapBlockIndex n) (mapCheckpoints n) with
      | None => Ok false
      | Some c => let* b := of_chain_error (deref (block_index n) c) in Ok (height <? to_u32 (nHeight b))
      end else Ok false) = Ok old
    /\ (old = false <-> (fCheckpointsEnabled n = true -> forall c cb, GetLastCheckpoint (mapBlockIndex n) (mapCheckpoints n) = Some c ->
          deref (block_index n) c = Ok cb -> nHeight cb <= height))).
Proof.
  intros Hn Hh. destruct (fCheckpointsEnabled n); [|by exists false].
  destruct (GetLastCheckpoint _ _) as [c|] eqn:E; [|exists false; naive_solver].
  destruct (last_checkpoint_in n c Hn E) as (cb & Hd & Hb). rewrite Hd. cbn. exists (height <? to_u32 (nHeight cb)). split; [done|].
  rewrite (wrap_small 32) by (unfold uint; lia). rewrite Z.ltb_ge. split; [|by intros Hx; apply (Hx eq_refl c)].
  intros Hle _ c' cb' [= <-] Hd'. rewrite Hd in Hd'. by injection Hd' as <-.
Qed.

(** C10: the contextual checks of a header, after a block at height [height - 1],
    accept the genesis block and exactly the headers that follow the rules: an
    Equihash solution of a size allowed at the height, the difficulty that
    [GetNextWorkRequired] computes, a time after the median of the past blocks
    and at most the allowed window ahead of the node's clock, no fork below the
    last known checkpoint, and version 4 or more. *)
Theorem contextual_header_exact n b cp p prev pow hash work past :
  header_GetHash b = Ok hash -> deref (block_index n) p = Ok prev -> 0 <= nHeight prev < 2 ^ 31 - 1 -> index_ok n ->
  GetNextWorkRequired (block_index n) (Some p) (Some b) cp (consensus cp) = Ok work ->
  GetMedianTimePast (block_index n) p = Ok past ->
  sint 64 (GetTime n + GetFutureBlockTimeWindow cp (nHeight prev + 1)) ->
  ContextualCheckBlockHeader n b cp (Some p) pow = Ok tt
  <-> hash = hashGenesisBlock (consensus cp) \/ header_valid_at n b cp pow (nHeight prev + 1) work past.
Proof.
  intros Hh Hp Hr Hn Hw Hm Ht. unfold ContextualCheckBlockHeader. rewrite Hh. cbn [of_writer bindR].
  case_bool_decide as Hg; [naive_solver|]. rewrite Hp. cbn [of_chain_error bindR].
  rewrite (wrap_small 32 (nHeight prev + 1)) by (unfold uint; lia). rewrite (swrap_small 32) by (unfold sint; lia).
  rewrite Hw, Hm. cbn [of_pow of_chain_error bindR].
  destruct (checkpoint_check n (nHeight prev + 1) Hn) as (old & Ho & Hold); [lia|].
  rewrite Ho. cbn [bindR]. rewrite (swrap_small 64 _ eq_refl Ht), !require_Ok, !negb_true_iff, !Z.ltb_ge, Z.eqb_eq, Z.ltb_lt, orb_true_iff, negb_true_iff, Hold.
  split.
  - intros (H1 & H2 & H3 & H4 & H5 & H6 & _). right. constructor; try done. intros ->. by destruct H1.
  - intros [?|[H1 H2 H3 H4 H5 H6]]; [done|]. split_and!; try done. destruct pow; [right|left]; auto.
Qed.

Lemma contextual_header_exact_witness :
  let n time := Node example_tree {[ replicate 32 1 := 1%positive ]} time true [(5, replicate 32 9); (0, replicate 32 1)] in
  let b := BlockHeader 4 null256 (replicate 32 5) null256 1000 0x1f07ffff null256 (replicate 1344 0) in
  ContextualCheckBlockHeader (n 900) b (CMainParams [] [] []) (Some 2%positive) true = Ok tt.
Proof.
  intros n b. assert (exists hash, header_GetHash b = Ok hash) as [hash Hh] by (eapply SerializeHash_Ok; vm_compute; reflexivity).
  apply (contextual_header_exact (n 900) b (CMainParams [] [] []) 2%positive
           (set_links (example_block 700) (Some 1%positive) (Some 1%positive) 1) true hash 0x1f07ffff 700 Hh); clear Hh;
    [reflexivity|done| |vm_compute; reflexivity|vm_compute; reflexivity|by vm_compute|right; constructor; try by vm_compute].
  - intros h c Hc. cbn in Hc. apply lookup_singleton_Some in Hc as [_ <-]. by eexists.
  - intros _ c cb Hc Hd. cbn in Hc. vm_compute in Hc. injection Hc as <-. vm_compute in Hd. injection Hd as <-. done.
Defined.

(** ** The community fee in double precision *)

(** A product of at most 53 bits by [0.05] rounds to the exact twentieth. *)
Lemma fee_product w :
  0 < w < 2 ^ 48 -> round53 (20 * w * fst DOUBLE_005) (60 + snd DOUBLE_005) = (w * 2 ^ (52 - Z.log2 w), 112 - Z.log2 w).
Proof.
  intros Hw. set (e := Z.log2 w). assert (He : 0 <= e < 48) by (split; [apply Z.log2_nonneg|apply Z.log2_lt_pow2; lia]).
  assert (Hlog : 2 ^ e <= w < 2 ^ (e + 1)) by (apply Z.log2_spec; lia).
  assert (He3 : 2 ^ (e + 3) = 2 ^ (e + 1) * 4) by (replace (e + 3) with (e + 1 + 2) by lia; by rewrite Z.pow_add_r by lia).
  assert (Hp : 20 * w * fst DOUBLE_005 = (w * 2 ^ (52 - e)) * 2 ^ (e + 4) + 4 * w).
  { rewrite <- (Z.mul_assoc w), <- Z.pow_add_r by lia. replace (52 - e + (e + 4)) with 56 by lia. cbn. lia. }
  assert (Hl : Z.log2 (20 * w * fst DOUBLE_005) = e + 56).
  { apply Z.log2_unique; [lia|]. cbn [fst DOUBLE_005]. rewrite Z.pow_succ_r, Z.pow_add_r by lia.
    assert (2 ^ (e + 1) <= 2 ^ 48) by (apply Z.pow_le_mono_r; lia). rewrite (Z.pow_add_r 2 e 1) in Hlog by lia. lia. }
  unfold round53. rewrite Hl. destruct (Z.leb_spec (e + 56 + 1 - 53) 0); [lia|]. replace (e + 56 + 1 - 53) with (e + 4) by lia.
  rewrite Hp. assert (0 < 2 ^ (e + 4)) by lia. assert (He4 : 2 ^ (e + 4) = 2 * 2 ^ (e + 3)) by (rewrite <- Z.pow_succ_r by lia; f_equal; lia).
  rewrite Z.div_add_l, (Z.div_small (4 * w)), Z.add_0_r by lia. rewrite (Z.add_comm _ (4 * w)), Z_mod_plus_full, Z.mod_small by lia.
  replace (e + 4 - 1) with (e + 3) by lia. destruct (Z.ltb_spec (2 ^ (e + 3)) (4 * w)), (Z.eqb_spec (2 ^ (e + 3)) (4 * w)); try lia.
  cbn [orb andb snd DOUBLE_005]. f_equal. lia.
Qed.

Lemma round53_small n s : 0 <= n < 2 ^ 53 -> round53 n s = (n, s).
Proof.
  intros Hn. unfold round53. destruct (Z.leb_spec (Z.log2 n + 1 - 53) 0) as [|Hk]; [done|]. exfalso.
  assert (0 < n) by (destruct (Z.eq_dec n 0) as [->|]; [by cbn in Hk|lia]).
  assert (Z.log2 n < 53) by (apply Z.log2_lt_pow2; lia). lia.
Qed.

(** A larger number stays large. *)
Lemma round53_large n s :
  2 ^ 53 <= n -> exists q k, round53 n s = (q, s - k) /\ k = Z.log2 n - 52 /\ 0 < k /\ 2 ^ 53 <= q * 2 ^ k.
Proof.
  intros Hn. unfold round53. set (k := Z.log2 n + 1 - 53). assert (Hlog : 53 <= Z.log2 n) by (apply Z.log2_le_pow2; lia).
  destruct (Z.leb_spec k 0) as [|Hk]; [lia|]. eexists _, k. split; [reflexivity|]. split; [lia|]. split; [lia|].
  assert (Hq : 2 ^ 52 <= n / 2 ^ k).
  { apply Z.div_le_lower_bound; [lia|]. rewrite <- Z.pow_add_r by lia. replace (k + 52) with (Z.log2 n) by lia. apply Z.log2_spec. lia. }
  assert (2 ^ 1 <= 2 ^ k) by (apply Z.pow_le_mono_r; lia). assert (2 ^ 53 = 2 ^ 52 * 2 ^ 1) by (rewrite <- Z.pow_add_r by lia; done).
  destruct (_ || _); nia.
Qed.

(** The comparison of the code is the exact one: five percent of a subsidy that
    is a multiple of 20. *)
Lemma is_community_fee_exact v w : 0 < w < 2 ^ 48 -> 0 <= v < 2 ^ 63 -> is_community_fee v (20 * w) = bool_decide (v = w).
Proof.
  intros Hw Hv. assert (He : 0 <= Z.log2 w < 48) by (split; [apply Z.log2_nonneg|apply Z.log2_lt_pow2; lia]).
  unfold is_community_fee. rewrite (round53_small (20 * w)) by lia. rewrite fee_product by done.
  destruct (Z.leb_spec 0 v); [|lia]. cbn [andb]. unfold double_equal.
  assert (Hlt : w * 2 ^ (52 - Z.log2 w) * 2 ^ 60 = w * 2 ^ (112 - Z.log2 w)).
  { rewrite <- (Z.mul_assoc w), <- Z.pow_add_r by lia. do 2 f_equal. lia. }
  apply eq_bool_prop_intro. destruct (decide (v < 2 ^ 53)) as [Hs|Hs].
  - rewrite round53_small by lia. cbn [fst snd]. rewrite Hlt, bool_decide_spec, Is_true_true, Z.eqb_eq.
    assert (0 < 2 ^ (112 - Z.log2 w)) by lia. split; [intros Hx; nia|by intros ->].
  - destruct (round53_large v 60) as (q & k & -> & Hk & Hk0 & Hq); [lia|]. cbn [fst snd].
    assert (Z.log2 v < 63) by (apply Z.log2_lt_pow2; lia).
    rewrite bool_decide_spec, Is_true_true, Z.eqb_eq. split; [|lia]. intros Hx. exfalso.
    assert (Hm : q * 2 ^ (112 - Z.log2 w) * 2 ^ k = w * 2 ^ (112 - Z.log2 w)).
    { rewrite Hx, <- Hlt, <- (Z.mul_assoc _ (2 ^ (60 - k))), <- Z.pow_add_r by lia. do 2 f_equal. lia. }
    assert (0 < 2 ^ (112 - Z.log2 w)) by lia. nia.
Qed.

Lemma pays_community_fee_spec scr w outs :
  0 < w < 2 ^ 48 -> Forall (fun o => sint 64 (nValue o)) outs ->
  exists found, pays_community_fee (Ok scr) (Ok (20 * w)) outs = Ok found
    /\ (found = true <-> exists o, o ∈ outs /\ scriptPubKey o = scr /\ 20 * nValue o = 20 * w).
Proof.
  intros Hw. induction 1 as [|o outs Ho _ (found & IH & Hiff)].
  { exists false. split; [done|]. split; [done|]. by intros (o & Hin%elem_of_nil & _). }
  cbn [pays_community_fee bindR]. rewrite IH. assert (Hfee : is_community_fee (nValue o) (20 * w) = bool_decide (nValue o = w)).
  { destruct Ho as [Hl Hu]. destruct (decide (0 <= nValue o)) as [Hp|Hp]; [by apply is_community_fee_exact|].
    unfold is_community_fee. destruct (round53 (20 * w) 60) as [m s], (round53 (m * _) _) as [p t]. rewrite bool_decide_false by lia.
    by destruct (Z.leb_spec 0 (nValue o)); [lia|]. }
  rewrite Hfee. destruct (bool_decide_reflect (scriptPubKey o = scr)) as [Hs|Hs];
    [destruct (bool_decide_reflect (nValue o = w)) as [Hv|Hv]|]; cbn [bindR].
  - exists true. split; [done|]. split; [|done]. intros _. exists o. rewrite elem_of_cons. split_and!; [by left|done|lia].
  - exists found. split; [done|]. rewrite Hiff. setoid_rewrite elem_of_cons. split; [naive_solver|].
    intros (o' & [->|Hin] & Hx & Hy); [lia|by exists o'].
  - exists found. split; [done|]. rewrite Hiff. setoid_rewrite elem_of_cons. naive_solver.
Qed.

(** ** Coinbase scripts commit to the height *)

Lemma push_height h :
  50 < h < 2 ^ 31 -> push_int64 [] h = (Z.of_nat (length (num_serialize h)) :: num_serialize h)%list /\ set_vch (num_serialize h) = Ok h.
Proof.
  intros Hh. assert (Hs : sint 64 h) by (unfold sint; lia). split; [|by apply serialize_decodes].
  destruct (num_serialize_spec h Hs) as (n & Hn & Hl & _); [lia|unfold INT64_MIN; lia|]. unfold push_int64, push_data.
  destruct (Z.eqb_spec h (-1)), (Z.leb_spec h 16), (Z.eqb_spec h 0); try lia. rewrite andb_false_r. cbn [orb opcode_value].
  rewrite Hl. destruct (Z.ltb_spec (Z.of_nat (S n)) 76) as [|Hx]; [|lia]. rewrite wrap_small by (unfold uint; lia). done.
Qed.

Lemma push_height_prefix h h' r r' :
  50 < h < 2 ^ 31 -> 50 < h' < 2 ^ 31 -> (push_int64 [] h ++ r)%list = (push_int64 [] h' ++ r')%list -> h = h'.
Proof.
  intros Hh Hh' He. destruct (push_height h Hh) as [E D]. destruct (push_height h' Hh') as [E' D'].
  rewrite E, E' in He. injection He as Hl He. apply app_inj_1 in He as [He _]; [|lia]. congruence.
Qed.

Section contents.
Context `{Blake2b} `{ShieldedVerifier}.

(** The rules of the contents of a block at [height]: [scr] and [subsidy] are
    the community script and the subsidy of the height. *)
Record block_valid_at (b : CBlockInMemory) (cp : CChainParams) (ibd : bool) (height : Z) (canopy : bool) (scr : CScript) (subsidy : Z)
  : Prop := {
  ba_transactions : Forall (fun t : CTransaction =>
    ContextualCheckTransaction t cp height 100 ibd = Ok tt /\ IsFinalTx t height (GetBlockTime b) = true) (m_vtx b);
  ba_height : 50 < height -> exists rest, coinbase_script b = Some (push_int64 [] height ++ rest)%list;
  ba_fee : canopy = false -> GetCommunityFeeStartHeight (consensus cp) < height <= GetLastCommunityFeeBlockHeight (consensus cp) ->
    exists coinbase others o, m_vtx b = coinbase :: others /\ o ∈ vout coinbase /\ scriptPubKey o = scr /\ 20 * nValue o = subsidy
}.

Lemma check_final_spec cp height ibd time vtx :
  check_final cp height ibd time vtx = Ok tt
  <-> Forall (fun t : CTransaction => ContextualCheckTransaction t cp height 100 ibd = Ok tt /\ IsFinalTx t height time = true) vtx.
Proof.
  induction vtx as [|t vtx IH]; [by split|]. cbn [check_final]. rewrite bindR_iff, Forall_cons, <- IH. split.
  - intros ([] & Ht & Hr). apply require_Ok in Hr. naive_solver.
  - intros [[Ht Hf] Hr]. exists tt. split; [done|]. by apply require_Ok.
Qed.

Lemma check_coinbase_height_spec b height :
  check_coinbase_height b height = Ok tt <-> (50 < height -> exists rest, coinbase_script b = Some (push_int64 [] height ++ rest)%list).
Proof.
  unfold check_coinbase_height. destruct (Z.ltb_spec 50 height) as [Hh|]; [|by split; [lia|]].
  destruct (coinbase_script b) as [s|]; [|by split; [|intros Hx; destruct (Hx Hh)]]. rewrite require_Ok, bool_decide_eq_true. split.
  - intros [Ht _] _. exists (drop (length (push_int64 [] height)) s). rewrite <- Ht at 1. by rewrite take_drop.
  - intros Hx. destruct (Hx Hh) as [rest [= ->]]. by rewrite take_app_length.
Qed.

Lemma check_fee_spec kc b cp height canopy scr w :
  NetworkUpgradeActive (consensus cp) height UPGRADE_CANOPY = Ok canopy ->
  (canopy = false -> GetCommunityFeeStartHeight (consensus cp) < height <= GetLastCommunityFeeBlockHeight (consensus cp) ->
   GetCommunityFeeScriptAtHeight kc cp height = Ok scr /\ GetBlockSubsidy height (consensus cp) = Ok (20 * w)) ->
  0 < w < 2 ^ 48 -> Forall (fun t : CTransaction => Forall (fun o => sint 64 (nValue o)) (vout t)) (m_vtx b) ->
  check_community_fee kc b cp height = Ok tt
  <-> (canopy = false -> GetCommunityFeeStartHeight (consensus cp) < height <= GetLastCommunityFeeBlockHeight (consensus cp) ->
       exists coinbase others o, m_vtx b = coinbase :: others /\ o ∈ vout coinbase /\ scriptPubKey o = scr /\ 20 * nValue o = 20 * w).
Proof.
  intros Hc Hfee Hw Hv. unfold check_community_fee. rewrite Hc. cbn [of_param bindR]. destruct canopy; [naive_solver|].
  destruct (Z.ltb_spec (GetCommunityFeeStartHeight (consensus cp)) height) as [H1|H1]; [|cbn [andb]; split; [lia|done]].
  destruct (Z.leb_spec height (GetLastCommunityFeeBlockHeight (consensus cp))) as [H2|H2]; [|cbn [andb]; split; [lia|done]].
  cbn [andb]. destruct (Hfee eq_refl (conj H1 H2)) as [-> ->]. cbn [of_param].
  destruct (m_vtx b) as [|cb others]; [naive_solver|]. apply Forall_cons in Hv as [Hv _].
  destruct (pays_community_fee_spec scr w (vout cb) Hw Hv) as (found & -> & Hiff). cbn [bindR]. rewrite require_Ok, Hiff. naive_solver.
Qed.

(** C9: the contextual checks of a block accept exactly the blocks whose
    transactions are all valid and final at the height, whose coinbase script
    starts with the height above height 50, and whose coinbase pays, where the
    community fee is due, exactly five percent of the subsidy to the community
    script of the height: the comparison in double precision is exact. Accepted
    blocks of different heights above 50 have different coinbase scripts. *)
Theorem contextual_block_exact kc n b cp p prev ibd canopy scr w :
  deref (block_index n) p = Ok prev -> 0 <= nHeight prev < 2 ^ 31 - 1 ->
  NetworkUpgradeActive (consensus cp) (nHeight prev + 1) UPGRADE_CANOPY = Ok canopy ->
  (canopy = false -> GetCommunityFeeStartHeight (consensus cp) < nHeight prev + 1 <= GetLastCommunityFeeBlockHeight (consensus cp) ->
   GetCommunityFeeScriptAtHeight kc cp (nHeight prev + 1) = Ok scr /\ GetBlockSubsidy (nHeight prev + 1) (consensus cp) = Ok (20 * w)) ->
  0 < w < 2 ^ 48 -> Forall (fun t : CTransaction => Forall (fun o => sint 64 (nValue o)) (vout t)) (m_vtx b) ->
  (ContextualCheckBlock kc n b cp (Some p) ibd = Ok tt <-> block_valid_at b cp ibd (nHeight prev + 1) canopy scr (20 * w))
  /\ (forall b' height' canopy' scr' subsidy', ContextualCheckBlock kc n b cp (Some p) ibd = Ok tt ->
        block_valid_at b' cp ibd height' canopy' scr' subsidy' -> 50 < nHeight prev + 1 -> 50 < height' < 2 ^ 31 ->
        nHeight prev + 1 <> height' -> coinbase_script b <> coinbase_script b').
Proof.
  intros Hp Hr Hc Hfee Hw Hv.
  assert (Hiff : ContextualCheckBlock kc n b cp (Some p) ibd = Ok tt <-> block_valid_at b cp ibd (nHeight prev + 1) canopy scr (20 * w)).
  { unfold ContextualCheckBlock. rewrite Hp. cbn [of_chain_error bindR]. rewrite (swrap_small 32) by (unfold sint; lia).
    rewrite bindR_iff. setoid_rewrite bindR_iff. setoid_rewrite check_fee_spec; [|done..].
    split; [intros ([] & R1 & [] & R2 & R3)|intros [R1 R2 R3]; exists tt; split; [|exists tt; split]].
    - constructor; [by apply check_final_spec|by apply check_coinbase_height_spec|exact R3].
    - by apply check_final_spec.
    - by apply check_coinbase_height_spec.
    - exact R3. }
  split; [exact Hiff|]. intros b' height' canopy' scr' subsidy' Ha [_ Hb _] Hh Hh' Hne He. apply Hiff in Ha as [_ Ha _].
  destruct (Ha Hh) as [r Hs], (Hb (proj1 Hh')) as [r' Hs']. apply Hne.
  apply (push_height_prefix _ _ r r'); [lia|lia|]. congruence.
Qed.
End contents.

(** A block of the main network that pays the first community address. *)
Definition fee_block (v : Z) : CBlockInMemory :=
  let script := [169; 20; 215; 76; 196; 153; 78; 58; 31; 38; 139; 211; 159; 10; 26; 196; 130; 78; 97; 242; 221; 169; 135] in
  BlockInMemory (BlockHeader 4 null256 (replicate 32 5) null256 1478403829 0x1f07ffff null256 [])
    [Transaction (MutableTransaction true 4 SAPLING_VERSION_GROUP_ID [TxIn (OutPoint null256 0xFFFFFFFF) (push_int64 [] 400000 ++ [0])%list 0xFFFFFFFF]
      [TxOut 1187500000000 [81]; TxOut v script] 0 0 0 [] [] [] null256 (replicate 64 0) (replicate 64 0)) (replicate 32 5)] false.

Lemma contextual_block_exact_witness :
  let cp := CMainParams [] [] ["t3eC2B44yVkyj7Q7RMkfBhkDisc4ieYtv5d"] in
  let n := Node {[ 1%positive := set_links (example_block 700) None None 399999 ]} ∅ 0 true [] in
  ContextualCheckBlock main_prefixes n (fee_block 62500000000) cp (Some 1%positive) false = Ok tt
  /\ ContextualCheckBlock main_prefixes n (fee_block 62499999999) cp (Some 1%positive) false <> Ok tt.
Proof.
  intros cp n.
  assert (Hiff : forall v, 0 <= v < 2 ^ 63 -> ContextualCheckBlock main_prefixes n (fee_block v) cp (Some 1%positive) false = Ok tt
    <-> block_valid_at (fee_block v) cp false 400000 false (scriptPubKey (nth 1 (vout (nth 0 (m_vtx (fee_block 0)) (toy_coinbase []))) (TxOut 0 [])))
          (20 * 62500000000)).
  { intros v Hv. apply (contextual_block_exact main_prefixes n (fee_block v) cp 1%positive (set_links (example_block 700) None None 399999) false false
      _ 62500000000); [reflexivity|done|reflexivity|intros _ _; split; vm_compute; reflexivity|done|].
    unfold fee_block. repeat constructor; cbn; lia. }
  split.
  - vm_compute. reflexivity.
  - rewrite Hiff by lia. intros [_ _ Hf]. destruct (Hf eq_refl) as (cb & os & o & [= <- <-] & Ho & Hs & Hv); [by vm_compute|].
    cbn in Ho. rewrite !elem_of_cons, elem_of_nil in Ho. destruct Ho as [->|[->|[]]]; [done|]. cbn in Hv. lia.
Defined.
