(* ===== verification/Connect.v ===== *)
(** * Connecting and disconnecting blocks (src/main.cpp, undo.h)

    A block is connected to a coins view: its transactions are checked against
    the view, their inputs are spent and their outputs added, and what is needed
    to take them back is written as undo data. The code runs on a cache, so it
    is written in the monad [M] of functions from a cache to a cache and a
    result. The view after a rejection is not used: the callers drop it.

    The explorer indexes and the index of transactions are switched off, and
    the undo file is an argument: where a block's undo data is stored, and what
    is read back. The script checks of a block are collected and run at the end
    when there are threads for them. *)

From S2P Require Import Prelude ArithUint Serialize Digest Sha Ripemd Hash Amount Transaction Chain Params Equihash Pow.
From S2P Require Import Script Address Interpreter SigHash Merkle Coins Validation Block.
Local Open Scope string_scope.
Local Open Scope Z_scope.
Local Open Scope code_scope.

(** ** Definitions *)

(** *** Undo data *)

Record CTxInUndo := TxInUndo { u_txout : CTxOut; u_fCoinBase : bool; u_nHeight : Z; u_nVersion : Z }.
Record CTxUndo := TxUndo { vprevout : list CTxInUndo }.
Record CBlockUndo := BlockUndo { vtxundo : list CTxUndo; old_sprout_tree_root : bytes }.

(** What [UpdateCoins] does with the coins of an input: the undo data, or
    [None] for the failed assertion. *)
Definition spend_coins (nPos : Z) (coins : CCoins) : CCoins * option CTxInUndo :=
  match c_vout coins !! Z.to_nat nPos with
  | Some o =>
      if txout_IsNull o then (coins, None)
      else
        let '(coins, _) := coins_Spend coins nPos in
        (coins, Some (match c_vout coins with
                      | [] => TxInUndo o (fCoinBase coins) (to_u32 (c_nHeight coins)) (c_nVersion coins)
                      | _ => TxInUndo o false 0 0
                      end))
  | None => (coins, None)
  end.

(** [resize], which appends null outputs. *)
Definition vout_resize (l : list CTxOut) (n : Z) : list CTxOut :=
  (take (Z.to_nat n) l ++ replicate (Z.to_nat n - length l) txout_null)%list.

(** What [ApplyTxInUndo] does with the coins; the flag is [fClean]. Storing at
    the position [2^32 - 1], where [out.n + 1] wraps, is undefined behaviour of the
    code: nothing is stored here. *)
Definition restore_coins (undo : CTxInUndo) (nPos : Z) (coins : CCoins) : CCoins * bool :=
  let '(coins, fClean) :=
    if negb (u_nHeight undo =? 0) then
      (Coins (u_fCoinBase undo) [] (to_i32 (u_nHeight undo)) (u_nVersion undo), IsPruned coins)
    else (coins, negb (IsPruned coins)) in
  let fClean := fClean && negb (IsAvailable coins nPos) in
  let vout := if Z.of_nat (length (c_vout coins)) <? to_u32 (nPos + 1) then vout_resize (c_vout coins) (to_u32 (nPos + 1)) else c_vout coins in
  (set_vout (<[Z.to_nat nPos := u_txout undo]> vout) coins, fClean).

Definition STANDARD_SCRIPT_VERIFY_FLAGS : Z :=
  fold_left Z.lor [SCRIPT_VERIFY_STRICTENC; SCRIPT_VERIFY_MINIMALDATA; SCRIPT_VERIFY_NULLDUMMY;
                   SCRIPT_VERIFY_DISCOURAGE_UPGRADABLE_NOPS; SCRIPT_VERIFY_CLEANSTACK;
                   SCRIPT_VERIFY_CHECKLOCKTIMEVERIFY; SCRIPT_VERIFY_LOW_S] SCRIPT_VERIFY_P2SH.
Definition MANDATORY_SCRIPT_VERIFY_FLAGS : Z := SCRIPT_VERIFY_P2SH.
Definition STANDARD_NOT_MANDATORY_VERIFY_FLAGS : Z := Z.land STANDARD_SCRIPT_VERIFY_FLAGS (to_u32 (Z.lnot MANDATORY_SCRIPT_VERIFY_FLAGS)).

Definition ScriptErrorString (serror : ScriptError) : string :=
  match serror with
  | SCRIPT_ERR_OK => "No error"
  | SCRIPT_ERR_EVAL_FALSE => "Script evaluated without error but finished with a false/empty top stack element"
  | SCRIPT_ERR_VERIFY => "Script failed an OP_VERIFY operation"
  | SCRIPT_ERR_EQUALVERIFY => "Script failed an OP_EQUALVERIFY operation"
  | SCRIPT_ERR_CHECKMULTISIGVERIFY => "Script failed an OP_CHECKMULTISIGVERIFY operation"
  | SCRIPT_ERR_CHECKSIGVERIFY => "Script failed an OP_CHECKSIGVERIFY operation"
  | SCRIPT_ERR_NUMEQUALVERIFY => "Script failed an OP_NUMEQUALVERIFY operation"
  | SCRIPT_ERR_SCRIPT_SIZE => "Script is too big"
  | SCRIPT_ERR_PUSH_SIZE => "Push value size limit exceeded"
  | SCRIPT_ERR_OP_COUNT => "Operation limit exceeded"
  | SCRIPT_ERR_STACK_SIZE => "Stack size limit exceeded"
  | SCRIPT_ERR_SIG_COUNT => "Signature count negative or greater than pubkey count"
  | SCRIPT_ERR_PUBKEY_COUNT => "Pubkey count negative or limit exceeded"
  | SCRIPT_ERR_BAD_OPCODE => "Opcode missing or not understood"
  | SCRIPT_ERR_DISABLED_OPCODE => "Attempted to use a disabled opcode"
  | SCRIPT_ERR_INVALID_STACK_OPERATION => "Operation not valid with the current stack size"
  | SCRIPT_ERR_INVALID_ALTSTACK_OPERATION => "Operation not valid with the current altstack size"
  | SCRIPT_ERR_OP_RETURN => "OP_RETURN was encountered"
  | SCRIPT_ERR_UNBALANCED_CONDITIONAL => "Invalid OP_IF construction"
  | SCRIPT_ERR_NEGATIVE_LOCKTIME => "Negative locktime"
  | SCRIPT_ERR_UNSATISFIED_LOCKTIME => "Locktime requirement not satisfied"
  | SCRIPT_ERR_SIG_HASHTYPE => "Signature hash type missing or not understood"
  | SCRIPT_ERR_SIG_DER => "Non-canonical DER signature"
  | SCRIPT_ERR_MINIMALDATA => "Data push larger than necessary"
  | SCRIPT_ERR_SIG_PUSHONLY => "Only non-push operators allowed in signatures"
  | SCRIPT_ERR_SIG_HIGH_S => "Non-canonical signature: S value is unnecessarily high"
  | SCRIPT_ERR_SIG_NULLDUMMY => "Dummy CHECKMULTISIG argument must be zero"
  | SCRIPT_ERR_DISCOURAGE_UPGRADABLE_NOPS => "NOPx reserved for soft-fork upgrades"
  | SCRIPT_ERR_PUBKEYTYPE => "Public key is neither compressed or uncompressed"
  | _ => "unknown error"
  end.

(** *** Changes of a block index entry *)

Definition set_sprout_roots (b : CBlockIndex) (anchor final : bytes) : CBlockIndex :=
  BlockIndex (phashBlock b) (pprev b) (pskip b) (nHeight b) (nFile b) (nDataPos b) (nUndoPos b) (nChainWork b) (nTx b)
    (nChainTx b) (nStatus b) (nCachedBranchId b) anchor final (nSproutValue b)
    (nChainSproutValue b) (nSaplingValue b) (nChainSaplingValue b) (bi_nVersion b) (bi_hashMerkleRoot b)
    (bi_hashFinalSaplingRoot b) (bi_nTime b) (bi_nBits b) (bi_nNonce b) (bi_nSolution b) (nSequenceId b).
Definition set_undo_pos (b : CBlockIndex) (pos : Z) : CBlockIndex :=
  BlockIndex (phashBlock b) (pprev b) (pskip b) (nHeight b) (nFile b) (nDataPos b) pos (nChainWork b) (nTx b)
    (nChainTx b) (Z.lor (nStatus b) BLOCK_HAVE_UNDO) (nCachedBranchId b) (Chain.hashSproutAnchor b) (hashFinalSproutRoot b)
    (nSproutValue b) (nChainSproutValue b) (nSaplingValue b) (nChainSaplingValue b) (bi_nVersion b) (bi_hashMerkleRoot b)
    (bi_hashFinalSaplingRoot b) (bi_nTime b) (bi_nBits b) (bi_nNonce b) (bi_nSolution b) (nSequenceId b).
Definition set_branch_id (b : CBlockIndex) (status : Z) (branch : option Z) : CBlockIndex :=
  BlockIndex (phashBlock b) (pprev b) (pskip b) (nHeight b) (nFile b) (nDataPos b) (nUndoPos b) (nChainWork b) (nTx b)
    (nChainTx b) status branch (Chain.hashSproutAnchor b) (hashFinalSproutRoot b)
    (nSproutValue b) (nChainSproutValue b) (nSaplingValue b) (nChainSaplingValue b) (bi_nVersion b) (bi_hashMerkleRoot b)
    (bi_hashFinalSaplingRoot b) (bi_nTime b) (bi_nBits b) (bi_nNonce b) (bi_nSolution b) (nSequenceId b).

Definition of_value {A} (r : result unit A) : result reject A := match r with Ok a => Ok a | Err _ => Err ThrowsValue end.
Definition of_sighash {A} (r : result sighash_exn A) : result reject A := match r with Ok a => Ok a | Err e => Err (ThrowsSigHash e) end.


(** *** Computations on a cache *)

Definition bindM {S A B} (m : S -> S * result reject A) (k : A -> S -> S * result reject B) : S -> S * result reject B :=
  fun c => match m c with (c, Ok a) => k a c | (c, Err e) => (c, Err e) end.
Definition retM {S A} (a : A) : S -> S * result reject A := fun c => (c, Ok a).
Definition failM {S A} (e : reject) : S -> S * result reject A := fun c => (c, Err e).
(** A result that does not use the cache, a query of the cache, and a query that
    may fail. *)
Definition pureM {S A} (r : result reject A) : S -> S * result reject A := fun c => (c, r).
Definition readM {S A} (m : S -> S * A) : S -> S * result reject A := fun c => let '(c, a) := m c in (c, Ok a).
Definition coinsM {S A} (m : S -> S * result coins_error A) : S -> S * result reject A :=
  fun c => match m c with (c, Ok a) => (c, Ok a) | (c, Err e) => (c, Err (ThrowsCoins e)) end.
Definition writeM {S} (f : S -> S) : S -> S * result reject unit := fun c => (f c, Ok tt).

Notation "'do*' x ':=' m 'in' k" := (bindM m (fun x => k)) (at level 200, x pattern, m at level 100, k at level 200) : code_scope.
Notation "'unless' c 'orelse' e 'in' k" := (if (c : bool) then k else failM e) (at level 200, c, e at level 100, k at level 200) : code_scope.

Section connect.
Context {SproutMerkleTree SaplingMerkleTree : Type} `{MerkleTree SproutMerkleTree} `{MerkleTree SaplingMerkleTree}.
Context `{Blake2b} `{ShieldedVerifier} `{EhHash}.

Abbreviation cache := (CCoinsViewCache (SproutMerkleTree := SproutMerkleTree) (SaplingMerkleTree := SaplingMerkleTree)).
Abbreviation M A := (cache -> cache * result reject A).

(** *** Changing the view *)

Fixpoint spend_inputs (ins : list CTxIn) : M (list CTxInUndo) :=
  match ins with
  | [] => retM []
  | i :: ins =>
      do* u := readM (fun c => ModifyCoins c (op_hash (prevout i)) (spend_coins (op_n (prevout i)))) in
      match u with
      | None => failM AssertFails
      | Some u => do* us := spend_inputs ins in retM (u :: us)
      end
  end.
Definition UpdateCoins (t : CTransaction) (height : Z) : M CTxUndo :=
  do* us := if IsCoinBase t then retM [] else spend_inputs (vin t) in
  do* _ := writeM (fun c => SetNullifiers c t true) in
  do* _ := writeM (fun c => ModifyNewCoins c (tx_hash t) (fun _ => FromTx t height)) in
  retM (TxUndo us).

Definition ApplyTxInUndo (undo : CTxInUndo) (out : COutPoint) : M bool :=
  readM (fun c => ModifyCoins c (op_hash out) (restore_coins undo (op_n out))).

(** *** Signature operations of the spent scripts *)

Fixpoint p2sh_sigops (nSigOps : Z) (ins : list CTxIn) : M Z :=
  match ins with
  | [] => retM nSigOps
  | i :: ins =>
      do* o := coinsM (fun c => GetOutputFor c i) in
      if IsPayToScriptHash (scriptPubKey o) then
        do* n := pureM (of_script (GetSigOpCount_p2sh (scriptPubKey o) (scriptSig i))) in
        p2sh_sigops (to_u32 (nSigOps + n)) ins
      else p2sh_sigops nSigOps ins
  end.
Definition GetP2SHSigOpCount (t : CTransaction) : M Z := if IsCoinBase t then retM 0 else p2sh_sigops 0 (vin t).

(** *** Checks of the inputs *)

(** [GetSpendHeight]; a best block that is not in the index is undefined
    behaviour. *)
Definition GetSpendHeight (n : node) : M Z :=
  do* h := readM GetBestBlock in
  match mapBlockIndex n !! h with
  | None => failM (ThrowsPow (PowChain DanglingPointer))
  | Some p => do* b := pureM (of_chain_error (deref (block_index n) p)) in retM (to_i32 (nHeight b + 1))
  end.

(** The value of the inputs, which are mature. *)
Fixpoint check_inputs (shield_coinbase : bool) (t : CTransaction) (nSpendHeight nValueIn : Z) (ins : list CTxIn) : M Z :=
  match ins with
  | [] => retM nValueIn
  | i :: ins =>
      do* coins := readM (fun c => AccessCoins c (op_hash (prevout i))) in
      match coins with
      | None => failM AssertFails
      | Some coins =>
          unless negb (fCoinBase coins && (to_i32 (nSpendHeight - c_nHeight coins) <? COINBASE_MATURITY))
            orelse invalid 0 "bad-txns-premature-spend-of-coinbase" in
          unless negb (fCoinBase coins && (shield_coinbase && nonempty (vout t)))
            orelse invalid 0 "bad-txns-coinbase-spend-has-transparent-outputs" in
          match c_vout coins !! Z.to_nat (op_n (prevout i)) with
          | None => failM AssertFails
          | Some o =>
              let nValueIn := to_i64 (nValueIn + nValue o) in
              unless MoneyRange (nValue o) && MoneyRange nValueIn orelse invalid 100 "bad-txns-inputvalues-outofrange" in
              check_inputs shield_coinbase t nSpendHeight nValueIn ins
          end
      end
  end.

Definition CheckTxInputs (fCoinbaseEnforcedShieldingEnabled : bool) (t : CTransaction) (nSpendHeight : Z) (params : Params) : M unit :=
  do* have := readM (fun c => HaveInputs c t) in
  unless have orelse DoS 0 0 EmptyString false in
  do* shielded := coinsM (fun c => HaveShieldedRequirements c t) in
  unless shielded orelse DoS 0 0 EmptyString false in
  do* nValueIn := check_inputs (fCoinbaseEnforcedShieldingEnabled && fCoinbaseMustBeShielded params) t nSpendHeight 0 (vin t) in
  do* v := pureM (of_value (GetShieldedValueIn t)) in
  let nValueIn := to_i64 (nValueIn + v) in
  unless MoneyRange nValueIn orelse invalid 100 "bad-txns-inputvalues-outofrange" in
  do* out := pureM (of_value (GetValueOut t)) in
  unless negb (nValueIn <? out) orelse invalid 100 "bad-txns-in-belowout" in
  let nTxFee := to_i64 (nValueIn - out) in
  unless negb (nTxFee <? 0) orelse invalid 100 "bad-txns-fee-negative" in
  unless MoneyRange nTxFee orelse invalid 100 "bad-txns-fee-outofrange" in
  retM tt.

(** *** Script checks *)

(** [CheckLowS] and [Verify] are the checks of libsecp256k1; [Verify] stands for
    [VerifySignature] of the caching checker, which also remembers what it has
    verified. *)
Context (CheckLowS : bytes -> bool) (Verify : bytes -> bytes -> bytes -> bool).

Record CScriptCheck := ScriptCheck {
  sc_scriptPubKey : CScript; sc_amount : Z; sc_txTo : CTransaction; sc_nIn : nat; sc_nFlags : Z; sc_consensusBranchId : Z;
  sc_txdata : PrecomputedTransactionData }.

(** [operator()]: the error it leaves, or [None] for [true]. *)
Definition run_check (k : CScriptCheck) : result reject (option ScriptError) :=
  match vin (sc_txTo k) !! sc_nIn k with
  | None => Err AssertFails
  | Some i =>
      match @VerifyScript CheckLowS
              (TransactionSignatureChecker Verify
                 (TransactionSignatureChecker_of (sc_txTo k) (Z.of_nat (sc_nIn k)) (sc_amount k) (Some (sc_txdata k))))
              (scriptSig i) (sc_scriptPubKey k) (sc_nFlags k) (sc_consensusBranchId k) with
      | Ok _ => Ok None
      | Err (Fail e) => Ok (Some e)
      | Err (Throw x) => Err (ThrowsScript x)
      | Err NoFuel => Err AssertFails
      end
  end.

Definition flag_reason (prefix : string) (e : ScriptError) : string := prefix ++ " (" ++ ScriptErrorString e ++ ")".

(** One input: the check to queue, or the check run. *)
Definition check_input (queue : bool) (flags branch : Z) (txdata : PrecomputedTransactionData) (t : CTransaction) (i : nat) (input : CTxIn)
  : M (list CScriptCheck) :=
  do* coins := readM (fun c => AccessCoins c (op_hash (prevout input))) in
  match coins with
  | None => failM AssertFails
  | Some coins =>
      match c_vout coins !! Z.to_nat (op_n (prevout input)) with
      | None => failM AssertFails
      | Some o =>
          let check := ScriptCheck (scriptPubKey o) (nValue o) t i flags branch txdata in
          if queue then retM [check]
          else
            do* r := pureM (run_check check) in
            match r with
            | None => retM []
            | Some e =>
                let failed := DoS 100 REJECT_INVALID (flag_reason "mandatory-script-verify-flag-failed" e) false in
                if has_flag flags STANDARD_NOT_MANDATORY_VERIFY_FLAGS then
                  do* r2 := pureM (run_check (ScriptCheck (scriptPubKey o) (nValue o) t i
                                (Z.land flags (to_u32 (Z.lnot STANDARD_NOT_MANDATORY_VERIFY_FLAGS))) branch txdata)) in
                  match r2 with
                  | None => failM (DoS 0 REJECT_NONSTANDARD (flag_reason "non-mandatory-script-verify-flag" e) false)
                  | Some _ => failM failed
                  end
                else failM failed
            end
      end
  end.
Fixpoint check_scripts (queue : bool) (flags branch : Z) (txdata : PrecomputedTransactionData) (t : CTransaction) (i : nat)
    (ins : list CTxIn) : M (list CScriptCheck) :=
  match ins with
  | [] => retM []
  | input :: ins =>
      do* k := check_input queue flags branch txdata t i input in
      do* ks := check_scripts queue flags branch txdata t (S i) ins in
      retM (k ++ ks)%list
  end.

(** Options of the node that the checks read. *)
Record options := Options { fZIP209Enabled : bool; fCoinbaseEnforcedShieldingEnabled : bool; nScriptCheckThreads : Z }.

(** [ContextualCheckInputs]: the checks that are queued. *)
Definition ContextualCheckInputs (n : node) (opt : options) (t : CTransaction) (fScriptChecks : bool) (flags : Z)
    (txdata : PrecomputedTransactionData) (params : Params) (branch : Z) (pvChecks : bool) : M (list CScriptCheck) :=
  if IsCoinBase t then retM []
  else
    do* h := GetSpendHeight n in
    do* _ := CheckTxInputs (fCoinbaseEnforcedShieldingEnabled opt) t h params in
    if fScriptChecks then check_scripts pvChecks flags branch txdata t 0 (vin t) else retM [].

(** *** Connecting a block *)

Fixpoint check_bip30 (vtx : list CTransaction) : M unit :=
  match vtx with
  | [] => retM tt
  | t :: vtx =>
      do* coins := readM (fun c => AccessCoins c (tx_hash t)) in
      unless match coins with Some coins => IsPruned coins | None => true end orelse invalid 100 "bad-txns-BIP30" in
      check_bip30 vtx
  end.

Definition turnstile_ok (zip209 : bool) (pindex : CBlockIndex) : result reject unit :=
  if zip209 then
    require match nChainSproutValue pindex with Some v => negb (v <? 0) | None => true end
      orelse invalid 100 "turnstile-violation-sprout-shielded-pool" in
    require match nChainSaplingValue pindex with Some v => negb (v <? 0) | None => true end
      orelse invalid 100 "turnstile-violation-sapling-shielded-pool" in Ok tt
  else Ok tt.

Definition of_tree {A} (t : option A) : result reject A := match t with Some t => Ok t | None => Err (ThrowsCoins tree_full) end.

(** What the loop over the transactions accumulates: [vtxundo] in order, and
    the queued script checks. *)
Record connect_state := ConnectState {
  cs_nFees : Z; cs_nSigOps : Z; cs_vtxundo : list CTxUndo; cs_sprout_tree : SproutMerkleTree; cs_sapling_tree : SaplingMerkleTree;
  cs_control : list CScriptCheck }.

(** What a pass reads of the block, the chain and the options. *)
Record connect_env := ConnectEnv {
  ce_node : node; ce_options : options; ce_params : Params; ce_height : Z; ce_branch : Z; ce_flags : Z; ce_fExpensiveChecks : bool }.

Definition check_sigops (nSigOps : Z) : result reject unit :=
  require negb (MAX_BLOCK_SIGOPS <? nSigOps) orelse invalid 100 "bad-blk-sigops" in Ok tt.

(** The checks of a transaction: the fee, the signature operations so far and
    the checks that are queued. *)
Definition check_tx (e : connect_env) (t : CTransaction) (nFees nSigOps : Z) : M (Z * Z * list CScriptCheck) :=
  do* n := pureM (of_script (GetLegacySigOpCount t)) in
  let nSigOps := to_u32 (nSigOps + n) in
  do* _ := pureM (check_sigops nSigOps) in
  if IsCoinBase t then
    do* _ := pureM (of_sighash (PrecomputedTransactionData_of t)) in
    retM (nFees, nSigOps, [])
  else
    do* have := readM (fun c => HaveInputs c t) in
    unless have orelse invalid 100 "bad-txns-inputs-missingorspent" in
    do* shielded := coinsM (fun c => HaveShieldedRequirements c t) in
    unless shielded orelse invalid 100 "bad-txns-joinsplit-requirements-not-met" in
    do* n := GetP2SHSigOpCount t in
    let nSigOps := to_u32 (nSigOps + n) in
    do* _ := pureM (check_sigops nSigOps) in
    do* txdata := pureM (of_sighash (PrecomputedTransactionData_of t)) in
    do* value := coinsM (fun c => GetValueIn c t) in
    do* out := pureM (of_value (GetValueOut t)) in
    do* vChecks := ContextualCheckInputs (ce_node e) (ce_options e) t (ce_fExpensiveChecks e) (ce_flags e) txdata (ce_params e)
                     (ce_branch e) (negb (nScriptCheckThreads (ce_options e) =? 0)) in
    retM (to_i64 (nFees + to_i64 (value - out)), nSigOps, vChecks).

Definition connect_tx (e : connect_env) (first : bool) (t : CTransaction) (s : connect_state) : M connect_state :=
  do* (nFees, nSigOps, vChecks) := check_tx e t (cs_nFees s) (cs_nSigOps s) in
  do* undo := UpdateCoins t (ce_height e) in
  do* sprout := pureM (of_tree (append_all (cs_sprout_tree s) (concat (map js_commitments (vJoinSplit t))))) in
  do* sapling := pureM (of_tree (append_all (cs_sapling_tree s) (map od_cmu (vShieldedOutput t)))) in
  retM (ConnectState nFees nSigOps (if first then cs_vtxundo s else cs_vtxundo s ++ [undo])%list sprout sapling
          (cs_control s ++ vChecks)%list).
Fixpoint connect_txs (e : connect_env) (first : bool) (vtx : list CTransaction) (s : connect_state) : M connect_state :=
  match vtx with
  | [] => retM s
  | t :: vtx => do* s := connect_tx e first t s in connect_txs e false vtx s
  end.

(** [control.Wait()]: whether every check passes. *)
Fixpoint wait_checks (ks : list CScriptCheck) : result reject bool :=
  match ks with
  | [] => Ok true
  | k :: ks => let* r := run_check k in match r with None => wait_checks ks | Some _ => Ok false end
  end.

(** [write_undo] is [FindUndoPos] and [UndoWriteToDisk]: where the undo data is
    stored, or what the state records when one of them fails. *)
Context (write_undo : CBlockUndo -> result string Z).

(** The entry after all rules hold, and the undo data when it is written now. *)
Definition record_validity (n : node) (params : Params) (pindex : CBlockIndex) (undo : CBlockUndo)
  : result reject (CBlockIndex * option CBlockUndo) :=
  let* valid := of_chain_error (IsValid pindex BLOCK_VALID_SCRIPTS) in
  if disk_pos_IsNull (GetUndoPos pindex) || negb valid then
    let* (b, written) :=
      if disk_pos_IsNull (GetUndoPos pindex) then
        match write_undo undo with
        | Err strMessage => Err (AbortNode strMessage)
        | Ok pos => Ok (set_undo_pos pindex pos, Some undo)
        end
      else Ok (pindex, None) in
    let* b :=
      if IsActivationHeightForAnyUpgrade (nHeight b) params then
        let* branch := of_param (CurrentEpochBranchId (nHeight b) params) in
        Ok (set_branch_id b (Z.lor (nStatus b) BLOCK_ACTIVATES_UPGRADE) (Some branch))
      else
        match pprev b with
        | None => Ok b
        | Some q => let* prev := of_chain_error (deref (block_index n) q) in Ok (set_branch_id b (nStatus b) (nCachedBranchId prev))
        end in
    let* (_, b) := of_chain_error (RaiseValidity b BLOCK_VALID_SCRIPTS) in
    Ok (b, written)
  else Ok (pindex, None).

(** A block that is an ancestor of the last checkpoint skips the expensive
    checks. *)
Definition expensive_checks (n : node) (p : ptr) (pindex : CBlockIndex) : result reject bool :=
  if fCheckpointsEnabled n then
    match GetLastCheckpoint (mapBlockIndex n) (mapCheckpoints n) with
    | None => Ok true
    | Some c => let* a := of_chain_error (GetAncestor (block_index n) c (nHeight pindex)) in Ok (negb (bool_decide (a = Some p)))
    end
  else Ok true.

Definition prev_hash (n : node) (pindex : CBlockIndex) : result reject bytes :=
  match pprev pindex with
  | None => Ok null256
  | Some q => let* prev := of_chain_error (deref (block_index n) q) in Ok (phashBlock prev)
  end.

(** The block, with its flag, the entry and the undo data written. *)
Record connected := Connected { r_block : CBlockInMemory; r_index : CBlockIndex; r_undo : option CBlockUndo }.

Definition connect_flags : Z := Z.lor SCRIPT_VERIFY_P2SH SCRIPT_VERIFY_CHECKLOCKTIMEVERIFY.

(** The part of [ConnectBlock] for the transactions, up to the reward: the undo
    data, the new Sprout root and the queued checks. *)
Definition connect_transactions (e : connect_env) (block : CBlockInMemory) : M (CBlockUndo * bytes * list CScriptCheck) :=
  do* old_root := readM (fun c => GetBestAnchor c SPROUT) in
  do* sprout := readM (fun c => GetSproutAnchorAt c old_root) in
  match sprout with
  | None => failM AssertFails
  | Some sprout =>
      unless bool_decide (tree_root sprout = old_root) orelse AssertFails in
      do* sapling_root := readM (fun c => GetBestAnchor c SAPLING) in
      do* sapling := readM (fun c => GetSaplingAnchorAt c sapling_root) in
      match sapling with
      | None => failM AssertFails
      | Some sapling =>
          do* s := connect_txs e true (m_vtx block) (ConnectState 0 0 [] sprout sapling []) in
          do* _ := writeM (fun c => PushSproutAnchor c (cs_sprout_tree s)) in
          do* _ := writeM (fun c => PushSaplingAnchor c (cs_sapling_tree s)) in
          do* sapling_active := pureM (of_param (NetworkUpgradeActive (ce_params e) (ce_height e) UPGRADE_SAPLING)) in
          unless negb sapling_active || bool_decide (hb_hashFinalSaplingRoot block = tree_root (cs_sapling_tree s))
            orelse invalid 100 "bad-sapling-root-in-block" in
          do* subsidy := pureM (of_param (GetBlockSubsidy (ce_height e) (ce_params e))) in
          match m_vtx block with
          | [] => failM AssertFails
          | coinbase :: _ =>
              do* out := pureM (of_value (GetValueOut coinbase)) in
              unless negb (to_i64 (cs_nFees s + subsidy) <? out) orelse invalid 100 "bad-cb-amount" in
              retM (BlockUndo (cs_vtxundo s) old_root, tree_root (cs_sprout_tree s), cs_control s)
          end
      end
  end.

(** A block that is rejected leaves nothing: the Sprout roots that the code has
    by then written to the fields of its entry, and the mark of the block in
    memory, are not part of the answer. *)
Definition ConnectBlock (n : node) (opt : options) (block : CBlockInMemory) (p : ptr) (chainparams : CChainParams) (fJustCheck : bool)
  : M connected :=
  do* pindex := pureM (of_chain_error (deref (block_index n) p)) in
  do* fExpensiveChecks := pureM (expensive_checks n p pindex) in
  do* block := pureM (CheckBlock block chainparams fExpensiveChecks (negb fJustCheck && negb (nHeight pindex =? 0)) (negb fJustCheck)) in
  do* hashPrevBlock := pureM (prev_hash n pindex) in
  do* best := readM GetBestBlock in
  unless bool_decide (hashPrevBlock = best) orelse AssertFails in
  do* hash := pureM (of_writer (header_GetHash block)) in
  if bool_decide (hash = hashGenesisBlock (consensus chainparams)) then
    if fJustCheck then retM (Connected block pindex None)
    else
      do* _ := writeM (fun c => SetBestBlock c (phashBlock pindex)) in
      let root := tree_root (tree_empty (T := SproutMerkleTree)) in
      retM (Connected block (set_sprout_roots pindex root root) None)
  else
    do* _ := pureM (turnstile_ok (fZIP209Enabled opt) pindex) in
    do* _ := check_bip30 (m_vtx block) in
    do* branch := pureM (of_param (CurrentEpochBranchId (nHeight pindex) (consensus chainparams))) in
    do* (undo, root, control) :=
      connect_transactions (ConnectEnv n opt (consensus chainparams) (nHeight pindex) branch connect_flags fExpensiveChecks) block in
    do* ok := pureM (wait_checks control) in
    unless ok orelse DoS 100 0 EmptyString false in
    if fJustCheck then retM (Connected block pindex None)
    else
      let pindex := set_sprout_roots pindex (old_sprout_tree_root undo) root in
      do* (pindex, written) := pureM (record_validity n (consensus chainparams) pindex undo) in
      do* _ := writeM (fun c => SetBestBlock c (phashBlock pindex)) in
      retM (Connected block pindex written).

(** *** Disconnecting a block *)

Inductive DisconnectResult := DISCONNECT_OK | DISCONNECT_UNCLEAN | DISCONNECT_FAILED.

(** Under the modifier of the outputs of a transaction: whether they are those
    of the block; they are removed. *)
Definition remove_outputs (t : CTransaction) (height : Z) (outs : CCoins) : CCoins * bool :=
  let outs := ClearUnspendable outs in
  let outsBlock := FromTx t height in
  let outs := if c_nVersion outsBlock <? 0 then Coins (fCoinBase outs) (c_vout outs) (c_nHeight outs) (c_nVersion outsBlock) else outs in
  (coins_null, coins_equal outs outsBlock).

(** The inputs are given from the last to the first, with their undo data. *)
Fixpoint restore_inputs (l : list (CTxIn * CTxInUndo)) : M bool :=
  match l with
  | [] => retM true
  | (i, u) :: l =>
      do* clean := ApplyTxInUndo u (prevout i) in
      do* rest := restore_inputs l in retM (clean && rest)
  end.

(** [None] for [DISCONNECT_FAILED]. *)
Definition disconnect_tx (t : CTransaction) (height : Z) (undo : option CTxUndo) : M (option bool) :=
  do* clean := readM (fun c => ModifyCoins c (tx_hash t) (remove_outputs t height)) in
  do* _ := writeM (fun c => SetNullifiers c t false) in
  match undo with
  | None => retM (Some clean)
  | Some undo =>
      if bool_decide (length (vprevout undo) = length (vin t)) then
        do* restored := restore_inputs (rev (combine (vin t) (vprevout undo))) in retM (Some (clean && restored))
      else retM None
  end.
(** The transactions from the last to the first; the first of the block has no
    undo data. *)
Fixpoint disconnect_txs (height : Z) (l : list (CTransaction * option CTxUndo)) : M (option bool) :=
  match l with
  | [] => retM (Some true)
  | (t, undo) :: l =>
      do* r := disconnect_tx t height undo in
      match r with
      | None => retM None
      | Some clean =>
          do* rest := disconnect_txs height l in
          retM (match rest with Some b => Some (clean && b) | None => None end)
      end
  end.

Definition pop_anchor_M (rt : bytes) (type : ShieldedType) : M unit :=
  fun c => match PopAnchor c rt type with Some c => (c, Ok tt) | None => (c, Err AssertFails) end.

(** [read_undo] is what [UndoReadFromDisk] gives for the block. *)
Definition DisconnectBlock (n : node) (block : CBlockInMemory) (pindex : CBlockIndex) (chainparams : CChainParams)
    (read_undo : option CBlockUndo) : M DisconnectResult :=
  do* best := readM GetBestBlock in
  unless bool_decide (phashBlock pindex = best) orelse AssertFails in
  if disk_pos_IsNull (GetUndoPos pindex) then retM DISCONNECT_FAILED
  else
    match pprev pindex with
    | None => failM (ThrowsPow (PowChain DanglingPointer))
    | Some q =>
        do* prev := pureM (of_chain_error (deref (block_index n) q)) in
        match read_undo with
        | None => retM DISCONNECT_FAILED
        | Some blockUndo =>
            if negb (bool_decide (S (length (vtxundo blockUndo)) = length (m_vtx block))) then retM DISCONNECT_FAILED
            else
              do* r := disconnect_txs (nHeight pindex) (rev (combine (m_vtx block) (None :: map Some (vtxundo blockUndo)))) in
              match r with
              | None => retM DISCONNECT_FAILED
              | Some fClean =>
                  do* _ := pop_anchor_M (old_sprout_tree_root blockUndo) SPROUT in
                  do* active := pureM (of_param (NetworkUpgradeActive (consensus chainparams) (nHeight prev) UPGRADE_SAPLING)) in
                  do* _ := pop_anchor_M (if active then bi_hashFinalSaplingRoot prev else tree_root (tree_empty (T := SaplingMerkleTree))) SAPLING in
                  do* _ := writeM (fun c => SetBestBlock c (phashBlock prev)) in
                  retM (if fClean then DISCONNECT_OK else DISCONNECT_UNCLEAN)
              end
        end
    end.
End connect.

(** ** Spending and restoring coins *)

Abbreviation out_at c := (out_of (c_vout c)).

Lemma out_available c n : IsAvailable c n = bool_decide (is_Some (out_at c (Z.to_nat n))).
Proof.
  unfold IsAvailable, out_of. destruct (c_vout c !! Z.to_nat n) as [o|]; [|done]. by destruct (txout_IsNull o).
Qed.
Lemma available_proper c c' n : c ≡ c' -> IsAvailable c n = IsAvailable c' n.
Proof. rewrite coins_equiv_out. intros [Ho _]. by rewrite !out_available, Ho. Qed.

Definition same_tx (c c' : CCoins) : Prop := fCoinBase c = fCoinBase c' /\ c_nHeight c = c_nHeight c' /\ c_nVersion c = c_nVersion c'.

(** What spending an output does. *)
Lemma spend_coins_spec n c :
  match out_at c (Z.to_nat n) with
  | None => spend_coins n c = (c, None)
  | Some o => exists c' u, spend_coins n c = (c', Some u) /\ same_tx c' c
      /\ (forall m, out_at c' m = if decide (m = Z.to_nat n) then None else out_at c m)
      /\ u = (if IsPruned c' then TxInUndo o (fCoinBase c) (to_u32 (c_nHeight c)) (c_nVersion c) else TxInUndo o false 0 0)
  end.
Proof.
  destruct (out_at c (Z.to_nat n)) as [o|] eqn:E.
  - destruct (out_length _ _ _ E) as [Hl Hn]. unfold spend_coins. unfold out_of in E. destruct (c_vout c !! Z.to_nat n) as [o'|] eqn:El; [|done].
    destruct (txout_IsNull o') eqn:En; [done|]. injection E as ->. unfold coins_Spend. unfold IsAvailable. rewrite El, Hn. cbn [negb].
    eexists _, _. split; [reflexivity|]. split; [done|]. split.
    + intros m. rewrite Cleanup_strip. cbn [c_vout set_vout]. by rewrite out_strip, out_insert.
    + rewrite IsPruned_Cleanup, Cleanup_strip. unfold IsPruned. cbn [c_vout set_vout fCoinBase c_nHeight c_nVersion].
      rewrite <- IsPruned_strip. destruct (strip_spec (<[Z.to_nat n := txout_null]> (c_vout c))) as (_ & _ & _ & He).
      destruct (strip _) as [|x l _] using rev_ind; [done|]. rewrite forallb_app. cbn [forallb]. rewrite (He l x eq_refl), andb_false_r.
      by destruct l.
  - unfold spend_coins. unfold out_of in E. destruct (c_vout c !! Z.to_nat n) as [o'|]; [|done]. by destruct (txout_IsNull o').
Qed.

Lemma pruned_equal c c' : (forall m, out_at c m = out_at c' m) -> IsPruned c = IsPruned c'.
Proof. intros Ho. apply eq_bool_prop_intro. rewrite !Is_true_true. unfold IsPruned. rewrite !pruned_out. by setoid_rewrite Ho. Qed.
Lemma out_not_pruned c n o : out_at c n = Some o -> IsPruned c = false.
Proof. intros Ho. apply not_true_iff_false. unfold IsPruned. rewrite pruned_out. intros Hx. by rewrite Hx in Ho. Qed.

Lemma spend_respects n : respects (spend_coins n).
Proof.
  intros c c' Hc. pose proof Hc as Hc'. apply coins_equiv_out in Hc' as [Ho Hm].
  pose proof (spend_coins_spec n c) as H1. pose proof (spend_coins_spec n c') as H2. rewrite <- Ho in H2.
  destruct (out_at c (Z.to_nat n)) as [o|] eqn:E; [|by rewrite H1, H2].
  destruct H1 as (d & u & -> & Hd & Hdo & ->), H2 as (d' & u' & -> & Hd' & Hdo' & ->). cbn [fst snd].
  destruct (Hm (out_not_pruned _ _ _ E)) as (M1 & M2 & M3). destruct Hd as (D1 & D2 & D3), Hd' as (E1 & E2 & E3).
  assert (Hdd : forall m, out_at d m = out_at d' m) by (intros m; by rewrite Hdo, Hdo', Ho).
  split; [|by rewrite (pruned_equal d d' Hdd), M1, M2, M3]. apply coins_equiv_out. split; [exact Hdd|]. intros _. split_and!; congruence.
Qed.

Lemma insert_clear l n o : Forall (fun o => clear_null o = o) l -> clear_null o = o -> Forall (fun o => clear_null o = o) (<[n := o]> l).
Proof. intros Hl Ho. by apply Forall_insert. Qed.
Lemma spend_clear n co : coins_clear co -> coins_clear (fst (spend_coins n co)).
Proof.
  intros Hc. unfold spend_coins. destruct (c_vout co !! Z.to_nat n) as [o|]; [|done]. destruct (txout_IsNull o); [done|].
  unfold coins_Spend. destruct (IsAvailable co n); [|done]. cbn [fst]. apply Cleanup_clear. by apply insert_clear.
Qed.
Lemma vout_resize_out l n m : Z.of_nat (length l) <= n -> out_of (vout_resize l n) m = out_of l m /\ Z.of_nat (length (vout_resize l n)) = n.
Proof.
  intros Hl. unfold vout_resize. rewrite take_ge by lia. split.
  - apply out_app_null. induction (Z.to_nat n - length l)%nat as [|k IH]; [done|exact IH].
  - rewrite length_app, length_replicate. lia.
Qed.

(** The coins after restoring an output at [n]. *)
Lemma restore_coins_spec u n c :
  0 <= n < 2 ^ 32 - 1 -> txout_IsNull (u_txout u) = false ->
  let base := if u_nHeight u =? 0 then c else Coins (u_fCoinBase u) [] (to_i32 (u_nHeight u)) (u_nVersion u) in
  same_tx (fst (restore_coins u n c)) base
  /\ (forall m, out_at (fst (restore_coins u n c)) m = if decide (m = Z.to_nat n) then Some (u_txout u) else out_at base m)
  /\ snd (restore_coins u n c) = (if u_nHeight u =? 0 then negb (IsPruned c) else IsPruned c) && negb (IsAvailable base n).
Proof.
  intros Hn Ho. cbn zeta. unfold restore_coins. destruct (Z.eqb_spec (u_nHeight u) 0) as [E|E]; cbn [negb].
  all: rewrite (wrap_small 32) by (unfold uint; lia).
  all: match goal with |- context [set_vout (<[_ := _]> ?l)] => set (v := l) end; cbn [fst snd c_vout set_vout].
  - assert (Hv : (Z.to_nat n < length v)%nat /\ forall m, out_of v m = out_at c m).
    { unfold v. destruct (Z.ltb_spec (Z.of_nat (length (c_vout c))) (n + 1)) as [Hl|Hl]; [|split; [lia|done]].
      pose proof (fun m => vout_resize_out (c_vout c) (n + 1) m ltac:(lia)) as Hr. split; [destruct (Hr 0%nat); lia|apply Hr]. }
    destruct Hv as [Hv1 Hv2]. split_and!; try done. intros m. by rewrite out_insert, Ho, Hv2.
  - assert (Hv : (Z.to_nat n < length v)%nat /\ forall m, out_of v m = None).
    { unfold v. cbn [c_vout length]. destruct (Z.ltb_spec (Z.of_nat 0) (n + 1)) as [Hl|Hl]; [|cbn in Hl; lia].
      pose proof (fun m => vout_resize_out [] (n + 1) m ltac:(cbn; lia)) as Hr. split; [destruct (Hr 0%nat); lia|]. intros m. by rewrite (proj1 (Hr m)). }
    destruct Hv as [Hv1 Hv2]. split_and!; try done. intros m. by rewrite out_insert, Ho, Hv2.
Qed.

(** Restoring takes a spend back. *)
Lemma restore_spent n c c' u d :
  0 <= n < 2 ^ 32 - 1 -> 0 < c_nHeight c < 2 ^ 31 -> spend_coins n c = (c', Some u) -> d ≡ c' ->
  snd (restore_coins u n d) = true /\ fst (restore_coins u n d) ≡ c.
Proof.
  intros Hn Hh Hs Hd. pose proof (spend_coins_spec n c) as Hsp. rewrite Hs in Hsp.
  destruct (out_at c (Z.to_nat n)) as [o|] eqn:E; [|by injection Hsp].
  destruct Hsp as (c'' & u'' & [= <- <-] & Hm & Ho & Hu). destruct (out_length _ _ _ E) as [_ Hnull].
  apply coins_equiv_out in Hd as [Hdo Hdm]. pose proof (pruned_equal d c' Hdo) as Hp.
  assert (Hnull' : txout_IsNull (u_txout u) = false) by (rewrite Hu; by destruct (IsPruned c')).
  destruct (restore_coins_spec u n d Hn Hnull') as (R1 & R2 & R3). rewrite R3. unfold same_tx in *.
  rewrite out_available. destruct (IsPruned c') eqn:Ep; subst u; cbn [u_nHeight u_fCoinBase u_nVersion u_txout] in *.
  - assert (Hz : (to_u32 (c_nHeight c) =? 0) = false) by (rewrite wrap_small by (unfold uint; lia); lia). rewrite Hz, Hp in *.
    cbn [c_vout]. split; [done|]. apply coins_equiv_out. split.
    + intros m. rewrite R2. destruct (decide (m = Z.to_nat n)) as [->|Hne]; [by rewrite E|].
      pose proof (proj1 (pruned_out _) Ep m) as Hx. rewrite Ho, decide_False in Hx by done. by rewrite Hx.
    + intros _. destruct R1 as (A1 & A2 & A3). split_and!; [exact A1|rewrite A2|exact A3].
      cbn [c_nHeight]. rewrite (wrap_small 32), (swrap_small 32) by (unfold uint, sint; lia). done.
  - cbn [Z.eqb] in *. rewrite Hp. rewrite Hdo, Ho, decide_True by done. split; [done|]. apply coins_equiv_out. split.
    + intros m. rewrite R2, Hdo, Ho. by destruct (decide (m = Z.to_nat n)) as [->|Hne].
    + intros _. destruct (Hdm Hp) as (? & ? & ?). destruct R1 as (? & ? & ?), Hm as (? & ? & ?). split_and!; congruence.
Qed.

(** *** The coins of a transaction *)

Definition clear_unspendable (o : CTxOut) : CTxOut := if IsUnspendable (scriptPubKey o) then txout_null else o.
Lemma clear_unspendable_idem o : clear_unspendable (clear_unspendable o) = clear_unspendable o.
Proof. unfold clear_unspendable. by destruct (IsUnspendable (scriptPubKey o)) eqn:E; cbn; rewrite ?E. Qed.
Lemma clear_list l : Forall (fun o => clear_null o = o) l -> map clear_null l = l.
Proof. induction 1 as [|o l Ho _ IH]; [done|]. cbn. by rewrite Ho, IH. Qed.

(** The coins of a transaction whose outputs have values. *)
Lemma FromTx_vout (t : CTransaction) h : exists ns, map clear_unspendable (vout t) = (c_vout (FromTx t h) ++ ns)%list /\ strip (c_vout (FromTx t h)) = c_vout (FromTx t h).
Proof.
  unfold FromTx, ClearUnspendable. rewrite Cleanup_strip. cbn [c_vout set_vout]. fold clear_unspendable.
  destruct (strip_spec (map clear_unspendable (vout t))) as (ns & Hl & _). exists ns. split; [exact Hl|apply strip_idem].
Qed.
Lemma FromTx_clear (t : CTransaction) h : Forall (fun o => 0 <= nValue o) (vout t) -> coins_clear (FromTx t h).
Proof.
  intros Hv. destruct (FromTx_vout t h) as (ns & Hl & _). unfold coins_clear. assert (Hm : Forall (fun o => clear_null o = o) (map clear_unspendable (vout t))).
  { clear -Hv. induction Hv as [|o l Ho _ IH]; constructor; [|exact IH]. unfold clear_unspendable, clear_null, txout_IsNull.
    destruct (IsUnspendable _); [done|]. by destruct (Z.eqb_spec (nValue o) (-1)); [lia|]. }
  rewrite Hl in Hm. by apply Forall_app in Hm as [? _].
Qed.

(** ** Runs on a cache *)

Lemma bindM_Ok {S A B} (m : S -> S * result reject A) (k : A -> S -> S * result reject B) c c' b :
  bindM m k c = (c', Ok b) -> exists c1 a, m c = (c1, Ok a) /\ k a c1 = (c', Ok b).
Proof. unfold bindM. destruct (m c) as [c1 [a|e]]; [|done]. intros Hk. by exists c1, a. Qed.
Lemma readM_Ok {S A} (m : S -> S * A) c c' a : readM m c = (c', Ok a) -> m c = (c', a).
Proof. unfold readM. destruct (m c) as [c1 a1]. by intros [= -> ->]. Qed.
Lemma coinsM_Ok {S A} (m : S -> S * result coins_error A) c c' a : coinsM m c = (c', Ok a) -> m c = (c', Ok a).
Proof. unfold coinsM. destruct (m c) as [c1 [a1|]]; [|done]. by intros [= -> ->]. Qed.
Lemma pureM_Ok {S A} (r : result reject A) (c c' : S) a : pureM r c = (c', Ok a) -> r = Ok a /\ c' = c.
Proof. unfold pureM. by intros [= -> ->]. Qed.
Lemma writeM_Ok {S} (f : S -> S) c c' u : writeM f c = (c', Ok u) -> c' = f c.
Proof. by intros [= <-]. Qed.
Lemma retM_Ok {S A} (a a' : A) (c c' : S) : retM a c = (c', Ok a') -> a' = a /\ c' = c.
Proof. unfold retM. by intros [= -> ->]. Qed.
Lemma unless_Ok {S A} (b : bool) e (k : S -> S * result reject A) c c' a :
  (unless b orelse e in k) c = (c', Ok a) -> b = true /\ k c = (c', Ok a).
Proof. by destruct b. Qed.

(** One step of a run: the first computation and the rest. *)
Tactic Notation "stepM" hyp(H) ident(c) ident(a) ident(E) :=
  apply bindM_Ok in H as (c & a & E & H);
  first [ apply readM_Ok in E | apply coinsM_Ok in E
        | let Ec := fresh in apply pureM_Ok in E as [E Ec]; subst c
        | apply writeM_Ok in E; subst c | idtac ];
  cbv beta zeta in H.

Section runs.
Context {SproutMerkleTree SaplingMerkleTree : Type} `{MerkleTree SproutMerkleTree} `{MerkleTree SaplingMerkleTree}.
Context `{Blake2b} `{ShieldedVerifier} `{EhHash}.
Abbreviation cache := (CCoinsViewCache (SproutMerkleTree := SproutMerkleTree) (SaplingMerkleTree := SaplingMerkleTree)).
Abbreviation view := (CCoinsView (SproutMerkleTree := SproutMerkleTree) (SaplingMerkleTree := SaplingMerkleTree)).

(** The cache [c'], over the base of [c], stands for the view [v]. *)
Definition stands (c c' : cache) (v : view) : Prop := cache_ok c' /\ base c' = base c /\ as_view c' ≡ v.

Lemma stands_reads c c1 c' v : stands c c1 v -> reads c1 c' -> stands c c' v.
Proof. intros (_ & B & V) (O' & B' & V'). split_and!; [done|congruence|by rewrite V']. Qed.
Lemma stands_refl c v : cache_ok c -> as_view c ≡ v -> stands c c v.
Proof. done. Qed.
Lemma stands_trans c c1 c2 v v' : stands c c1 v -> stands c1 c2 v' -> stands c c2 v'.
Proof. intros (_ & B & _) (O' & B' & V'). split_and!; [done|congruence|done]. Qed.

(** The output that an input spends. *)
Definition output_at (v : view) (i : CTxIn) : option CTxOut := out_at (coins_at v (op_hash (prevout i))) (Z.to_nat (op_n (prevout i))).
#[local] Instance output_at_proper : Proper ((≡) ==> (=) ==> (=)) output_at.
Proof. intros v w Hv i ? <-. unfold output_at. by rewrite Hv. Qed.

Lemma fetched_equiv (c : cache) v txid co : as_view c ≡ v -> view_GetCoins (as_view c) txid = Some co -> co ≡ coins_at v txid.
Proof. intros Hv Hc. rewrite <- Hv. apply coins_at_equiv. unfold unspent. by rewrite Hc. Qed.
Lemma not_fetched (c : cache) v txid : as_view c ≡ v -> view_GetCoins (as_view c) txid = None -> coins_at v txid = coins_null.
Proof. intros Hv Hc. rewrite <- Hv. unfold coins_at, unspent. by rewrite Hc. Qed.

Lemma AccessCoins_stands c c1 v txid c' co :
  stands c c1 v -> AccessCoins c1 txid = (c', co) ->
  stands c c' v /\ match co with Some co => co ≡ coins_at v txid | None => coins_at v txid = coins_null end.
Proof.
  intros Hs Ha. destruct (AccessCoins_reads c1 txid (proj1 Hs)) as [Hr Hco]. rewrite Ha in Hr, Hco. cbn [fst snd] in *.
  split; [by apply (stands_reads c c1)|]. destruct Hs as (_ & _ & V). destruct co as [co|].
  - by apply (fetched_equiv c1).
  - by apply (not_fetched c1).
Qed.

Lemma GetOutputFor_stands c c1 v i c' o : stands c c1 v -> GetOutputFor c1 i = (c', Ok o) -> stands c c' v /\ output_at v i = Some o.
Proof.
  intros Hs Hg. unfold GetOutputFor in Hg. destruct (AccessCoins c1 (op_hash (prevout i))) as [c2 co] eqn:E.
  destruct (AccessCoins_stands _ _ _ _ _ _ Hs E) as [Hs2 Hco]. injection Hg as <- Hg. split; [done|]. destruct co as [co|]; [|done].
  apply coins_equiv_out in Hco as [Ho _]. unfold output_at. rewrite <- Ho. unfold out_of. destruct (c_vout co !! _) as [o'|]; [|done].
  destruct (txout_IsNull o'); [done|]. by injection Hg as <-.
Qed.

Lemma have_inputs_stands c c1 v ins c' : stands c c1 v -> have_inputs c1 ins = (c', true) ->
  stands c c' v /\ Forall (fun i => is_Some (output_at v i)) ins.
Proof.
  revert c1. induction ins as [|i ins IH]; intros c1 Hs Hh; cbn [have_inputs] in Hh; [injection Hh as <-; by split|].
  destruct (AccessCoins c1 (op_hash (prevout i))) as [c2 co] eqn:E. destruct (AccessCoins_stands _ _ _ _ _ _ Hs E) as [Hs2 Hco].
  destruct co as [co|]; [|done]. destruct (IsAvailable co _) eqn:Ea; [|done]. destruct (IH c2 Hs2 Hh) as [Hs' Hf].
  split; [done|]. constructor; [|done]. rewrite (available_proper _ _ _ Hco), out_available, bool_decide_eq_true in Ea. exact Ea.
Qed.
Lemma HaveInputs_stands c c1 v (t : CTransaction) c' : stands c c1 v -> IsCoinBase t = false -> HaveInputs c1 t = (c', true) ->
  stands c c' v /\ Forall (fun i => is_Some (output_at v i)) (vin t).
Proof. intros Hs Hc. unfold HaveInputs. rewrite Hc. by apply have_inputs_stands. Qed.

(** The sum of the values, modulo the width of the code's integers. *)
Definition sum_values (os : list CTxOut) : Z := foldr (fun o s => nValue o + s) 0 os.
Lemma to_i64_add a b : to_i64 (to_i64 a + b) = to_i64 (a + b).
Proof.
  unfold swrap. f_equal. replace ((a + 2 ^ (64 - 1)) mod 2 ^ 64 - 2 ^ (64 - 1) + b + 2 ^ (64 - 1)) with ((a + 2 ^ (64 - 1)) mod 2 ^ 64 + b) by lia.
  rewrite Zplus_mod_idemp_l. f_equal. lia.
Qed.
Lemma sum_inputs_stands c c1 v ins n c' r : stands c c1 v -> sum_inputs c1 n ins = (c', Ok r) ->
  stands c c' v /\ exists os, Forall2 (fun i o => output_at v i = Some o) ins os /\ (ins = [] -> r = n) /\ to_i64 r = to_i64 (n + sum_values os).
Proof.
  revert c1 n. induction ins as [|i ins IH]; intros c1 n Hs Hg; cbn [sum_inputs] in Hg.
  { injection Hg as <- <-. split; [done|]. exists []. split_and!; try done. cbn. f_equal. lia. }
  destruct (GetOutputFor c1 i) as [c2 [o|e]] eqn:E; [|done]. destruct (GetOutputFor_stands _ _ _ _ _ _ Hs E) as [Hs2 Ho].
  destruct (IH c2 _ Hs2 Hg) as [Hs' (os & Hos & _ & Hr)]. split; [done|]. exists (o :: os). split_and!; [by constructor|done|].
  rewrite Hr. cbn [sum_values foldr]. rewrite to_i64_add. f_equal. fold (sum_values os). lia.
Qed.

(** *** Shielded requirements *)

Definition unspent_nullifiers (v : view) (t : CMutableTransaction) : Prop :=
  forall nf type, nf ∈ tx_nullifiers t type -> view_GetNullifier v nf type = false.

Lemma GetNullifier_stands c c1 v nf type c' b : stands c c1 v -> GetNullifier c1 nf type = (c', b) ->
  stands c c' v /\ b = view_GetNullifier v nf type.
Proof.
  intros Hs Hg. destruct (GetNullifier_reads c1 nf type (proj1 Hs)) as [Hr Hb]. rewrite Hg in Hr, Hb. cbn [fst snd] in *.
  split; [by apply (stands_reads c c1)|]. rewrite Hb. apply Hs.
Qed.
Lemma any_spent_stands c c1 v type nfs c' : stands c c1 v -> any_spent c1 type nfs = (c', false) ->
  stands c c' v /\ Forall (fun nf => view_GetNullifier v nf type = false) nfs.
Proof.
  revert c1. induction nfs as [|nf nfs IH]; intros c1 Hs Ha; cbn [any_spent] in Ha; [injection Ha as <-; by split|].
  destruct (GetNullifier c1 nf type) as [c2 b] eqn:E. destruct (GetNullifier_stands _ _ _ _ _ _ _ Hs E) as [Hs2 ->].
  destruct (view_GetNullifier v nf type) eqn:En; [done|]. destruct (IH c2 Hs2 Ha) as [? ?]. split; [done|by constructor].
Qed.
Lemma have_joinsplits_stands c c1 v inter l c' : stands c c1 v -> have_joinsplits c1 inter l = (c', Ok true) ->
  stands c c' v /\ Forall (fun nf => view_GetNullifier v nf SPROUT = false) (concat (map js_nullifiers l)).
Proof.
  revert c1 inter. induction l as [|j l IH]; intros c1 inter Hs Hh; cbn [have_joinsplits] in Hh; [injection Hh as <-; by split|].
  destruct (any_spent c1 SPROUT (js_nullifiers j)) as [c2 b] eqn:E. destruct b; [done|].
  destruct (any_spent_stands _ _ _ _ _ _ Hs E) as [Hs2 Hn].
  destruct (match inter !! js_anchor j with Some t => (c2, Some t) | None => GetSproutAnchorAt c2 (js_anchor j) end) as [c3 tree] eqn:Et.
  assert (Hs3 : stands c c3 v).
  { destruct (inter !! js_anchor j); [by injection Et as <- <-|]. apply (stands_reads c c2); [done|].
    pose proof (proj1 (GetSproutAnchorAt_reads c2 (js_anchor j) (proj1 Hs2))) as Hr. by rewrite Et in Hr. }
  destruct tree as [tree|]; [|done]. destruct (append_all tree (js_commitments j)) as [tree'|]; [|done].
  destruct (IH c3 _ Hs3 Hh) as [Hs' Hf]. split; [done|]. cbn [map concat]. by apply Forall_app.
Qed.
Lemma have_spends_stands c c1 v l c' : stands c c1 v -> have_spends c1 l = (c', true) ->
  stands c c' v /\ Forall (fun d => view_GetNullifier v (sd_nullifier d) SAPLING = false
                                    /\ is_Some (view_GetSaplingAnchorAt v (sd_anchor d))) l.
Proof.
  revert c1. induction l as [|d l IH]; intros c1 Hs Hh; cbn [have_spends] in Hh; [injection Hh as <-; by split|].
  destruct (GetNullifier c1 (sd_nullifier d) SAPLING) as [c2 b] eqn:E. destruct (GetNullifier_stands _ _ _ _ _ _ _ Hs E) as [Hs2 ->].
  destruct (view_GetNullifier v (sd_nullifier d) SAPLING) eqn:En; [done|].
  destruct (GetSaplingAnchorAt c2 (sd_anchor d)) as [c3 tree] eqn:Et.
  destruct (GetSaplingAnchorAt_reads c2 (sd_anchor d) (proj1 Hs2)) as [Hr Hv]. rewrite Et in Hr, Hv. cbn [fst snd] in Hr, Hv.
  destruct tree as [tree|]; [|done]. destruct (IH c3 (stands_reads _ _ _ _ Hs2 Hr) Hh) as [Hs' Hf].
  split; [done|]. constructor; [|done]. split; [done|]. apply (fmap_is_Some tree_root).
  rewrite <- (ve_sapling _ _ (proj2 (proj2 Hs2))), <- Hv. by eexists.
Qed.
Lemma HaveShieldedRequirements_stands c c1 v t c' : stands c c1 v -> HaveShieldedRequirements c1 t = (c', Ok true) ->
  stands c c' v /\ unspent_nullifiers v t /\ Forall (fun d => is_Some (view_GetSaplingAnchorAt v (sd_anchor d))) (vShieldedSpend t).
Proof.
  intros Hs Hh. unfold HaveShieldedRequirements in Hh. destruct (have_joinsplits c1 ∅ (vJoinSplit t)) as [c2 [[]|]] eqn:E; [|done..].
  destruct (have_joinsplits_stands _ _ _ _ _ _ Hs E) as [Hs2 Hj]. destruct (have_spends c2 (vShieldedSpend t)) as [c3 b] eqn:Es.
  injection Hh as <- ->. destruct (have_spends_stands _ _ _ _ _ Hs2 Es) as [Hs3 Hd]. split; [done|]. split.
  - intros nf []; cbn [tx_nullifiers]; intros Hin; [by apply (proj1 (Forall_forall _ _) Hj)|].
    change (map sd_nullifier) with (fmap (M := list) sd_nullifier) in Hin. apply list_elem_of_fmap in Hin as (d & -> & Hin).
    by apply (proj1 (Forall_forall _ _) Hd).
  - eapply Forall_impl; [exact Hd|]. by intros d [_ ?].
Qed.

(** *** Inputs *)

Lemma p2sh_sigops_stands c c1 v ins n c' r : stands c c1 v -> p2sh_sigops n ins c1 = (c', Ok r) -> stands c c' v.
Proof.
  revert c1 n. induction ins as [|i ins IH]; intros c1 n Hs Hp; cbn [p2sh_sigops] in Hp; [by apply retM_Ok in Hp as [_ ->]|].
  stepM Hp c2 o E. apply (GetOutputFor_stands c c1 v) in E as [Hs2 _]; [|done]. destruct (IsPayToScriptHash _); [stepM Hp c3 x E|]; by apply (IH c2 _ Hs2 Hp).
Qed.
Lemma GetP2SHSigOpCount_stands c c1 v t c' r : stands c c1 v -> GetP2SHSigOpCount t c1 = (c', Ok r) -> stands c c' v.
Proof.
  intros Hs Hp. unfold GetP2SHSigOpCount in Hp. destruct (IsCoinBase t); [by apply retM_Ok in Hp as [_ ->]|]. by apply (p2sh_sigops_stands c c1 v (vin t) 0 c' r).
Qed.

Lemma GetBestBlock_stands c c1 v c' h : stands c c1 v -> GetBestBlock c1 = (c', h) -> stands c c' v /\ h = view_GetBestBlock v.
Proof.
  intros Hs Hg. destruct (GetBestBlock_reads c1 (proj1 Hs)) as [Hr Hb]. rewrite Hg in Hr, Hb. cbn [fst snd] in *.
  split; [by apply (stands_reads c c1)|]. rewrite Hb. apply Hs.
Qed.
Lemma GetBestAnchor_stands c c1 v type c' h : stands c c1 v -> GetBestAnchor c1 type = (c', h) -> stands c c' v /\ h = view_GetBestAnchor v type.
Proof.
  intros Hs Hg. destruct (GetBestAnchor_reads c1 type (proj1 Hs)) as [Hr Hb]. rewrite Hg in Hr, Hb. cbn [fst snd] in *.
  split; [by apply (stands_reads c c1)|]. rewrite Hb. apply Hs.
Qed.

(** The height at which the inputs of the next block are spent. *)
Definition spend_height (n : node) (v : view) (h : Z) : Prop :=
  exists p b, mapBlockIndex n !! view_GetBestBlock v = Some p /\ deref (block_index n) p = Ok b /\ h = to_i32 (nHeight b + 1).
Lemma GetSpendHeight_stands n c c1 v c' h : stands c c1 v -> GetSpendHeight n c1 = (c', Ok h) -> stands c c' v /\ spend_height n v h.
Proof.
  intros Hs Hg. unfold GetSpendHeight in Hg. stepM Hg c2 b E. apply (GetBestBlock_stands c c1 v) in E as [Hs2 ->]; [|done].
  destruct (mapBlockIndex n !! view_GetBestBlock v) as [p|] eqn:Em; [|done]. stepM Hg c3 b E. apply of_chain_Ok in E.
  apply retM_Ok in Hg as [-> ->]. split; [done|]. by exists p, b.
Qed.

(** Coinbase outputs are spent late, and where that is enforced only to
    shielded outputs. *)
Definition mature (v : view) (shield : bool) (t : CTransaction) (h : Z) (i : CTxIn) : Prop :=
  let co := coins_at v (op_hash (prevout i)) in
  fCoinBase co = true -> COINBASE_MATURITY <= to_i32 (h - c_nHeight co) /\ (shield = true -> vout t = []).

Lemma check_inputs_stands c c1 v shield t h ins n c' r :
  stands c c1 v -> 0 <= n <= MAX_MONEY -> Forall (fun i => is_Some (output_at v i)) ins ->
  check_inputs shield t h n ins c1 = (c', Ok r) ->
  stands c c' v /\ exists os, Forall2 (fun i o => output_at v i = Some o) ins os /\ Forall (mature v shield t h) ins
    /\ Forall (fun o => 0 <= nValue o <= MAX_MONEY) os /\ r = n + sum_values os /\ 0 <= r <= MAX_MONEY.
Proof.
  intros Hs Hn Hav. revert c1 n Hs Hn. induction Hav as [|i ins [o Ho] _ IH]; intros c1 n Hs Hn Hc; cbn [check_inputs] in Hc.
  { apply retM_Ok in Hc as [-> ->]. split; [done|]. exists []. split_and!; try done; cbn; lia. }
  stepM Hc c2 co E. apply (AccessCoins_stands c c1 v) in E as [Hs2 Hco]; [|done]. destruct co as [co|]; [|done].
  apply unless_Ok in Hc as [K1 Hc]. apply unless_Ok in Hc as [K2 Hc]. pose proof Hco as Hce. apply coins_equiv_out in Hce as [Hout Hmeta].
  pose proof Ho as Ho'. unfold output_at in Ho'. rewrite <- Hout in Ho'. destruct (Hmeta (out_not_pruned _ _ _ Ho')) as (F1 & F2 & _).
  unfold out_of in Ho'. destruct (c_vout co !! _) as [o'|]; [|done]. destruct (txout_IsNull o'); [done|]. injection Ho' as ->.
  apply unless_Ok in Hc as [K3 Hc]. apply andb_true_iff in K3 as [K3 K4]. rewrite MoneyRange_spec in K3, K4.
  assert (Hw : to_i64 (n + nValue o) = n + nValue o) by (apply money_to_i64; unfold MAX_MONEY, COIN in *; lia). rewrite Hw in *.
  destruct (IH c2 _ Hs2 K4 Hc) as [Hs' (os & Hos & Hmat & Hran & -> & Hr)]. split; [done|]. exists (o :: os).
  split_and!; [by constructor| |by constructor| |lia..].
  - constructor; [|done]. unfold mature. rewrite <- F1, <- F2. intros Hcb. rewrite Hcb in K1, K2. cbn [andb] in K1, K2.
    split; [by apply negb_true_iff, Z.ltb_ge in K1|]. intros ->. by destruct (vout t).
  - cbn [sum_values foldr]. fold (sum_values os). lia.
Qed.

(** *** Scripts *)

Context (CheckLowS : bytes -> bool) (Verify : bytes -> bytes -> bytes -> bool).

Lemma wait_checks_app ks ks' :
  wait_checks CheckLowS Verify (ks ++ ks') = Ok true <-> wait_checks CheckLowS Verify ks = Ok true /\ wait_checks CheckLowS Verify ks' = Ok true.
Proof.
  induction ks as [|k ks IH]; cbn [wait_checks app]; [naive_solver|]. destruct (run_check CheckLowS Verify k) as [[e|]|e]; cbn [bindR]; naive_solver.
Qed.

(** The input at position [k] verifies against the output it spends. *)
Definition input_verifies (v : view) (flags branch : Z) (txdata : PrecomputedTransactionData) (t : CTransaction) (k : nat) (i : CTxIn) : Prop :=
  exists o, output_at v i = Some o
    /\ run_check CheckLowS Verify (ScriptCheck (scriptPubKey o) (nValue o) t k flags branch txdata) = Ok None.

Lemma check_input_stands c c1 v q flags branch txdata t k i c' ks :
  stands c c1 v -> is_Some (output_at v i) -> check_input CheckLowS Verify q flags branch txdata t k i c1 = (c', Ok ks) ->
  stands c c' v /\ (wait_checks CheckLowS Verify ks = Ok true -> input_verifies v flags branch txdata t k i).
Proof.
  intros Hs [o Ho] Hc. unfold check_input in Hc. stepM Hc c2 co E. apply (AccessCoins_stands c c1 v) in E as [Hs2 Hco]; [|done].
  destruct co as [co|]; [|done]. apply coins_equiv_out in Hco as [Hout _].
  pose proof Ho as Ho'. unfold output_at in Ho'. rewrite <- Hout in Ho'. unfold out_of in Ho'.
  destruct (c_vout co !! _) as [o'|]; [|done]. destruct (txout_IsNull o'); [done|]. injection Ho' as ->. destruct q.
  - apply retM_Ok in Hc as [-> ->]. split; [done|]. cbn [wait_checks]. intros Hw. exists o. split; [done|].
    destruct (run_check _ _ _) as [[e|]|e]; done.
  - stepM Hc c3 r E. destruct r as [e|].
    + exfalso. destruct (has_flag _ _); [|done]. stepM Hc c4 r2 E2. by destruct r2.
    + apply retM_Ok in Hc as [-> ->]. split; [done|]. intros _. by exists o.
Qed.
Lemma check_scripts_stands c c1 v q flags branch txdata t k ins c' ks :
  stands c c1 v -> Forall (fun i => is_Some (output_at v i)) ins ->
  check_scripts CheckLowS Verify q flags branch txdata t k ins c1 = (c', Ok ks) ->
  stands c c' v /\ (wait_checks CheckLowS Verify ks = Ok true ->
                    forall j i, ins !! j = Some i -> input_verifies v flags branch txdata t (k + j) i).
Proof.
  intros Hs Hav. revert c1 c' k ks Hs. induction Hav as [|i ins Hi _ IH]; intros c1 c' k ks Hs Hc; cbn [check_scripts] in Hc.
  { apply retM_Ok in Hc as [-> ->]. by split. }
  stepM Hc c2 ks1 E. apply (check_input_stands c c1 v) in E as [Hs2 Hv]; [|done..]. stepM Hc c3 ks2 E. apply (IH c2) in E as [Hs3 Hvs]; [|done].
  apply retM_Ok in Hc as [-> ->]. split; [done|]. rewrite wait_checks_app. intros [W1 W2] [|j] i'.
  - intros [= <-]. rewrite Nat.add_0_r. by apply Hv.
  - intros Hj. rewrite <- Nat.add_succ_comm. by apply Hvs.
Qed.

(** *** A transaction of a block *)

(** What a transaction other than the coinbase satisfies against the view: it
    spends the outputs [os] and pays [fee]. *)
Record spends (e : connect_env) (v : view) (t : CTransaction) (os : list CTxOut) (fee : Z) : Prop := {
  sp_outputs : Forall2 (fun i o => output_at v i = Some o) (vin t) os;
  sp_mature : exists h, spend_height (ce_node e) v h
    /\ Forall (mature v (fCoinbaseEnforcedShieldingEnabled (ce_options e) && fCoinbaseMustBeShielded (ce_params e)) t h) (vin t);
  sp_nullifiers : unspent_nullifiers v t;
  sp_anchors : Forall (fun d => is_Some (view_GetSaplingAnchorAt v (sd_anchor d))) (vShieldedSpend t);
  sp_fee : exists shielded out, GetShieldedValueIn t = Ok shielded /\ GetValueOut t = Ok out
    /\ fee = sum_values os + shielded - out /\ 0 <= fee <= MAX_MONEY
}.
Definition scripts_verify (e : connect_env) (v : view) (t : CTransaction) : Prop :=
  ce_fExpensiveChecks e = true -> exists txdata, PrecomputedTransactionData_of t = Ok txdata
    /\ forall j i, vin t !! j = Some i -> input_verifies v (ce_flags e) (ce_branch e) txdata t j i.

Lemma of_value_Ok {A} (r : result unit A) a : of_value r = Ok a -> r = Ok a.
Proof. destruct r; [|done]. by intros [= ->]. Qed.
Lemma of_sighash_Ok {A} (r : result sighash_exn A) a : of_sighash r = Ok a -> r = Ok a.
Proof. destruct r; [|done]. by intros [= ->]. Qed.

Lemma GetValueOut_range t r : GetValueOut t = Ok r -> 0 <= r <= MAX_MONEY.
Proof. rewrite GetValueOut_sum. apply add_all_range. unfold MAX_MONEY, COIN. lia. Qed.
Lemma GetShieldedValueIn_range t r : GetShieldedValueIn t = Ok r -> 0 <= r <= MAX_MONEY.
Proof. rewrite GetShieldedValueIn_sum. apply add_all_range. unfold MAX_MONEY, COIN. lia. Qed.

Lemma CheckTxInputs_stands c c1 v b (t : CTransaction) h params c' :
  stands c c1 v -> IsCoinBase t = false -> CheckTxInputs b t h params c1 = (c', Ok tt) ->
  stands c c' v /\ exists os shielded out,
    Forall2 (fun i o => output_at v i = Some o) (vin t) os /\ Forall (mature v (b && fCoinbaseMustBeShielded params) t h) (vin t)
    /\ GetShieldedValueIn t = Ok shielded /\ GetValueOut t = Ok out /\ 0 <= sum_values os + shielded - out <= MAX_MONEY
    /\ 0 <= sum_values os + shielded <= MAX_MONEY.
Proof.
  intros Hs Hcb Hc. unfold CheckTxInputs in Hc. stepM Hc c2 have E. apply unless_Ok in Hc as [-> Hc].
  apply (HaveInputs_stands c c1 v) in E as [Hs2 Hav]; [|done..]. stepM Hc c3 sh E. apply unless_Ok in Hc as [-> Hc].
  apply (HaveShieldedRequirements_stands c c2 v) in E as [Hs3 _]; [|done]. stepM Hc c4 n E.
  apply (check_inputs_stands c c3 v) in E as [Hs4 (os & Hos & Hm & _ & -> & Hr)]; [|done|unfold MAX_MONEY, COIN; lia|done].
  stepM Hc c5 sv E. apply of_value_Ok in E. assert (Hsb : 0 <= sv <= MAX_MONEY) by (by apply GetShieldedValueIn_range in E).
  rewrite Z.add_0_l in *. apply unless_Ok in Hc as [Hr2 Hc]. rewrite money_to_i64 in * by lia. rewrite MoneyRange_spec in Hr2.
  stepM Hc c6 out Eo. apply of_value_Ok in Eo. apply unless_Ok in Hc as [Hlt Hc]. apply unless_Ok in Hc as [_ Hc]. apply unless_Ok in Hc as [Hf Hc].
  apply retM_Ok in Hc as [_ ->]. apply negb_true_iff, Z.ltb_ge in Hlt. pose proof (GetValueOut_range _ _ Eo).
  rewrite money_to_i64, MoneyRange_spec in Hf by lia. split; [done|]. by exists os, sv, out.
Qed.

Lemma ContextualCheckInputs_stands c c1 v n opt (t : CTransaction) script flags txdata params branch pv c' ks :
  stands c c1 v -> IsCoinBase t = false ->
  ContextualCheckInputs CheckLowS Verify n opt t script flags txdata params branch pv c1 = (c', Ok ks) ->
  stands c c' v /\ exists os shielded out h, spend_height n v h /\
    Forall2 (fun i o => output_at v i = Some o) (vin t) os
    /\ Forall (mature v (fCoinbaseEnforcedShieldingEnabled opt && fCoinbaseMustBeShielded params) t h) (vin t)
    /\ GetShieldedValueIn t = Ok shielded /\ GetValueOut t = Ok out /\ 0 <= sum_values os + shielded - out <= MAX_MONEY
    /\ 0 <= sum_values os + shielded <= MAX_MONEY
    /\ (script = true -> wait_checks CheckLowS Verify ks = Ok true ->
        forall j i, vin t !! j = Some i -> input_verifies v flags branch txdata t j i).
Proof.
  intros Hs Hcb Hc. unfold ContextualCheckInputs in Hc. rewrite Hcb in Hc. stepM Hc c2 h E.
  apply (GetSpendHeight_stands n c c1 v) in E as [Hs2 Hh]; [|done]. stepM Hc c3 u E. destruct u.
  apply (CheckTxInputs_stands c c2 v) in E as [Hs3 (os & sh & out & Hos & Hm & E1 & E2 & Hf & Hv)]; [|done..].
  assert (Hav : Forall (fun i => is_Some (output_at v i)) (vin t)) by (clear -Hos; induction Hos; constructor; [by eexists|done]).
  assert (stands c c' v /\ (script = true -> wait_checks CheckLowS Verify ks = Ok true ->
        forall j i, vin t !! j = Some i -> input_verifies v flags branch txdata t j i)) as [Hs4 Hk].
  { destruct script; [|by apply retM_Ok in Hc as [_ ->]]. apply (check_scripts_stands c c3 v) in Hc as [Hs4 Hk]; [|done..]. split; [done|].
    intros _ Hw j i Hj. by apply (Hk Hw). }
  split; [done|]. exists os, sh, out, h. split_and!; done || lia.
Qed.

(** *** What connecting does to the view *)

Fixpoint spent (v : view) (ins : list CTxIn) : option (list CTxInUndo * view) :=
  match ins with
  | [] => Some ([], v)
  | i :: ins =>
      match spend_coins (op_n (prevout i)) (coins_at v (op_hash (prevout i))) with
      | (co, Some u) => '(us, v) ← spent (put_coins v (op_hash (prevout i)) co) ins; Some (u :: us, v)
      | (_, None) => None
      end
  end.
Definition after_tx (height : Z) (v : view) (t : CTransaction) : option (CTxUndo * view) :=
  '(us, v) ← (if IsCoinBase t then Some ([], v) else spent v (vin t));
  Some (TxUndo us, put_coins (put_nullifiers v t true) (tx_hash t) (FromTx t height)).

Lemma spend_inputs_stands c c1 v ins c' us : stands c c1 v -> spend_inputs ins c1 = (c', Ok us) ->
  exists v', spent v ins = Some (us, v') /\ stands c c' v'.
Proof.
  revert c1 v us. induction ins as [|i ins IH]; intros c1 v us Hs Hc; cbn [spend_inputs] in Hc.
  { apply retM_Ok in Hc as [-> ->]. by exists v. }
  stepM Hc c2 u E. destruct (ModifyCoins_spec c1 _ _ c2 u (proj1 Hs) (spend_respects _) (spend_clear _) E) as (O2 & B2 & V2 & Hu).
  destruct Hs as (_ & B & V). assert (Hco : coins_at (as_view c1) (op_hash (prevout i)) = coins_at v (op_hash (prevout i))) by (by rewrite V).
  rewrite Hco in Hu, V2. cbn [spent]. destruct (spend_coins _ _) as [co u'] eqn:Es. cbn [fst snd] in *. subst u'.
  destruct u as [u|]; [|done]. stepM Hc c3 us' E3. apply retM_Ok in Hc as [-> ->].
  assert (Hs2 : stands c c2 (put_coins v (op_hash (prevout i)) co)) by (split_and!; [done|congruence|by rewrite V2, V]).
  destruct (IH c2 _ us' Hs2 E3) as (v' & -> & Hs3). by exists v'.
Qed.

(** A transaction that is new to the base, whose outputs have values. *)
Definition tx_new (c : cache) (t : CTransaction) : Prop :=
  unspent (base c) (tx_hash t) = None /\ Forall (fun o => 0 <= nValue o) (vout t).

Lemma UpdateCoins_stands c c1 v t height c' undo :
  stands c c1 v -> tx_new c t -> UpdateCoins t height c1 = (c', Ok undo) ->
  exists v', after_tx height v t = Some (undo, v') /\ stands c c' v'.
Proof.
  intros Hs [Hf Hval] Hc. unfold UpdateCoins in Hc. stepM Hc c2 us E.
  assert (exists v', (if IsCoinBase t then Some ([], v) else spent v (vin t)) = Some (us, v') /\ stands c c2 v') as (v1 & Hv1 & Hs2).
  { destruct (IsCoinBase t); [apply retM_Ok in E as [-> ->]; by exists v|]. by apply (spend_inputs_stands c c1). }
  stepM Hc c3 x E3. stepM Hc c4 x4 E4. apply retM_Ok in Hc as [-> ->].
  unfold after_tx. rewrite Hv1. cbn [mbind option_bind]. eexists. split; [reflexivity|]. destruct Hs2 as (O2 & B2 & V2).
  destruct (SetNullifiers_spec c2 t true O2) as (O3 & B3 & V3). rewrite <- B2, <- B3 in Hf.
  destruct (ModifyNewCoins_spec _ (tx_hash t) (fun _ => FromTx t height) O3 (FromTx_clear t height Hval) Hf) as (O4 & B4 & V4).
  split_and!; [done|congruence|]. by rewrite V4, V3, V2.
Qed.

Lemma outputs_unique v ins os os' :
  Forall2 (fun i o => output_at v i = Some o) ins os -> Forall2 (fun i o => output_at v i = Some o) ins os' -> os = os'.
Proof.
  intros Ho. revert os'. induction Ho as [|i o ins os Hi _ IH]; intros os' Ho'; inversion Ho'; subst; [done|]. f_equal; [congruence|by apply IH].
Qed.

(** The checks of a transaction that are not those of a coinbase. *)
Lemma check_tx_stands c c1 v e (t : CTransaction) f n c' f' n' ks :
  stands c c1 v -> IsCoinBase t = false -> check_tx CheckLowS Verify e t f n c1 = (c', Ok (f', n', ks)) ->
  stands c c' v /\ exists os fee, spends e v t os fee /\ f' = to_i64 (f + fee)
    /\ (wait_checks CheckLowS Verify ks = Ok true -> scripts_verify e v t).
Proof.
  intros Hs Hcb Hc. unfold check_tx in Hc. stepM Hc c2 ns E. stepM Hc c3 u E3. rewrite Hcb in Hc.
  stepM Hc c4 have E4. apply unless_Ok in Hc as [-> Hc]. apply (HaveInputs_stands c c1 v) in E4 as [Hs4 Hav]; [|done..].
  stepM Hc c5 sh E5. apply unless_Ok in Hc as [-> Hc]. apply (HaveShieldedRequirements_stands c c4 v) in E5 as [Hs5 [Hnf Hanc]]; [|done].
  stepM Hc c6 np E6. apply (GetP2SHSigOpCount_stands c c5 v) in E6; [|done]. stepM Hc c7 u7 E7. stepM Hc c8 txdata E8. apply of_sighash_Ok in E8.
  stepM Hc c9 value E9. stepM Hc c10 out E10. apply of_value_Ok in E10. stepM Hc c11 ks' E11.
  apply retM_Ok in Hc as [Heq ->]. injection Heq as -> -> ->.
  unfold GetValueIn in E9. rewrite Hcb in E9. destruct (sum_inputs c6 0 (vin t)) as [c12 [r|]] eqn:Esum; [|done].
  destruct (sum_inputs_stands _ _ _ _ _ _ _ E6 Esum) as [Hs12 (os' & Hos' & _ & Hr)]. injection E9 as <- Hval.
  apply (ContextualCheckInputs_stands c c12 v) in E11 as [Hs11 (os & shv & out' & h & Hh & Hos & Hm & Esh & Eo & Hfee & Hin & Hk)]; [|done..].
  rewrite (outputs_unique _ _ _ _ Hos' Hos) in Hr. rewrite Esh in Hval. injection Hval as <-. rewrite Eo in E10. injection E10 as <-.
  split; [done|]. exists os, (sum_values os + shv - out'). split_and!.
  - constructor; try done; [by exists h|]. exists shv, out'. split_and!; done || lia.
  - assert (to_i64 (r + shv) = sum_values os + shv) as ->.
    { rewrite <- (to_i64_add r), Hr, to_i64_add, Z.add_0_l. apply money_to_i64. lia. }
    by rewrite (money_to_i64 (_ - _)) by lia.
  - intros Hw He. exists txdata. split; [done|]. by apply Hk.
Qed.

(** A list of transactions, from the first of the block on, connects: it takes
    the view [v] to [v'], with its undo data, the value that enters it through
    inputs and from the shielded pools, and its fees. *)
Definition shielded_in (t : CTransaction) : Z := match GetShieldedValueIn t with Ok s => s | Err _ => 0 end.
Inductive connects (e : connect_env) : bool -> view -> list CTransaction -> list CTxUndo -> Z -> Z -> view -> Prop :=
| connects_nil first v : connects e first v [] [] 0 0 v
| connects_coinbase first v (t : CTransaction) l undo us v1 value fees v' :
    IsCoinBase t = true -> after_tx (ce_height e) v t = Some (undo, v1) -> connects e false v1 l us value fees v' ->
    connects e first v (t :: l) (if first then us else undo :: us) value fees v'
| connects_spend first v (t : CTransaction) l os fee undo us v1 value fees v' :
    IsCoinBase t = false -> spends e v t os fee -> scripts_verify e v t -> after_tx (ce_height e) v t = Some (undo, v1) ->
    connects e false v1 l us value fees v' ->
    connects e first v (t :: l) (if first then us else undo :: us) (sum_values os + shielded_in t + value) (fee + fees) v'.

Definition sprout_commitments (l : list CTransaction) : list bytes :=
  concat (map (fun t : CTransaction => concat (map js_commitments (vJoinSplit t))) l).
Definition sapling_commitments (l : list CTransaction) : list bytes :=
  concat (map (fun t : CTransaction => map od_cmu (vShieldedOutput t)) l).

Lemma append_all_app {Tree} `{MerkleTree Tree} (t : Tree) l l' : append_all t (l ++ l') = append_all t l ≫= fun t => append_all t l'.
Proof. revert t. induction l as [|x l IH]; intros t; [done|]. cbn. destruct (tree_append t x); [apply IH|done]. Qed.
Lemma of_tree_Ok {A} (t : option A) a : of_tree t = Ok a -> t = Some a.
Proof. destruct t; [|done]. by intros [= ->]. Qed.

Lemma check_tx_coinbase e (t : CTransaction) f n (c1 c' : cache) f' n' ks :
  IsCoinBase t = true -> check_tx CheckLowS Verify e t f n c1 = (c', Ok (f', n', ks)) -> c' = c1 /\ f' = f /\ ks = [].
Proof.
  intros Hcb Hc. unfold check_tx in Hc. stepM Hc c2 ns E. stepM Hc c3 u E3. rewrite Hcb in Hc. stepM Hc c4 d E4.
  apply retM_Ok in Hc as [Heq ->]. by injection Heq as -> -> ->.
Qed.

(** The state of the loop after a transaction. *)
Lemma connect_tx_stands c c1 v e first t (s : connect_state) c' s' :
  stands c c1 v -> tx_new c t -> connect_tx CheckLowS Verify e first t s c1 = (c', Ok s') ->
  exists undo v1 ks, after_tx (ce_height e) v t = Some (undo, v1) /\ stands c c' v1
    /\ cs_vtxundo s' = (if first then cs_vtxundo s else cs_vtxundo s ++ [undo])%list /\ cs_control s' = (cs_control s ++ ks)%list
    /\ append_all (cs_sprout_tree s) (sprout_commitments [t]) = Some (cs_sprout_tree s')
    /\ append_all (cs_sapling_tree s) (sapling_commitments [t]) = Some (cs_sapling_tree s')
    /\ (if IsCoinBase t then cs_nFees s' = cs_nFees s
        else exists os fee, spends e v t os fee /\ cs_nFees s' = to_i64 (cs_nFees s + fee)
               /\ (wait_checks CheckLowS Verify ks = Ok true -> scripts_verify e v t)).
Proof.
  intros Hs Hf Hc. unfold connect_tx in Hc. stepM Hc c2 r E. destruct r as [[f' n'] ks].
  stepM Hc c3 undo E3. stepM Hc c4 st E4. stepM Hc c5 sl E5. apply retM_Ok in Hc as [-> ->]. apply of_tree_Ok in E4, E5.
  assert (stands c c2 v /\ (if IsCoinBase t then f' = cs_nFees s
        else exists os fee, spends e v t os fee /\ f' = to_i64 (cs_nFees s + fee)
               /\ (wait_checks CheckLowS Verify ks = Ok true -> scripts_verify e v t))) as [Hs2 Hrest].
  { destruct (IsCoinBase t) eqn:Hcb; [by apply check_tx_coinbase in E as (-> & -> & ->)|]. by apply (check_tx_stands c c1 v) in E. }
  apply (UpdateCoins_stands c c2 v) in E3 as (v1 & Hv1 & Hs3); [|done..].
  exists undo, v1, ks. cbn [cs_vtxundo cs_control cs_sprout_tree cs_sapling_tree cs_nFees]. unfold sprout_commitments, sapling_commitments.
  cbn [map concat]. rewrite !app_nil_r. by split_and!.
Qed.

Lemma connect_txs_stands c c1 v e first l (s : connect_state) c' s' :
  stands c c1 v -> Forall (tx_new c) l -> sint 64 (cs_nFees s) ->
  connect_txs CheckLowS Verify e first l s c1 = (c', Ok s') ->
  exists us v' value fees ks, stands c c' v' /\ cs_vtxundo s' = (cs_vtxundo s ++ us)%list /\ cs_control s' = (cs_control s ++ ks)%list
    /\ append_all (cs_sprout_tree s) (sprout_commitments l) = Some (cs_sprout_tree s')
    /\ append_all (cs_sapling_tree s) (sapling_commitments l) = Some (cs_sapling_tree s')
    /\ cs_nFees s' = to_i64 (cs_nFees s + fees)
    /\ (wait_checks CheckLowS Verify ks = Ok true -> connects e first v l us value fees v').
Proof.
  intros Hs Hf. revert c1 v first s Hs. induction Hf as [|t l Ht _ IH]; intros c1 v first s Hs Hn Hc; cbn [connect_txs] in Hc.
  { apply retM_Ok in Hc as [-> ->]. exists [], v, 0, 0, []. rewrite !app_nil_r, Z.add_0_r, swrap_small by done. split_and!; try done. constructor. }
  stepM Hc c2 s1 E. apply (connect_tx_stands c c1 v) in E as (undo & v1 & ks & Hv1 & Hs2 & Hu & Hk & Hsp & Hsl & Hrest); [|done..].
  assert (Hn1 : sint 64 (cs_nFees s1)).
  { destruct (IsCoinBase t); [by rewrite Hrest|]. destruct Hrest as (os & fee & _ & -> & _). by apply swrap_range. }
  apply (IH c2 v1) in Hc as (us & v' & value & fees & ks' & Hs' & Hu' & Hk' & Hsp' & Hsl' & Hfee & Hcon); [|done..].
  assert (Hcomm : append_all (cs_sprout_tree s) (sprout_commitments (t :: l)) = Some (cs_sprout_tree s')
                  /\ append_all (cs_sapling_tree s) (sapling_commitments (t :: l)) = Some (cs_sapling_tree s')).
  { unfold sprout_commitments, sapling_commitments in *. cbn [map concat] in *. rewrite app_nil_r in Hsp, Hsl.
    by rewrite !append_all_app, Hsp, Hsl. }
  destruct Hcomm as [C1 C2].
  assert (Hus : cs_vtxundo s' = (cs_vtxundo s ++ (if first then us else undo :: us))%list) by (rewrite Hu', Hu; destruct first; [done|by rewrite <- app_assoc]).
  assert (Hks : cs_control s' = (cs_control s ++ ks ++ ks')%list) by (by rewrite Hk', Hk, <- app_assoc).
  destruct (IsCoinBase t) eqn:Hcb.
  - exists (if first then us else undo :: us), v', value, fees, (ks ++ ks')%list. rewrite Hrest in Hfee. split_and!; try done.
    rewrite wait_checks_app. intros [W1 W2]. by apply (connects_coinbase e first v t l undo us v1); [..|apply Hcon].
  - destruct Hrest as (os & fee & Hsp1 & Hf1 & Hv).
    exists (if first then us else undo :: us), v', (sum_values os + shielded_in t + value), (fee + fees), (ks ++ ks')%list.
    split_and!; try done.
    + rewrite Hfee, Hf1, to_i64_add. f_equal. lia.
    + rewrite wait_checks_app. intros [W1 W2]. apply (connects_spend e first v t l os fee undo us v1); auto.
Qed.

(** *** A block *)

(** The trees with the commitments of the block do not have the null hash, which
    the view uses for no anchor, as their root. *)
Record roots_set (v : view) (l : list CTransaction) : Prop := {
  rs_sprout (t0 t : SproutMerkleTree) : tree_root <$> view_GetSproutAnchorAt v (view_GetBestAnchor v SPROUT) = Some (tree_root t0) ->
    append_all t0 (sprout_commitments l) = Some t -> tree_root t <> null256;
  rs_sapling (t0 t : SaplingMerkleTree) : tree_root <$> view_GetSaplingAnchorAt v (view_GetBestAnchor v SAPLING) = Some (tree_root t0) ->
    append_all t0 (sapling_commitments l) = Some t -> tree_root t <> null256
}.

Lemma check_bip30_stands c c1 v l c' : stands c c1 v -> check_bip30 l c1 = (c', Ok tt) ->
  stands c c' v /\ Forall (fun t => unspent v (tx_hash t) = None) l.
Proof.
  revert c1. induction l as [|t l IH]; intros c1 Hs Hc; cbn [check_bip30] in Hc; [apply retM_Ok in Hc as [_ ->]; by split|].
  stepM Hc c2 co E. apply unless_Ok in Hc as [Hp Hc]. pose proof (AccessCoins_reads c1 (tx_hash t) (proj1 Hs)) as [Hr Hv].
  rewrite E in Hr, Hv. cbn [fst snd] in Hr, Hv. destruct (IH c2 (stands_reads _ _ _ _ Hs Hr) Hc) as [Hs' Hf]. split; [done|]. constructor; [|done].
  rewrite <- (ve_coins _ _ (proj2 (proj2 Hs))). unfold unspent. rewrite <- Hv. destruct co as [co|]; [|done]. cbn. by apply norm_pruned.
Qed.

(** What holds when the transactions of a block connect to [v]. *)
Record block_connects (e : connect_env) (b : CBlockInMemory) (v v1 : view) (us : list CTxUndo) (value fees : Z)
    (sprout : SproutMerkleTree) (sapling : SaplingMerkleTree) : Prop := {
  bc_sprout : exists t0, tree_root <$> view_GetSproutAnchorAt v (view_GetBestAnchor v SPROUT) = Some (tree_root t0)
    /\ tree_root t0 = view_GetBestAnchor v SPROUT /\ append_all t0 (sprout_commitments (m_vtx b)) = Some sprout;
  bc_sapling : exists t0, tree_root <$> view_GetSaplingAnchorAt v (view_GetBestAnchor v SAPLING) = Some (tree_root t0)
    /\ append_all t0 (sapling_commitments (m_vtx b)) = Some sapling;
  bc_sapling_root : NetworkUpgradeActive (ce_params e) (ce_height e) UPGRADE_SAPLING = Ok true -> hb_hashFinalSaplingRoot b = tree_root sapling;
  bc_transactions : connects e true v (m_vtx b) us value fees v1;
  bc_reward : exists coinbase others out subsidy, m_vtx b = coinbase :: others /\ GetValueOut coinbase = Ok out
    /\ GetBlockSubsidy (ce_height e) (ce_params e) = Ok subsidy /\ out <= to_i64 (to_i64 fees + subsidy)
}.

Lemma push_stands c c1 v sprout sapling : stands c c1 v -> tree_root sprout <> null256 -> tree_root sapling <> null256 ->
  stands c (PushSaplingAnchor (PushSproutAnchor c1 sprout) sapling) (push_sapling (push_sprout v sprout) sapling).
Proof.
  intros (O & B & V) Hsp Hsl. destruct (PushSproutAnchor_spec c1 sprout O Hsp) as (O1 & B1 & V1).
  destruct (PushSaplingAnchor_spec _ sapling O1 Hsl) as (O2 & B2 & V2). split_and!; [done|congruence|]. by rewrite V2, V1, V.
Qed.

Lemma connect_transactions_stands c c1 v e b c' undo root ks :
  stands c c1 v -> Forall (tx_new c) (m_vtx b) -> roots_set v (m_vtx b) ->
  connect_transactions CheckLowS Verify e b c1 = (c', Ok (undo, root, ks)) -> wait_checks CheckLowS Verify ks = Ok true ->
  exists v1 value fees sprout sapling, block_connects e b v v1 (vtxundo undo) value fees sprout sapling
    /\ stands c c' (push_sapling (push_sprout v1 sprout) sapling)
    /\ old_sprout_tree_root undo = view_GetBestAnchor v SPROUT /\ root = tree_root sprout.
Proof.
  intros Hs Hf Hroots Hc Hw. unfold connect_transactions in Hc. stepM Hc c2 root0 E. apply (GetBestAnchor_stands c c1 v) in E as [Hs2 ->]; [|done].
  stepM Hc c3 sprout E3. destruct (GetSproutAnchorAt_reads c2 (view_GetBestAnchor v SPROUT) (proj1 Hs2)) as [Hr3 Hv3].
  rewrite E3 in Hr3, Hv3. cbn [fst snd] in Hr3, Hv3. pose proof (stands_reads _ _ _ _ Hs2 Hr3) as Hs3.
  destruct sprout as [t0|]; [|done]. apply unless_Ok in Hc as [Ht0 Hc]. apply bool_decide_eq_true in Ht0.
  stepM Hc c4 root1 E4. apply (GetBestAnchor_stands c c3 v) in E4 as [Hs4 ->]; [|done]. stepM Hc c5 sapling E5.
  destruct (GetSaplingAnchorAt_reads c4 (view_GetBestAnchor v SAPLING) (proj1 Hs4)) as [Hr5 Hv5].
  rewrite E5 in Hr5, Hv5. cbn [fst snd] in Hr5, Hv5. pose proof (stands_reads _ _ _ _ Hs4 Hr5) as Hs5.
  destruct sapling as [t1|]; [|done]. stepM Hc c6 st E6.
  apply (connect_txs_stands c c5 v) in E6 as (us & v1 & value & fees & ks' & Hs6 & Hu & Hk & Hsp & Hsl & Hfee & Hcon); [|done..].
  cbn [cs_vtxundo cs_control cs_sprout_tree cs_sapling_tree cs_nFees app] in *. rewrite Z.add_0_l in Hfee.
  stepM Hc c7 x7 E7. stepM Hc c8 x8 E8. stepM Hc c9 active E9. apply of_param_Ok in E9. apply unless_Ok in Hc as [Hact Hc].
  stepM Hc c10 subsidy E10. apply of_param_Ok in E10. destruct (m_vtx b) as [|coinbase others] eqn:Ev; [done|].
  stepM Hc c11 out E11. apply of_value_Ok in E11. apply unless_Ok in Hc as [Hrew Hc]. apply retM_Ok in Hc as [Heq ->].
  injection Heq as -> -> ->. apply negb_true_iff, Z.ltb_ge in Hrew. rewrite Hfee in Hrew. rewrite Hk in Hw.
  exists v1, value, fees, (cs_sprout_tree st), (cs_sapling_tree st). cbn [vtxundo old_sprout_tree_root]. rewrite Hu.
  assert (Hsp0 : tree_root <$> view_GetSproutAnchorAt v (view_GetBestAnchor v SPROUT) = Some (tree_root t0)).
  { by rewrite <- (ve_sprout _ _ (proj2 (proj2 Hs2))), <- Hv3. }
  assert (Hsl0 : tree_root <$> view_GetSaplingAnchorAt v (view_GetBestAnchor v SAPLING) = Some (tree_root t1)).
  { by rewrite <- (ve_sapling _ _ (proj2 (proj2 Hs4))), <- Hv5. }
  pose proof (rs_sprout _ _ Hroots t0 _ Hsp0 Hsp) as Nsp. pose proof (rs_sapling _ _ Hroots t1 _ Hsl0 Hsl) as Nsl.
  split; [|split_and!; [by apply push_stands|done..]]. constructor.
  - exists t0. rewrite Ev. by split_and!.
  - exists t1. rewrite Ev. by split_and!.
  - rewrite E9. intros [= ->]. cbn [negb orb] in Hact. by apply bool_decide_eq_true in Hact.
  - rewrite Ev. by apply Hcon.
  - by exists coinbase, others, out, subsidy.
Qed.

Context (write_undo : CBlockUndo -> result string Z).

Lemma tx_valid_values (t : CTransaction) : tx_valid t -> Forall (fun o => 0 <= nValue o) (vout t).
Proof.
  intros Hv. destruct (tv_out _ Hv) as [Ho _]. unfold values_out in Ho. apply Forall_app in Ho as [Ho _]. apply Forall_fmap in Ho.
  eapply Forall_impl; [exact Ho|]. cbn. lia.
Qed.

Lemma has_bit s k : 0 <= k -> (Z.land s (2 ^ k) =? 0) = negb (Z.testbit s k).
Proof.
  intros Hk. destruct (Z.testbit s k) eqn:E; cbn [negb].
  - apply Z.eqb_neq. intros Hz. apply (f_equal (fun z => Z.testbit z k)) in Hz. rewrite Z.land_spec, E, Z.pow2_bits_true, Z.bits_0 in Hz by done. done.
  - apply Z.eqb_eq, Z.bits_inj_0. intros m. rewrite Z.land_spec, Z.pow2_bits_eqb by done. destruct (Z.eqb_spec k m) as [<-|]; [by rewrite E|apply andb_false_r].
Qed.
Lemma undo_pos_null b : nFile b <> -1 -> disk_pos_IsNull (GetUndoPos b) = negb (Z.testbit (nStatus b) 4).
Proof.
  intros Hf. unfold GetUndoPos, BLOCK_HAVE_UNDO. change 16 with (2 ^ 4). rewrite has_bit by lia.
  destruct (Z.testbit _ 4); cbn; [|done]. unfold disk_pos_IsNull. cbn. by apply Z.eqb_neq.
Qed.

(** What is recorded for a block that is connected for the first time: its undo
    data is stored, and the entry says so. *)
Lemma record_validity_spec n params b undo b' w :
  nFile b <> -1 -> disk_pos_IsNull (GetUndoPos b) = true -> record_validity write_undo n params b undo = Ok (b', w) ->
  w = Some undo /\ disk_pos_IsNull (GetUndoPos b') = false /\ phashBlock b' = phashBlock b /\ pprev b' = pprev b /\ nHeight b' = nHeight b.
Proof.
  intros Hf Hn Hr. unfold record_validity in Hr. rewrite Hn in Hr. apply bindR_Ok in Hr as (valid & _ & Hr). cbn [orb] in Hr.
  destruct (write_undo undo) as [pos|]; [|done]. cbn [bindR] in Hr. apply bindR_Ok in Hr as (b1 & E1 & Hr).
  assert (Hb1 : nFile b1 = nFile b /\ Z.testbit (nStatus b1) 4 = true /\ phashBlock b1 = phashBlock b /\ pprev b1 = pprev b /\ nHeight b1 = nHeight b).
  { destruct (IsActivationHeightForAnyUpgrade _ _).
    - apply bindR_Ok in E1 as (br & _ & [= <-]). split_and!; try done. cbn [set_branch_id set_undo_pos nStatus].
      rewrite !Z.lor_spec. change BLOCK_HAVE_UNDO with (2 ^ 4). by rewrite Z.pow2_bits_true, orb_true_r by lia.
    - assert (Hst : Z.testbit (nStatus (set_undo_pos b pos)) 4 = true).
      { cbn [set_undo_pos nStatus]. rewrite Z.lor_spec. change BLOCK_HAVE_UNDO with (2 ^ 4). by rewrite Z.pow2_bits_true, orb_true_r by lia. }
      destruct (pprev (set_undo_pos b pos)) as [q|] eqn:Eq; [apply bindR_Ok in E1 as (prev & _ & E1)|]; injection E1 as <-; by split_and!. }
  destruct Hb1 as (F1 & F2 & F3 & F4 & F5). apply bindR_Ok in Hr as ([x b2] & E2 & [= <- <-]). apply of_chain_Ok in E2.
  unfold RaiseValidity in E2. destruct (valid_level BLOCK_VALID_SCRIPTS); [|done].
  assert (Hb2 : b2 = b1 \/ b2 = set_status b1 (Z.lor (Z.land (nStatus b1) (to_u32 (Z.lnot BLOCK_VALID_MASK))) BLOCK_VALID_SCRIPTS)).
  { destruct (negb (Z.land (nStatus b1) BLOCK_FAILED_MASK =? 0)); [|destruct (_ <? _)]; injection E2 as _ <-; auto. }
  destruct Hb2 as [->| ->]; split_and!; try done; rewrite undo_pos_null by (cbn [set_status nFile]; congruence); [by rewrite F2|].
  cbn [set_status nStatus]. rewrite Z.lor_spec, Z.land_spec, F2. done.
Qed.

(** A block is marked as checked by [CheckBlock] only, with proof of work and
    Merkle root tested; the verifier may have been disabled. *)
Definition mark_earned (b : CBlockInMemory) (cp : CChainParams) (hash : bytes) : Prop :=
  fChecked b = true -> exists verifier, block_valid b cp verifier true true hash.

Lemma mark_unset b cp hash : fChecked b = false -> mark_earned b cp hash.
Proof. intros Hf Hc. congruence. Qed.
(** What [ConnectBlock] knows after [CheckBlock]: the proofs of a marked block
    are not verified. *)
Lemma CheckBlock_marked (b : CBlockInMemory) cp verifier pow hash b' :
  header_GetHash b = Ok hash -> mark_earned b cp hash -> CheckBlock b cp verifier pow true = Ok b' ->
  block_valid b cp (verifier && negb (fChecked b)) pow true hash /\ m_header b' = m_header b /\ m_vtx b' = m_vtx b.
Proof.
  intros Hh Hm Hc. destruct (fChecked b) eqn:E.
  - unfold CheckBlock in Hc. rewrite E in Hc. injection Hc as <-. destruct (Hm E) as [v Hv]. split; [|done]. rewrite andb_false_r.
    by apply (block_valid_weaken b cp v true true); [..|exact Hv].
  - apply (CheckBlock_spec b cp verifier pow true hash Hh E) in Hc as [Hv ->]. by rewrite andb_true_r.
Qed.

Lemma ConnectBlock_stands c v n opt (b : CBlockInMemory) p pindex cp c' r hash :
  cache_ok c -> as_view c ≡ v -> (forall txid, unspent v txid = None -> unspent (base c) txid = None) ->
  deref (block_index n) p = Ok pindex -> header_GetHash b = Ok hash -> hash <> hashGenesisBlock (consensus cp) -> mark_earned b cp hash ->
  roots_set v (m_vtx b) -> phashBlock pindex <> null256 -> nFile pindex <> -1 -> disk_pos_IsNull (GetUndoPos pindex) = true ->
  ConnectBlock CheckLowS Verify write_undo n opt b p cp false c = (c', Ok r) ->
  exists expensive branch v1 value fees sprout sapling undo,
    expensive_checks n p pindex = Ok expensive
    /\ block_valid b cp (expensive && negb (fChecked b)) (negb (nHeight pindex =? 0)) true hash
    /\ turnstile_ok (fZIP209Enabled opt) pindex = Ok tt
    /\ prev_hash n pindex = Ok (view_GetBestBlock v)
    /\ Forall (fun t => unspent v (tx_hash t) = None) (m_vtx b)
    /\ block_connects (ConnectEnv n opt (consensus cp) (nHeight pindex) branch connect_flags expensive) b v v1 (vtxundo undo) value fees sprout sapling
    /\ old_sprout_tree_root undo = view_GetBestAnchor v SPROUT
    /\ (r_undo r = Some undo /\ disk_pos_IsNull (GetUndoPos (r_index r)) = false /\ phashBlock (r_index r) = phashBlock pindex
        /\ pprev (r_index r) = pprev pindex /\ nHeight (r_index r) = nHeight pindex)
    /\ stands c c' (put_block (push_sapling (push_sprout v1 sprout) sapling) (phashBlock pindex)).
Proof.
  intros Hok Hv Hf Hp Hh Hg Hck Hroots Hnull Hfile Hpos Hc. pose proof (stands_refl c v Hok Hv) as Hs. unfold ConnectBlock in Hc.
  stepM Hc c1 pi E1. rewrite Hp in E1. cbn in E1. injection E1 as <-. stepM Hc c2 exp E2. stepM Hc c3 b' E3. cbn [negb andb] in E3.
  apply (CheckBlock_marked b cp exp _ hash b' Hh Hck) in E3 as (Hvalid & Ehd & Etx). stepM Hc c4 prev E4. stepM Hc c5 best E5.
  apply (GetBestBlock_stands c c v) in E5 as [Hs5 ->]; [|done]. apply unless_Ok in Hc as [Hbest Hc]. apply bool_decide_eq_true in Hbest. subst prev.
  stepM Hc c6 h' E6. apply of_writer_Ok in E6. rewrite Ehd, Hh in E6. injection E6 as <-.
  rewrite (bool_decide_eq_false_2 _ Hg) in Hc. stepM Hc c7 x7 E7. destruct x7. stepM Hc c8 x8 E8. destruct x8.
  rewrite Etx in E8. apply (check_bip30_stands c c5 v) in E8 as [Hs8 Hfresh]; [|done]. stepM Hc c9 branch E9. apply of_param_Ok in E9.
  stepM Hc c10 res E10. destruct res as [[undo root] ks]. stepM Hc c11 ok E11. apply unless_Ok in Hc as [-> Hc].
  assert (Hbase : Forall (tx_new c) (m_vtx b)).
  { pose proof (bv_transactions _ _ _ _ _ _ Hvalid) as Htx. apply Forall_forall. intros t Ht. split.
    - apply Hf. by apply (proj1 (Forall_forall _ _) Hfresh).
    - apply tx_valid_values. by apply (proj1 (Forall_forall _ _) Htx). }
  apply (connect_transactions_stands c c8 v) in E10 as (v1 & value & fees & sprout & sapling & Hbc & Hs10 & Hold & ->); [|by rewrite ?Etx..].
  stepM Hc c12 res E12. destruct res as [pi written]. stepM Hc c13 x13 E13. apply retM_Ok in Hc as [-> ->].
  apply (record_validity_spec n) in E12 as (-> & R1 & R2 & R3 & R4); [|done..]. cbn [set_sprout_roots phashBlock pprev nHeight] in R2, R3, R4.
  exists exp, branch, v1, value, fees, sprout, sapling, undo. cbn [r_undo r_index]. split_and!; try done.
  - destruct Hbc as [B1 B2 B3 B4 B5]. rewrite Etx in B1, B2, B4, B5. rewrite Ehd in B3. by constructor.
  - destruct Hs10 as (O & B & V). rewrite R2. destruct (SetBestBlock_spec c10 (phashBlock pindex) O Hnull) as (O' & B' & V').
    split_and!; [done|congruence|]. by rewrite V', V.
Qed.

(** *** Values *)

Definition value_out (t : CTransaction) : Z := match GetValueOut t with Ok out => out | Err _ => 0 end.
Definition total_out (l : list CTransaction) : Z := foldr (fun t s => value_out t + s) 0 l.

Lemma connects_value e first v l us value fees v' :
  connects e first v l us value fees v' -> Forall (fun t : CTransaction => IsCoinBase t = false) l ->
  total_out l = value - fees /\ 0 <= fees <= value.
Proof.
  induction 1 as [|first v t l undo us v1 value fees v' Hcb _ _ _|first v t l os fee undo us v1 value fees v' _ [_ _ _ _ Hfee] _ _ _ IH]; intros Hl.
  - cbn. lia.
  - apply Forall_cons in Hl as [Hl _]. congruence.
  - apply Forall_cons in Hl as [_ Hl]. destruct (IH Hl) as [Ht Hb]. destruct Hfee as (sh & out & Es & Eo & -> & Hf).
    pose proof (GetValueOut_range _ _ Eo). cbn [total_out foldr]. fold (total_out l). unfold value_out, shielded_in. rewrite Es, Eo. lia.
Qed.

Lemma subsidy_nonneg h params s : GetBlockSubsidy h params = Ok s -> 0 <= s.
Proof.
  unfold GetBlockSubsidy. intros Hs. apply bindR_Ok in Hs as (k & _ & Hs). destruct (64 <=? k); [by injection Hs as <-|].
  destruct (0 <=? k); [|done]. injection Hs as <-. apply Z.shiftr_nonneg. by vm_compute.
Qed.

(** The coinbase creates at most the subsidy and the fees. *)
Lemma block_no_inflation e b v v1 us value fees sprout sapling cp verifier pow merkle hash subsidy :
  block_connects e b v v1 us value fees sprout sapling -> block_valid b cp verifier pow merkle hash ->
  GetBlockSubsidy (ce_height e) (ce_params e) = Ok subsidy -> value + subsidy < 2 ^ 63 -> total_out (m_vtx b) <= value + subsidy.
Proof.
  intros [_ _ _ Hc (cb & os & out & s & Hv & Ho & Hs & Hr)] Hvalid Hsub Hle. destruct (bv_coinbase _ _ _ _ _ _ Hvalid) as (cb' & os' & Hv' & Hcb & Hos).
  rewrite Hv in Hv'. injection Hv' as <- <-. rewrite Hsub in Hs. injection Hs as <-. pose proof (subsidy_nonneg _ _ _ Hsub).
  rewrite Hv in Hc. inversion Hc as [|? ? ? ? ? ? v2 ? ? ? _ _ Hrest|]; subst; [|congruence].
  destruct (connects_value _ _ _ _ _ _ _ _ Hrest Hos) as [Ht Hb]. rewrite Hv. cbn [total_out foldr]. fold (total_out os). unfold value_out. rewrite Ho.
  rewrite !swrap_small in Hr by (unfold sint; rewrite ?swrap_small by (unfold sint; lia); lia). lia.
Qed.

(** C1: a block that [ConnectBlock] accepts onto a new cache over a view, other
    than the genesis block, satisfies the rules: it extends the best block of the
    view; it is valid by itself, its JoinSplit proofs included when the block is
    not marked as checked and is not under a checkpoint (a marked block was
    accepted by [CheckBlock] before, possibly with the verifier disabled, and
    its proofs are not looked at again); its transaction ids are not among the unspent
    ones; no pool of shielded value is negative; and its transactions connect in
    order, each spending outputs that are unspent at its place, mature and with
    scripts that verify (unless the block is under a checkpoint), using
    nullifiers that are unspent and Sapling anchors that are known, and paying
    a fee that is the exact difference of its values. The trees are extended
    with the commitments of the block, and the header commits to the Sapling
    root. The value that leaves the block's transactions is at most the value
    that enters them plus the subsidy: no other value is created. The view after
    is the view with these changes. The trees with the commitments of the block
    must not have the null root, and the entry has no undo data yet. *)
Theorem connect_block_sound v n opt (b : CBlockInMemory) p pindex cp c' r hash :
  view_ok v -> deref (block_index n) p = Ok pindex -> header_GetHash b = Ok hash ->
  hash <> hashGenesisBlock (consensus cp) -> mark_earned b cp hash -> roots_set v (m_vtx b) ->
  phashBlock pindex <> null256 -> nFile pindex <> -1 -> disk_pos_IsNull (GetUndoPos pindex) = true ->
  ConnectBlock CheckLowS Verify write_undo n opt b p cp false (new_cache v) = (c', Ok r) ->
  exists expensive branch v1 value fees sprout sapling subsidy undo,
    expensive_checks n p pindex = Ok expensive
    /\ prev_hash n pindex = Ok (view_GetBestBlock v)
    /\ block_valid b cp (expensive && negb (fChecked b)) (negb (nHeight pindex =? 0)) true hash
    /\ turnstile_ok (fZIP209Enabled opt) pindex = Ok tt
    /\ Forall (fun t => unspent v (tx_hash t) = None) (m_vtx b)
    /\ block_connects (ConnectEnv n opt (consensus cp) (nHeight pindex) branch connect_flags expensive) b v v1 (vtxundo undo) value fees sprout sapling
    /\ GetBlockSubsidy (nHeight pindex) (consensus cp) = Ok subsidy
    /\ (value + subsidy < 2 ^ 63 -> total_out (m_vtx b) <= value + subsidy)
    /\ r_undo r = Some undo
    /\ as_view c' ≡ put_block (push_sapling (push_sprout v1 sprout) sapling) (phashBlock pindex).
Proof.
  intros Hv Hp Hh Hg Hck Hroots Hnull Hfile Hpos Hc.
  destruct (ConnectBlock_stands (new_cache v) v n opt b p pindex cp c' r hash)
    as (exp & br & v1 & value & fees & sprout & sapling & undo & F1 & F2 & F3 & F4 & F5 & F6 & _ & F8 & F9); try done.
  { apply new_cache_view. }
  pose proof F6 as [_ _ _ _ (cb & os & out & subsidy & _ & _ & Hsub & _)]. exists exp, br, v1, value, fees, sprout, sapling, subsidy, undo.
  split_and!; try done; [|apply F8|apply F9]. by apply (block_no_inflation _ _ _ _ _ _ _ _ _ _ _ _ _ _ _ F6 F2).
Qed.

(** ** Taking a block back *)

(** The coins and nullifiers of [v], everything else of [r]. *)
Definition mix (v r : view) : view :=
  View (view_GetSproutAnchorAt r) (view_GetSaplingAnchorAt r) (view_GetNullifier v) (view_GetCoins v) (view_GetBestBlock r) (view_GetBestAnchor r).
#[local] Instance mix_proper : Proper ((≡) ==> (≡) ==> (≡)) mix.
Proof. intros v w [] r s []. by split. Qed.
Lemma mix_equiv (v w r : view) : (forall txid, unspent v txid = unspent w txid) -> (forall nf type, view_GetNullifier v nf type = view_GetNullifier w nf type) ->
  mix v r ≡ mix w r.
Proof. intros Hc Hn. by split. Qed.

Lemma norm_coins_at (v : view) txid : norm (coins_at v txid) = unspent v txid.
Proof.
  unfold coins_at. destruct (unspent v txid) as [co|] eqn:E; cbn; [|done]. unfold unspent in E. destruct (view_GetCoins v txid); [|done].
  by apply norm_idem in E.
Qed.
Lemma coins_at_put (v : view) txid co : coins_at (put_coins v txid co) txid ≡ co.
Proof. change (norm (coins_at (put_coins v txid co) txid) = norm co). by rewrite norm_coins_at, unspent_put, decide_True. Qed.

(** Coins have a height and fewer than [2^32] outputs. *)
Definition coins_fit (co : CCoins) : Prop :=
  0 < c_nHeight co < 2 ^ 31 /\ forall n, is_Some (out_at co n) -> Z.of_nat n < 2 ^ 32 - 1.
Definition view_fits (v : view) : Prop := forall txid co, unspent v txid = Some co -> coins_fit co.

Lemma norm_fits co co' : norm co = Some co' -> coins_fit co -> coins_fit co'.
Proof. intros Hn [G1 G2]. apply norm_out in Hn as (Ho & _ & _ & _ & Hh & _). split; [by rewrite Hh|]. intros n. rewrite Ho. apply G2. Qed.
Lemma put_coins_fits v txid co : view_fits v -> (IsPruned co = false -> coins_fit co) -> view_fits (put_coins v txid co).
Proof.
  intros Hv Hc x co'. rewrite unspent_put. destruct (decide (x = txid)) as [->|]; [|apply Hv]. intros Hn. pose proof (norm_out _ _ Hn) as (_ & Hp & _).
  exact (norm_fits co co' Hn (Hc Hp)).
Qed.
Lemma coins_at_fits v txid : view_fits v -> IsPruned (coins_at v txid) = false -> coins_fit (coins_at v txid).
Proof. intros Hv. unfold coins_at. destruct (unspent v txid) as [co|] eqn:E; cbn; [|done]. intros _. by apply (Hv txid). Qed.

(** The view after spending inputs. *)
Lemma spent_step v i ins us v' :
  spent v (i :: ins) = Some (us, v') ->
  exists co u us', us = u :: us' /\ spend_coins (op_n (prevout i)) (coins_at v (op_hash (prevout i))) = (co, Some u)
    /\ spent (put_coins v (op_hash (prevout i)) co) ins = Some (us', v')
    /\ is_Some (out_at (coins_at v (op_hash (prevout i))) (Z.to_nat (op_n (prevout i)))).
Proof.
  cbn [spent]. pose proof (spend_coins_spec (op_n (prevout i)) (coins_at v (op_hash (prevout i)))) as Hsp.
  destruct (out_of _ _) as [o|]; [|by rewrite Hsp]. destruct Hsp as (co & u & -> & _).
  destruct (spent _ ins) as [[us' w]|] eqn:Es; [|done]. intros [= <- <-]. by exists co, u, us'.
Qed.

Lemma spent_fits v ins us v' : view_fits v -> spent v ins = Some (us, v') -> view_fits v'.
Proof.
  revert v us. induction ins as [|i ins IH]; intros v us Hv Hs; [by injection Hs as _ <-|].
  apply spent_step in Hs as (co & u & us' & _ & Hsp & Hs & [o Ho]). apply (IH (put_coins v (op_hash (prevout i)) co) us'); [|exact Hs]. apply put_coins_fits; [done|]. intros _.
  pose proof (spend_coins_spec (op_n (prevout i)) (coins_at v (op_hash (prevout i)))) as Hx. rewrite Ho in Hx.
  destruct Hx as (co' & u' & Hx & (_ & Hh & _) & Hout & _). rewrite Hsp in Hx. injection Hx as <- _.
  destruct (coins_at_fits v (op_hash (prevout i)) Hv (out_not_pruned _ _ _ Ho)) as [F1 F2]. split; [by rewrite Hh|].
  intros m. rewrite Hout. destruct (decide _); [by intros []|apply F2].
Qed.
Lemma spent_fresh v ins us v' txid : spent v ins = Some (us, v') -> unspent v txid = None ->
  unspent v' txid = None /\ length us = length ins /\ v' ≡ mix v' v /\ (forall nf type, view_GetNullifier v' nf type = view_GetNullifier v nf type).
Proof.
  revert v us. induction ins as [|i ins IH]; intros v us Hs Hf; [injection Hs as <- <-; by split_and!|].
  apply spent_step in Hs as (co & u & us' & -> & Hsp & Hs & [o Ho]). destruct (IH _ us' Hs) as (F1 & F2 & F3 & F4).
  - rewrite unspent_put, decide_False; [done|]. intros ->. unfold coins_at in Ho. by rewrite Hf in Ho.
  - split_and!; [done|cbn; by rewrite F2|exact F3|exact F4].
Qed.

(** *** Restoring inputs *)

Lemma restore_inputs_app l l' (c : cache) :
  restore_inputs (l ++ l') c = bindM (restore_inputs l) (fun b => bindM (restore_inputs l') (fun b' => retM (b && b'))) c.
Proof.
  revert c. induction l as [|[i u] l IH]; intros c; cbn [app restore_inputs]; unfold bindM, retM.
  - by destruct (restore_inputs l' c) as [c' [b|]].
  - destruct (ApplyTxInUndo u (prevout i) c) as [c1 [b|]]; [|done]. rewrite IH. unfold bindM, retM.
    destruct (restore_inputs l c1) as [c2 [b2|]]; [|done]. destruct (restore_inputs l' c2) as [c3 [b3|]]; [|done]. by rewrite andb_assoc.
Qed.

Lemma restore_clear u n co : coins_clear co -> clear_null (u_txout u) = u_txout u -> coins_clear (fst (restore_coins u n co)).
Proof.
  intros Hc Hu. unfold restore_coins, coins_clear in *.
  assert (Hr : forall l k, Forall (fun o => clear_null o = o) l -> Forall (fun o => clear_null o = o) (vout_resize l k)).
  { intros l k Hl. apply Forall_app. split; [by apply Forall_take|]. by apply Forall_replicate. }
  destruct (negb (u_nHeight u =? 0)); cbn [fst set_vout c_vout]; apply insert_clear; try done; destruct (_ <? _); auto.
Qed.

(** One input: the coins are those before the spend. *)
Lemma ApplyTxInUndo_stands c c1 v i co u r :
  view_fits v -> 0 <= op_n (prevout i) -> spend_coins (op_n (prevout i)) (coins_at v (op_hash (prevout i))) = (co, Some u) ->
  stands c c1 (mix (put_coins v (op_hash (prevout i)) co) r) ->
  exists c', ApplyTxInUndo u (prevout i) c1 = (c', Ok true) /\ stands c c' (mix v r).
Proof.
  intros Hfit Hn Hsp (O & B & V). set (h := op_hash (prevout i)) in *. set (n := op_n (prevout i)) in *.
  pose proof (spend_coins_spec n (coins_at v h)) as Hx. rewrite Hsp in Hx. destruct (out_of _ _) as [o|] eqn:Ho; [|by injection Hx].
  destruct Hx as (co' & u' & [= <- <-] & _ & _ & Hu). destruct (out_length _ _ _ Ho) as [_ Hnull].
  destruct (coins_at_fits v h Hfit (out_not_pruned _ _ _ Ho)) as [F1 F2].
  assert (Hn32 : 0 <= n < 2 ^ 32 - 1) by (specialize (F2 _ (ex_intro _ o Ho)); lia).
  assert (Hco : stored_coins c1 h ≡ co) by (rewrite stored_coins_equiv, V; exact (coins_at_put v h co)).
  assert (Huo : clear_null (u_txout u) = u_txout u) by (rewrite Hu; destruct (IsPruned co); unfold clear_null; cbn; by rewrite Hnull).
  destruct (restore_spent n (coins_at v h) co u (stored_coins c1 h) Hn32 F1 Hsp Hco) as [R1 R2].
  destruct (ModifyCoins c1 h (restore_coins u n)) as [c' b] eqn:E.
  destruct (ModifyCoins_stored c1 h _ c' b O (restore_clear _ _ _ (stored_clear c1 h O) Huo) E) as (O' & B' & V' & ->).
  exists c'. unfold ApplyTxInUndo, readM. fold h n. rewrite E, R1. split; [done|]. split_and!; [done|congruence|].
  rewrite V', R2, V. split; try done. intros x. rewrite unspent_put. change (unspent (mix ?a ?b) ?y) with (unspent a y).
  rewrite unspent_put, norm_coins_at. destruct (decide (x = h)) as [->|]; done.
Qed.

Lemma restore_inputs_stands c c1 v ins us v' r :
  view_fits v -> Forall (fun i => 0 <= op_n (prevout i)) ins -> spent v ins = Some (us, v') -> stands c c1 (mix v' r) ->
  exists c', restore_inputs (rev (combine ins us)) c1 = (c', Ok true) /\ stands c c' (mix v r).
Proof.
  intros Hfit Hn. revert v us Hfit c1. induction Hn as [|i ins Hi _ IH]; intros v us Hfit c1 Hs Hst.
  { injection Hs as <- <-. exists c1. by split. }
  pose proof Hs as Hall. apply spent_step in Hs as (co & u & us' & -> & Hsp & Hs & Ho). cbn [combine rev]. rewrite restore_inputs_app.
  assert (Hfit' : view_fits (put_coins v (op_hash (prevout i)) co)).
  { apply (spent_fits v [i] [u]); [done|]. cbn [spent]. by rewrite Hsp. }
  destruct (IH _ us' Hfit' c1 Hs Hst) as (c2 & E2 & Hs2). destruct (ApplyTxInUndo_stands c c2 v i co u r Hfit Hi Hsp Hs2) as (c3 & E3 & Hs3).
  exists c3. split; [|done]. unfold bindM. rewrite E2. cbn [restore_inputs]. unfold bindM. by rewrite E3.
Qed.

(** *** Removing outputs *)

(** Outputs that are those of the block are recognised. *)
Lemma remove_outputs_clean (t : CTransaction) h d :
  Forall (fun o => 0 <= nValue o) (vout t) -> coins_clear d -> d ≡ FromTx t h -> snd (remove_outputs t h d) = true.
Proof.
  intros Hv Hd He. pose proof (FromTx_clear t h Hv) as Hfc. destruct (FromTx_vout t h) as (ns & Hl & Hst).
  set (F := FromTx t h) in *. pose proof He as He'. apply coins_equiv_out in He' as [Ho Hm]. pose proof (pruned_equal d F Ho) as Hp.
  assert (Hfix : map clear_unspendable (c_vout F) = c_vout F).
  { assert (Hall : Forall (fun o => clear_unspendable o = o) (map clear_unspendable (vout t))).
    { clear. induction (vout t) as [|o l IH]; constructor; [apply clear_unspendable_idem|exact IH]. }
    rewrite Hl in Hall. apply Forall_app in Hall as [Hall _]. clear -Hall. induction Hall as [|o l Hx _ IH]; [done|]. cbn. by rewrite Hx, IH. }
  assert (Hnull : forall l, forallb txout_IsNull l = true -> forallb txout_IsNull (map clear_unspendable l) = true).
  { clear. induction l as [|o l IH]; [done|]. cbn. intros [Hx Hy]%andb_true_iff. rewrite IH by done. unfold clear_unspendable.
    by destruct (IsUnspendable _); [|rewrite Hx]. }
  unfold remove_outputs. fold F. cbn [snd]. unfold coins_equal.
  assert (Hout : IsPruned d = false -> c_vout (ClearUnspendable d) = c_vout F).
  { intros Hnp. assert (Hs : strip (c_vout d) = c_vout F).
    { rewrite <- (clear_list (strip (c_vout d))), <- (clear_list (c_vout F)), <- Hst by (try done; apply (Cleanup_clear d Hd)).
      rewrite Hst. rewrite <- Hst at 1. by apply norm_vout_out. }
    unfold ClearUnspendable. rewrite Cleanup_strip. cbn [c_vout set_vout]. fold clear_unspendable.
    destruct (strip_spec (c_vout d)) as (nd & Hd1 & Hd2 & _). rewrite Hd1, map_app, strip_app_null by (by apply Hnull). by rewrite Hs, Hfix, Hst. }
  assert (Hpr : IsPruned d = true -> IsPruned (ClearUnspendable d) = true).
  { intros Hx. unfold ClearUnspendable. rewrite IsPruned_Cleanup. unfold IsPruned. cbn [c_vout set_vout]. fold clear_unspendable. by apply Hnull. }
  destruct (IsPruned d) eqn:Epd.
  - rewrite <- Hp. specialize (Hpr eq_refl). destruct (c_nVersion F <? 0); unfold IsPruned in *; cbn [c_vout] in *; by rewrite Hpr.
  - destruct (Hm eq_refl) as (M1 & M2 & M3). rewrite <- Hp, andb_false_r. specialize (Hout eq_refl).
    destruct (c_nVersion F <? 0); cbn [fCoinBase c_nHeight c_nVersion c_vout]; rewrite Hout; unfold ClearUnspendable; cbn [fCoinBase c_nHeight c_nVersion Cleanup set_vout];
      rewrite ?M1, ?M2, ?M3, eqb_reflx, !Z.eqb_refl, bool_decide_eq_true_2 by done; done.
Qed.

(** *** A transaction *)

(** What a transaction of a valid block has. *)
Record tx_fits (t : CTransaction) : Prop := {
  tf_values : Forall (fun o => 0 <= nValue o) (vout t);
  tf_outputs : Z.of_nat (length (vout t)) < 2 ^ 32;
  tf_inputs : Forall (fun i => 0 <= op_n (prevout i)) (vin t)
}.

Lemma after_tx_inv height v (t : CTransaction) undo v1 : unspent v (tx_hash t) = None -> after_tx height v t = Some (undo, v1) ->
  exists v2, v1 = put_coins (put_nullifiers v2 t true) (tx_hash t) (FromTx t height) /\ unspent v2 (tx_hash t) = None
    /\ v2 ≡ mix v2 v /\ (forall nf type, view_GetNullifier v2 nf type = view_GetNullifier v nf type)
    /\ (if IsCoinBase t then v2 = v else spent v (vin t) = Some (vprevout undo, v2) /\ length (vprevout undo) = length (vin t)).
Proof.
  intros Hf Ha. unfold after_tx in Ha. destruct (IsCoinBase t).
  - cbn in Ha. injection Ha as <- <-. exists v. by split_and!.
  - destruct (spent v (vin t)) as [[us v2]|] eqn:Es; [|done]. cbn in Ha. injection Ha as <- <-. exists v2.
    destruct (spent_fresh _ _ _ _ _ Es Hf) as (? & ? & ? & ?). by split_and!.
Qed.

Lemma disconnect_tx_stands c c1 v (t : CTransaction) height undo v1 r :
  view_fits v -> tx_fits t -> unspent v (tx_hash t) = None -> unspent_nullifiers v t ->
  after_tx height v t = Some (undo, v1) -> stands c c1 (mix v1 r) ->
  exists c', disconnect_tx t height (if IsCoinBase t then None else Some undo) c1 = (c', Ok (Some true)) /\ stands c c' (mix v r).
Proof.
  intros Hfit [Hval _ Hins] Hf Hnf Ha (O & B & V). destruct (after_tx_inv _ _ _ _ _ Hf Ha) as (v2 & -> & Hf2 & Hm2 & Hn2 & Hsp).
  assert (Hst : stored_coins c1 (tx_hash t) ≡ FromTx t height).
  { rewrite stored_coins_equiv, V. exact (coins_at_put (put_nullifiers v2 t true) (tx_hash t) (FromTx t height)). }
  pose proof (remove_outputs_clean t height _ Hval (stored_clear c1 (tx_hash t) O) Hst) as Hclean.
  unfold disconnect_tx, bindM, readM, writeM. destruct (ModifyCoins c1 (tx_hash t) (remove_outputs t height)) as [c2 b] eqn:E.
  destruct (ModifyCoins_stored c1 (tx_hash t) (remove_outputs t height) c2 b O (Forall_nil_2 _) E) as (O2 & B2 & V2 & ->). rewrite Hclean.
  destruct (SetNullifiers_spec c2 t false O2) as (O3 & B3 & V3).
  assert (Hs3 : stands c (SetNullifiers c2 t false) (mix v2 r)).
  { split_and!; [done|congruence|]. rewrite V3, V2, V. split; try done.
    - intros x. change (unspent (put_nullifiers ?w t false) x) with (unspent w x). rewrite unspent_put.
      change (unspent (mix ?a ?b) ?y) with (unspent a y). rewrite unspent_put. destruct (decide (x = tx_hash t)) as [->|]; [by rewrite Hf2|done].
    - intros nf type. cbn. destruct (decide _) as [Hin|Hin]; [|done]. rewrite Hn2. symmetry. by apply Hnf. }
  destruct (IsCoinBase t).
  - subst v2. by eexists.
  - destruct Hsp as [Hsp Hlen]. rewrite bool_decide_eq_true_2 by done.
    destruct (restore_inputs_stands c _ v (vin t) _ v2 r Hfit Hins Hsp Hs3) as (c' & E' & Hs'). exists c'. rewrite E'. by split.
Qed.

(** *** All transactions *)

Lemma after_tx_keeps height v t undo v1 :
  view_fits v -> tx_fits t -> 0 < height < 2 ^ 31 -> unspent v (tx_hash t) = None -> after_tx height v t = Some (undo, v1) ->
  view_fits v1 /\ v1 ≡ mix v1 v /\ forall x, x <> tx_hash t -> unspent v x = None -> unspent v1 x = None.
Proof.
  intros Hfit [_ Hlen _] Hh Hf Ha. destruct (after_tx_inv _ _ _ _ _ Hf Ha) as (v2 & -> & _ & Hm & _ & Hsp). split_and!.
  - assert (Hfit2 : view_fits (put_nullifiers v2 t true)).
    { intros x co Hx. change (unspent v2 x = Some co) in Hx. revert x co Hx. change (view_fits v2).
      destruct (IsCoinBase t); [by subst|]. destruct Hsp as [Hsp _]. exact (spent_fits v (vin t) (vprevout undo) v2 Hfit Hsp). }
    apply put_coins_fits; [done|]. intros _. split; [done|]. intros m [o Ho]. apply out_length in Ho as [Ho _].
    destruct (FromTx_vout t height) as (ns & Hl & _). apply (f_equal length) in Hl. rewrite length_map, length_app in Hl. lia.
  - destruct Hm as [_ Ms Ml _ Mb Ma]. by split.
  - intros x Hx Hxf. rewrite unspent_put, decide_False by done. change (unspent v2 x = None).
    destruct (IsCoinBase t); [by subst|]. destruct Hsp as [Hsp _]. exact (proj1 (spent_fresh v (vin t) _ v2 x Hsp Hxf)).
Qed.

Lemma disconnect_txs_app height l l' (c c' : cache) b :
  disconnect_txs height l c = (c', Ok (Some b)) ->
  disconnect_txs height (l ++ l') c = bindM (disconnect_txs height l') (fun r => retM (match r with Some b' => Some (b && b') | None => None end)) c'.
Proof.
  revert c b. induction l as [|[t u] l IH]; intros c b Hd; cbn [app disconnect_txs] in *; unfold bindM, retM in *.
  - injection Hd as <- <-. destruct (disconnect_txs height l' c) as [c'' [[b'|]|]]; done.
  - destruct (disconnect_tx t height u c) as [c1 [[b1|]|]]; [|done..].
    destruct (disconnect_txs height l c1) as [c2 [[b2|]|]] eqn:E; [|done..]. injection Hd as <- <-. rewrite (IH _ _ E).
    destruct (disconnect_txs height l' c2) as [c3 [[b3|]|]]; try done. by rewrite andb_assoc.
Qed.

(** The transactions of a list connect to [v]: enough is known of them to take
    them back. *)
Definition list_fits (v : view) (l : list CTransaction) : Prop :=
  Forall tx_fits l /\ Forall (fun t => unspent v (tx_hash t) = None) l /\ NoDup (map tx_hash l).
Lemma list_fits_step v t l height undo v1 :
  view_fits v -> list_fits v (t :: l) -> 0 < height < 2 ^ 31 -> after_tx height v t = Some (undo, v1) ->
  view_fits v1 /\ v1 ≡ mix v1 v /\ list_fits v1 l /\ tx_fits t /\ unspent v (tx_hash t) = None.
Proof.
  intros Hfit ([Ht Hl]%Forall_cons & [Hf Hfl]%Forall_cons & Hnd) Hh Ha. cbn [map] in Hnd. apply NoDup_cons in Hnd as [Hin Hnd].
  destruct (after_tx_keeps height v t undo v1) as (K1 & K2 & K3); try done. unfold list_fits. split_and!; try done.
  apply Forall_forall. intros x Hx. apply K3; [|by apply (proj1 (Forall_forall _ _) Hfl)]. intros Heq. apply Hin. rewrite <- Heq.
  change (map tx_hash l) with (tx_hash <$> l). by apply list_elem_of_fmap_2.
Qed.

Lemma disconnect_txs_stands e v l us value fees v' c c1 r :
  connects e false v l us value fees v' -> 0 < ce_height e < 2 ^ 31 -> view_fits v -> list_fits v l ->
  Forall (fun t : CTransaction => IsCoinBase t = false) l -> stands c c1 (mix v' r) ->
  (exists c', disconnect_txs (ce_height e) (rev (combine l (map Some us))) c1 = (c', Ok (Some true)) /\ stands c c' (mix v r))
  /\ length us = length l /\ v' ≡ mix v' v.
Proof.
  intros Hc Hh. remember false as first eqn:Hfirst. revert c1 r Hfirst.
  induction Hc as [|first v t l undo us v1 value fees v' Hcb|first v t l os fee undo us v1 value fees v' Hcb Hsp _ Ha _ IH]; intros c1 r -> Hfit Hl Hnc Hs.
  - split; [|done]. by exists c1.
  - apply Forall_cons in Hnc as [Hnc _]. congruence.
  - apply Forall_cons in Hnc as [_ Hnc]. destruct (list_fits_step v t l _ undo v1 Hfit Hl Hh Ha) as (K1 & K2 & K3 & K4 & K5).
    destruct (IH c1 r eq_refl K1 K3 Hnc Hs) as ((c2 & E2 & Hs2) & Hlen & Hmix).
    destruct (disconnect_tx_stands c c2 v t (ce_height e) undo v1 r Hfit K4 K5 (sp_nullifiers _ _ _ _ _ Hsp) Ha Hs2) as (c3 & E3 & Hs3).
    rewrite Hcb in E3. split; [|split; [cbn; by rewrite Hlen|]].
    + exists c3. split; [|done]. cbn [map combine rev]. rewrite (disconnect_txs_app _ _ _ _ _ _ E2). cbn [disconnect_txs]. unfold bindM, retM. by rewrite E3.
    + destruct Hmix as [_ A1 A2 _ A3 A4], K2 as [_ B1 B2 _ B3 B4].
      split; try done; intros; [rewrite A1; apply B1|rewrite A2; apply B2|rewrite A3; apply B3|rewrite A4; apply B4].
Qed.

(** *** Anchors *)

Lemma pop_push_sprout (v : view) t :
  view_GetBestAnchor v SPROUT = tree_root t \/ view_GetSproutAnchorAt v (tree_root t) = None ->
  pop_anchor (push_sprout v t) (view_GetBestAnchor v SPROUT) SPROUT ≡ v.
Proof.
  intros Hf. unfold push_sprout, pop_anchor. cbv zeta. destruct (bool_decide_reflect (view_GetBestAnchor v SPROUT = tree_root t)) as [Hd|Hd]; [rewrite bool_decide_eq_true_2 by done; reflexivity|]. cbn [put_sprout view_GetBestAnchor].
  rewrite bool_decide_eq_false_2 by congruence. destruct Hf as [?|Hf]; [done|]. split; try done.
  - intros rt. cbn. unfold put_anchor. destruct (decide (rt = tree_root t)) as [->|]; [by rewrite Hf|done].
  - by intros [].
Qed.
Lemma pop_push_sapling (v : view) t :
  view_GetBestAnchor v SAPLING = tree_root t \/ view_GetSaplingAnchorAt v (tree_root t) = None ->
  pop_anchor (push_sapling v t) (view_GetBestAnchor v SAPLING) SAPLING ≡ v.
Proof.
  intros Hf. unfold push_sapling, pop_anchor. cbv zeta. destruct (bool_decide_reflect (view_GetBestAnchor v SAPLING = tree_root t)) as [Hd|Hd]; [rewrite bool_decide_eq_true_2 by done; reflexivity|]. cbn [put_sapling view_GetBestAnchor].
  rewrite bool_decide_eq_false_2 by congruence. destruct Hf as [?|Hf]; [done|]. split; try done.
  - intros rt. cbn. unfold put_anchor. destruct (decide (rt = tree_root t)) as [->|]; [by rewrite Hf|done].
  - by intros [].
Qed.
Lemma pop_sprout_push_sapling (v : view) t rt : pop_anchor (push_sapling v t) rt SPROUT ≡ push_sapling (pop_anchor v rt SPROUT) t.
Proof.
  assert (Ha : view_GetBestAnchor (push_sapling v t) SPROUT = view_GetBestAnchor v SPROUT) by (unfold push_sapling; by case_bool_decide).
  unfold pop_anchor at 1. cbv zeta. rewrite Ha. destruct (bool_decide_reflect (view_GetBestAnchor v SPROUT = rt)) as [E|E].
  - assert (pop_anchor v rt SPROUT = v) as -> by (unfold pop_anchor; by rewrite bool_decide_eq_true_2). reflexivity.
  - assert (pop_anchor v rt SPROUT = put_sprout v (view_GetBestAnchor v SPROUT) None rt) as -> by (unfold pop_anchor; by rewrite bool_decide_eq_false_2).
    unfold push_sapling. cbn [put_sprout view_GetBestAnchor]. case_bool_decide; [reflexivity|]. split; try done; by intros [].
Qed.
Lemma pop_put_block (v : view) h rt type : pop_anchor (put_block v h) rt type ≡ put_block (pop_anchor v rt type) h.
Proof. unfold pop_anchor. cbn [put_block view_GetBestAnchor]. case_bool_decide; [reflexivity|]. destruct type; reflexivity. Qed.
Lemma mix_pushed (v v1 : view) sprout sapling h : v1 ≡ mix v1 v ->
  mix v (put_block (push_sapling (push_sprout v1 sprout) sapling) h) ≡ put_block (push_sapling (push_sprout v sprout) sapling) h.
Proof.
  intros [_ A1 A2 _ A3 A4]. cbn in A1, A2, A3, A4.
  assert (Hb : view_GetBestAnchor (push_sprout v1 sprout) SAPLING = view_GetBestAnchor (push_sprout v sprout) SAPLING).
  { unfold push_sprout. rewrite A4. case_bool_decide; [apply A4|]. cbn. apply A4. }
  unfold push_sapling. rewrite Hb. unfold push_sprout. rewrite A4. repeat case_bool_decide; split; try done; cbn;
    try (by apply put_anchor_ext); intros []; cbn; rewrite ?A4; done.
Qed.
Lemma pushed_can_pop_sprout (v : view) sprout sapling h :
  can_pop (put_block (push_sapling (push_sprout v sprout) sapling) h) (view_GetBestAnchor v SPROUT) SPROUT.
Proof.
  assert (Ha : forall w : view, view_GetBestAnchor (put_block (push_sapling w sapling) h) SPROUT = view_GetBestAnchor w SPROUT
    /\ view_GetSproutAnchorAt (put_block (push_sapling w sapling) h) = view_GetSproutAnchorAt w) by (intros w; unfold push_sapling; by case_bool_decide).
  unfold can_pop. destruct (Ha (push_sprout v sprout)) as [-> ->]. unfold push_sprout. case_bool_decide; [by left|]. right. cbn. unfold put_anchor.
  rewrite decide_True by done. by eexists.
Qed.
Lemma pushed_can_pop_sapling (v : view) sapling h : can_pop (put_block (push_sapling v sapling) h) (view_GetBestAnchor v SAPLING) SAPLING.
Proof.
  unfold can_pop, push_sapling. case_bool_decide; [by left|]. right. cbn. unfold put_anchor. rewrite decide_True by done. by eexists.
Qed.
Lemma pop_anchor_stands c c1 v rt type : stands c c1 v -> rt <> null256 -> can_pop v rt type ->
  exists c', pop_anchor_M rt type c1 = (c', Ok tt) /\ stands c c' (pop_anchor v rt type).
Proof.
  intros (O & B & V) Hn Hp. rewrite <- V in Hp. destruct (PopAnchor_spec c1 rt type O Hn Hp) as (c' & E & O' & B' & V').
  exists c'. unfold pop_anchor_M. rewrite E. split; [done|]. split_and!; [done|congruence|]. by rewrite V', V.
Qed.

(** The anchors and the best block after popping are those before. *)
Lemma popped v v1 sprout sapling h prev :
  v1 ≡ mix v1 v -> view_GetBestBlock v = prev ->
  view_GetBestAnchor v SPROUT = tree_root sprout \/ view_GetSproutAnchorAt v (tree_root sprout) = None ->
  view_GetBestAnchor v SAPLING = tree_root sapling \/ view_GetSaplingAnchorAt v (tree_root sapling) = None ->
  let w := mix v (put_block (push_sapling (push_sprout v1 sprout) sapling) h) in
  can_pop w (view_GetBestAnchor v SPROUT) SPROUT
  /\ can_pop (pop_anchor w (view_GetBestAnchor v SPROUT) SPROUT) (view_GetBestAnchor v SAPLING) SAPLING
  /\ put_block (pop_anchor (pop_anchor w (view_GetBestAnchor v SPROUT) SPROUT) (view_GetBestAnchor v SAPLING) SAPLING) prev ≡ v.
Proof.
  intros Hm <- H1' H2'. cbn zeta. rewrite (mix_pushed v v1 sprout sapling h Hm). split; [apply pushed_can_pop_sprout|].
  rewrite pop_put_block, pop_sprout_push_sapling, (pop_push_sprout v sprout H1'). split; [apply pushed_can_pop_sapling|].
  rewrite pop_put_block, (pop_push_sapling v sapling H2'). by split.
Qed.

Lemma tx_valid_fits (t : CTransaction) :
  tx_valid t -> Z.of_nat (length (vout t)) < 2 ^ 32 -> Forall (fun i => uint 32 (op_n (prevout i))) (vin t) -> tx_fits t.
Proof.
  intros Hv Hl Hi. split; [by apply tx_valid_values|done|].
  eapply Forall_impl; [exact Hi|]. intros i [? _]. done.
Qed.
Lemma coinbase_nullifiers (v : view) (t : CTransaction) : tx_valid t -> IsCoinBase t = true -> unspent_nullifiers v t.
Proof.
  intros Hv Hc. pose proof (tv_coinbase _ Hv) as Hx. rewrite Hc in Hx. destruct Hx as (Hj & Hs & _).
  intros nf []; cbn; rewrite ?Hj, ?Hs; by intros ?%elem_of_nil.
Qed.

(** The transactions of a valid block are taken back. *)
Lemma block_disconnects e (b : CBlockInMemory) cp verifier pow merkle hash v us value fees v1 c c1 r :
  connects e true v (m_vtx b) us value fees v1 -> block_valid b cp verifier pow merkle hash ->
  0 < ce_height e < 2 ^ 31 -> view_fits v -> list_fits v (m_vtx b) -> stands c c1 (mix v1 r) ->
  (exists c', disconnect_txs (ce_height e) (rev (combine (m_vtx b) (None :: map Some us))) c1 = (c', Ok (Some true)) /\ stands c c' (mix v r))
  /\ S (length us) = length (m_vtx b) /\ v1 ≡ mix v1 v.
Proof.
  intros Hc Hvalid Hh Hfit Hl Hs. destruct (bv_coinbase _ _ _ _ _ _ Hvalid) as (cb & os & Hv & Hcb & Hos).
  pose proof (bv_transactions _ _ _ _ _ _ Hvalid) as Htx. rewrite Hv in *. apply Forall_cons in Htx as [[Htx _] _].
  inversion Hc as [|? ? ? ? undo us' v2 ? ? ? _ Ha Hrest|]; subst; [|congruence].
  destruct (list_fits_step v cb os _ undo v2 Hfit Hl Hh Ha) as (K1 & K2 & K3 & K4 & K5).
  destruct (disconnect_txs_stands e v2 os us value fees v1 c c1 r Hrest Hh K1 K3 Hos Hs) as ((c2 & E2 & Hs2) & Hlen & Hmix).
  destruct (disconnect_tx_stands c c2 v cb (ce_height e) undo v2 r Hfit K4 K5 (coinbase_nullifiers v cb Htx Hcb) Ha Hs2) as (c3 & E3 & Hs3).
  rewrite Hcb in E3. split; [|split; [cbn; by rewrite Hlen|]].
  - exists c3. split; [|done]. cbn [map combine rev]. rewrite (disconnect_txs_app _ _ _ _ _ _ E2). cbn [disconnect_txs]. unfold bindM, retM. by rewrite E3.
  - destruct Hmix as [_ A1 A2 _ A3 A4], K2 as [_ B1 B2 _ B3 B4].
    split; try done; intros; [rewrite A1; apply B1|rewrite A2; apply B2|rewrite A3; apply B3|rewrite A4; apply B4].
Qed.

(** The view and the block when a block is first connected: heights and sizes
    are in range, the new anchors are new, no anchor is the null hash, and the entry of the previous block
    says which Sapling anchor is the best one. *)
Record connectable (n : node) (v : view) (b : CBlockInMemory) (pindex prev : CBlockIndex) (cp : CChainParams) : Prop := {
  co_anchors : view_ok v;
  co_fits : view_fits v;
  co_best : view_GetBestAnchor v SPROUT <> null256 /\ view_GetBestAnchor v SAPLING <> null256;
  co_roots : roots_set v (m_vtx b);
  co_height : 0 < nHeight pindex < 2 ^ 31;
  co_transactions : Forall (fun t : CTransaction => Z.of_nat (length (vout t)) < 2 ^ 32 /\ Forall (fun i => uint 32 (op_n (prevout i))) (vin t)) (m_vtx b);
  co_ids : NoDup (map tx_hash (m_vtx b));
  co_sprout : forall t0 t : SproutMerkleTree, tree_root t0 = view_GetBestAnchor v SPROUT -> append_all t0 (sprout_commitments (m_vtx b)) = Some t ->
    view_GetBestAnchor v SPROUT = tree_root t \/ view_GetSproutAnchorAt v (tree_root t) = None;
  co_sapling : forall t0 t : SaplingMerkleTree, tree_root t0 = view_GetBestAnchor v SAPLING -> append_all t0 (sapling_commitments (m_vtx b)) = Some t ->
    view_GetBestAnchor v SAPLING = tree_root t \/ view_GetSaplingAnchorAt v (tree_root t) = None;
  co_index : phashBlock pindex <> null256 /\ nFile pindex <> -1 /\ disk_pos_IsNull (GetUndoPos pindex) = true;
  co_prev : exists q, pprev pindex = Some q /\ deref (block_index n) q = Ok prev /\ phashBlock prev <> null256;
  co_prev_sapling : exists active, NetworkUpgradeActive (consensus cp) (nHeight prev) UPGRADE_SAPLING = Ok active
    /\ (if active then bi_hashFinalSaplingRoot prev else tree_root (tree_empty (T := SaplingMerkleTree))) = view_GetBestAnchor v SAPLING
}.

Lemma sapling_tree_root (v : view) t0 : view_ok v ->
  tree_root <$> view_GetSaplingAnchorAt v (view_GetBestAnchor v SAPLING) = Some (tree_root t0) -> tree_root t0 = view_GetBestAnchor v SAPLING.
Proof.
  intros Hv. destruct (view_GetSaplingAnchorAt v _) as [t|] eqn:E; [|done]. cbn. intros [= <-]. by apply (ao_sapling _ Hv).
Qed.

(** C2: connecting a block and disconnecting it again restores the view. When
    [ConnectBlock] accepts a block onto a new cache over a view, then
    [DisconnectBlock], on any cache that stands for the resulting view and with
    the undo data that was written, returns [DISCONNECT_OK], and the view after
    it has the same unspent outputs, nullifiers, anchors, best anchors and best
    block as the view before the block. The block and the view are [connectable],
    and a block that is marked as checked was accepted by [CheckBlock]. *)
Theorem connect_disconnect v n opt (b : CBlockInMemory) p pindex prev cp c' r hash :
  deref (block_index n) p = Ok pindex -> header_GetHash b = Ok hash -> hash <> hashGenesisBlock (consensus cp) -> mark_earned b cp hash ->
  connectable n v b pindex prev cp ->
  ConnectBlock CheckLowS Verify write_undo n opt b p cp false (new_cache v) = (c', Ok r) ->
  forall d, cache_ok d -> as_view d ≡ as_view c' ->
  exists d', DisconnectBlock n b (r_index r) cp (r_undo r) d = (d', Ok DISCONNECT_OK) /\ cache_ok d' /\ as_view d' ≡ v.
Proof.
  intros Hp Hh Hg Hck [Hva Hvf [N1 N2] Hroots Hht Htxs Hids Hsp Hsl (Hnull & Hfile & Hpos) (q & Hq & Hqd & Hqn) (active & Hact & Hroot)] Hc d Hd Hdv.
  destruct (ConnectBlock_stands (new_cache v) v n opt b p pindex cp c' r hash)
    as (exp & br & v1 & value & fees & sprout & sapling & undo & F1 & F2 & F3 & F4 & F5 & F6 & F7 & (U1 & U2 & U3 & U4 & U5) & (_ & _ & F9)); try done.
  { apply new_cache_view. }
  assert (Hbest : view_GetBestBlock v = phashBlock prev).
  { unfold prev_hash in F4. rewrite Hq, Hqd in F4. cbn in F4. by injection F4 as <-. }
  assert (Hl : list_fits v (m_vtx b)).
  { split_and!; try done. pose proof (bv_transactions _ _ _ _ _ _ F2) as Hx. apply Forall_forall. intros t Ht.
    destruct (proj1 (Forall_forall _ _) Htxs t Ht). apply tx_valid_fits; try done. by apply (proj1 (Forall_forall _ _) Hx). }
  destruct F6 as [(t0 & _ & Ht0 & Ht) (s0 & Hs0 & Hs) _ Hcon _]. pose proof (sapling_tree_root v s0 Hva Hs0) as Hs0r.
  set (w := put_block (push_sapling (push_sprout v1 sprout) sapling) (phashBlock pindex)) in *.
  assert (Hst : stands d d w) by (split_and!; try done; by rewrite Hdv).
  unfold DisconnectBlock. unfold bindM at 1. unfold readM at 1. destruct (GetBestBlock d) as [d0 best] eqn:E0.
  destruct (GetBestBlock_stands d d w d0 best Hst E0) as [Hst0 ->]. cbn [w put_block view_GetBestBlock]. rewrite U3, bool_decide_eq_true_2 by done.
  rewrite U2, U4, Hq. unfold bindM at 1, pureM at 1. rewrite Hqd. cbn [of_chain_error]. rewrite U1.
  assert (Hst1 : stands d d0 (mix v1 w)).
  { destruct Hst0 as (O & B & V). split_and!; try done. rewrite V. unfold w, push_sapling, push_sprout. repeat case_bool_decide; by split. }
  destruct (block_disconnects _ b cp _ _ _ hash v _ value fees v1 d d0 w Hcon F2 Hht Hvf Hl Hst1) as ((d1 & E1 & Hst2) & Hlen & Hmix).
  rewrite bool_decide_eq_true_2 by done. cbn [negb]. cbn [ce_height] in E1. rewrite U5. unfold bindM at 1. rewrite E1, F7.
  destruct (popped v v1 sprout sapling (phashBlock pindex) (phashBlock prev) Hmix Hbest (Hsp t0 sprout Ht0 Ht) (Hsl s0 sapling Hs0r Hs)) as (P1 & P2 & P3).
  fold w in P1, P2, P3. destruct (pop_anchor_stands d d1 _ _ SPROUT Hst2 N1 P1) as (d2 & E2 & Hst3).
  unfold bindM at 1. rewrite E2. unfold bindM at 1, pureM at 1. rewrite Hact. cbn [of_param]. rewrite Hroot.
  destruct (pop_anchor_stands d d2 _ _ SAPLING Hst3 N2 P2) as (d3 & E3 & (O3 & B3 & V3)).
  unfold bindM at 1. rewrite E3. destruct (SetBestBlock_spec d3 (phashBlock prev) O3 Hqn) as (O4 & B4 & V4).
  eexists. split; [reflexivity|]. split; [done|]. by rewrite V4, V3, P3.
Qed.
End runs.

(** ** Rejections that may come from corrupt data *)

(** A rejection that blames the block itself, not the data it came in. *)
Definition blames_block (e : reject) : Prop := match e with DoS _ _ _ true => False | _ => True end.
Definition blames {A} (r : result reject A) : Prop := match r with Ok _ => True | Err e => blames_block e end.
Definition blamesM {S A} (m : S -> S * result reject A) : Prop := forall c, blames (snd (m c)).

Lemma blames_bind {A B} (r : result reject A) (k : A -> result reject B) : blames r -> (forall a, blames (k a)) -> blames (bindR r k).
Proof. destruct r; cbn; auto. Qed.
Lemma blamesM_bind {S A B} (m : S -> S * result reject A) (k : A -> S -> S * result reject B) :
  blamesM m -> (forall a, blamesM (k a)) -> blamesM (bindM m k).
Proof. intros Hm Hk c. unfold bindM. specialize (Hm c). destruct (m c) as [c1 [a|e]]; [apply Hk|done]. Qed.
Lemma blamesM_ret {S A} (a : A) : blamesM (S := S) (retM a).
Proof. done. Qed.
Lemma blamesM_fail {S A} e : blames_block e -> blamesM (S := S) (A := A) (failM e).
Proof. by intros He c. Qed.
Lemma blamesM_pure {S A} (r : result reject A) : blames r -> blamesM (S := S) (pureM r).
Proof. by intros Hr c. Qed.
Lemma blamesM_read {S A} (m : S -> S * A) : blamesM (readM m).
Proof. intros c. unfold readM. by destruct (m c). Qed.
Lemma blamesM_coins {S A} (m : S -> S * result coins_error A) : blamesM (coinsM m).
Proof. intros c. unfold coinsM. by destruct (m c) as [c' [a|e]]. Qed.
Lemma blamesM_write {S} (f : S -> S) : blamesM (writeM f).
Proof. done. Qed.
Lemma blames_of_script {A} (r : result script_exn A) : blames (of_script r). Proof. by destruct r. Qed.
Lemma blames_of_writer {A} (r : result ser_error A) : blames (of_writer r). Proof. by destruct r. Qed.
Lemma blames_of_param {A} (r : result param_error A) : blames (of_param r). Proof. by destruct r. Qed.
Lemma blames_of_chain {A} (r : result chain_error A) : blames (of_chain_error r). Proof. by destruct r. Qed.
Lemma blames_of_value {A} (r : result unit A) : blames (of_value r). Proof. by destruct r. Qed.
Lemma blames_of_sighash {A} (r : result sighash_exn A) : blames (of_sighash r). Proof. by destruct r. Qed.
Lemma blames_of_tree {A} (r : option A) : blames (of_tree r). Proof. by destruct r. Qed.
Create HintDb blame.
#[export] Hint Resolve blamesM_ret blamesM_read blamesM_coins blamesM_write blames_of_script blames_of_writer blames_of_param blames_of_chain
  blames_of_value blames_of_sighash blames_of_tree : blame.

(** Goes through a computation. *)
Ltac blame :=
  repeat first
    [ solve [auto with blame] | progress intros
    | match goal with |- blames (Ok _) => exact I | |- blames (Err _) => exact I end
    | apply blames_bind | apply blamesM_bind | apply blamesM_pure | apply blamesM_fail; exact I
    | progress cbv beta zeta
    | match goal with
      | |- blames (match ?x with _ => _ end) => destruct x
      | |- blamesM (match ?x with _ => _ end) => destruct x
      end ].

Section rejections.
Context {SproutMerkleTree SaplingMerkleTree : Type} `{MerkleTree SproutMerkleTree} `{MerkleTree SaplingMerkleTree}.
Context `{Blake2b} `{ShieldedVerifier} `{EhHash}.
Abbreviation cache := (CCoinsViewCache (SproutMerkleTree := SproutMerkleTree) (SaplingMerkleTree := SaplingMerkleTree)).
Context (CheckLowS : bytes -> bool) (Verify : bytes -> bytes -> bytes -> bool) (write_undo : CBlockUndo -> result string Z).
Abbreviation blamesC := (blamesM (S := cache)).

Lemma blames_run_check k : blames (run_check CheckLowS Verify k).
Proof. unfold run_check. blame. Qed.
#[local] Hint Resolve blames_run_check : blame.
Lemma blames_wait ks : blames (wait_checks CheckLowS Verify ks).
Proof. induction ks; cbn [wait_checks]; blame. Qed.
Lemma blames_spend ins : blamesC (spend_inputs ins).
Proof. induction ins; cbn [spend_inputs]; blame. Qed.
Lemma blames_p2sh n ins : blamesC (p2sh_sigops n ins).
Proof. revert n. induction ins; intros; cbn [p2sh_sigops]; blame. Qed.
Lemma blames_inputs b t h v ins : blamesC (check_inputs b t h v ins).
Proof. revert v. induction ins; intros; cbn [check_inputs]; blame. Qed.
Lemma blames_scripts queue flags branch data t i ins : blamesC (check_scripts CheckLowS Verify queue flags branch data t i ins).
Proof. revert i. induction ins; intros; cbn [check_scripts]; unfold check_input; blame. Qed.
Lemma blames_bip30 vtx : blamesC (check_bip30 vtx).
Proof. induction vtx; cbn [check_bip30]; blame. Qed.
#[local] Hint Resolve blames_wait blames_spend blames_p2sh blames_inputs blames_scripts blames_bip30 : blame.
Lemma blames_connect_tx e first t s : blamesC (connect_tx CheckLowS Verify e first t s).
Proof.
  unfold connect_tx, check_tx, UpdateCoins, check_sigops, GetP2SHSigOpCount, ContextualCheckInputs, GetSpendHeight, CheckTxInputs. blame.
Qed.
#[local] Hint Resolve blames_connect_tx : blame.
Lemma blames_connect_txs e first vtx s : blamesC (connect_txs CheckLowS Verify e first vtx s).
Proof. revert first s. induction vtx; intros; cbn [connect_txs]; blame. Qed.
#[local] Hint Resolve blames_connect_txs : blame.
Lemma blames_connect_transactions e b : blamesC (connect_transactions CheckLowS Verify e b).
Proof. unfold connect_transactions. blame. Qed.
Lemma blames_record n params pindex undo : blames (record_validity write_undo n params pindex undo).
Proof. unfold record_validity. blame. Qed.
#[local] Hint Resolve blames_connect_transactions blames_record : blame.

(** The transactions are those that the header commits to, and they do not have
    too many signature operations. *)
Definition intact (b : CBlockInMemory) : Prop :=
  BlockMerkleRoot (m_vtx b) = Some (hb_hashMerkleRoot b, false) /\ forall n, block_sigops 0 (m_vtx b) = Ok n -> n <= MAX_BLOCK_SIGOPS.

Lemma blames_outputs v outs : blames (check_outputs v outs).
Proof. revert v. induction outs; intros; cbn [check_outputs]; blame. Qed.
Lemma blames_joinsplits v l : blames (check_joinsplits v l).
Proof. revert v. induction l; intros; cbn [check_joinsplits]; blame. Qed.
Lemma blames_joinsplits_in v l : blames (check_joinsplits_in v l).
Proof. revert v. induction l; intros; cbn [check_joinsplits_in]; blame. Qed.
Lemma blames_distinct {A} `{EqDecision A} e (seen l : list A) : blames_block e -> blames (check_distinct e seen l).
Proof. intros He. revert seen. induction l; intros; cbn [check_distinct]; blame. Qed.
#[local] Hint Resolve blames_outputs blames_joinsplits blames_joinsplits_in : blame.
Lemma blames_transaction verifier t : blames (CheckTransaction verifier t).
Proof.
  unfold CheckTransaction, CheckTransactionWithoutProofVerification, check_tx_version, check_tx_sizes, GetSerializeSize, check_value_balance, check_values_in, check_coinbase.
  blame; by apply blames_distinct.
Qed.
#[local] Hint Resolve blames_transaction : blame.
Lemma blames_transactions verifier vtx : blames (check_transactions verifier vtx).
Proof. induction vtx as [|t vtx IH]; cbn [check_transactions]; blame. Qed.
Lemma blames_sigops n vtx : blames (block_sigops n vtx).
Proof. revert n. induction vtx; intros; cbn [block_sigops]; blame. Qed.
Lemma CheckBlock_blames b cp verifier pow merkle : intact b -> blames (CheckBlock b cp verifier pow merkle).
Proof.
  intros [Hm Hs]. unfold CheckBlock. destruct (fChecked b); [done|]. apply blames_bind; [unfold CheckBlockHeader; blame|intros _].
  apply blames_bind; [destruct merkle; [|done]; unfold check_merkle_root; rewrite Hm, bool_decide_eq_true_2; done|intros _].
  apply blames_bind; [unfold check_block_sizes, block_size; blame|intros _]. apply blames_bind; [apply blames_transactions|intros _].
  pose proof (blames_sigops 0 (m_vtx b)). destruct (block_sigops 0 (m_vtx b)) as [n|]; [|done]. cbn [bindR]. destruct (Z.ltb_spec MAX_BLOCK_SIGOPS n); [|done].
  specialize (Hs n eq_refl). lia.
Qed.

(** An intact block is never rejected as possibly corrupt. *)
Lemma ConnectBlock_blames n opt b p cp just : intact b -> blamesC (ConnectBlock CheckLowS Verify write_undo n opt b p cp just).
Proof.
  intros Hb. pose proof (CheckBlock_blames b cp) as Hc. unfold ConnectBlock, expensive_checks, prev_hash, turnstile_ok. blame.
Qed.
End rejections.

(** ** A block that connects *)

#[local] Existing Instance Coins.toy_tree.
#[local] Existing Instance Validation.toy_blake.
#[local] Existing Instance toy_verifier.
#[local] Existing Instance toy_hash.

(** The main network with the easiest proof of work. *)
Definition easy_params : CChainParams :=
  let m := CMainParams [] [] [] in
  let c := consensus m in
  ChainParams
    (ConsensusParams (hashGenesisBlock c) true (nSubsidyHalvingInterval c) 750 950 4000 (vUpgrades c) (nFundingPeriodLength c) [] 144 5
       (replicate 32 0xff) None 13 34 34 150 (nMinimumChainWork c) 328500 1400000)
    (eh_epoch_1 m) (eh_epoch_2 m) 160010 160000 [] [].

Definition toy_entry (hash : bytes) (prev : option ptr) (height : Z) : CBlockIndex :=
  BlockIndex hash prev None height 0 0 0 zero256 1 1 BLOCK_HAVE_DATA None null256 null256 None None 0 None 4 null256 null256 0 0 null256 [] 0.
Definition toy_node : node :=
  Node (<[1%positive := toy_entry (replicate 32 8) None 9]> {[ 2%positive := toy_entry (replicate 32 9) (Some 1%positive) 10 ]})
    {[ replicate 32 8 := 1%positive ]} 0 false [].
(** One output of the value 1000 that anybody can spend. *)
Definition toy_view : CCoinsView (SproutMerkleTree := nat) (SaplingMerkleTree := nat) :=
  View (fun rt => if decide (rt = tree_root 0%nat) then Some 0%nat else None) (fun rt => if decide (rt = tree_root 0%nat) then Some 0%nat else None)
    (fun _ _ => false) (fun txid => if decide (txid = replicate 32 7) then Some (Coins false [TxOut 1000 [0x51]] 5 1) else None)
    (replicate 32 8) (fun _ => tree_root 0%nat).
(** A transaction that spends it with a fee of 100, and a coinbase that claims
    the subsidy and the fee. *)
Definition toy_tx (i : CTxIn) (v : Z) (id : bytes) : CTransaction :=
  Transaction (MutableTransaction false 1 0 [i] [TxOut v [0x51]] 0 0 0 [] [] [] null256 (replicate 64 0) (replicate 64 0)) id.
Definition toy_connected : CBlockInMemory :=
  BlockInMemory
    (BlockHeader 4 (replicate 32 8) (Hash2 (replicate 32 1) (replicate 32 2)) null256 0 0x2100ffff null256
       [0; 0; 64; 64; 48; 32; 20; 12; 7; 4; 2; 65; 64; 176; 96; 52; 28; 15; 8; 4; 66; 65; 48; 160; 84; 44; 23; 12; 6; 67; 65; 176; 224; 116; 60; 31])
    [toy_tx (TxIn (OutPoint null256 0xFFFFFFFF) [0; 0] 0xFFFFFFFF) (12500 * COIN + 100) (replicate 32 1);
     toy_tx (TxIn (OutPoint (replicate 32 7) 0) [] 0xFFFFFFFF) 900 (replicate 32 2)] false.
Abbreviation toy_connect c :=
  (ConnectBlock (fun _ => true) (fun _ _ _ => true) (fun _ => Ok 0) toy_node (Options true true 0) toy_connected 2%positive easy_params false c).

Lemma toy_run : match snd (toy_connect (new_cache toy_view)) with Ok _ => True | Err _ => False end.
Proof. vm_compute. exact I. Qed.
Lemma toy_hash_header : exists hash, header_GetHash toy_connected = Ok hash /\ hash <> [].
Proof. eexists. split; [vm_compute; reflexivity|discriminate]. Qed.
Lemma toy_root t : tree_root (T := nat) t <> null256.
Proof. intros Hx. apply (f_equal (fun l => nth 0 l 0)) in Hx. cbn in Hx. lia. Qed.
Lemma toy_roots_set l : roots_set toy_view l.
Proof. split; intros; apply toy_root. Qed.
Lemma toy_view_ok : view_ok toy_view.
Proof.
  split; cbn; intros x y; destruct (decide _) as [->|]; try done; intros [= <-]; [done|done|]. by apply Forall_singleton.
Qed.

Lemma toy_connectable : connectable toy_node toy_view toy_connected (toy_entry (replicate 32 9) (Some 1%positive) 10) (toy_entry (replicate 32 8) None 9) easy_params.
Proof.
  split.
  - exact toy_view_ok.
  - intros txid co. unfold unspent. cbn. destruct (decide _) as [->|]; [|done]. intros [= <-]. split; [cbn; lia|].
    intros [|[|n]] [o Ho]; cbn; lia || done.
  - split; apply toy_root.
  - exact (toy_roots_set _).
  - cbn; lia.
  - repeat constructor; cbn; lia.
  - change (NoDup [replicate 32 1; replicate 32 2]). repeat constructor; rewrite ?list_elem_of_singleton; [done|by intros ?%elem_of_nil].
  - intros t0 t Ht [= <-]. by left.
  - intros t0 t Ht [= <-]. by left.
  - done.
  - by exists 1%positive.
  - exists false. split; [by vm_compute|done].
Qed.

Abbreviation toy_index := (toy_entry (replicate 32 9) (Some 1%positive) 10).
Lemma toy_index_ok : phashBlock toy_index <> null256 /\ nFile toy_index <> -1 /\ disk_pos_IsNull (GetUndoPos toy_index) = true.
Proof. by split_and!. Qed.

Lemma connect_block_sound_witness :
  exists c' r value subsidy, toy_connect (new_cache toy_view) = (c', Ok r)
    /\ GetBlockSubsidy 10 (consensus easy_params) = Ok subsidy /\ (value + subsidy < 2 ^ 63 -> total_out (m_vtx toy_connected) <= value + subsidy).
Proof.
  pose proof toy_run as Hr. destruct (toy_connect (new_cache toy_view)) as [c' [r|]] eqn:E; [|destruct Hr].
  destruct toy_hash_header as (hash & Hh & Hn). destruct toy_index_ok as (I1 & I2 & I3).
  destruct (connect_block_sound (fun _ => true) (fun _ _ _ => true) (fun _ => Ok 0) toy_view toy_node (Options true true 0)
              toy_connected 2%positive toy_index easy_params c' r hash toy_view_ok eq_refl Hh Hn (mark_unset toy_connected _ _ eq_refl) (toy_roots_set _)
              I1 I2 I3 E)
    as (exp & br & v1 & value & fees & sprout & sapling & subsidy & undo & _ & _ & _ & _ & _ & _ & Hs & Hv & _).
  exists c', r, value, subsidy. exact (conj eq_refl (conj Hs Hv)).
Defined.

Lemma connect_disconnect_witness :
  exists c' r d', toy_connect (new_cache toy_view) = (c', Ok r)
    /\ DisconnectBlock toy_node toy_connected (r_index r) easy_params (r_undo r) c' = (d', Ok DISCONNECT_OK) /\ as_view d' ≡ toy_view.
Proof.
  pose proof toy_run as Hr. destruct (toy_connect (new_cache toy_view)) as [c' [r|]] eqn:E; [|destruct Hr].
  destruct toy_hash_header as (hash & Hh & Hn). destruct toy_index_ok as (I1 & I2 & I3).
  destruct (ConnectBlock_stands (fun _ => true) (fun _ _ _ => true) (fun _ => Ok 0) (new_cache toy_view) toy_view toy_node
              (Options true true 0) toy_connected 2%positive toy_index easy_params c' r hash (new_cache_ok _ toy_view_ok) (new_cache_view _)
              (fun _ Hx => Hx) eq_refl Hh Hn (mark_unset toy_connected _ _ eq_refl) (toy_roots_set _) I1 I2 I3 E)
    as (exp & br & v1 & value & fees & sprout & sapling & undo & _ & _ & _ & _ & _ & _ & _ & _ & (Hok & _ & _)).
  destruct (connect_disconnect (fun _ => true) (fun _ _ _ => true) (fun _ => Ok 0) toy_view toy_node (Options true true 0)
              toy_connected 2%positive toy_index (toy_entry (replicate 32 8) None 9) easy_params c' r hash eq_refl Hh Hn
              (mark_unset toy_connected _ _ eq_refl) toy_connectable E c' Hok (reflexivity _)) as (d' & Hd & _ & Hv).
  exists c', r, d'. exact (conj eq_refl (conj Hd Hv)).
Defined.

(** ** Proofs of a block that was received *)

Lemma bindM_same {S A B} (m : S -> S * result reject A) (k k' : A -> S -> S * result reject B) c :
  (forall a c, k a c = k' a c) -> bindM m k c = bindM m k' c.
Proof. intros Hk. unfold bindM. destruct (m c) as [c1 [a|e]]; [apply Hk|done]. Qed.

(** C8: the JoinSplit proofs of a block that arrives from a peer are not
    verified. [ProcessNewBlock] runs [CheckBlock] with the verifier disabled,
    which marks the block as checked; [CheckBlock] in [ConnectBlock] then
    returns at once, so that the outcome of connecting the block is the same for
    every verifier of proofs, one that accepts everything included. The same
    block without the mark, as it is read from disk, is refused when a proof does
    not verify and it is not under a checkpoint. *)
Theorem received_proofs_not_verified {SproutMerkleTree SaplingMerkleTree : Type} `{MerkleTree SproutMerkleTree} `{MerkleTree SaplingMerkleTree}
  `{Blake2b} `{EhHash} (strict lax : ShieldedVerifier) CheckLowS Verify write_undo (b b' : CBlockInMemory) cp hash :
  fChecked b = false -> header_GetHash b = Ok hash -> CheckBlock (H0 := strict) b cp false true true = Ok b' ->
  m_header b' = m_header b /\ m_vtx b' = m_vtx b
  /\ (forall n opt p just c, ConnectBlock (H2 := strict) CheckLowS Verify write_undo n opt b' p cp just c
                          = ConnectBlock (H2 := lax) CheckLowS Verify write_undo n opt b' p cp just c)
  /\ (forall n opt p pindex c (t : CTransaction) j, deref (block_index n) p = Ok pindex -> expensive_checks n p pindex = Ok true ->
        t ∈ m_vtx b -> j ∈ vJoinSplit t -> VerifySprout (H0 := strict) true j (joinSplitPubKey t) = false ->
        exists e, snd (ConnectBlock (H2 := strict) CheckLowS Verify write_undo n opt b p cp false c) = Err e).
Proof.
  intros Hf Hh Hc. apply (CheckBlock_spec b cp false true true hash Hh Hf) in Hc as [_ ->]. split_and!; [done|done|..].
  - intros n opt p just c. unfold ConnectBlock. apply bindM_same. intros pindex c1. by apply bindM_same.
  - intros n opt p pindex c t j Hp He Ht Hj Hv. destruct (snd _) as [r|e] eqn:E; [|by exists e]. exfalso.
    destruct (ConnectBlock _ _ _ _ _ _ _ _ _ c) as [c' x] eqn:Hc. cbn [snd] in E. subst x. unfold ConnectBlock in Hc.
    stepM Hc c1 pi E1. rewrite Hp in E1. cbn in E1. injection E1 as <-. stepM Hc c2 exp E2. rewrite He in E2. injection E2 as <-.
    stepM Hc c3 b' E3. apply (CheckBlock_spec b cp true _ true hash Hh Hf) in E3 as [Hb _].
    destruct (proj1 (Forall_forall _ _) (bv_transactions _ _ _ _ _ _ Hb) t Ht) as [_ Hjs].
    by rewrite (proj1 (Forall_forall _ _) Hjs j Hj) in Hv.
Qed.

(** A verifier that refuses every JoinSplit proof, and a block whose second
    transaction has one. *)
Definition refusing_verifier : ShieldedVerifier := {|
  librustzcash_sprout_verify _ _ _ _ _ _ _ _ := false; crypto_sign_verify_detached sig h _ := bool_decide (sig = h);
  sapling_ctx := nat; sapling_ctx_init := 0%nat; sapling_check_spend n _ _ := Some (S n); sapling_check_output n _ := Some (S n);
  sapling_final_check n _ _ _ := true |}.
Definition toy_js : JSDescription :=
  JS 0 0 (tree_root 0%nat) [replicate 32 3; replicate 32 4] [replicate 32 5; replicate 32 6] null256 null256 [null256; null256]
    (Groth (replicate 192 0)) [replicate 601 0; replicate 601 0].
Definition toy_js_block (checked : bool) : CBlockInMemory :=
  BlockInMemory (m_header toy_connected)
    [toy_tx (TxIn (OutPoint null256 0xFFFFFFFF) [0; 0] 0xFFFFFFFF) (12500 * COIN + 100) (replicate 32 1);
     Transaction (MutableTransaction true 4 SAPLING_VERSION_GROUP_ID [TxIn (OutPoint (replicate 32 7) 0) [] 0xFFFFFFFF] [TxOut 900 [0x51]] 0 0 0 [] []
                    [toy_js] null256 (replicate 64 0) (replicate 64 0)) (replicate 32 2)] checked.
Lemma toy_js_checked : CheckBlock (H0 := refusing_verifier) (toy_js_block false) easy_params false true true = Ok (toy_js_block true).
Proof. vm_compute. reflexivity. Qed.
Abbreviation connect_js b :=
  (snd (ConnectBlock (H2 := refusing_verifier) (fun _ => true) (fun _ _ _ => true) (fun _ => Ok 0) toy_node (Options true true 0) b 2%positive easy_params
          false (new_cache toy_view))).
Lemma toy_js_connects : match connect_js (toy_js_block true) with Ok _ => True | Err _ => False end.
Proof. vm_compute. exact I. Qed.

(** The marked block connects although its proof is refused, and the unmarked
    block does not. *)
Lemma received_proofs_not_verified_witness :
  match connect_js (toy_js_block true) with Ok _ => True | Err _ => False end
  /\ (forall c, ConnectBlock (H2 := refusing_verifier) (fun _ => true) (fun _ _ _ => true) (fun _ => Ok 0) toy_node (Options true true 0)
                 (toy_js_block true) 2%positive easy_params false c
              = ConnectBlock (fun _ => true) (fun _ _ _ => true) (fun _ => Ok 0) toy_node (Options true true 0)
                 (toy_js_block true) 2%positive easy_params false c)
  /\ exists e, connect_js (toy_js_block false) = Err e.
Proof.
  split; [exact toy_js_connects|]. destruct toy_hash_header as (hash & Hh & _).
  destruct (received_proofs_not_verified refusing_verifier toy_verifier (fun _ => true) (fun _ _ _ => true) (fun _ => Ok 0) (toy_js_block false)
              (toy_js_block true) easy_params hash eq_refl Hh toy_js_checked) as (_ & _ & Hsame & Hno).
  split; [intros c; apply Hsame|]. apply (Hno _ _ 2%positive toy_index _ (nth 1 (m_vtx (toy_js_block false)) (toy_tx (TxIn (OutPoint null256 0) [] 0) 0 [])) toy_js);
    [reflexivity|reflexivity| |by apply list_elem_of_singleton|reflexivity]. right. left.
Defined.
