(* ===== verification/Select.v ===== *)
(** * Choosing the best chain (src/main.cpp)

    The block index with what the node keeps beside it: the active chain, the
    candidates for its tip, the blocks that wait for the data of an ancestor,
    and the best header and best invalid block. Headers and blocks are added to
    it, blocks are found invalid, and the most-work candidate is chosen.

    [setBlockIndexCandidates] is a [std::set] ordered by a comparator that reads
    the entries: it is the list of its pointers, the worst first. Insertion
    compares, and since the comparator tells different pointers apart, erasing
    removes the pointer itself. [mapBlocksUnlinked] is the list of its pairs.
    The warnings about long forks are left out. *)

From S2P Require Import Prelude ArithUint Serialize Digest Sha Ripemd Hash Amount Transaction Chain Params Equihash Pow.
From S2P Require Import Script Address Interpreter SigHash Merkle Coins Validation Block.
From stdpp Require Import sorting pmap.
Local Open Scope Z_scope.
Local Open Scope code_scope.

(** ** Definitions *)

Record index_state := IndexState {
  entries : store; mapIndex : gmap bytes ptr; chainActive : chain;
  setBlockIndexCandidates : list ptr; mapBlocksUnlinked : list (ptr * ptr);
  pindexBestHeader : option ptr; pindexBestInvalid : option ptr; nBlockSequenceId : Z; setDirtyBlockIndex : gset ptr }.

Definition set_entry (s : index_state) (p : ptr) (b : CBlockIndex) : index_state :=
  IndexState (<[p := b]> (entries s)) (mapIndex s) (chainActive s) (setBlockIndexCandidates s) (mapBlocksUnlinked s)
    (pindexBestHeader s) (pindexBestInvalid s) (nBlockSequenceId s) (setDirtyBlockIndex s).
Definition set_chain (s : index_state) (c : chain) : index_state :=
  IndexState (entries s) (mapIndex s) c (setBlockIndexCandidates s) (mapBlocksUnlinked s)
    (pindexBestHeader s) (pindexBestInvalid s) (nBlockSequenceId s) (setDirtyBlockIndex s).
Definition set_candidates (s : index_state) (l : list ptr) : index_state :=
  IndexState (entries s) (mapIndex s) (chainActive s) l (mapBlocksUnlinked s)
    (pindexBestHeader s) (pindexBestInvalid s) (nBlockSequenceId s) (setDirtyBlockIndex s).
Definition set_unlinked (s : index_state) (l : list (ptr * ptr)) : index_state :=
  IndexState (entries s) (mapIndex s) (chainActive s) (setBlockIndexCandidates s) l
    (pindexBestHeader s) (pindexBestInvalid s) (nBlockSequenceId s) (setDirtyBlockIndex s).
Definition set_best_invalid (s : index_state) (p : option ptr) : index_state :=
  IndexState (entries s) (mapIndex s) (chainActive s) (setBlockIndexCandidates s) (mapBlocksUnlinked s)
    (pindexBestHeader s) p (nBlockSequenceId s) (setDirtyBlockIndex s).
Definition set_sequence (s : index_state) (n : Z) : index_state :=
  IndexState (entries s) (mapIndex s) (chainActive s) (setBlockIndexCandidates s) (mapBlocksUnlinked s)
    (pindexBestHeader s) (pindexBestInvalid s) n (setDirtyBlockIndex s).
Definition set_dirty (s : index_state) (p : ptr) : index_state :=
  IndexState (entries s) (mapIndex s) (chainActive s) (setBlockIndexCandidates s) (mapBlocksUnlinked s)
    (pindexBestHeader s) (pindexBestInvalid s) (nBlockSequenceId s) ({[ p ]} ∪ setDirtyBlockIndex s).

(** *** Fields of an entry *)

Definition entry_failed (b : CBlockIndex) : bool := negb (Z.land (nStatus b) BLOCK_FAILED_MASK =? 0).
Definition entry_data (b : CBlockIndex) : bool := negb (Z.land (nStatus b) BLOCK_HAVE_DATA =? 0).
Definition fail_entry (b : CBlockIndex) (flag : Z) : CBlockIndex := set_status b (Z.lor (nStatus b) flag).

Definition set_header_fields (b : CBlockIndex) (hash : bytes) (work : list Z) : CBlockIndex :=
  BlockIndex hash (pprev b) (pskip b) (nHeight b) (nFile b) (nDataPos b) (nUndoPos b) work (nTx b)
    (nChainTx b) (nStatus b) (nCachedBranchId b) (Chain.hashSproutAnchor b) (hashFinalSproutRoot b) (nSproutValue b)
    (nChainSproutValue b) (nSaplingValue b) (nChainSaplingValue b) (bi_nVersion b) (bi_hashMerkleRoot b)
    (bi_hashFinalSaplingRoot b) (bi_nTime b) (bi_nBits b) (bi_nNonce b) (bi_nSolution b) (nSequenceId b).
(** The data of a block: number of transactions, pool changes, file position. *)
Definition set_data (b : CBlockIndex) (ntx sprout sapling : Z) (pos : CDiskBlockPos) : CBlockIndex :=
  BlockIndex (phashBlock b) (pprev b) (pskip b) (nHeight b) (dp_nFile pos) (dp_nPos pos) 0 (nChainWork b) ntx
    0 (Z.lor (nStatus b) BLOCK_HAVE_DATA) (nCachedBranchId b) (Chain.hashSproutAnchor b) (hashFinalSproutRoot b) (Some sprout)
    None sapling None (bi_nVersion b) (bi_hashMerkleRoot b)
    (bi_hashFinalSaplingRoot b) (bi_nTime b) (bi_nBits b) (bi_nNonce b) (bi_nSolution b) (nSequenceId b).
(** The totals of the chain up to the block, and its sequence number. *)
Definition set_totals (b : CBlockIndex) (chaintx : Z) (sprout sapling : option Z) (sequence : Z) : CBlockIndex :=
  BlockIndex (phashBlock b) (pprev b) (pskip b) (nHeight b) (nFile b) (nDataPos b) (nUndoPos b) (nChainWork b) (nTx b)
    chaintx (nStatus b) (nCachedBranchId b) (Chain.hashSproutAnchor b) (hashFinalSproutRoot b) (nSproutValue b)
    sprout (nSaplingValue b) sapling (bi_nVersion b) (bi_hashMerkleRoot b)
    (bi_hashFinalSaplingRoot b) (bi_nTime b) (bi_nBits b) (bi_nNonce b) (bi_nSolution b) sequence.

(** *** The order of the candidates *)

Definition CBlockIndexWorkComparator (st : store) (pa pb : ptr) : result chain_error bool :=
  let* a := deref st pa in
  let* b := deref st pb in
  Ok (if ArithUint.op_gt (nChainWork a) (nChainWork b) then false
      else if ArithUint.op_lt (nChainWork a) (nChainWork b) then true
      else if nSequenceId a <? nSequenceId b then false
      else if nSequenceId b <? nSequenceId a then true
      else if Pos.ltb pa pb then false
      else Pos.ltb pb pa).

Fixpoint set_insert (st : store) (p : ptr) (l : list ptr) : result chain_error (list ptr) :=
  match l with
  | [] => Ok [p]
  | q :: l =>
      let* before := CBlockIndexWorkComparator st p q in
      if before : bool then Ok (p :: q :: l)
      else
        let* after := CBlockIndexWorkComparator st q p in
        if after : bool then let* l := set_insert st p l in Ok (q :: l) else Ok (q :: l)
  end.
Definition set_erase (p : ptr) (l : list ptr) : list ptr := filter (fun q => q <> p) l.

(** *** Adding a header *)

(** [p] is the address of the new entry. *)
Definition AddToBlockIndex (s : index_state) (p : ptr) (block : CBlockHeader) : result reject (index_state * ptr) :=
  let* hash := of_writer (header_GetHash block) in
  match mapIndex s !! hash with
  | Some q => Ok (s, q)
  | None =>
      let map := <[hash := p]> (mapIndex s) in
      let prev := map !! hb_hashPrevBlock block in
      let* st := of_chain_error (link_entry (entries s) p (set_header_fields (CBlockIndex_new block) hash zero256) prev) in
      let* b := of_chain_error (deref st p) in
      let* proof := of_pow (GetBlockProof b) in
      let* before := match pprev b with
                     | None => Ok (of_u64 0)
                     | Some q => let* bq := of_chain_error (deref st q) in Ok (nChainWork bq)
                     end in
      let* (_, b) := of_chain_error (RaiseValidity (set_header_fields b hash (ArithUint.op_add before proof)) BLOCK_VALID_TREE) in
      let* better := match pindexBestHeader s with
                     | None => Ok true
                     | Some h => let* bh := of_chain_error (deref st h) in Ok (ArithUint.op_lt (nChainWork bh) (nChainWork b))
                     end in
      Ok (IndexState (<[p := b]> st) map (chainActive s) (setBlockIndexCandidates s) (mapBlocksUnlinked s)
            (if better : bool then Some p else pindexBestHeader s) (pindexBestInvalid s) (nBlockSequenceId s)
            ({[ p ]} ∪ setDirtyBlockIndex s), p)
  end.

(** *** Receiving the data of a block *)

(** The changes of the two pools of shielded value. *)
Definition block_values (vtx : list CTransaction) : Z * Z :=
  fold_left (fun '(sprout, sapling) (t : CTransaction) =>
    (fold_left (fun v j => to_i64 (to_i64 (v + vpub_old j) - vpub_new j)) (vJoinSplit t) sprout,
     to_i64 (sapling + to_i64 (- valueBalance t)))) vtx (0, 0).

(** The recorded balance of the Sprout pool at a checkpoint, of the chain
    parameters, and the switches of the turnstile rule. *)
Record pool_checkpoint := PoolCheckpoint {
  ZIP209Enabled : bool; fExperimentalDeveloperSetPoolSizeZero : bool;
  SproutValuePoolCheckpointHeight : Z; SproutValuePoolCheckpointBlockHash : bytes; SproutValuePoolCheckpointBalance : Z }.

Definition FallbackSproutValuePoolBalance (o : pool_checkpoint) (b : CBlockIndex) : result chain_error CBlockIndex :=
  if negb (ZIP209Enabled o) then Ok b
  else if fExperimentalDeveloperSetPoolSizeZero o then Ok b
  else if (nHeight b =? SproutValuePoolCheckpointHeight o) && bool_decide (phashBlock b = SproutValuePoolCheckpointBlockHash o) then
    match nChainSproutValue b with
    | None => Ok (set_totals b (nChainTx b) (Some (SproutValuePoolCheckpointBalance o)) (nChainSaplingValue b) (nSequenceId b))
    | Some v =>
        require v =? SproutValuePoolCheckpointBalance o orelse AssertFailed in
        require bool_decide (is_Some (nSproutValue b)) orelse AssertFailed in Ok b
    end
  else Ok b.

(** The totals of a block whose ancestors all have their data. *)
Definition chain_totals (prev : option CBlockIndex) (b : CBlockIndex) : CBlockIndex :=
  match prev with
  | Some bq =>
      set_totals b (to_u32 (nChainTx bq + nTx b))
        (match nChainSproutValue bq, nSproutValue b with Some x, Some y => Some (to_i64 (x + y)) | _, _ => None end)
        (match nChainSaplingValue bq with Some x => Some (to_i64 (x + nSaplingValue b)) | None => None end) (nSequenceId b)
  | None => set_totals b (nTx b) (nSproutValue b) (Some (nSaplingValue b)) (nSequenceId b)
  end.

Definition deref_prev (st : store) (b : CBlockIndex) : result chain_error (option CBlockIndex) :=
  match pprev b with None => Ok None | Some q => let* bq := deref st q in Ok (Some bq) end.

(** One block of the queue: it is linked, and the blocks that wait for it leave
    [mapBlocksUnlinked]. *)
Definition link_block (o : pool_checkpoint) (s : index_state) (pindex : ptr) : result chain_error (index_state * list ptr) :=
  let* b := deref (entries s) pindex in
  let* prev := deref_prev (entries s) b in
  let* b := FallbackSproutValuePoolBalance o (chain_totals prev b) in
  let b := set_totals b (nChainTx b) (nChainSproutValue b) (nChainSaplingValue b) (nBlockSequenceId s) in
  let s := set_sequence (set_entry s pindex b) (to_u32 (nBlockSequenceId s + 1)) in
  let* worse := match Tip (chainActive s) with
                | None => Ok false
                | Some tip => CBlockIndexWorkComparator (entries s) pindex tip
                end in
  let* candidates := if worse : bool then Ok (setBlockIndexCandidates s)
                     else set_insert (entries s) pindex (setBlockIndexCandidates s) in
  Ok (set_unlinked (set_candidates s candidates) (filter (fun e => fst e <> pindex) (mapBlocksUnlinked s)),
      map snd (filter (fun e => fst e = pindex) (mapBlocksUnlinked s))).

Fixpoint link_queue (fuel : nat) (o : pool_checkpoint) (s : index_state) (queue : list ptr) : result chain_error index_state :=
  match queue with
  | [] => Ok s
  | pindex :: queue =>
      match fuel with
      | O => Err OutOfFuel
      | S fuel => let* (s, waiting) := link_block o s pindex in link_queue fuel o s (queue ++ waiting)
      end
  end.

(** Every block of the queue but the first comes from [mapBlocksUnlinked]. *)
Definition ReceivedBlockTransactions (o : pool_checkpoint) (s : index_state) (vtx : list CTransaction) (p : ptr) (pos : CDiskBlockPos)
  : result chain_error index_state :=
  let* b := deref (entries s) p in
  let '(sprout, sapling) := block_values vtx in
  let* (_, b) := RaiseValidity (set_data b (to_u32 (Z.of_nat (length vtx))) sprout sapling pos) BLOCK_VALID_TRANSACTIONS in
  let s := set_dirty (set_entry s p b) p in
  let* prev := deref_prev (entries s) b in
  if match prev with None => true | Some bq => negb (nChainTx bq =? 0) end then
    link_queue (S (length (mapBlocksUnlinked s))) o s [p]
  else
    match pprev b, prev with
    | Some q, Some bq =>
        let* valid := IsValid bq BLOCK_VALID_TREE in
        Ok (if valid : bool then set_unlinked s (mapBlocksUnlinked s ++ [(q, p)]) else s)
    | _, _ => Ok s
    end.

(** *** Blocks found invalid *)

Definition InvalidChainFound (s : index_state) (pindexNew : ptr) : result chain_error index_state :=
  let* b := deref (entries s) pindexNew in
  let* better := match pindexBestInvalid s with
                 | None => Ok true
                 | Some q => let* bq := deref (entries s) q in Ok (ArithUint.op_gt (nChainWork b) (nChainWork bq))
                 end in
  require bool_decide (is_Some (Tip (chainActive s))) orelse AssertFailed in
  Ok (if better : bool then set_best_invalid s (Some pindexNew) else s).

(** [corruption] is [state.CorruptionPossible()]; rejecting the peer that sent
    the block is left out. *)
Definition InvalidBlockFound (s : index_state) (pindex : ptr) (corruption : bool) : result chain_error index_state :=
  if corruption then Ok s
  else
    let* b := deref (entries s) pindex in
    let s := set_dirty (set_entry s pindex (fail_entry b BLOCK_FAILED_VALID)) pindex in
    InvalidChainFound (set_candidates s (set_erase pindex (setBlockIndexCandidates s))) pindex.

(** [AcceptBlock] for a block that fails its checks. *)
Definition reject_block (s : index_state) (pindex : ptr) : result chain_error index_state :=
  let* b := deref (entries s) pindex in
  Ok (set_dirty (set_entry s pindex (fail_entry b BLOCK_FAILED_VALID)) pindex).

(** *** The most-work chain *)

(** The blocks from [pindexFailed] back to [pindexTest] are no candidates. *)
Fixpoint fail_chain (fuel : nat) (s : index_state) (pindexTest pindexFailed : ptr) (fFailedChain : bool) : result chain_error index_state :=
  if decide (pindexTest = pindexFailed) then Ok s
  else
    match fuel with
    | O => Err OutOfFuel
    | S fuel =>
        let* b := deref (entries s) pindexFailed in
        match pprev b with
        | None => Err DanglingPointer
        | Some q =>
            let s := if fFailedChain then set_entry s pindexFailed (fail_entry b BLOCK_FAILED_CHILD)
                     else set_unlinked s (mapBlocksUnlinked s ++ [(q, pindexFailed)]) in
            fail_chain fuel (set_candidates s (set_erase pindexFailed (setBlockIndexCandidates s))) pindexTest q fFailedChain
        end
    end.

(** The path from the candidate to the active chain: [true] if it is usable. *)
Fixpoint test_path (fuel : nat) (s : index_state) (pindexNew : ptr) (pindexTest : option ptr) : result chain_error (index_state * bool) :=
  match pindexTest with
  | None => Ok (s, true)
  | Some p =>
      let* active := Contains (entries s) (chainActive s) p in
      if active : bool then Ok (s, true)
      else
        match fuel with
        | O => Err OutOfFuel
        | S fuel =>
            let* b := deref (entries s) p in
            require negb (nChainTx b =? 0) || (nHeight b =? 0) orelse AssertFailed in
            if entry_failed b || negb (entry_data b) then
              let* new := deref (entries s) pindexNew in
              let* better := if entry_failed b then
                               match pindexBestInvalid s with
                               | None => Ok true
                               | Some q => let* bq := deref (entries s) q in Ok (ArithUint.op_gt (nChainWork new) (nChainWork bq))
                               end
                             else Ok false in
              let s := if better : bool then set_best_invalid s (Some pindexNew) else s in
              let* s := fail_chain (S (Z.to_nat (nHeight new))) s p pindexNew (entry_failed b) in
              Ok (set_candidates s (set_erase p (setBlockIndexCandidates s)), false)
            else test_path fuel s pindexNew (pprev b)
        end
  end.

Fixpoint most_work (fuel : nat) (s : index_state) : result chain_error (index_state * option ptr) :=
  match last (setBlockIndexCandidates s) with
  | None => Ok (s, None)
  | Some p =>
      match fuel with
      | O => Err OutOfFuel
      | S fuel =>
          let* b := deref (entries s) p in
          let* (s, usable) := test_path (S (Z.to_nat (nHeight b))) s p (Some p) in
          if usable : bool then Ok (s, Some p) else most_work fuel s
      end
  end.
(** Every pass that does not return removes a candidate. *)
Definition FindMostWorkChain (s : index_state) : result chain_error (index_state * option ptr) :=
  most_work (S (length (setBlockIndexCandidates s))) s.

Fixpoint drop_worse (st : store) (tip : ptr) (l : list ptr) : result chain_error (list ptr) :=
  match l with
  | [] => Ok []
  | p :: l' =>
      let* worse := CBlockIndexWorkComparator st p tip in
      if worse : bool then drop_worse st tip l' else Ok (p :: l')
  end.
Definition PruneBlockIndexCandidates (s : index_state) : result chain_error index_state :=
  let* l := match Tip (chainActive s), setBlockIndexCandidates s with
            | _, [] => Ok []
            | None, _ => Err DanglingPointer
            | Some tip, l => drop_worse (entries s) tip l
            end in
  require nonempty l orelse AssertFailed in
  Ok (set_candidates s l).

(** ** The order of the candidates *)

(** Most work last; of equal work the one received first, then the one at the
    lower address. *)
Definition key (p : ptr) (b : CBlockIndex) : Z * Z * Z := (val (nChainWork b), - nSequenceId b, - Z.pos p).
Definition key_lt (x y : Z * Z * Z) : Prop :=
  let '(a, b, c) := x in let '(a', b', c') := y in a < a' \/ (a = a' /\ (b < b' \/ (b = b' /\ c < c'))).
#[export] Instance key_lt_dec x y : Decision (key_lt x y).
Proof. destruct x as [[a b] c], y as [[a' b'] c']. unfold key_lt. apply _. Defined.

Definition worse (st : store) (p q : ptr) : Prop :=
  exists b c, st !! p = Some b /\ st !! q = Some c /\ key_lt (key p b) (key q c).
Definition works_ok (st : store) : Prop := forall p b, st !! p = Some b -> uint_ok (nChainWork b).

Ltac key_solve := unfold worse, key_lt, key in *; naive_solver (lia || congruence).

Lemma key_lt_irrefl x : ~ key_lt x x.
Proof. destruct x as [[a b] c]. cbn. lia. Qed.
Lemma key_lt_trans x y z : key_lt x y -> key_lt y z -> key_lt x z.
Proof. destruct x as [[a b] c], y as [[a' b'] c'], z as [[a2 b2] c2]. cbn. lia. Qed.
Lemma key_lt_total p b q c : p <> q -> key_lt (key p b) (key q c) \/ key_lt (key q c) (key p b).
Proof. unfold key, key_lt. lia. Qed.

Lemma worse_irrefl st p : ~ worse st p p.
Proof. intros (b & c & Hb & Hc & Hk). rewrite Hb in Hc. injection Hc as <-. by apply key_lt_irrefl in Hk. Qed.
Lemma worse_trans st p q r : worse st p q -> worse st q r -> worse st p r.
Proof.
  intros (b & c & Hb & Hc & Hk) (c' & d & Hc' & Hd & Hk'). rewrite Hc in Hc'. injection Hc' as <-.
  exists b, d. split_and!; [done|done|by eapply key_lt_trans].
Qed.
Lemma worse_total st p q b c : st !! p = Some b -> st !! q = Some c -> p = q \/ worse st p q \/ worse st q p.
Proof.
  intros Hb Hc. destruct (decide (p = q)) as [|Hn]; [by left|]. right.
  destruct (key_lt_total p b q c Hn); [left; by exists b, c|right; by exists c, b].
Qed.
#[export] Instance worse_dec st p q : Decision (worse st p q).
Proof.
  destruct (st !! p) as [b|] eqn:Hb; [|right; by intros (b & c & ? & _); congruence].
  destruct (st !! q) as [c|] eqn:Hc; [|right; by intros (b' & c & _ & ? & _); congruence].
  destruct (decide (key_lt (key p b) (key q c))) as [Hk|Hk]; [left; by exists b, c|].
  right. intros (b' & c' & Hb' & Hc' & Hk'). naive_solver.
Defined.

Lemma Comparator_spec st p q b c :
  works_ok st -> st !! p = Some b -> st !! q = Some c -> CBlockIndexWorkComparator st p q = Ok (bool_decide (worse st p q)).
Proof.
  intros Hw Hb Hc. unfold CBlockIndexWorkComparator. rewrite (deref_Some _ _ _ Hb), (deref_Some _ _ _ Hc). cbn [bindR]. f_equal.
  assert (Hk : worse st p q <-> key_lt (key p b) (key q c)).
  { split; [|by intros; exists b, c]. intros (b' & c' & Hb' & Hc' & Hk). naive_solver. }
  rewrite (bool_decide_ext _ _ Hk). rewrite op_gt_spec, op_lt_spec by eauto. unfold key, key_lt. symmetry.
  destruct (Z.ltb_spec (val (nChainWork c)) (val (nChainWork b))); [apply bool_decide_eq_false; lia|].
  destruct (Z.ltb_spec (val (nChainWork b)) (val (nChainWork c))); [apply bool_decide_eq_true; lia|].
  destruct (Z.ltb_spec (nSequenceId b) (nSequenceId c)); [apply bool_decide_eq_false; lia|].
  destruct (Z.ltb_spec (nSequenceId c) (nSequenceId b)); [apply bool_decide_eq_true; lia|].
  destruct (Pos.ltb_spec p q); [apply bool_decide_eq_false; lia|].
  destruct (Pos.ltb_spec q p); [apply bool_decide_eq_true; lia|apply bool_decide_eq_false; lia].
Qed.

Definition in_store (st : store) (p : ptr) : Prop := is_Some (st !! p).
Definition sorted (st : store) (l : list ptr) : Prop := StronglySorted (worse st) l.

Lemma set_insert_spec st p l :
  works_ok st -> in_store st p -> Forall (in_store st) l -> sorted st l ->
  exists l', set_insert st p l = Ok l' /\ sorted st l' /\ forall x, x ∈ l' <-> x = p \/ x ∈ l.
Proof.
  intros Hw [b Hb] Hl Hs. induction Hs as [|q l Hs IH Hq].
  - exists [p]. split_and!; [done|by repeat constructor|]. intros x. rewrite list_elem_of_singleton. set_solver.
  - apply Forall_cons in Hl as [[c Hc] Hl]. cbn [set_insert].
    rewrite (Comparator_spec st p q b c), (Comparator_spec st q p c b) by done. cbn [bindR].
    destruct (bool_decide_reflect (worse st p q)) as [Hpq|Hpq].
    + exists (p :: q :: l). split_and!; [done| |set_solver]. constructor; [by constructor|]. constructor; [done|].
      eapply Forall_impl; [exact Hq|]. intros x Hx. by eapply worse_trans.
    + destruct (bool_decide_reflect (worse st q p)) as [Hqp|Hqp].
      * destruct (IH Hl) as (l' & -> & Hs' & Hin). cbn [bindR]. exists (q :: l'). split_and!; [done| |set_solver].
        constructor; [done|]. apply Forall_forall. intros x [->|Hx]%Hin; [done|]. by apply (proj1 (Forall_forall _ _) Hq).
      * destruct (worse_total st p q b c Hb Hc) as [->|[?|?]]; [|done..]. exists (q :: l).
        split_and!; [done|by constructor|set_solver].
Qed.

Lemma elem_of_set_erase x p l : x ∈ set_erase p l <-> x ∈ l /\ x <> p.
Proof. unfold set_erase. rewrite list_elem_of_filter. tauto. Qed.
Lemma sorted_erase st p l : sorted st l -> sorted st (set_erase p l).
Proof.
  unfold set_erase. induction 1 as [|q l Hs IH Hq]; [constructor|]. rewrite filter_cons. case_decide; [|done].
  constructor; [done|]. apply Forall_forall. intros x [_ Hx]%list_elem_of_filter. by apply (proj1 (Forall_forall _ _) Hq).
Qed.
Lemma length_erase p l : p ∈ l -> (length (set_erase p l) < length l)%nat.
Proof.
  unfold set_erase. induction l as [|q l IH]; [by intros ?%elem_of_nil|]. rewrite filter_cons.
  pose proof (length_filter (fun q => q <> p) l). intros [->|Hp]%elem_of_cons; [case_decide; [done|cbn; lia]|].
  specialize (IH Hp). case_decide; cbn; lia.
Qed.
Lemma last_elem {A} (l : list A) p : last l = Some p -> p ∈ l.
Proof. intros [l' ->]%last_Some. set_solver. Qed.
Lemma sorted_last st l p q : sorted st l -> last l = Some p -> q ∈ l -> q = p \/ worse st q p.
Proof.
  induction 1 as [|x l Hs IH Hx]; [done|]. destruct l as [|y l].
  - cbn. intros [= ->] ->%list_elem_of_singleton. by left.
  - intros Hl [->|Hq]%elem_of_cons; [|by apply IH]. right. apply (proj1 (Forall_forall _ _) Hx).
    by apply last_elem.
Qed.

(** ** Changes of the entries *)

(** The place of an entry in the tree and in the order of work. *)
Definition same_place (b b' : CBlockIndex) : Prop :=
  pprev b = pprev b' /\ pskip b = pskip b' /\ nHeight b = nHeight b' /\ nChainWork b = nChainWork b'
  /\ bi_nBits b = bi_nBits b' /\ phashBlock b = phashBlock b'.
Definition same_tree (st st' : store) : Prop := forall p, option_Forall2 same_place (st !! p) (st' !! p).

Lemma same_place_refl b : same_place b b.
Proof. done. Qed.
Lemma same_place_sym b b' : same_place b b' -> same_place b' b.
Proof. unfold same_place. intuition. Qed.
Lemma same_place_trans a b c : same_place a b -> same_place b c -> same_place a c.
Proof. unfold same_place. intuition congruence. Qed.
#[export] Instance same_tree_equivalence : Equivalence same_tree.
Proof.
  split.
  - intros st p. destruct (st !! p); by constructor.
  - intros st st' Hs p. destruct (Hs p); constructor. by apply same_place_sym.
  - intros st st' st2 H1 H2 p. specialize (H1 p). specialize (H2 p). destruct H1; inversion H2; subst; constructor.
    by eapply same_place_trans.
Qed.

Lemma same_tree_lookup st st' p b : same_tree st st' -> st !! p = Some b -> exists b', st' !! p = Some b' /\ same_place b b'.
Proof. intros Hs Hp. specialize (Hs p). rewrite Hp in Hs. inversion Hs; subst. eauto. Qed.
Lemma same_tree_insert st p b b' : st !! p = Some b -> same_place b b' -> same_tree st (<[p := b']> st).
Proof.
  intros Hp Hs q. destruct (decide (q = p)) as [->|]; [rewrite lookup_insert_eq, Hp; by constructor|].
  rewrite lookup_insert_ne by done. destruct (st !! q); by constructor.
Qed.

Section same_tree.
Context (st st' : store) (Hs : same_tree st st').

Lemma same_tree_walk k p : walk st k p = walk st' k p.
Proof using Hs.
  revert p. induction k as [|k IH]; intros p; [done|]. cbn [walk]. destruct (Hs p) as [b b' (Hp & _)|]; [|done].
  cbn [mbind option_bind]. rewrite <- Hp. destruct (pprev b); [apply IH|done].
Qed.
Lemma same_tree_ok : tree_ok st -> tree_ok st'.
Proof using Hs.
  intros Ht p b' Hp'. destruct (same_tree_lookup st' st p b' ltac:(by symmetry) Hp') as (b & Hp & Hb).
  destruct Hb as (H1 & H2 & H3 & _). destruct (Ht p b Hp) as (F1 & F2 & F3). unfold prev_ok, skip_ok in *. rewrite H1, H2, H3.
  split_and!; [done| |].
  - destruct (pprev b) as [q|]; [|done]. destruct F2 as (bq & Hq & Hh).
    destruct (same_tree_lookup st st' q bq Hs Hq) as (bq' & Hq' & (_ & _ & H3' & _)). exists bq'. split; [done|congruence].
  - by rewrite <- same_tree_walk.
Qed.
Lemma same_tree_branch p h : Chain.branch st p h = Chain.branch st' p h.
Proof using Hs. unfold Chain.branch. apply map_ext. intros. apply same_tree_walk. Qed.
Lemma same_tree_chain c : chain_ok st c -> chain_ok st' c.
Proof using Hs.
  intros [->|(t & bt & Ht & ->)]; [by left|]. right. destruct (same_tree_lookup st st' t bt Hs Ht) as (bt' & Ht' & (_ & _ & Hh & _)).
  exists t, bt'. split; [done|]. by rewrite <- Hh, same_tree_branch.
Qed.
Lemma same_tree_in_chain c p : in_chain st c p <-> in_chain st' c p.
Proof using Hs.
  assert (Hx : forall s s', same_tree s s' -> in_chain s c p -> in_chain s' c p).
  { intros s s' Hss (b & Hb & Hn). destruct (same_tree_lookup s s' p b Hss Hb) as (b' & Hb' & (_ & _ & Hh & _)).
    exists b'. by rewrite <- Hh. }
  split; apply Hx; [done|by symmetry].
Qed.
Lemma same_tree_works : works_ok st -> works_ok st'.
Proof using Hs.
  intros Hw p b' Hp'. destruct (same_tree_lookup st' st p b' ltac:(by symmetry) Hp') as (b & Hp & (_ & _ & _ & Hn & _)).
  rewrite Hn. by apply (Hw p).
Qed.
End same_tree.

(** *** Failure flags *)

(** Only failure flags are added. *)
Definition more_failed (b b' : CBlockIndex) : Prop :=
  exists f, 0 <= f /\ Z.land f BLOCK_FAILED_MASK = f /\ b' = set_status b (Z.lor (nStatus b) f).
Definition failing (st st' : store) : Prop := forall p, option_Forall2 more_failed (st !! p) (st' !! p).

Lemma more_failed_refl b : more_failed b b.
Proof. exists 0. split_and!; [done|done|]. rewrite Z.lor_0_r. by destruct b. Qed.
Lemma more_failed_trans a b c : more_failed a b -> more_failed b c -> more_failed a c.
Proof.
  intros (f & Hf & Ef & ->) (g & Hg & Eg & ->). exists (Z.lor f g). split_and!.
  - apply Z.lor_nonneg. lia.
  - by rewrite Z.land_lor_distr_l, Ef, Eg.
  - destruct a. cbn. by rewrite Z.lor_assoc.
Qed.
Lemma more_failed_fail b flag : flag = BLOCK_FAILED_VALID \/ flag = BLOCK_FAILED_CHILD -> more_failed b (fail_entry b flag).
Proof. intros [-> | ->]; eexists; (split; [|split; [|reflexivity]]; done). Qed.
Lemma more_failed_place b b' : more_failed b b' -> same_place b b'.
Proof. intros (f & _ & _ & ->). done. Qed.
Lemma failing_tree st st' : failing st st' -> same_tree st st'.
Proof. intros Hf p. destruct (Hf p); constructor. by apply more_failed_place. Qed.
#[export] Instance failing_preorder : PreOrder failing.
Proof.
  split.
  - intros st p. destruct (st !! p); constructor. apply more_failed_refl.
  - intros st st' st2 H1 H2 p. specialize (H1 p). specialize (H2 p). destruct H1; inversion H2; subst; constructor.
    by eapply more_failed_trans.
Qed.
Lemma failing_insert st p b b' : st !! p = Some b -> more_failed b b' -> failing st (<[p := b']> st).
Proof.
  intros Hp Hs q. destruct (decide (q = p)) as [->|]; [rewrite lookup_insert_eq, Hp; by constructor|].
  rewrite lookup_insert_ne by done. destruct (st !! q); constructor. apply more_failed_refl.
Qed.

Lemma entry_failed_more b b' : more_failed b b' -> entry_failed b = true -> entry_failed b' = true.
Proof.
  intros (f & Hf & Ef & ->). unfold entry_failed. cbn [set_status nStatus]. rewrite !negb_true_iff, !Z.eqb_neq.
  rewrite Z.land_lor_distr_l, Z.lor_eq_0_iff. tauto.
Qed.
Lemma entry_data_more b b' : more_failed b b' -> entry_data b' = entry_data b.
Proof.
  intros (f & Hf & Ef & ->). unfold entry_data. cbn [set_status nStatus]. rewrite Z.land_lor_distr_l.
  replace (Z.land f BLOCK_HAVE_DATA) with 0; [by rewrite Z.lor_0_r|]. rewrite <- Ef, <- Z.land_assoc.
  change (Z.land BLOCK_FAILED_MASK BLOCK_HAVE_DATA) with 0. by rewrite Z.land_0_r.
Qed.
Lemma fail_entry_failed b flag : flag = BLOCK_FAILED_VALID \/ flag = BLOCK_FAILED_CHILD -> entry_failed (fail_entry b flag) = true.
Proof.
  intros Hf. unfold entry_failed, fail_entry. cbn [set_status nStatus]. rewrite negb_true_iff, Z.eqb_neq, Z.land_lor_distr_l, Z.lor_eq_0_iff.
  by destruct Hf as [-> | ->]; intros [_ ?].
Qed.
Lemma failing_lookup st st' p b : failing st st' -> st !! p = Some b -> exists b', st' !! p = Some b' /\ more_failed b b'.
Proof. intros Hs Hp. specialize (Hs p). rewrite Hp in Hs. inversion Hs; subst. eauto. Qed.
Lemma failing_lookup_inv st st' p b' : failing st st' -> st' !! p = Some b' -> exists b, st !! p = Some b /\ more_failed b b'.
Proof. intros Hs Hp. specialize (Hs p). rewrite Hp in Hs. inversion Hs; subst. eauto. Qed.

Lemma more_failed_key p b b' : more_failed b b' -> key p b = key p b'.
Proof. intros (f & _ & _ & ->). done. Qed.
Lemma failing_worse st st' p q : failing st st' -> worse st p q <-> worse st' p q.
Proof.
  intros Hf. split.
  - intros (b & c & Hb & Hc & Hk). destruct (failing_lookup _ _ _ _ Hf Hb) as (b' & Hb' & Hm).
    destruct (failing_lookup _ _ _ _ Hf Hc) as (c' & Hc' & Hm'). exists b', c'.
    rewrite <- (more_failed_key p b b' Hm), <- (more_failed_key q c c' Hm'). done.
  - intros (b' & c' & Hb' & Hc' & Hk). destruct (failing_lookup_inv _ _ _ _ Hf Hb') as (b & Hb & Hm).
    destruct (failing_lookup_inv _ _ _ _ Hf Hc') as (c & Hc & Hm'). exists b, c.
    rewrite (more_failed_key p b b' Hm), (more_failed_key q c c' Hm'). done.
Qed.
Lemma sorted_ext st st' l : (forall p q, p ∈ l -> q ∈ l -> worse st p q -> worse st' p q) -> sorted st l -> sorted st' l.
Proof.
  intros Hx Hs. induction Hs as [|p l Hs IH Hp]; [constructor|]. constructor; [apply IH; intros; apply Hx; set_solver|].
  apply Forall_forall. intros q Hq. apply Hx; [set_solver..|]. by apply (proj1 (Forall_forall _ _) Hp).
Qed.
Lemma sorted_NoDup st l : sorted st l -> NoDup l.
Proof.
  induction 1 as [|p l Hs IH Hp]; [constructor|]. constructor; [|done]. intros Hin.
  apply (proj1 (Forall_forall _ _) Hp) in Hin. by apply worse_irrefl in Hin.
Qed.

(** ** Finding the most-work chain *)

(** All blocks of the path from [p] to the active chain have their data and are
    not marked as failed. *)
Definition off_chain (st : store) (c : chain) (k : nat) (p : ptr) : Prop :=
  forall j r, (j <= k)%nat -> walk st j p = Some r -> ~ in_chain st c r.
Definition usable (st : store) (c : chain) (p : ptr) : Prop :=
  forall k q b, walk st k p = Some q -> off_chain st c k p -> st !! q = Some b -> entry_failed b = false /\ entry_data b = true.

(** What the search relies on. *)
Record select_ok (s : index_state) : Prop := {
  so_tree : tree_ok (entries s);
  so_works : works_ok (entries s);
  so_chain : chain_ok (entries s) (chainActive s);
  so_sorted : sorted (entries s) (setBlockIndexCandidates s);
  so_candidates : forall p, p ∈ setBlockIndexCandidates s -> exists b, entries s !! p = Some b /\ nChainTx b <> 0;
  so_linked : forall p b q, entries s !! p = Some b -> nChainTx b <> 0 -> pprev b = Some q ->
    exists bq, entries s !! q = Some bq /\ nChainTx bq <> 0;
  so_invalid : forall p, pindexBestInvalid s = Some p -> in_store (entries s) p
}.

(** [s'] is [s] without the candidates [R], some of them marked. *)
Record trimmed (R : ptr -> Prop) (s s' : index_state) : Prop := {
  tr_entries : failing (entries s) (entries s');
  tr_only : forall p, ~ R p -> entries s' !! p = entries s !! p;
  tr_candidates : forall p, p ∈ setBlockIndexCandidates s' <-> p ∈ setBlockIndexCandidates s /\ ~ R p;
  tr_sorted : sorted (entries s) (setBlockIndexCandidates s) -> sorted (entries s) (setBlockIndexCandidates s');
  tr_chain : chainActive s' = chainActive s;
  tr_map : mapIndex s' = mapIndex s;
  tr_header : pindexBestHeader s' = pindexBestHeader s;
  tr_sequence : nBlockSequenceId s' = nBlockSequenceId s
}.

Lemma trimmed_refl s : trimmed (fun _ => False) s s.
Proof. split; try done. intros. tauto. Qed.
Lemma trimmed_trans R R' s s1 s2 : trimmed R s s1 -> trimmed R' s1 s2 -> trimmed (fun p => R p \/ R' p) s s2.
Proof.
  intros [A1 A2 A3 A4 A5 A6 A7 A8] [B1 B2 B3 B4 B5 B6 B7 B8]. split; try congruence.
  - by etrans.
  - intros p Hp. rewrite B2, A2 by tauto. done.
  - intros p. rewrite B3, A3. tauto.
  - intros Hs. apply (sorted_ext (entries s1)); [intros; by apply (failing_worse _ _ _ _ A1)|]. apply B4.
    apply (sorted_ext (entries s)); [intros; by apply (failing_worse _ _ _ _ A1)|]. auto.
Qed.
Lemma trimmed_ext R R' s s' : (forall p, R p <-> R' p) -> trimmed R s s' -> trimmed R' s s'.
Proof.
  intros Hr [A1 A2 A3 A4 A5 A6 A7 A8]. split; try done; intros p.
  - rewrite <- Hr. auto.
  - rewrite <- Hr. auto.
Qed.
Lemma trimmed_erase s p : trimmed (fun x => x = p) s (set_candidates s (set_erase p (setBlockIndexCandidates s))).
Proof.
  split; try done; cbn.
  - intros x. apply elem_of_set_erase.
  - apply sorted_erase.
Qed.
Lemma trimmed_mark s p b : entries s !! p = Some b -> 
  trimmed (fun x => x = p) s (set_candidates (set_entry s p (fail_entry b BLOCK_FAILED_CHILD)) (set_erase p (setBlockIndexCandidates s))).
Proof.
  intros Hp. split; try done; cbn.
  - apply (failing_insert _ _ b); [done|]. apply more_failed_fail. by right.
  - intros q Hq. by apply lookup_insert_ne.
  - intros x. apply elem_of_set_erase.
  - apply sorted_erase.
Qed.
Lemma trimmed_unlinked s p l : trimmed (fun x => x = p) s (set_candidates (set_unlinked s l) (set_erase p (setBlockIndexCandidates s))).
Proof.
  split; try done; cbn.
  - intros x. apply elem_of_set_erase.
  - apply sorted_erase.
Qed.

(** The blocks that are [i], ..., [k - 1] steps back from [p]. *)
Definition path (st : store) (p : ptr) (i k : nat) (x : ptr) : Prop := exists j, (i <= j < k)%nat /\ walk st j p = Some x.

Lemma path_empty st p i x : ~ path st p i i x.
Proof. intros (j & Hj & _). lia. Qed.
Lemma path_cons st p i k x y : (i < k)%nat -> walk st i p = Some y -> path st p i k x <-> x = y \/ path st p (S i) k x.
Proof.
  intros Hi Hy. split.
  - intros (j & Hj & Hx). destruct (decide (j = i)) as [->|]; [left; congruence|]. right. exists j. split; [lia|done].
  - intros [->|(j & Hj & Hx)]; [exists i|exists j]; (split; [lia|done]).
Qed.
Lemma path_snoc st p i k x y : (i <= k)%nat -> walk st k p = Some y -> path st p i (S k) x <-> path st p i k x \/ x = y.
Proof.
  intros Hi Hy. split.
  - intros (j & Hj & Hx). destruct (decide (j = k)) as [->|]; [right; congruence|]. left. exists j. split; [lia|done].
  - intros [(j & Hj & Hx)| ->]; [exists j|exists k]; (split; [lia|done]).
Qed.
Lemma path_tree st st' p i k x : same_tree st st' -> path st p i k x <-> path st' p i k x.
Proof. intros Hs. unfold path. by setoid_rewrite (same_tree_walk st st' Hs). Qed.

Lemma walk_S st k p q b r : walk st k p = Some q -> st !! q = Some b -> pprev b = Some r -> walk st (S k) p = Some r.
Proof.
  intros Hw Hq Hr. replace (S k) with (k + 1)%nat by lia. rewrite walk_add, Hw. cbn [mbind option_bind walk]. rewrite Hq. cbn [mbind option_bind].
  by rewrite Hr.
Qed.
Lemma walk_S_inv st k p r : walk st (S k) p = Some r -> exists q b, walk st k p = Some q /\ st !! q = Some b /\ pprev b = Some r.
Proof.
  replace (S k) with (k + 1)%nat by lia. rewrite walk_add. destruct (walk st k p) as [q|]; [|done]. cbn [mbind option_bind walk].
  destruct (st !! q) as [b|] eqn:Hb; [|done]. cbn [mbind option_bind]. destruct (pprev b) eqn:Hp; [|done]. cbn. intros [= ->]. eauto.
Qed.
(** Different numbers of steps lead to different blocks. *)
Lemma walk_height st k p b q bq : tree_ok st -> st !! p = Some b -> walk st k p = Some q -> st !! q = Some bq -> nHeight bq = nHeight b - k.
Proof.
  intros Ht Hp Hw Hq. pose proof (walk_end st Ht p b k q Hp Hw).
  destruct (walk_ok st Ht k p b Hp) as (q' & bq' & Hw' & Hq' & Hh); [lia|]. congruence.
Qed.

Lemma fail_chain_spec fuel s new k test bt i x (failed : bool) :
  tree_ok (entries s) -> walk (entries s) k new = Some test -> entries s !! test = Some bt -> (i <= k)%nat ->
  walk (entries s) i new = Some x -> (k - i <= fuel)%nat ->
  exists s', fail_chain fuel s test x failed = Ok s'
    /\ trimmed (path (entries s) new i k) s s' /\ pindexBestInvalid s' = pindexBestInvalid s
    /\ (failed = true -> mapBlocksUnlinked s' = mapBlocksUnlinked s
        /\ forall y by', path (entries s) new i k y -> entries s' !! y = Some by' -> entry_failed by' = true).
Proof.
  revert s i x bt. induction fuel as [|fuel IH]; intros s i x bt Ht Hk Htest Hi Hx Hf; cbn [fail_chain].
  - assert (i = k) as -> by lia. rewrite Hk in Hx. injection Hx as <-. rewrite decide_True by done. exists s.
    split_and!; [done| |done|split; [done|]; by intros y by' ?%path_empty].
    eapply trimmed_ext; [|apply trimmed_refl]. intros y. split; [done|]. by intros ?%path_empty.
  - destruct (decide (i = k)) as [->|Hne].
    { rewrite Hk in Hx. injection Hx as <-. rewrite decide_True by done. exists s.
      split_and!; [done| |done|split; [done|]; by intros y by' ?%path_empty].
      eapply trimmed_ext; [|apply trimmed_refl]. intros y. split; [done|]. by intros ?%path_empty. }
    assert (Hw : walk (entries s) (k - i) x = Some test).
    { replace k with (i + (k - i))%nat in Hk by lia. by rewrite walk_add, Hx in Hk. }
    destruct (k - i)%nat as [|d] eqn:Ed; [lia|]. cbn [walk] in Hw. destruct (entries s !! x) as [b|] eqn:Hb; [|done].
    cbn [mbind option_bind] in Hw. destruct (pprev b) as [q|] eqn:Hq; [|done].
    assert (Hnot : test <> x).
    { intros ->. pose proof (walk_height _ (S d) x b x bt Ht Hb) as Hh. rewrite Hb in Htest. injection Htest as <-.
      cbn [walk] in Hh. rewrite Hb in Hh. cbn [mbind option_bind] in Hh. rewrite Hq in Hh. specialize (Hh Hw eq_refl). lia. }
    rewrite decide_False by done. rewrite (deref_Some _ _ _ Hb). cbn [bindR]. rewrite Hq.
    match goal with |- context [fail_chain fuel ?t _ _ _] => set (s1 := t) end.
    assert (T1 : trimmed (fun y => y = x) s s1).
    { unfold s1. destruct failed; [exact (trimmed_mark s x b Hb)|exact (trimmed_unlinked s x _)]. }
    pose proof (failing_tree _ _ (tr_entries _ _ _ T1)) as Hsame.
    destruct (failing_lookup _ _ test bt (tr_entries _ _ _ T1) Htest) as (bt' & Htest' & _).
    destruct (IH s1 (S i) q bt') as (s' & E & T & Hinv & Hfail).
    { by apply (same_tree_ok (entries s)). }
    { by rewrite <- (same_tree_walk _ _ Hsame). }
    { exact Htest'. }
    { lia. }
    { rewrite <- (same_tree_walk _ _ Hsame). by eapply walk_S. }
    { lia. }
    exists s'. split_and!; [done| |rewrite Hinv; unfold s1; by destruct failed|].
    + eapply trimmed_ext; [|by eapply trimmed_trans]. intros y. rewrite (path_cons _ _ i k y x) by (lia || done).
      by rewrite (path_tree _ _ _ _ _ _ Hsame).
    + intros ->. destruct (Hfail eq_refl) as [Hu Hy]. split; [done|]. intros y by' Hp Hby.
      rewrite (path_cons _ _ i k y x) in Hp by (lia || done). destruct Hp as [->|Hp]; [|eapply Hy; [|done]; by rewrite <- (path_tree _ _ _ _ _ _ Hsame)].
      assert (Hx1 : entries s1 !! x = Some (fail_entry b BLOCK_FAILED_CHILD)) by apply lookup_insert_eq.
      destruct (failing_lookup _ _ _ _ (tr_entries _ _ _ T) Hx1) as (b2 & Hb2 & Hm). rewrite Hb2 in Hby. injection Hby as <-.
      apply (entry_failed_more _ _ Hm), fail_entry_failed. by right.
Qed.

(** A block at which the search of a candidate stops. *)
Definition unusable (st : store) (c : chain) (m : nat) (p : ptr) : Prop :=
  exists q b, walk st m p = Some q /\ off_chain st c m p /\ st !! q = Some b /\ (entry_failed b || negb (entry_data b)) = true.

Lemma unusable_not st c m p : unusable st c m p -> ~ usable st c p.
Proof. intros (q & b & Hw & Ho & Hb & Hf) Hu. destruct (Hu _ _ _ Hw Ho Hb) as [Hv Hd]. by rewrite Hv, Hd in Hf. Qed.
Lemma off_chain_suffix st c m p i x : off_chain st c m p -> walk st i p = Some x -> (i <= m)%nat -> off_chain st c (m - i) x.
Proof. intros Ho Hx Hi j r Hj Hr. apply (Ho (i + j)%nat); [lia|]. by rewrite walk_add, Hx. Qed.
Lemma off_chain_app st c i p x m : off_chain st c i p -> walk st i p = Some x -> off_chain st c m x -> off_chain st c (i + m) p.
Proof.
  intros Ho Hx Hm j r Hj Hr. destruct (decide (j <= i)%nat); [by apply (Ho j)|].
  replace j with (i + (j - i))%nat in Hr by lia. rewrite walk_add, Hx in Hr. cbn in Hr. apply (Hm (j - i)%nat); [lia|done].
Qed.
Lemma unusable_suffix st c m p i x : unusable st c m p -> walk st i p = Some x -> (i <= m)%nat -> unusable st c (m - i) x.
Proof.
  intros (q & b & Hw & Ho & Hb & Hf) Hx Hi. exists q, b. split_and!; [|by eapply off_chain_suffix|done|done].
  replace m with (i + (m - i))%nat in Hw by lia. by rewrite walk_add, Hx in Hw.
Qed.
Lemma unusable_prefix st c m p i x : unusable st c m x -> walk st i p = Some x -> off_chain st c i p -> unusable st c (i + m) p.
Proof.
  intros (q & b & Hw & Ho & Hb & Hf) Hx Hi. exists q, b. split_and!; [|by eapply off_chain_app|done|done].
  by rewrite walk_add, Hx.
Qed.
Lemma off_chain_tree st st' c m p : same_tree st st' -> off_chain st c m p <-> off_chain st' c m p.
Proof.
  intros Hs. split; intros Ho j r Hj Hr.
  - rewrite <- (same_tree_in_chain st st' Hs). apply (Ho j); [done|]. by rewrite (same_tree_walk st st' Hs).
  - rewrite (same_tree_in_chain st st' Hs). apply (Ho j); [done|]. by rewrite <- (same_tree_walk st st' Hs).
Qed.

(** Marking the blocks of an unusable path changes nothing for the others. *)
Lemma usable_trimmed s s' new m p :
  trimmed (path (entries s) new 0 (S m)) s s' -> unusable (entries s) (chainActive s) m new ->
  usable (entries s) (chainActive s) p <-> usable (entries s') (chainActive s') p.
Proof.
  intros T Hun. pose proof (tr_entries _ _ _ T) as Hf. pose proof (failing_tree _ _ Hf) as Hs. rewrite (tr_chain _ _ _ T). split; intros Hu k q b Hw Ho Hb.
  - rewrite <- (same_tree_walk _ _ Hs) in Hw. rewrite <- (off_chain_tree _ _ _ _ _ Hs) in Ho.
    destruct (failing_lookup_inv _ _ _ _ Hf Hb) as (b0 & Hb0 & Hm). destruct (Hu k q b0 Hw Ho Hb0) as [Hv Hd].
    rewrite (entry_data_more _ _ Hm). split; [|done]. destruct (entry_failed b) eqn:E; [|done]. exfalso.
    assert (Hp : ~ ~ path (entries s) new 0 (S m) q) by (intros Hn; rewrite (tr_only _ _ _ T q Hn) in Hb; congruence).
    apply Hp. intros (j & Hj & Hx). apply (unusable_not (entries s) (chainActive s) (k + (m - j)) p); [|done].
    eapply unusable_prefix; [|done|done]. eapply unusable_suffix; [done|done|lia].
  - destruct (failing_lookup _ _ _ _ Hf Hb) as (b' & Hb' & Hm). rewrite (same_tree_walk _ _ Hs) in Hw.
    rewrite (off_chain_tree _ _ _ _ _ Hs) in Ho. destruct (Hu k q b' Hw Ho Hb') as [Hv Hd].
    rewrite <- (entry_data_more _ _ Hm). split; [|done]. destruct (entry_failed b) eqn:E; [|done]. by rewrite (entry_failed_more _ _ Hm E) in Hv.
Qed.

Lemma linked_walk s k p b q bq : select_ok s -> entries s !! p = Some b -> nChainTx b <> 0 -> walk (entries s) k p = Some q -> entries s !! q = Some bq ->
  nChainTx bq <> 0.
Proof.
  intros Hok Hp Ht. revert q bq. induction k as [|k IH]; intros q bq Hw Hq; [injection Hw as <-; congruence|].
  destruct (walk_S_inv _ _ _ _ Hw) as (r & br & Hr & Hbr & Hpr).
  destruct (so_linked s Hok r br q Hbr (IH _ _ Hr Hbr) Hpr) as (bq' & Hq' & Hn). congruence.
Qed.

Lemma usable_intro s k p (x : option ptr) : 
  walk (entries s) k p = x -> (forall q, x = Some q -> in_chain (entries s) (chainActive s) q) ->
  (forall j q b, (j < k)%nat -> walk (entries s) j p = Some q -> entries s !! q = Some b -> (entry_failed b || negb (entry_data b)) = false) ->
  usable (entries s) (chainActive s) p.
Proof.
  intros Hx Hin Hall j q b Hw Ho Hb. destruct (decide (j < k)%nat) as [Hj|Hj].
  - specialize (Hall j q b Hj Hw Hb). apply orb_false_iff in Hall as [? Hn]. by apply negb_false_iff in Hn.
  - replace j with (k + (j - k))%nat in Hw by lia. rewrite walk_add, Hx in Hw. destruct x as [y|]; [|done].
    exfalso. apply (Ho k y); [lia|done|by apply Hin].
Qed.

(** What a rejected candidate leaves behind. *)
Record rejected (s s' : index_state) (new : ptr) (m : nat) : Prop := {
  rj_unusable : unusable (entries s) (chainActive s) m new;
  rj_trimmed : trimmed (path (entries s) new 0 (S m)) s s';
  rj_invalid : pindexBestInvalid s' = pindexBestInvalid s \/ pindexBestInvalid s' = Some new;
  rj_failed : forall q b, walk (entries s) m new = Some q -> entries s !! q = Some b -> entry_failed b = true ->
    mapBlocksUnlinked s' = mapBlocksUnlinked s
    /\ forall y by', path (entries s) new 0 (S m) y -> entries s' !! y = Some by' -> entry_failed by' = true
}.

Lemma more_failed_tx b b' : more_failed b b' -> nChainTx b' = nChainTx b.
Proof. intros (f & _ & _ & ->). done. Qed.
Lemma select_ok_trimmed R s s' : select_ok s -> trimmed R s s' -> (forall p, pindexBestInvalid s' = Some p -> in_store (entries s) p) -> select_ok s'.
Proof.
  intros [A1 A2 A3 A4 A5 A6 A7] T Hi. pose proof (tr_entries _ _ _ T) as Hf. pose proof (failing_tree _ _ Hf) as Hs.
  assert (Hlink : forall p b, entries s !! p = Some b -> nChainTx b <> 0 -> exists b', entries s' !! p = Some b' /\ nChainTx b' <> 0).
  { intros p b Hp Hn. destruct (failing_lookup _ _ _ _ Hf Hp) as (b' & Hp' & Hm). exists b'. split; [done|]. by rewrite (more_failed_tx _ _ Hm). }
  split.
  - by apply (same_tree_ok (entries s)).
  - by apply (same_tree_works (entries s)).
  - rewrite (tr_chain _ _ _ T). by apply (same_tree_chain (entries s)).
  - apply (sorted_ext (entries s)); [intros; by apply (failing_worse _ _ _ _ Hf)|]. by apply (tr_sorted _ _ _ T).
  - intros p Hp%(tr_candidates _ _ _ T). destruct (A5 p (proj1 Hp)) as (b & Hb & Hn). eauto.
  - intros p b q Hp Hn Hq. destruct (failing_lookup_inv _ _ _ _ Hf Hp) as (b0 & Hb0 & Hm). rewrite (more_failed_tx _ _ Hm) in Hn.
    destruct (more_failed_place _ _ Hm) as (Hpp & _). destruct (A6 p b0 q Hb0 Hn) as (bq & Hbq & Hnq); [congruence|]. eauto.
  - intros p Hp. destruct (Hi p Hp) as [b Hb]. destruct (failing_lookup _ _ _ _ Hf Hb) as (b' & Hb' & _). by exists b'.
Qed.

Lemma better_spec s (failed : bool) (new : CBlockIndex) : select_ok s ->
  exists better, (if failed then
       match pindexBestInvalid s with
       | None => Ok true
       | Some q => let* bq := deref (entries s) q in Ok (ArithUint.op_gt (nChainWork new) (nChainWork bq))
       end
     else Ok false) = Ok (better : bool) :> result chain_error bool.
Proof.
  intros Hok. destruct failed; [|eauto]. destruct (pindexBestInvalid s) as [q|] eqn:E; [|eauto].
  destruct (so_invalid s Hok q E) as [bq Hq]. rewrite (deref_Some _ _ _ Hq). cbn [bindR]. eauto.
Qed.

Lemma trimmed_best s p : trimmed (fun _ => False) s (set_best_invalid s p).
Proof. split; try done. intros. cbn. tauto. Qed.

Lemma reject_spec s new bn m p b :
  select_ok s -> entries s !! new = Some bn -> walk (entries s) m new = Some p -> off_chain (entries s) (chainActive s) m new ->
  entries s !! p = Some b -> entry_failed b || negb (entry_data b) = true ->
  exists s', (let* new' := deref (entries s) new in
     let* better := if entry_failed b then
                      match pindexBestInvalid s with
                      | None => Ok true
                      | Some q => let* bq := deref (entries s) q in Ok (ArithUint.op_gt (nChainWork new') (nChainWork bq))
                      end
                    else Ok false in
     let s := if better : bool then set_best_invalid s (Some new) else s in
     let* s := fail_chain (S (Z.to_nat (nHeight new'))) s p new (entry_failed b) in
     Ok (set_candidates s (set_erase p (setBlockIndexCandidates s)), false)) = Ok (s', false) /\ rejected s s' new m.
Proof.
  intros Hok Hnew Hw Ho Hp Hb. rewrite (deref_Some _ _ _ Hnew). cbn [bindR]. destruct (better_spec s (entry_failed b) bn Hok) as [better ->].
  cbn [bindR]. set (s0 := if better then set_best_invalid s (Some new) else s).
  assert (T0 : trimmed (fun _ => False) s s0) by (unfold s0; destruct better; [apply trimmed_best|apply trimmed_refl]).
  assert (E0 : entries s0 = entries s) by (unfold s0; by destruct better).
  pose proof (walk_end _ (so_tree s Hok) new bn m p Hnew Hw) as Hend.
  destruct (fail_chain_spec (S (Z.to_nat (nHeight bn))) s0 new m p b 0 new (entry_failed b)) as (s1 & E1 & T1 & Hi1 & Hf1).
  1-6: rewrite ?E0. { apply (so_tree s Hok). } { done. } { done. } { lia. } { done. } { lia. }
  rewrite E1. cbn [bindR]. eexists. split; [reflexivity|]. rewrite E0 in T1, Hf1.
  pose proof (trimmed_trans _ _ _ _ _ (trimmed_trans _ _ _ _ _ T0 T1) (trimmed_erase s1 p)) as T. split.
  - exists p, b. done.
  - eapply trimmed_ext; [|exact T]. intros y. rewrite (path_snoc _ _ 0 m y p) by (lia || done). tauto.
  - cbn. rewrite Hi1. unfold s0. destruct better; cbn; tauto.
  - intros q bq Hq Hbq Hfail. rewrite Hw in Hq. injection Hq as <-. rewrite Hp in Hbq. injection Hbq as <-. destruct (Hf1 Hfail) as [Hu Hy].
    cbn. split; [rewrite Hu; unfold s0; by destruct better|]. intros y by'. rewrite (path_snoc _ _ 0 m y p) by (lia || done). intros [Hpath| ->] Hby; [eauto|].
    destruct (failing_lookup _ _ p b (tr_entries _ _ _ T1)) as (b' & Hb' & Hm); [by rewrite E0|]. rewrite Hb' in Hby. injection Hby as <-.
    by apply (entry_failed_more _ _ Hm).
Qed.

Lemma test_path_spec (fuel : nat) s new bn (k : nat) :
  select_ok s -> entries s !! new = Some bn -> nChainTx bn <> 0 -> Z.of_nat k <= nHeight bn + 1 -> nHeight bn + 1 - k <= fuel ->
  (forall j q b, (j < k)%nat -> walk (entries s) j new = Some q -> entries s !! q = Some b ->
    ~ in_chain (entries s) (chainActive s) q /\ (entry_failed b || negb (entry_data b)) = false) ->
  exists s' u, test_path fuel s new (walk (entries s) k new) = Ok (s', u)
    /\ if u : bool then s' = s /\ usable (entries s) (chainActive s) new else exists m, rejected s s' new m.
Proof.
  intros Hok Hnew Htx. revert k. induction fuel as [|fuel IH]; intros k Hk Hf Hall.
  - assert (Hnone : walk (entries s) k new = None).
    { destruct (walk (entries s) k new) as [q|] eqn:E; [|done]. pose proof (walk_end _ (so_tree s Hok) new bn k q Hnew E). lia. }
    rewrite Hnone. exists s, true. split_and!; [done|done|]. eapply usable_intro; [exact Hnone|done|].
    intros j q b Hj Hw Hb. by apply (Hall j q b).
  - destruct (walk (entries s) k new) as [p|] eqn:Ew; cbn [test_path].
    2: { exists s, true. split_and!; [done|done|]. eapply usable_intro; [exact Ew|done|]. intros j q b Hj Hw Hb. by apply (Hall j q b). }
    pose proof (walk_end _ (so_tree s Hok) new bn k p Hnew Ew) as Hend.
    destruct (walk_ok _ (so_tree s Hok) k new bn Hnew Hend) as (p' & b & Ew' & Hp & Hh). rewrite Ew in Ew'. injection Ew' as <-.
    rewrite (Contains_spec _ (so_tree s Hok) (chainActive s) p b Hp). cbn [bindR].
    destruct (bool_decide_reflect (nth (Z.to_nat (nHeight b)) (chainActive s) None = Some p)) as [Hact|Hact].
    { exists s, true. split_and!; [done|done|]. eapply usable_intro; [exact Ew| |].
      - intros q [= <-]. by exists b.
      - intros j q b' Hj Hw Hb. by apply (Hall j q b'). }
    rewrite (deref_Some _ _ _ Hp). cbn [bindR]. pose proof (linked_walk s k new bn p b Hok Hnew Htx Ew Hp) as Hlink.
    rewrite (proj2 (Z.eqb_neq _ _) Hlink). cbn [negb orb].
    destruct (entry_failed b || negb (entry_data b)) eqn:Eb.
    + destruct (reject_spec s new bn k p b Hok Hnew Ew) as (s' & E & Hr); [|done|done|exists s', false; split; [exact E|by exists k]].
      intros j q Hj Hw. destruct (decide (j = k)) as [->|]; [|].
      * rewrite Ew in Hw. injection Hw as <-. intros (b' & Hb' & Hin). congruence.
      * destruct (walk_ok _ (so_tree s Hok) j new bn Hnew) as (q' & bq & Hq' & Hbq & _); [lia|]. rewrite Hw in Hq'. injection Hq' as <-.
        apply (Hall j q bq); [lia|done|done].
    + assert (Hnext : pprev b = walk (entries s) (S k) new).
      { replace (S k) with (k + 1)%nat by lia. rewrite walk_add, Ew. cbn [mbind option_bind walk]. rewrite Hp. cbn. by destruct (pprev b). }
      rewrite Hnext. apply IH; [lia|lia|]. intros j q bq Hj Hw Hq. destruct (decide (j = k)) as [->|]; [|apply (Hall j); [lia|done|done]].
      rewrite Ew in Hw. injection Hw as <-. rewrite Hp in Hq. injection Hq as <-. split; [|done]. intros (b' & Hb' & Hin). congruence.
Qed.

(** What a search leaves behind: the candidates [R] are gone. *)
Record searched (R : ptr -> Prop) (s s' : index_state) : Prop := {
  sd_ok : select_ok s';
  sd_trimmed : trimmed R s s';
  sd_removed : forall p, R p -> ~ usable (entries s) (chainActive s) p;
  sd_usable : forall p, usable (entries s) (chainActive s) p <-> usable (entries s') (chainActive s') p;
  sd_linked : forall p b, R p -> entries s !! p = Some b -> nChainTx b <> 0;
  sd_failed : (forall p b, entries s !! p = Some b -> nChainTx b <> 0 -> entry_data b = true) ->
    mapBlocksUnlinked s' = mapBlocksUnlinked s /\ (forall p b, R p -> entries s' !! p = Some b -> entry_failed b = true)
}.

Lemma searched_refl s : select_ok s -> searched (fun _ => False) s s.
Proof. intros Hok. split; [done|apply trimmed_refl|done|done|done|]. intros _. split; [done|]. by intros ??[]. Qed.
Lemma searched_trans R R' s s1 s2 : searched R s s1 -> searched R' s1 s2 -> searched (fun p => R p \/ R' p) s s2.
Proof.
  intros [A1 A2 A3 A4 A6 A5] [B1 B2 B3 B4 B6 B5]. split.
  - done.
  - by eapply trimmed_trans.
  - intros p [Hp|Hp]; [by apply A3|]. rewrite A4. by apply B3.
  - intros p. by rewrite A4, B4.
  - intros p b [Hp|Hp] Hb; [by eapply A6|]. destruct (failing_lookup _ _ _ _ (tr_entries _ _ _ A2) Hb) as (b' & Hb' & Hm).
    rewrite <- (more_failed_tx _ _ Hm). by eapply B6.
  - intros Hd. destruct (A5 Hd) as [Hu Hf]. destruct B5 as [Hu' Hf'].
    { intros p b Hp Hn. destruct (failing_lookup_inv _ _ _ _ (tr_entries _ _ _ A2) Hp) as (b0 & Hb0 & Hm).
      rewrite (entry_data_more _ _ Hm). apply (Hd p b0 Hb0). by rewrite <- (more_failed_tx _ _ Hm). }
    split; [congruence|]. intros p b [Hp|Hp] Hb; [|by eapply Hf'].
    destruct (failing_lookup_inv _ _ _ _ (tr_entries _ _ _ B2) Hb) as (b1 & Hb1 & Hm). apply (entry_failed_more _ _ Hm). by eapply Hf.
Qed.
Lemma searched_rejected s s' new bn m :
  select_ok s -> entries s !! new = Some bn -> nChainTx bn <> 0 -> rejected s s' new m -> searched (path (entries s) new 0 (S m)) s s'.
Proof.
  intros Hok Hnew Htx [Hun Ht Hi Hf]. split.
  - eapply select_ok_trimmed; [done|done|]. intros p Hp. destruct Hi as [Hi|Hi]; rewrite Hi in Hp; [by apply (so_invalid s Hok)|].
    injection Hp as <-. by exists bn.
  - done.
  - intros p (j & Hj & Hp). eapply unusable_not, unusable_suffix; [done|done|lia].
  - intros p. by apply (usable_trimmed s s' new m).
  - intros p b (j & Hj & Hp) Hb. by eapply (linked_walk s j new bn p b).
  - intros Hd. destruct Hun as (q & b & Hw & _ & Hb & Hbad). destruct (Hf q b Hw Hb) as [Hu Hy]; [|split; [done|eauto]].
    rewrite (Hd q b Hb (linked_walk s m new bn q b Hok Hnew Htx Hw Hb)), orb_false_r in Hbad. done.
Qed.

Lemma most_work_spec fuel s : select_ok s -> (length (setBlockIndexCandidates s) <= fuel)%nat ->
  exists R s' r, most_work fuel s = Ok (s', r) /\ searched R s s' /\ last (setBlockIndexCandidates s') = r
    /\ forall p, r = Some p -> usable (entries s') (chainActive s') p.
Proof.
  revert s. induction fuel as [|fuel IH]; intros s Hok Hlen; cbn [most_work]; destruct (last (setBlockIndexCandidates s)) as [p|] eqn:El.
  - apply last_elem in El. destruct (setBlockIndexCandidates s); [by apply elem_of_nil in El|cbn in Hlen; lia].
  - eexists _, s, None. split_and!; [done|by apply searched_refl|done|done].
  - destruct (so_candidates s Hok p (last_elem _ _ El)) as (b & Hb & Htx). rewrite (deref_Some _ _ _ Hb). cbn [bindR].
    pose proof (height_nonneg _ (so_tree s Hok) p b Hb) as Hh.
    destruct (test_path_spec (S (Z.to_nat (nHeight b))) s p b 0) as (s1 & u & E & Hu); [done|done|done|lia|lia|intros; lia|].
    cbn [walk] in E. rewrite E. cbn [bindR]. destruct u.
    { destruct Hu as [-> Hu]. eexists _, s, (Some p). split_and!; [done|by apply searched_refl|done|]. by intros q [= <-]. }
    destruct Hu as [m Hm]. pose proof (searched_rejected s s1 p b m Hok Hb Htx Hm) as Hsearch.
    destruct (IH s1) as (R & s' & r & E' & Hs' & Hl & Hr).
    { apply (sd_ok _ _ _ Hsearch). }
    { assert (Hsub : setBlockIndexCandidates s1 ⊆ set_erase p (setBlockIndexCandidates s)).
      { intros x Hx%(tr_candidates _ _ _ (sd_trimmed _ _ _ Hsearch)). apply elem_of_set_erase. split; [tauto|]. intros ->. apply Hx. exists 0%nat.
        split; [lia|done]. }
      pose proof (length_erase p _ (last_elem _ _ El)).
      pose proof (submseteq_length _ _ (NoDup_submseteq _ _ (sorted_NoDup _ _ (so_sorted s1 (sd_ok _ _ _ Hsearch))) Hsub)). lia. }
    rewrite E'. eexists _, s', r. split_and!; [done|by eapply searched_trans|done|done].
  - eexists _, s, None. split_and!; [done|by apply searched_refl|done|done].
Qed.

Lemma FindMostWorkChain_spec s : select_ok s -> exists R s' r, FindMostWorkChain s = Ok (s', r) /\ searched R s s'
    /\ last (setBlockIndexCandidates s') = r /\ forall p, r = Some p -> usable (entries s') (chainActive s') p.
Proof. intros Hok. apply most_work_spec; [done|lia]. Qed.
