(* ===== verification/IndexInv.v ===== *)
(** * The block index as headers and blocks arrive (src/main.cpp)

    The invariant of the block index of [Select]: what the lookup table, the
    totals of an entry, the blocks that wait for an ancestor, the candidates and
    the best header mean. Every operation keeps it, so it holds whatever the
    order in which headers and blocks arrive and are found invalid, as long as
    no block files are deleted. It makes the choice of the tip a choice among
    all blocks, not only among those in the set of candidates. *)

From S2P Require Import Prelude ArithUint Serialize Digest Sha Ripemd Hash Amount Transaction Chain Params Equihash Pow.
From S2P Require Import Script Address Interpreter SigHash Merkle Coins Validation Block Connect Select.
From stdpp Require Import sorting pmap.
Local Open Scope Z_scope.
Local Open Scope code_scope.

(** ** The invariant *)

(** [n] transactions in the chain that ends in [p]. *)
Inductive total (st : store) : ptr -> Z -> Prop :=
| total_root p b : st !! p = Some b -> pprev b = None -> total st p (nTx b)
| total_next p b q n : st !! p = Some b -> pprev b = Some q -> total st q n -> total st p (n + nTx b).

(** All blocks of the chain that ends in [p] have arrived. *)
Definition linked (st : store) (p : ptr) : Prop := exists b, st !! p = Some b /\ nChainTx b <> 0.
Definition marked (st : store) (p : ptr) : Prop := exists b, st !! p = Some b /\ entry_failed b = true.

(** The status flags and the number of transactions of an entry. *)
Record entry_ok (b : CBlockIndex) : Prop := {
  eo_bits : uint 32 (bi_nBits b);
  eo_level : BLOCK_VALID_TREE <= Z.land (nStatus b) BLOCK_VALID_MASK;
  eo_data : entry_data b = true -> 0 < nTx b;
  eo_header : entry_data b = false -> nTx b = 0 /\ nChainTx b = 0;
  eo_failed : entry_failed b = true -> nChainTx b = 0 -> entry_data b = false
}.

(** The work of a chain is that of its parent and the proof of the block. *)
Definition work_ok (st : store) (b : CBlockIndex) : Prop :=
  exists proof, GetBlockProof b = Ok proof
    /\ nChainWork b = ArithUint.op_add (default (of_u64 0) (q ← pprev b; bq ← st !! q; Some (nChainWork bq))) proof.

(** [p] waits for the data of an ancestor of its parent [q], or of [q]. *)
Definition waits (st : store) (q p : ptr) : Prop :=
  exists b, st !! p = Some b /\ pprev b = Some q /\ entry_data b = true /\ nChainTx b = 0 /\ ~ linked st q.
(** [p] is the next to be linked. *)
Definition ready (st : store) (p : ptr) : Prop :=
  exists b, st !! p = Some b /\ entry_data b = true /\ nChainTx b = 0 /\ forall q, pprev b = Some q -> linked st q.

(** The best header has the most work. *)
Definition header_ok (s : index_state) : Prop :=
  match pindexBestHeader s with
  | None => forall p, entries s !! p = None
  | Some h => exists bh, entries s !! h = Some bh
      /\ forall p b, entries s !! p = Some b -> val (nChainWork b) <= val (nChainWork bh)
  end.

(** [best] is the best tip the active chain has had, [queue] the blocks that
    are being linked. *)
Record index_inv (best : option ptr) (queue : list ptr) (s : index_state) : Prop := {
  ii_select : select_ok s;
  ii_map : forall h p, mapIndex s !! h = Some p <-> exists b, entries s !! p = Some b /\ phashBlock b = h;
  ii_entry : forall p b, entries s !! p = Some b -> entry_ok b;
  ii_work : forall p b, entries s !! p = Some b -> work_ok (entries s) b;
  ii_header : header_ok s;
  ii_total : forall p b, entries s !! p = Some b -> nChainTx b <> 0 -> total (entries s) p (nChainTx b);
  ii_bound : forall p n, total (entries s) p n -> n < 2 ^ 32;
  ii_waits : forall q p, (q, p) ∈ mapBlocksUnlinked s -> waits (entries s) q p;
  ii_queue : forall p, p ∈ queue -> ready (entries s) p;
  ii_once : NoDup (queue ++ map snd (mapBlocksUnlinked s));
  ii_kept : forall p b, entries s !! p = Some b -> entry_data b = true -> nChainTx b = 0 ->
    p ∈ queue \/ exists q, pprev b = Some q /\ ~ linked (entries s) q /\ (marked (entries s) q \/ (q, p) ∈ mapBlocksUnlinked s);
  ii_complete : forall p, linked (entries s) p -> ~ marked (entries s) p ->
    p ∈ setBlockIndexCandidates s \/ exists f, best = Some f /\ worse (entries s) p f;
  ii_best : forall f, best = Some f -> linked (entries s) f;
  ii_tip : forall t, Tip (chainActive s) = Some t -> linked (entries s) t /\ exists f, best = Some f /\ (t = f \/ worse (entries s) t f)
}.

(** ** Changes that keep the tree *)

Section same_tree.
Context (s s' : index_state) (Hs : same_tree (entries s) (entries s')).

Lemma place_inv p b' : entries s' !! p = Some b' -> exists b, entries s !! p = Some b /\ same_place b b'.
Proof using Hs. intros Hp. specialize (Hs p). rewrite Hp in Hs. inversion Hs; subst. eauto. Qed.
Lemma place_map h p :
  (exists b, entries s' !! p = Some b /\ phashBlock b = h) <-> exists b, entries s !! p = Some b /\ phashBlock b = h.
Proof using Hs.
  split.
  - intros (b' & Hb' & Hh). destruct (place_inv p b' Hb') as (b & Hb & (_ & _ & _ & _ & _ & E)). exists b. split; congruence.
  - intros (b & Hb & Hh). destruct (same_tree_lookup _ _ p b Hs Hb) as (b' & Hb' & (_ & _ & _ & _ & _ & E)). exists b'. split; congruence.
Qed.
Lemma place_work : (forall p b, entries s !! p = Some b -> work_ok (entries s) b) -> forall p b, entries s' !! p = Some b -> work_ok (entries s') b.
Proof using Hs.
  intros Hw p b' Hb'. destruct (place_inv p b' Hb') as (b & Hb & (Hp & _ & _ & Hwork & Hbits & _)). destruct (Hw p b Hb) as (proof & Hproof & E).
  exists proof. split; [unfold GetBlockProof in *; by rewrite <- Hbits|]. rewrite <- Hwork, E, <- Hp. f_equal. destruct (pprev b) as [q|]; [|done]. cbn.
  destruct (Hs q) as [c c' (_ & _ & _ & Hc & _)|]; [|done]. cbn. by rewrite Hc.
Qed.
Lemma place_header : header_ok s -> pindexBestHeader s' = pindexBestHeader s -> header_ok s'.
Proof using Hs.
  unfold header_ok. intros Hh ->. destruct (pindexBestHeader s) as [h|].
  - destruct Hh as (bh & Hbh & Hmax). destruct (same_tree_lookup _ _ h bh Hs Hbh) as (bh' & Hbh' & (_ & _ & _ & Ex & _)). exists bh'. split; [done|].
    intros p b' Hb'. destruct (place_inv p b' Hb') as (b & Hb & (_ & _ & _ & Ey & _)). rewrite <- Ex, <- Ey. eauto.
  - intros p. specialize (Hh p). by destruct (Hs p).
Qed.
End same_tree.

(** The entry keeps its place and its data; failure flags may be added. *)
Record evolves (b b' : CBlockIndex) : Prop := {
  ev_place : same_place b b';
  ev_tx : nTx b' = nTx b;
  ev_chaintx : nChainTx b' = nChainTx b;
  ev_sequence : nSequenceId b' = nSequenceId b;
  ev_data : entry_data b' = entry_data b;
  ev_failed : entry_failed b = true -> entry_failed b' = true;
  ev_level : Z.land (nStatus b) BLOCK_VALID_MASK <= Z.land (nStatus b') BLOCK_VALID_MASK
}.
Definition evolve (st st' : store) : Prop := forall p, option_Forall2 evolves (st !! p) (st' !! p).

Lemma evolves_refl b : evolves b b.
Proof. split; done. Qed.
Lemma evolve_lookup st st' p b : evolve st st' -> st !! p = Some b -> exists b', st' !! p = Some b' /\ evolves b b'.
Proof. intros Hs Hp. specialize (Hs p). rewrite Hp in Hs. inversion Hs; subst. eauto. Qed.
Lemma evolve_lookup_inv st st' p b' : evolve st st' -> st' !! p = Some b' -> exists b, st !! p = Some b /\ evolves b b'.
Proof. intros Hs Hp. specialize (Hs p). rewrite Hp in Hs. inversion Hs; subst. eauto. Qed.
Lemma evolve_insert st p b b' : st !! p = Some b -> evolves b b' -> evolve st (<[p := b']> st).
Proof.
  intros Hp Hs q. destruct (decide (q = p)) as [->|]; [rewrite lookup_insert_eq, Hp; by constructor|].
  rewrite lookup_insert_ne by done. destruct (st !! q); constructor. apply evolves_refl.
Qed.
Lemma evolve_tree st st' : evolve st st' -> same_tree st st'.
Proof. intros Hf p. destruct (Hf p) as [b b' Hb|]; constructor. apply Hb. Qed.

Lemma more_failed_evolves b b' : more_failed b b' -> evolves b b'.
Proof.
  intros Hm. pose proof (more_failed_place _ _ Hm). pose proof (entry_data_more _ _ Hm). pose proof (entry_failed_more _ _ Hm).
  destruct Hm as (f & Hf & Ef & ->). split; try done. cbn [set_status nStatus]. rewrite Z.land_lor_distr_l.
  replace (Z.land f BLOCK_VALID_MASK) with 0; [by rewrite Z.lor_0_r|]. rewrite <- Ef, <- Z.land_assoc.
  change (Z.land BLOCK_FAILED_MASK BLOCK_VALID_MASK) with 0. by rewrite Z.land_0_r.
Qed.
Lemma failing_evolve st st' : failing st st' -> evolve st st'.
Proof. intros Hf p. destruct (Hf p) as [b b' Hb|]; constructor. by apply more_failed_evolves. Qed.

Section evolve.
Context (st st' : store) (He : evolve st st').

Lemma evolve_linked p : linked st' p <-> linked st p.
Proof using He.
  split.
  - intros (b' & Hb' & Hn). destruct (evolve_lookup_inv _ _ _ _ He Hb') as (b & Hb & Hx). exists b. split; [done|]. by rewrite <- (ev_chaintx _ _ Hx).
  - intros (b & Hb & Hn). destruct (evolve_lookup _ _ _ _ He Hb) as (b' & Hb' & Hx). exists b'. split; [done|]. by rewrite (ev_chaintx _ _ Hx).
Qed.
Lemma evolve_marked p : marked st p -> marked st' p.
Proof using He. intros (b & Hb & Hn). destruct (evolve_lookup _ _ _ _ He Hb) as (b' & Hb' & Hx). exists b'. split; [done|]. by apply (ev_failed _ _ Hx). Qed.
Lemma evolves_key p b b' : evolves b b' -> key p b' = key p b.
Proof using. intros Hx. unfold key. rewrite (ev_sequence _ _ Hx). destruct (ev_place _ _ Hx) as (_ & _ & _ & -> & _). done. Qed.
Lemma evolve_worse p q : worse st p q <-> worse st' p q.
Proof using He.
  split.
  - intros (b & c & Hb & Hc & Hk). destruct (evolve_lookup _ _ _ _ He Hb) as (b' & Hb' & Hx). destruct (evolve_lookup _ _ _ _ He Hc) as (c' & Hc' & Hy).
    exists b', c'. by rewrite (evolves_key _ _ _ Hx), (evolves_key _ _ _ Hy).
  - intros (b' & c' & Hb' & Hc' & Hk). destruct (evolve_lookup_inv _ _ _ _ He Hb') as (b & Hb & Hx). destruct (evolve_lookup_inv _ _ _ _ He Hc') as (c & Hc & Hy).
    exists b, c. by rewrite <- (evolves_key _ _ _ Hx), <- (evolves_key _ _ _ Hy).
Qed.
Lemma evolve_total p n : total st p n <-> total st' p n.
Proof using He.
  split; induction 1 as [p b Hb Hp|p b q n Hb Hp Ht IH].
  1-2: destruct (evolve_lookup _ _ _ _ He Hb) as (b' & Hb' & Hx).
  3-4: destruct (evolve_lookup_inv _ _ _ _ He Hb) as (b' & Hb' & Hx).
  1-4: pose proof (ev_tx _ _ Hx) as Htx; destruct (ev_place _ _ Hx) as (Hpp & _).
  - rewrite <- Htx. econstructor; [done|congruence].
  - rewrite <- Htx. eapply total_next; [done|rewrite <- Hpp; exact Hp|done].
  - rewrite Htx. econstructor; [done|congruence].
  - rewrite Htx. eapply total_next; [done|rewrite Hpp; exact Hp|done].
Qed.
Lemma evolve_waits q p : waits st q p -> waits st' q p.
Proof using He.
  intros (b & Hb & Hp & Hd & Hn & Hl). destruct (evolve_lookup _ _ _ _ He Hb) as (b' & Hb' & Hx). destruct (ev_place _ _ Hx) as (Hpp & _).
  exists b'. rewrite (ev_data _ _ Hx), (ev_chaintx _ _ Hx), evolve_linked. split_and!; congruence.
Qed.
Lemma evolve_ready p : ready st p -> ready st' p.
Proof using He.
  intros (b & Hb & Hd & Hn & Hl). destruct (evolve_lookup _ _ _ _ He Hb) as (b' & Hb' & Hx). destruct (ev_place _ _ Hx) as (Hpp & _).
  exists b'. rewrite (ev_data _ _ Hx), (ev_chaintx _ _ Hx). split_and!; try congruence. intros q Hq. rewrite evolve_linked. apply Hl. congruence.
Qed.
Lemma evolves_ok b b' : evolves b b' -> (entry_failed b' = true -> entry_failed b = true \/ nChainTx b <> 0 \/ entry_data b = false) -> entry_ok b -> entry_ok b'.
Proof using.
  intros [(_ & _ & _ & _ & E6 & _) E2 E3 E4 E5 Ef El] Hf [A1 A2 A3 A4 A5]. split; rewrite ?E2, ?E3, ?E5, <- ?E6; try done.
  - lia.
  - intros H1 H2. destruct (Hf H1) as [?|[?|?]]; [auto|done|done].
Qed.
End evolve.

Record same_tables (s s' : index_state) : Prop := {
  st_map : mapIndex s' = mapIndex s;
  st_chain : chainActive s' = chainActive s;
  st_header : pindexBestHeader s' = pindexBestHeader s;
  st_unlinked : mapBlocksUnlinked s' = mapBlocksUnlinked s
}.

(** Entries are marked, and candidates leave that are marked or worse than the
    best tip. *)
Lemma inv_evolve best queue s s' :
  index_inv best queue s -> select_ok s' -> evolve (entries s) (entries s') -> same_tables s s' ->
  (forall p, p ∈ setBlockIndexCandidates s ->
    p ∈ setBlockIndexCandidates s' \/ marked (entries s') p \/ exists f, best = Some f /\ worse (entries s) p f) ->
  (forall p b, entries s !! p = Some b -> marked (entries s') p -> entry_failed b = true \/ nChainTx b <> 0 \/ entry_data b = false) ->
  index_inv best queue s'.
Proof.
  intros [I1 I2 I3 I4 I5 I6 I7 I8 I9 I10 I11 I12 I13 I14] Hok He [M1 M2 M3 M4] Hc Hm. 
  pose proof (fun p b' => evolve_lookup_inv _ _ p b' He) as Hinv. split; rewrite ?M1, ?M2, ?M3, ?M4; try done.
  - intros h p. by rewrite I2, (place_map s s' (evolve_tree _ _ He)).
  - intros p b' Hb'. destruct (Hinv _ _ Hb') as (b & Hb & Hx). apply (evolves_ok b b' Hx); [|eauto]. intros Hf. apply (Hm p b Hb). by exists b'.
  - by apply (place_work s s' (evolve_tree _ _ He)).
  - by apply (place_header s s' (evolve_tree _ _ He)).
  - intros p b' Hb' Hn. destruct (Hinv _ _ Hb') as (b & Hb & Hx). rewrite <- (evolve_total _ _ He). rewrite (ev_chaintx _ _ Hx) in *. by apply (I6 p b).
  - intros p n Ht. rewrite <- (evolve_total _ _ He) in Ht. eauto.
  - intros q p Hq. eapply evolve_waits; eauto.
  - intros p Hp. eapply evolve_ready; eauto.
  - intros p b' Hb' Hd Hn. destruct (Hinv _ _ Hb') as (b & Hb & Hx). rewrite (ev_data _ _ Hx) in Hd. rewrite (ev_chaintx _ _ Hx) in Hn.
    destruct (I11 p b Hb Hd Hn) as [?|(q & Hq & Hl & Hor)]; [by left|]. right. destruct (ev_place _ _ Hx) as (Hpp & _). exists q.
    rewrite (evolve_linked _ _ He). split_and!; [congruence|done|]. destruct Hor as [Hor|Hor]; [left; by eapply evolve_marked|by right].
  - intros p Hl Hn. rewrite (evolve_linked _ _ He) in Hl. destruct (I12 p Hl) as [Hp|(f & Hf & Hw)].
    { intros Hx. apply Hn. by eapply evolve_marked. }
    + destruct (Hc p Hp) as [?|[?|(f & Hf & Hw)]]; [by left|done|right; exists f; split; [done|by apply (evolve_worse _ _ He)]].
    + right. exists f. split; [done|by apply (evolve_worse _ _ He)].
  - intros f Hf. rewrite (evolve_linked _ _ He). eauto.
  - intros t Ht. rewrite (evolve_linked _ _ He). destruct (I14 t Ht) as [Hl (f & Hf & Hor)]. split; [done|]. exists f. split; [done|].
    rewrite <- (evolve_worse _ _ He). done.
Qed.

(** *** Marking blocks *)

Lemma marked_dec st p : marked st p \/ ~ marked st p.
Proof.
  destruct (st !! p) as [b|] eqn:Hb; [|right; intros (b & Hb' & _); congruence].
  destruct (entry_failed b) eqn:Ef; [left; by exists b|]. right. intros (b' & Hb' & Hf). congruence.
Qed.

Lemma inv_trimmed R best queue s s' :
  index_inv best queue s -> trimmed R s s' -> mapBlocksUnlinked s' = mapBlocksUnlinked s ->
  (forall p, pindexBestInvalid s' = Some p -> in_store (entries s) p) ->
  (forall p, R p -> in_store (entries s) p -> marked (entries s') p) ->
  (forall p b, R p -> entries s !! p = Some b -> nChainTx b <> 0 \/ entry_data b = false) ->
  index_inv best queue s'.
Proof.
  intros I T Hu Hi Hm Hr. pose proof (failing_evolve _ _ (tr_entries _ _ _ T)) as He.
  apply (inv_evolve best queue s); [done|by eapply select_ok_trimmed; [apply I|..]|done| | |].
  - split; [apply T..|done].
  - intros p Hp. destruct (decide (p ∈ setBlockIndexCandidates s')) as [?|Hx]; [by left|]. destruct (marked_dec (entries s') p) as [?|Hn]; [auto|].
    destruct Hx. apply (tr_candidates _ _ _ T). split; [done|]. intros Hx. apply Hn, Hm; [done|].
    destruct (so_candidates _ (ii_select _ _ _ I) p Hp) as (b & Hb & _). by exists b.
  - intros p b Hb (b' & Hb' & Hf). destruct (entry_failed b) eqn:Ef; [by left|]. destruct (decide (nChainTx b = 0)) as [En|]; [|auto].
    destruct (entry_data b) eqn:Ed; [|auto]. rewrite (tr_only _ _ _ T p), Hb in Hb'; [congruence|]. intros Hx. destruct (Hr p b Hx Hb); congruence.
Qed.

Lemma trimmed_fail s p b flag : entries s !! p = Some b -> flag = BLOCK_FAILED_VALID \/ flag = BLOCK_FAILED_CHILD ->
  trimmed (fun x => x = p) s (set_candidates (set_dirty (set_entry s p (fail_entry b flag)) p) (set_erase p (setBlockIndexCandidates s))).
Proof.
  intros Hp Hf. split; try done; cbn.
  - apply (failing_insert _ _ b); [done|]. by apply more_failed_fail.
  - intros q Hq. by apply lookup_insert_ne.
  - intros x. apply elem_of_set_erase.
  - apply sorted_erase.
Qed.
Lemma erase_absent p l : p ∉ l -> set_erase p l = l.
Proof.
  intros Hp. unfold set_erase. induction l as [|x l IH]; [done|]. rewrite filter_cons, decide_True by set_solver. f_equal. apply IH. set_solver.
Qed.
(** A block that cannot be connected. *)
Lemma inv_invalid best queue s s' p corruption :
  index_inv best queue s -> linked (entries s) p -> InvalidBlockFound s p corruption = Ok s' -> index_inv best queue s'.
Proof.
  intros I (b & Hb & Hn). unfold InvalidBlockFound. destruct corruption; [by intros [= <-]|]. rewrite (deref_Some _ _ _ Hb). cbn [bindR].
  pose proof (trimmed_fail s p b BLOCK_FAILED_VALID Hb ltac:(by left)) as T.
  change (setBlockIndexCandidates (set_dirty _ _)) with (setBlockIndexCandidates s). set (s1 := set_candidates _ _) in *. unfold InvalidChainFound.
  assert (Hb1 : entries s1 !! p = Some (fail_entry b BLOCK_FAILED_VALID)) by apply lookup_insert_eq.
  rewrite (deref_Some _ _ _ Hb1). cbn [bindR]. intros (better & _ & E)%bindR_Ok. destruct (bool_decide _); [|done]. injection E as <-.
  apply (inv_trimmed (fun x => x = p) best queue s); [done| | | | |].
  - destruct better; [|done]. eapply trimmed_ext; [|eapply trimmed_trans; [exact T|apply trimmed_best]]. tauto.
  - by destruct better.
  - intros q. destruct better; cbn; [intros [= <-]; by exists b|]. apply (so_invalid _ (ii_select _ _ _ I)).
  - intros q -> _. exists (fail_entry b BLOCK_FAILED_VALID). split; [by destruct better|]. apply fail_entry_failed. by left.
  - intros q b' -> Hb'. left. congruence.
Qed.

(** A block that fails its checks when its data arrives. *)
Lemma inv_reject best queue s s' p b :
  index_inv best queue s -> entries s !! p = Some b -> entry_data b = false -> reject_block s p = Ok s' -> index_inv best queue s'.
Proof.
  intros I Hb Hd. unfold reject_block. rewrite (deref_Some _ _ _ Hb). cbn [bindR]. intros [= <-].
  pose proof (trimmed_fail s p b BLOCK_FAILED_VALID Hb ltac:(by left)) as T. rewrite erase_absent in T.
  2: { intros Hp. destruct (so_candidates _ (ii_select _ _ _ I) p Hp) as (b' & Hb' & Hn). apply Hn. rewrite Hb in Hb'. injection Hb' as <-.
       by apply (eo_header b (ii_entry _ _ _ I p b Hb)). }
  apply (inv_trimmed (fun x => x = p) best queue s); [done|exact T|done| | |].
  - apply (so_invalid _ (ii_select _ _ _ I)).
  - intros q -> _. exists (fail_entry b BLOCK_FAILED_VALID). split; [apply lookup_insert_eq|]. apply fail_entry_failed. by left.
  - intros q b' -> Hb'. right. congruence.
Qed.

(** *** Choosing and setting the tip *)

Lemma inv_search best queue s : index_inv best queue s ->
  exists s' r, FindMostWorkChain s = Ok (s', r) /\ index_inv best queue s'.
Proof.
  intros I. destruct (FindMostWorkChain_spec s (ii_select _ _ _ I)) as (R & s' & r & E & [B1 B2 B3 B4 B6 B5] & _). exists s', r. split; [done|].
  assert (Hd : forall p b, entries s !! p = Some b -> nChainTx b <> 0 -> entry_data b = true).
  { intros p b Hb Hn. destruct (entry_data b) eqn:Ed; [done|]. by destruct (eo_header b (ii_entry _ _ _ I p b Hb) Ed). }
  destruct (B5 Hd) as [Hu Hf].
  apply (inv_trimmed R best queue s); [done|done|done| | |].
  - intros p Hp. destruct (so_invalid s' B1 p Hp) as [b' Hb']. 
    destruct (failing_lookup_inv _ _ _ _ (tr_entries _ _ _ B2) Hb') as (b & Hb & _). by exists b.
  - intros p Hp [b Hb]. destruct (failing_lookup _ _ _ _ (tr_entries _ _ _ B2) Hb) as (b' & Hb' & _). exists b'. eauto.
  - intros p b Hp Hb. left. by eapply B6.
Qed.

(** Only candidates that are worse than the tip leave the set. *)
Lemma drop_worse_spec st tip l : works_ok st -> in_store st tip -> Forall (in_store st) l -> sorted st l ->
  exists l', drop_worse st tip l = Ok l' /\ sorted st l' /\ (forall p, p ∈ l' -> p ∈ l) /\ (forall p, p ∈ l -> p ∈ l' \/ worse st p tip).
Proof.
  intros Hw [bt Hbt] Hl Hs. induction Hs as [|p l Hs IH Hp]; cbn [drop_worse].
  - exists []. split_and!; [done|constructor|done|by intros ? ?%elem_of_nil].
  - apply Forall_cons in Hl as [[b Hb] Hl]. rewrite (Comparator_spec st p tip b bt) by done. cbn [bindR].
    destruct (bool_decide_reflect (worse st p tip)) as [Hx|Hx].
    + destruct (IH Hl) as (l' & -> & Hs' & Hsub & Hkeep). exists l'. split_and!; [done|done|set_solver|].
      intros q [->|Hq]%elem_of_cons; [by right|auto].
    + exists (p :: l). split_and!; [done|by constructor|done|by left].
Qed.
Lemma inv_prune best queue s s' : index_inv best queue s -> PruneBlockIndexCandidates s = Ok s' -> index_inv best queue s'.
Proof.
  intros I. pose proof (ii_select _ _ _ I) as Hok. unfold PruneBlockIndexCandidates. intros (l & El & E)%bindR_Ok.
  destruct (nonempty l) eqn:Hne; [|done]. injection E as <-.
  destruct (setBlockIndexCandidates s) as [|c cs] eqn:Hc; [destruct (Tip _); injection El as <-; done|].
  destruct (Tip (chainActive s)) as [t|] eqn:Ht; [|done]. rewrite <- Hc in El. destruct (ii_tip _ _ _ I t Ht) as [(bt & Hbt & _) (f & Hf & Htf)].
  destruct (drop_worse_spec (entries s) t (setBlockIndexCandidates s)) as (l' & El' & Hs & Hsub & Hkeep).
  { apply Hok. } { by exists bt. } { apply Forall_forall. intros p Hp. destruct (so_candidates s Hok p Hp) as (b & Hb & _). by exists b. } { apply Hok. }
  rewrite El' in El. injection El as ->.
  apply (inv_evolve best queue s); [done| | |by split| |].
  - destruct Hok as [A1 A2 A3 A4 A5 A6 A7]. split; try done. intros p Hp. apply A5. by apply Hsub.
  - intros p. cbn. destruct (entries s !! p); constructor. apply evolves_refl.
  - intros p Hp. destruct (Hkeep p Hp) as [?|Hw]; [by left|]. right. right. exists f. split; [done|].
    destruct Htf as [->|Htf]; [done|by eapply worse_trans].
  - intros p b Hb (b' & Hb' & Hm). left. cbn in Hb'. congruence.
Qed.

(** The best tip, if the chain gets the tip [t]. *)
Definition raise_best (st : store) (best : option ptr) (t : ptr) : option ptr :=
  match best with Some f => if decide (worse st f t) then Some t else Some f | None => Some t end.

Lemma raise_best_spec st best t : in_store st t -> (forall f, best = Some f -> in_store st f) ->
  exists f, raise_best st best t = Some f /\ (f = t \/ best = Some f) /\ (t = f \/ worse st t f)
    /\ forall g, best = Some g -> g = f \/ worse st g f.
Proof.
  intros [bt Hbt] Hb. destruct best as [g|]; [|by exists t; split_and!; [..|by intros ?]; auto]. cbn [raise_best].
  destruct (Hb g eq_refl) as [bg Hbg]. destruct (decide (worse st g t)) as [Hw|Hw].
  - exists t. split_and!; auto. intros ? [= <-]. auto.
  - exists g. destruct (worse_total st g t bg bt Hbg Hbt) as [->|[?|?]]; [|done|]; split_and!; auto; intros ? [= <-]; auto.
Qed.

Lemma Tip_branch st p b : tree_ok st -> st !! p = Some b -> Tip (Chain.branch st p (nHeight b)) = Some p.
Proof.
  intros Ht Hp. pose proof (height_nonneg st Ht p b Hp). unfold Tip. rewrite length_branch, chain_at_spec, nth_branch by lia.
  by replace (Z.to_nat (nHeight b) - Z.to_nat (Z.of_nat (S (Z.to_nat (nHeight b))) - 1))%nat with 0%nat by lia.
Qed.

Lemma inv_tip best queue s c t :
  index_inv best queue s -> linked (entries s) t -> SetTip (entries s) (chainActive s) (Some t) = Ok c ->
  index_inv (raise_best (entries s) best t) queue (set_chain s c).
Proof.
  intros I Hl Hset. pose proof Hl as (b & Hb & _). pose proof (ii_select _ _ _ I) as Hok.
  rewrite (SetTip_branch _ (so_tree s Hok) _ t b (so_chain s Hok) Hb) in Hset. injection Hset as <-.
  destruct (raise_best_spec (entries s) best t) as (f & -> & Hf & Ht & Hg); [by exists b| |].
  { intros g Hg. destruct (ii_best _ _ _ I g Hg) as (bg & Hbg & _). by exists bg. }
  destruct I as [I1 I2 I3 I4 I5 I6 I7 I8 I9 I10 I11 I12 I13 I14]. split; try done; cbn -[Tip Chain.branch].
  - destruct Hok as [A1 A2 A3 A4 A5 A6 A7]. split; try done. right. by exists t, b.
  - intros p Hp Hn. destruct (I12 p Hp Hn) as [?|(g & Hbest & Hw)]; [by left|]. right. exists f. split; [done|].
    destruct (Hg g Hbest) as [->|?]; [done|by eapply worse_trans].
  - intros ? [= <-]. destruct Hf as [->|Hf]; [done|by apply I13].
  - intros t'. rewrite (Tip_branch _ _ _ (so_tree s Hok) Hb). intros [= <-]. split; [done|]. by exists f.
Qed.

(** ** A new header *)

Section weaken.
Context (st st' : store) (Ht : tree_ok st) (Hsub : st ⊆ st').

Lemma weaken_worse p q : worse st p q -> worse st' p q.
Proof using Hsub. intros (b & c & Hb & Hc & Hk). exists b, c. split_and!; [by eapply lookup_weaken..|done]. Qed.
Lemma weaken_walk k p b : st !! p = Some b -> (k <= Z.to_nat (nHeight b))%nat -> walk st' k p = walk st k p.
Proof using Ht Hsub.
  intros Hp Hk. pose proof (height_nonneg st Ht p b Hp). destruct (walk_ok st Ht k p b Hp) as (q & bq & Hw & _); [lia|]. rewrite Hw. by apply (walk_weaken st).
Qed.
Lemma weaken_chain c : chain_ok st c -> chain_ok st' c.
Proof using Ht Hsub.
  intros [->|(t & bt & Hb & ->)]; [by left|]. right. exists t, bt. split; [by eapply lookup_weaken|]. unfold Chain.branch. apply map_ext_in.
  intros h Hh. symmetry. eapply weaken_walk; [done|lia].
Qed.
Lemma weaken_linked p : linked st p -> linked st' p.
Proof using Hsub. intros (b & Hb & Hn). exists b. split; [by eapply lookup_weaken|done]. Qed.
Lemma weaken_marked p : marked st p -> marked st' p.
Proof using Hsub. intros (b & Hb & Hn). exists b. split; [by eapply lookup_weaken|done]. Qed.
Lemma weaken_total p n : total st p n -> total st' p n.
Proof using Hsub. induction 1; [eapply total_root|eapply total_next]; try done; by eapply lookup_weaken. Qed.
Lemma weaken_work p b : st !! p = Some b -> work_ok st b -> work_ok st' b.
Proof using Ht Hsub.
  intros Hp (proof & Hproof & Hw). exists proof. split; [done|]. rewrite Hw. f_equal. destruct (Ht p b Hp) as (_ & Hprev & _).
  unfold prev_ok in Hprev. destruct (pprev b) as [q|]; [|done]. destruct Hprev as (bq & Hq & _). cbn.
  by rewrite Hq, (lookup_weaken _ _ _ _ Hq Hsub).
Qed.
End weaken.

Lemma prev_work_ok (st : store) (prev : option ptr) : works_ok st -> uint_ok (default (of_u64 0) (q ← prev; bq ← st !! q; Some (nChainWork bq))).
Proof.
  intros Hw. destruct prev as [q|]; cbn; [|apply of_u64_ok]. destruct (st !! q) as [c|] eqn:Hc; cbn; [by apply (Hw q)|apply of_u64_ok].
Qed.

(** A block of which only the header is known. *)
Record header_entry (st : store) (hash : bytes) (b : CBlockIndex) : Prop := {
  he_hash : phashBlock b = hash;
  he_bits : uint 32 (bi_nBits b);
  he_tx : nTx b = 0;
  he_chaintx : nChainTx b = 0;
  he_status : nStatus b = BLOCK_VALID_TREE;
  he_prev : forall q, pprev b = Some q -> in_store st q;
  he_work : work_ok st b
}.

Section new_header.
Context (best : option ptr) (queue : list ptr) (s s' : index_state) (p : ptr) (b : CBlockIndex) (hash : bytes).
Context (I : index_inv best queue s) (Hp : entries s !! p = None) (Hb : header_entry (entries s) hash b).
Context (Hmap : mapIndex s !! hash = None) (Ht' : tree_ok (entries s')).
Context (Es : entries s' = <[p := b]> (entries s)) (Em : mapIndex s' = <[hash := p]> (mapIndex s)) (Ec : chainActive s' = chainActive s).
Context (El : setBlockIndexCandidates s' = setBlockIndexCandidates s) (Eu : mapBlocksUnlinked s' = mapBlocksUnlinked s).
Context (Ei : pindexBestInvalid s' = pindexBestInvalid s).

Lemma header_sub : entries s ⊆ entries s'.
Proof using Es Hp. rewrite Es. by apply insert_subseteq. Qed.
Lemma header_tree : tree_ok (entries s).
Proof using I. apply I. Qed.
#[local] Hint Resolve header_sub header_tree : core.

Lemma header_cases (P : ptr -> CBlockIndex -> Prop) :
  P p b -> (forall x c, entries s !! x = Some c -> P x c) -> forall x c, entries s' !! x = Some c -> P x c.
Proof using Es.
  intros H1 H2 x c. rewrite Es. destruct (decide (x = p)) as [->|]; [rewrite lookup_insert_eq; by intros [= <-]|].
  rewrite lookup_insert_ne by done. apply H2.
Qed.
Lemma header_linked x : linked (entries s') x <-> linked (entries s) x.
Proof using Es Hp Hb.
  split; [|apply weaken_linked, header_sub]. intros (c & Hc & Hn). revert x c Hc Hn.
  refine (header_cases _ _ _); [by intros []; apply Hb|]. intros x c Hc Hn. by exists c.
Qed.
Lemma header_marked x : marked (entries s') x <-> marked (entries s) x.
Proof using Es Hp Hb.
  split; [|apply weaken_marked, header_sub]. intros (c & Hc & Hn). revert x c Hc Hn.
  refine (header_cases _ _ _); [|intros x c Hc Hn; by exists c]. unfold entry_failed. rewrite (he_status _ _ _ Hb). done.
Qed.
Lemma header_total x n : total (entries s') x n -> x <> p -> total (entries s) x n.
Proof using Es Hp I.
  induction 1 as [x c Hc Hx|x c q n Hc Hx Hq IH]; intros Hne; rewrite Es, lookup_insert_ne in Hc by done; [by apply total_root|].
  eapply total_next; [done|done|]. apply IH. intros ->. destruct (header_tree x c Hc) as (_ & Hprev & _). unfold prev_ok in Hprev.
  rewrite Hx in Hprev. destruct Hprev as (? & ? & _). congruence.
Qed.
Lemma header_select : select_ok s'.
Proof using All.
  destruct (ii_select _ _ _ I) as [A1 A2 A3 A4 A5 A6 A7]. split; rewrite ?Ec, ?El, ?Ei.
  - done.
  - unfold works_ok. refine (header_cases _ _ _); [|done]. destruct (he_work _ _ _ Hb) as (w & Hw & ->).
    destruct (GetBlockProof_spec b (he_bits _ _ _ Hb)) as (w' & Hw' & Hok & _). rewrite Hw in Hw'. injection Hw' as <-. apply op_add_ok; [by apply prev_work_ok|done].
  - by apply (weaken_chain (entries s)).
  - apply (sorted_ext (entries s)); [intros; by apply (weaken_worse (entries s))|done].
  - intros x Hx. destruct (A5 x Hx) as (c & Hc & Hn). exists c. split; [by apply (lookup_weaken _ _ _ _ Hc)|done].
  - intros x c q Hc. revert x c Hc. refine (header_cases _ _ _); [by intros []; apply Hb|]. intros x c Hc Hn Hq. destruct (A6 x c q Hc Hn Hq) as (cq & Hcq & Hnq).
    exists cq. split; [by apply (lookup_weaken _ _ _ _ Hcq)|done].
  - intros x Hx. destruct (A7 x Hx) as [c Hc]. exists c. by apply (lookup_weaken _ _ _ _ Hc).
Qed.

Lemma header_inv :
  match pindexBestHeader s with
  | Some h => exists bh, entries s !! h = Some bh
      /\ pindexBestHeader s' = if val (nChainWork bh) <? val (nChainWork b) then Some p else Some h
  | None => pindexBestHeader s' = Some p
  end -> index_inv best queue s'.
Proof using All.
  intros Hbest. pose proof header_select as Hsel. pose proof (header_cases) as Hcases.
  destruct I as [I1 I2 I3 I4 I5 I6 I7 I8 I9 I10 I11 I12 I13 I14]. split; rewrite ?Ec, ?El, ?Eu; try done.
  - intros h x. rewrite Em. destruct (decide (h = hash)) as [->|Hh].
    + rewrite lookup_insert_eq. split; [intros [= <-]; exists b; rewrite Es, lookup_insert_eq; split; [done|apply Hb]|].
      intros (c & Hc & Hh). f_equal. symmetry. destruct (decide (x = p)); [done|]. rewrite Es, lookup_insert_ne in Hc by done.
      rewrite (proj2 (I2 hash x)) in Hmap; [done|by exists c].
    + rewrite lookup_insert_ne, I2 by done. split; intros (c & Hc & Hx); exists c; (split; [|done]).
      * by apply (lookup_weaken _ _ _ _ Hc).
      * rewrite Es in Hc. destruct (decide (x = p)) as [->|]; [rewrite lookup_insert_eq in Hc; injection Hc as <-; by destruct Hh; rewrite <- Hx; apply Hb|].
        by rewrite lookup_insert_ne in Hc.
  - refine (header_cases _ _ _); [|done]. destruct Hb as [H1 H2 H3 H4 H5 H6 H7]. split; unfold entry_data, entry_failed; rewrite ?H5; done.
  - refine (header_cases _ _ _).
    + destruct (he_work _ _ _ Hb) as (w & Hw & E). exists w. split; [done|]. rewrite E. f_equal. destruct (pprev b) as [q|] eqn:Eq; [|done].
      destruct (he_prev _ _ _ Hb q Eq) as [c Hc]. cbn. by rewrite Hc, (lookup_weaken _ _ _ _ Hc header_sub).
    + intros x c Hc. eapply (weaken_work (entries s)); eauto.
  - unfold header_ok in *. destruct (pindexBestHeader s) as [h|].
    + destruct I5 as (bh & Hbh & Hmax). destruct Hbest as (bh' & Hbh' & ->). rewrite Hbh in Hbh'. injection Hbh' as <-.
      destruct (Z.ltb_spec (val (nChainWork bh)) (val (nChainWork b))).
      * exists b. split; [by rewrite Es, lookup_insert_eq|]. refine (header_cases _ _ _); [lia|]. intros x c Hc. specialize (Hmax x c Hc). lia.
      * exists bh. split; [by apply (lookup_weaken _ _ _ _ Hbh)|]. refine (header_cases _ _ _); [lia|done].
    + rewrite Hbest. exists b. split; [by rewrite Es, lookup_insert_eq|]. refine (header_cases _ _ _); [lia|]. intros x c Hc. by rewrite I5 in Hc.
  - refine (header_cases _ _ _); [by intros []; apply Hb|]. intros x c Hc Hn. apply (weaken_total (entries s)); auto.
  - intros x n Hn. destruct (decide (x = p)) as [->|]; [|by apply (I7 x), header_total].
    assert (Hl : entries s' !! p = Some b) by (by rewrite Es, lookup_insert_eq).
    inversion Hn as [x c Hc Hx|x c q m Hc Hx Hq]; subst; rewrite Hl in Hc; injection Hc as <-; rewrite (he_tx _ _ _ Hb); [done|].
    rewrite Z.add_0_r. apply (I7 q), header_total; [done|]. intros ->. destruct (he_prev _ _ _ Hb p Hx). congruence.
  - intros q x Hq. destruct (I8 q x Hq) as (c & Hc & H1 & H2 & H3 & H4). exists c. rewrite header_linked. split_and!; try done.
    by apply (lookup_weaken _ _ _ _ Hc).
  - intros x Hx. destruct (I9 x Hx) as (c & Hc & H1 & H2 & H3). exists c. split_and!; try done; [by apply (lookup_weaken _ _ _ _ Hc)|].
    intros q Hq. rewrite header_linked. auto.
  - refine (header_cases _ _ _); [unfold entry_data; by rewrite (he_status _ _ _ Hb)|]. intros x c Hc Hd Hn.
    destruct (I11 x c Hc Hd Hn) as [?|(q & H1 & H2 & H3)]; [by left|]. right. exists q. by rewrite header_linked, header_marked.
  - intros x. rewrite header_linked, header_marked. intros Hl Hn. destruct (I12 x Hl Hn) as [?|(f & Hf & Hw)]; [by left|]. right. exists f.
    split; [done|]. by apply (weaken_worse (entries s)).
  - intros f Hf. rewrite header_linked. auto.
  - intros t Ht. rewrite header_linked. destruct (I14 t Ht) as (Hl & f & Hf & Hor). split; [done|]. exists f. split; [done|].
    destruct Hor; [by left|right; by apply (weaken_worse (entries s))].
Qed.
End new_header.

Lemma walk_relabel st p b b' k x : st !! p = Some b -> pprev b' = pprev b -> walk (<[p := b']> st) k x = walk st k x.
Proof.
  intros Hp Hb. revert x. induction k as [|k IH]; intros x; [done|]. cbn [walk]. destruct (decide (x = p)) as [->|].
  - rewrite lookup_insert_eq, Hp. cbn [mbind option_bind]. rewrite Hb. destruct (pprev b); [apply IH|done].
  - rewrite lookup_insert_ne by done. destruct (st !! x) as [c|]; [|done]. cbn [mbind option_bind]. destruct (pprev c); [apply IH|done].
Qed.
Lemma tree_ok_relabel st p b b' :
  tree_ok st -> st !! p = Some b -> pprev b' = pprev b -> pskip b' = pskip b -> nHeight b' = nHeight b -> tree_ok (<[p := b']> st).
Proof.
  intros Ht Hp Ep Es Eh. assert (Hl : forall x c, st !! x = Some c -> exists c', <[p := b']> st !! x = Some c' /\ nHeight c' = nHeight c).
  { intros x c Hc. destruct (decide (x = p)) as [->|]; [|exists c; by rewrite lookup_insert_ne]. exists b'. rewrite lookup_insert_eq. split; congruence. }
  intros x c' Hx. assert (Hc : exists c, st !! x = Some c /\ pprev c' = pprev c /\ pskip c' = pskip c /\ nHeight c' = nHeight c).
  { destruct (decide (x = p)) as [->|]; [rewrite lookup_insert_eq in Hx; injection Hx as <-; by exists b|]. rewrite lookup_insert_ne in Hx by done. by exists c'. }
  destruct Hc as (c & Hc & E1 & E2 & E3). destruct (Ht x c Hc) as (T1 & T2 & T3). unfold prev_ok, skip_ok in *. rewrite E1, E2, E3. split_and!; [done| |].
  - destruct (pprev c) as [q|]; [|done]. destruct T2 as (bq & Hq & Hh). destruct (Hl q bq Hq) as (bq' & Hq' & Hh'). exists bq'. split; [done|lia].
  - by rewrite (walk_relabel _ _ b).
Qed.

(** The previous block of a new header. *)
Definition known_prev (s : index_state) (block : CBlockHeader) : option ptr := mapIndex s !! hb_hashPrevBlock block.
(** The new entry: its place, and its work. *)
Definition linked_header (block : CBlockHeader) (hash : bytes) (prev skip : option ptr) (h : Z) (work : list Z) : CBlockIndex :=
  set_status (set_header_fields (set_links (set_header_fields (CBlockIndex_new block) hash zero256) prev skip h) hash work) BLOCK_VALID_TREE.

Lemma prev_work_spec best queue s block : index_inv best queue s -> forall st, entries s ⊆ st ->
  (match known_prev s block with
   | None => Ok (of_u64 0)
   | Some q => let* bq := of_chain_error (deref st q) in Ok (nChainWork bq)
   end) = Ok (default (of_u64 0) (q ← known_prev s block; bq ← entries s !! q; Some (nChainWork bq))) :> result reject (list Z).
Proof.
  intros I st Hsub. unfold known_prev. destruct (mapIndex s !! hb_hashPrevBlock block) as [q|] eqn:Eq; [|done].
  apply (ii_map _ _ _ I) in Eq as (bq & Hq & _). cbn. rewrite Hq. by rewrite (deref_Some st q bq (lookup_weaken _ _ _ _ Hq Hsub)).
Qed.

Lemma AddToBlockIndex_new best queue s p block hash :
  index_inv best queue s -> entries s !! p = None -> uint 32 (hb_nBits block) -> header_GetHash block = Ok hash -> hb_hashPrevBlock block <> hash ->
  mapIndex s !! hash = None ->
  exists s' b, AddToBlockIndex s p block = Ok (s', p) /\ header_entry (entries s) hash b /\ tree_ok (entries s')
    /\ s' = IndexState (<[p := b]> (entries s)) (<[hash := p]> (mapIndex s)) (chainActive s) (setBlockIndexCandidates s) (mapBlocksUnlinked s)
              (pindexBestHeader s') (pindexBestInvalid s) (nBlockSequenceId s) ({[ p ]} ∪ setDirtyBlockIndex s)
    /\ match pindexBestHeader s with
       | Some h => exists bh, entries s !! h = Some bh
           /\ pindexBestHeader s' = if val (nChainWork bh) <? val (nChainWork b) then Some p else Some h
       | None => pindexBestHeader s' = Some p
       end.
Proof.
  intros I Hp Hn Hh Hne Hm. unfold AddToBlockIndex. rewrite Hh. cbn [bindR of_writer]. rewrite Hm, lookup_insert_ne by done.
  fold (known_prev s block). destruct (link_entry_ok (entries s) p (set_header_fields (CBlockIndex_new block) hash zero256) (known_prev s block))
    as (st & b1 & -> & Ht1 & Hsub & Hb1 & Hprev & Est & skip & h & Eb1); [apply I|done|done|done|done| |].
  { intros q Hq. apply (ii_map _ _ _ I) in Hq as (bq & Hq & _). by exists bq. }
  cbn [bindR of_chain_error]. rewrite (deref_Some _ _ _ Hb1). cbn [bindR of_chain_error].
  destruct (GetBlockProof_spec b1) as (w & Hw & Hwok & _); [by rewrite Eb1|]. rewrite Hw. cbn [bindR of_pow]. rewrite Hprev.
  rewrite (prev_work_spec best queue s block I st Hsub). cbn [bindR].
  set (work := ArithUint.op_add _ w). set (b := linked_header block hash (known_prev s block) skip h work).
  assert (Er : RaiseValidity (set_header_fields b1 hash work) BLOCK_VALID_TREE = Ok (true, b)) by (by rewrite Eb1).
  rewrite Er. cbn [bindR of_chain_error].
  assert (Hb : header_entry (entries s) hash b).
  { split; try done; [|exists w; split; [rewrite <- Hw, Eb1; done|done]].
    intros q Hq. apply (ii_map _ _ _ I) in Hq as (bq & Hq & _). by exists bq. }
  assert (Est' : <[p := b]> st = <[p := b]> (entries s)) by (by rewrite Est, insert_insert_eq).
  assert (Htree : tree_ok (<[p := b]> (entries s))) by (rewrite <- Est'; apply (tree_ok_relabel _ _ b1); [done|done|by rewrite Eb1..]).
  pose proof (ii_header _ _ _ I) as Hhead. unfold header_ok in Hhead. destruct (pindexBestHeader s) as [hd|].
  - destruct Hhead as (bh & Hbh & _). rewrite (deref_Some _ _ _ (lookup_weaken _ _ _ _ Hbh Hsub)). cbn [bindR of_chain_error]. rewrite Est'.
    eexists _, b. split; [reflexivity|]. split_and!; [done|done|done|]. exists bh. split; [done|]. cbn [pindexBestHeader].
    rewrite op_lt_spec; [done|by apply (so_works s (ii_select _ _ _ I) hd)|]. apply op_add_ok; [apply prev_work_ok, I|done].
  - cbn [bindR]. rewrite Est'. eexists _, b. split; [reflexivity|]. split_and!; done.
Qed.

Lemma inv_add best queue s p block hash :
  index_inv best queue s -> entries s !! p = None -> uint 32 (hb_nBits block) -> header_GetHash block = Ok hash -> hb_hashPrevBlock block <> hash ->
  exists s' q, AddToBlockIndex s p block = Ok (s', q) /\ index_inv best queue s' /\ mapIndex s' !! hash = Some q.
Proof.
  intros I Hp Hn Hh Hne. destruct (mapIndex s !! hash) as [q|] eqn:Hm.
  - exists s, q. split_and!; [|done|done]. unfold AddToBlockIndex. rewrite Hh. cbn [bindR of_writer]. by rewrite Hm.
  - destruct (AddToBlockIndex_new best queue s p block hash) as (s' & b & E & Hb & Ht & Es & Hbest); [done..|]. exists s', p.
    split_and!; [done| |rewrite Es; apply lookup_insert_eq]. by eapply (header_inv best queue s s' p b hash); first [done|rewrite Es; done].
Qed.

(** ** The data of a block *)

(** One entry changes, but not its place in the tree. *)
Section change.
Context (st : store) (p : ptr) (b b' : CBlockIndex).
Context (Hp : st !! p = Some b) (Hplace : same_place b b').
Abbreviation st' := (<[p := b']> st).

Lemma change_tree : same_tree st st'.
Proof using Hp Hplace. by apply (same_tree_insert _ _ b). Qed.
Lemma change_new : st' !! p = Some b'.
Proof using. apply lookup_insert_eq. Qed.
Lemma change_old x : x <> p -> st' !! x = st !! x.
Proof using. intros Hx. by apply lookup_insert_ne. Qed.
Lemma change_cases (P : ptr -> CBlockIndex -> Prop) : P p b' -> (forall x c, x <> p -> st !! x = Some c -> P x c) -> forall x c, st' !! x = Some c -> P x c.
Proof using. intros H1 H2 x c. destruct (decide (x = p)) as [->|]; [rewrite change_new; by intros [= <-]|]. rewrite change_old by done. by apply H2. Qed.
Lemma change_worse x y : x <> p -> y <> p -> worse st' x y <-> worse st x y.
Proof using. intros Hx Hy. unfold worse. by rewrite !change_old. Qed.
Lemma change_linked x : x <> p -> linked st' x <-> linked st x.
Proof using. intros Hx. unfold linked. by rewrite change_old. Qed.
Lemma change_marked x : entry_failed b' = entry_failed b -> marked st' x <-> marked st x.
Proof using Hp.
  intros Hf. unfold marked. destruct (decide (x = p)) as [->|Hx]; [|by rewrite change_old]. rewrite change_new, Hp.
  split; intros (c & [= <-] & Hc); eexists; split; [done|congruence|done|congruence].
Qed.
Lemma change_sorted l : p ∉ l -> sorted st l -> sorted st' l.
Proof using. intros Hl. apply sorted_ext. intros x y Hx Hy. by rewrite change_worse by (by intros ->). Qed.
End change.

(** An entry that has no data gets it. *)
Record gets_data (b b' : CBlockIndex) : Prop := {
  gd_place : same_place b b';
  gd_old : entry_data b = false;
  gd_valid : entry_failed b = false /\ entry_failed b' = false;
  gd_data : entry_data b' = true;
  gd_tx : 0 < nTx b';
  gd_chaintx : nChainTx b' = 0;
  gd_level : BLOCK_VALID_TREE <= Z.land (nStatus b') BLOCK_VALID_MASK
}.

(** Where it goes: it is linked next, it waits, or its parent is invalid. *)
Inductive placed (st : store) (p : ptr) (b : CBlockIndex) : list ptr -> list (ptr * ptr) -> Prop :=
| placed_next : (forall q, pprev b = Some q -> linked st q) -> placed st p b [p] []
| placed_waiting q : pprev b = Some q -> ~ linked st q -> placed st p b [] [(q, p)]
| placed_invalid q : pprev b = Some q -> ~ linked st q -> marked st q -> placed st p b [] [].

Lemma linked_total s p n st' :
  select_ok s -> linked (entries s) p -> total (entries s) p n ->
  (forall x b, linked (entries s) x -> entries s !! x = Some b -> exists b', st' !! x = Some b' /\ pprev b' = pprev b /\ nTx b' = nTx b) -> total st' p n.
Proof.
  intros Hok Hl Ht Hst. induction Ht as [p b Hb Hp|p b q n Hb Hp Ht IH]; destruct (Hst p b Hl Hb) as (b' & Hb' & E1 & E2); rewrite <- E2.
  - apply total_root; [done|congruence].
  - eapply total_next; [done|by rewrite E1|]. apply IH. destruct Hl as (c & Hc & Hn). rewrite Hb in Hc. injection Hc as <-. by apply (so_linked s Hok p b).
Qed.

Section data.
Context (best : option ptr) (s s' : index_state) (p : ptr) (b b' : CBlockIndex).
Context (I : index_inv best [] s) (Hb : entries s !! p = Some b) (D : gets_data b b') (Es : entries s' = <[p := b']> (entries s)).

Lemma data_unlinked : nTx b = 0 /\ nChainTx b = 0.
Proof using I Hb D. apply (eo_header b (ii_entry _ _ _ I p b Hb)), D. Qed.
Lemma data_ne x : linked (entries s) x -> x <> p.
Proof using I Hb D. intros (c & Hc & Hn) ->. destruct data_unlinked. congruence. Qed.
Lemma data_linked x : linked (entries s') x <-> linked (entries s) x.
Proof using I Hb D Es.
  rewrite Es. destruct (decide (x = p)) as [->|]; [|by apply change_linked]. split; [|by intros ?%data_ne]. intros (c & Hc & Hn).
  rewrite change_new in Hc. injection Hc as <-. by destruct Hn; apply D.
Qed.
Lemma data_marked x : marked (entries s') x <-> marked (entries s) x.
Proof using Hb D Es. rewrite Es. apply (change_marked _ _ b); [done|]. by destruct (gd_valid _ _ D) as [-> ->]. Qed.
Lemma data_tree : same_tree (entries s) (entries s').
Proof using Hb D Es. rewrite Es. apply (change_tree _ _ b); [done|apply D]. Qed.
Lemma data_worse x y : linked (entries s) x -> linked (entries s) y -> worse (entries s') x y <-> worse (entries s) x y.
Proof using I Hb D Es. intros Hx%data_ne Hy%data_ne. rewrite Es. by apply change_worse. Qed.
Lemma data_old x c : x <> p -> entries s !! x = Some c -> entries s' !! x = Some c.
Proof using Es. intros Hx. rewrite Es. by rewrite change_old. Qed.
Lemma data_new : entries s' !! p = Some b'.
Proof using Es. rewrite Es. apply change_new. Qed.
Lemma data_cases (P : ptr -> CBlockIndex -> Prop) : P p b' -> (forall x c, x <> p -> entries s !! x = Some c -> P x c) -> forall x c, entries s' !! x = Some c -> P x c.
Proof using Es. rewrite Es. apply change_cases. Qed.

Context (Em : mapIndex s' = mapIndex s) (Ec : chainActive s' = chainActive s) (El : setBlockIndexCandidates s' = setBlockIndexCandidates s).
Context (Eh : pindexBestHeader s' = pindexBestHeader s) (Ei : pindexBestInvalid s' = pindexBestInvalid s).

Lemma data_select : select_ok s'.
Proof using I Hb D Es Ec El Ei.
  pose proof data_tree as Htree. destruct (ii_select _ _ _ I) as [A1 A2 A3 A4 A5 A6 A7]. split; rewrite ?Ec, ?El, ?Ei.
  - by apply (same_tree_ok (entries s)).
  - by apply (same_tree_works (entries s)).
  - by apply (same_tree_chain (entries s)).
  - rewrite Es. apply change_sorted; [|done]. intros Hx. destruct (data_ne p); [|done]. by apply A5.
  - intros x Hx. by apply data_linked, A5.
  - intros x c q Hc Hn Hq. apply data_linked. assert (Hl : linked (entries s) x) by (apply data_linked; by exists c).
    destruct Hl as (c0 & Hc0 & Hn0). apply (A6 x c0 q); [done|done|]. rewrite (data_old x c0) in Hc; [congruence|apply data_ne; by exists c0|done].
  - intros x Hx. destruct (A7 x Hx) as [c Hc]. destruct (same_tree_lookup _ _ _ _ Htree Hc) as (c' & Hc' & _). by exists c'.
Qed.

Lemma data_waits q x : waits (entries s) q x -> waits (entries s') q x.
Proof using I Hb D Es.
  intros (c & Hc & Hq & Hd & Hn & Hl). exists c. rewrite data_linked. split_and!; try done. apply data_old; [|done]. intros ->.
  rewrite Hb in Hc. injection Hc as <-. by rewrite (gd_old _ _ D) in Hd.
Qed.
Lemma placed_spec queue waiting : placed (entries s) p b queue waiting ->
  (forall x, x ∈ queue -> ready (entries s') x) /\ (forall q x, (q, x) ∈ waiting -> waits (entries s') q x)
  /\ NoDup (queue ++ map snd waiting) /\ (forall x, x ∈ queue ++ map snd waiting -> x = p)
  /\ (p ∈ queue \/ exists q, pprev b' = Some q /\ ~ linked (entries s') q /\ (marked (entries s') q \/ (q, p) ∈ waiting)).
Proof using I Hb D Es.
  destruct (gd_place _ _ D) as (Ep & _). intros Hpl. setoid_rewrite data_linked. setoid_rewrite data_marked. rewrite <- Ep.
  destruct Hpl as [Hq|q Hq Hl|q Hq Hl Hm]; split_and!; try (by intros ? ?%elem_of_nil); try (by intros ? ? ?%elem_of_nil).
  - intros x ->%list_elem_of_singleton. exists b'. rewrite <- Ep. split_and!; [apply data_new|apply D|apply D|]. intros q Hx. apply data_linked. auto.
  - apply NoDup_singleton.
  - intros x. apply list_elem_of_singleton.
  - left. by apply list_elem_of_singleton.
  - intros q' x [= -> ->]%list_elem_of_singleton. exists b'. rewrite <- Ep, data_linked. split_and!; [apply data_new|done|apply D|apply D|done].
  - apply NoDup_singleton.
  - intros x. apply list_elem_of_singleton.
  - right. exists q. split_and!; [done|done|]. right. by apply list_elem_of_singleton.
  - constructor.
  - right. exists q. auto.
Qed.

Lemma inv_data queue waiting :
  placed (entries s) p b queue waiting -> mapBlocksUnlinked s' = mapBlocksUnlinked s ++ waiting -> (forall x n, total (entries s') x n -> n < 2 ^ 32) ->
  index_inv best queue s'.
Proof using All.
  intros Hpl Eu Hbound. pose proof data_select as Hsel. pose proof data_tree as Htree. destruct (placed_spec _ _ Hpl) as (P1 & P2 & P3 & P3' & P4).
  destruct I as [I1 I2 I3 I4 I5 I6 I7 I8 I9 I10 I11 I12 I13 I14]. split; rewrite ?Ec, ?El, ?Eu; try done.
  - intros h x. by rewrite Em, I2, (place_map s s' Htree).
  - refine (data_cases _ _ _); [|intros x c _ Hc; eauto]. destruct D as [(_ & _ & _ & _ & Hbits & _) D1 [D2 D2'] D3 D4 D5 D6]. split; try congruence.
    rewrite <- Hbits. by apply (I3 p b Hb).
  - by apply (place_work s s').
  - by apply (place_header s s').
  - refine (data_cases _ _ _); [by intros []; apply D|]. intros x c Hx Hc Hn. eapply (linked_total s); [done|by exists c|eauto|].
    intros y d Hl Hd. exists d. split; [|done]. apply data_old; [by apply data_ne|done].
  - intros q x [Hx|Hx]%elem_of_app; [by apply data_waits, I8|auto].
  - rewrite map_app. cbn in I10. assert (Hnew : forall x, x ∈ queue ++ map snd waiting -> x ∉ map snd (mapBlocksUnlinked s)).
    { intros x Hx. apply P3' in Hx as ->. intros Hin.
      apply list_elem_of_fmap in Hin as ([q x] & [= <-] & Hin). destruct (I8 _ _ Hin) as (c & Hc & _ & Hd & _). rewrite Hb in Hc. injection Hc as <-.
      by rewrite (gd_old _ _ D) in Hd. }
    rewrite app_assoc, (Permutation_app_comm queue), <- app_assoc. apply NoDup_app. split_and!; [done|set_solver|done].
  - refine (data_cases _ _ _).
    + intros _ _. destruct P4 as [?|(q & Hq & Hl & Hor)]; [by left|]. right. exists q. split_and!; [done|done|]. destruct Hor; [by left|right; set_solver].
    + intros x c Hx Hc Hd Hn. right. destruct (I11 x c Hc Hd Hn) as [?%elem_of_nil|(q & Hq & Hl & Hor)]; [done|]. exists q.
      rewrite data_linked, data_marked. split_and!; [done|done|]. destruct Hor; [by left|right; set_solver].
  - intros x. rewrite data_linked, data_marked. intros Hl Hn. destruct (I12 x Hl Hn) as [?|(f & Hf & Hw)]; [by left|]. right. exists f.
    split; [done|]. apply data_worse; auto.
  - intros f Hf. rewrite data_linked. auto.
  - intros t Ht. rewrite data_linked. destruct (I14 t Ht) as (Hl & f & Hf & Hor). split; [done|]. exists f. split; [done|].
    destruct Hor; [by left|right; apply data_worse; auto].
Qed.
End data.

(** ** Linking a block *)

Record gets_linked (st : store) (p : ptr) (b b' : CBlockIndex) : Prop := {
  gl_place : same_place b b';
  gl_tx : nTx b' = nTx b;
  gl_status : nStatus b' = nStatus b;
  gl_chaintx : nChainTx b' <> 0;
  gl_total : total st p (nChainTx b')
}.

Section link.
Context (best : option ptr) (queue : list ptr) (s s' : index_state) (p : ptr) (b b' : CBlockIndex).
Context (I : index_inv best (p :: queue) s) (Hb : entries s !! p = Some b) (D : gets_linked (entries s) p b b').
Context (Es : entries s' = <[p := b']> (entries s)).

Lemma link_ready : entry_data b = true /\ nChainTx b = 0 /\ forall q, pprev b = Some q -> linked (entries s) q.
Proof using I Hb. destruct (ii_queue _ _ _ I p) as (c & Hc & H1); [by left|]. rewrite Hb in Hc. by injection Hc as <-. Qed.
Lemma link_ne x : linked (entries s) x -> x <> p.
Proof using I Hb. intros (c & Hc & Hn) ->. destruct link_ready as (_ & H1 & _). congruence. Qed.
Lemma link_new : entries s' !! p = Some b'.
Proof using Es. rewrite Es. apply change_new. Qed.
Lemma link_old x c : x <> p -> entries s !! x = Some c -> entries s' !! x = Some c.
Proof using Es. intros Hx. rewrite Es. by rewrite change_old. Qed.
Lemma link_cases (P : ptr -> CBlockIndex -> Prop) : P p b' -> (forall x c, x <> p -> entries s !! x = Some c -> P x c) -> forall x c, entries s' !! x = Some c -> P x c.
Proof using Es. rewrite Es. apply change_cases. Qed.
Lemma link_failed : entry_failed b' = entry_failed b.
Proof using D. unfold entry_failed. by rewrite (gl_status _ _ _ _ D). Qed.
Lemma link_data : entry_data b' = entry_data b.
Proof using D. unfold entry_data. by rewrite (gl_status _ _ _ _ D). Qed.
Lemma link_marked x : marked (entries s') x <-> marked (entries s) x.
Proof using Hb D Es. rewrite Es. apply (change_marked _ _ b); [done|]. apply link_failed. Qed.
Lemma link_unmarked : ~ marked (entries s) p.
Proof using I Hb.
  intros (c & Hc & Hf). rewrite Hb in Hc. injection Hc as <-. destruct link_ready as (H1 & H2 & _).
  by rewrite (eo_failed b (ii_entry _ _ _ I p b Hb) Hf H2) in H1.
Qed.
Lemma link_linked x : linked (entries s') x <-> x = p \/ linked (entries s) x.
Proof using I Hb D Es.
  destruct (decide (x = p)) as [->|].
  - split; [by left|]. intros _. exists b'. split; [apply link_new|apply D].
  - rewrite Es, change_linked by done. tauto.
Qed.
Lemma link_tree : same_tree (entries s) (entries s').
Proof using Hb D Es. rewrite Es. apply (change_tree _ _ b); [done|apply D]. Qed.
Lemma link_worse x y : linked (entries s) x -> linked (entries s) y -> worse (entries s') x y <-> worse (entries s) x y.
Proof using I Hb Es. intros Hx%link_ne Hy%link_ne. rewrite Es. by apply change_worse. Qed.
Lemma link_total x n : total (entries s) x n <-> total (entries s') x n.
Proof using Hb D Es.
  destruct (gl_place _ _ _ _ D) as (Ep & _). pose proof (gl_tx _ _ _ _ D) as Et. split; induction 1 as [x c Hc Hx|x c q n Hc Hx Ht IH].
  - destruct (decide (x = p)) as [->|]; [|by apply total_root, Hx; apply link_old]. rewrite Hb in Hc. injection Hc as <-. rewrite <- Et.
    apply total_root; [apply link_new|congruence].
  - destruct (decide (x = p)) as [->|]; [|by eapply total_next; [apply link_old| |]]. rewrite Hb in Hc. injection Hc as <-. rewrite <- Et.
    eapply total_next; [apply link_new|by rewrite <- Ep|done].
  - destruct (decide (x = p)) as [->|Hne]; [|rewrite Es, change_old in Hc by done; by apply total_root]. rewrite link_new in Hc. injection Hc as <-. rewrite Et.
    apply total_root; [done|congruence].
  - destruct (decide (x = p)) as [->|Hne]; [|rewrite Es, change_old in Hc by done; by eapply total_next]. rewrite link_new in Hc. injection Hc as <-. rewrite Et.
    eapply total_next; [done|by rewrite Ep|done].
Qed.

Context (Em : mapIndex s' = mapIndex s) (Ec : chainActive s' = chainActive s).
Context (Eh : pindexBestHeader s' = pindexBestHeader s) (Ei : pindexBestInvalid s' = pindexBestInvalid s).
Context (Hl1 : sorted (entries s') (setBlockIndexCandidates s')).
Context (Hl2 : forall x, x ∈ setBlockIndexCandidates s' -> x = p \/ x ∈ setBlockIndexCandidates s).
Context (Hl3 : forall x, x ∈ setBlockIndexCandidates s -> x ∈ setBlockIndexCandidates s').
Context (Hl4 : p ∈ setBlockIndexCandidates s' \/ exists t, Tip (chainActive s) = Some t /\ worse (entries s') p t).

Lemma link_select : select_ok s'.
Proof using All.
  pose proof link_tree as Htree. destruct (ii_select _ _ _ I) as [A1 A2 A3 A4 A5 A6 A7]. split; rewrite ?Ec, ?Ei.
  - by apply (same_tree_ok (entries s)).
  - by apply (same_tree_works (entries s)).
  - by apply (same_tree_chain (entries s)).
  - done.
  - intros x Hx. apply link_linked. destruct (Hl2 x Hx) as [->|Hc]; [by left|right; by apply A5].
  - intros x c q Hc. revert x c Hc. refine (link_cases _ _ _).
    + intros _ Hq. apply link_linked. right. apply link_ready. by destruct (gl_place _ _ _ _ D) as (-> & _).
    + intros x c Hx Hc Hn Hq. apply link_linked. right. by apply (A6 x c q).
  - intros x Hx. destruct (A7 x Hx) as [c Hc]. destruct (same_tree_lookup _ _ _ _ Htree Hc) as (c' & Hc' & _). by exists c'.
Qed.

Abbreviation unlinked := (mapBlocksUnlinked s).
Abbreviation waiting := (map snd (filter (fun e : ptr * ptr => fst e = p) unlinked)).
Context (Eu : mapBlocksUnlinked s' = filter (fun e => fst e <> p) unlinked).

Lemma link_other x : x ∈ queue \/ x ∈ map snd unlinked -> x <> p.
Proof using I.
  intros Hx ->. pose proof (ii_once _ _ _ I) as Hn. cbn in Hn. apply NoDup_cons in Hn as [Hn _]. apply Hn. by apply elem_of_app.
Qed.
Lemma link_split : map snd unlinked ≡ₚ waiting ++ map snd (mapBlocksUnlinked s').
Proof using Eu.
  rewrite Eu, <- map_app. apply Permutation_map. clear Eu. induction unlinked as [|e l IH]; [done|]. rewrite !filter_cons.
  destruct (decide (fst e = p)) as [He|He]; destruct (decide (fst e <> p)) as [Hn|Hn]; [done|exact (perm_skip e IH)| |done].
  rewrite <- Permutation_middle. exact (perm_skip e IH).
Qed.
Lemma elem_waiting x : x ∈ waiting <-> (p, x) ∈ unlinked.
Proof using.
  rewrite list_elem_of_fmap. split.
  - intros ([q y] & -> & [Hq Hy]%list_elem_of_filter). cbn in *. by subst.
  - intros Hx. exists (p, x). by rewrite list_elem_of_filter.
Qed.
Lemma link_queue_ready x : x ∈ queue ++ waiting -> ready (entries s') x.
Proof using I Hb D Es.
  intros [Hx|Hx]%elem_of_app.
  - destruct (ii_queue _ _ _ I x) as (c & Hc & H1 & H2 & H3); [by right|]. exists c. split_and!; [apply link_old; [apply link_other; auto|done]|done|done|].
    intros q Hq. rewrite link_linked. auto.
  - apply elem_waiting in Hx. destruct (ii_waits _ _ _ I _ _ Hx) as (c & Hc & Hq & Hd & Hn & _). exists c. split_and!; [|done|done|].
    + apply link_old; [|done]. apply link_other. right. apply list_elem_of_fmap. by exists (p, x).
    + intros q. rewrite Hq. intros [= <-]. rewrite link_linked. by left.
Qed.

Lemma inv_link : index_inv best (queue ++ waiting) s'.
Proof using All.
  pose proof link_select as Hsel. pose proof link_tree as Htree. pose proof link_split as Hsplit. pose proof link_queue_ready as Hready.
  destruct I as [I1 I2 I3 I4 I5 I6 I7 I8 I9 I10 I11 I12 I13 I14]. split; rewrite ?Ec; try done.
  - intros h x. by rewrite Em, I2, (place_map s s' Htree).
  - refine (link_cases _ _ _); [|intros x c _ Hc; eauto]. destruct (I3 p b Hb) as [E1 E2 E3 E4 E5]. destruct D as [(_ & _ & _ & _ & Hbits & _) D1 D2 D3 D4].
    split; rewrite ?link_data, ?D1, ?D2, <- ?Hbits; try done. intros Hd. destruct link_ready. congruence.
  - by apply (place_work s s').
  - by apply (place_header s s').
  - refine (link_cases _ _ _); [intros _|intros x c Hx Hc Hn]; rewrite <- link_total; [apply D|by apply (I6 x c)].
  - intros x n. rewrite <- link_total. apply I7.
  - intros q x Hx. rewrite Eu in Hx. apply list_elem_of_filter in Hx as [Hq Hx]. destruct (I8 q x Hx) as (c & Hc & H1 & H2 & H3 & H4). exists c.
    split_and!; [apply link_old; [|done]|done|done|done|rewrite link_linked; intros [->|?]; done].
    apply link_other. right. apply list_elem_of_fmap. by exists (q, x).
  - rewrite <- app_assoc, <- Hsplit. cbn in I10. by apply NoDup_cons in I10 as [_ I10].
  - refine (link_cases _ _ _); [by intros _ ?; destruct (gl_chaintx _ _ _ _ D)|]. intros x c Hx Hc Hd Hn.
    destruct (I11 x c Hc Hd Hn) as [[->|Hq]%elem_of_cons|(q & Hq & Hl & Hor)]; [done|left; by apply elem_of_app; left|].
    destruct (decide (q = p)) as [->|Hqp].
    + left. apply elem_of_app. right. apply elem_waiting. destruct Hor as [Hm|]; [by destruct link_unmarked|done].
    + right. exists q. rewrite link_linked, link_marked. split_and!; [done|by intros [?|?]|]. destruct Hor as [?|Hin]; [by left|right].
      rewrite Eu. by apply list_elem_of_filter.
  - intros x. rewrite link_linked, link_marked. intros [->|Hl] Hn.
    + destruct Hl4 as [?|(t & Ht & Hw)]; [by left|]. right. destruct (I14 t Ht) as (Hlt & f & Hf & Hor). exists f. split; [done|].
      destruct Hor as [->|Hor]; [done|]. eapply worse_trans; [done|]. apply link_worse; auto.
    + destruct (I12 x Hl Hn) as [?|(f & Hf & Hw)]; [left; auto|]. right. exists f. split; [done|]. apply link_worse; auto.
  - intros f Hf. rewrite link_linked. auto.
  - intros t Ht. rewrite link_linked. destruct (I14 t Ht) as (Hl & f & Hf & Hor). split; [auto|]. exists f. split; [done|].
    destruct Hor; [by left|right; apply link_worse; auto].
Qed.
End link.

(** *** The queue *)

Lemma total_nonneg best queue s p n : index_inv best queue s -> total (entries s) p n -> 0 <= n.
Proof.
  intros I. assert (Htx : forall x b, entries s !! x = Some b -> 0 <= nTx b).
  { intros x b Hb. pose proof (ii_entry _ _ _ I x b Hb) as Hok. destruct (entry_data b) eqn:E; [pose proof (eo_data b Hok E)|pose proof (eo_header b Hok E)]; lia. }
  induction 1 as [x b Hb _|x b q n Hb _ _ IH]; specialize (Htx x b Hb); lia.
Qed.

Lemma totals_spec best queue s p b :
  index_inv best (p :: queue) s -> entries s !! p = Some b ->
  exists prev, deref_prev (entries s) b = Ok prev /\ gets_linked (entries s) p b (chain_totals prev b).
Proof.
  intros I Hb. destruct (link_ready best queue s p b I Hb) as (Hd & Hn & Hl). pose proof (eo_data b (ii_entry _ _ _ I p b Hb) Hd) as Htx.
  unfold deref_prev. destruct (pprev b) as [q|] eqn:Eq.
  - destruct (Hl q eq_refl) as (bq & Hq & Hnq). rewrite (deref_Some _ _ _ Hq). cbn [bindR]. exists (Some bq). split; [done|].
    pose proof (ii_total _ _ _ I q bq Hq Hnq) as Htot. pose proof (total_nonneg _ _ _ _ _ I Htot) as Hpos.
    assert (Htot' : total (entries s) p (nChainTx bq + nTx b)) by (by eapply total_next). pose proof (ii_bound _ _ _ I _ _ Htot') as Hlt.
    assert (E : nChainTx (chain_totals (Some bq) b) = nChainTx bq + nTx b) by (cbn; apply wrap_small; unfold uint; lia).
    split; try done; rewrite E; [lia|done].
  - exists None. split; [done|]. split; try done; cbn; [lia|by apply total_root].
Qed.

Lemma fallback_spec o st p b b1 : gets_linked st p b b1 ->
  (FallbackSproutValuePoolBalance o b1 = Err AssertFailed /\ ZIP209Enabled o = true)
  \/ exists b2, FallbackSproutValuePoolBalance o b1 = Ok b2 /\ gets_linked st p b b2.
Proof.
  intros G. unfold FallbackSproutValuePoolBalance. destruct (ZIP209Enabled o); cbn [negb]; [|eauto].
  destruct (fExperimentalDeveloperSetPoolSizeZero o); [eauto|]. destruct (_ && _); [|eauto].
  destruct (nChainSproutValue b1) as [v|].
  - destruct (v =? _); [|auto]. destruct (bool_decide _); [eauto|auto].
  - right. eexists. split; [done|]. destruct G as [G1 G2 G3 G4 G5]. by split.
Qed.

Lemma link_candidates best queue s p b b' :
  index_inv best (p :: queue) s -> entries s !! p = Some b -> gets_linked (entries s) p b b' ->
  let st := <[p := b']> (entries s) in
  exists w l, (match Tip (chainActive s) with None => Ok false | Some tip => CBlockIndexWorkComparator st p tip end) = Ok w
    /\ (if w : bool then Ok (setBlockIndexCandidates s) else set_insert st p (setBlockIndexCandidates s)) = Ok l
    /\ sorted st l /\ (forall x, x ∈ l -> x = p \/ x ∈ setBlockIndexCandidates s) /\ (forall x, x ∈ setBlockIndexCandidates s -> x ∈ l)
    /\ (p ∈ l \/ exists t, Tip (chainActive s) = Some t /\ worse st p t).
Proof.
  intros I Hb G st. pose proof (ii_select _ _ _ I) as Hok. pose proof (change_tree _ _ _ _ Hb (gl_place _ _ _ _ G)) as Htree. fold st in Htree.
  pose proof (same_tree_works _ _ Htree (so_works s Hok)) as Hworks.
  assert (Hnew : st !! p = Some b') by apply lookup_insert_eq.
  assert (Hin : forall x, linked (entries s) x -> in_store st x).
  { intros x (c & Hc & _). destruct (same_tree_lookup _ _ _ _ Htree Hc) as (c' & Hc' & _). by exists c'. }
  assert (Hs1 : sorted st (setBlockIndexCandidates s)).
  { apply change_sorted; [|apply Hok]. intros Hp. by destruct (link_ne best queue s p b I Hb p (so_candidates s Hok p Hp)). }
  destruct (set_insert_spec st p (setBlockIndexCandidates s)) as (l & El & Hs & Hl); [done|by exists b'| |done|].
  { apply Forall_forall. intros x Hx. apply Hin. by apply (so_candidates s Hok). }
  assert (Hin' : forall x, x ∈ l -> x = p \/ x ∈ setBlockIndexCandidates s) by apply Hl.
  assert (Hout : forall x, x ∈ setBlockIndexCandidates s -> x ∈ l) by (intros; apply Hl; auto). assert (Hp : p ∈ l) by (apply Hl; auto).
  destruct (Tip (chainActive s)) as [t|] eqn:Et; [|exists false, l; by auto 10].
  destruct (Hin t) as [bt Hbt]; [by apply (ii_tip _ _ _ I)|]. rewrite (Comparator_spec _ p t b' bt Hworks Hnew Hbt).
  destruct (bool_decide_reflect (worse st p t)); [eexists true, _; by eauto 10|exists false, l; by auto 10].
Qed.

Lemma link_block_spec o best queue s p : index_inv best (p :: queue) s ->
  (link_block o s p = Err AssertFailed /\ ZIP209Enabled o = true)
  \/ exists s' waiting, link_block o s p = Ok (s', waiting) /\ index_inv best (queue ++ waiting) s'
     /\ (length waiting + length (mapBlocksUnlinked s') = length (mapBlocksUnlinked s))%nat.
Proof.
  intros I. destruct (ii_queue _ _ _ I p) as (b & Hb & _); [by left|]. unfold link_block. rewrite (deref_Some _ _ _ Hb). cbn [bindR].
  destruct (totals_spec best queue s p b I Hb) as (prev & -> & G). cbn [bindR].
  destruct (fallback_spec o (entries s) p b (chain_totals prev b) G) as [[-> Ho]|(b2 & -> & G2)]; [by left|]. cbn [bindR]. right.
  set (b3 := set_totals b2 _ _ _ _). assert (G3 : gets_linked (entries s) p b b3) by (destruct G2; by split).
  destruct (link_candidates best queue s p b b3 I Hb G3) as (w & l & Ew & El & L1 & L2 & L3 & L4).
  set (s1 := set_sequence _ _). change (chainActive s1) with (chainActive s). change (entries s1) with (<[p := b3]> (entries s)).
  change (setBlockIndexCandidates s1) with (setBlockIndexCandidates s). change (mapBlocksUnlinked s1) with (mapBlocksUnlinked s).
  rewrite Ew. cbn [bindR]. rewrite El. cbn [bindR].
  set (s' := set_unlinked _ _). exists s'. eexists. split; [reflexivity|]. split; [by apply (inv_link best queue s s' p b b3)|].
  rewrite <- (length_map snd (mapBlocksUnlinked s)), (Permutation_length (link_split s s' p eq_refl)), length_app, !length_map. done.
Qed.

Lemma link_queue_spec o fuel best queue s : index_inv best queue s -> (length queue + length (mapBlocksUnlinked s) <= fuel)%nat ->
  (link_queue fuel o s queue = Err AssertFailed /\ ZIP209Enabled o = true) \/ exists s', link_queue fuel o s queue = Ok s' /\ index_inv best [] s'.
Proof.
  revert queue s. induction fuel as [|fuel IH]; intros [|p queue] s I Hf; cbn [link_queue]; [eauto|cbn in Hf; lia|eauto|].
  destruct (link_block_spec o best queue s p I) as [[-> Ho]|(s1 & w & -> & I1 & Hlen)]; [by left|]. cbn [bindR].
  apply IH; [done|]. cbn in Hf. rewrite length_app. lia.
Qed.

(** *** Arrival of the data *)

Lemma data_total s p b b' x m :
  tree_ok (entries s) -> entries s !! p = Some b -> nTx b = 0 -> pprev b' = pprev b -> total (<[p := b']> (entries s)) x m ->
  exists c, entries s !! x = Some c /\ (nHeight c < nHeight b -> total (entries s) x m)
    /\ exists m0, total (entries s) x m0 /\ (m = m0 \/ m = m0 + nTx b').
Proof.
  intros Ht Hb H0 Hp. induction 1 as [x c Hc Hx|x c q n Hc Hx Hq IH]; destruct (decide (x = p)) as [->|Hne].
  - rewrite lookup_insert_eq in Hc. injection Hc as <-. exists b. split_and!; [done|lia|]. exists (nTx b). split; [apply total_root; [done|congruence]|lia].
  - rewrite lookup_insert_ne in Hc by done. exists c. split_and!; [done|by intros; apply total_root|]. exists (nTx c). split; [by apply total_root|by left].
  - rewrite lookup_insert_eq in Hc. injection Hc as <-. exists b. split_and!; [done|lia|]. destruct IH as (cq & Hcq & Hlow & _). rewrite Hp in Hx.
    exists (n + nTx b). split; [|lia]. eapply total_next; [done|done|]. apply Hlow. destruct (Ht p b Hb) as (_ & Hprev & _). unfold prev_ok in Hprev.
    rewrite Hx in Hprev. destruct Hprev as (? & ? & ?). assert (x = cq) as -> by congruence. lia.
  - rewrite lookup_insert_ne in Hc by done. destruct IH as (cq & Hcq & Hlow & m0 & Hm0 & Hor). exists c. split_and!; [done| |].
    + intros Hh. eapply total_next; [done|done|]. apply Hlow. destruct (Ht x c Hc) as (_ & Hprev & _). unfold prev_ok in Hprev.
      rewrite Hx in Hprev. destruct Hprev as (d & ? & ?). assert (d = cq) as -> by congruence. lia.
    + exists (m0 + nTx c). split; [by eapply total_next|lia].
Qed.

Lemma tree_total st p b : tree_ok st -> st !! p = Some b -> exists n, total st p n.
Proof.
  intros Ht. remember (Z.to_nat (nHeight b)) as h eqn:Eh. revert p b Eh. induction h as [h IH] using lt_wf_ind. intros p b Eh Hp.
  destruct (Ht p b Hp) as (H0 & Hprev & _). unfold prev_ok in Hprev. destruct (pprev b) as [q|] eqn:Eq; [|eexists; by apply total_root].
  destruct Hprev as (bq & Hq & Hh). pose proof (height_nonneg st Ht q bq Hq). destruct (IH (Z.to_nat (nHeight bq)) ltac:(lia) q bq eq_refl Hq) as (n & Hn).
  eexists. by eapply total_next.
Qed.

(** The status of a block that gets its data. *)
Lemma data_status b n sprout sapling pos :
  entry_failed b = false -> exists b', RaiseValidity (set_data b n sprout sapling pos) BLOCK_VALID_TRANSACTIONS = Ok b'
    /\ same_place b (snd b') /\ nTx (snd b') = n /\ nChainTx (snd b') = 0 /\ entry_data (snd b') = true /\ entry_failed (snd b') = false
    /\ BLOCK_VALID_TRANSACTIONS <= Z.land (nStatus (snd b')) BLOCK_VALID_MASK.
Proof.
  intros Hf. unfold entry_failed in Hf. apply negb_false_iff, Z.eqb_eq in Hf. unfold RaiseValidity.
  change (valid_level BLOCK_VALID_TRANSACTIONS) with true. cbn [set_data nStatus].
  assert (Hf' : Z.land (Z.lor (nStatus b) BLOCK_HAVE_DATA) BLOCK_FAILED_MASK = 0) by (by rewrite Z.land_lor_distr_l, Hf).
  assert (Hd' : Z.land (Z.lor (nStatus b) BLOCK_HAVE_DATA) BLOCK_HAVE_DATA = BLOCK_HAVE_DATA) by (apply Z.bits_inj; intros i; rewrite Z.land_spec, Z.lor_spec; by destruct (Z.testbit (nStatus b) i), (Z.testbit BLOCK_HAVE_DATA i)).
  rewrite Hf'. cbn [Z.eqb negb]. eexists. split; [reflexivity|].
  destruct (Z.ltb_spec (Z.land (Z.lor (nStatus b) BLOCK_HAVE_DATA) BLOCK_VALID_MASK) BLOCK_VALID_TRANSACTIONS); cbn [snd].
  - split_and!; try done; unfold entry_data, entry_failed; cbn [set_status set_data nStatus].
    + rewrite Z.land_lor_distr_l, <- Z.land_assoc. change (Z.land (to_u32 (Z.lnot BLOCK_VALID_MASK)) BLOCK_HAVE_DATA) with BLOCK_HAVE_DATA. by rewrite Hd'.
    + rewrite Z.land_lor_distr_l, <- Z.land_assoc. change (Z.land (to_u32 (Z.lnot BLOCK_VALID_MASK)) BLOCK_FAILED_MASK) with BLOCK_FAILED_MASK. by rewrite Hf'.
    + rewrite Z.land_lor_distr_l, <- Z.land_assoc. change (Z.land (to_u32 (Z.lnot BLOCK_VALID_MASK)) BLOCK_VALID_MASK) with 0. by rewrite Z.land_0_r.
  - split_and!; try done; unfold entry_data, entry_failed; cbn [set_data nStatus]; [by rewrite Hd'|by rewrite Hf'].
Qed.

Lemma inv_receive o best s vtx p pos b :
  index_inv best [] s -> entries s !! p = Some b -> entry_data b = false -> entry_failed b = false -> vtx <> [] ->
  (forall x m, total (entries s) x m -> m + length vtx < 2 ^ 32) ->
  (ReceivedBlockTransactions o s vtx p pos = Err AssertFailed /\ ZIP209Enabled o = true)
  \/ exists s', ReceivedBlockTransactions o s vtx p pos = Ok s' /\ index_inv best [] s'.
Proof.
  intros I Hb Hd Hf Hv Hroom. pose proof (ii_select _ _ _ I) as Hok. pose proof (so_tree s Hok) as Ht.
  destruct (eo_header b (ii_entry _ _ _ I p b Hb) Hd) as [T0 _].
  assert (Hlen : to_u32 (length vtx) = length vtx).
  { destruct (tree_total _ p b Ht Hb) as (n & Hn). specialize (Hroom p n Hn). pose proof (total_nonneg _ _ _ _ _ I Hn). apply wrap_small. unfold uint. lia. }
  unfold ReceivedBlockTransactions. rewrite (deref_Some _ _ _ Hb). cbn [bindR]. destruct (block_values vtx) as [sprout sapling].
  destruct (data_status b (to_u32 (length vtx)) sprout sapling pos Hf) as ([r b1] & -> & G1 & G2 & G3 & G4 & G5 & G6). cbn [bindR snd] in *.
  assert (D : gets_data b b1).
  { split; try done; [rewrite G2, Hlen; destruct vtx; [done|cbn; lia]|]. unfold BLOCK_VALID_TRANSACTIONS, BLOCK_VALID_TREE in *. lia. }
  set (s1 := set_dirty _ _). assert (Es : entries s1 = <[p := b1]> (entries s)) by done.
  assert (Hbound : forall x m, total (entries s1) x m -> m < 2 ^ 32).
  { intros x m Hm. destruct G1 as (Gp & _). destruct (data_total s p b b1 x m Ht Hb T0 ltac:(done) Hm) as (_ & _ & _ & m0 & Hm0 & Hor).
    specialize (Hroom x m0 Hm0). rewrite G2, Hlen in Hor. lia. }
  pose proof G1 as (Gp & _). unfold deref_prev. rewrite <- Gp. pose proof (Ht p b Hb) as (_ & Hprev & _). unfold prev_ok in Hprev.
  assert (Hstart : (forall q, pprev b = Some q -> linked (entries s) q) -> index_inv best [p] s1).
  { intros Hq. apply (inv_data best s s1 p b b1 I Hb D Es eq_refl eq_refl eq_refl eq_refl eq_refl [p] []); [by constructor|by rewrite app_nil_r|done]. }
  destruct (pprev b) as [q|] eqn:Eq; [|apply link_queue_spec; [by apply Hstart|cbn; lia]].
  destruct Hprev as (bq & Hq & Hh). assert (Hqp : q <> p) by (intros ->; rewrite Hb in Hq; injection Hq as <-; lia).
  assert (Hq1 : entries s1 !! q = Some bq) by (rewrite Es; by rewrite lookup_insert_ne). rewrite (deref_Some _ _ _ Hq1). cbn [bindR].
  destruct (Z.eqb_spec (nChainTx bq) 0) as [E0|E0]; cbn [negb].
  - right. assert (Hnl : ~ linked (entries s) q) by (intros (c & Hc & Hn); congruence). unfold IsValid. change (valid_level BLOCK_VALID_TREE) with true. cbn [bindR].
    fold (entry_failed bq). eexists. split; [reflexivity|]. destruct (entry_failed bq) eqn:Efq.
    + apply (inv_data best s s1 p b b1 I Hb D Es eq_refl eq_refl eq_refl eq_refl eq_refl [] []); [|by rewrite app_nil_r|done].
      apply placed_invalid with q; [done|done|by exists bq].
    + rewrite (proj2 (Z.leb_le _ _) (eo_level bq (ii_entry _ _ _ I q bq Hq))).
      apply (inv_data best s (set_unlinked s1 (mapBlocksUnlinked s1 ++ [(q, p)])) p b b1 I Hb D Es eq_refl eq_refl eq_refl eq_refl eq_refl [] [(q, p)]); [by apply placed_waiting|done|done].
  - apply link_queue_spec; [|cbn; lia]. apply Hstart. intros q' [= <-]. by exists bq.
Qed.

(** ** Connecting a block *)

(** What [ConnectBlock] records in the entry keeps its place and its data, and
    adds no failure flag. *)
Definition noted (b b' : CBlockIndex) : Prop := evolves b b' /\ entry_failed b' = entry_failed b.

Lemma noted_refl b : noted b b.
Proof. split; [apply evolves_refl|done]. Qed.
Lemma noted_trans a b c : noted a b -> noted b c -> noted a c.
Proof.
  intros [[A1 A2 A3 A4 A5 A6 A7] A8] [[B1 B2 B3 B4 B5 B6 B7] B8]. split; [|congruence].
  split; try congruence; [by eapply same_place_trans|lia].
Qed.
(** Flags outside of the masks of failure, data and validity. *)
Lemma noted_status b b' f :
  same_place b b' -> nTx b' = nTx b -> nChainTx b' = nChainTx b -> nSequenceId b' = nSequenceId b -> nStatus b' = Z.lor (nStatus b) f ->
  Z.land f (Z.lor (Z.lor BLOCK_FAILED_MASK BLOCK_HAVE_DATA) BLOCK_VALID_MASK) = 0 -> noted b b'.
Proof.
  intros H1 H2 H3 H4 Hs Hf. rewrite !Z.land_lor_distr_r, !Z.lor_eq_0_iff in Hf. destruct Hf as [[F1 F2] F3].
  assert (E1 : entry_failed b' = entry_failed b) by (unfold entry_failed; by rewrite Hs, Z.land_lor_distr_l, F1, Z.lor_0_r).
  split; [split; try done|done].
  - unfold entry_data. by rewrite Hs, Z.land_lor_distr_l, F2, Z.lor_0_r.
  - by rewrite E1.
  - by rewrite Hs, Z.land_lor_distr_l, F3, Z.lor_0_r.
Qed.
Lemma noted_raise b r b' level : RaiseValidity b level = Ok (r, b') -> Z.land level BLOCK_VALID_MASK = level -> 0 <= level -> noted b b'.
Proof.
  unfold RaiseValidity. destruct (valid_level level); [|done]. intros E Hl H0. injection E as E.
  destruct (negb _); [injection E as _ <-; apply noted_refl|].
  destruct (Z.ltb_spec (Z.land (nStatus b) BLOCK_VALID_MASK) level); injection E as _ <-; [|apply noted_refl].
  assert (Hm : forall m, Z.land BLOCK_VALID_MASK m = 0 -> Z.land (to_u32 (Z.lnot BLOCK_VALID_MASK)) m = m ->
    Z.land (Z.lor (Z.land (nStatus b) (to_u32 (Z.lnot BLOCK_VALID_MASK))) level) m = Z.land (nStatus b) m).
  { intros m M1 M2. rewrite Z.land_lor_distr_l, <- Z.land_assoc, M2, <- Hl, <- Z.land_assoc, M1, Z.land_0_r. apply Z.lor_0_r. }
  split; [split; try done|]; unfold entry_data, entry_failed; cbn [set_status nStatus]; rewrite ?Hm by done; try done.
  rewrite Z.land_lor_distr_l, Hl, <- Z.land_assoc. change (Z.land (to_u32 _) BLOCK_VALID_MASK) with 0. rewrite Z.land_0_r, Z.lor_0_l. lia.
Qed.
Lemma noted_roots b anchor final : noted b (set_sprout_roots b anchor final).
Proof. by apply (noted_status _ _ 0); [..|cbn; by rewrite Z.lor_0_r|]. Qed.
Lemma noted_validity write_undo n params b undo b' w : record_validity write_undo n params b undo = Ok (b', w) -> noted b b'.
Proof.
  unfold record_validity. intros (valid & _ & E)%bindR_Ok. destruct (_ || _); [|injection E as <- _; apply noted_refl].
  apply bindR_Ok in E as ([b1 w1] & E1 & E). apply bindR_Ok in E as (b2 & E2 & E). apply bindR_Ok in E as ([r b3] & E3 & [= <- _]).
  apply of_chain_Ok in E3. apply (noted_trans _ b1); [|apply (noted_trans _ b2); [|by eapply noted_raise]].
  - destruct (disk_pos_IsNull _); [|injection E1 as <- _; apply noted_refl]. destruct (write_undo undo); [|done]. injection E1 as <- _.
    by apply (noted_status _ _ BLOCK_HAVE_UNDO).
  - destruct (IsActivationHeightForAnyUpgrade _ _).
    + apply bindR_Ok in E2 as (br & _ & [= <-]). by apply (noted_status _ _ BLOCK_ACTIVATES_UPGRADE).
    + destruct (pprev b1); [|injection E2 as <-; apply noted_refl]. apply bindR_Ok in E2 as (prev & _ & [= <-]).
      by apply (noted_status _ _ 0); [..|cbn; by rewrite Z.lor_0_r|].
Qed.

Lemma inv_noted best queue s p b b' : index_inv best queue s -> entries s !! p = Some b -> noted b b' -> index_inv best queue (set_entry s p b').
Proof.
  intros I Hb [He Hf]. pose proof (evolve_insert _ _ _ _ Hb He) as Hev. pose proof (evolve_tree _ _ Hev) as Htree. pose proof (ii_select _ _ _ I) as Hok.
  apply (inv_evolve best queue s); [done| |done|done|by left|].
  - destruct Hok as [A1 A2 A3 A4 A5 A6 A7]. split; cbn.
    + by apply (same_tree_ok (entries s)).
    + by apply (same_tree_works (entries s)).
    + by apply (same_tree_chain (entries s)).
    + apply (sorted_ext (entries s)); [intros; by apply (evolve_worse _ _ Hev)|done].
    + intros x Hx. by apply (evolve_linked _ _ Hev), A5.
    + intros x c q Hc Hn Hq. apply (evolve_linked _ _ Hev). destruct (evolve_lookup_inv _ _ _ _ Hev Hc) as (c0 & Hc0 & Hx).
      rewrite (ev_chaintx _ _ Hx) in Hn. apply (A6 x c0 q Hc0 Hn). by destruct (ev_place _ _ Hx) as (-> & _).
    + intros x Hx. destruct (A7 x Hx) as [c Hc]. destruct (evolve_lookup _ _ _ _ Hev Hc) as (c' & Hc' & _). by exists c'.
  - intros x c Hc (c' & Hc' & Hm). left. destruct (decide (x = p)) as [->|]; [|cbn in Hc'; rewrite lookup_insert_ne in Hc' by done; congruence].
    cbn in Hc'. rewrite lookup_insert_eq in Hc'. injection Hc' as <-. rewrite Hb in Hc. injection Hc as <-. congruence.
Qed.

(** ** Reachable block indexes *)

(** All blocks of the chain that ends in [p] have arrived and none is marked as
    failed. *)
Inductive available (st : store) (p : ptr) : Prop :=
| available_block b : st !! p = Some b -> entry_data b = true -> entry_failed b = false ->
    (forall q, pprev b = Some q -> available st q) -> available st p.

(** What changes the block index; the best tip the chain has had goes along. *)
Inductive index_step (o : pool_checkpoint) : option ptr * index_state -> option ptr * index_state -> Prop :=
| step_header best s p block hash s' q :
    entries s !! p = None -> uint 32 (hb_nBits block) -> header_GetHash block = Ok hash -> hb_hashPrevBlock block <> hash ->
    AddToBlockIndex s p block = Ok (s', q) -> index_step o (best, s) (best, s')
| step_data best s vtx p pos b s' :
    entries s !! p = Some b -> entry_data b = false -> entry_failed b = false -> vtx <> [] ->
    (forall x m, total (entries s) x m -> m + length vtx < 2 ^ 32) ->
    ReceivedBlockTransactions o s vtx p pos = Ok s' -> index_step o (best, s) (best, s')
| step_reject best s p b s' :
    entries s !! p = Some b -> entry_data b = false -> reject_block s p = Ok s' -> index_step o (best, s) (best, s')
| step_search best s s' r : FindMostWorkChain s = Ok (s', r) -> index_step o (best, s) (best, s')
| step_connected best s p b b' : entries s !! p = Some b -> noted b b' -> index_step o (best, s) (best, set_entry s p b')
| step_invalid best s p corruption s' :
    linked (entries s) p -> InvalidBlockFound s p corruption = Ok s' -> index_step o (best, s) (best, s')
| step_tip best s t c :
    linked (entries s) t -> SetTip (entries s) (chainActive s) (Some t) = Ok c -> index_step o (best, s) (raise_best (entries s) best t, set_chain s c)
| step_prune best s s' : PruneBlockIndexCandidates s = Ok s' -> index_step o (best, s) (best, s').

Definition empty_index : index_state := IndexState ∅ ∅ [] [] [] None None 1 ∅.

Lemma inv_empty : index_inv None [] empty_index.
Proof.
  split; try done; cbn.
  - split; cbn; try done; [by left|constructor|by intros ? ?%elem_of_nil].
  - intros h p. rewrite lookup_empty. split; [done|by intros (b & Hb & _)].
  - intros p n Hn. by destruct Hn.
  - by intros ? ? ?%elem_of_nil.
  - by intros ? ?%elem_of_nil.
  - constructor.
  - by intros p (b & Hb & _).
Qed.

Lemma inv_step o x y : index_step o x y -> index_inv (fst x) [] (snd x) -> index_inv (fst y) [] (snd y).
Proof.
  destruct 1 as [best s p block hash s' q H1 H2 H3 H4 E|best s vtx p pos b s' H1 H2 H3 H4 H5 E|best s p b s' H1 H2 E|best s s' r E|best s p b b' H1 H2
    |best s p corruption s' H1 E|best s t c H1 E|best s s' E]; cbn [fst snd]; intros I.
  - destruct (inv_add best [] s p block hash I H1 H2 H3 H4) as (s1 & q1 & E1 & I1 & _). congruence.
  - destruct (inv_receive o best s vtx p pos b I H1 H2 H3 H4 H5) as [[E1 _]|(s1 & E1 & I1)]; congruence.
  - by apply (inv_reject best [] s s' p b).
  - destruct (inv_search best [] s I) as (s1 & r1 & E1 & I1). congruence.
  - by apply (inv_noted best [] s p b).
  - by apply (inv_invalid best [] s s' p corruption).
  - by apply inv_tip.
  - by apply (inv_prune best [] s).
Qed.
Lemma inv_reachable o best s : rtc (index_step o) (None, empty_index) (best, s) -> index_inv best [] s.
Proof.
  intros Hr. refine (rtc_ind_r (fun y => index_inv (fst y) [] (snd y)) (None, empty_index) inv_empty _ (best, s) Hr). intros y z _ Hz. by eapply inv_step.
Qed.

Lemma available_linked best s p : index_inv best [] s -> available (entries s) p -> linked (entries s) p /\ ~ marked (entries s) p.
Proof.
  intros I Ha. induction Ha as [p b Hb Hd Hf Hq IH]. split; [|intros (c & Hc & Hm); congruence].
  exists b. split; [done|]. intros Hn. destruct (ii_kept _ _ _ I p b Hb Hd Hn) as [?%elem_of_nil|(q & Eq & Hl & _)]; [done|].
  by destruct (IH q Eq).
Qed.
Lemma available_walk st p k q : available st p -> walk st k p = Some q -> available st q.
Proof.
  intros Ha. revert q. induction k as [|k IH]; intros q Hw; [by injection Hw as <-|].
  destruct (walk_S_inv _ _ _ _ Hw) as (r & c & Hr & Hc & Hq). destruct (IH r Hr) as [c' Hc' _ _ Hprev]. apply Hprev. congruence.
Qed.
Lemma available_usable st c p : available st p -> usable st c p.
Proof. intros Ha k q b Hw _ Hb. destruct (available_walk _ _ _ _ Ha Hw) as [b' Hb' Hd Hf _]. by replace b with b' by congruence. Qed.

Lemma search_best best s q : index_inv best [] s -> available (entries s) q ->
  (forall f, best = Some f -> worse (entries s) q f -> available (entries s) f) ->
  exists q', q' ∈ setBlockIndexCandidates s /\ available (entries s) q' /\ (q = q' \/ worse (entries s) q q').
Proof.
  intros I Ha Hbest. destruct (available_linked best s q I Ha) as [Hl Hm].
  destruct (ii_complete _ _ _ I q Hl Hm) as [Hq|(f & Hf & Hw)]; [by exists q; auto|].
  pose proof (Hbest f Hf Hw) as Haf. destruct (available_linked best s f I Haf) as [Hlf Hmf].
  destruct (ii_complete _ _ _ I f Hlf Hmf) as [Hq|(f' & Hf' & Hw')]; [exists f; auto|]. assert (f' = f) as -> by congruence. by apply worse_irrefl in Hw'.
Qed.

(** ** An index with two blocks *)

Definition example_header (prev : bytes) : CBlockHeader := BlockHeader 4 prev null256 null256 0 545259519 null256 [].
Definition example_hash (block : CBlockHeader) : bytes := match header_GetHash block with Ok h => h | Err _ => [] end.
Definition example_genesis : CBlockHeader := example_header null256.
Definition example_second : CBlockHeader := example_header (example_hash example_genesis).
Definition example_checkpoint : pool_checkpoint := PoolCheckpoint false false 0 null256 0.
Definition example_pos : CDiskBlockPos := DiskBlockPos 0 8.

Definition added (s : index_state) (p : ptr) (block : CBlockHeader) : index_state :=
  match AddToBlockIndex s p block with Ok (s, _) => s | Err _ => s end.
Definition example_txs : list CTransaction := [Transaction mtx_default null256].
Definition received (s : index_state) (p : ptr) (vtx : list CTransaction) : index_state :=
  match ReceivedBlockTransactions example_checkpoint s vtx p example_pos with Ok s => s | Err _ => s end.
Definition example_tip (s : index_state) (p : ptr) : index_state :=
  match SetTip (entries s) (chainActive s) (Some p) with Ok c => set_chain s c | Err _ => s end.

Definition index1 : index_state := Eval vm_compute in added empty_index 1 example_genesis.
Definition index2 : index_state := Eval vm_compute in received index1 1 example_txs.
Definition index3 : index_state := Eval vm_compute in example_tip index2 1.
Definition index4 : index_state := Eval vm_compute in added index3 2 example_second.
Definition index5 : index_state := Eval vm_compute in received index4 2 example_txs.

Lemma total_le st : tree_ok st -> map_Forall (fun _ b => nTx b <= 1 /\ nHeight b <= 100) st -> forall p n, total st p n -> n <= 101.
Proof.
  intros Ht Hall p n Hn. cut (exists b, st !! p = Some b /\ n <= nHeight b + 1).
  { intros (b & Hb & Hle). destruct (Hall p b Hb). lia. }
  induction Hn as [p b Hb Hp|p b q n Hb Hp Hn (c & Hc & Hle)]; exists b; (split; [done|]); destruct (Hall p b Hb) as [Htx _], (Ht p b Hb) as (Hnn & Hprev & _); [lia|].
  unfold prev_ok in Hprev. rewrite Hp in Hprev. destruct Hprev as (c' & Hc' & Hh). assert (c' = c) as -> by congruence. lia.
Qed.

Lemma example_add best s s' p block :
  entries s !! p = None -> uint 32 (hb_nBits block) -> header_GetHash block = Ok (example_hash block) ->
  bool_decide (hb_hashPrevBlock block = example_hash block) = false ->
  (exists q, AddToBlockIndex s p block = Ok (s', q)) -> index_step example_checkpoint (best, s) (best, s').
Proof. intros H1 H2 H3 H4%bool_decide_eq_false [q H5]. by eapply step_header. Qed.
Lemma example_receive best s s' p vtx :
  index_inv best [] s -> (0 < length vtx <= 100)%nat -> match entries s !! p with Some b => negb (entry_data b) && negb (entry_failed b) | None => false end = true ->
  bool_decide (map_Forall (fun _ b => nTx b <= 1 /\ nHeight b <= 100) (entries s)) = true ->
  ReceivedBlockTransactions example_checkpoint s vtx p example_pos = Ok s' ->
  index_step example_checkpoint (best, s) (best, s').
Proof.
  intros I Hv Hp Hall%bool_decide_eq_true E. destruct (entries s !! p) as [b|] eqn:Hb; [|done]. apply andb_true_iff in Hp as [H1%negb_true_iff H2%negb_true_iff].
  eapply step_data; [done|done|done| | |done]; [by intros ->; cbn in Hv; lia|]. intros x m Hm. pose proof (total_le _ (so_tree _ (ii_select _ _ _ I)) Hall x m Hm). lia.
Qed.

Lemma example_set best s p :
  match entries s !! p with Some b => negb (nChainTx b =? 0) | None => false end = true ->
  match SetTip (entries s) (chainActive s) (Some p) with Ok _ => true | Err _ => false end = true ->
  index_step example_checkpoint (best, s) (raise_best (entries s) best p, example_tip s p).
Proof.
  intros Hp Hs. unfold example_tip. destruct (SetTip _ _ _) as [c|] eqn:E; [|done]. apply step_tip; [|done]. destruct (entries s !! p) as [b|] eqn:Hb; [|done].
  exists b. split; [done|]. by apply Z.eqb_neq, negb_true_iff.
Qed.

Lemma example_reachable3 : rtc (index_step example_checkpoint) (None, empty_index) (Some 1%positive, index3).
Proof.
  assert (R1 : rtc (index_step example_checkpoint) (None, empty_index) (None, index1)).
  { apply rtc_once, (example_add _ _ _ 1 example_genesis); [done|done|vm_compute; reflexivity|vm_compute; reflexivity|]. exists 1%positive. vm_compute. reflexivity. }
  assert (R2 : rtc (index_step example_checkpoint) (None, empty_index) (None, index2)).
  { eapply rtc_r; [exact R1|]. apply (example_receive _ _ _ 1 example_txs); [by eapply inv_reachable|cbn; lia|vm_compute; reflexivity|vm_compute; reflexivity|vm_compute; reflexivity]. }
  eapply rtc_r; [exact R2|]. change (Some 1%positive) with (raise_best (entries index2) None 1). apply example_set; vm_compute; reflexivity.
Qed.
Lemma example_reachable : rtc (index_step example_checkpoint) (None, empty_index) (Some 1%positive, index5).
Proof.
  assert (R4 : rtc (index_step example_checkpoint) (None, empty_index) (Some 1%positive, index4)).
  { eapply rtc_r; [exact example_reachable3|]. apply (example_add _ _ _ 2 example_second); [vm_compute; reflexivity|done|vm_compute; reflexivity|vm_compute; reflexivity|]. exists 2%positive. vm_compute. reflexivity. }
  eapply rtc_r; [exact R4|]. apply (example_receive _ _ _ 2 example_txs); [by eapply inv_reachable|cbn; lia|vm_compute; reflexivity|vm_compute; reflexivity|vm_compute; reflexivity].
Qed.

Fixpoint is_available (fuel : nat) (st : store) (p : ptr) : bool :=
  match fuel, st !! p with
  | S fuel, Some b => entry_data b && negb (entry_failed b) && match pprev b with Some q => is_available fuel st q | None => true end
  | _, _ => false
  end.
Lemma available_sound fuel st p : is_available fuel st p = true -> available st p.
Proof.
  revert p. induction fuel as [|fuel IH]; intros p; [done|]. cbn [is_available]. destruct (st !! p) as [b|] eqn:Hb; [|done].
  rewrite !andb_true_iff, negb_true_iff. intros [[Hd Hf] Hq]. apply (available_block _ _ b); [done|done|done|]. intros q Eq. rewrite Eq in Hq. auto.
Qed.

(** ** Properties *)

(** C6: from the empty index, whatever headers and blocks arrive, in whatever
    order, and whatever blocks are rejected, found invalid, connected or
    disconnected, the block index stays consistent. The steps are those of
    [index_step]: adding a header, receiving the transactions of a block,
    rejecting a block before its data is stored, searching the most-work chain,
    the notes of [ConnectBlock] in an entry, marking an invalid linked block,
    moving the tip to a linked block and pruning candidates; declaring a block
    invalid by hand, reconsidering it, deleting block files and loading the index
    are not among them. Consistent means: the lookup table maps exactly the hashes of the entries, the
    work of an entry is that of its parent and its own proof, no header has more
    work than the best header, the number of transactions of a chain is the sum
    over its blocks and is set exactly when all its blocks have arrived, a block
    whose ancestors are missing waits for its parent exactly once, and every
    block that could be the tip is a candidate unless it is worse than the best
    tip so far. *)
Theorem block_index_consistent o best s : rtc (index_step o) (None, empty_index) (best, s) -> index_inv best [] s.
Proof. apply inv_reachable. Qed.
Lemma block_index_consistent_witness : index_inv (Some 1%positive) [] index5 /\ setBlockIndexCandidates index5 = [1; 2]%positive.
Proof. split; [exact (block_index_consistent example_checkpoint (Some 1%positive) index5 example_reachable)|reflexivity]. Defined.

(** C4: in every block index that can arise, the search for the most-work chain
    ends and its answer is the best of all blocks, not only of the candidates:
    if all blocks of a chain have arrived and none of them is marked as failed,
    then the answer is its last block or a better one. This needs no more than
    that the best tip so far is still such a block, if it is better. An answer
    is a block whose chain has arrived and whose path to the active chain has no
    failed block. *)
Theorem best_chain_chosen o best s : rtc (index_step o) (None, empty_index) (best, s) ->
  exists s' r, FindMostWorkChain s = Ok (s', r) /\ index_inv best [] s'
    /\ (forall p, r = Some p -> linked (entries s) p /\ usable (entries s) (chainActive s) p)
    /\ forall q, available (entries s) q -> (forall f, best = Some f -> worse (entries s) q f -> available (entries s) f) ->
       exists p, r = Some p /\ (q = p \/ worse (entries s) q p).
Proof.
  intros I%inv_reachable. destruct (inv_search best [] s I) as (s' & r & E & I'). exists s', r.
  destruct (FindMostWorkChain_spec s (ii_select _ _ _ I)) as (R & s1 & r1 & E1 & B & Hl & Hr). rewrite E in E1. injection E1 as <- <-.
  destruct B as [B1 B2 B3 B4 _ _]. split_and!; [done|done| |].
  - intros p ->. split; [|apply B4; auto]. apply last_elem, (tr_candidates _ _ _ B2) in Hl as [Hl _]. by apply (so_candidates s (ii_select _ _ _ I)).
  - intros q Ha Hbest. destruct (search_best best s q I Ha Hbest) as (q' & Hq' & Ha' & Hor).
    assert (Hin : q' ∈ setBlockIndexCandidates s').
    { apply (tr_candidates _ _ _ B2). split; [done|]. intros Hx. by apply (B3 q' Hx), available_usable. }
    destruct r as [p|]; [|apply last_None in Hl; rewrite Hl in Hin; by apply elem_of_nil in Hin]. exists p. split; [done|].
    destruct (sorted_last _ _ p q' (so_sorted s' B1) Hl Hin) as [->|Hw]; [done|]. apply (failing_worse _ _ _ _ (tr_entries _ _ _ B2)) in Hw.
    right. destruct Hor as [->|Hor]; [done|by eapply worse_trans].
Qed.

Lemma best_chain_chosen_witness :
  exists s' p, FindMostWorkChain index5 = Ok (s', Some p) /\ (2%positive = p \/ worse (entries index5) 2 p).
Proof.
  destruct (best_chain_chosen example_checkpoint (Some 1%positive) index5 example_reachable) as (s' & r & E & _ & _ & Hall).
  destruct (Hall 2%positive) as (p & -> & Hp); [by apply (available_sound 3)| |by exists s', p].
  intros f [= <-] _. by apply (available_sound 3).
Defined.

(** C5: the search for the most-work chain always ends, with an answer and
    without a failed assertion. The candidates that leave the set are ones whose
    path to the active chain has a block that is marked as failed or lacks its
    data; no other candidate leaves it. The answer is a candidate whose path is
    free of such blocks, and the best one: every other candidate with a usable
    path is worse in the order of the set (less work, or received later).
    Nothing is answered only when no candidate is usable. The search changes
    which blocks are marked, but not which chains are usable. *)
Theorem find_most_work_chain s : select_ok s ->
  exists s' r, FindMostWorkChain s = Ok (s', r) /\ select_ok s' /\ chainActive s' = chainActive s
    /\ (forall p, usable (entries s') (chainActive s') p <-> usable (entries s) (chainActive s) p)
    /\ (forall p, p ∈ setBlockIndexCandidates s -> usable (entries s) (chainActive s) p -> p ∈ setBlockIndexCandidates s')
    /\ (forall p, p ∈ setBlockIndexCandidates s' -> p ∈ setBlockIndexCandidates s)
    /\ match r with
       | Some p => p ∈ setBlockIndexCandidates s /\ usable (entries s) (chainActive s) p
           /\ forall q, q ∈ setBlockIndexCandidates s -> usable (entries s) (chainActive s) q -> q = p \/ worse (entries s) q p
       | None => forall q, q ∈ setBlockIndexCandidates s -> ~ usable (entries s) (chainActive s) q
       end.
Proof.
  intros Hok. destruct (FindMostWorkChain_spec s Hok) as (R & s' & r & E & [B1 B2 B3 B4 _ _] & Hl & Hr). exists s', r.
  assert (Hkeep : forall p, p ∈ setBlockIndexCandidates s -> usable (entries s) (chainActive s) p -> p ∈ setBlockIndexCandidates s').
  { intros p Hp Hu. apply (tr_candidates _ _ _ B2). split; [done|]. intros Hx. by apply (B3 p). }
  assert (Hsub : forall p, p ∈ setBlockIndexCandidates s' -> p ∈ setBlockIndexCandidates s) by (intros p Hp%(tr_candidates _ _ _ B2); tauto).
  split_and!; [done|done|apply (tr_chain _ _ _ B2)|intros; by rewrite B4|done|done|]. destruct r as [p|].
  - specialize (Hr p eq_refl). rewrite <- B4 in Hr. split_and!; [by apply Hsub, last_elem|done|]. intros q Hq Hu.
    destruct (sorted_last _ _ p q (so_sorted s' B1) Hl (Hkeep q Hq Hu)) as [->|Hw]; [by left|]. right.
    by apply (failing_worse _ _ _ _ (tr_entries _ _ _ B2)).
  - intros q Hq Hu. specialize (Hkeep q Hq Hu). apply last_None in Hl. rewrite Hl in Hkeep. by apply elem_of_nil in Hkeep.
Qed.
Lemma find_most_work_chain_witness : exists s' p, FindMostWorkChain index5 = Ok (s', Some p) /\ (2%positive = p \/ worse (entries index5) 2 p).
Proof.
  destruct (find_most_work_chain index5) as (s' & r & E & _ & _ & _ & _ & _ & Hr).
  { exact (ii_select _ _ _ (inv_reachable _ _ _ example_reachable)). }
  assert (Hu : usable (entries index5) (chainActive index5) 2) by (by apply available_usable, (available_sound 3)).
  destruct r as [p|]; [|destruct (Hr 2%positive); [vm_compute; set_solver|done]].
  exists s', p. split; [done|]. apply Hr; [vm_compute; set_solver|done].
Defined.
