(* ===== verification/Activate.v ===== *)
(** * Making the best chain active (src/main.cpp)

    The loop of [ActivateBestChain]: the most-work candidate is searched, the
    blocks of the active chain that are not on its branch are disconnected, and
    the blocks of the branch are connected in batches until the chain is better
    than before or a block turns out to be invalid.

    What connecting and disconnecting a block does to the coins is an interface,
    [ChainState]; the class [ChainStateLaws] says what the loop relies on, and
    [ConnectBlock] and [DisconnectBlock] of [Connect] are an instance. The memory
    pool, notifications and warnings are left out, and so is the mark that
    [ConnectBlock] may set on the block in memory: the block that is given is the
    same in every pass. *)

From S2P Require Import Prelude ArithUint Serialize Digest Sha Ripemd Hash Amount Transaction Chain Params Equihash Pow.
From S2P Require Import Script Address Interpreter SigHash Merkle Coins Validation Block Connect Select IndexInv.
From stdpp Require Import sorting pmap.
Local Open Scope Z_scope.
Local Open Scope code_scope.

(** ** Definitions *)

(** What connecting a block gives: the coins with the block, the entry of the
    block as [ConnectBlock] leaves it and whether the state could be written to
    disk; a violated rule, with [CorruptionPossible()]; a failure of the system;
    or a failed assertion. *)
Inductive verdict (V : Type) :=
| Accepted (v : V) (b : CBlockIndex) (written : bool)
| Invalid (corruption : bool)
| SystemError
| Crashed.
Arguments Accepted {V} _ _ _.
Arguments Invalid {V} _.
Arguments SystemError {V}.
Arguments Crashed {V}.

(** The block is the one that is given or the one on disk; [periodic_flush] says
    whether [FlushStateToDisk] succeeds at the end. *)
Class ChainState (V : Type) := {
  connect_block : store -> V -> ptr -> option CBlockInMemory -> verdict V;
  disconnect_block : store -> V -> ptr -> option (V * bool);
  periodic_flush : V -> bool
}.

Definition MAX_REORG_LENGTH : Z := COINBASE_MATURITY - 1.

Section activate.
Context {V : Type} {CS : ChainState V}.

Record node_state := NodeState { ns_index : index_state; ns_coins : V }.
Definition with_index (s : node_state) (i : index_state) : node_state := NodeState i (ns_coins s).

(** *** The tip *)

Inductive tip_result := TipConnected | TipInvalid (corruption : bool) | TipError.

Definition UpdateTip (s : index_state) (p : ptr) : result chain_error index_state :=
  let* c := SetTip (entries s) (chainActive s) (Some p) in Ok (set_chain s c).

Definition ConnectTip (s : node_state) (pindexNew : ptr) (pblock : option CBlockInMemory) : result chain_error (node_state * tip_result) :=
  let i := ns_index s in
  let* b := deref (entries i) pindexNew in
  require bool_decide (pprev b = Tip (chainActive i)) orelse AssertFailed in
  match connect_block (entries i) (ns_coins s) pindexNew pblock with
  | Accepted v b written =>
      let i := set_entry i pindexNew b in
      if written then let* i := UpdateTip i pindexNew in Ok (NodeState i v, TipConnected)
      else Ok (NodeState i v, TipError)
  | Invalid corruption => let* i := InvalidBlockFound i pindexNew corruption in Ok (with_index s i, TipInvalid corruption)
  | SystemError => Ok (s, TipError)
  | Crashed => Err AssertFailed
  end.

(** Writing the log of the new tip needs one. *)
Definition DisconnectTip (s : node_state) : result chain_error (node_state * bool) :=
  let i := ns_index s in
  match Tip (chainActive i) with
  | None => Err AssertFailed
  | Some p =>
      let* b := deref (entries i) p in
      match disconnect_block (entries i) (ns_coins s) p with
      | None => Ok (s, false)
      | Some (v, false) => Ok (NodeState i v, false)
      | Some (v, true) =>
          match pprev b with
          | None => Err DanglingPointer
          | Some q => let* i := UpdateTip i q in Ok (NodeState i v, true)
          end
      end
  end.

(** *** One step *)

(** [false] if a block cannot be disconnected. *)
Fixpoint disconnect_to (fuel : nat) (s : node_state) (fork : option ptr) : result chain_error (node_state * bool) :=
  match Tip (chainActive (ns_index s)) with
  | None => Ok (s, true)
  | Some t =>
      if bool_decide (Some t = fork) then Ok (s, true)
      else
        match fuel with
        | O => Err OutOfFuel
        | S fuel =>
            let* (s, ok) := DisconnectTip s in
            if ok : bool then disconnect_to fuel s fork else Ok (s, false)
        end
  end.

(** [vpindexToConnect]: from [pindexIter] back to the height above [nHeight]. *)
Fixpoint collect (fuel : nat) (st : store) (pindexIter : option ptr) (height : Z) : result chain_error (list ptr) :=
  match pindexIter with
  | None => Ok []
  | Some p =>
      let* b := deref st p in
      if nHeight b =? height then Ok []
      else
        match fuel with
        | O => Err OutOfFuel
        | S fuel => let* l := collect fuel st (pprev b) height in Ok (p :: l)
        end
  end.

Inductive progress := ConnectedAll | BetterTip | FoundInvalid | Failed.

(** The blocks in the order in which they are connected; [first] is
    [vpindexToConnect.back()], the first of them. *)
Fixpoint connect_list (s : node_state) (pindexOldTip : option ptr) (pindexMostWork : ptr) (pblock : option CBlockInMemory) (first : ptr) (l : list ptr)
  : result chain_error (node_state * progress) :=
  match l with
  | [] => Ok (s, ConnectedAll)
  | p :: l =>
      let* (s, r) := ConnectTip s p (if bool_decide (p = pindexMostWork) then pblock else None) in
      match r with
      | TipInvalid corruption =>
          let* i := if corruption then Ok (ns_index s) else InvalidChainFound (ns_index s) first in
          Ok (with_index s i, FoundInvalid)
      | TipError => Ok (s, Failed)
      | TipConnected =>
          let* i := PruneBlockIndexCandidates (ns_index s) in
          let s := with_index s i in
          let* better := match pindexOldTip with
                         | None => Ok true
                         | Some t =>
                             let* bt := deref (entries i) t in
                             match Tip (chainActive i) with
                             | None => Err DanglingPointer
                             | Some t' => let* bt' := deref (entries i) t' in Ok (ArithUint.op_gt (nChainWork bt') (nChainWork bt))
                             end
                         end in
          if better : bool then Ok (s, BetterTip) else connect_list s pindexOldTip pindexMostWork pblock first l
      end
  end.

Fixpoint connect_range (fuel : nat) (s : node_state) (pindexOldTip : option ptr) (pindexMostWork : ptr) (pblock : option CBlockInMemory) (height : Z)
  : result chain_error (node_state * progress) :=
  let* m := deref (entries (ns_index s)) pindexMostWork in
  if height =? nHeight m then Ok (s, ConnectedAll)
  else
    match fuel with
    | O => Err OutOfFuel
    | S fuel =>
        let nTargetHeight := Z.min (height + 32) (nHeight m) in
        let* pindexIter := GetAncestor (entries (ns_index s)) pindexMostWork nTargetHeight in
        let* l := collect (S (Z.to_nat (nHeight m))) (entries (ns_index s)) pindexIter height in
        let* (s, r) := match rev l with
                       | [] => Ok (s, ConnectedAll)
                       | first :: _ => connect_list s pindexOldTip pindexMostWork pblock first (rev l)
                       end in
        match r with
        | ConnectedAll => connect_range fuel s pindexOldTip pindexMostWork pblock nTargetHeight
        | _ => Ok (s, r)
        end
    end.

(** [None] for [return false], otherwise [fInvalidFound]. *)
Definition ActivateBestChainStep (s : node_state) (pindexMostWork : ptr) (pblock : option CBlockInMemory) : result chain_error (node_state * option bool) :=
  let i := ns_index s in
  let pindexOldTip := Tip (chainActive i) in
  let* pindexFork := FindFork (entries i) (chainActive i) (Some pindexMostWork) in
  let* fork := match pindexFork with None => Ok None | Some f => let* b := deref (entries i) f in Ok (Some (nHeight b)) end in
  let* reorgLength := match pindexOldTip with
                      | None => Ok 0
                      | Some t => let* b := deref (entries i) t in Ok (nHeight b - default (-1) fork)
                      end in
  if MAX_REORG_LENGTH <? reorgLength then
    (* the message shows the fork *)
    match pindexFork with None => Err DanglingPointer | Some _ => Ok (s, None) end
  else
    let* (s, ok) := disconnect_to (length (chainActive i)) s pindexFork in
    if ok : bool then
      let* m := deref (entries i) pindexMostWork in
      let* (s, r) := connect_range (S (Z.to_nat (nHeight m))) s pindexOldTip pindexMostWork pblock (default (-1) fork) in
      match r with
      | Failed => Ok (s, None)
      | _ =>
          (* the memory pool is brought up to date for the height after the tip *)
          match Tip (chainActive (ns_index s)) with
          | None => Err DanglingPointer
          | Some _ => Ok (s, Some match r with FoundInvalid => true | _ => false end)
          end
      end
    else Ok (s, None).

(** *** The loop *)

(** The block is given to the step when it is the most-work block. *)
Definition block_of (st : store) (pblock : option CBlockInMemory) (p : ptr) : result chain_error (option CBlockInMemory) :=
  match pblock with
  | None => Ok None
  | Some block =>
      let* b := deref st p in
      Ok match header_GetHash block with Ok hash => if bool_decide (hash = phashBlock b) then Some block else None | Err _ => None end
  end.

Fixpoint activate_loop (fuel : nat) (s : node_state) (pindexMostWork : option ptr) (pblock : option CBlockInMemory) : result chain_error (node_state * bool) :=
  let* (i, pindexMostWork) := match pindexMostWork with
                              | None => FindMostWorkChain (ns_index s)
                              | Some p => Ok (ns_index s, Some p)
                              end in
  let s := with_index s i in
  match pindexMostWork with
  | None => Ok (s, true)
  | Some p =>
      if bool_decide (Some p = Tip (chainActive i)) then Ok (s, true)
      else
        match fuel with
        | O => Err OutOfFuel
        | S fuel =>
            let* given := block_of (entries i) pblock p in
            let* (s, r) := ActivateBestChainStep s p given in
            match r with
            | None => Ok (s, false)
            | Some fInvalidFound =>
                let pindexMostWork := if fInvalidFound : bool then None else Some p in
                if bool_decide (Tip (chainActive (ns_index s)) = pindexMostWork) then Ok (s, periodic_flush (ns_coins s))
                else activate_loop fuel s pindexMostWork pblock
            end
        end
  end.
Definition ActivateBestChain (fuel : nat) (s : node_state) (pblock : option CBlockInMemory) : result chain_error (node_state * bool) :=
  activate_loop fuel s None pblock.

(** *** Blocks that the operator declares invalid *)

Definition is_valid (b : CBlockIndex) (level : Z) : bool := match IsValid b level with Ok v => v | Err _ => false end.

(** The blocks of the index that satisfy [better] become candidates. *)
Fixpoint add_candidates (st : store) (better : ptr -> CBlockIndex -> result chain_error bool) (l : list (ptr * CBlockIndex)) (c : list ptr)
  : result chain_error (list ptr) :=
  match l with
  | [] => Ok c
  | (p, b) :: l =>
      let* ok := if is_valid b BLOCK_VALID_TRANSACTIONS && negb (nChainTx b =? 0) then better p b else Ok false in
      let* c := if ok : bool then set_insert st p c else Ok c in
      add_candidates st better l c
  end.

(** While the block is in the active chain, the tip is marked and disconnected. *)
Fixpoint disconnect_block_from (fuel : nat) (s : node_state) (pindex : ptr) : result chain_error (node_state * bool) :=
  let i := ns_index s in
  let* active := Contains (entries i) (chainActive i) pindex in
  if active : bool then
    match fuel, Tip (chainActive i) with
    | O, _ => Err OutOfFuel
    | _, None => Err DanglingPointer
    | S fuel, Some t =>
        let* b := deref (entries i) t in
        let i := set_dirty (set_entry i t (fail_entry b BLOCK_FAILED_CHILD)) t in
        let* (s, ok) := DisconnectTip (with_index s (set_candidates i (set_erase t (setBlockIndexCandidates i)))) in
        if ok : bool then disconnect_block_from fuel s pindex else Ok (s, false)
    end
  else Ok (s, true).

Definition not_worse_than_tip (i : index_state) (p : ptr) (b : CBlockIndex) : result chain_error bool :=
  match Tip (chainActive i) with
  | None => Err DanglingPointer
  | Some t => let* w := CBlockIndexWorkComparator (entries i) p t in Ok (negb w)
  end.

Definition InvalidateBlock (s : node_state) (pindex : ptr) : result chain_error (node_state * bool) :=
  let i := ns_index s in
  let* b := deref (entries i) pindex in
  let i := set_dirty (set_entry i pindex (fail_entry b BLOCK_FAILED_VALID)) pindex in
  let* (s, ok) := disconnect_block_from (length (chainActive i)) (with_index s (set_candidates i (set_erase pindex (setBlockIndexCandidates i)))) pindex in
  if ok : bool then
    let i := ns_index s in
    let* c := add_candidates (entries i) (not_worse_than_tip i) (map_to_list (entries i)) (setBlockIndexCandidates i) in
    let* i := InvalidChainFound (set_candidates i c) pindex in
    Ok (with_index s i, true)
  else Ok (s, false).

Definition clear_failed (b : CBlockIndex) : CBlockIndex := set_status b (Z.land (nStatus b) (to_u32 (Z.lnot BLOCK_FAILED_MASK))).

(** The block and its descendants. *)
Fixpoint reconsider_all (i : index_state) (pindex : ptr) (height : Z) (l : list ptr) : result chain_error index_state :=
  match l with
  | [] => Ok i
  | p :: l =>
      let* b := deref (entries i) p in
      let* ancestor := if is_valid b BLOCK_VALID_TRANSACTIONS then Ok None else GetAncestor (entries i) p height in
      if bool_decide (ancestor = Some pindex) then
        let b := clear_failed b in
        let i := set_dirty (set_entry i p b) p in
        let* better := if is_valid b BLOCK_VALID_TRANSACTIONS && negb (nChainTx b =? 0) then
                         match Tip (chainActive i) with
                         | None => Err DanglingPointer
                         | Some t => CBlockIndexWorkComparator (entries i) t p
                         end
                       else Ok false in
        let* c := if better : bool then set_insert (entries i) p (setBlockIndexCandidates i) else Ok (setBlockIndexCandidates i) in
        let i := set_candidates i c in
        reconsider_all (if bool_decide (pindexBestInvalid i = Some p) then set_best_invalid i None else i) pindex height l
      else reconsider_all i pindex height l
  end.
(** The ancestors. *)
Fixpoint reconsider_ancestors (fuel : nat) (i : index_state) (pindex : option ptr) : result chain_error index_state :=
  match pindex with
  | None => Ok i
  | Some p =>
      match fuel with
      | O => Err OutOfFuel
      | S fuel =>
          let* b := deref (entries i) p in
          let i := if entry_failed b then set_dirty (set_entry i p (clear_failed b)) p else i in
          reconsider_ancestors fuel i (pprev b)
      end
  end.
Definition ReconsiderBlock (i : index_state) (pindex : ptr) : result chain_error index_state :=
  let* b := deref (entries i) pindex in
  let* i := reconsider_all i pindex (nHeight b) (map fst (map_to_list (entries i))) in
  reconsider_ancestors (S (Z.to_nat (nHeight b))) i (Some pindex).
End activate.
Arguments node_state V : clear implicits.
Arguments NodeState {V} _ _.

(** ** The active chain as a path *)

Section paths.
Context (st : store) (Ht : tree_ok st).

Lemma tip_chain c t : chain_ok st c -> Tip c = Some t -> exists bt, st !! t = Some bt /\ c = Chain.branch st t (nHeight bt).
Proof using Ht. intros [->|(t' & bt & Hb & ->)]; [done|]. rewrite (Tip_branch _ _ _ Ht Hb). intros [= <-]. eauto. Qed.
Lemma in_branch t bt q : st !! t = Some bt -> in_chain st (Chain.branch st t (nHeight bt)) q <-> exists k, walk st k t = Some q.
Proof using Ht.
  intros Hb. pose proof (height_nonneg st Ht t bt Hb). split.
  - intros (b & Hq & Hn). destruct (decide (Z.to_nat (nHeight b) <= Z.to_nat (nHeight bt))%nat); [|rewrite nth_overflow in Hn; [done|rewrite length_branch; lia]].
    rewrite nth_branch in Hn by done. eauto.
  - intros (k & Hk). pose proof (walk_end st Ht t bt k q Hb Hk). destruct (walk_ok st Ht k t bt Hb) as (q' & bq & Hw & Hq & Hh); [lia|].
    rewrite Hk in Hw. injection Hw as <-. exists bq. split; [done|]. pose proof (height_nonneg st Ht q bq Hq). rewrite nth_branch by lia. rewrite <- Hk. f_equal. lia.
Qed.
Lemma walk_to_root p b : st !! p = Some b -> exists r br, walk st (Z.to_nat (nHeight b)) p = Some r /\ st !! r = Some br /\ pprev br = None.
Proof using Ht.
  intros Hp. pose proof (height_nonneg st Ht p b Hp). destruct (walk_ok st Ht (Z.to_nat (nHeight b)) p b Hp) as (r & br & Hw & Hr & Hh); [lia|].
  exists r, br. split_and!; [done|done|]. destruct (Ht r br Hr) as (_ & Hprev & _). unfold prev_ok in Hprev. destruct (pprev br) as [q|]; [|done].
  destruct Hprev as (bq & Hq & Hh'). pose proof (height_nonneg st Ht q bq Hq). lia.
Qed.
(** The number of steps between two blocks is the difference of their heights. *)
Lemma walk_steps p b q bq k : st !! p = Some b -> walk st k p = Some q -> st !! q = Some bq -> Z.of_nat k = nHeight b - nHeight bq.
Proof using Ht. intros Hp Hw Hq. pose proof (walk_height st k p b q bq Ht Hp Hw Hq). lia. Qed.
End paths.

(** Only one block has no parent. *)
Definition one_root (st : store) : Prop := forall p q b c, st !! p = Some b -> st !! q = Some c -> pprev b = None -> pprev c = None -> p = q.
(** A block has more work than its parent. *)
Definition works_grow (st : store) : Prop := forall p b q c, st !! p = Some b -> pprev b = Some q -> st !! q = Some c -> val (nChainWork c) < val (nChainWork b).

Lemma works_grow_walk st k p b q c : tree_ok st -> works_grow st -> st !! p = Some b -> walk st k p = Some q -> st !! q = Some c ->
  val (nChainWork c) <= val (nChainWork b) /\ (k <> 0%nat -> val (nChainWork c) < val (nChainWork b)).
Proof.
  intros Ht Hg Hp. revert q c. induction k as [|k IH]; intros q c Hw Hq; [injection Hw as <-; assert (c = b) as -> by congruence; lia|].
  destruct (walk_S_inv _ _ _ _ Hw) as (r & d & Hr & Hd & Hpr). specialize (IH r d Hr Hd). specialize (Hg r d q c Hd Hpr Hq). lia.
Qed.
(** So it is not worse than its ancestors. *)
Lemma ancestor_not_better st k p b q : tree_ok st -> works_grow st -> st !! p = Some b -> walk st k p = Some q -> ~ worse st p q.
Proof.
  intros Ht Hg Hp Hw (b' & c & Hb' & Hc & Hk). assert (b' = b) as -> by congruence. destruct k as [|k].
  - injection Hw as <-. assert (c = b) as -> by congruence. by apply key_lt_irrefl in Hk.
  - destruct (works_grow_walk st (S k) p b q c Ht Hg Hp Hw Hc) as [_ Hlt]. specialize (Hlt ltac:(lia)). unfold key, key_lt in Hk. lia.
Qed.

Lemma fork_exists st c m bm t : tree_ok st -> one_root st -> chain_ok st c -> Tip c = Some t -> st !! m = Some bm ->
  exists f bf k, FindFork st c (Some m) = Ok (Some f) /\ st !! f = Some bf /\ walk st k m = Some f /\ in_chain st c f
    /\ forall j q, (j < k)%nat -> walk st j m = Some q -> ~ in_chain st c q.
Proof.
  intros Ht Hroot Hc Htip Hm. destruct (FindFork_last_common st Ht c m bm Hm) as (r & -> & Hr).
  destruct r as [f|]; [destruct Hr as (k & Hw & Hin & Hb); destruct Hin as (bf & Hf & Hn); exists f, bf, k; split_and!; try done; by exists bf|].
  exfalso. destruct (tip_chain st Ht c t Hc Htip) as (bt & Hbt & ->). destruct (walk_to_root st Ht t bt Hbt) as (r & br & Hwr & Hr0 & Hpr).
  destruct (walk_to_root st Ht m bm Hm) as (r' & br' & Hwr' & Hr0' & Hpr'). assert (r' = r) as -> by (by eapply Hroot).
  apply (Hr _ _ Hwr'). apply (in_branch st Ht t bt r Hbt). eauto.
Qed.

Lemma one_root_tree st st' : same_tree st st' -> one_root st -> one_root st'.
Proof.
  intros Hs Hr p q b' c' Hb Hc Hp Hq. assert (Hs' : same_tree st' st) by (by symmetry).
  destruct (same_tree_lookup _ _ _ _ Hs' Hb) as (b & Hb0 & (E1 & _)). destruct (same_tree_lookup _ _ _ _ Hs' Hc) as (c & Hc0 & (E2 & _)).
  eapply Hr; [exact Hb0|exact Hc0|congruence|congruence].
Qed.
Lemma works_grow_tree st st' : same_tree st st' -> works_grow st -> works_grow st'.
Proof.
  intros Hs Hg p b' q c' Hb Hq Hc. assert (Hs' : same_tree st' st) by (by symmetry).
  destruct (same_tree_lookup _ _ _ _ Hs' Hb) as (b & Hb0 & (E1 & _ & _ & W1 & _)). destruct (same_tree_lookup _ _ _ _ Hs' Hc) as (c & Hc0 & (_ & _ & _ & W2 & _)).
  rewrite W1, W2. apply (Hg p b q c Hb0); [congruence|done].
Qed.

(** Entries that [ConnectBlock] has written to. *)
Definition noted_all (st st' : store) : Prop := forall p, option_Forall2 noted (st !! p) (st' !! p).
#[export] Instance noted_all_preorder : PreOrder noted_all.
Proof.
  split.
  - intros st p. destruct (st !! p); constructor. apply noted_refl.
  - intros st st' st2 H1 H2 p. specialize (H1 p). specialize (H2 p). destruct H1; inversion H2; subst; constructor. by eapply noted_trans.
Qed.
Lemma noted_insert st p b b' : st !! p = Some b -> noted b b' -> noted_all st (<[p := b']> st).
Proof.
  intros Hp Hs q. destruct (decide (q = p)) as [->|]; [rewrite lookup_insert_eq, Hp; by constructor|].
  rewrite lookup_insert_ne by done. destruct (st !! q); constructor. apply noted_refl.
Qed.
Lemma noted_evolve st st' : noted_all st st' -> evolve st st'.
Proof. intros Hf p. destruct (Hf p) as [b b' Hb|]; constructor. apply Hb. Qed.
Lemma noted_marked st st' p : noted_all st st' -> marked st' p <-> marked st p.
Proof.
  intros Hn. unfold marked. destruct (Hn p) as [b b' [_ Hf]|]; [|done].
  split; intros (c & [= <-] & Hc); eexists; (split; [reflexivity|congruence]).
Qed.
Lemma noted_tree st st' : noted_all st st' -> same_tree st st'.
Proof. intros Hn. by apply evolve_tree, noted_evolve. Qed.

Lemma InvalidChainFound_ok i p b t : select_ok i -> entries i !! p = Some b -> Tip (chainActive i) = Some t ->
  exists better : bool, InvalidChainFound i p = Ok (if better then set_best_invalid i (Some p) else i).
Proof.
  intros Hok Hb Ht. unfold InvalidChainFound. rewrite (deref_Some _ _ _ Hb). cbn [bindR]. rewrite Ht, bool_decide_eq_true_2 by done.
  destruct (pindexBestInvalid i) as [q|] eqn:Eq; [|by exists true]. destruct (so_invalid i Hok q Eq) as [bq Hq]. rewrite (deref_Some _ _ _ Hq). cbn [bindR].
  by eexists.
Qed.
Lemma InvalidBlockFound_ok best i p b t corruption : index_inv best [] i -> entries i !! p = Some b -> Tip (chainActive i) = Some t ->
  exists i', InvalidBlockFound i p corruption = Ok i'.
Proof.
  intros I Hb Ht. unfold InvalidBlockFound. destruct corruption; [eauto|]. rewrite (deref_Some _ _ _ Hb). cbn [bindR].
  set (i1 := set_candidates _ _). destruct (InvalidChainFound_ok i1 p (fail_entry b BLOCK_FAILED_VALID) t) as [better ->]; [|apply lookup_insert_eq|done|eauto].
  pose proof (trimmed_fail i p b BLOCK_FAILED_VALID Hb ltac:(by left)) as T. apply (select_ok_trimmed _ i i1 (ii_select _ _ _ I) T). apply I.
Qed.

(** ** The laws of the coins *)

Class ChainStateLaws (V : Type) {CS : ChainState V} := {
  best_block : V -> bytes;
  connect_noted st v p pb b v' b' w : st !! p = Some b -> connect_block st v p pb = Accepted v' b' w -> noted b b';
  connect_best st v p pb b v' b' w : st !! p = Some b -> connect_block st v p pb = Accepted v' b' w -> best_block v' = phashBlock b;
  disconnect_best st v p b q c v' w : st !! p = Some b -> pprev b = Some q -> st !! q = Some c -> disconnect_block st v p = Some (v', w) ->
    best_block v' = phashBlock c
}.

Section laws.
Context {V : Type} {CS : ChainState V} {CL : ChainStateLaws V}.
Abbreviation idx := (ns_index (V := V)).

(** What holds between two steps of the loop. *)
Record good (best : option ptr) (s : node_state V) : Prop := {
  g_inv : index_inv best [] (idx s);
  g_grow : works_grow (entries (idx s));
  g_root : one_root (entries (idx s));
  g_tip : exists t, Tip (chainActive (idx s)) = Some t
}.
(** The coins are those of the tip. *)
Definition synced (s : node_state V) : Prop :=
  exists t b, Tip (chainActive (idx s)) = Some t /\ entries (idx s) !! t = Some b /\ best_block (ns_coins s) = phashBlock b.

Lemma good_index best s : good best s -> forall best' s', index_inv best' [] (idx s') -> same_tree (entries (idx s)) (entries (idx s')) ->
  (exists t, Tip (chainActive (idx s')) = Some t) -> good best' s'.
Proof. intros [G1 G2 G3 G4] best' s' I Hs Htip. split; [done|by eapply works_grow_tree|by eapply one_root_tree|done]. Qed.

(** *** The tip *)

Lemma UpdateTip_spec best i p : index_inv best [] i -> linked (entries i) p ->
  exists c, UpdateTip i p = Ok (set_chain i c) /\ Tip c = Some p /\ index_inv (raise_best (entries i) best p) [] (set_chain i c).
Proof.
  intros I Hl. pose proof Hl as (b & Hb & _). pose proof (ii_select _ _ _ I) as Hok. unfold UpdateTip.
  pose proof (SetTip_branch _ (so_tree i Hok) _ p b (so_chain i Hok) Hb) as E. rewrite E. cbn [bindR]. eexists. split; [reflexivity|].
  split; [by apply Tip_branch; [apply Hok|]|]. by apply inv_tip.
Qed.

Lemma ConnectTip_spec best s p b pb :
  good best s -> entries (idx s) !! p = Some b -> pprev b = Tip (chainActive (idx s)) -> linked (entries (idx s)) p -> synced s ->
  connect_block (entries (idx s)) (ns_coins s) p pb <> Crashed ->
  exists s' r, ConnectTip s p pb = Ok (s', r)
    /\ match r with
       | TipConnected => good (raise_best (entries (idx s)) best p) s' /\ Tip (chainActive (idx s')) = Some p /\ synced s'
           /\ noted_all (entries (idx s)) (entries (idx s')) /\ setBlockIndexCandidates (idx s') = setBlockIndexCandidates (idx s)
       | TipInvalid corruption => connect_block (entries (idx s)) (ns_coins s) p pb = Invalid corruption
           /\ InvalidBlockFound (idx s) p corruption = Ok (idx s') /\ ns_coins s' = ns_coins s
       | TipError => good best s'
       end.
Proof.
  intros G Hb Hprev Hl Hsync Hnc. pose proof (g_inv _ _ G) as I. pose proof (g_tip _ _ G) as [t Htip]. unfold ConnectTip.
  rewrite (deref_Some _ _ _ Hb). cbn [bindR]. rewrite bool_decide_eq_true_2 by done.
  destruct (connect_block (entries (idx s)) (ns_coins s) p pb) as [v b' w|corruption| |] eqn:E; [| | |done].
  - pose proof (connect_noted _ _ _ _ _ _ _ _ Hb E) as Hn. pose proof (noted_insert _ _ _ _ Hb Hn) as Hall.
    pose proof (inv_noted best [] (idx s) p b b' I Hb Hn) as I1. pose proof (noted_evolve _ _ Hall) as He.
    destruct w; [|eexists _, TipError; split; [reflexivity|]; apply (good_index best s G); [exact I1|by apply noted_tree|by exists t]].
    assert (Hl1 : linked (entries (set_entry (idx s) p b')) p) by (by apply (evolve_linked _ _ He)).
    destruct (UpdateTip_spec best (set_entry (idx s) p b') p I1 Hl1) as (c & -> & Hc & I2). cbn [bindR]. eexists _, TipConnected. split; [reflexivity|].
    assert (Er : raise_best (entries (set_entry (idx s) p b')) best p = raise_best (entries (idx s)) best p).
    { unfold raise_best. destruct best as [f|]; [|done]. pose proof (evolve_worse _ _ He f p) as Hw. cbn. repeat case_decide; tauto. }
    rewrite Er in I2. split_and!; [|done| |exact Hall|done].
    + apply (good_index best s G); [exact I2|by apply noted_tree|by exists p].
    + exists p, b'. split_and!; [done|apply lookup_insert_eq|]. cbn. rewrite (connect_best _ _ _ _ _ _ _ _ Hb E).
      destruct Hn as [[(_ & _ & _ & _ & _ & ->) _ _ _ _ _ _] _]. done.
  - destruct (InvalidBlockFound_ok best (idx s) p b t corruption I Hb Htip) as [i Ei]. rewrite Ei. cbn [bindR]. eexists _, (TipInvalid corruption). split; [reflexivity|]. done.
  - eexists _, TipError. split; [reflexivity|done].
Qed.
Lemma DisconnectTip_spec best s t b q :
  good best s -> Tip (chainActive (idx s)) = Some t -> entries (idx s) !! t = Some b -> pprev b = Some q ->
  exists s' ok, DisconnectTip s = Ok (s', ok) /\ entries (idx s') = entries (idx s) /\ setBlockIndexCandidates (idx s') = setBlockIndexCandidates (idx s)
    /\ if ok : bool then good (raise_best (entries (idx s)) best q) s' /\ Tip (chainActive (idx s')) = Some q /\ synced s' else good best s'.
Proof.
  intros G Ht Hb Hq. pose proof (g_inv _ _ G) as I. unfold DisconnectTip. rewrite Ht, (deref_Some _ _ _ Hb). cbn [bindR].
  destruct (disconnect_block (entries (idx s)) (ns_coins s) t) as [[v w]|] eqn:E; [|by exists s, false].
  destruct w; [|eexists _, false; split_and!; [reflexivity|done|done|]; apply (good_index best s G); [exact I|done|by exists t]].
  rewrite Hq. pose proof (ii_tip _ _ _ I t Ht) as [(b' & Hb' & Hn) _]. assert (b' = b) as -> by congruence.
  destruct (so_linked _ (ii_select _ _ _ I) t b q Hb Hn Hq) as (c & Hc & Hnc).
  destruct (UpdateTip_spec best (idx s) q I ltac:(by exists c)) as (ch & -> & Hch & I2). cbn [bindR]. eexists _, true. split_and!; [reflexivity|done|done| |done|].
  - apply (good_index best s G); [exact I2|done|by exists q].
  - exists q, c. split_and!; [done|done|]. by apply (disconnect_best (entries (idx s)) (ns_coins s) t b q c v true).
Qed.

Lemma disconnect_to_spec fuel best s t b f k :
  good best s -> Tip (chainActive (idx s)) = Some t -> entries (idx s) !! t = Some b -> walk (entries (idx s)) k t = Some f -> (k <= fuel)%nat -> synced s ->
  exists best' s' ok, disconnect_to fuel s (Some f) = Ok (s', ok) /\ good best' s' /\ entries (idx s') = entries (idx s)
    /\ setBlockIndexCandidates (idx s') = setBlockIndexCandidates (idx s) /\ (ok = true -> Tip (chainActive (idx s')) = Some f /\ synced s').
Proof.
  revert fuel best s t b. induction k as [|k IH]; intros fuel best s t b G Ht Hb Hw Hf Hs.
  - injection Hw as <-. exists best, s, true. destruct fuel; cbn [disconnect_to]; rewrite Ht, bool_decide_eq_true_2 by done; done.
  - destruct fuel as [|fuel]; [lia|]. cbn [disconnect_to]. rewrite Ht. pose proof (so_tree _ (ii_select _ _ _ (g_inv _ _ G))) as Htree.
    cbn [walk] in Hw. rewrite Hb in Hw. cbn [mbind option_bind] in Hw. destruct (pprev b) as [q|] eqn:Eq; [|done]. cbn [mbind option_bind] in Hw.
    assert (Hne : Some t <> Some f).
    { intros [= <-]. pose proof (walk_height _ (S k) t b t b Htree Hb) as Hh. cbn [walk] in Hh. rewrite Hb in Hh. cbn [mbind option_bind] in Hh. rewrite Eq in Hh.
      specialize (Hh Hw eq_refl). lia. }
    rewrite bool_decide_eq_false_2 by done. destruct (DisconnectTip_spec best s t b q G Ht Hb Eq) as (s1 & ok & -> & Ee & Ec & Hok). cbn [bindR].
    destruct ok; [|by exists best, s1, false]. destruct Hok as (G1 & Ht1 & Hs1). destruct (Htree t b Hb) as (_ & Hprev & _). unfold prev_ok in Hprev.
    rewrite Eq in Hprev. destruct Hprev as (c & Hc & _).
    destruct (IH fuel _ s1 q c G1 Ht1) as (best' & s' & ok & E & G' & Ee' & Ec' & Hok'); [by rewrite Ee|by rewrite Ee|lia|done|].
    exists best', s', ok. split_and!; [done|done|congruence|congruence|done].
Qed.

(** *** The blocks to connect *)

(** [l] are the blocks above [t], each with the one before it as its parent. *)
Inductive climb (st : store) : ptr -> list ptr -> ptr -> Prop :=
| climb_nil t : climb st t [] t
| climb_cons t p b l m : st !! p = Some b -> pprev b = Some t -> climb st p l m -> climb st t (p :: l) m.

Lemma climb_snoc st t l p b m : climb st t l p -> st !! m = Some b -> pprev b = Some p -> climb st t (l ++ [m]) m.
Proof. induction 1 as [t|t x c l p Hx Hp _ IH]; intros Hm Hb; cbn; [by eapply climb_cons; [..|constructor]|]. eapply climb_cons; [done|done|auto]. Qed.
Lemma climb_walk st t l m : climb st t l m -> walk st (length l) m = Some t.
Proof.
  induction 1 as [t|t x c l m Hx Hp _ IH]; [done|]. cbn [length]. by eapply walk_S.
Qed.
Lemma climb_elem st t l m x : climb st t l m -> x ∈ l -> exists j, (j < length l)%nat /\ walk st j m = Some x.
Proof.
  induction 1 as [t|t p c l m Hp Hprev Hc IH]; [by intros ?%elem_of_nil|]. intros [->|Hx]%elem_of_cons.
  - exists (length l). cbn. split; [lia|by apply climb_walk in Hc].
  - destruct (IH Hx) as (j & Hj & Hw). exists j. cbn. split; [lia|done].
Qed.
Lemma climb_tree st st' t l m : same_tree st st' -> climb st t l m -> climb st' t l m.
Proof.
  intros Hs. induction 1 as [t|t p c l m Hp Hprev _ IH]; [constructor|]. destruct (same_tree_lookup _ _ _ _ Hs Hp) as (c' & Hc' & (E & _)).
  eapply climb_cons; [done|congruence|done].
Qed.

Lemma collect_spec st : tree_ok st -> forall fuel m bm t bt k, st !! m = Some bm -> walk st k m = Some t -> st !! t = Some bt -> (k <= fuel)%nat ->
  exists l, collect fuel st (Some m) (nHeight bt) = Ok l /\ climb st t (rev l) m /\ length l = k.
Proof.
  intros Ht fuel. induction fuel as [|fuel IH]; intros m bm t bt k Hm Hw Hb Hk; cbn [collect]; rewrite (deref_Some _ _ _ Hm); cbn [bindR];
    pose proof (walk_steps st Ht m bm t bt k Hm Hw Hb) as Hsteps.
  - assert (k = 0%nat) as -> by lia. injection Hw as <-. exists []. rewrite (proj2 (Z.eqb_eq _ _)) by lia. split_and!; [done|constructor|done].
  - destruct k as [|k].
    + injection Hw as <-. exists []. rewrite (proj2 (Z.eqb_eq _ _)) by lia. split_and!; [done|constructor|done].
    + rewrite (proj2 (Z.eqb_neq _ _)) by lia. cbn [walk] in Hw. rewrite Hm in Hw. cbn [mbind option_bind] in Hw. destruct (pprev bm) as [q|] eqn:Eq; [|done].
      destruct (Ht m bm Hm) as (_ & Hprev & _). unfold prev_ok in Hprev. rewrite Eq in Hprev. destruct Hprev as (c & Hc & _).
      destruct (IH q c t bt k Hc Hw Hb) as (l & -> & Hl & Hlen); [lia|]. cbn [bindR]. exists (m :: l). split_and!; [done| |cbn; lia]. cbn [rev].
      by eapply climb_snoc.
Qed.

(** *** Connecting a batch *)

Lemma Prune_ok best i t m : index_inv best [] i -> Tip (chainActive i) = Some t -> m ∈ setBlockIndexCandidates i -> ~ worse (entries i) m t ->
  exists l, PruneBlockIndexCandidates i = Ok (set_candidates i l) /\ m ∈ l /\ l ⊆ setBlockIndexCandidates i /\ index_inv best [] (set_candidates i l).
Proof.
  intros I Ht Hm Hw. pose proof (ii_select _ _ _ I) as Hok. destruct (ii_tip _ _ _ I t Ht) as [(bt & Hbt & _) _].
  destruct (drop_worse_spec (entries i) t (setBlockIndexCandidates i)) as (l & El & _ & Hsub & Hkeep); [apply Hok|by exists bt| |apply Hok|].
  { apply Forall_forall. intros p Hp. destruct (so_candidates i Hok p Hp) as (b & Hb & _). by exists b. }
  assert (Hml : m ∈ l) by (destruct (Hkeep m Hm); done).
  assert (E : PruneBlockIndexCandidates i = Ok (set_candidates i l)).
  { unfold PruneBlockIndexCandidates. rewrite Ht. destruct (setBlockIndexCandidates i) as [|c cs] eqn:Hc; [by apply elem_of_nil in Hm|].
    rewrite El. cbn [bindR]. destruct l; [by apply elem_of_nil in Hml|done]. }
  exists l. split_and!; [done|done|exact Hsub|]. by eapply inv_prune.
Qed.

(** What is left after blocks have been connected on the way to [m]. *)
Record advanced (s s' : node_state V) (m t : ptr) : Prop := {
  ad_tip : Tip (chainActive (idx s')) = Some t;
  ad_synced : synced s';
  ad_noted : noted_all (entries (idx s)) (entries (idx s'));
  ad_candidate : m ∈ setBlockIndexCandidates (idx s');
  ad_subset : setBlockIndexCandidates (idx s') ⊆ setBlockIndexCandidates (idx s)
}.
(** A block was found to be invalid. *)
Definition caught (s s' : node_state V) : Prop :=
  evolve (entries (idx s)) (entries (idx s')) /\ synced s'
  /\ exists x, in_store (entries (idx s)) x /\ ~ marked (entries (idx s)) x /\ marked (entries (idx s')) x.

Lemma advanced_trans s s1 s2 m t t' : advanced s s1 m t -> advanced s1 s2 m t' -> advanced s s2 m t'.
Proof. intros [A1 A2 A3 A4 A5] [B1 B2 B3 B4 B5]. split; try done; by etrans. Qed.
Lemma evolve_trans st st1 st2 : evolve st st1 -> evolve st1 st2 -> evolve st st2.
Proof.
  intros A B p. specialize (A p). specialize (B p). destruct A as [b b1 [A1 A2 A3 A4 A5 A6 A7]|]; inversion B as [? b2 [B1 B2 B3 B4 B5 B6 B7]|]; subst; constructor.
  split; try congruence; [by eapply same_place_trans|auto|lia].
Qed.
Lemma caught_after s s1 s2 m t : advanced s s1 m t -> caught s1 s2 -> caught s s2.
Proof.
  intros A (B1 & B2 & x & [b Hx] & Hn & Hm). pose proof (noted_evolve _ _ (ad_noted _ _ _ _ A)) as He. split_and!; [by eapply evolve_trans|done|]. exists x.
  rewrite <- (noted_marked _ _ x (ad_noted _ _ _ _ A)). split_and!; [|done|done]. destruct (evolve_lookup_inv _ _ _ _ He Hx) as (b0 & Hb0 & _). by exists b0.
Qed.

Lemma InvalidBlockFound_caught best s i p : good best s -> synced s -> linked (entries (idx s)) p -> ~ marked (entries (idx s)) p ->
  InvalidBlockFound (idx s) p false = Ok i -> good best (with_index s i) /\ caught s (with_index s i).
Proof.
  intros G (t & bt & Ht & Hbt & Hbest) Hl Hn E. pose proof Hl as (b & Hb & _).
  pose proof (inv_invalid best [] (idx s) i p false (g_inv _ _ G) Hl E) as I'.
  assert (Hi : chainActive i = chainActive (idx s) /\ entries i = <[p := fail_entry b BLOCK_FAILED_VALID]> (entries (idx s))).
  { unfold InvalidBlockFound in E. rewrite (deref_Some _ _ _ Hb) in E. cbn [bindR] in E. unfold InvalidChainFound in E.
    apply bindR_Ok in E as (b1 & _ & E). apply bindR_Ok in E as (better & _ & E). destruct (bool_decide _); [|done]. injection E as <-. by destruct better. }
  destruct Hi as [Ec Ee]. assert (He : evolve (entries (idx s)) (entries i)).
  { rewrite Ee. apply (evolve_insert _ _ b); [done|]. apply more_failed_evolves, more_failed_fail. by left. }
  split; [apply (good_index best s G); [exact I'|by apply evolve_tree|exists t; by cbn; rewrite Ec]|]. split_and!; [done| |].
  - destruct (evolve_lookup _ _ _ _ He Hbt) as (bt' & Hbt' & Hx). exists t, bt'. cbn. rewrite Ec. split_and!; [done|done|].
    destruct (ev_place _ _ Hx) as (_ & _ & _ & _ & _ & <-). done.
  - exists p. split_and!; [by exists b|done|]. cbn. rewrite Ee. eexists. split; [apply lookup_insert_eq|]. apply fail_entry_failed. by left.
Qed.

Lemma set_invalid_keeps best s (better : bool) q : good best s -> in_store (entries (idx s)) q ->
  good best (with_index s (if better then set_best_invalid (idx s) (Some q) else idx s)).
Proof.
  intros G Hq. destruct better; [|by destruct s]. apply (good_index best s G); [|done|apply G]. pose proof (g_inv _ _ G) as I.
  apply (inv_trimmed (fun _ => False) best [] (idx s)); [done|apply trimmed_best|done| |done|done]. intros x. cbn. by intros [= <-].
Qed.

(** The blocks read from disk, and the block that is given, pass the checks that
    show corruption: the transactions are those the header commits to. *)
Context (pblock : option CBlockInMemory).
Definition offered (pb : option CBlockInMemory) : Prop := pb = None \/ pb = pblock.
Context (no_corruption : forall st v p pb, offered pb -> connect_block st v p pb <> Invalid true).

(** Connecting the block after the tip fails an assertion, in a consistent state
    that comes from [s]. *)
Definition crashes (s : node_state V) : Prop :=
  exists best s1 p b pb, good best s1 /\ synced s1 /\ evolve (entries (idx s)) (entries (idx s1)) /\ entries (idx s1) !! p = Some b
    /\ pprev b = Tip (chainActive (idx s1)) /\ linked (entries (idx s1)) p /\ offered pb
    /\ connect_block (entries (idx s1)) (ns_coins s1) p pb = Crashed.
Lemma crashes_after s s1 : evolve (entries (idx s)) (entries (idx s1)) -> crashes s1 -> crashes s.
Proof. intros He (best & s2 & p & b & pb & G & Hs & He2 & Hr). exists best, s2, p, b, pb. split_and!; try done; [by eapply evolve_trans|apply Hr..]. Qed.
Lemma offered_if (c : bool) pb : offered pb -> offered (if c then pb else None).
Proof. destruct c; [done|by left]. Qed.

(** The result of connecting the blocks [l], from [t] up to [top], on the way to [m]. *)
Definition outcome (s s' : node_state V) (m t : ptr) (l : list ptr) (top : ptr) (r : progress) : Prop :=
  match r with
  | ConnectedAll => advanced s s' m top
  | BetterTip => exists l1 l2 t', l = l1 ++ l2 /\ l1 <> [] /\ climb (entries (idx s)) t l1 t' /\ advanced s s' m t'
  | FoundInvalid => caught s s'
  | Failed => True
  end.

Lemma better_ok i old t : select_ok i -> (forall o, old = Some o -> in_store (entries i) o) -> in_store (entries i) t -> Tip (chainActive i) = Some t ->
  exists better : bool, (match old with
    | None => Ok true
    | Some o =>
        let* bt := deref (entries i) o in
        match Tip (chainActive i) with
        | None => Err DanglingPointer
        | Some t' => let* bt' := deref (entries i) t' in Ok (ArithUint.op_gt (nChainWork bt') (nChainWork bt))
        end
    end) = Ok better.
Proof.
  intros Hok Ho [bt Hbt] Ht. destruct old as [o|]; [|by exists true]. destruct (Ho o eq_refl) as [bo Hbo]. rewrite (deref_Some _ _ _ Hbo). cbn [bindR].
  rewrite Ht, (deref_Some _ _ _ Hbt). cbn [bindR]. by eexists.
Qed.

Lemma tip_verdict st (v : V) p pb : connect_block st v p pb = Crashed \/ connect_block st v p pb <> Crashed.
Proof. destruct (connect_block st v p pb); by (by left) || (by right). Qed.

(** One block of the batch. *)
Lemma connect_one best s old first p b t m pb :
  offered pb -> good best s -> synced s -> Tip (chainActive (idx s)) = Some t -> entries (idx s) !! p = Some b -> pprev b = Some t ->
  linked (entries (idx s)) p -> ~ marked (entries (idx s)) p -> in_store (entries (idx s)) first ->
  (forall o, old = Some o -> in_store (entries (idx s)) o) -> m ∈ setBlockIndexCandidates (idx s) -> ~ worse (entries (idx s)) m p ->
  (crashes s /\ forall l, connect_list s old m pb first (p :: l) = Err AssertFailed)
  \/ (exists s1 better, advanced s s1 m p /\ (exists best1, good best1 s1)
    /\ forall l, connect_list s old m pb first (p :: l) = if better : bool then Ok (s1, BetterTip) else connect_list s1 old m pb first l)
  \/ exists best1 s1 r, good best1 s1 /\ (r = FoundInvalid /\ caught s s1 \/ r = Failed)
    /\ forall l, connect_list s old m pb first (p :: l) = Ok (s1, r).
Proof.
  intros Hpb G Hs Ht Hb Hp Hl Hn Hfirst Hold Hm Hw. cbn [connect_list]. set (pb' := if bool_decide (p = m) then pb else None).
  assert (Hpb' : offered pb') by (by apply offered_if). destruct (tip_verdict (entries (idx s)) (ns_coins s) p pb') as [Hcr|Hcr].
  { left. split; [|intros l; unfold ConnectTip; rewrite (deref_Some _ _ _ Hb); cbn [bindR]; by rewrite bool_decide_eq_true_2, Hcr by congruence].
    exists best, s, p, b, pb'. split_and!; try done; [|congruence]. intros x. destruct (entries (idx s) !! x); constructor. apply evolves_refl. }
  right. destruct (ConnectTip_spec best s p b pb') as (s1 & r & -> & Hr); [done|done|congruence|done|done|done|]. cbn [bindR]. destruct r as [|corruption|].
  - left. destruct Hr as (G1 & Ht1 & Hs1 & Hn1 & Hc1). pose proof (noted_evolve _ _ Hn1) as He.
    destruct (Prune_ok _ (idx s1) p m (g_inv _ _ G1) Ht1) as (l' & -> & Hml & Hsub & I'); [by rewrite Hc1|by rewrite <- (evolve_worse _ _ He)|]. cbn [bindR].
    assert (G2 : good (raise_best (entries (idx s)) best p) (with_index s1 (set_candidates (idx s1) l'))) by (apply (good_index _ s1 G1); [exact I'|done|by exists p]).
    destruct (better_ok (set_candidates (idx s1) l') old p) as (better & ->); [apply I'| |destruct (ii_tip _ _ _ I' p Ht1) as [(bp & Hbp & _) _]; by exists bp|done|].
    { intros o Ho. destruct (Hold o Ho) as [bo Hbo]. destruct (evolve_lookup _ _ _ _ He Hbo) as (bo' & Hbo' & _). by exists bo'. }
    cbn [bindR]. exists (with_index s1 (set_candidates (idx s1) l')), better. split_and!; [split; [exact Ht1|exact Hs1|exact Hn1|exact Hml|by rewrite <- Hc1]|eauto|]. intros l. by destruct better.
  - right. destruct Hr as (Ec & Ei & Ecoins). destruct corruption; [by destruct (no_corruption (entries (idx s)) (ns_coins s) p pb')|].
    destruct (InvalidBlockFound_caught best s (idx s1) p G Hs Hl Hn Ei) as [G1 C1].
    assert (E1 : with_index s (idx s1) = s1) by (destruct s1; cbn in *; by subst). rewrite E1 in G1, C1.
    destruct C1 as (He & Hs1 & Hx). destruct Hfirst as [bf Hbf]. destruct (evolve_lookup _ _ _ _ He Hbf) as (bf' & Hbf' & _). destruct (g_tip _ _ G1) as [t1 Ht1].
    destruct (InvalidChainFound_ok (idx s1) first bf' t1 (ii_select _ _ _ (g_inv _ _ G1)) Hbf' Ht1) as [better ->]. cbn [bindR].
    eexists best, _, FoundInvalid. split_and!; [apply (set_invalid_keeps best s1 better first G1); by exists bf'| |done].
    left. split; [done|]. destruct better; [done|]. destruct s1. done.
  - right. exists best, s1, Failed. split_and!; [done|by right|done].
Qed.

Lemma connect_list_spec best s old first l t top m pb :
  offered pb -> good best s -> synced s -> Tip (chainActive (idx s)) = Some t -> climb (entries (idx s)) t l top ->
  (forall x, x ∈ l -> linked (entries (idx s)) x /\ ~ marked (entries (idx s)) x /\ ~ worse (entries (idx s)) m x) ->
  in_store (entries (idx s)) first -> (forall o, old = Some o -> in_store (entries (idx s)) o) -> m ∈ setBlockIndexCandidates (idx s) ->
  (crashes s /\ connect_list s old m pb first l = Err AssertFailed)
  \/ exists best' s' r, connect_list s old m pb first l = Ok (s', r) /\ good best' s' /\ outcome s s' m t l top r.
Proof using no_corruption.
  intros Hpb. revert best s t. induction l as [|p l IH]; intros best s t G Hs Ht Hc Hall Hfirst Hold Hm.
  - right. inversion Hc; subst. exists best, s, ConnectedAll. split_and!; [done|done|]. by split.
  - inversion Hc as [|? ? b ? ? Hb Hp Hc']; subst. destruct (Hall p) as (Hl & Hn & Hw); [by left|].
    destruct (connect_one best s old first p b t m pb) as [[C E]|[(s1 & better & A & [best1 G1] & E)|(best1 & s1 & r & G1 & Hr & E)]]; try done.
    1: { left. by rewrite E. }
    2: { right. exists best1, s1, r. rewrite E. split_and!; [done|done|]. destruct Hr as [[-> ?]| ->]; done. }
    rewrite E. pose proof (noted_evolve _ _ (ad_noted _ _ _ _ A)) as He.
    assert (Hlook : forall x, in_store (entries (idx s)) x -> in_store (entries (idx s1)) x).
    { intros x [c Hx]. destruct (evolve_lookup _ _ _ _ He Hx) as (c' & Hx' & _). by exists c'. }
    destruct better.
    { right. exists best1, s1, BetterTip. split_and!; [done|done|]. exists [p], l, p. split_and!; [done|done| |done]. by eapply climb_cons; [..|constructor]. }
    destruct (IH best1 s1 p) as [[C E']|(best' & s' & r & E' & G' & Ho)]; [done|apply A|apply A|by eapply climb_tree, Hc'; apply evolve_tree| |auto|auto|apply A| |].
    { intros x Hx. rewrite (evolve_linked _ _ He), (noted_marked _ _ _ (ad_noted _ _ _ _ A)), <- (evolve_worse _ _ He). apply Hall. by right. }
    { left. split; [by eapply crashes_after|done]. }
    right. exists best', s', r. split_and!; [done|done|]. destruct r; cbn [outcome] in *; [by eapply advanced_trans| |by eapply caught_after|done].
    destruct Ho as (l1 & l2 & t' & -> & _ & Hcl & A'). exists (p :: l1), l2, t'. split_and!; [done|done| |by eapply advanced_trans].
    eapply climb_cons; [done|done|]. eapply climb_tree, Hcl. symmetry. by apply evolve_tree.
Qed.

(** *** Connecting up to the most-work block *)

(** The first [k] blocks of the chain of [m], counted from [m], can be connected. *)
Definition route (st : store) (m : ptr) (k : nat) : Prop :=
  forall j x, (j < k)%nat -> walk st j m = Some x -> linked st x /\ ~ marked st x.

Definition range_outcome (s s' : node_state V) (m : ptr) (k : nat) (r : progress) : Prop :=
  match r with
  | ConnectedAll => advanced s s' m m
  | BetterTip => exists k' t, (k' < k)%nat /\ walk (entries (idx s)) k' m = Some t /\ advanced s s' m t
  | FoundInvalid => caught s s'
  | Failed => True
  end.

Lemma route_noted st st' m k k' : noted_all st st' -> route st m k -> (k' <= k)%nat -> route st' m k'.
Proof.
  intros Hn Hr Hk j x Hj Hw. pose proof (noted_evolve _ _ Hn) as He. rewrite (evolve_linked _ _ He), (noted_marked _ _ _ Hn). apply (Hr j); [lia|].
  by rewrite (same_tree_walk _ _ (evolve_tree _ _ He)).
Qed.

Lemma climb_app st t l1 l2 t' m : climb st t (l1 ++ l2) m -> climb st t l1 t' -> climb st t' l2 m.
Proof.
  revert t. induction l1 as [|p l1 IH]; intros t Hc H1; inversion H1; subst; [done|]. inversion Hc; subst. by eapply IH.
Qed.

(** One batch of blocks. *)
Lemma connect_batch best s old m bm t bt k pb :
  offered pb -> good best s -> synced s -> Tip (chainActive (idx s)) = Some t -> entries (idx s) !! t = Some bt -> entries (idx s) !! m = Some bm ->
  walk (entries (idx s)) k m = Some t -> route (entries (idx s)) m k -> m ∈ setBlockIndexCandidates (idx s) ->
  (forall o, old = Some o -> in_store (entries (idx s)) o) -> k <> 0%nat ->
  exists l x bx d, GetAncestor (entries (idx s)) m (Z.min (nHeight bt + 32) (nHeight bm)) = Ok (Some x)
    /\ collect (S (Z.to_nat (nHeight bm))) (entries (idx s)) (Some x) (nHeight bt) = Ok l
    /\ (d < k)%nat /\ walk (entries (idx s)) d m = Some x /\ entries (idx s) !! x = Some bx
    /\ nHeight bx = Z.min (nHeight bt + 32) (nHeight bm)
    /\ let batch := match rev l with [] => Ok (s, ConnectedAll) | first :: _ => connect_list s old m pb first (rev l) end in
       (crashes s /\ batch = Err AssertFailed)
       \/ exists best1 s1 r, batch = Ok (s1, r) /\ good best1 s1 /\ match r with ConnectedAll => advanced s s1 m x | _ => range_outcome s s1 m k r end.
Proof using no_corruption.
  intros Hpb G Hs Ht Hbt Hm Hw Hr Hc Ho Hk. pose proof (so_tree _ (ii_select _ _ _ (g_inv _ _ G))) as Htree.
  pose proof (walk_steps _ Htree m bm t bt k Hm Hw Hbt) as Hsteps. set (target := Z.min (nHeight bt + 32) (nHeight bm)). pose proof (height_nonneg _ Htree t bt Hbt).
  destruct (GetAncestor_Some _ Htree m bm target Hm) as (x & bx & E0 & Hwx & Hx & Hhx); [lia|]. set (d := Z.to_nat (nHeight bm - target)) in *.
  assert (Hwt : walk (entries (idx s)) (k - d) x = Some t).
  { replace k with (d + (k - d))%nat in Hw by lia. by rewrite walk_add, Hwx in Hw. }
  destruct (collect_spec _ Htree (S (Z.to_nat (nHeight bm))) x bx t bt (k - d) Hx Hwt Hbt) as (l & El0 & Hcl & Hlen); [lia|].
  destruct (rev l) as [|first l'] eqn:El; [apply (f_equal length) in El; rewrite length_rev in El; cbn in El; lia|]. rewrite <- El in *.
  assert (Hfirst : in_store (entries (idx s)) first) by (rewrite El in Hcl; inversion Hcl; subst; by eexists).
  exists l, x, bx, d. split_and!; try done; [lia|].
  destruct (connect_list_spec best s old first (rev l) t x m pb) as [C|(best1 & s1 & r & E1 & G1 & O1)]; try done.
  { intros y Hy. destruct (climb_elem _ _ _ _ _ Hcl Hy) as (j & Hj & Hwj). rewrite length_rev in Hj.
    assert (Hwy : walk (entries (idx s)) (d + j) m = Some y) by (by rewrite walk_add, Hwx). destruct (Hr (d + j)%nat y) as [Hl Hn]; [lia|done|].
    split_and!; [done|done|]. eapply ancestor_not_better; [done|apply G|done|done]. }
  { left. by rewrite El in *. }
  right. exists best1, s1, r. rewrite El in *. split_and!; try done. rewrite <- El in *. destruct r; cbn [outcome range_outcome] in *; try done.
  destruct O1 as (l1 & l2 & t' & Hl12 & Hne & Hcl1 & A). rewrite Hl12 in Hcl. exists (d + length l2)%nat, t'. split_and!; [|by rewrite walk_add, Hwx; apply climb_walk; eapply climb_app|done].
  apply (f_equal length) in Hl12. rewrite length_rev, length_app in Hl12. destruct l1; [done|]. cbn in Hl12. lia.
Qed.

Lemma connect_range_spec fuel best s old m bm t bt k pb :
  offered pb -> good best s -> synced s -> Tip (chainActive (idx s)) = Some t -> entries (idx s) !! t = Some bt -> entries (idx s) !! m = Some bm ->
  walk (entries (idx s)) k m = Some t -> route (entries (idx s)) m k -> m ∈ setBlockIndexCandidates (idx s) ->
  (forall o, old = Some o -> in_store (entries (idx s)) o) -> (k <= fuel)%nat ->
  (crashes s /\ connect_range fuel s old m pb (nHeight bt) = Err AssertFailed)
  \/ exists best' s' r, connect_range fuel s old m pb (nHeight bt) = Ok (s', r) /\ good best' s' /\ range_outcome s s' m k r.
Proof using no_corruption.
  intros Hpb. revert best s bm t bt k. induction fuel as [|fuel IH]; intros best s bm t bt k G Hs Ht Hbt Hm Hw Hr Hc Ho Hk;
    pose proof (so_tree _ (ii_select _ _ _ (g_inv _ _ G))) as Htree; pose proof (walk_steps _ Htree m bm t bt k Hm Hw Hbt) as Hsteps;
    cbn [connect_range]; rewrite (deref_Some _ _ _ Hm); cbn [bindR]; destruct (Z.eqb_spec (nHeight bt) (nHeight bm)) as [Eh|Eh].
  1, 3: right; assert (k = 0%nat) as -> by lia; injection Hw as <-; exists best, s, ConnectedAll; by split_and!.
  - lia.
  - destruct (connect_batch best s old m bm t bt k pb) as (l & x & bx & d & -> & E2 & Hd & Hwx & Hx & Hhx & [[C E3]|(best1 & s1 & r & E3 & G1 & O1)]); try done; [lia|..];
      cbn [bindR]; rewrite E2; cbn [bindR]; rewrite E3; cbn [bindR]; [by left|].
    destruct r; [|right; exists best1, s1; eexists; split_and!; [reflexivity|done|exact O1]..].
    pose proof (noted_tree _ _ (ad_noted _ _ _ _ O1)) as Hst. destruct (same_tree_lookup _ _ _ _ Hst Hx) as (bx' & Hx' & (_ & _ & Ex & _)).
    destruct (same_tree_lookup _ _ _ _ Hst Hm) as (bm' & Hm' & _). rewrite <- Hhx, Ex.
    destruct (IH best1 s1 bm' x bx' d) as [[C ->]|(best' & s' & r & -> & G' & O')]; [done|apply O1|apply O1|done|done| | |apply O1| |lia| |].
    { by rewrite <- (same_tree_walk _ _ Hst). } { eapply route_noted; [apply O1|done|lia]. }
    { intros o Hoo. destruct (Ho o Hoo) as [bo Hbo]. destruct (same_tree_lookup _ _ _ _ Hst Hbo) as (bo' & Hbo' & _). by exists bo'. }
    { left. split; [|done]. eapply crashes_after, C. apply noted_evolve, O1. }
    right. exists best', s', r. split_and!; [done|done|]. destruct r; cbn [range_outcome] in *; [by eapply advanced_trans| |by eapply caught_after|done].
    destruct O' as (k' & t' & Hk' & Hw' & A'). exists k', t'. split_and!; [lia|by rewrite (same_tree_walk _ _ Hst)|by eapply advanced_trans].
Qed.

(** *** A step *)

Definition step_outcome (s s' : node_state V) (m : ptr) (k : nat) (r : option bool) : Prop :=
  match r with
  | None => True
  | Some true => caught s s'
  | Some false => exists k' t, walk (entries (idx s)) k' m = Some t /\ advanced s s' m t /\ (k' < k \/ t = m)%nat
  end.

Lemma step_spec best s m bm f k pb :
  offered pb -> good best s -> synced s -> entries (idx s) !! m = Some bm -> m ∈ setBlockIndexCandidates (idx s) ->
  FindFork (entries (idx s)) (chainActive (idx s)) (Some m) = Ok (Some f) -> walk (entries (idx s)) k m = Some f ->
  in_chain (entries (idx s)) (chainActive (idx s)) f -> route (entries (idx s)) m k ->
  (crashes s /\ ActivateBestChainStep s m pb = Err AssertFailed)
  \/ exists best' s' r, ActivateBestChainStep s m pb = Ok (s', r) /\ good best' s' /\ step_outcome s s' m k r.
Proof using no_corruption.
  intros Hpb G Hs Hm Hc Hfork Hwk Hin Hr. pose proof (ii_select _ _ _ (g_inv _ _ G)) as Hok. pose proof (so_tree _ Hok) as Htree. pose proof Hs as (t & bt & Ht & Hbt & _).
  destruct (tip_chain _ Htree _ t (so_chain _ Hok) Ht) as (bt' & Hbt' & Ech). assert (bt' = bt) as -> by congruence.
  rewrite Ech in Hin. apply (in_branch _ Htree t bt f Hbt) in Hin as [j Hj]. pose proof (walk_end _ Htree t bt j f Hbt Hj) as Hjt.
  pose proof (height_nonneg _ Htree t bt Hbt). destruct (walk_ok _ Htree j t bt Hbt) as (f' & bf & Hw' & Hf & Hhf); [lia|]. rewrite Hj in Hw'. injection Hw' as <-.
  unfold ActivateBestChainStep. rewrite Hfork. cbn [bindR]. rewrite (deref_Some _ _ _ Hf). cbn [bindR]. rewrite Ht, (deref_Some _ _ _ Hbt). cbn [bindR].
  change (default (-1) (Some (nHeight bf))) with (nHeight bf).
  destruct (MAX_REORG_LENGTH <? _); [right; by exists best, s, None|].
  destruct (disconnect_to_spec (length (chainActive (idx s))) best s t bt f j G Ht Hbt Hj) as (best1 & s1 & ok & -> & G1 & Ee & Ec & Hok1); [rewrite Ech, length_branch; lia|done|].
  cbn [bindR]. destruct ok; [|right; by exists best1, s1, None]. destruct (Hok1 eq_refl) as [Ht1 Hs1]. rewrite (deref_Some _ _ _ Hm). cbn [bindR].
  pose proof (walk_end _ Htree m bm k f Hm Hwk).
  destruct (connect_range_spec (S (Z.to_nat (nHeight bm))) best1 s1 (Some t) m bm f bf k pb) as [[C ->]|(best' & s' & r & -> & G' & O')]; rewrite ?Ee, ?Ec; try done; [|lia|..].
  { intros o [= <-]. by exists bt. }
  { left. split; [|done]. eapply crashes_after, C. rewrite Ee. intros x. destruct (entries (idx s) !! x); constructor. apply evolves_refl. }
  right. cbn [bindR]. destruct (g_tip _ _ G') as [t' Ht']. rewrite Ht'.
  assert (Hadv : forall x, advanced s1 s' m x -> advanced s s' m x) by (intros x [A1 A2 A3 A4 A5]; split; try done; [by rewrite <- Ee|by rewrite <- Ec]).
  destruct r; cbn [range_outcome] in O'.
  - exists best', s', (Some false). split_and!; [done|done|]. exists 0%nat, m. split_and!; [done|auto|by right].
  - exists best', s', (Some false). split_and!; [done|done|]. destruct O' as (k' & x & Hk' & Hw' & A). exists k', x. rewrite Ee in Hw'. split_and!; [done|auto|by left].
  - exists best', s', (Some true). split_and!; [done|done|]. unfold caught in *. by rewrite Ee in O'.
  - exists best', s', None. by split_and!.
Qed.

(** *** The loop ends *)

(** The number of blocks of [l] that are not marked as failed. *)
Definition is_unmarked (st : store) (p : ptr) : bool := match st !! p with Some b => negb (entry_failed b) | None => false end.
Definition unmarked_count (l : list ptr) (st : store) : nat := length (filter (fun p => is_unmarked st p = true) l).

Lemma is_unmarked_spec st p : is_unmarked st p = true <-> in_store st p /\ ~ marked st p.
Proof.
  unfold is_unmarked, in_store, marked. destruct (st !! p) as [b|]; [|split; [done|by intros [[? ?] _]]]. rewrite negb_true_iff. split.
  - intros Hf. split; [by exists b|]. intros (c & [= <-] & Hc). congruence.
  - intros [_ Hn]. destruct (entry_failed b) eqn:E; [|done]. destruct Hn. by exists b.
Qed.
Lemma evolve_unmarked st st' p : evolve st st' -> is_unmarked st' p = true -> is_unmarked st p = true.
Proof.
  intros He. rewrite !is_unmarked_spec. intros [[b' Hb'] Hn]. destruct (evolve_lookup_inv _ _ _ _ He Hb') as (b & Hb & _). split; [by exists b|].
  intros Hm. by apply Hn, (evolve_marked _ _ He).
Qed.
Lemma count_evolve l st st' : evolve st st' -> (unmarked_count l st' <= unmarked_count l st)%nat.
Proof.
  intros He. unfold unmarked_count. induction l as [|x l IH]; [done|]. rewrite !filter_cons. pose proof (evolve_unmarked st st' x He).
  repeat case_decide; cbn; try lia. tauto.
Qed.
Lemma count_caught l st st' x : evolve st st' -> x ∈ l -> in_store st x -> ~ marked st x -> marked st' x -> (unmarked_count l st' < unmarked_count l st)%nat.
Proof.
  intros He Hx Hin Hn Hm. assert (H1 : is_unmarked st x = true) by (by apply is_unmarked_spec). assert (H2 : is_unmarked st' x <> true) by (rewrite is_unmarked_spec; tauto).
  unfold unmarked_count. induction l as [|y l IH]; [by apply elem_of_nil in Hx|]. rewrite !filter_cons. pose proof (evolve_unmarked st st' y He).
  pose proof (count_evolve l st st' He) as Hle. unfold unmarked_count in Hle. apply elem_of_cons in Hx as [<-|Hx].
  - rewrite decide_False, decide_True by done. cbn. lia.
  - specialize (IH Hx). repeat case_decide; cbn; try lia. tauto.
Qed.

(** The tip is the best of all blocks. *)
Definition settled (best : option ptr) (s : node_state V) : Prop :=
  forall q, available (entries (idx s)) q ->
    (forall f, best = Some f -> worse (entries (idx s)) q f -> available (entries (idx s)) f) ->
    exists t, Tip (chainActive (idx s)) = Some t /\ (q = t \/ worse (entries (idx s)) q t).
(** [m] is the best candidate. *)
Definition picked (s : node_state V) (m : ptr) : Prop :=
  m ∈ setBlockIndexCandidates (idx s) /\ (forall q, q ∈ setBlockIndexCandidates (idx s) -> q = m \/ worse (entries (idx s)) q m)
  /\ usable (entries (idx s)) (chainActive (idx s)) m.

Lemma settled_picked best s m : good best s -> picked s m -> Tip (chainActive (idx s)) = Some m -> settled best s.
Proof.
  intros G (_ & Hp & _) Ht q Ha Hb. destruct (search_best best (idx s) q (g_inv _ _ G) Ha Hb) as (q' & Hq' & _ & Hor). exists m. split; [done|].
  destruct (Hp q' Hq') as [->|Hw]; [done|]. right. destruct Hor as [->|Hor]; [done|by eapply worse_trans].
Qed.
Lemma picked_route best s m k : good best s -> picked s m ->
  (forall j q, (j < k)%nat -> walk (entries (idx s)) j m = Some q -> ~ in_chain (entries (idx s)) (chainActive (idx s)) q) -> route (entries (idx s)) m k.
Proof.
  intros G (Hm & _ & Hu) Hmin j x Hj Hw. pose proof (ii_select _ _ _ (g_inv _ _ G)) as Hok. destruct (so_candidates _ Hok m Hm) as (bm & Hbm & Hn).
  pose proof (so_tree _ Hok) as Htree. pose proof (walk_end _ Htree m bm j x Hbm Hw). destruct (walk_ok _ Htree j m bm Hbm) as (x' & bx & Hw' & Hx & _); [lia|].
  rewrite Hw in Hw'. injection Hw' as <-. split; [exists bx; split; [done|]; by eapply (linked_walk _ j m bm)|].
  intros (b' & Hb' & Hf). destruct (Hu j x bx Hw) as [Hf' _]; [|done|congruence]. intros i y Hi Hy. apply (Hmin i y); [lia|done].
Qed.
Lemma advanced_picked s s' best' m t k k' : good best' s' -> picked s m -> advanced s s' m t -> route (entries (idx s)) m k ->
  walk (entries (idx s)) k' m = Some t -> (k' <= k)%nat -> picked s' m.
Proof.
  intros G' (_ & Hp & _) [A1 A2 A3 A4 A5] Hr Hw Hk. pose proof (noted_evolve _ _ A3) as He. split_and!; [done| |].
  - intros q Hq. rewrite <- (evolve_worse _ _ He). apply Hp. by apply A5.
  - pose proof (ii_select _ _ _ (g_inv _ _ G')) as Hok. intros j q b Hj Ho Hb. rewrite (same_tree_walk _ _ (evolve_tree _ _ He)) in Hw.
    assert (Hlt : (j < k')%nat).
    { destruct (decide (j < k')%nat); [done|]. exfalso. apply (Ho k' t); [lia|done|]. destruct (tip_chain _ (so_tree _ Hok) _ t (so_chain _ Hok) A1) as (bt & Hbt & ->).
      apply (in_branch _ (so_tree _ Hok) t bt t Hbt). by exists 0%nat. }
    destruct (route_noted _ _ m k k' A3 Hr Hk j q Hlt Hj) as [(b' & Hb' & Hn) Hm]. assert (b' = b) as -> by congruence.
    pose proof (ii_entry _ _ _ (g_inv _ _ G') q b Hb) as Hok'. split.
    + destruct (entry_failed b) eqn:E; [|done]. destruct Hm. by exists b.
    + destruct (entry_data b) eqn:E; [done|]. by destruct (eo_header b Hok' E).
Qed.

Definition covers (l : list ptr) (s : node_state V) : Prop := forall p, in_store (entries (idx s)) p -> p ∈ l.
(** A result of the loop that started from [s]: a crash, or a consistent state
    that is the best one if success is reported. *)
Definition activated (s : node_state V) (x : result chain_error (node_state V * bool)) : Prop :=
  (x = Err AssertFailed /\ crashes s)
  \/ exists s' ok best', x = Ok (s', ok) /\ good best' s' /\ (ok = true -> synced s' /\ settled best' s').
Definition finishes (s : node_state V) (m : option ptr) : Prop :=
  exists n x, (forall fuel, (n <= fuel)%nat -> activate_loop fuel s m pblock = x) /\ activated s x.
Lemma activated_after s s1 x : evolve (entries (idx s)) (entries (idx s1)) -> activated s1 x -> activated s x.
Proof. intros He [[-> C]|Hx]; [left; split; [done|by eapply crashes_after]|by right]. Qed.

Lemma covers_evolve l s s' : evolve (entries (idx s)) (entries (idx s')) -> covers l s -> covers l s'.
Proof. intros He Hc p [b' Hb']. destruct (evolve_lookup_inv _ _ _ _ He Hb') as (b & Hb & _). apply Hc. by exists b. Qed.
Lemma with_same_index (s : node_state V) : with_index s (idx s) = s.
Proof. by destruct s. Qed.

Lemma block_of_ok st pb m b : st !! m = Some b -> exists given, block_of st pb m = Ok given /\ (given = None \/ given = pb).
Proof.
  intros Hm. unfold block_of. destruct pb as [block|]; [|eauto]. rewrite (deref_Some _ _ _ Hm). cbn [bindR]. eexists. split; [done|].
  destruct (header_GetHash block); [case_bool_decide|]; auto.
Qed.
Lemma picked_loop s m fuel pb given : Some m <> Tip (chainActive (idx s)) -> block_of (entries (idx s)) pb m = Ok given ->
  activate_loop (S fuel) s (Some m) pb =
    (let* (s', r) := ActivateBestChainStep s m given in
     match r with
     | None => Ok (s', false)
     | Some found =>
         let next := if found : bool then None else Some m in
         if bool_decide (Tip (chainActive (idx s')) = next) then Ok (s', periodic_flush (ns_coins s')) else activate_loop fuel s' next pb
     end).
Proof. intros Hne Hb. cbn [activate_loop bindR]. rewrite with_same_index. rewrite bool_decide_eq_false_2 by done. by rewrite Hb. Qed.

Lemma loop_picked l u :
  (forall best s, good best s -> synced s -> covers l s -> (unmarked_count l (entries (idx s)) < u)%nat -> finishes s None) ->
  forall k best s m bm f, good best s -> synced s -> covers l s -> (unmarked_count l (entries (idx s)) <= u)%nat -> picked s m ->
    entries (idx s) !! m = Some bm -> FindFork (entries (idx s)) (chainActive (idx s)) (Some m) = Ok (Some f) -> walk (entries (idx s)) k m = Some f ->
    in_chain (entries (idx s)) (chainActive (idx s)) f ->
    (forall j q, (j < k)%nat -> walk (entries (idx s)) j m = Some q -> ~ in_chain (entries (idx s)) (chainActive (idx s)) q) -> finishes s (Some m).
Proof using no_corruption.
  intros IHu k. induction k as [k IH] using lt_wf_ind. intros best s m bm f G Hs Hcov Hu Hp Hm Hfork Hw Hin Hmin.
  destruct (decide (Some m = Tip (chainActive (idx s)))) as [Ht|Ht].
  { exists 0%nat, (Ok (s, true)). split; [|right; exists s, true, best; split_and!; [done|done|intros _; split; [done|by eapply settled_picked]]]. intros fuel _.
    destruct fuel; cbn [activate_loop bindR]; rewrite with_same_index; by rewrite bool_decide_eq_true_2. }
  pose proof (picked_route best s m k G Hp Hmin) as Hr. destruct (block_of_ok (entries (idx s)) pblock m bm Hm) as (given & Hgiven & Hoff).
  destruct (step_spec best s m bm f k given Hoff G Hs Hm (proj1 Hp) Hfork Hw Hin Hr) as [[C E]|(best1 & s1 & r & E & G1 & O)].
  { exists 1%nat, (Err AssertFailed). split; [|by left]. intros [|fuel] Hfuel; [lia|]. by rewrite (picked_loop s m fuel pblock given), E. }
  destruct r as [[|]|]; cbn [step_outcome] in O.
  - destruct O as (He & Hs1 & x & Hx & Hn & Hm1). destruct (IHu best1 s1 G1 Hs1) as (n & y & Hrun & Hy).
    { by apply (covers_evolve l s). } { pose proof (count_caught l _ _ x He (Hcov x Hx) Hx Hn Hm1). lia. }
    exists (S n), y. split; [|by apply (activated_after s s1)]. intros [|fuel] Hfuel; [lia|]. rewrite (picked_loop s m fuel pblock given), E by done. cbn [bindR].
    destruct (g_tip _ _ G1) as [t1 ->]. rewrite bool_decide_eq_false_2 by done. apply Hrun. lia.
  - destruct O as (k' & t & Hk' & A & Hor). pose proof (noted_evolve _ _ (ad_noted _ _ _ _ A)) as He.
    destruct (decide (t = m)) as [->|Hne].
    { exists 1%nat, (Ok (s1, periodic_flush (ns_coins s1))). split; [|right; eexists s1, _, best1; split_and!; [done|done|]].
      - intros [|fuel] Hfuel; [lia|]. rewrite (picked_loop s m fuel pblock given), E by done. cbn [bindR]. rewrite (ad_tip _ _ _ _ A). by rewrite bool_decide_eq_true_2.
      - intros _. split; [apply A|]. apply (settled_picked best1 s1 m G1); [|apply A]. apply (advanced_picked s s1 best1 m m k 0); done || lia. }
    destruct Hor as [Hlt|]; [|done]. assert (Hp1 : picked s1 m) by (apply (advanced_picked s s1 best1 m t k k'); done || lia).
    pose proof (ii_select _ _ _ (g_inv _ _ G1)) as Hok1. destruct (evolve_lookup _ _ _ _ He Hm) as (bm1 & Hm1 & _).
    destruct (fork_exists _ _ m bm1 t (so_tree _ Hok1) (g_root _ _ G1) (so_chain _ Hok1) (ad_tip _ _ _ _ A) Hm1) as (f1 & bf1 & k1 & Hfork1 & Hf1 & Hw1 & Hin1 & Hmin1).
    assert (Hk1 : (k1 <= k')%nat).
    { destruct (decide (k1 <= k')%nat); [done|]. exfalso. apply (Hmin1 k' t); [lia|by rewrite <- (same_tree_walk _ _ (evolve_tree _ _ He))|].
      destruct (tip_chain _ (so_tree _ Hok1) _ t (so_chain _ Hok1) (ad_tip _ _ _ _ A)) as (bt & Hbt & ->). apply (in_branch _ (so_tree _ Hok1) t bt t Hbt). by exists 0%nat. }
    destruct (IH k1 ltac:(lia) best1 s1 m bm1 f1) as (n & y & Hrun & Hy); try done; [apply A|by apply (covers_evolve l s)| |].
    { pose proof (count_evolve l _ _ He). lia. }
    exists (S n), y. split; [|by apply (activated_after s s1)]. intros [|fuel] Hfuel; [lia|]. rewrite (picked_loop s m fuel pblock given), E by done. cbn [bindR].
    rewrite (ad_tip _ _ _ _ A), bool_decide_eq_false_2 by congruence. apply Hrun. lia.
  - exists 1%nat, (Ok (s1, false)). split; [|right; by exists s1, false, best1]. intros [|fuel] Hfuel; [lia|]. by rewrite (picked_loop s m fuel pblock given), E.
Qed.

(** The search, as the loop sees it. *)
Lemma search_picked best s : good best s -> synced s ->
  exists i r, FindMostWorkChain (idx s) = Ok (i, r) /\ good best (with_index s i) /\ synced (with_index s i)
    /\ evolve (entries (idx s)) (entries i)
    /\ match r with Some m => picked (with_index s i) m | None => setBlockIndexCandidates i = [] end.
Proof.
  intros G (t & bt & Ht & Hbt & Hbest). destruct (inv_search best [] (idx s) (g_inv _ _ G)) as (i & r & E & I').
  destruct (FindMostWorkChain_spec (idx s) (ii_select _ _ _ (g_inv _ _ G))) as (R & i1 & r1 & E1 & B & Hl & Hr). rewrite E in E1. injection E1 as <- <-.
  pose proof (sd_trimmed _ _ _ B) as T. pose proof (failing_evolve _ _ (tr_entries _ _ _ T)) as He. exists i, r. split_and!; [done| | |done|].
  - apply (good_index best s G); [done|by apply evolve_tree|]. exists t. cbn. by rewrite (tr_chain _ _ _ T).
  - destruct (evolve_lookup _ _ _ _ He Hbt) as (bt' & Hbt' & Hx). exists t, bt'. cbn. rewrite (tr_chain _ _ _ T). split_and!; [done|done|].
    destruct (ev_place _ _ Hx) as (_ & _ & _ & _ & _ & <-). done.
  - destruct r as [m|]; [|by apply last_None]. split_and!; [by apply last_elem| |by apply Hr]. intros q Hq. by eapply sorted_last; [apply (so_sorted i (sd_ok _ _ _ B))|..].
Qed.

Lemma none_loop s i m : FindMostWorkChain (idx s) = Ok (i, Some m) -> forall fuel pb, activate_loop fuel s None pb = activate_loop fuel (with_index s i) (Some m) pb.
Proof. intros E fuel pb. destruct fuel; cbn [activate_loop]; rewrite E; cbn [bindR]; by destruct s. Qed.

Lemma loop_none l : forall u best s, good best s -> synced s -> covers l s -> (unmarked_count l (entries (idx s)) <= u)%nat -> finishes s None.
Proof using no_corruption.
  intros u. induction u as [u IH] using lt_wf_ind. intros best s G Hs Hcov Hu.
  destruct (search_picked best s G Hs) as (i & r & E & G1 & Hs1 & He & Hr). destruct r as [m|].
  - pose proof (ii_select _ _ _ (g_inv _ _ G1)) as Hok. destruct (so_candidates _ Hok m (proj1 Hr)) as (bm & Hm & _). destruct (g_tip _ _ G1) as [t Ht].
    destruct (fork_exists _ _ m bm t (so_tree _ Hok) (g_root _ _ G1) (so_chain _ Hok) Ht Hm) as (f & bf & k & Hfork & Hf & Hw & Hin & Hmin).
    destruct (loop_picked l u) with (k := k) (best := best) (s := with_index s i) (m := m) (bm := bm) (f := f) as (n & y & Hrun & Hy); try done.
    { intros best0 s0 G0 Hs0 Hc0 Hu0. eapply (IH (unmarked_count l (entries (idx s0)))); [lia|done|done|done|lia]. }
    { by apply (covers_evolve l s). } { pose proof (count_evolve l _ _ He). cbn. lia. }
    exists n, y. split; [|by apply (activated_after s (with_index s i))]. intros fuel Hfuel. rewrite (none_loop s i m E). auto.
  - exists 0%nat, (Ok (with_index s i, true)). split; [|right; exists (with_index s i), true, best; split_and!; [done|done|]].
    + intros [|fuel] _; cbn [activate_loop]; rewrite E; done.
    + intros _. split; [done|]. intros q Ha Hb. destruct (search_best best i q (g_inv _ _ G1) Ha Hb) as (q' & Hq' & _). rewrite Hr in Hq'. by apply elem_of_nil in Hq'.
Qed.
End laws.

(** ** Blocks that are corrupt on disk *)

Section corrupt.
Context {V : Type} {CS : ChainState V}.
Abbreviation idx := (ns_index (V := V)).

(** A search right after a search has the same answer and changes nothing. *)
Lemma search_again best s i m : index_inv best [] s -> FindMostWorkChain s = Ok (i, Some m) -> FindMostWorkChain i = Ok (i, Some m).
Proof.
  intros I E. destruct (inv_search best [] s I) as (i' & r' & E' & I'). rewrite E in E'. injection E' as <- <-.
  destruct (FindMostWorkChain_spec s (ii_select _ _ _ I)) as (R & i1 & r1 & E1 & B & Hl & Hr). rewrite E in E1. injection E1 as <- <-.
  pose proof (sd_ok _ _ _ B) as Hok. destruct (so_candidates i Hok m (last_elem _ _ Hl)) as (b & Hb & Htx). unfold FindMostWorkChain. cbn [most_work].
  rewrite Hl, (deref_Some _ _ _ Hb). cbn [bindR]. pose proof (height_nonneg _ (so_tree i Hok) m b Hb).
  destruct (test_path_spec (S (Z.to_nat (nHeight b))) i m b 0) as (s1 & u & E1 & Hu); [done|done|done|lia|lia|intros; lia|]. cbn [walk] in E1. rewrite E1. cbn [bindR].
  destruct u; [by destruct Hu as [-> _]|]. destruct Hu as [k Hk]. destruct (unusable_not _ _ _ _ (rj_unusable _ _ _ _ Hk)). by apply Hr.
Qed.

(** The block after the tip turns out to be corrupt: nothing changes. *)
Lemma corrupt_step best (s : node_state V) m bm t pb :
  index_inv best [] (idx s) -> Tip (chainActive (idx s)) = Some t -> entries (idx s) !! m = Some bm -> pprev bm = Some t ->
  connect_block (entries (idx s)) (ns_coins s) m pb = Invalid true -> ActivateBestChainStep s m pb = Ok (s, Some true).
Proof.
  intros I Ht Hm Hp Hc. pose proof (ii_select _ _ _ I) as Hok. pose proof (so_tree _ Hok) as Htree.
  destruct (tip_chain _ Htree _ t (so_chain _ Hok) Ht) as (bt & Hbt & Ech). pose proof (height_nonneg _ Htree t bt Hbt).
  assert (Hh : nHeight bm = nHeight bt + 1).
  { destruct (Htree m bm Hm) as (_ & Hprev & _). unfold prev_ok in Hprev. rewrite Hp in Hprev. destruct Hprev as (b & Hb & E). congruence. }
  assert (Hw : walk (entries (idx s)) 1 m = Some t) by (cbn [walk]; rewrite Hm; cbn [mbind option_bind]; by rewrite Hp).
  assert (Hfork : FindFork (entries (idx s)) (chainActive (idx s)) (Some m) = Ok (Some t)).
  { destruct (FindFork_last_common _ Htree (chainActive (idx s)) m bm Hm) as (r & -> & Hr). f_equal. rewrite Ech in Hr.
    assert (Hin : in_chain (entries (idx s)) (Chain.branch (entries (idx s)) t (nHeight bt)) t) by (apply (in_branch _ Htree t bt t Hbt); by exists 0%nat).
    destruct r as [f|]; [|by destruct (Hr _ _ Hw)]. destruct Hr as (k & Hk & Hf & Hmin). destruct k as [|[|k]]; [|congruence|by destruct (Hmin 1%nat t ltac:(lia) Hw)].
    injection Hk as <-. apply (in_branch _ Htree t bt m Hbt) in Hf as [j Hj]. pose proof (walk_height _ j t bt m bm Htree Hbt Hj Hm). lia. }
  unfold ActivateBestChainStep. rewrite Hfork. cbn [bindR]. rewrite (deref_Some _ _ _ Hbt). cbn [bindR]. rewrite Ht, (deref_Some _ _ _ Hbt). cbn [bindR].
  change (default (-1) (Some (nHeight bt))) with (nHeight bt). rewrite Z.sub_diag. change (MAX_REORG_LENGTH <? 0) with false.
  assert (Ed : disconnect_to (length (chainActive (idx s))) s (Some t) = Ok (s, true)).
  { destruct (length (chainActive (idx s))); cbn [disconnect_to]; rewrite Ht; by rewrite bool_decide_eq_true_2. }
  rewrite Ed. cbn [bindR]. rewrite (deref_Some _ _ _ Hm). cbn [bindR connect_range]. rewrite (deref_Some _ _ _ Hm). cbn [bindR].
  rewrite (proj2 (Z.eqb_neq _ _)) by lia. rewrite Z.min_r by lia.
  destruct (GetAncestor_Some _ Htree m bm (nHeight bm) Hm) as (x & bx & -> & Hx & _); [lia|]. rewrite Z.sub_diag in Hx. injection Hx as <-. cbn [bindR].
  destruct (collect_spec _ Htree (S (Z.to_nat (nHeight bm))) m bm t bt 1 Hm Hw Hbt) as (l & -> & Hcl & Hlen); [lia|]. cbn [bindR].
  destruct l as [|y [|]]; try done. cbn [rev app] in *. inversion Hcl as [|? ? by' ? ? Hy Hpy Hend]; subst. inversion Hend; subst. cbn [connect_list]. unfold ConnectTip.
  rewrite (deref_Some _ _ _ Hm). cbn [bindR]. rewrite Hp, Ht, !bool_decide_eq_true_2, Hc by done. cbn [bindR InvalidBlockFound]. destruct s. cbn in *. by rewrite Ht.
Qed.

Lemma corrupt_loop fuel best (s : node_state V) m bm t pb given :
  index_inv best [] (idx s) -> FindMostWorkChain (idx s) = Ok (idx s, Some m) -> Tip (chainActive (idx s)) = Some t ->
  entries (idx s) !! m = Some bm -> pprev bm = Some t -> block_of (entries (idx s)) pb m = Ok given ->
  connect_block (entries (idx s)) (ns_coins s) m given = Invalid true -> activate_loop fuel s None pb = Err OutOfFuel.
Proof.
  intros I E Ht Hm Hp Hg Hc. assert (Hne : Some m <> Tip (chainActive (idx s))).
  { rewrite Ht. intros [= ->]. destruct (so_tree _ (ii_select _ _ _ I) t bm Hm) as (_ & Hprev & _). unfold prev_ok in Hprev. rewrite Hp in Hprev.
    destruct Hprev as (b & Hb & Hh). rewrite Hm in Hb. injection Hb as <-. lia. }
  induction fuel as [|fuel IH]; rewrite (none_loop s (idx s) m E), with_same_index; [cbn [activate_loop bindR]; by rewrite with_same_index, bool_decide_eq_false_2|].
  rewrite (picked_loop s m fuel pb given), (corrupt_step best s m bm t) by done. cbn [bindR]. rewrite Ht, bool_decide_eq_false_2 by done. exact IH.
Qed.
End corrupt.

(** ** The coins of the node *)

Section coins.
Context {SproutMerkleTree SaplingMerkleTree : Type} `{MerkleTree SproutMerkleTree} `{MerkleTree SaplingMerkleTree}.
Context `{Blake2b} `{ShieldedVerifier} `{EhHash}.
Abbreviation cache := (CCoinsViewCache (SproutMerkleTree := SproutMerkleTree) (SaplingMerkleTree := SaplingMerkleTree)).

(** libsecp256k1, the options and parameters of the node, the blocks on disk,
    where undo data is written and whether [FlushStateToDisk] succeeds after a
    change of the tip and at the end. *)
Context (CheckLowS : bytes -> bool) (Verify : bytes -> bytes -> bytes -> bool).
Context (opt : options) (cp : CChainParams) (node_of : store -> node) (node_of_index : forall st, block_index (node_of st) = st).
Context (ReadBlockFromDisk : ptr -> option CBlockInMemory) (write_undo : CBlockUndo -> result string Z) (flushed flushed_last : bool).

(** [pcoinsTip] and the undo files. *)
Record coins_state := CoinsState { pcoinsTip : cache; undo_files : gmap ptr CBlockUndo }.

Definition connect_to_tip (st : store) (v : coins_state) (p : ptr) (pblock : option CBlockInMemory) : verdict coins_state :=
  match (match pblock with Some block => Some block | None => ReadBlockFromDisk p end) with
  | None => SystemError
  | Some block =>
      match ConnectBlock CheckLowS Verify write_undo (node_of st) opt block p cp false (new_cache (as_view (pcoinsTip v))) with
      | (view, Ok r) =>
          Accepted (CoinsState (snd (Flush view (pcoinsTip v))) (match r_undo r with Some u => <[p := u]> (undo_files v) | None => undo_files v end))
            (r_index r) flushed
      | (_, Err (DoS _ _ _ corruption)) => Invalid corruption
      | (_, Err (AbortNode _)) => SystemError
      | (_, Err _) => Crashed
      end
  end.
Definition disconnect_from_tip (st : store) (v : coins_state) (p : ptr) : option (coins_state * bool) :=
  match ReadBlockFromDisk p, st !! p with
  | Some block, Some pindex =>
      match DisconnectBlock (node_of st) block pindex cp (undo_files v !! p) (new_cache (as_view (pcoinsTip v))) with
      | (view, Ok DISCONNECT_OK) => Some (CoinsState (snd (Flush view (pcoinsTip v))) (undo_files v), flushed)
      | _ => None
      end
  | _, _ => None
  end.

#[export] Instance coins_chain_state : ChainState coins_state := {
  connect_block := connect_to_tip;
  disconnect_block := disconnect_from_tip;
  periodic_flush _ := flushed_last
}.

(** *** The laws *)

Lemma ConnectBlock_entry n block p (c c' : cache) r b :
  deref (block_index n) p = Ok b -> ConnectBlock CheckLowS Verify write_undo n opt block p cp false c = (c', Ok r) ->
  noted b (r_index r) /\ hashBlock c' = phashBlock b.
Proof.
  intros Hb Hc. unfold ConnectBlock in Hc. stepM Hc c1 pi E1. rewrite Hb in E1. cbn in E1. injection E1 as <-. stepM Hc c2 exp E2. stepM Hc c3 b' E3.
  stepM Hc c4 prev E4. stepM Hc c5 best E5. apply unless_Ok in Hc as [_ Hc]. stepM Hc c6 h E6. destruct (bool_decide (h = _)).
  - stepM Hc c7 x7 E7. apply retM_Ok in Hc as [-> ->]. cbn [r_index]. split; [apply noted_roots|done].
  - stepM Hc c7 x7 E7. stepM Hc c8 x8 E8. stepM Hc c9 branch E9. stepM Hc c10 res E10. destruct res as [[undo root] ks]. stepM Hc c11 ok E11.
    apply unless_Ok in Hc as [_ Hc]. stepM Hc c12 res E12. destruct res as [pi written]. stepM Hc c13 x13 E13. apply retM_Ok in Hc as [-> ->]. cbn [r_index].
    apply noted_validity in E12. pose proof (noted_trans _ _ _ (noted_roots b (old_sprout_tree_root undo) root) E12) as Hn. split; [done|].
    destruct Hn as [[(_ & _ & _ & _ & _ & ->) _ _ _ _ _ _] _]. done.
Qed.
Lemma DisconnectBlock_best n block pindex undo (c c' : cache) q prev :
  pprev pindex = Some q -> block_index n !! q = Some prev -> DisconnectBlock n block pindex cp undo c = (c', Ok DISCONNECT_OK) ->
  hashBlock c' = phashBlock prev.
Proof.
  intros Hq Hp Hd. unfold DisconnectBlock in Hd. stepM Hd c1 best E1. apply unless_Ok in Hd as [_ Hd].
  destruct (disk_pos_IsNull _); [by apply retM_Ok in Hd as [? _]|]. rewrite Hq in Hd. stepM Hd c2 prev' E2. unfold deref in E2. rewrite Hp in E2. injection E2 as <-.
  destruct undo as [undo|]; [|by apply retM_Ok in Hd as [? _]]. destruct (negb _); [by apply retM_Ok in Hd as [? _]|]. stepM Hd c3 res E3.
  destruct res as [clean|]; [|by apply retM_Ok in Hd as [? _]]. stepM Hd c4 x4 E4. stepM Hd c5 act E5. stepM Hd c6 x6 E6. stepM Hd c7 x7 E7.
  by apply retM_Ok in Hd as [_ ->].
Qed.

(** No connection is refused as possibly corrupt when the blocks are intact. *)
Lemma connect_not_corrupt st v p pb :
  (forall p b, ReadBlockFromDisk p = Some b -> intact b) -> (forall b, pb = Some b -> intact b) -> connect_to_tip st v p pb <> Invalid true.
Proof.
  intros Hdisk Hpb. unfold connect_to_tip. destruct (match pb with Some _ => _ | None => _ end) as [b|] eqn:Eb; [|done].
  assert (Hb : intact b) by (destruct pb; [by apply Hpb|by apply (Hdisk p)]).
  pose proof (ConnectBlock_blames CheckLowS Verify write_undo (node_of st) opt b p cp false Hb (new_cache (as_view (pcoinsTip v)))) as Hx.
  destruct (ConnectBlock _ _ _ _ _ _ _ _ _ _) as [view [r|[? ? ? []| | | | | | | | |]]]; by try destruct Hx.
Qed.

#[export] Program Instance coins_chain_laws : ChainStateLaws coins_state := { best_block v := hashBlock (pcoinsTip v) }.
Next Obligation.
  intros st v p pb b v' b' w Hb. cbn. unfold connect_to_tip. destruct (match pb with Some _ => _ | None => _ end); [|done].
  destruct (ConnectBlock _ _ _ _ _ _ _ _ _ _) as [view [r|[]]] eqn:E; try done. intros [= _ <- _]. apply (ConnectBlock_entry (node_of st) _ p _ _ _ b) in E as [? _]; [done|].
  rewrite node_of_index. by apply deref_Some.
Qed.
Next Obligation.
  intros st v p pb b v' b' w Hb. cbn. unfold connect_to_tip. destruct (match pb with Some _ => _ | None => _ end); [|done].
  destruct (ConnectBlock _ _ _ _ _ _ _ _ _ _) as [view [r|[]]] eqn:E; try done. intros [= <- _ _]. apply (ConnectBlock_entry (node_of st) _ p _ _ _ b) in E as [_ ?]; [done|].
  rewrite node_of_index. by apply deref_Some.
Qed.
Next Obligation.
  intros st v p b q c v' w Hb Hq Hc. cbn. unfold disconnect_from_tip. destruct (ReadBlockFromDisk p); [|done]. rewrite Hb.
  destruct (DisconnectBlock _ _ _ _ _ _) as [view [[]|]] eqn:E; try done. intros [= <- _]. cbn. apply (DisconnectBlock_best (node_of st) _ b _ _ _ q c) in E; [done|done|].
  by rewrite node_of_index.
Qed.
End coins.

(** ** Examples *)

Definition grows_at (st : store) (b : CBlockIndex) : bool :=
  match pprev b with Some q => match st !! q with Some c => val (nChainWork c) <? val (nChainWork b) | None => false end | None => true end.
Lemma grow_check st : bool_decide (map_Forall (fun _ b => grows_at st b = true) st) = true -> works_grow st.
Proof.
  intros Hall%bool_decide_eq_true p b q c Hb Hq Hc. specialize (Hall p b Hb). unfold grows_at in Hall. rewrite Hq, Hc in Hall. by apply Z.ltb_lt.
Qed.
Lemma root_check st r : bool_decide (map_Forall (fun p b => pprev b = None -> p = r) st) = true -> one_root st.
Proof. intros Hall%bool_decide_eq_true p q b c Hb Hc Hp Hq. rewrite (Hall p b Hb Hp). symmetry. by apply (Hall q c Hc). Qed.
(** *** A node with real blocks *)

#[local] Existing Instance Coins.toy_tree.
#[local] Existing Instance Validation.toy_blake.
#[local] Existing Instance toy_verifier.
#[local] Existing Instance toy_hash.

(** The block of [Connect] on top of the genesis block of the example. *)
Definition real_block (root : bytes) : CBlockInMemory :=
  let h := m_header toy_connected in
  BlockInMemory (BlockHeader (hb_nVersion h) (example_hash example_genesis) root (hb_hashFinalSaplingRoot h) (hb_nTime h) (hb_nBits h)
                   (hb_nNonce h) (hb_nSolution h)) (m_vtx toy_connected) false.
Definition real_second : CBlockInMemory := Eval vm_compute in real_block (hb_hashMerkleRoot (m_header toy_connected)).
Definition real_index4 : index_state := Eval vm_compute in added index3 2 (m_header real_second).
Definition real_index5 : index_state := Eval vm_compute in received real_index4 2 (m_vtx real_second).
Definition real_coins : coins_state (SproutMerkleTree := nat) (SaplingMerkleTree := nat) :=
  CoinsState (SetBestBlock (new_cache toy_view) (example_hash example_genesis)) ∅.
Definition real_of (st : store) : node := Node st (list_to_map (map (fun e => (phashBlock (snd e), fst e)) (map_to_list st))) 0 false [].
(** Nothing is on disk but the blocks that [disk] gives. *)
Definition real_chain (disk : ptr -> option CBlockInMemory) : ChainState coins_state :=
  coins_chain_state (fun _ => true) (fun _ _ _ => true) (Options true true 0) easy_params real_of disk (fun _ => Ok 0) true true.
#[local] Instance real_laws disk : ChainStateLaws (CS := real_chain disk) coins_state := coins_chain_laws _ _ _ _ real_of (fun st => eq_refl) disk _ _ _.
Definition real_node : node_state coins_state := NodeState real_index5 real_coins.

Lemma real_reachable : rtc (index_step example_checkpoint) (None, empty_index) (Some 1%positive, real_index5).
Proof.
  assert (R4 : rtc (index_step example_checkpoint) (None, empty_index) (Some 1%positive, real_index4)).
  { eapply rtc_r; [exact example_reachable3|]. apply (example_add _ _ _ 2 (m_header real_second)); [vm_compute; reflexivity|done|vm_compute; reflexivity..|].
    exists 2%positive. vm_compute. reflexivity. }
  eapply rtc_r; [exact R4|]. apply (example_receive _ _ _ 2 (m_vtx real_second)); [by eapply inv_reachable|cbn; lia|vm_compute; reflexivity..].
Qed.
Lemma real_good : good (Some 1%positive) real_node.
Proof.
  split; [exact (inv_reachable _ _ _ real_reachable)|apply grow_check|apply (root_check _ 1)|exists 1%positive; reflexivity]; vm_compute; reflexivity.
Qed.
Lemma real_synced disk : synced (CS := real_chain disk) real_node.
Proof. exists 1%positive. eexists. split_and!; [reflexivity|reflexivity|]. vm_compute. reflexivity. Qed.
Lemma real_intact : intact real_second.
Proof. split; [vm_compute; reflexivity|]. intros n Hn. vm_compute in Hn. injection Hn as <-. by vm_compute. Qed.
Lemma real_search : FindMostWorkChain real_index5 = Ok (real_index5, Some 2%positive).
Proof. vm_compute. reflexivity. Qed.
Lemma real_second_entry : exists b, entries real_index5 !! 2%positive = Some b /\ pprev b = Some 1%positive.
Proof. eexists. split; [vm_compute; reflexivity|reflexivity]. Qed.
Definition lost_transaction : CBlockInMemory := BlockInMemory (m_header real_second) (take 1 (m_vtx real_second)) false.
Lemma lost_corrupt :
  connect_block (ChainState := real_chain (fun _ => Some lost_transaction)) (entries real_index5) (ns_coins real_node) 2 None = Invalid true.
Proof. vm_compute. reflexivity. Qed.
Abbreviation real_activate fuel := (ActivateBestChain (CS := real_chain (fun _ => None)) fuel real_node (Some real_second)).
Lemma real_run fuel : match real_activate (3 + fuel)%nat with Ok (s, ok) => Some (Tip (chainActive (ns_index s)), ok) | Err _ => None end = Some (Some 2%positive, true).
Proof. vm_compute. reflexivity. Qed.

(** ** Properties *)


(** C39: if the block after the tip is the best candidate and is corrupt, on disk
    or as it is given, the loop never ends: with any number of passes it is not finished. Connecting
    the block fails with [CorruptionPossible], which does not mark it as failed,
    so the next search chooses it again. *)
Theorem corrupt_block_loops {V : Type} {CS : ChainState V} best (s : node_state V) (pblock : option CBlockInMemory) i m b t given :
  index_inv best [] (ns_index s) -> Tip (chainActive (ns_index s)) = Some t -> FindMostWorkChain (ns_index s) = Ok (i, Some m) ->
  entries i !! m = Some b -> pprev b = Some t -> block_of (entries i) pblock m = Ok given ->
  connect_block (entries i) (ns_coins s) m given = Invalid true -> forall fuel, ActivateBestChain fuel s pblock = Err OutOfFuel.
Proof.
  intros I Ht E Hm Hp Hg Hc fuel. unfold ActivateBestChain. rewrite (none_loop s i m E), <- (none_loop (with_index s i) i m (search_again best _ i m I E)).
  destruct (inv_search best [] _ I) as (i' & r' & E' & I'). rewrite E in E'. injection E' as <- <-.
  destruct (FindMostWorkChain_spec _ (ii_select _ _ _ I)) as (R & i1 & r1 & E1 & B & _). rewrite E in E1. injection E1 as <- <-.
  pose proof (tr_chain _ _ _ (sd_trimmed _ _ _ B)) as Ec.
  apply (corrupt_loop fuel best (with_index s i) m b t pblock given); try done; [exact (search_again best _ i m I E)|]. cbn. by rewrite Ec.
Qed.
(** The second transaction of the block is lost on disk. *)
Lemma corrupt_block_loops_witness :
  intact real_second /\ ~ intact lost_transaction
  /\ forall fuel, ActivateBestChain (CS := real_chain (fun _ => Some lost_transaction)) fuel real_node None = Err OutOfFuel.
Proof.
  split; [exact real_intact|]. split; [intros [Hm _]; vm_compute in Hm; discriminate Hm|]. destruct real_second_entry as (b & Hb & Hp).
  exact (corrupt_block_loops (CS := real_chain (fun _ => Some lost_transaction)) (Some 1%positive) real_node None real_index5 2 b 1%positive None
           (inv_reachable _ _ _ real_reachable) eq_refl real_search Hb Hp eq_refl lost_corrupt).
Defined.
