(* ===== verification/Reconsider.v ===== *)
(** * Blocks that the operator reconsiders (src/main.cpp)

    What [ReconsiderBlock] does to the block index: which failure flags it clears
    and which blocks become candidates for the tip. *)

From S2P Require Import Prelude ArithUint Serialize Digest Sha Ripemd Hash Amount Transaction Chain Params Equihash Pow.
From S2P Require Import Script Address Interpreter SigHash Merkle Coins Validation Block Connect Select IndexInv Activate.
From stdpp Require Import sorting pmap.
Local Open Scope Z_scope.
Local Open Scope code_scope.

(** ** Clearing failure flags *)

Definition clears (b b' : CBlockIndex) : Prop := b' = b \/ b' = clear_failed b.
Definition cleared (st st' : store) : Prop := forall p, option_Forall2 clears (st !! p) (st' !! p).

Lemma clear_not_failed b : entry_failed (clear_failed b) = false.
Proof.
  unfold entry_failed, clear_failed. apply negb_false_iff, Z.eqb_eq. cbn [set_status nStatus]. rewrite <- Z.land_assoc.
  change (Z.land (to_u32 (Z.lnot BLOCK_FAILED_MASK)) BLOCK_FAILED_MASK) with 0. apply Z.land_0_r.
Qed.
Lemma clear_twice b : clear_failed (clear_failed b) = clear_failed b.
Proof. unfold clear_failed. destruct b. cbn. by rewrite <- Z.land_assoc, Z.land_diag. Qed.
Lemma clears_place b b' : clears b b' -> same_place b b' /\ nChainTx b' = nChainTx b /\ nSequenceId b' = nSequenceId b.
Proof. by intros [->| ->]. Qed.
#[export] Instance cleared_preorder : PreOrder cleared.
Proof.
  split.
  - intros st p. destruct (st !! p); constructor. by left.
  - intros st st1 st2 H1 H2 p. specialize (H1 p). specialize (H2 p). destruct H1 as [b b1 Hb|]; inversion H2 as [? b2 Hb1|]; subst; constructor.
    destruct Hb as [->| ->], Hb1 as [->| ->]; rewrite ?clear_twice; by (by left) || (by right).
Qed.
Lemma cleared_tree st st' : cleared st st' -> same_tree st st'.
Proof. intros Hc p. destruct (Hc p) as [b b' Hb|]; constructor. by apply clears_place. Qed.
Lemma cleared_lookup st st' p b : cleared st st' -> st !! p = Some b -> exists b', st' !! p = Some b' /\ clears b b'.
Proof. intros Hc Hp. specialize (Hc p). rewrite Hp in Hc. inversion Hc; subst. eauto. Qed.
Lemma cleared_lookup_inv st st' p b' : cleared st st' -> st' !! p = Some b' -> exists b, st !! p = Some b /\ clears b b'.
Proof. intros Hc Hp. specialize (Hc p). rewrite Hp in Hc. inversion Hc; subst. eauto. Qed.
Lemma cleared_insert st p b : st !! p = Some b -> cleared st (<[p := clear_failed b]> st).
Proof.
  intros Hp q. destruct (decide (q = p)) as [->|]; [rewrite lookup_insert_eq, Hp; constructor; by right|].
  rewrite lookup_insert_ne by done. destruct (st !! q); constructor. by left.
Qed.
Lemma cleared_worse st st' p q : cleared st st' -> worse st p q <-> worse st' p q.
Proof.
  intros Hc. split; intros (b & c & Hb & Hq & Hk).
  - destruct (cleared_lookup _ _ _ _ Hc Hb) as (b' & Hb' & ((_ & _ & _ & W & _) & _ & S)%clears_place).
    destruct (cleared_lookup _ _ _ _ Hc Hq) as (c' & Hc' & ((_ & _ & _ & W' & _) & _ & S')%clears_place).
    exists b', c'. unfold key in *. rewrite <- W, <- W', S, S'. done.
  - destruct (cleared_lookup_inv _ _ _ _ Hc Hb) as (b' & Hb' & ((_ & _ & _ & W & _) & _ & S)%clears_place).
    destruct (cleared_lookup_inv _ _ _ _ Hc Hq) as (c' & Hc' & ((_ & _ & _ & W' & _) & _ & S')%clears_place).
    exists b', c'. unfold key in *. rewrite W, W', <- S, <- S'. done.
Qed.

(** Flags may be cleared, and linked blocks may become candidates. *)
Lemma select_ok_cleared i i' : select_ok i -> cleared (entries i) (entries i') -> chainActive i' = chainActive i ->
  sorted (entries i) (setBlockIndexCandidates i') -> (forall p, p ∈ setBlockIndexCandidates i' -> linked (entries i) p) ->
  (forall p, pindexBestInvalid i' = Some p -> pindexBestInvalid i = Some p) -> select_ok i'.
Proof.
  intros Hok Hc Hch Hs Hl Hi. pose proof (cleared_tree _ _ Hc) as Ht. split.
  - by apply (same_tree_ok _ _ Ht), Hok.
  - by apply (same_tree_works _ _ Ht), Hok.
  - rewrite Hch. by apply (same_tree_chain _ _ Ht), Hok.
  - apply (sorted_ext (entries i)); [intros; by apply (cleared_worse (entries i))|done].
  - intros p Hp. destruct (Hl p Hp) as (b & Hb & Hn). destruct (cleared_lookup _ _ _ _ Hc Hb) as (b' & Hb' & (_ & E & _)%clears_place). exists b'. by rewrite E.
  - intros p b' q Hb' Hn Hq. destruct (cleared_lookup_inv _ _ _ _ Hc Hb') as (b & Hb & ((E & _) & E' & _)%clears_place).
    destruct (so_linked i Hok p b q Hb) as (c & Hc0 & Hn0); [congruence|congruence|]. destruct (cleared_lookup _ _ _ _ Hc Hc0) as (c' & Hc' & (_ & E2 & _)%clears_place).
    exists c'. by rewrite E2.
  - intros p Hp. destruct (so_invalid i Hok p (Hi p Hp)) as [b Hb]. destruct (cleared_lookup _ _ _ _ Hc Hb) as (b' & Hb' & _). by exists b'.
Qed.

(** ** The block and its descendants *)

(** [q] is [p] or comes after it. *)
Definition descends (st : store) (q p : ptr) : Prop := exists k, walk st k q = Some p.
(** An entry that is not fully valid, at or after [p]. *)
Definition revived (st : store) (p q : ptr) (b : CBlockIndex) : Prop := descends st q p /\ is_valid b BLOCK_VALID_TRANSACTIONS = false.
(** It is linked, valid without the failure flags, and better than [t]. *)
Definition promoted (st : store) (t p q : ptr) : Prop :=
  exists b, st !! q = Some b /\ revived st p q b /\ is_valid (clear_failed b) BLOCK_VALID_TRANSACTIONS = true /\ nChainTx b <> 0 /\ worse st t q.

Lemma ancestor_here st q bq p bp : tree_ok st -> st !! q = Some bq -> st !! p = Some bp ->
  exists a, GetAncestor st q (nHeight bp) = Ok a /\ (a = Some p <-> descends st q p).
Proof.
  intros Ht Hq Hp. rewrite (GetAncestor_spec st Ht q bq _ Hq). eexists. split; [reflexivity|]. pose proof (height_nonneg st Ht p bp Hp). split.
  - destruct (_ && _); [|done]. intros Hw. by eexists.
  - intros [k Hk]. pose proof (walk_steps st Ht q bq p bp k Hq Hk Hp). rewrite (proj2 (Z.leb_le _ _)), (proj2 (Z.leb_le _ _)) by lia.
    cbn [andb]. rewrite <- Hk. f_equal. lia.
Qed.

(** Whether the entry becomes a candidate, and the candidates then. *)
Lemma promotion st i t p q bq : select_ok i -> cleared st (entries i) -> Tip (chainActive i) = Some t -> in_store (entries i) t ->
  st !! q = Some bq -> revived st p q bq -> entries i !! q = Some (clear_failed bq) ->
  let b := clear_failed bq in
  exists (better : bool) l,
    (if is_valid b BLOCK_VALID_TRANSACTIONS && negb (nChainTx b =? 0)
     then match Tip (chainActive i) with None => Err DanglingPointer | Some t => CBlockIndexWorkComparator (entries i) t q end else Ok false) = Ok better
    /\ (if better then set_insert (entries i) q (setBlockIndexCandidates i) else Ok (setBlockIndexCandidates i)) = Ok l
    /\ sorted (entries i) l /\ forall x, x ∈ l <-> x ∈ setBlockIndexCandidates i \/ (x = q /\ promoted st t p q).
Proof.
  intros Hok Hc Ht [bt Hbt] Hq Hr Hq0 b. set (better := is_valid b BLOCK_VALID_TRANSACTIONS && negb (nChainTx b =? 0) && bool_decide (worse st t q)).
  assert (Hbetter : better = true <-> promoted st t p q).
  { unfold better. rewrite !andb_true_iff, negb_true_iff, Z.eqb_neq, bool_decide_eq_true. split; [intros [[]]; by exists bq|].
    intros (c & Hc' & _ & Hvc & Hnc & Hwc). assert (c = bq) as -> by congruence. done. }
  exists better. rewrite Ht, (Comparator_spec _ t q bt b (so_works i Hok) Hbt Hq0), <- (bool_decide_ext _ _ (cleared_worse _ _ t q Hc)).
  assert (E : (if is_valid b BLOCK_VALID_TRANSACTIONS && negb (nChainTx b =? 0) then Ok (bool_decide (worse st t q)) else Ok false) = Ok (E := chain_error) better)
    by (unfold better; by destruct (_ && negb _)).
  destruct better.
  - destruct (set_insert_spec (entries i) q (setBlockIndexCandidates i)) as (l & E' & Hs & Hl); [apply Hok|by exists b| |apply Hok|].
    { apply Forall_forall. intros x Hx. destruct (so_candidates i Hok x Hx) as (c & Hc' & _). by exists c. }
    exists l. split_and!; [done|done|done|]. intros x. rewrite Hl. pose proof (proj1 Hbetter eq_refl). tauto.
  - exists (setBlockIndexCandidates i). split_and!; [done|done|apply Hok|]. intros x. split; [by left|]. by intros [?|[_ ?%Hbetter]].
Qed.

Lemma reconsider_one i p bp t q bq :
  select_ok i -> entries i !! p = Some bp -> entries i !! q = Some bq -> Tip (chainActive i) = Some t -> in_store (entries i) t ->
  exists i1, (forall l, reconsider_all i p (nHeight bp) (q :: l) = reconsider_all i1 p (nHeight bp) l)
    /\ select_ok i1 /\ cleared (entries i) (entries i1) /\ chainActive i1 = chainActive i
    /\ (forall x, pindexBestInvalid i1 = Some x <-> pindexBestInvalid i = Some x /\ ~ (x = q /\ revived (entries i) p q bq))
    /\ (revived (entries i) p q bq -> entries i1 = <[q := clear_failed bq]> (entries i)) /\ (~ revived (entries i) p q bq -> entries i1 = entries i)
    /\ forall x, x ∈ setBlockIndexCandidates i1 <-> x ∈ setBlockIndexCandidates i \/ (x = q /\ promoted (entries i) t p q).
Proof.
  intros Hok Hp Hq Ht [bt Hbt]. cbn [reconsider_all]. rewrite (deref_Some _ _ _ Hq). cbn [bindR].
  destruct (ancestor_here _ q bq p bp (so_tree i Hok) Hq Hp) as (a & Ha & Hdesc).
  assert (Hnot : ~ revived (entries i) p q bq -> forall x, x ∈ setBlockIndexCandidates i <-> x ∈ setBlockIndexCandidates i \/ (x = q /\ promoted (entries i) t p q)).
  { intros Hn x. split; [by left|]. intros [?|[_ (b & Hb & Hr & _)]]; [done|]. assert (b = bq) as -> by congruence. done. }
  destruct (is_valid bq BLOCK_VALID_TRANSACTIONS) eqn:Hv.
  { cbn [bindR]. rewrite bool_decide_eq_false_2 by done. assert (Hn : ~ revived (entries i) p q bq) by (intros [_ ?]; congruence).
    exists i. split_and!; try done; [tauto|by apply Hnot]. }
  rewrite Ha. cbn [bindR]. destruct (bool_decide_reflect (a = Some p)) as [Hap|Hap].
  2: { assert (Hn : ~ revived (entries i) p q bq) by (intros [?%Hdesc _]; done). exists i. split_and!; try done; [tauto|by apply Hnot]. }
  apply Hdesc in Hap. assert (Hr : revived (entries i) p q bq) by done. set (b := clear_failed bq). set (i0 := set_dirty (set_entry i q b) q).
  assert (Hc : cleared (entries i) (entries i0)) by (by apply cleared_insert). pose proof (cleared_tree _ _ Hc) as Htree.
  assert (Hok0 : select_ok i0) by (apply (select_ok_cleared i i0 Hok Hc); try done; [apply Hok|intros x Hx; by apply (so_candidates i Hok)]).
  assert (Hq0 : entries i0 !! q = Some b) by apply lookup_insert_eq. destruct (cleared_lookup _ _ _ _ Hc Hbt) as (bt' & Hbt' & _).
  destruct (promotion (entries i) i0 t p q bq Hok0 Hc Ht ltac:(by exists bt') Hq Hr Hq0) as (better & l & E1 & E2 & Hs & Hl). fold b in E1. rewrite E1. cbn [bindR]. rewrite E2.
  change (setBlockIndexCandidates i0) with (setBlockIndexCandidates i) in Hl. cbn [bindR]. set (i1 := if bool_decide _ then _ else _). exists i1.
  assert (Ei : entries i1 = entries i0 /\ chainActive i1 = chainActive i /\ setBlockIndexCandidates i1 = l) by (unfold i1; by case_bool_decide).
  destruct Ei as (F1 & F2 & F3). split_and!; [done| |by rewrite F1|done| |by rewrite F1|done|by rewrite F3].
  2: { intros x. unfold i1. case_bool_decide as Hi; cbn in *; [|split; [intros Hx; split; [done|by intros [-> _]]|tauto]].
       rewrite Hi. split; [done|]. intros [[= <-] Hx]. by destruct Hx. }
  apply (select_ok_cleared i0 i1 Hok0); rewrite ?F1, ?F3; try done.
  - intros x [Hx|[-> (c & Hx & _ & _ & Hn & _)]]%Hl; [by apply (so_candidates i0 Hok0)|]. exists b. split; [done|]. by assert (c = bq) as -> by congruence.
  - intros x. unfold i1. by case_bool_decide.
Qed.

Lemma cleared_descends st st' q p : cleared st st' -> descends st' q p <-> descends st q p.
Proof. intros Hc. unfold descends. by setoid_rewrite (same_tree_walk _ _ (cleared_tree _ _ Hc)). Qed.

Lemma revived_dec st p q b : tree_ok st -> in_store st p -> st !! q = Some b -> revived st p q b \/ ~ revived st p q b.
Proof.
  intros Ht [bp Hp] Hq. destruct (ancestor_here st q b p bp Ht Hq Hp) as (a & _ & Hd). unfold revived. rewrite <- Hd.
  destruct (decide (a = Some p)), (is_valid b BLOCK_VALID_TRANSACTIONS); tauto || (right; intros []; done).
Qed.

(** The other entries of the list see the same index after one was changed. *)
Lemma reconsider_other st st' t p x y b : cleared st st' -> st' = st \/ st' = <[y := clear_failed b]> st -> x <> y ->
  st' !! x = st !! x /\ (forall c, revived st' p x c <-> revived st p x c) /\ (promoted st' t p x <-> promoted st t p x).
Proof.
  intros Hc Hst Hne. assert (E : st' !! x = st !! x) by (destruct Hst as [->| ->]; [done|by rewrite lookup_insert_ne]).
  assert (Hr : forall c, revived st' p x c <-> revived st p x c) by (intros c; unfold revived; by rewrite (cleared_descends _ _ _ _ Hc)).
  split_and!; [done|done|]. unfold promoted. rewrite E. setoid_rewrite Hr. by setoid_rewrite <- (cleared_worse _ _ t x Hc).
Qed.

(** The loop over the entries [l] of the index. *)
Record reconsidered (i i' : index_state) (t p : ptr) (l : list ptr) : Prop := {
  rc_select : select_ok i';
  rc_cleared : cleared (entries i) (entries i');
  rc_chain : chainActive i' = chainActive i;
  rc_invalid x : pindexBestInvalid i' = Some x <-> pindexBestInvalid i = Some x /\ ~ (x ∈ l /\ exists b, entries i !! x = Some b /\ revived (entries i) p x b);
  rc_revived q b : entries i !! q = Some b -> q ∈ l -> revived (entries i) p q b -> entries i' !! q = Some (clear_failed b);
  rc_same q b : entries i !! q = Some b -> ~ (q ∈ l /\ revived (entries i) p q b) -> entries i' !! q = Some b;
  rc_candidates x : x ∈ setBlockIndexCandidates i' <-> x ∈ setBlockIndexCandidates i \/ (x ∈ l /\ promoted (entries i) t p x)
}.

Lemma reconsider_all_spec p t h l : forall i bp,
  select_ok i -> NoDup l -> (forall x, x ∈ l -> in_store (entries i) x) -> entries i !! p = Some bp -> nHeight bp = h ->
  Tip (chainActive i) = Some t -> in_store (entries i) t ->
  exists i', reconsider_all i p h l = Ok i' /\ reconsidered i i' t p l.
Proof.
  induction l as [|y l IH]; intros i bp Hok Hnd Hin Hp Hh Ht Hts.
  { exists i. split; [done|]. split; try done; [|by intros ? ? ? ?%elem_of_nil|]; intros x; [split; [intros Hx; split; [done|by intros [?%elem_of_nil _]]|tauto]|].
    split; [by left|]. by intros [?|[?%elem_of_nil _]]. }
  apply NoDup_cons in Hnd as [Hy Hnd]. destruct (Hin y) as [by' Hby]; [by left|].
  destruct (reconsider_one i p bp t y by' Hok Hp Hby Ht Hts) as (i1 & Hrun & Hok1 & Hc1 & Ech & Hinv & Hrev & Hsame & Hcand). rewrite Hh in Hrun.
  assert (Hmove : forall x, in_store (entries i) x -> in_store (entries i1) x).
  { intros x [b Hx]. destruct (cleared_lookup _ _ _ _ Hc1 Hx) as (b' & Hx' & _). by exists b'. }
  destruct (cleared_lookup _ _ _ _ Hc1 Hp) as (bp' & Hp' & ((_ & _ & Eh & _) & _)%clears_place).
  destruct (IH i1 bp') as (i' & Hrun' & [R1 R2 R3 R0 R4 R5 R6]); [done|done|intros x Hx; apply Hmove, Hin; by right|done|congruence|by rewrite Ech|auto|].
  assert (Hdec : revived (entries i) p y by' \/ ~ revived (entries i) p y by') by (apply revived_dec; [apply Hok|by exists bp|done]).
  assert (Hst : entries i1 = entries i \/ entries i1 = <[y := clear_failed by']> (entries i)) by (destruct Hdec; auto).
  assert (Hother : forall x, x <> y -> _) by exact (fun x => reconsider_other _ _ t p x y by' Hc1 Hst).
  exists i'. split; [by rewrite Hrun|]. split; [done|by etrans|congruence| | | |].
  - intros x. rewrite R0, Hinv, elem_of_cons. destruct (decide (x = y)) as [->|Hne].
    + rewrite Hby. setoid_rewrite (inj_iff Some). split; [intros [[Hx Hn] _]; split; [done|]; intros (_ & b & <- & Hr); by apply Hn|].
      intros [Hx Hn]. split_and!; [done| |by intros [? _]]. intros [_ Hr]. apply Hn. split; [by left|]. by exists by'.
    + destruct (Hother x Hne) as (E & Er & _). rewrite E. setoid_rewrite Er. tauto.
  - intros q b Hq [->|Hql]%elem_of_cons Hr.
    + assert (b = by') as -> by congruence. apply R5; [rewrite (Hrev Hr); apply lookup_insert_eq|]. by intros [? _].
    + destruct (Hother q) as (E & Er & _); [by intros ->|]. apply R4; [by rewrite E|done|by apply Er].
  - intros q b Hq Hn. destruct (decide (q = y)) as [->|Hne].
    + assert (b = by') as -> by congruence. apply R5; [|by intros [? _]]. rewrite Hsame; [done|]. intros Hr. apply Hn. split; [by left|done].
    + destruct (Hother q Hne) as (E & Er & _). apply R5; [by rewrite E|]. intros [Hql Hr%Er]. apply Hn. split; [by right|done].
  - intros x. rewrite R6, Hcand, elem_of_cons. destruct (decide (x = y)) as [->|Hne]; [tauto|]. destruct (Hother x Hne) as (_ & _ & Ep). rewrite Ep. tauto.
Qed.

(** ** The ancestors *)

Record ancestors_cleared (i i' : index_state) (q : ptr) : Prop := {
  ac_cleared : cleared (entries i) (entries i');
  ac_others : chainActive i' = chainActive i /\ setBlockIndexCandidates i' = setBlockIndexCandidates i /\ pindexBestInvalid i' = pindexBestInvalid i;
  ac_failed x b : entries i !! x = Some b -> descends (entries i) q x -> entry_failed b = true -> entries i' !! x = Some (clear_failed b);
  ac_same x b : entries i !! x = Some b -> ~ (descends (entries i) q x /\ entry_failed b = true) -> entries i' !! x = Some b
}.

Lemma descends_step st q b x : st !! q = Some b -> descends st q x <-> x = q \/ exists r, pprev b = Some r /\ descends st r x.
Proof.
  intros Hq. split.
  - intros [[|k] Hk]; [injection Hk; by left|]. right. cbn [walk] in Hk. rewrite Hq in Hk. cbn in Hk. destruct (pprev b) as [r|]; [|done]. exists r. split; [done|]. by exists k.
  - intros [->|(r & Hr & [k Hk])]; [by exists 0%nat|]. exists (S k). cbn [walk]. rewrite Hq. cbn. by rewrite Hr.
Qed.

(** The entry [q] is cleared; [i'] comes from the ancestors [rest] of it. *)
Lemma ancestors_step i i1 i' q b :
  tree_ok (entries i) -> entries i !! q = Some b -> i1 = (if entry_failed b then set_dirty (set_entry i q (clear_failed b)) q else i) ->
  (forall r, pprev b = Some r -> ancestors_cleared i1 i' r) -> (pprev b = None -> i' = i1) -> ancestors_cleared i i' q.
Proof.
  intros Ht Hq -> Hr Hn. set (i1 := if entry_failed b then _ else _) in *.
  assert (Hc1 : cleared (entries i) (entries i1)) by (unfold i1; destruct (entry_failed b); [by apply cleared_insert|done]).
  assert (Hself : entries i1 !! q = Some (if entry_failed b then clear_failed b else b)) by (unfold i1; destruct (entry_failed b); [apply lookup_insert_eq|done]).
  assert (Hother : forall x, x <> q -> entries i1 !! x = entries i !! x) by (intros x Hx; unfold i1; destruct (entry_failed b); [by apply lookup_insert_ne|done]).
  assert (Ho : chainActive i1 = chainActive i /\ setBlockIndexCandidates i1 = setBlockIndexCandidates i /\ pindexBestInvalid i1 = pindexBestInvalid i)
    by (unfold i1; by destruct (entry_failed b)).
  assert (Hb : entry_failed (if entry_failed b then clear_failed b else b) = false) by (destruct (entry_failed b) eqn:E; [apply clear_not_failed|done]).
  assert (Hup : forall r x, pprev b = Some r -> descends (entries i) r x -> x <> q).
  { intros r x Er [k Hk] ->. destruct (Ht q b Hq) as (_ & Hprev & _). unfold prev_ok in Hprev. rewrite Er in Hprev. destruct Hprev as (c & Hc & Hh).
    pose proof (walk_steps _ Ht r c q b k Hc Hk Hq). lia. }
  destruct (pprev b) as [r|] eqn:Er; [|rewrite (Hn eq_refl) in *; clear Hr].
  - destruct (Hr r eq_refl) as [A1 A2 A3 A4]. split; [by etrans|intuition congruence| |].
    + intros x c Hx [->|(r' & Er' & Hd)]%(descends_step _ _ _ _ Hq) Hf.
      2: { assert (r' = r) as -> by congruence. apply A3; [by rewrite (Hother x (Hup r x eq_refl Hd))|by apply (cleared_descends _ _ _ _ Hc1)|done]. }
      assert (c = b) as -> by congruence. rewrite Hf in Hself. apply A4; [done|]. intros [_ Hf']. by rewrite clear_not_failed in Hf'.
    + intros x c Hx Hno. destruct (decide (x = q)) as [->|Hne].
      * assert (c = b) as -> by congruence. destruct (entry_failed b) eqn:Ef; [destruct Hno; split; [by exists 0%nat|done]|]. apply A4; [done|]. by intros [_ ?%eq_true_false_abs].
      * apply A4; [by rewrite Hother|]. intros [Hd%(cleared_descends _ _ _ _ Hc1) Hf]. apply Hno. split; [|done]. apply (descends_step _ _ _ _ Hq). right. by exists r.
  - split; [done|done| |].
    + intros x c Hx [->|(r' & ? & _)]%(descends_step _ _ _ _ Hq) Hf; [|congruence]. assert (c = b) as -> by congruence. by rewrite Hf in Hself.
    + intros x c Hx Hno. destruct (decide (x = q)) as [->|Hne]; [|by rewrite Hother]. assert (c = b) as -> by congruence.
      destruct (entry_failed b) eqn:Ef; [destruct Hno; split; [by exists 0%nat|done]|done].
Qed.

Lemma reconsider_ancestors_spec fuel : forall i q b,
  tree_ok (entries i) -> entries i !! q = Some b -> (Z.to_nat (nHeight b) < fuel)%nat ->
  exists i', reconsider_ancestors fuel i (Some q) = Ok i' /\ ancestors_cleared i i' q.
Proof.
  induction fuel as [|fuel IH]; intros i q b Ht Hq Hf; [lia|]. cbn [reconsider_ancestors]. rewrite (deref_Some _ _ _ Hq). cbn [bindR].
  set (i1 := if entry_failed b then _ else _).
  assert (Hc1 : cleared (entries i) (entries i1)) by (unfold i1; destruct (entry_failed b); [by apply cleared_insert|done]).
  destruct (pprev b) as [r|] eqn:Er.
  - destruct (Ht q b Hq) as (_ & Hprev & _). unfold prev_ok in Hprev. rewrite Er in Hprev. destruct Hprev as (c & Hc & Hh). pose proof (height_nonneg _ Ht r c Hc).
    destruct (cleared_lookup _ _ _ _ Hc1 Hc) as (c' & Hc' & ((_ & _ & Eh & _) & _)%clears_place).
    destruct (IH i1 r c') as (i' & E & A); [by apply (same_tree_ok _ _ (cleared_tree _ _ Hc1))|done|lia|]. exists i'. split; [exact E|].
    apply (ancestors_step i i1 i' q b); rewrite ?Er; try done. by intros r' [= <-].
  - exists i1. split; [by destruct fuel|]. by apply (ancestors_step i i1 i1 q b); rewrite ?Er.
Qed.

(** ** An example *)

(** Coins that are only the hash of the best block. *)
Definition parent_hash (st : store) (p : ptr) : option bytes := b ← st !! p; q ← pprev b; c ← st !! q; Some (phashBlock c).
Definition accept_all : ChainState bytes := {|
  connect_block st v p _ := match st !! p with Some b => Accepted (phashBlock b) b true | None => SystemError end;
  disconnect_block st v p := match parent_hash st p with Some h => Some (h, true) | None => None end;
  periodic_flush _ := true
|}.
#[local] Existing Instance accept_all.

(** A third block, of which only the header is known, and the second block
    connected. *)
Definition index6 : index_state := Eval vm_compute in added index5 3 (example_header (example_hash example_second)).
Definition example_active : node_state bytes := Eval vm_compute in
  match ActivateBestChain 2 (NodeState index6 (example_hash example_genesis)) None with Ok (s, _) => s | Err _ => NodeState index6 [] end.

Definition example_invalidated : node_state bytes := Eval vm_compute in
  match InvalidateBlock example_active 2 with Ok (s, _) => s | Err _ => example_active end.

Definition example_reconsidered : index_state := Eval vm_compute in
  match ReconsiderBlock (ns_index example_invalidated) 3 with Ok i => i | Err _ => ns_index example_invalidated end.

(** Only flags were added and the second block is no candidate any more. *)
Lemma invalidated_trimmed : trimmed (fun x => x = 2%positive) index6 (ns_index example_invalidated).
Proof.
  assert (E : exists b, entries index6 !! 2%positive = Some b
    /\ entries (ns_index example_invalidated) = <[2%positive := fail_entry (fail_entry b BLOCK_FAILED_VALID) BLOCK_FAILED_CHILD]> (entries index6)).
  { eexists. split; vm_compute; reflexivity. }
  destruct E as (b & Hb & E). split; try done.
  - rewrite E. apply (failing_insert _ _ b); [done|]. eapply more_failed_trans; apply more_failed_fail; [by left|by right].
  - intros x Hx. rewrite E. by apply lookup_insert_ne.
  - intros x. change (setBlockIndexCandidates (ns_index example_invalidated)) with [1%positive]. change (setBlockIndexCandidates index6) with [1; 2]%positive. set_solver.
  - intros _. repeat constructor.
Qed.
Lemma invalidated_select : select_ok (ns_index example_invalidated).
Proof.
  assert (I6 : index_inv (Some 1%positive) [] index6).
  { eapply inv_reachable, rtc_r; [exact example_reachable|]. apply (example_add _ _ _ 3 (example_header (example_hash example_second)));
      [vm_compute; reflexivity|done|vm_compute; reflexivity..|]. exists 3%positive. vm_compute. reflexivity. }
  apply (select_ok_trimmed _ _ _ (ii_select _ _ _ I6) invalidated_trimmed). intros x [= <-]. vm_compute. by eexists.
Qed.
Lemma invalidated_example : Tip (chainActive (ns_index example_active)) = Some 2%positive /\ InvalidateBlock example_active 2 = Ok (example_invalidated, true).
Proof. split; [reflexivity|vm_compute; reflexivity]. Qed.
Lemma reconsidered_example :
  ReconsiderBlock (ns_index example_invalidated) 3 = Ok example_reconsidered /\ available (entries example_reconsidered) 2
  /\ worse (entries example_reconsidered) 1 2.
Proof.
  split; [vm_compute; reflexivity|]. split; [by apply (available_sound 3)|].
  eexists _, _. split; [vm_compute; reflexivity|]. split; [vm_compute; reflexivity|]. left. vm_compute. reflexivity.
Qed.
Lemma invalidated_third : in_store (entries (ns_index example_invalidated)) 3 /\ descends (entries (ns_index example_invalidated)) 3 2
  /\ 2%positive ∉ setBlockIndexCandidates (ns_index example_invalidated).
Proof.
  split; [vm_compute; by eexists|]. split; [exists 1%nat; vm_compute; reflexivity|].
  change (setBlockIndexCandidates (ns_index example_invalidated)) with [1%positive]. set_solver.
Qed.

(** ** The property *)

(** An entry that [ReconsiderBlock] clears for [p]: one at or after [p] that is
    not fully valid, or a failed one at or before [p]. *)
Definition reconsiders (st : store) (p q : ptr) (b : CBlockIndex) : Prop := revived st p q b \/ (descends st p q /\ entry_failed b = true).

(** The two loops on one entry. *)
Lemma reconsider_entry i i1 i' t p l q b : select_ok i -> in_store (entries i) p -> reconsidered i i1 t p l -> ancestors_cleared i1 i' p ->
  entries i !! q = Some b -> q ∈ l ->
  (reconsiders (entries i) p q b -> entries i' !! q = Some (clear_failed b)) /\ (~ reconsiders (entries i) p q b -> entries i' !! q = Some b).
Proof.
  intros Hok Hp R A Hq Hl. destruct (revived_dec (entries i) p q b (so_tree i Hok) Hp Hq) as [Hr|Hr].
  - split; [intros _|by intros Hn; destruct Hn; left]. apply (ac_same _ _ _ A); [by apply (rc_revived _ _ _ _ _ R)|]. intros [_ Hf]. by rewrite clear_not_failed in Hf.
  - assert (Hq1 : entries i1 !! q = Some b) by (apply (rc_same _ _ _ _ _ R); [done|tauto]). pose proof (cleared_descends _ _ p q (rc_cleared _ _ _ _ _ R)) as Hd. split.
    + intros [?|[Hpq Hf]]; [done|]. apply (ac_failed _ _ _ A); [done|by apply Hd|done].
    + intros Hn. apply (ac_same _ _ _ A); [done|]. intros [Hpq%Hd Hf]. apply Hn. by right.
Qed.
(** An ancestor is not promoted. *)
Lemma ancestor_not_promoted st t p q : tree_ok st -> in_store st p -> descends st p q -> q <> p -> ~ promoted st t p q.
Proof.
  intros Ht [bp Hp] [k Hk] Hne (b & Hb & [[j Hj] _] & _). pose proof (walk_steps st Ht p bp q b k Hp Hk Hb). pose proof (walk_steps st Ht q b p bp j Hb Hj Hp).
  assert (j = 0%nat) as -> by lia. by injection Hj.
Qed.
Lemma search_candidates i s r q : select_ok i -> FindMostWorkChain i = Ok (s, r) -> r = Some q -> q ∈ setBlockIndexCandidates i.
Proof.
  intros Hok E ->. destruct (FindMostWorkChain_spec i Hok) as (R & s' & r' & E' & B & Hl & _). rewrite E in E'. injection E' as <- <-.
  apply last_elem in Hl. by apply (tr_candidates _ _ _ (sd_trimmed _ _ _ B)) in Hl as [Hl _].
Qed.

(** C40: what [ReconsiderBlock] does to the block index, for every consistent index
    with a tip. It succeeds; the failure flags are cleared of exactly the entries
    at or after the block that are not fully valid and of the failed entries
    before it; no other entry changes, and the active chain does not. The
    candidates gain exactly the entries at or after the block that were not
    valid, are valid now, have all transactions of their chain and are better
    than the tip. An ancestor of the block is never made a candidate, although
    its flags are cleared, so that the search for the most-work chain does not
    choose it even when it is the best block. *)
Theorem reconsider_block_exact i p t :
  select_ok i -> in_store (entries i) p -> Tip (chainActive i) = Some t ->
  exists i', ReconsiderBlock i p = Ok i' /\ select_ok i' /\ chainActive i' = chainActive i
    /\ (forall q, entries i !! q = None -> entries i' !! q = None)
    /\ (forall q b, entries i !! q = Some b -> (reconsiders (entries i) p q b -> entries i' !! q = Some (clear_failed b))
          /\ (~ reconsiders (entries i) p q b -> entries i' !! q = Some b))
    /\ (forall q, q ∈ setBlockIndexCandidates i' <-> q ∈ setBlockIndexCandidates i \/ promoted (entries i) t p q)
    /\ (forall q, pindexBestInvalid i' = Some q <-> pindexBestInvalid i = Some q /\ ~ exists b, entries i !! q = Some b /\ revived (entries i) p q b)
    /\ forall q, descends (entries i) p q -> q <> p -> q ∉ setBlockIndexCandidates i ->
         q ∉ setBlockIndexCandidates i' /\ forall s r, FindMostWorkChain i' = Ok (s, r) -> r <> Some q.
Proof.
  intros Hok Hp Ht. pose proof Hp as [bp Hbp]. destruct (tip_chain _ (so_tree i Hok) _ t (so_chain i Hok) Ht) as (bt & Hbt & _).
  set (l := map fst (map_to_list (entries i))). assert (Hl : forall q, q ∈ l <-> in_store (entries i) q).
  { intros q. unfold l. rewrite list_elem_of_fmap. split; [intros ([x b] & -> & Hx%elem_of_map_to_list); by exists b|]. intros [b Hb]. exists (q, b). split; [done|].
    by apply elem_of_map_to_list. }
  destruct (reconsider_all_spec p t (nHeight bp) l i bp) as (i1 & E1 & R); [done|apply NoDup_fst_map_to_list|apply Hl|done|done|done|by exists bt|].
  destruct (cleared_lookup _ _ _ _ (rc_cleared _ _ _ _ _ R) Hbp) as (bp1 & Hbp1 & ((_ & _ & Eh & _) & _)%clears_place).
  destruct (reconsider_ancestors_spec (S (Z.to_nat (nHeight bp))) i1 p bp1) as (i' & E2 & A); [apply R|done|lia|].
  pose proof (ac_others _ _ _ A) as (O1 & O2 & O3). pose proof (cleared_preorder.(PreOrder_Transitive) _ _ _ (rc_cleared _ _ _ _ _ R) (ac_cleared _ _ _ A)) as Hc.
  assert (Hin : forall q b, entries i !! q = Some b -> q ∈ l) by (intros q b Hq; apply Hl; by exists b).
  assert (Hok' : select_ok i').
  { apply (select_ok_cleared i1 i' (rc_select _ _ _ _ _ R) (ac_cleared _ _ _ A) O1); rewrite ?O2, ?O3; try done; [apply R|]. intros q. by apply (so_candidates i1), R. }
  assert (Hcand : forall q, q ∈ setBlockIndexCandidates i' <-> q ∈ setBlockIndexCandidates i \/ promoted (entries i) t p q).
  { intros q. rewrite O2, (rc_candidates _ _ _ _ _ R). split; [tauto|]. intros [?|Hq]; [by left|]. right. split; [|done]. destruct Hq as (b & Hb & _). by eapply Hin. }
  exists i'. split_and!; [|done|rewrite O1; apply R| | |done| |].
  - unfold ReconsiderBlock. rewrite (deref_Some _ _ _ Hbp). cbn [bindR]. fold l. by rewrite E1.
  - intros q Hq. specialize (Hc q). rewrite Hq in Hc. by inversion Hc.
  - intros q b Hq. apply (reconsider_entry i i1 i' t p l q b); try done. by eapply Hin.
  - intros q. rewrite O3, (rc_invalid _ _ _ _ _ R). split; intros [Hq Hn]; (split; [done|]); [|by intros [_ ?]]. intros (b & Hb & Hr). apply Hn. split; [by eapply Hin|by exists b].
  - intros q Hd Hne Hq. assert (Hq' : q ∉ setBlockIndexCandidates i').
    { rewrite Hcand. intros [?|Hx]; [done|]. by eapply ancestor_not_promoted; [apply Hok|..]. }
    split; [done|]. intros s r E Hr. apply Hq'. by eapply search_candidates.
Qed.
(** The second block of a chain is active and is declared invalid, which leaves the
    first one as the tip; then its child, of which only the header is known, is
    reconsidered. All blocks of the chain of the second block have arrived and
    none is marked as failed, it is better than the tip, and still it is not
    chosen. *)
Lemma reconsider_block_exact_witness :
  (Tip (chainActive (ns_index example_active)) = Some 2%positive /\ InvalidateBlock example_active 2 = Ok (example_invalidated, true))
  /\ exists i', ReconsiderBlock (ns_index example_invalidated) 3 = Ok i' /\ available (entries i') 2 /\ worse (entries i') 1 2
    /\ Tip (chainActive i') = Some 1%positive /\ forall s r, FindMostWorkChain i' = Ok (s, r) -> r <> Some 2%positive.
Proof.
  split; [exact invalidated_example|].
  destruct reconsidered_example as (Er & Ha & Hw), invalidated_third as (H3 & Hd & Hc).
  destruct (reconsider_block_exact (ns_index example_invalidated) 3 1 invalidated_select H3 eq_refl) as (i' & E & _ & Ec & _ & _ & _ & _ & Hanc).
  rewrite E in Er. injection Er as ->. exists example_reconsidered. split; [exact E|]. split; [exact Ha|]. split; [exact Hw|]. split; [rewrite Ec; reflexivity|].
  apply Hanc; [exact Hd|discriminate|exact Hc].
Defined.
